(* ===== verification/_CoqProject ===== *)
-Q . S2P
Prelude.v
Riscv.v
Mem.v
Kalloc.v
KallocSpec.v
Vm.v
VmRep.v
VmSpec.v
Cow.v
Fork.v
CowFault.v
CopyOut.v
VmGrow.v
VmFree.v
VmLife.v
RepCheck.v
Demo.v
VmTheorems.v
CString.v
Printf.v
Pipe.v
BufCache.v
Bio.v
Log.v
LogCrash.v
LogOps.v
Fs.v
FsBlocks.v
FsFile.v
FsWrite.v
FsClaims.v
FsPath.v
Sh.v
ShParse.v
ShTotal.v
ShRun.v
Grep.v
File.v
Sysfile.v
FileRefs.v
Umalloc.v
UmallocSpec.v
UmallocClaims.v
Console.v
ConsoleSpec.v
Monitor.v
Proc.v
ProcTree.v
Virtio.v
VirtioSpec.v
VirtioInv.v
VirtioSteps.v
VirtioClaims.v
FsDir.v
Syscall.v
Exec.v
ExecImage.v
ExecSpec.v
ExecKernel.v
TreeDemo.v
SyscallSpec.v
ExecClaims.v
Trap.v
TrapSpec.v
Spinlock.v
