(* ===== verification/Prelude.v ===== *)
(** * xv6 (copy-on-write fork) : a verification library

    This library models the xv6 kernel of the copy-on-write lab, its shell, its
    user-level allocator and grep, and proves what makes them correct.  C
    functions are Rocq functions with the names of the source, and all paths
    below are under src/.

    ** How the code is modelled

    Unsigned C integers are numbers of [Z] kept reduced ([u8] ... [u64]); signed
    ones are read back from two's complement ([i32]).  Sequential kernel code is
    a state transformer [M] that may panic.  Specifications use the judgement
    [wp], which is total: the code returns, without a panic, in a state with
    the given property.  Code that several processors or processes run at the
    same time is a step relation, and its theorems hold for every interleaving.

    ** The parts

    - Memory.  [Riscv] has the constants and the page-table entry format of
      kernel/riscv.h, memlayout.h and param.h; [Mem] byte-addressed memory with
      [memset] and [memmove]; [Kalloc] and [KallocSpec] the page allocator of
      kernel/kalloc.c with its free list in memory and its reference counts.
      [Vm] is kernel/vm.c, the copy-on-write routines of kernel/trap.c and the
      page-table functions of kernel/proc.c, on page tables stored in memory.
      [VmRep] gives these bytes a meaning ([rep]); [VmSpec], [Cow], [Fork],
      [CowFault], [CopyOut], [VmGrow], [VmFree] and [VmLife] have the
      specifications; [RepCheck] decides the invariants, [Demo] has example
      machines and [VmTheorems] the results.
    - Traps and system calls.  [Syscall] is kernel/syscall.c, kernel/sysproc.c
      and [growproc], [SyscallSpec] their theorems; [Trap] is kernel/trap.c, and
      [TrapSpec] follows a store of a user program through the page fault.
    - Programs.  [Exec] is kernel/exec.c and [sys_exec].  [ExecSpec] says what a
      file and arguments give ([elf_exec]) and proves [exec] against an
      interface to the file system; [ExecKernel] shows that kernel/fs.c and
      kernel/log.c implement it; [ExecImage] is the memory side, [TreeDemo] an
      example disk and process, [ExecClaims] has the results.
    - File system.  [BufCache] is the interface of the buffer cache and [Bio]
      its implementation in kernel/bio.c; [Log], [LogOps] and [LogCrash] are
      kernel/log.c; [Fs] is kernel/fs.c, with [FsBlocks], [FsFile], [FsWrite],
      [FsDir], [FsPath] and [FsClaims].  [File], [Sysfile] and [FileRefs] are
      kernel/file.c and kernel/sysfile.c.
    - Devices.  [Virtio], [VirtioSpec], [VirtioInv], [VirtioSteps] and
      [VirtioClaims] are kernel/virtio_disk.c; [Console] and [ConsoleSpec] are
      kernel/console.c and kernel/uart.c.
    - Processes.  [Spinlock] is kernel/spinlock.c; [Monitor] is sleep and wakeup
      under a lock, with kernel/sleeplock.c; [Proc] and [ProcTree] are the
      process table of kernel/proc.c; [Pipe] is kernel/pipe.c.
    - User programs and libraries.  [CString] is kernel/string.c and part of
      user/ulib.c; [Printf] both printf.c; [Sh], [ShParse], [ShTotal] and
      [ShRun] user/sh.c; [Umalloc], [UmallocSpec] and [UmallocClaims]
      user/umalloc.c; [Grep] user/grep.c.

    ** What the theorems show

    - Fork shares memory without anyone seeing it: [uvmcopy_fork],
      [cow_alloc_private], [copyout_isolated] and, for a user program,
      [user_store_private].  [sbrk_correct] and [exec_correct] say what replaces
      or resizes an address space, also when memory runs out.
    - The file system: transactions are atomic across crashes, reservations fit
      the log, files are sequences of bytes, paths lead to the inode they name,
      the reference counts of open files count descriptors.
    - Concurrency: spin locks exclude, monitors behave as if each critical
      section were atomic, processes form a tree and exit statuses arrive, pipes
      are queues, the disk driver behaves as an atomic disk and makes progress.
    - User code: the shell builds and runs what its grammar says, malloc keeps
      blocks apart, grep prints the matching lines.
    - Faults of the code: the theorems of kind error exhibit states that the
      code handles wrongly, for instance [store_at_size_panics],
      [cow_alloc_oom] and [copyout_readonly_shared].

    ** Bounds

    A loop that is not structural has a bound on its rounds, and the theorems
    show that it is not reached, since [wp] excludes [NoFuel].  The bound of the
    loops over pages is 2^65, above the number of pages of any 64-bit range;
    that of [freerange] 2^52; that of [sys_sleep] 2^32, as each round but the
    last two waits for a tick and there are fewer than 2^31 to wait for;
    [BUFFUEL] is 64 for a list of [NBUF] = 30 buffers; [CHAINFUEL] is 16 for
    eight descriptors; path lookup and the shell's parser have the length of
    their input.  The string functions of [CString] take the bound as an
    argument and return when it exceeds the length of the string.

    ** Assumptions

    What a part uses of another that it is not composed with is a parameter or
    an interface: the virtio device, the interrupt controller and the scheduler
    in [Trap], the process calls and the clock in [Syscall], the success of
    copies to user memory in [Fs].  Memory is sequentially consistent.  [fork]
    is modelled by parts and not as one function: memory in [Fork], the table
    in [Proc], descriptors in [Sysfile].  The disk of [Bio] and the driver of
    [Virtio] are each related to an atomic disk, with no theorem that joins
    them.

    Some theorems have limits of the code as premises, and say so.  A page has
    at most 255 references ([few_refs]), since the counters have eight bits; a
    user program asks [malloc] for at most 2^31 - 32 bytes, since the size of an
    sbrk is an int, and its heap fits physical memory ([phys]); disk blocks are
    below 2^31, since sector numbers have 32 bits; copies into the kernel for
    [writei] deliver each chunk whole or not at all ([src_is]); the pages that
    [copyout] stores to are writable or copy-on-write ([writable]); the shell's
    [malloc] finds memory ([new_node]), as the shell does not test it.  Liveness
    needs the environment: the disk acts when it has been notified or has
    requests to finish ([responsive]), and a sleep for the clock ends with a tick
    or a kill ([clock]).

    ** Not modelled

    Assembly (entry.S, kernelvec.S, swtch.S, trampoline.S, initcode.S), as it is
    not C; kernel/plic.c, start.c and main.c, which only touch device and
    machine-mode registers or call initialisers; kernel/ramdisk.c, which is not
    built; mkfs/mkfs.c, which runs on the host; the system call wrappers [gets]
    and [stat] of user/ulib.c; the test programs; the small user programs (cat,
    echo, init, kill, ln, ls, mkdir, rm, wc, zombie), which are mostly system
    calls and output; user/usys.pl, declarations and scripts. *)

From stdpp Require Export base gmap list strings numbers fin_maps.
From Stdlib Require Export ZArith Lia.

#[export] Set Default Goal Selector "!".
#[export] Set Warnings "-clear-no-such-hyp".

Declare Scope xv6_scope.
Delimit Scope xv6_scope with xv6.
Global Open Scope Z_scope.

(** ** C integer types (kernel/types.h): unsigned types are kept reduced,
    signed ones are read back from two's complement. *)

Definition u8 (x : Z) : Z := x mod 2 ^ 8.
Definition u16 (x : Z) : Z := x mod 2 ^ 16.
Definition u32 (x : Z) : Z := x mod 2 ^ 32.
Definition u64 (x : Z) : Z := x mod 2 ^ 64.

Definition sgn (w : Z) (x : Z) : Z :=
  let y := x mod 2 ^ w in if y <? 2 ^ (w - 1) then y else y - 2 ^ w.
Definition i8 : Z -> Z := sgn 8.
Definition i16 : Z -> Z := sgn 16.
Definition i32 : Z -> Z := sgn 32.

(** ** Kernel computations

    A kernel function is a state transformer that may call [panic] (the kernel
    prints a message and spins for ever).  [NoFuel] is the result of a loop cut
    by its iteration bound; the total-correctness judgement [wp] below excludes
    it, so a theorem stated with [wp] says that the loop ends. *)

Inductive res (S A : Type) : Type :=
| Ok (a : A) (s : S)
| Panic (msg : string)
| NoFuel.
Arguments Ok {S A} a s.
Arguments Panic {S A} msg.
Arguments NoFuel {S A}.

Definition M (S A : Type) : Type := S -> res S A.

#[export] Instance M_ret S : MRet (M S) := fun A a s => Ok a s.
#[export] Instance M_bind S : MBind (M S) := fun A B f m s =>
  match m s with
  | Ok a s' => f a s'
  | Panic msg => Panic msg
  | NoFuel => NoFuel
  end.

Definition nofuel {S A} : M S A := fun _ => NoFuel.
Definition panic {S A} (msg : string) : M S A := fun _ => Panic msg.
Definition get {S} : M S S := fun s => Ok s s.
Definition gets {S A} (f : S -> A) : M S A := fun s => Ok (f s) s.
Definition put {S} (s : S) : M S unit := fun _ => Ok tt s.
Definition modify {S} (f : S -> S) : M S unit := fun s => Ok tt (f s).

(** Bounded iteration.  The bound is a binary number so that a bound such as
    2^52 costs nothing: the recursion stops as soon as the body returns. *)

Section Loop.
Context {S A B : Type} (step : A -> M S (A + B)).

Fixpoint iter_pos (p : positive) (a : A) : M S (A + B) :=
  match p with
  | xH => step a
  | xO p =>
      r ← iter_pos p a;
      match r with inl a' => iter_pos p a' | inr b => mret (inr b) end
  | xI p =>
      r ← step a;
      match r with
      | inl a' =>
          r ← iter_pos p a';
          match r with inl a'' => iter_pos p a'' | inr b => mret (inr b) end
      | inr b => mret (inr b)
      end
  end.

Definition loop (p : positive) (a : A) : M S B :=
  r ← iter_pos p a;
  match r with inl _ => nofuel | inr b => mret b end.
End Loop.

(** ** Total-correctness weakest preconditions *)

Definition wp {S A} (m : M S A) (s : S) (Q : A -> S -> Prop) : Prop :=
  match m s with Ok a s' => Q a s' | _ => False end.

Section Wp.
Context {S : Type}.

Lemma wp_ret {A} (a : A) (s : S) (Q : A -> S -> Prop) :
  Q a s -> wp (mret a) s Q.
Proof. done. Qed.

Lemma wp_bind {A B} (m : M S A) (f : A -> M S B) s Q :
  wp m s (fun a s' => wp (f a) s' Q) -> wp (m ≫= f) s Q.
Proof. unfold wp, mbind, M_bind. by destruct (m s). Qed.

Lemma wp_bind_inv {A B} (m : M S A) (f : A -> M S B) s Q :
  wp (m ≫= f) s Q -> wp m s (fun a s' => wp (f a) s' Q).
Proof. unfold wp, mbind, M_bind. by destruct (m s). Qed.

Lemma wp_bind_assoc {A B C} (m : M S A) (f : A -> M S B) (g : B -> M S C) s Q :
  wp ((m ≫= f) ≫= g) s Q -> wp (m ≫= (fun a => f a ≫= g)) s Q.
Proof. unfold wp, mbind, M_bind. by destruct (m s). Qed.

Lemma wp_mono {A} (m : M S A) s (Q Q' : A -> S -> Prop) :
  wp m s Q -> (forall a s', Q a s' -> Q' a s') -> wp m s Q'.
Proof. unfold wp. destruct (m s); naive_solver. Qed.

Lemma wp_conj {A} (m : M S A) s (Q Q' : A -> S -> Prop) :
  wp m s Q -> wp m s Q' -> wp m s (fun a s' => Q a s' /\ Q' a s').
Proof. unfold wp. by destruct (m s). Qed.

Lemma wp_get s (Q : S -> S -> Prop) : Q s s -> wp get s Q.
Proof. done. Qed.
Lemma wp_gets {A} (f : S -> A) s (Q : A -> S -> Prop) :
  Q (f s) s -> wp (gets f) s Q.
Proof. done. Qed.
Lemma wp_put s' s (Q : unit -> S -> Prop) : Q tt s' -> wp (put s') s Q.
Proof. done. Qed.
Lemma wp_modify f s (Q : unit -> S -> Prop) : Q tt (f s) -> wp (modify f) s Q.
Proof. done. Qed.

Lemma wp_elim {A} (m : M S A) s Q :
  wp m s Q -> exists a s', m s = Ok a s' /\ Q a s'.
Proof. unfold wp. destruct (m s); naive_solver. Qed.

Lemma wp_ok {A} (m : M S A) s a s' (Q : A -> S -> Prop) :
  wp m s Q -> m s = Ok a s' -> Q a s'.
Proof. unfold wp. intros H E. by rewrite E in H. Qed.

Lemma wp_intro {A} (m : M S A) s a s' (Q : A -> S -> Prop) :
  m s = Ok a s' -> Q a s' -> wp m s Q.
Proof. unfold wp. by intros ->. Qed.
End Wp.

(** Inversion of a computation that has returned. *)
Lemma bind_ok {S A B} (m : M S A) (f : A -> M S B) s b s' :
  (m ≫= f) s = Ok b s' -> exists a s1, m s = Ok a s1 /\ f a s1 = Ok b s'.
Proof. unfold mbind, M_bind. destruct (m s) as [a s1| |]; [|done..]. by exists a, s1. Qed.

(** ** Sums over lists *)

Fixpoint total {A} (f : A -> Z) (l : list A) : Z :=
  match l with [] => 0 | x :: l => f x + total f l end.

Lemma total_insert {A} (f : A -> Z) l k x y :
  l !! k = Some x -> total f (<[k := y]> l) = total f l - f x + f y.
Proof.
  revert k. induction l as [|z l IH]; intros k Hk; [done|]. destruct k as [|k]; cbn in Hk.
  - injection Hk as ->. cbn. lia.
  - change (<[S k := y]> (z :: l)) with (z :: <[k := y]> l). cbn [total]. rewrite (IH _ Hk). lia.
Qed.

Lemma total_le {A} (f g : A -> Z) l : (forall k x, l !! k = Some x -> f x <= g x) -> total f l <= total g l.
Proof.
  induction l as [|z l IH]; intros H; [done|]. cbn. pose proof (H 0%nat z eq_refl).
  specialize (IH (fun k => H (S k))). lia.
Qed.

Lemma total_ge {A} (f : A -> Z) l k x : (forall y, 0 <= f y) -> l !! k = Some x -> f x <= total f l.
Proof.
  intros Hf. assert (forall l, 0 <= total f l) as H0
    by (intros l'; induction l' as [|z l' IH]; cbn; [lia|]; pose proof (Hf z); lia).
  revert k. induction l as [|z l IH]; intros k Hk; [done|]. destruct k as [|k]; cbn in Hk |- *.
  - injection Hk as ->. specialize (H0 l). lia.
  - pose proof (Hf z). specialize (IH _ Hk). lia.
Qed.

Lemma total_replicate {A} (f : A -> Z) n x : f x = 0 -> total f (replicate n x) = 0.
Proof. intros E. induction n as [|n IH]; [done|]. cbn. lia. Qed.

Lemma total_scale {A} (f : A -> Z) c l : total (fun x => c * f x) l = c * total f l.
Proof. induction l as [|z l IH]; cbn; [lia|]. lia. Qed.

(** Iterating [n] times, in unary, and its agreement with [iter_pos]. *)
Section LoopFacts.
Context {S A B : Type} (step : A -> M S (A + B)).

Fixpoint iter_nat (n : nat) (a : A) : M S (A + B) :=
  match n with
  | O => mret (inl a)
  | Datatypes.S n =>
      r ← step a;
      match r with inl a' => iter_nat n a' | inr b => mret (inr b) end
  end.

Lemma iter_nat_add n1 n2 a s :
  iter_nat (n1 + n2) a s =
  (r ← iter_nat n1 a;
   match r with inl a' => iter_nat n2 a' | inr b => mret (inr b) end) s.
Proof.
  revert a s; induction n1 as [|n1 IH]; intros a s; [done|].
  cbn [iter_nat Nat.add]. unfold mbind, M_bind in *.
  destruct (step a s) as [[a'|b] s'| |]; [apply IH|done..].
Qed.

Lemma iter_pos_nat p a s : iter_pos step p a s = iter_nat (Pos.to_nat p) a s.
Proof.
  revert a s; induction p as [p IH|p IH|]; intros a s.
  - rewrite Pos2Nat.inj_xI. cbn [iter_pos iter_nat]. unfold mbind, M_bind.
    destruct (step a s) as [[a'|b] s'| |]; [|done..].
    replace (2 * Pos.to_nat p)%nat with (Pos.to_nat p + Pos.to_nat p)%nat by lia.
    rewrite iter_nat_add. unfold mbind, M_bind. rewrite IH.
    destruct (iter_nat _ _ _) as [[a''|b] s''| |]; [apply IH|done..].
  - rewrite Pos2Nat.inj_xO. cbn [iter_pos].
    replace (2 * Pos.to_nat p)%nat with (Pos.to_nat p + Pos.to_nat p)%nat by lia.
    rewrite iter_nat_add. unfold mbind, M_bind. rewrite IH.
    destruct (iter_nat _ _ _) as [[a''|b] s''| |]; [apply IH|done..].
  - rewrite Pos2Nat.inj_1. cbn [iter_pos iter_nat]. unfold mbind, M_bind.
    by destruct (step a s) as [[a'|b] s'| |].
Qed.

(** Total correctness of a loop: an invariant indexed by the number of
    remaining iterations. *)
Lemma wp_loop (I : nat -> A -> S -> Prop) (Q : B -> S -> Prop) p n a s :
  (forall n a s, I n a s ->
     wp (step a) s (fun r s' =>
       match r with
       | inl a' => exists n', (n' < n)%nat /\ I n' a' s'
       | inr b => Q b s'
       end)) ->
  I n a s -> (n < Pos.to_nat p)%nat -> wp (loop step p a) s Q.
Proof.
  intros Hstep HI Hp. unfold loop. apply wp_bind.
  unfold wp at 1. rewrite iter_pos_nat.
  revert n a s HI Hp. generalize (Pos.to_nat p) as k.
  induction k as [|k IH]; intros n a s HI Hk; [lia|].
  cbn [iter_nat]. unfold mbind, M_bind.
  specialize (Hstep n a s HI). unfold wp in Hstep.
  destruct (step a s) as [[a'|b] s'| |]; [|done..].
  destruct Hstep as (n' & Hn' & HI'). eapply IH; [done|lia].
Qed.

(** The same with an integer variant computed from the loop variables. *)
Lemma wp_loop_var (V : A -> Z) (I : A -> S -> Prop) (Q : B -> S -> Prop) p a s :
  (forall a s, I a s ->
     wp (step a) s (fun r s' =>
       match r with
       | inl a' => I a' s' /\ 0 <= V a' < V a
       | inr b => Q b s'
       end)) ->
  I a s -> V a < Z.pos p -> wp (loop step p a) s Q.
Proof.
  intros Hstep HI Hp.
  apply (wp_loop (fun n a s => I a s /\ V a <= Z.of_nat n) Q p (Z.to_nat (V a))).
  - intros n a' s' [HI' Hn]. eapply wp_mono; [by apply Hstep|].
    intros [a''|b] s''; [|done]. intros [HI'' HV]. exists (Z.to_nat (V a'')).
    split; [lia|]. split; [done|lia].
  - split; [done|lia].
  - lia.
Qed.

(** One unfolding of a loop, for witnesses and error paths. *)
Lemma loop_first p a s :
  (1 < p)%positive ->
  loop step p a s =
  (r ← step a;
   match r with inl a' => loop step (Pos.pred p) a' | inr b => mret b end) s.
Proof.
  intros Hp. unfold loop at 1. unfold mbind at 1, M_bind at 1.
  rewrite iter_pos_nat.
  destruct (Pos.to_nat p) as [|n] eqn:E; [lia|]. cbn [iter_nat].
  unfold mbind, M_bind.
  destruct (step a s) as [[a'|b] s'| |]; [|done..].
  unfold loop, mbind, M_bind. rewrite iter_pos_nat.
  replace (Pos.to_nat (Pos.pred p)) with n by lia. done.
Qed.
End LoopFacts.

(** ** Counting the entries of a finite map *)

Section Count.
Context `{Countable K} {A : Type} (P : K * A -> Prop) `{!forall kv, Decision (P kv)}.

Definition cnt (m : gmap K A) : Z := Z.of_nat (size (filter P m)).

Lemma cnt_delete m k x :
  m !! k = Some x -> cnt (delete k m) = cnt m - if decide (P (k, x)) then 1 else 0.
Proof.
  intros Hk. unfold cnt. rewrite map_filter_delete. case_decide as Hd.
  - assert (filter P m !! k = Some x) as Hf by (by apply map_lookup_filter_Some).
    rewrite map_size_delete_Some by (by eexists).
    assert (size (filter P m) <> 0%nat); [|lia].
    apply map_size_ne_0_lookup. exists k. by eexists.
  - rewrite map_size_delete_None; [lia|]. apply map_lookup_filter_None. right. naive_solver.
Qed.

Lemma cnt_insert_new m k x :
  m !! k = None -> cnt (<[k := x]> m) = cnt m + if decide (P (k, x)) then 1 else 0.
Proof.
  intros Hk. pose proof (cnt_delete (<[k := x]> m) k x (lookup_insert_eq _ _ _)) as Hd.
  rewrite delete_insert_id in Hd by done. lia.
Qed.

Lemma cnt_insert m k x y :
  m !! k = Some y ->
  cnt (<[k := x]> m) =
  cnt m - (if decide (P (k, y)) then 1 else 0) + (if decide (P (k, x)) then 1 else 0).
Proof.
  intros Hk. rewrite <- insert_delete_eq, cnt_insert_new by apply lookup_delete_eq.
  by rewrite (cnt_delete m k y).
Qed.

Lemma cnt_pos m k x : m !! k = Some x -> P (k, x) -> 1 <= cnt m.
Proof.
  intros Hk HP. unfold cnt. assert (size (filter P m) <> 0%nat); [|lia].
  apply map_size_ne_0_lookup. exists k, x. by apply map_lookup_filter_Some.
Qed.

Lemma cnt_nonneg m : 0 <= cnt m.
Proof. unfold cnt. lia. Qed.

Lemma cnt_one m k x k' x' :
  cnt m = 1 -> m !! k = Some x -> P (k, x) -> m !! k' = Some x' -> P (k', x') -> k = k'.
Proof.
  intros H1 Hk HP Hk' HP'. destruct (decide (k = k')) as [|Hne]; [done|].
  pose proof (cnt_delete m k x Hk) as Hd. rewrite decide_True in Hd by done.
  assert (1 <= cnt (delete k m)); [|lia].
  apply (cnt_pos _ k' x'); [|done]. by rewrite lookup_delete_ne.
Qed.

Lemma cnt_two m k x k' x' :
  m !! k = Some x -> P (k, x) -> m !! k' = Some x' -> P (k', x') -> k <> k' -> 2 <= cnt m.
Proof.
  intros Hk HP Hk' HP' Hne. pose proof (cnt_delete m k x Hk) as Hd.
  rewrite decide_True in Hd by done.
  assert (1 <= cnt (delete k m)); [|lia].
  apply (cnt_pos _ k' x'); [|done]. by rewrite lookup_delete_ne.
Qed.

Lemma cnt_zero m : (forall k x, m !! k = Some x -> ~ P (k, x)) -> cnt m = 0.
Proof.
  intros Hm. unfold cnt. assert (filter P m = ∅) as ->; [|by rewrite map_size_empty].
  apply map_empty. intros k. apply map_lookup_filter_None. right. intros x Hk. by apply Hm.
Qed.

(** Entries told apart by a key in a list are at most as many as the list. *)
Lemma cnt_bound `{EqDecision B} (f : K -> B) (l : list B) m :
  (forall k x, m !! k = Some x -> P (k, x) -> f k ∈ l) ->
  (forall k x k' x', m !! k = Some x -> P (k, x) -> m !! k' = Some x' -> P (k', x') ->
     f k = f k' -> k = k') ->
  cnt m <= Z.of_nat (length l).
Proof.
  intros Hin Hinj. unfold cnt. rewrite <- length_map_to_list.
  rewrite <- (length_fmap (f ∘ fst)). apply Nat2Z.inj_le, submseteq_length, NoDup_submseteq.
  - apply NoDup_fmap_2_strong; [|apply NoDup_map_to_list].
    intros [k x] [k' x'] [Hk HP]%elem_of_map_to_list%map_lookup_filter_Some
      [Hk' HP']%elem_of_map_to_list%map_lookup_filter_Some Hf. cbn in Hf.
    assert (k = k') as -> by eauto. naive_solver.
  - intros b ([k x] & -> & [Hk HP]%elem_of_map_to_list%map_lookup_filter_Some)%list_elem_of_fmap.
    cbn. by eapply Hin.
Qed.
End Count.

(** ** Proof automation *)

Create HintDb xv6.

Ltac wp_step :=
  lazymatch goal with
  | |- wp (mret _) _ _ => apply wp_ret
  | |- wp (mbind _ _) _ _ => apply wp_bind
  | |- wp get _ _ => apply wp_get
  | |- wp (gets _) _ _ => apply wp_gets
  | |- wp (put _) _ _ => apply wp_put
  | |- wp (modify _) _ _ => apply wp_modify
  | |- wp (if ?b then _ else _) _ _ => destruct b eqn:?
  end; cbv beta.

Ltac bool_to_prop :=
  repeat match goal with
  | H : (_ <? _) = true |- _ => apply Z.ltb_lt in H
  | H : (_ <? _) = false |- _ => apply Z.ltb_ge in H
  | H : (_ <=? _) = true |- _ => apply Z.leb_le in H
  | H : (_ <=? _) = false |- _ => apply Z.leb_gt in H
  | H : (_ =? _) = true |- _ => apply Z.eqb_eq in H
  | H : (_ =? _) = false |- _ => apply Z.eqb_neq in H
  | H : (_ >=? _) = _ |- _ => rewrite Z.geb_leb in H
  | H : (_ >? _) = _ |- _ => rewrite Z.gtb_ltb in H
  | H : negb _ = true |- _ => apply negb_true_iff in H
  | H : negb _ = false |- _ => apply negb_false_iff in H
  | H : _ && _ = true |- _ => apply andb_true_iff in H; destruct H
  | H : _ && _ = false |- _ => apply andb_false_iff in H
  | H : _ || _ = false |- _ => apply orb_false_iff in H; destruct H
  | H : _ || _ = true |- _ => apply orb_true_iff in H
  end.

(** [lia] with Euclidean division and modulo by constants. *)
Ltac dlia := Z.to_euclidean_division_equations; lia.
