(* ===== verification/Riscv.v ===== *)
(** * kernel/riscv.h, kernel/memlayout.h and kernel/param.h

    Page arithmetic, the Sv39 page-table entry format, the memory layout and
    the kernel's sizes, with the bit-level facts that the page-table proofs
    use: every entry is a page frame number above ten flag bits, and a virtual
    address is three nine-bit indices above a twelve-bit offset. *)

From S2P Require Import Prelude.

(** ** kernel/param.h *)
Definition NPROC : Z := 64.
Definition NCPU : Z := 8.
Definition NOFILE : Z := 16.
Definition NFILE : Z := 100.
Definition NINODE : Z := 50.
Definition NDEV : Z := 10.
Definition ROOTDEV : Z := 1.
Definition MAXARG : Z := 32.
Definition MAXOPBLOCKS : Z := 10.
Definition LOGSIZE : Z := MAXOPBLOCKS * 3.
Definition NBUF : Z := MAXOPBLOCKS * 3.
Definition FSSIZE : Z := 2000.
Definition MAXPATH : Z := 128.

(** ** kernel/riscv.h: pages and page-table entries *)
Definition PGSIZE : Z := 4096.
Definition PGSHIFT : Z := 12.

Definition PGROUNDUP (sz : Z) : Z :=
  Z.land (u64 (sz + PGSIZE - 1)) (u64 (Z.lnot (PGSIZE - 1))).
Definition PGROUNDDOWN (a : Z) : Z := Z.land a (u64 (Z.lnot (PGSIZE - 1))).

Definition PTE_V : Z := Z.shiftl 1 0.
Definition PTE_R : Z := Z.shiftl 1 1.
Definition PTE_W : Z := Z.shiftl 1 2.
Definition PTE_X : Z := Z.shiftl 1 3.
Definition PTE_U : Z := Z.shiftl 1 4.
Definition PTE_RSW_COW : Z := Z.shiftl 1 8.

Definition PA2PTE (pa : Z) : Z := u64 (Z.shiftl (Z.shiftr pa 12) 10).
Definition PTE2PA (pte : Z) : Z := u64 (Z.shiftl (Z.shiftr pte 10) 12).
Definition PTE_FLAGS (pte : Z) : Z := Z.land pte 1023.

Definition PXMASK : Z := 511.
Definition PXSHIFT (level : Z) : Z := PGSHIFT + 9 * level.
Definition PX (level va : Z) : Z := Z.land (Z.shiftr va (PXSHIFT level)) PXMASK.

Definition MAXVA : Z := Z.shiftl 1 (9 + 9 + 9 + 12 - 1).

Definition SATP_SV39 : Z := Z.shiftl 8 60.
Definition MAKE_SATP (pagetable : Z) : Z := Z.lor SATP_SV39 (Z.shiftr pagetable 12).

(** [if (w & f)] for a word and a mask. *)
Definition flag (w f : Z) : bool := negb (Z.land w f =? 0).
(** [w &= ~f] on a 64-bit word. *)
Definition clear (w f : Z) : Z := Z.land w (u64 (Z.lnot f)).

(** ** kernel/memlayout.h *)
Definition UART0 : Z := 0x10000000.
Definition UART0_IRQ : Z := 10.
Definition VIRTIO0 : Z := 0x10001000.
Definition VIRTIO0_IRQ : Z := 1.
Definition PLIC : Z := 0x0c000000.
Definition KERNBASE : Z := 0x80000000.
Definition PHYSTOP : Z := KERNBASE + 128 * 1024 * 1024.
Definition TRAMPOLINE : Z := MAXVA - PGSIZE.
Definition KSTACK (p : Z) : Z := TRAMPOLINE - (p + 1) * 2 * PGSIZE.
Definition TRAPFRAME : Z := TRAMPOLINE - PGSIZE.

(** The symbols that kernel/kernel.ld defines: the page of trampoline code is
    the last one of the text, which ends at [etext]; [end] follows the data. *)
Class Layout := {
  kend : Z;
  etext : Z;
  trampoline : Z;
  layout_tramp : trampoline mod PGSIZE = 0;
  layout_etext : etext = trampoline + PGSIZE;
  layout_base : KERNBASE <= trampoline;
  layout_end : etext <= kend <= PHYSTOP
}.

(** ** Words as bit fields *)

Lemma lor_add_pow2 (x y k : Z) :
  0 <= k -> 0 <= y < 2 ^ k -> Z.lor (x * 2 ^ k) y = x * 2 ^ k + y.
Proof.
  intros Hk Hy.
  assert (Z.land (x * 2 ^ k) y = 0) as Hd.
  { apply Z.bits_inj'. intros n Hn. rewrite Z.land_spec, Z.bits_0.
    destruct (Z.lt_ge_cases n k).
    - by rewrite Z.mul_pow2_bits_low.
    - rewrite andb_comm. replace y with (y mod 2 ^ k) by (apply Z.mod_small; lia).
      by rewrite Z.mod_pow2_bits_high by lia. }
  by rewrite Z.add_nocarry_lxor, Z.lxor_lor by done.
Qed.

Lemma shiftr_lor_small (w f k : Z) :
  0 <= k -> 0 <= f < 2 ^ k -> Z.shiftr (Z.lor w f) k = Z.shiftr w k.
Proof.
  intros Hk Hf. rewrite Z.shiftr_lor, (Z.shiftr_div_pow2 f) by lia.
  by rewrite (Z.div_small f), Z.lor_0_r.
Qed.

Lemma flag_testbit w k : 0 <= k -> flag w (Z.shiftl 1 k) = Z.testbit w k.
Proof.
  intros Hk. unfold flag. rewrite Z.shiftl_1_l.
  destruct (Z.testbit w k) eqn:E.
  - apply negb_true_iff, Z.eqb_neq. intros H.
    assert (Z.testbit (Z.land w (2 ^ k)) k = false) as H' by (rewrite H; apply Z.bits_0).
    rewrite Z.land_spec, E, Z.pow2_bits_true in H' by lia. done.
  - apply negb_false_iff, Z.eqb_eq. apply Z.bits_inj'. intros n Hn.
    rewrite Z.land_spec, Z.bits_0.
    destruct (decide (n = k)) as [->|]; [by rewrite E|].
    by rewrite Z.pow2_bits_false, andb_false_r by lia.
Qed.

Lemma flag_V w : flag w PTE_V = Z.testbit w 0.
Proof. by apply flag_testbit. Qed.
Lemma flag_R w : flag w PTE_R = Z.testbit w 1.
Proof. by apply flag_testbit. Qed.
Lemma flag_W w : flag w PTE_W = Z.testbit w 2.
Proof. by apply flag_testbit. Qed.
Lemma flag_X w : flag w PTE_X = Z.testbit w 3.
Proof. by apply flag_testbit. Qed.
Lemma flag_U w : flag w PTE_U = Z.testbit w 4.
Proof. by apply flag_testbit. Qed.
Lemma flag_COW w : flag w PTE_RSW_COW = Z.testbit w 8.
Proof. by apply flag_testbit. Qed.

Lemma u64_lnot f : 0 <= f < 2 ^ 64 -> u64 (Z.lnot f) = 2 ^ 64 - 1 - f.
Proof.
  intros Hf. unfold u64, Z.lnot. symmetry. apply Zmod_unique with (q := -1); lia.
Qed.

Lemma clear_spec w f n :
  0 <= w < 2 ^ 64 -> 0 <= n ->
  Z.testbit (clear w f) n = Z.testbit w n && negb (Z.testbit f n).
Proof.
  intros Hw Hn. unfold clear, u64. rewrite Z.land_spec.
  destruct (Z.lt_ge_cases n 64).
  - rewrite Z.mod_pow2_bits_low by lia. by rewrite Z.lnot_spec.
  - replace w with (w mod 2 ^ 64) by (apply Z.mod_small; lia).
    by rewrite (Z.mod_pow2_bits_high w) by lia.
Qed.

Lemma shiftr_clear w f k :
  0 <= w < 2 ^ 64 -> 0 <= k -> 0 <= f < 2 ^ k ->
  Z.shiftr (clear w f) k = Z.shiftr w k.
Proof.
  intros Hw Hk Hf. apply Z.bits_inj'. intros n Hn.
  rewrite !Z.shiftr_spec, clear_spec by lia.
  replace f with (f mod 2 ^ k) by (apply Z.mod_small; lia).
  rewrite Z.mod_pow2_bits_high by lia. by rewrite andb_true_r.
Qed.

Lemma clear_range w f : 0 <= w < 2 ^ 64 -> 0 <= clear w f <= w.
Proof.
  intros Hw. unfold clear. split; [apply Z.land_nonneg; lia|].
  apply Z.ldiff_le; [lia|]. apply Z.bits_inj'. intros n Hn.
  rewrite Z.ldiff_spec, Z.land_spec, Z.bits_0. by destruct (Z.testbit w n), (Z.testbit _ n).
Qed.

Lemma lor_range w f k :
  0 <= k -> 0 <= w < 2 ^ k -> 0 <= f < 2 ^ k -> 0 <= Z.lor w f < 2 ^ k.
Proof.
  intros Hk Hw Hf. split; [apply Z.lor_nonneg; lia|].
  destruct (decide (Z.lor w f = 0)) as [->|]; [lia|].
  apply Z.log2_lt_pow2; [pose proof (Z.lor_nonneg w f); lia|].
  rewrite Z.log2_lor by lia.
  assert (forall x, 0 <= x < 2 ^ k -> Z.log2 x < k \/ x = 0) as Hl.
  { intros x Hx. destruct (decide (x = 0)); [by right|left].
    apply Z.log2_lt_pow2; lia. }
  pose proof (Z.log2_nonneg w). pose proof (Z.log2_nonneg f).
  destruct (Hl w Hw) as [ | -> ], (Hl f Hf) as [ | -> ];
    rewrite ?Z.lor_0_r, ?Z.lor_0_l in *; change (Z.log2 0) with 0 in *; lia.
Qed.

(** ** Pages *)

Definition aligned (a : Z) : Prop := a mod PGSIZE = 0.

Lemma land_high_mask a k :
  0 <= k <= 64 -> 0 <= a < 2 ^ 64 ->
  Z.land a (u64 (Z.lnot (2 ^ k - 1))) = a / 2 ^ k * 2 ^ k.
Proof.
  intros Hk Ha. change (Z.land a (u64 (Z.lnot (2 ^ k - 1)))) with (clear a (2 ^ k - 1)).
  apply Z.bits_inj'. intros n Hn. rewrite clear_spec by lia.
  replace (2 ^ k - 1) with (Z.ones k) by (rewrite Z.ones_equiv; lia).
  destruct (Z.lt_ge_cases n k).
  - rewrite Z.ones_spec_low, Z.mul_pow2_bits_low by lia. apply andb_false_r.
  - rewrite Z.ones_spec_high, Z.mul_pow2_bits, Z.div_pow2_bits by lia.
    rewrite andb_true_r. f_equal. lia.
Qed.

Lemma PGROUNDDOWN_eq a : 0 <= a < 2 ^ 64 -> PGROUNDDOWN a = a / PGSIZE * PGSIZE.
Proof. intros Ha. apply (land_high_mask a 12); lia. Qed.

Lemma PGROUNDUP_eq sz :
  0 <= sz <= 2 ^ 64 - PGSIZE ->
  PGROUNDUP sz = (sz + PGSIZE - 1) / PGSIZE * PGSIZE.
Proof.
  intros Hsz. unfold PGROUNDUP, PGSIZE in *.
  assert (u64 (sz + 4096 - 1) = sz + 4096 - 1) as -> by (apply Z.mod_small; lia).
  apply (land_high_mask (sz + 4096 - 1) 12); lia.
Qed.

Lemma PGROUNDDOWN_aligned a : 0 <= a < 2 ^ 64 -> aligned a -> PGROUNDDOWN a = a.
Proof.
  intros Ha Hal. rewrite PGROUNDDOWN_eq by done.
  unfold aligned, PGSIZE in *. dlia.
Qed.

(** Rounding down splits an address into its page and its offset. *)
Lemma PGROUNDDOWN_spec a :
  0 <= a < 2 ^ 64 ->
  aligned (PGROUNDDOWN a) /\ PGROUNDDOWN a <= a < PGROUNDDOWN a + PGSIZE /\
  0 <= PGROUNDDOWN a.
Proof.
  intros Ha. rewrite PGROUNDDOWN_eq by done. unfold aligned, PGSIZE. dlia.
Qed.

Lemma PGROUNDUP_spec sz :
  0 <= sz <= 2 ^ 64 - PGSIZE ->
  aligned (PGROUNDUP sz) /\ sz <= PGROUNDUP sz < sz + PGSIZE.
Proof.
  intros Hsz. rewrite PGROUNDUP_eq by done. unfold aligned, PGSIZE in *. dlia.
Qed.

Lemma PGROUNDUP_aligned sz : 0 <= sz <= 2 ^ 64 - PGSIZE -> aligned sz -> PGROUNDUP sz = sz.
Proof.
  intros Hsz Hal. rewrite PGROUNDUP_eq by done. unfold aligned, PGSIZE in *. dlia.
Qed.

(** ** Page-table entries *)

Lemma PTE2PA_eq w : 0 <= w < 2 ^ 54 -> PTE2PA w = w / 1024 * 4096.
Proof.
  intros Hw. unfold PTE2PA, u64.
  rewrite Z.shiftl_mul_pow2, Z.shiftr_div_pow2 by lia.
  change (2 ^ 10) with 1024. change (2 ^ 12) with 4096. apply Z.mod_small. dlia.
Qed.

Lemma PA2PTE_eq pa : 0 <= pa < 2 ^ 56 -> PA2PTE pa = pa / 4096 * 1024.
Proof.
  intros Hpa. unfold PA2PTE, u64.
  rewrite Z.shiftl_mul_pow2, Z.shiftr_div_pow2 by lia.
  change (2 ^ 10) with 1024. change (2 ^ 12) with 4096. apply Z.mod_small. dlia.
Qed.

Lemma PTE2PA_PA2PTE pa : 0 <= pa < 2 ^ 56 -> aligned pa -> PTE2PA (PA2PTE pa) = pa.
Proof.
  intros Hpa Hal. rewrite PA2PTE_eq, PTE2PA_eq by dlia.
  unfold aligned, PGSIZE in *. dlia.
Qed.

Lemma PTE2PA_lor w f : 0 <= f < 1024 -> PTE2PA (Z.lor w f) = PTE2PA w.
Proof. intros Hf. unfold PTE2PA. by rewrite shiftr_lor_small by (cbn; lia). Qed.

Lemma PTE2PA_clear w f : 0 <= w < 2 ^ 64 -> 0 <= f < 1024 -> PTE2PA (clear w f) = PTE2PA w.
Proof. intros Hw Hf. unfold PTE2PA. by rewrite shiftr_clear by (cbn; lia). Qed.

(** The entry that [mappages] stores. *)
Definition mkpte (pa perm : Z) : Z := Z.lor (Z.lor (PA2PTE pa) perm) PTE_V.

Lemma PTE2PA_mkpte pa perm :
  0 <= pa < 2 ^ 56 -> aligned pa -> 0 <= perm < 1024 -> PTE2PA (mkpte pa perm) = pa.
Proof.
  intros. unfold mkpte. rewrite !PTE2PA_lor by (change PTE_V with 1; lia). by apply PTE2PA_PA2PTE.
Qed.

Lemma PA2PTE_testbit pa k :
  0 <= pa < 2 ^ 56 -> 0 <= k < 10 -> Z.testbit (PA2PTE pa) k = false.
Proof.
  intros Hpa Hk. rewrite PA2PTE_eq by done.
  change 1024 with (2 ^ 10). by rewrite Z.mul_pow2_bits_low by lia.
Qed.

Lemma mkpte_testbit pa perm k :
  0 <= pa < 2 ^ 56 -> 0 <= k < 10 ->
  Z.testbit (mkpte pa perm) k = Z.testbit perm k || (k =? 0).
Proof.
  intros Hpa Hk. unfold mkpte. rewrite !Z.lor_spec, PA2PTE_testbit by done.
  change PTE_V with (2 ^ 0). rewrite Z.pow2_bits_eqb by lia.
  by rewrite Z.eqb_sym.
Qed.

Lemma mkpte_range pa perm :
  0 <= pa < 2 ^ 56 -> 0 <= perm < 1024 -> 0 <= mkpte pa perm < 2 ^ 54.
Proof.
  intros Hpa Hperm. unfold mkpte. apply lor_range; [lia| |change PTE_V with 1; lia].
  apply lor_range; [lia| |lia]. rewrite PA2PTE_eq by done. dlia.
Qed.

Lemma PTE_FLAGS_eq w : 0 <= w -> PTE_FLAGS w = w mod 1024.
Proof. intros Hw. apply (Z.land_ones w 10). lia. Qed.

Lemma PTE_FLAGS_range w : 0 <= PTE_FLAGS w < 1024.
Proof.
  unfold PTE_FLAGS. change 1023 with (Z.ones 10). rewrite Z.land_ones by lia. change (2 ^ 10) with 1024. dlia.
Qed.

Lemma PTE_FLAGS_testbit w k :
  0 <= k < 10 -> Z.testbit (PTE_FLAGS w) k = Z.testbit w k.
Proof.
  intros Hk. unfold PTE_FLAGS. change 1023 with (Z.ones 10). rewrite Z.land_ones by lia.
  by rewrite Z.mod_pow2_bits_low by lia.
Qed.

(** Re-packing the address and the flags of a valid entry gives it back. *)
Lemma mkpte_PTE w :
  0 <= w < 2 ^ 54 -> Z.testbit w 0 = true -> mkpte (PTE2PA w) (PTE_FLAGS w) = w.
Proof.
  intros Hw Hv. unfold mkpte. rewrite PTE2PA_eq by done.
  rewrite PA2PTE_eq by dlia.
  replace (w / 1024 * 4096 / 4096 * 1024) with (w / 1024 * 2 ^ 10) by dlia.
  rewrite lor_add_pow2; [|lia|apply PTE_FLAGS_range].
  rewrite PTE_FLAGS_eq by lia.
  replace (w / 1024 * 2 ^ 10 + w mod 1024) with w by dlia.
  apply Z.bits_inj'. intros n Hn. rewrite Z.lor_spec. change PTE_V with (2 ^ 0).
  rewrite Z.pow2_bits_eqb by lia.
  destruct (Z.eqb_spec 0 n) as [<-|]; [by rewrite Hv|apply orb_false_r].
Qed.

(** ** Virtual addresses *)

Lemma PX_eq l va : 0 <= l -> 0 <= va -> PX l va = va / 2 ^ (12 + 9 * l) mod 512.
Proof.
  intros Hl Hva. unfold PX, PXSHIFT, PGSHIFT, PXMASK.
  rewrite Z.shiftr_div_pow2 by lia. change 511 with (Z.ones 9). by rewrite Z.land_ones by lia.
Qed.

Lemma PX_range l va : 0 <= PX l va < 512.
Proof.
  unfold PX, PXMASK. change 511 with (Z.ones 9). rewrite Z.land_ones by lia. change (2 ^ 9) with 512. dlia.
Qed.

(** The address of a page from its three indices. *)
Definition va_of (i2 i1 i0 : Z) : Z := i2 * 2 ^ 30 + i1 * 2 ^ 21 + i0 * 2 ^ 12.

Lemma va_of_PX va :
  0 <= va < MAXVA -> aligned va -> va_of (PX 2 va) (PX 1 va) (PX 0 va) = va.
Proof.
  intros Hva Hal. unfold va_of. rewrite !PX_eq by lia.
  change (12 + 9 * 2) with 30. change (12 + 9 * 1) with 21. change (12 + 9 * 0) with 12.
  change (2 ^ 30) with 1073741824. change (2 ^ 21) with 2097152. change (2 ^ 12) with 4096.
  change MAXVA with 274877906944 in Hva. unfold aligned, PGSIZE in *. dlia.
Qed.

Lemma PX_va_of i2 i1 i0 :
  0 <= i2 < 512 -> 0 <= i1 < 512 -> 0 <= i0 < 512 ->
  PX 2 (va_of i2 i1 i0) = i2 /\ PX 1 (va_of i2 i1 i0) = i1 /\ PX 0 (va_of i2 i1 i0) = i0.
Proof.
  intros. unfold va_of. rewrite !PX_eq by lia.
  change (12 + 9 * 2) with 30. change (12 + 9 * 1) with 21. change (12 + 9 * 0) with 12.
  change (2 ^ 30) with 1073741824. change (2 ^ 21) with 2097152. change (2 ^ 12) with 4096.
  dlia.
Qed.

Lemma va_of_aligned i2 i1 i0 : aligned (va_of i2 i1 i0).
Proof. unfold aligned, va_of, PGSIZE. cbn. dlia. Qed.

(** Two page addresses below MAXVA with the same indices are equal. *)
Lemma PX_inj va va' :
  0 <= va < MAXVA -> 0 <= va' < MAXVA -> aligned va -> aligned va' ->
  PX 2 va = PX 2 va' -> PX 1 va = PX 1 va' -> PX 0 va = PX 0 va' -> va = va'.
Proof.
  intros. rewrite <- (va_of_PX va), <- (va_of_PX va') by done. congruence.
Qed.
