(* ===== verification/Mem.v ===== *)
(** * Byte-addressed memory, and [memset] and [memmove] of kernel/string.c

    Memory is a finite map from addresses to bytes.  Multi-byte integers are
    little-endian, as on RISC-V.  [memset] and [memmove] are the loops of
    kernel/string.c; the lemmas [mget_memset] and [mget_memmove] say what they
    leave at every address, and are all that the clients use. *)

From S2P Require Import Prelude Riscv.

Abbreviation mem := (gmap Z Z).

Definition mget (m : mem) (a : Z) : Z := u8 (default 0 (m !! a)).
Definition store8 (m : mem) (a v : Z) : mem := <[a := u8 v]> m.

Fixpoint load_le (m : mem) (a : Z) (n : nat) : Z :=
  match n with
  | O => 0
  | S n => mget m a + 256 * load_le m (a + 1) n
  end.

Fixpoint store_le (m : mem) (a : Z) (n : nat) (v : Z) : mem :=
  match n with
  | O => m
  | S n => store_le (store8 m a v) (a + 1) n (v / 256)
  end.

Definition load64 (m : mem) (a : Z) : Z := load_le m a 8.
Definition store64 (m : mem) (a v : Z) : mem := store_le m a 8 v.
Definition load32 (m : mem) (a : Z) : Z := load_le m a 4.
Definition store32 (m : mem) (a v : Z) : mem := store_le m a 4 v.

Definition load16 (m : mem) (a : Z) : Z := load_le m a 2.
Definition store16 (m : mem) (a v : Z) : mem := store_le m a 2 v.

(** [n] bytes from address [a]. *)
Definition read_bytes (m : mem) (a : Z) (n : nat) : list Z :=
  map (fun i => mget m (a + Z.of_nat i)) (seq 0 n).

(** Storing a run of bytes (a [memmove] from kernel data that is not in [m]). *)
Fixpoint write_bytes (m : mem) (a : Z) (l : list Z) : mem :=
  match l with
  | [] => m
  | b :: l => write_bytes (store8 m a b) (a + 1) l
  end.

(** [for(i = 0; i < n; i++) cdst[i] = c] *)
Fixpoint memset_loop (m : mem) (cdst c i : Z) (k : nat) : mem :=
  match k with
  | O => m
  | S k => memset_loop (store8 m (cdst + i) c) cdst c (i + 1) k
  end.
Definition memset (m : mem) (dst c n : Z) : mem := memset_loop m dst c 0 (Z.to_nat n).

(** [while(n-- > 0) *--d = *--s] *)
Fixpoint copy_down (m : mem) (d s : Z) (n : nat) : mem :=
  match n with
  | O => m
  | S n => copy_down (store8 m (d - 1) (mget m (s - 1))) (d - 1) (s - 1) n
  end.
(** [while(n-- > 0) *d++ = *s++] *)
Fixpoint copy_up (m : mem) (d s : Z) (n : nat) : mem :=
  match n with
  | O => m
  | S n => copy_up (store8 m d (mget m s)) (d + 1) (s + 1) n
  end.

Definition memmove (m : mem) (dst src n : Z) : mem :=
  if n =? 0 then m
  else if (src <? dst) && (src + n >? dst)
  then copy_down m (dst + n) (src + n) (Z.to_nat n)
  else copy_up m dst src (Z.to_nat n).

(** ** Facts *)

Lemma mget_range m a : 0 <= mget m a < 256.
Proof. unfold mget, u8. change (2 ^ 8) with 256. dlia. Qed.

Lemma mget_store8 m a v b :
  mget (store8 m a v) b = if decide (a = b) then u8 v else mget m b.
Proof.
  unfold mget, store8. rewrite lookup_insert. case_decide; [|done].
  cbn. unfold u8. by rewrite Z.mod_mod by done.
Qed.

Lemma u8_mget m a : u8 (mget m a) = mget m a.
Proof. apply Z.mod_small. apply mget_range. Qed.

Lemma mget_store_le m a n v b :
  mget (store_le m a n v) b =
  if decide (a <= b < a + Z.of_nat n) then (v / 256 ^ (b - a)) mod 256 else mget m b.
Proof.
  revert m a v. induction n as [|n IH]; intros m a v; cbn [store_le].
  - case_decide; [lia|done].
  - rewrite IH, mget_store8. repeat case_decide; try lia; try done.
    + replace (b - a) with (Z.succ (b - (a + 1))) by lia.
      rewrite Z.pow_succ_r by lia. by rewrite Z.div_div by lia.
    + subst. rewrite Z.sub_diag. change (256 ^ 0) with 1. by rewrite Z.div_1_r.
Qed.

Lemma load_le_ext m m' a n :
  (forall b, a <= b < a + Z.of_nat n -> mget m b = mget m' b) ->
  load_le m a n = load_le m' a n.
Proof.
  revert a. induction n as [|n IH]; intros a H; [done|]. cbn [load_le].
  rewrite H by lia. f_equal. f_equal. apply IH. intros. apply H. lia.
Qed.

Lemma load_le_range m a n : 0 <= load_le m a n < 256 ^ Z.of_nat n.
Proof.
  revert a. induction n as [|n IH]; intros a; [cbn; lia|]. cbn [load_le].
  rewrite Nat2Z.inj_succ, Z.pow_succ_r by lia.
  pose proof (mget_range m a). specialize (IH (a + 1)). lia.
Qed.

Lemma load_store_le m a n v : load_le (store_le m a n v) a n = v mod 256 ^ Z.of_nat n.
Proof.
  assert (forall k a' , a' = a + k -> 0 <= k -> forall j, k + Z.of_nat j = Z.of_nat n ->
    load_le (store_le m a n v) a' j = (v / 256 ^ k) mod 256 ^ Z.of_nat j) as H.
  { intros k a' Ha' Hk j. revert k a' Ha' Hk. induction j as [|j IH]; intros k a' Ha' Hk Hj.
    - cbn. by rewrite Z.mod_1_r.
    - cbn [load_le]. rewrite (IH (k + 1)) by lia.
      rewrite mget_store_le, decide_True by lia.
      replace (a' - a) with k by lia.
      rewrite Nat2Z.inj_succ, Z.pow_succ_r, Z.rem_mul_r by lia.
      rewrite Z.div_div by lia. do 4 f_equal.
      rewrite (Z.pow_add_r 256 k 1) by lia. done. }
  rewrite (H 0) by lia. change (256 ^ 0) with 1. by rewrite Z.div_1_r.
Qed.

Lemma load64_range m a : 0 <= load64 m a < 2 ^ 64.
Proof. pose proof (load_le_range m a 8). unfold load64. cbn in *. lia. Qed.

Lemma load64_store64_eq m a v : load64 (store64 m a v) a = u64 v.
Proof. apply (load_store_le m a 8 v). Qed.

Lemma load64_store64 m a v : 0 <= v < 2 ^ 64 -> load64 (store64 m a v) a = v.
Proof. intros Hv. rewrite load64_store64_eq. by apply Z.mod_small. Qed.

Lemma mget_store64_ne m a v b :
  ~ (a <= b < a + 8) -> mget (store64 m a v) b = mget m b.
Proof. intros H. unfold store64. rewrite mget_store_le, decide_False by lia. done. Qed.

Lemma load64_ext m m' a :
  (forall b, a <= b < a + 8 -> mget m b = mget m' b) -> load64 m a = load64 m' a.
Proof. intros H. apply load_le_ext. intros. apply H. lia. Qed.

Lemma load64_store64_ne m a v b :
  a + 8 <= b \/ b + 8 <= a -> load64 (store64 m a v) b = load64 m b.
Proof. intros H. apply load64_ext. intros. apply mget_store64_ne. lia. Qed.

Lemma load_store_le_ne m a n v b k :
  a + Z.of_nat n <= b \/ b + Z.of_nat k <= a -> load_le (store_le m a n v) b k = load_le m b k.
Proof. intros H. apply load_le_ext. intros c Hc. rewrite mget_store_le, decide_False by lia. done. Qed.

Lemma load32_range m a : 0 <= load32 m a < 2 ^ 32.
Proof. pose proof (load_le_range m a 4). unfold load32. cbn in *. lia. Qed.
Lemma load32_store32_eq m a v : load32 (store32 m a v) a = u32 v.
Proof. apply (load_store_le m a 4 v). Qed.
Lemma load32_store32_ne m a v b :
  a + 4 <= b \/ b + 4 <= a -> load32 (store32 m a v) b = load32 m b.
Proof. intros H. apply load_store_le_ne. lia. Qed.

Lemma load16_range m a : 0 <= load16 m a < 2 ^ 16.
Proof. pose proof (load_le_range m a 2). unfold load16. cbn in *. lia. Qed.
Lemma load16_store16_eq m a v : load16 (store16 m a v) a = u16 v.
Proof. apply (load_store_le m a 2 v). Qed.
Lemma load16_store16_ne m a v b :
  a + 2 <= b \/ b + 2 <= a -> load16 (store16 m a v) b = load16 m b.
Proof. intros H. apply load_store_le_ne. lia. Qed.

Lemma mget_memset_loop m cdst c i k b :
  mget (memset_loop m cdst c i k) b =
  if decide (cdst + i <= b < cdst + i + Z.of_nat k) then u8 c else mget m b.
Proof.
  revert m i. induction k as [|k IH]; intros m i; cbn [memset_loop].
  - case_decide; [lia|done].
  - rewrite IH, mget_store8. repeat case_decide; try lia; done.
Qed.

Lemma mget_memset m dst c n b :
  mget (memset m dst c n) b = if decide (dst <= b < dst + n) then u8 c else mget m b.
Proof.
  unfold memset. rewrite mget_memset_loop. repeat case_decide; try lia; done.
Qed.

Lemma load64_memset0 m dst n a :
  dst <= a -> a + 8 <= dst + n -> load64 (memset m dst 0 n) a = 0.
Proof.
  intros H1 H2. unfold load64. cbn [load_le].
  repeat (rewrite mget_memset, decide_True by lia). done.
Qed.

Lemma load64_memset_ne m dst c n a :
  a + 8 <= dst \/ dst + n <= a -> load64 (memset m dst c n) a = load64 m a.
Proof.
  intros H. apply load64_ext. intros b Hb. rewrite mget_memset, decide_False by lia. done.
Qed.

Lemma mget_copy_up m d s n b :
  d <= s \/ s + Z.of_nat n <= d ->
  mget (copy_up m d s n) b =
  if decide (d <= b < d + Z.of_nat n) then mget m (s + (b - d)) else mget m b.
Proof.
  revert m d s. induction n as [|n IH]; intros m d s H; cbn [copy_up].
  - case_decide; [lia|done].
  - rewrite IH by lia. rewrite !mget_store8, u8_mget.
    repeat case_decide; try lia; f_equal; lia.
Qed.

Lemma mget_copy_down m d s n b :
  s <= d ->
  mget (copy_down m d s n) b =
  if decide (d - Z.of_nat n <= b < d) then mget m (s - (d - b)) else mget m b.
Proof.
  revert m d s. induction n as [|n IH]; intros m d s H; cbn [copy_down].
  - case_decide; [lia|done].
  - rewrite IH by lia. rewrite !mget_store8, u8_mget.
    repeat case_decide; try lia; f_equal; lia.
Qed.

(** Whatever the overlap of source and destination, the destination ends up
    with the bytes the source had, and no other byte changes. *)
Lemma mget_memmove m dst src n b :
  0 <= n ->
  mget (memmove m dst src n) b =
  if decide (dst <= b < dst + n) then mget m (src + (b - dst)) else mget m b.
Proof.
  intros Hn. unfold memmove.
  destruct (Z.eqb_spec n 0).
  { case_decide; [lia|done]. }
  destruct ((src <? dst) && (src + n >? dst)) eqn:E; bool_to_prop.
  - rewrite mget_copy_down by lia. repeat case_decide; try lia; f_equal; lia.
  - rewrite mget_copy_up by lia. repeat case_decide; try lia; f_equal; lia.
Qed.

Lemma mget_write_bytes m a l b :
  mget (write_bytes m a l) b =
  if decide (a <= b < a + Z.of_nat (length l))
  then u8 (default 0 (l !! Z.to_nat (b - a))) else mget m b.
Proof.
  revert m a. induction l as [|x l IH]; intros m a; cbn [write_bytes length].
  - case_decide; [lia|done].
  - rewrite IH, mget_store8. repeat case_decide; try lia; try done.
    + replace (Z.to_nat (b - a)) with (S (Z.to_nat (b - (a + 1)))) by lia. done.
    + subst. by rewrite Z.sub_diag.
Qed.

Lemma read_bytes_length m a n : length (read_bytes m a n) = n.
Proof. unfold read_bytes. by rewrite length_map, length_seq. Qed.

Lemma read_bytes_ext m m' a a' n :
  (forall i, 0 <= i < Z.of_nat n -> mget m (a + i) = mget m' (a' + i)) ->
  read_bytes m a n = read_bytes m' a' n.
Proof.
  intros H. apply map_ext_in. intros i Hi. apply in_seq in Hi. apply H. lia.
Qed.

Lemma read_bytes_app m a n k :
  read_bytes m a (n + k) = read_bytes m a n ++ read_bytes m (a + Z.of_nat n) k.
Proof.
  unfold read_bytes. rewrite seq_app, map_app. f_equal.
  apply list_eq. intros i. rewrite !list_lookup_fmap.
  destruct (decide (i < k)%nat).
  - rewrite !lookup_seq_lt by done. cbn. do 2 f_equal. lia.
  - rewrite !lookup_seq_ge by lia. done.
Qed.

Lemma read_write_bytes m a l :
  Forall (fun b => 0 <= b < 256) l ->
  read_bytes (write_bytes m a l) a (length l) = l.
Proof.
  intros Hl. apply list_eq. intros i. unfold read_bytes.
  rewrite list_lookup_fmap. destruct (decide (i < length l)%nat) as [Hi|Hi].
  - rewrite lookup_seq_lt by done. cbn. rewrite mget_write_bytes, decide_True by lia.
    replace (Z.to_nat (a + Z.of_nat i - a)) with i by lia.
    apply lookup_lt_is_Some in Hi as [x Hx]. rewrite Hx. cbn. f_equal.
    apply Z.mod_small. by eapply (Forall_lookup_1 _ _ _ _ Hl).
  - rewrite lookup_seq_ge by lia. cbn. symmetry. apply lookup_ge_None_2. lia.
Qed.

#[global] Arguments load64 : simpl never.
#[global] Arguments store64 : simpl never.
#[global] Arguments load32 : simpl never.
#[global] Arguments store32 : simpl never.
#[global] Arguments load16 : simpl never.
#[global] Arguments store16 : simpl never.
#[global] Arguments memset : simpl never.
#[global] Arguments memmove : simpl never.
#[global] Arguments mget : simpl never.
#[global] Strategy 1000 [load64 store64 load32 store32 load16 store16 memset memmove mget].
