(* ===== verification/Kalloc.v ===== *)
(** * kernel/kalloc.c: the physical page allocator with reference counts

    The free list is the linked list of the source: [kmem.freelist] is the
    address of a free page whose first eight bytes hold the address of the
    next one.  [free_rep] relates that list in memory to a Rocq list, and the
    specifications of [kalloc], [kfree], [increase_refer] and [freerange] are
    stated on it.  Each critical section under [kmem.lock] is a definition of
    its own; KallocSpec.v interleaves them over several processors. *)

From S2P Require Import Prelude Riscv Mem.

(** Physical memory together with [struct kmem]. *)
Record machine := Machine {
  m_mem : mem;
  m_freelist : Z;
  m_refer : gmap Z Z            (* refer_count[], zero-initialised *)
}.

Definition set_mem (f : mem -> mem) (σ : machine) : machine :=
  Machine (f (m_mem σ)) (m_freelist σ) (m_refer σ).
Definition set_freelist (p : Z) (σ : machine) : machine :=
  Machine (m_mem σ) p (m_refer σ).
Definition set_refer (f : gmap Z Z -> gmap Z Z) (σ : machine) : machine :=
  Machine (m_mem σ) (m_freelist σ) (f (m_refer σ)).

(** Index of a page in [refer_count]. *)
Definition ref_idx (pa : Z) : Z := (pa - KERNBASE) / PGSIZE.
(** The [uint8] counter of a page. *)
Definition refcnt (σ : machine) (pa : Z) : Z := u8 (default 0 (m_refer σ !! ref_idx pa)).
Definition set_refcnt (pa v : Z) (σ : machine) : machine :=
  set_refer (fun rc => <[ref_idx pa := u8 v]> rc) σ.

(** Loads and stores through a kernel pointer. *)
Definition ld (a : Z) : M machine Z := gets (fun σ => load64 (m_mem σ) a).
Definition st (a v : Z) : M machine unit := modify (set_mem (fun m => store64 m a v)).

Lemma wp_ld a σ (Q : Z -> machine -> Prop) : Q (load64 (m_mem σ) a) σ -> wp (ld a) σ Q.
Proof. done. Qed.
Lemma wp_st a v σ (Q : unit -> machine -> Prop) :
  Q tt (set_mem (fun m => store64 m a v) σ) -> wp (st a v) σ Q.
Proof. done. Qed.

Section Kalloc.
Context `{L : Layout}.

(** The sanity check at the top of [kfree], [increase_refer], [get_refcount]. *)
Definition bad_pa (pa : Z) : bool :=
  negb (pa mod PGSIZE =? 0) || (pa <? kend) || (pa >=? PHYSTOP).

(** The two critical sections of [kfree] and, between them, the junk fill. *)
Definition kfree_dec (pa : Z) : M machine bool :=
  modify (fun σ => set_refcnt pa (refcnt σ pa - 1) σ);;
  n ← gets (fun σ => refcnt σ pa);
  mret (n >? 0).
Definition kfree_junk (pa : Z) : M machine unit :=
  modify (set_mem (fun m => memset m pa 1 PGSIZE)).
Definition kfree_link (pa : Z) : M machine unit :=
  fl ← gets m_freelist;
  st pa fl;;
  modify (set_freelist pa).

Definition kfree (pa : Z) : M machine unit :=
  if bad_pa pa then panic "kfree"
  else
    more ← kfree_dec pa;
    if (more : bool) then mret tt else kfree_junk pa;; kfree_link pa.

(** The critical section of [kalloc], and the junk fill after it. *)
Definition kalloc_pop : M machine Z :=
  r ← gets m_freelist;
  if r =? 0 then mret r
  else
    next ← ld r;
    modify (set_freelist next);;
    modify (set_refcnt r 1);;
    mret r.
Definition kalloc_junk (r : Z) : M machine unit :=
  modify (set_mem (fun m => memset m r 5 PGSIZE)).

Definition kalloc : M machine Z :=
  r ← kalloc_pop;
  if r =? 0 then mret r else kalloc_junk r;; mret r.

Definition freerange (pa_start pa_end : Z) : M machine unit :=
  loop (fun p =>
    if p + PGSIZE <=? pa_end
    then modify (set_refcnt p 1);; kfree p;; mret (inl (p + PGSIZE))
    else mret (inr tt)) (2 ^ 52)%positive (PGROUNDUP pa_start).

Definition kinit : M machine unit := freerange kend PHYSTOP.

Definition increase_refer (pa : Z) : M machine unit :=
  if bad_pa pa then panic "increase_refer"
  else modify (fun σ => set_refcnt pa (refcnt σ pa + 1) σ).

Definition get_refcount (pa : Z) : M machine Z :=
  if bad_pa pa then panic "get_refcount" else gets (fun σ => refcnt σ pa).

(** ** The free list *)

(** A page that the allocator manages. *)
Definition page_ok (a : Z) : Prop := aligned a /\ kend <= a < PHYSTOP.

#[global] Instance page_ok_dec a : Decision (page_ok a).
Proof. unfold page_ok, aligned. apply _. Defined.

(** The pages linked from [head] through memory. *)
Fixpoint chain (m : mem) (head : Z) (l : list Z) : Prop :=
  match l with
  | [] => head = 0
  | a :: l => head = a /\ chain m (load64 m a) l
  end.

Record free_rep (σ : machine) (fl : list Z) : Prop := {
  fr_chain : chain (m_mem σ) (m_freelist σ) fl;
  fr_nodup : NoDup fl;
  fr_ok : Forall page_ok fl;
  fr_zero : Forall (fun a => refcnt σ a = 0) fl
}.

Lemma page_ok_bad a : page_ok a <-> bad_pa a = false.
Proof.
  unfold page_ok, aligned, bad_pa. rewrite !orb_false_iff, negb_false_iff.
  rewrite Z.eqb_eq, Z.ltb_ge, Z.geb_leb, Z.leb_gt. lia.
Qed.

Lemma page_ok_range a : page_ok a -> KERNBASE < a /\ a + PGSIZE <= PHYSTOP.
Proof.
  intros [Hal Hr]. pose proof layout_base. pose proof layout_end.
  pose proof layout_etext. unfold aligned, PHYSTOP, KERNBASE, PGSIZE in *. dlia.
Qed.

(** Two distinct pages do not overlap. *)
Lemma aligned_disjoint a b : aligned a -> aligned b -> a <> b -> a + PGSIZE <= b \/ b + PGSIZE <= a.
Proof. unfold aligned, PGSIZE. intros. dlia. Qed.

Lemma ref_idx_inj a b : aligned a -> aligned b -> ref_idx a = ref_idx b -> a = b.
Proof. unfold ref_idx, aligned, KERNBASE, PGSIZE. intros. dlia. Qed.

Lemma refcnt_set σ a v b :
  aligned a -> aligned b ->
  refcnt (set_refcnt a v σ) b = if decide (a = b) then u8 v else refcnt σ b.
Proof.
  intros Ha Hb. unfold refcnt, set_refcnt, set_refer; cbn. rewrite lookup_insert.
  case_decide as Hd.
  - rewrite decide_True by (by apply ref_idx_inj). unfold u8. cbn.
    by rewrite Z.mod_mod.
  - rewrite decide_False by congruence. done.
Qed.

Lemma refcnt_range σ a : 0 <= refcnt σ a < 256.
Proof. unfold refcnt, u8. change (2 ^ 8) with 256. dlia. Qed.

Lemma chain_frame m m' head fl :
  chain m head fl ->
  (forall a, a ∈ fl -> load64 m' a = load64 m a) -> chain m' head fl.
Proof.
  revert head. induction fl as [|a fl IH]; intros head Hc Hf; [done|].
  cbn in *. destruct Hc as [-> Hc]. split; [done|].
  rewrite Hf by set_solver. apply IH; [done|]. set_solver.
Qed.

(** Writing outside the free pages, and keeping their counters, keeps the
    free list. *)
Lemma free_rep_frame σ σ' fl :
  free_rep σ fl ->
  m_freelist σ' = m_freelist σ ->
  (forall a, a ∈ fl -> load64 (m_mem σ') a = load64 (m_mem σ) a) ->
  (forall a, a ∈ fl -> refcnt σ' a = refcnt σ a) ->
  free_rep σ' fl.
Proof.
  intros [Hc Hn Ho Hz] Hfl Hm Hr. split; [|done|done|].
  - rewrite Hfl. by eapply chain_frame.
  - apply Forall_forall. intros a Ha. rewrite Hr by done.
    by eapply (proj1 (Forall_forall _ _)) in Hz.
Qed.

Lemma free_rep_elem σ fl a : free_rep σ fl -> a ∈ fl -> page_ok a /\ refcnt σ a = 0.
Proof.
  intros Hf Ha. split.
  - by eapply (proj1 (Forall_forall _ _) (fr_ok _ _ Hf)).
  - by eapply (proj1 (Forall_forall _ _) (fr_zero _ _ Hf)).
Qed.

(** Memory unchanged outside page [a]. *)
Definition same_but (a : Z) (m m' : mem) : Prop :=
  forall b, ~ (a <= b < a + PGSIZE) -> mget m' b = mget m b.

Lemma same_but_load a m m' b :
  same_but a m m' -> b + 8 <= a \/ a + PGSIZE <= b -> load64 m' b = load64 m b.
Proof. intros Hs Hb. apply load64_ext. intros x Hx. apply Hs. lia. Qed.

Lemma same_but_page a m m' b :
  same_but a m m' -> aligned a -> aligned b -> a <> b -> load64 m' b = load64 m b.
Proof.
  intros Hs Ha Hb Hne. apply (same_but_load a); [done|].
  destruct (aligned_disjoint a b) as [|]; try done; unfold PGSIZE in *; lia.
Qed.

(** The critical sections. *)
Lemma kalloc_pop_wp σ fl (Q : Z -> machine -> Prop) :
  free_rep σ fl ->
  match fl with
  | [] => Q 0 σ
  | a :: fl' =>
      forall σ', free_rep σ' fl' -> m_mem σ' = m_mem σ -> refcnt σ' a = 1 ->
        (forall b, aligned b -> b <> a -> refcnt σ' b = refcnt σ b) -> Q a σ'
  end ->
  wp kalloc_pop σ Q.
Proof.
  intros Hf HQ. unfold kalloc_pop. do 2 wp_step. destruct fl as [|a fl].
  { pose proof (fr_chain _ _ Hf) as Hc. cbn in Hc. rewrite Hc. by apply wp_ret. }
  destruct (free_rep_elem σ _ a Hf) as [Hok Hz]; [set_solver|].
  pose proof (fr_chain _ _ Hf) as [Hhd Hc]. rewrite Hhd.
  pose proof (page_ok_range a Hok). pose proof (proj1 Hok) as Hal.
  assert ((a =? 0) = false) as -> by (apply Z.eqb_neq; unfold KERNBASE in *; lia).
  assert (forall b, aligned b -> b <> a ->
    refcnt (set_refcnt a 1 (set_freelist (load64 (m_mem σ) a) σ)) b = refcnt σ b) as Hrcs.
  { intros b Hb Hne. rewrite refcnt_set, decide_False; done. }
  unfold ld. repeat wp_step. apply HQ; [|done| |done].
  - pose proof (fr_nodup _ _ Hf) as Hn. apply NoDup_cons in Hn as [Hnin Hn].
    split; [done|done|by inversion_clear Hf as [_ _ Ho _]; inversion_clear Ho|].
    apply Forall_forall. intros b Hb.
    destruct (free_rep_elem σ _ b Hf) as [[Hbal _] Hbz]; [set_solver|].
    rewrite Hrcs; [done|done|]. set_solver.
  - by rewrite refcnt_set, decide_True.
Qed.

Lemma kfree_dec_wp σ a (Q : bool -> machine -> Prop) :
  page_ok a -> 1 <= refcnt σ a ->
  (forall σ', m_mem σ' = m_mem σ -> m_freelist σ' = m_freelist σ ->
     refcnt σ' a = refcnt σ a - 1 ->
     (forall b, aligned b -> b <> a -> refcnt σ' b = refcnt σ b) ->
     Q (1 <? refcnt σ a) σ') ->
  wp (kfree_dec a) σ Q.
Proof.
  intros Hok Hrc HQ. pose proof (proj1 Hok) as Hal. pose proof (refcnt_range σ a).
  assert (refcnt (set_refcnt a (refcnt σ a - 1) σ) a = refcnt σ a - 1) as E.
  { rewrite refcnt_set, decide_True by done. apply Z.mod_small. lia. }
  unfold kfree_dec. repeat wp_step. rewrite E, Z.gtb_ltb.
  replace (0 <? refcnt σ a - 1) with (1 <? refcnt σ a)
    by (destruct (Z.ltb_spec 1 (refcnt σ a)), (Z.ltb_spec 0 (refcnt σ a - 1)); done || lia).
  apply HQ; [done|done|done|]. intros b Hb Hne. by rewrite refcnt_set, decide_False.
Qed.

Lemma kfree_link_wp σ fl a (Q : unit -> machine -> Prop) :
  free_rep σ fl -> page_ok a -> a ∉ fl -> refcnt σ a = 0 ->
  (forall σ', free_rep σ' (a :: fl) -> m_refer σ' = m_refer σ ->
     same_but a (m_mem σ) (m_mem σ') -> Q tt σ') ->
  wp (kfree_link a) σ Q.
Proof.
  intros Hf Hok Hnin Hz HQ. pose proof (proj1 Hok) as Hal.
  unfold kfree_link, st. repeat wp_step. apply HQ; [|done|].
  - split; cbn.
    + split; [done|]. rewrite load64_store64_eq.
      assert (0 <= m_freelist σ < 2 ^ 64) as Hhd.
      { pose proof (fr_chain _ _ Hf) as Hc. destruct fl as [|b fl]; cbn in Hc; [lia|].
        destruct Hc as [-> _]. destruct (free_rep_elem σ (b :: fl) b Hf) as [Hb _]; [set_solver|].
        apply page_ok_range in Hb. unfold PHYSTOP, KERNBASE, PGSIZE in *. lia. }
      unfold u64. rewrite Z.mod_small by done. eapply chain_frame; [apply Hf|].
      intros b Hb. destruct (free_rep_elem σ fl b Hf Hb) as [[Hbal _] _].
      assert (a <> b) as Hne by set_solver.
      destruct (aligned_disjoint a b Hal Hbal Hne);
        rewrite load64_store64_ne by (unfold PGSIZE in *; lia); done.
    + apply NoDup_cons. split; [done|apply Hf].
    + constructor; [done|apply Hf].
    + constructor; [done|apply Hf].
  - intros b Hb. cbn. rewrite mget_store64_ne; [done|]. unfold PGSIZE in *. lia.
Qed.

(** [kalloc] pops the head of the free list, sets its counter to one and
    fills the page with junk; an empty list gives NULL. *)
Lemma kalloc_wp σ fl (Q : Z -> machine -> Prop) :
  free_rep σ fl ->
  match fl with
  | [] => Q 0 σ
  | a :: fl' =>
      forall σ',
        free_rep σ' fl' ->
        refcnt σ' a = 1 ->
        (forall b, aligned b -> b <> a -> refcnt σ' b = refcnt σ b) ->
        same_but a (m_mem σ) (m_mem σ') ->
        (forall b, a <= b < a + PGSIZE -> mget (m_mem σ') b = 5) ->
        Q a σ'
  end ->
  wp kalloc σ Q.
Proof.
  intros Hf HQ. unfold kalloc. wp_step. eapply kalloc_pop_wp; [exact Hf|].
  destruct fl as [|a fl]; [by wp_step|]. intros σ1 Hf1 Hm1 Hrc1 Hrcs1.
  destruct (free_rep_elem σ _ a Hf) as [Hok Hz]; [set_solver|].
  pose proof (page_ok_range a Hok).
  rewrite (proj2 (Z.eqb_neq a 0)) by (unfold KERNBASE in *; lia).
  unfold kalloc_junk. do 3 wp_step. apply HQ; [|done|done|..].
  - eapply free_rep_frame; [exact Hf1|done| |done]. intros b Hb. apply load64_memset_ne.
    destruct (free_rep_elem _ _ b Hf1 Hb) as [[Hbal _] _].
    pose proof (fr_nodup _ _ Hf) as Hn. apply NoDup_cons in Hn as [Hnin _].
    assert (a <> b) as Hne by set_solver.
    destruct (aligned_disjoint a b (proj1 Hok) Hbal Hne); unfold PGSIZE in *; lia.
  - intros b Hb. cbn. by rewrite mget_memset, decide_False, Hm1.
  - intros b Hb. cbn. by rewrite mget_memset, decide_True.
Qed.

(** [kfree] of a page with several references only decrements its counter;
    with one reference the page goes to the front of the free list. *)
Lemma kfree_wp σ fl a (Q : unit -> machine -> Prop) :
  free_rep σ fl -> page_ok a -> 1 <= refcnt σ a ->
  (forall σ',
     free_rep σ' (if decide (refcnt σ a = 1) then a :: fl else fl) ->
     refcnt σ' a = refcnt σ a - 1 ->
     (forall b, aligned b -> b <> a -> refcnt σ' b = refcnt σ b) ->
     same_but a (m_mem σ) (m_mem σ') ->
     (1 < refcnt σ a -> m_mem σ' = m_mem σ) ->
     Q tt σ') ->
  wp (kfree a) σ Q.
Proof.
  intros Hf Hok Hrc HQ. pose proof (proj1 Hok) as Hal.
  assert (a ∉ fl) as Hnin by (intros Hin; destruct (free_rep_elem σ fl a Hf Hin); lia).
  unfold kfree. rewrite (proj1 (page_ok_bad a) Hok). wp_step. apply kfree_dec_wp; [done|done|].
  intros σ1 Hm1 Hl1 Hrc1 Hrcs1.
  assert (free_rep σ1 fl) as Hf1.
  { eapply free_rep_frame; [exact Hf|done|by rewrite Hm1|]. intros b Hb.
    apply Hrcs1; [by apply (free_rep_elem _ _ _ Hf Hb)|set_solver]. }
  wp_step; bool_to_prop.
  - wp_step. apply HQ; [by rewrite decide_False by lia|done|done|by rewrite Hm1|done].
  - unfold kfree_junk. do 2 wp_step. apply (kfree_link_wp _ fl); [|done|done| |].
    + eapply free_rep_frame; [exact Hf1|done| |done]. intros b Hb. apply load64_memset_ne.
      destruct (free_rep_elem _ _ b Hf1 Hb) as [[Hbal _] _]. assert (a <> b) as Hne by set_solver.
      destruct (aligned_disjoint a b Hal Hbal Hne); unfold PGSIZE in *; lia.
    + change (refcnt σ1 a = 0). lia.
    + intros σ3 Hf3 Hr3 Hs3.
      assert (forall b, refcnt σ3 b = refcnt σ1 b) as Hrc3 by (intros b; unfold refcnt; by rewrite Hr3).
      apply HQ; [by rewrite decide_True by lia|by rewrite Hrc3| | |lia].
      * intros b Hb Hne. rewrite Hrc3. by apply Hrcs1.
      * intros b Hb. rewrite Hs3 by done. cbn. by rewrite mget_memset, decide_False, Hm1.
Qed.

Lemma increase_refer_wp σ a (Q : unit -> machine -> Prop) :
  page_ok a -> refcnt σ a < 255 ->
  (forall σ', m_mem σ' = m_mem σ -> m_freelist σ' = m_freelist σ ->
     refcnt σ' a = refcnt σ a + 1 ->
     (forall b, aligned b -> b <> a -> refcnt σ' b = refcnt σ b) -> Q tt σ') ->
  wp (increase_refer a) σ Q.
Proof.
  intros Hok Hrc HQ. unfold increase_refer.
  rewrite (proj1 (page_ok_bad a) Hok). wp_step. pose proof (refcnt_range σ a).
  pose proof (proj1 Hok) as Hal. apply HQ; [done|done|..].
  - rewrite refcnt_set, decide_True by done. apply Z.mod_small. lia.
  - intros b Hb Hne. by rewrite refcnt_set, decide_False.
Qed.

Lemma get_refcount_wp σ a (Q : Z -> machine -> Prop) :
  page_ok a -> Q (refcnt σ a) σ -> wp (get_refcount a) σ Q.
Proof.
  intros Hok HQ. unfold get_refcount. rewrite (proj1 (page_ok_bad a) Hok). by wp_step.
Qed.

(** [freerange] adds exactly the pages of the range to the free list. *)
Lemma freerange_wp σ fl pa_start pa_end (Q : unit -> machine -> Prop) :
  free_rep σ fl ->
  kend <= pa_start <= pa_end -> pa_end <= PHYSTOP ->
  (forall a, a ∈ fl -> ~ (pa_start <= a < pa_end)) ->
  (forall σ' fl',
     free_rep σ' fl' ->
     (forall a, a ∈ fl' <->
        a ∈ fl \/ (page_ok a /\ pa_start <= a /\ a + PGSIZE <= pa_end)) ->
     Q tt σ') ->
  wp (freerange pa_start pa_end) σ Q.
Proof.
  intros Hf Hst Hend Hdisj HQ. unfold freerange.
  pose proof layout_base. pose proof layout_end. pose proof layout_etext.
  assert (0 <= pa_start <= 2 ^ 64 - PGSIZE) as Hsr
    by (unfold PHYSTOP, KERNBASE, PGSIZE in *; lia).
  destruct (PGROUNDUP_spec pa_start Hsr) as [Hal Hup].
  apply (wp_loop_var _ (fun p => pa_end + PGSIZE - p)
    (fun p σ' => aligned p /\ PGROUNDUP pa_start <= p /\ p < pa_end + PGSIZE /\
       exists fl', free_rep σ' fl' /\
       forall a, a ∈ fl' <->
         a ∈ fl \/ (page_ok a /\ pa_start <= a < p /\ a + PGSIZE <= pa_end))).
  - intros p σ1 (Hpal & Hp & Hpe & fl' & Hf' & Hin). wp_step; bool_to_prop.
    + assert (page_ok p) as Hok by (split; [done|unfold PGSIZE in *; lia]).
      assert (p ∉ fl') as Hnin.
      { rewrite Hin. intros [Hp'|[_ Hp']]; [|lia]. apply (Hdisj p Hp').
        unfold PGSIZE in *. lia. }
      assert (refcnt (set_refcnt p 1 σ1) p = 1) as Hone
        by (by rewrite refcnt_set, decide_True).
      do 3 wp_step. apply kfree_wp with fl'.
      * eapply free_rep_frame; [done..|]. intros a Ha.
        destruct (free_rep_elem _ _ _ Hf' Ha) as [[Haal _] _].
        rewrite refcnt_set, decide_False by (done || set_solver). done.
      * done.
      * by rewrite Hone.
      * intros σ2 Hf2 _ _ _ _. rewrite Hone, decide_True in Hf2 by done.
        wp_step. split; [|unfold PGSIZE in *; lia].
        split; [unfold aligned, PGSIZE in *; dlia|].
        split; [unfold PGSIZE in *; lia|]. split; [unfold PGSIZE in *; lia|].
        exists (p :: fl'). split; [done|]. intros a. rewrite elem_of_cons, Hin.
        split.
        -- intros [->|[Ha|[Ha Ha']]]; [right|by left|right].
           ++ split; [done|]. unfold PGSIZE in *. lia.
           ++ split; [done|]. unfold PGSIZE in *. lia.
        -- intros [Ha|[Ha Ha']]; [by right; left|].
           destruct (decide (a = p)) as [->|]; [by left|].
           right; right. split; [done|]. unfold PGSIZE in *.
           destruct (aligned_disjoint a p (proj1 Ha) Hpal); [done|unfold PGSIZE in *; lia..].
    + wp_step. apply (HQ σ1 fl' Hf'). intros a. rewrite Hin.
      split; (intros [Ha|[Ha Ha']]; [by left|right]); (split; [done|lia]).
  - split; [done|]. split; [lia|]. split; [lia|]. exists fl. split; [done|].
    intros a. split; [by left|]. intros [|[Ha Ha']]; [done|exfalso].
    destruct Ha as [Haal _]. unfold aligned, PGSIZE in *.
    rewrite PGROUNDUP_eq in Ha' by (unfold PGSIZE; lia). unfold PGSIZE in Ha'. dlia.
  - unfold PHYSTOP, KERNBASE, PGSIZE in *. lia.
Qed.
End Kalloc.
