(* ===== verification/KallocSpec.v ===== *)
(** * The page allocator under concurrency

    Several processors call [kalloc], [kfree] and [increase_refer] at the same
    time.  [kmem.lock] makes each critical section of kernel/kalloc.c one
    step, but [kfree] has two of them and fills the page with junk in between,
    without the lock, and [kalloc] fills its page after releasing the lock.
    [kstep] interleaves these steps and the stores of the pages' owners;
    [kinv] is the invariant that every reachable state has. *)

From S2P Require Import Prelude Riscv Mem Kalloc.

(** Where a processor is inside the allocator. *)
Inductive kpc :=
| Idle
| AllocJunk (r : Z)      (* kalloc: popped [r], about to fill it *)
| FreeJunk (pa : Z)      (* kfree: counter reached 0, about to fill the page *)
| FreeLink (pa : Z).     (* kfree: about to put the page on the list *)

Definition pc_page (pc : kpc) : option Z :=
  match pc with Idle => None | AllocJunk r => Some r | FreeJunk pa | FreeLink pa => Some pa end.
Definition pc_count (pc : kpc) : Z := match pc with AllocJunk _ => 1 | _ => 0 end.

(** The machine, the processors, and the references that clients hold. *)
Record kstate := KState { k_mach : machine; k_pc : list kpc; k_used : gmap Z Z }.

Section Spec.
Context `{L : Layout}.

Inductive kstep : kstate -> kstate -> Prop :=
| ks_pop i σ T A r σ' :
    T !! i = Some Idle -> kalloc_pop σ = Ok r σ' -> r <> 0 ->
    kstep (KState σ T A) (KState σ' (<[i := AllocJunk r]> T) A)
| ks_empty i σ T A σ' :
    T !! i = Some Idle -> kalloc_pop σ = Ok 0 σ' -> kstep (KState σ T A) (KState σ' T A)
| ks_got i σ T A r σ' :
    T !! i = Some (AllocJunk r) -> kalloc_junk r σ = Ok tt σ' ->
    kstep (KState σ T A) (KState σ' (<[i := Idle]> T) (<[r := 1]> A))
| ks_more i σ T A pa n σ' :
    T !! i = Some Idle -> A !! pa = Some n -> kfree_dec pa σ = Ok true σ' ->
    kstep (KState σ T A) (KState σ' T (<[pa := n - 1]> A))
| ks_last i σ T A pa n σ' :
    T !! i = Some Idle -> A !! pa = Some n -> kfree_dec pa σ = Ok false σ' ->
    kstep (KState σ T A) (KState σ' (<[i := FreeJunk pa]> T) (delete pa A))
| ks_junk i σ T A pa σ' :
    T !! i = Some (FreeJunk pa) -> kfree_junk pa σ = Ok tt σ' ->
    kstep (KState σ T A) (KState σ' (<[i := FreeLink pa]> T) A)
| ks_link i σ T A pa σ' :
    T !! i = Some (FreeLink pa) -> kfree_link pa σ = Ok tt σ' ->
    kstep (KState σ T A) (KState σ' (<[i := Idle]> T) A)
| ks_dup i σ T A pa n σ' :
    T !! i = Some Idle -> A !! pa = Some n -> increase_refer pa σ = Ok tt σ' ->
    kstep (KState σ T A) (KState σ' T (<[pa := n + 1]> A))
| ks_write σ T A pa b v :
    is_Some (A !! pa) -> pa <= b < pa + PGSIZE ->
    kstep (KState σ T A) (KState (set_mem (fun m => store8 m b v) σ) T A).

(** The counters have eight bits: no page may have more than 255 references. *)
Definition few_refs (S : kstate) : Prop := forall a n, k_used S !! a = Some n -> n <= 255.
(** Steps that keep to this. *)
Definition kstep_few (S S' : kstate) : Prop := kstep S S' /\ few_refs S'.

(** Free pages, pages in use and pages inside a call are told apart, and
    each has the counter it should have. *)
Record kinv_on (fl : list Z) (S : kstate) : Prop := {
  ki_free : free_rep (k_mach S) fl;
  ki_used : forall a n, k_used S !! a = Some n ->
    page_ok a /\ refcnt (k_mach S) a = n /\ 1 <= n /\ a ∉ fl;
  ki_pc : forall i pc a, k_pc S !! i = Some pc -> pc_page pc = Some a ->
    page_ok a /\ refcnt (k_mach S) a = pc_count pc /\ (a ∉ fl) /\ k_used S !! a = None;
  ki_one : forall i j pc pc' a, k_pc S !! i = Some pc -> k_pc S !! j = Some pc' ->
    pc_page pc = Some a -> pc_page pc' = Some a -> i = j;
  ki_all : forall a, page_ok a -> (a ∈ fl) \/ is_Some (k_used S !! a) \/
    exists i pc, k_pc S !! i = Some pc /\ pc_page pc = Some a
}.
Definition kinv (S : kstate) : Prop := exists fl, kinv_on fl S.

(** Changing only bytes of a page that is not free. *)
Lemma free_rep_bytes σ σ' fl a :
  free_rep σ fl -> page_ok a -> a ∉ fl -> m_freelist σ' = m_freelist σ ->
  m_refer σ' = m_refer σ -> same_but a (m_mem σ) (m_mem σ') -> free_rep σ' fl.
Proof.
  intros Hf Hok Hnin Hl Hr Hs. eapply free_rep_frame; [exact Hf|done|..].
  - intros b Hb. destruct (free_rep_elem _ _ _ Hf Hb) as [[Hbal _] _].
    apply (same_but_page a); [done|apply Hok|done|set_solver].
  - intros b _. unfold refcnt. by rewrite Hr.
Qed.

Lemma same_but_memset m a c : same_but a m (memset m a c PGSIZE).
Proof. intros b Hb. by rewrite mget_memset, decide_False. Qed.

Lemma same_but_store8 m a b v : a <= b < a + PGSIZE -> same_but a m (store8 m b v).
Proof. intros Hb c Hc. rewrite mget_store8. case_decide; [lia|done]. Qed.

(** The general step: page [a] changes hands, by processor [i]. *)
Lemma kinv_move fl i σ T A pc a fl' σ' pc' A' :
  kinv_on fl (KState σ T A) -> T !! i = Some pc -> page_ok a ->
  (forall c, pc_page pc = Some c -> c = a) -> (forall c, pc_page pc' = Some c -> c = a) ->
  (forall j q, j <> i -> T !! j = Some q -> pc_page q <> Some a) ->
  free_rep σ' fl' -> (forall b, b <> a -> (b ∈ fl') <-> (b ∈ fl)) ->
  (forall b, b <> a -> A' !! b = A !! b) ->
  (forall b, aligned b -> b <> a -> refcnt σ' b = refcnt σ b) ->
  (forall n, A' !! a = Some n -> refcnt σ' a = n /\ 1 <= n /\ a ∉ fl') ->
  (pc_page pc' = Some a -> refcnt σ' a = pc_count pc' /\ (a ∉ fl') /\ A' !! a = None) ->
  (a ∈ fl') \/ is_Some (A' !! a) \/ pc_page pc' = Some a ->
  kinv_on fl' (KState σ' (<[i := pc']> T) A').
Proof.
  intros [Hf Hu Hp H1 Ha] Hi Hok Hpc Hpc' Hoth Hf' Hfl HA Hrc Hu' Hp' Ha'. cbn in *.
  split; cbn.
  - done.
  - intros b n Hb. destruct (decide (b = a)) as [->|Hne]; [by apply Hu' in Hb as (? & ? & ?)|].
    rewrite HA in Hb by done. destruct (Hu b n Hb) as (Hbo & Hbr & Hbn & Hbf).
    rewrite Hrc by (done || apply Hbo). rewrite Hfl by done. done.
  - intros j q c [(<- & <- & _)|[Hne Hj]]%list_lookup_insert_Some Hq.
    + pose proof (Hpc' c Hq) as ->. destruct (Hp' Hq) as (? & ? & ?). done.
    + assert (c <> a) as Hca by (intros ->; by eapply Hoth).
      destruct (Hp j q c Hj Hq) as (Hbo & Hbr & Hbf & Hbu).
      rewrite Hrc by (done || apply Hbo). rewrite Hfl, HA by done. done.
  - intros j k q q' c [(<- & <- & _)|[Hne Hj]]%list_lookup_insert_Some
      [(<- & <- & _)|[Hne' Hk]]%list_lookup_insert_Some Hq Hq'; [done|..|by eapply H1].
    + pose proof (Hpc' c Hq) as ->. destruct (Hoth k q'); congruence.
    + pose proof (Hpc' c Hq') as ->. destruct (Hoth j q); congruence.
  - intros b Hb. destruct (decide (b = a)) as [->|Hne].
    + destruct Ha' as [?|[?|?]]; [by left|by right; left|]. right; right. exists i, pc'.
      split; [|done]. apply list_lookup_insert_eq. by eapply lookup_lt_Some.
    + rewrite Hfl, HA by done. destruct (Ha b Hb) as [?|[?|(j & q & Hj & Hq)]]; [by left|by right; left|].
      right; right. exists j, q. rewrite list_lookup_insert_ne; [done|].
      intros <-. apply Hne, Hpc. congruence.
Qed.

(** A page in use, or being allocated by [i], belongs to no other processor. *)
Lemma used_alone fl σ T A a n : kinv_on fl (KState σ T A) -> A !! a = Some n ->
  forall j q, T !! j = Some q -> pc_page q <> Some a.
Proof. intros K Hn j q Hj Hq. destruct (ki_pc _ _ K j q a Hj Hq) as (_ & _ & _ & E). cbn in E. congruence. Qed.

Lemma free_alone fl σ T A a : kinv_on fl (KState σ T A) -> a ∈ fl ->
  (forall j q, T !! j = Some q -> pc_page q <> Some a) /\ A !! a = None.
Proof.
  intros K Ha. split.
  - intros j q Hj Hq. by destruct (ki_pc _ _ K j q a Hj Hq) as (_ & _ & E & _).
  - destruct (A !! a) as [n|] eqn:E; [|done]. by destruct (ki_used _ _ K a n E) as (_ & _ & _ & ?).
Qed.

Lemma pc_alone fl σ T A i pc a : kinv_on fl (KState σ T A) -> T !! i = Some pc -> pc_page pc = Some a ->
  forall j q, j <> i -> T !! j = Some q -> pc_page q <> Some a.
Proof. intros K Hi Hpc j q Hne Hj Hq. apply Hne. by eapply (ki_one _ _ K). Qed.

(** From a specification to a result. *)
Lemma kinv_pop i σ T A r σ' :
  kinv (KState σ T A) -> T !! i = Some Idle -> kalloc_pop σ = Ok r σ' ->
  kinv (KState σ' (if decide (r = 0) then T else <[i := AllocJunk r]> T) A).
Proof.
  intros [fl K] Hi E. pose proof (ki_free _ _ K) as Hf. cbn in Hf.
  apply (wp_ok kalloc_pop σ r σ' (fun r σ' =>
    kinv (KState σ' (if decide (r = 0) then T else <[i := AllocJunk r]> T) A))); [|exact E].
  eapply kalloc_pop_wp; [exact Hf|]. destruct fl as [|a fl].
  - rewrite decide_True by done. by exists [].
  - intros σ1 Hf1 Hm Hrc Hrcs. destruct (free_rep_elem _ _ a Hf) as [Hok _]; [set_solver|].
    pose proof (page_ok_range a Hok). rewrite decide_False by (unfold KERNBASE in *; lia).
    destruct (free_alone _ _ _ _ a K) as [Hal Hna]; [set_solver|].
    pose proof (fr_nodup _ _ Hf) as Hnd. apply NoDup_cons in Hnd as [Hnin _]. exists fl.
    eapply (kinv_move (a :: fl) i σ T A Idle a); try done.
    + by intros c [= <-].
    + intros j q _. by apply Hal.
    + intros b Hb. rewrite elem_of_cons. naive_solver.
    + intros n Hn. congruence.
    + by right; right.
Qed.

Lemma kinv_dec i σ T A pa n b σ' :
  kinv (KState σ T A) -> T !! i = Some Idle -> A !! pa = Some n -> kfree_dec pa σ = Ok b σ' ->
  kinv (if (b : bool) then KState σ' T (<[pa := n - 1]> A)
        else KState σ' (<[i := FreeJunk pa]> T) (delete pa A)).
Proof.
  intros [fl K] Hi Hn E. pose proof (ki_free _ _ K) as Hf. cbn in Hf.
  destruct (ki_used _ _ K pa n Hn) as (Hok & Hrc & Hpos & Hnin). cbn in Hrc.
  apply (wp_ok (kfree_dec pa) σ b σ' (fun b σ' =>
    kinv (if (b : bool) then KState σ' T (<[pa := n - 1]> A)
          else KState σ' (<[i := FreeJunk pa]> T) (delete pa A)))); [|exact E].
  apply kfree_dec_wp; [done|lia|].
  intros σ1 Hm Hl Hrc1 Hrcs. pose proof (used_alone _ _ _ _ _ _ K Hn) as Hal.
  assert (free_rep σ1 fl) as Hf1.
  { eapply free_rep_frame; [exact Hf|done|by rewrite Hm|]. intros c Hc.
    apply Hrcs; [by apply (free_rep_elem _ _ _ Hf Hc)|set_solver]. }
  destruct (Z.ltb_spec 1 (refcnt σ pa)); exists fl.
  - rewrite <- (list_insert_id T i Idle Hi).
    eapply (kinv_move fl i σ T A Idle pa); try done.
    + intros j q _. by apply Hal.
    + intros c Hc. by rewrite lookup_insert_ne.
    + intros m. rewrite lookup_insert_eq. intros [= <-]. split; [lia|]. split; [lia|done].
    + right; left. rewrite lookup_insert_eq. by eexists.
  - eapply (kinv_move fl i σ T A Idle pa); try done.
    + by intros c [= <-].
    + intros j q _. by apply Hal.
    + intros c Hc. by rewrite lookup_delete_ne.
    + intros m. by rewrite lookup_delete_eq.
    + intros _. rewrite lookup_delete_eq. split; [cbn; lia|done].
    + by right; right.
Qed.

Lemma kinv_dup i σ T A pa n σ' :
  kinv (KState σ T A) -> T !! i = Some Idle -> A !! pa = Some n -> n < 255 ->
  increase_refer pa σ = Ok tt σ' -> kinv (KState σ' T (<[pa := n + 1]> A)).
Proof.
  intros [fl K] Hi Hn Hlt E. pose proof (ki_free _ _ K) as Hf. cbn in Hf.
  destruct (ki_used _ _ K pa n Hn) as (Hok & Hrc & Hpos & Hnin). cbn in Hrc.
  apply (wp_ok (increase_refer pa) σ tt σ' (fun _ σ' => kinv (KState σ' T (<[pa := n + 1]> A)))); [|exact E].
  apply increase_refer_wp; [done|lia|].
  intros σ1 Hm Hl Hrc1 Hrcs. pose proof (used_alone _ _ _ _ _ _ K Hn) as Hal. exists fl.
  rewrite <- (list_insert_id T i Idle Hi). eapply (kinv_move fl i σ T A Idle pa); try done.
  - intros j q _. by apply Hal.
  - eapply free_rep_frame; [exact Hf|done|by rewrite Hm|]. intros c Hc.
    apply Hrcs; [by apply (free_rep_elem _ _ _ Hf Hc)|set_solver].
  - intros c Hc. by rewrite lookup_insert_ne.
  - intros m. rewrite lookup_insert_eq. intros [= <-]. split; [lia|]. split; [lia|done].
  - right; left. rewrite lookup_insert_eq. by eexists.
Qed.

Lemma kinv_fill i σ T A pc pc' a c :
  kinv (KState σ T A) -> T !! i = Some pc -> pc_page pc = Some a -> pc_page pc' = Some a ->
  pc_count pc' = pc_count pc ->
  kinv (KState (set_mem (fun m => memset m a c PGSIZE) σ) (<[i := pc']> T) A).
Proof.
  intros [fl K] Hi Hpc Hpc' Hcnt. destruct (ki_pc _ _ K i pc a Hi Hpc) as (Hok & Hrc & Hnin & Hna).
  cbn in Hrc, Hna. exists fl. eapply (kinv_move fl i σ T A pc a); try done.
  - congruence.
  - congruence.
  - by eapply pc_alone.
  - eapply (free_rep_bytes σ _ fl a); try done; [apply K|]. apply same_but_memset.
  - intros n Hn. congruence.
  - intros _. by rewrite Hcnt.
  - by right; right.
Qed.

Lemma kinv_got i σ T A r :
  kinv (KState σ T A) -> T !! i = Some (AllocJunk r) ->
  kinv (KState (set_mem (fun m => memset m r 5 PGSIZE) σ) (<[i := Idle]> T) (<[r := 1]> A)).
Proof.
  intros [fl K] Hi. destruct (ki_pc _ _ K i _ r Hi eq_refl) as (Hok & Hrc & Hnin & Hna).
  cbn in Hrc, Hna. exists fl. eapply (kinv_move fl i σ T A (AllocJunk r) r); try done.
  - by intros c [= <-].
  - by eapply pc_alone.
  - eapply (free_rep_bytes σ _ fl r); try done; [apply K|]. apply same_but_memset.
  - intros c Hc. by rewrite lookup_insert_ne.
  - intros m. rewrite lookup_insert_eq. intros [= <-]. split; [exact Hrc|]. split; [lia|done].
  - right; left. rewrite lookup_insert_eq. by eexists.
Qed.

Lemma kinv_link i σ T A pa σ' :
  kinv (KState σ T A) -> T !! i = Some (FreeLink pa) -> kfree_link pa σ = Ok tt σ' ->
  kinv (KState σ' (<[i := Idle]> T) A).
Proof.
  intros [fl K] Hi E. destruct (ki_pc _ _ K i _ pa Hi eq_refl) as (Hok & Hrc & Hnin & Hna).
  cbn in Hrc, Hna. pose proof (ki_free _ _ K) as Hf. cbn in Hf.
  apply (wp_ok (kfree_link pa) σ tt σ' (fun _ σ' => kinv (KState σ' (<[i := Idle]> T) A))); [|exact E].
  apply (kfree_link_wp σ fl); try done.
  intros σ1 Hf1 Hr1 Hs1. exists (pa :: fl). eapply (kinv_move fl i σ T A (FreeLink pa) pa); try done.
  - by intros c [= <-].
  - by eapply pc_alone.
  - intros b Hb. rewrite elem_of_cons. naive_solver.
  - intros b _ _. unfold refcnt. by rewrite Hr1.
  - congruence.
  - left. set_solver.
Qed.

Lemma kstep_inv S S' : kinv S -> kstep_few S S' -> kinv S'.
Proof.
  intros K [Hs Hfew]. destruct Hs as [i σ T A r σ' Hi E Hr|i σ T A σ' Hi E|i σ T A r σ' Hi E|
    i σ T A pa n σ' Hi Hn E|i σ T A pa n σ' Hi Hn E|i σ T A pa σ' Hi E|i σ T A pa σ' Hi E|
    i σ T A pa n σ' Hi Hn E|σ T A pa b v [n Hn] Hb].
  - pose proof (kinv_pop i σ T A r σ' K Hi E) as H. by rewrite decide_False in H.
  - pose proof (kinv_pop i σ T A 0 σ' K Hi E) as H. by rewrite decide_True in H.
  - injection E as <-. by apply kinv_got.
  - by apply (kinv_dec i σ T A pa n true).
  - by apply (kinv_dec i σ T A pa n false).
  - injection E as <-. by eapply kinv_fill.
  - by eapply kinv_link.
  - eapply kinv_dup; try done. specialize (Hfew pa (n + 1)). cbn in Hfew. rewrite lookup_insert_eq in Hfew. specialize (Hfew eq_refl). lia.
  - destruct K as [fl K]. exists fl. destruct (ki_used _ _ K pa n Hn) as (Hok & _ & _ & Hnin).
    destruct K as [Hf Hu Hp H1 Ha]. split; try done. cbn in *.
    eapply (free_rep_bytes σ _ fl pa); try done. by apply same_but_store8.
Qed.

Lemma reach_inv S S' : rtc kstep_few S S' -> kinv S -> kinv S'.
Proof. induction 1 as [|S S1 S2 Hs _ IH]; [done|]. intros K. apply IH. by eapply kstep_inv. Qed.

Lemma kinv_pop_ok S : kinv S -> exists r σ', kalloc_pop (k_mach S) = Ok r σ' /\
  (r = 0 <-> forall a, page_ok a -> is_Some (k_used S !! a) \/
     exists i pc, k_pc S !! i = Some pc /\ pc_page pc = Some a).
Proof.
  intros [fl K]. pose proof (ki_free _ _ K) as Hf.
  apply (wp_elim kalloc_pop (k_mach S) (fun r _ => r = 0 <-> _)).
  eapply kalloc_pop_wp; [exact Hf|]. destruct fl as [|a fl].
  - split; [|done]. intros _ a Ha. destruct (ki_all _ _ K a Ha) as [Hin|H]; [|done].
    by apply elem_of_nil in Hin.
  - intros σ' _ _ _ _. destruct (free_rep_elem _ _ a Hf) as [Hok _]; [set_solver|].
    pose proof (page_ok_range a Hok). split; [unfold KERNBASE in *; lia|]. intros Hall.
    destruct S as [σ T A]. destruct (free_alone _ _ _ _ a K) as [Hal Hna]; [set_solver|].
    destruct (Hall a Hok) as [[? ?]|(i & pc & Hi & Hpc)]; cbn in *; [congruence|by edestruct Hal].
Qed.

(** C15: the allocator is correct under concurrency.  Start [n] processors on
    an allocator with nothing in use, and let them call [kalloc], [kfree] and
    [increase_refer], interleaved at every critical section, while the owners
    of pages store into them and no page ever has more than 255 references: the
    counters have eight bits and are not tested.  In every reachable state: each managed page is
    on the free list, in use, or inside one call; a page that [kalloc] is
    about to return is in use by nobody and inside no other call; the counter
    of a page in use is its number of references, and the address checks of
    the functions pass; [kalloc] always returns, and it returns NULL exactly
    when no page is on the free list. *)
Theorem kalloc_concurrent σ n S :
  kinv (KState σ (replicate n Idle) ∅) -> rtc kstep_few (KState σ (replicate n Idle) ∅) S ->
  kinv S /\
  (forall i r, k_pc S !! i = Some (AllocJunk r) ->
     k_used S !! r = None /\
     forall j q, j <> i -> k_pc S !! j = Some q -> pc_page q <> Some r) /\
  (forall pa k, k_used S !! pa = Some k -> bad_pa pa = false /\ refcnt (k_mach S) pa = k) /\
  (exists r σ', kalloc_pop (k_mach S) = Ok r σ' /\
     (r = 0 <-> forall a, page_ok a -> is_Some (k_used S !! a) \/
        exists i pc, k_pc S !! i = Some pc /\ pc_page pc = Some a)).
Proof.
  intros K0 Hr. pose proof (reach_inv _ _ Hr K0) as K. split; [done|].
  split; [|split; [|by apply kinv_pop_ok]]; destruct S as [σ1 T A], K as [fl K].
  - intros i r Hi. destruct (ki_pc _ _ K i _ r Hi eq_refl) as (_ & _ & _ & Hna).
    split; [done|]. by eapply pc_alone.
  - intros pa k Hk. destruct (ki_used _ _ K pa k Hk) as (Hok & Hrc & _). split; [by apply page_ok_bad|done].
Qed.

(** [kinit] puts exactly the pages between the kernel and PHYSTOP on the
    free list, each with count 0: at boot nothing is in use. *)
Theorem kinit_all_free m rc :
  wp kinit (Machine m 0 rc) (fun _ σ' => forall n, kinv (KState σ' (replicate n Idle) ∅)).
Proof.
  unfold kinit. apply (freerange_wp _ []).
  - split; cbn; [done|constructor|constructor|constructor].
  - pose proof layout_end. lia.
  - done.
  - intros a Ha. by apply elem_of_nil in Ha.
  - intros σ' fl Hf Hin n. exists fl.
    assert (forall i pc a, replicate n Idle !! i = Some pc -> pc_page pc <> Some a) as Hidle.
    { intros i pc a [-> _]%lookup_replicate. done. }
    split; cbn.
    + done.
    + intros a k. by rewrite lookup_empty.
    + intros i pc a Hi Hpc. by destruct (Hidle i pc a Hi).
    + intros i j pc pc' a Hi _ Hpc. by destruct (Hidle i pc a Hi).
    + intros a Ha. left. apply Hin. right. split; [done|]. split; [apply Ha|]. by apply page_ok_range.
Qed.

(** C33: [kfree] of a page whose counter is already 0 (a double free) is not
    detected: the 8-bit counter wraps to 255, the page stays out of use and
    no panic occurs. *)
Theorem kfree_double σ a :
  page_ok a -> refcnt σ a = 0 -> kfree a σ = Ok tt (set_refcnt a 255 σ).
Proof.
  intros Hok H0. unfold kfree, kfree_dec. rewrite (proj1 (page_ok_bad a) Hok).
  unfold mbind, M_bind, modify, gets. rewrite refcnt_set, decide_True by (done || apply Hok).
  rewrite H0. change (u8 (0 - 1) >? 0) with true. cbn [mret M_ret]. f_equal.
Qed.
End Spec.

(** ** An example with two pages *)

#[program] Definition tiny : Layout :=
  {| kend := 0x87ffe000; etext := 0x80008000; trampoline := 0x80007000 |}.
Solve All Obligations with done.

Definition tiny_machine : machine :=
  Machine (store64 ∅ 0x87fff000 0x87ffe000) 0x87fff000 ∅.

Lemma tiny_pages a : page_ok (L := tiny) a <-> a = 0x87ffe000 \/ a = 0x87fff000.
Proof. unfold page_ok, aligned, PHYSTOP, KERNBASE, PGSIZE. cbn. split; intros; dlia. Qed.

Lemma tiny_inv : kinv (L := tiny) (KState tiny_machine (replicate 2 Idle) ∅).
Proof.
  exists [0x87fff000; 0x87ffe000]. split; cbn.
  - split.
    + vm_compute. done.
    + apply (bool_decide_unpack _). vm_compute. done.
    + repeat constructor; apply tiny_pages; auto.
    + repeat constructor.
  - intros a n. by rewrite lookup_empty.
  - by intros [|[|i]] pc a [= <-].
  - by intros [|[|i]] j pc pc' a [= <-].
  - intros a Ha%tiny_pages. left. set_solver.
Qed.

(** The second processor pops the first page. *)
Definition tiny_popped : machine :=
  set_refcnt 0x87fff000 1 (set_freelist 0x87ffe000 tiny_machine).

Lemma tiny_reach : rtc (kstep_few (L := tiny)) (KState tiny_machine (replicate 2 Idle) ∅)
  (KState tiny_popped [Idle; AllocJunk 0x87fff000] ∅).
Proof.
  eapply rtc_l; [|apply rtc_refl].
  split; [|intros a n; cbn; by rewrite lookup_empty].
  apply (ks_pop (L := tiny) 1 tiny_machine [Idle; Idle] ∅ 0x87fff000 tiny_popped); done.
Qed.

Lemma kalloc_concurrent_witness :
  kinv (L := tiny) (KState tiny_popped [Idle; AllocJunk 0x87fff000] ∅).
Proof.
  apply (kalloc_concurrent (L := tiny) tiny_machine 2 _ tiny_inv tiny_reach).
Defined.

Lemma kfree_double_witness :
  kfree (L := tiny) 0x87ffe000 tiny_machine = Ok tt (set_refcnt 0x87ffe000 255 tiny_machine).
Proof.
  apply (kfree_double (L := tiny) tiny_machine 0x87ffe000).
  - apply tiny_pages. auto.
  - reflexivity.
Defined.
