(* ===== verification/Vm.v ===== *)
(** * kernel/vm.c, and the copy-on-write routines of kernel/trap.c

    Page tables live in physical memory as the source has them: a page-table
    page is 512 words of eight bytes, reached with [ld] and [st].  A C pointer
    is its address and NULL is 0; dereferencing NULL in the kernel faults, and
    [kerneltrap] panics on a fault of the kernel's own.

    A kernel buffer that a copy routine reads or fills (the [src] of [copyout],
    the [dst] of [copyin] and [copyinstr]) is the list of its bytes. *)

From S2P Require Import Prelude Riscv Mem Kalloc.

(** Iteration bound of the loops over pages and over bytes of a 64-bit space. *)
Definition page_fuel : positive := (2 ^ 65)%positive.

Definition memsetM (dst c n : Z) : M machine unit :=
  modify (set_mem (fun m => memset m dst c n)).
Definition memmoveM (dst src n : Z) : M machine unit :=
  modify (set_mem (fun m => memmove m dst src n)).

(** [*pte] where [pte] may be NULL. *)
Definition deref (p : Z) : M machine Z :=
  if p =? 0 then panic "kerneltrap" else ld p.

Definition pte_addr (pagetable i : Z) : Z := pagetable + 8 * i.

Section Vm.
Context `{L : Layout}.

Fixpoint walk_loop (level : nat) (pagetable va : Z) (alloc : bool) : M machine Z :=
  match level with
  | O => mret (pte_addr pagetable (PX 0 va))
  | S level' =>
      let pte := pte_addr pagetable (PX (Z.of_nat level) va) in
      w ← ld pte;
      if flag w PTE_V then walk_loop level' (PTE2PA w) va alloc
      else if negb alloc then mret 0
      else
        p ← kalloc;
        if p =? 0 then mret 0
        else
          memsetM p 0 PGSIZE;;
          st pte (Z.lor (PA2PTE p) PTE_V);;
          walk_loop level' p va alloc
  end.

Definition walk (pagetable va : Z) (alloc : bool) : M machine Z :=
  if va >=? MAXVA then panic "walk" else walk_loop 2 pagetable va alloc.

Definition walkaddr (pagetable va : Z) : M machine Z :=
  if va >=? MAXVA then mret 0
  else
    pte ← walk pagetable va false;
    if pte =? 0 then mret 0
    else
      w ← ld pte;
      if negb (flag w PTE_V) then mret 0
      else if negb (flag w PTE_U) then mret 0
      else mret (PTE2PA w).

Definition mappages (pagetable va size pa perm : Z) : M machine Z :=
  if size =? 0 then panic "mappages: size"
  else
    let last := PGROUNDDOWN (u64 (va + size - 1)) in
    loop (fun '(a, pa) =>
      pte ← walk pagetable a true;
      if pte =? 0 then mret (inr (-1))
      else
        w ← ld pte;
        if flag w PTE_V then panic "mappages: remap"
        else
          st pte (Z.lor (Z.lor (PA2PTE pa) perm) PTE_V);;
          if a =? last then mret (inr 0)
          else mret (inl (u64 (a + PGSIZE), u64 (pa + PGSIZE))))
      page_fuel (PGROUNDDOWN va, pa).

Definition kvmmap (kpgtbl va pa sz perm : Z) : M machine unit :=
  r ← mappages kpgtbl va sz pa perm;
  if negb (r =? 0) then panic "kvmmap" else mret tt.

Definition uvmunmap (pagetable va npages : Z) (do_free : bool) : M machine unit :=
  if negb (va mod PGSIZE =? 0) then panic "uvmunmap: not aligned"
  else
    loop (fun a =>
      if a <? u64 (va + npages * PGSIZE) then
        pte ← walk pagetable a false;
        if pte =? 0 then panic "uvmunmap: walk"
        else
          w ← ld pte;
          if negb (flag w PTE_V) then panic "uvmunmap: not mapped"
          else if PTE_FLAGS w =? PTE_V then panic "uvmunmap: not a leaf"
          else
            (if do_free then kfree (PTE2PA w) else mret tt);;
            st pte 0;;
            mret (inl (u64 (a + PGSIZE)))
      else mret (inr tt)) page_fuel va.

Definition uvmcreate : M machine Z :=
  pagetable ← kalloc;
  if pagetable =? 0 then mret 0
  else memsetM pagetable 0 PGSIZE;; mret pagetable.

Definition uvmfirst (pagetable : Z) (src : list Z) : M machine unit :=
  let sz := Z.of_nat (length src) in
  if sz >=? PGSIZE then panic "uvmfirst: more than a page"
  else
    m ← kalloc;
    memsetM m 0 PGSIZE;;
    mappages pagetable 0 PGSIZE m (Z.lor (Z.lor (Z.lor PTE_W PTE_R) PTE_X) PTE_U);;
    modify (set_mem (fun mm => write_bytes mm m src)).

Definition uvmdealloc (pagetable oldsz newsz : Z) : M machine Z :=
  if newsz >=? oldsz then mret oldsz
  else
    (if PGROUNDUP newsz <? PGROUNDUP oldsz then
       let npages := i32 ((PGROUNDUP oldsz - PGROUNDUP newsz) / PGSIZE) in
       uvmunmap pagetable (PGROUNDUP newsz) (u64 npages) true
     else mret tt);;
    mret newsz.

Definition uvmalloc (pagetable oldsz newsz xperm : Z) : M machine Z :=
  if newsz <? oldsz then mret oldsz
  else
    let oldsz := PGROUNDUP oldsz in
    loop (fun a =>
      if a <? newsz then
        m ← kalloc;
        if m =? 0 then uvmdealloc pagetable a oldsz;; mret (inr 0)
        else
          memsetM m 0 PGSIZE;;
          r ← mappages pagetable a PGSIZE m (Z.lor (Z.lor PTE_R PTE_U) xperm);
          if negb (r =? 0) then
            kfree m;; uvmdealloc pagetable a oldsz;; mret (inr 0)
          else mret (inl (u64 (a + PGSIZE)))
      else mret (inr newsz)) page_fuel oldsz.

(** The loop of [freewalk] over the entries [i], [i + 1], ...; [rec] is the
    recursive call. *)
Fixpoint freewalk_entries (rec : Z -> M machine unit) (pagetable : Z) (n : nat) (i : Z) : M machine unit :=
  match n with
  | O => mret tt
  | S n =>
      pte ← ld (pte_addr pagetable i);
      (if flag pte PTE_V && (Z.land pte (Z.lor (Z.lor PTE_R PTE_W) PTE_X) =? 0)
       then rec (PTE2PA pte);; st (pte_addr pagetable i) 0
       else if flag pte PTE_V then panic "freewalk: leaf"
       else mret tt);;
      freewalk_entries rec pagetable n (i + 1)
  end.

(** Recursion depth is bounded by [depth]: an Sv39 table has three levels. *)
Fixpoint freewalk (depth : nat) (pagetable : Z) : M machine unit :=
  match depth with
  | O => nofuel
  | S depth =>
      freewalk_entries (freewalk depth) pagetable 512%nat 0;;
      kfree pagetable
  end.

Definition uvmfree (pagetable sz : Z) : M machine unit :=
  (if sz >? 0 then uvmunmap pagetable 0 (PGROUNDUP sz / PGSIZE) true else mret tt);;
  freewalk 3 pagetable.

Definition uvmcopy (old new sz : Z) : M machine Z :=
  loop (fun i =>
    if i <? sz then
      pte ← walk old i false;
      if pte =? 0 then panic "uvmcopy: pte should exist"
      else
        w ← ld pte;
        if negb (flag w PTE_V) then panic "uvmcopy: page not present"
        else
          let pa := PTE2PA w in
          (if flag w PTE_W
           then st pte (clear w PTE_W);;
                w ← ld pte; st pte (Z.lor w PTE_RSW_COW)
           else mret tt);;
          w ← ld pte;
          let flags := PTE_FLAGS w in
          r ← mappages new i PGSIZE pa flags;
          if negb (r =? 0) then
            uvmunmap new 0 (i / PGSIZE) true;; mret (inr (-1))
          else
            increase_refer pa;;
            mret (inl (u64 (i + PGSIZE)))
    else mret (inr 0)) page_fuel 0.

Definition uvmclear (pagetable va : Z) : M machine unit :=
  pte ← walk pagetable va false;
  if pte =? 0 then panic "uvmclear"
  else w ← ld pte; st pte (clear w PTE_U).

(** kernel/trap.c *)
Definition is_cowpage (pagetable va : Z) : M machine bool :=
  pte ← walk pagetable va false;
  w ← deref pte;
  mret (flag w PTE_RSW_COW).

Definition cow_alloc (pagetable va : Z) : M machine Z :=
  pte ← walk pagetable va false;
  w ← deref pte;
  let pa := PTE2PA w in
  n ← get_refcount pa;
  if n =? 1 then
    st pte (Z.lor w PTE_W);;
    w ← ld pte;
    st pte (clear w PTE_RSW_COW);;
    mret pa
  else
    st pte (Z.lor w PTE_W);;
    w ← ld pte;
    let flags := PTE_FLAGS w in
    let pa := PTE2PA w in
    new_mem ← kalloc;
    if new_mem =? 0 then mret 0
    else
      memmoveM new_mem pa PGSIZE;;
      w ← ld pte;
      st pte (clear w PTE_V);;
      r ← mappages pagetable va PGSIZE new_mem flags;
      if negb (r =? 0) then
        w ← ld pte;
        st pte (Z.lor w PTE_V);;
        kfree new_mem;;
        mret 0
      else
        kfree pa;;
        mret new_mem.

Definition copyout (pagetable dstva : Z) (src : list Z) : M machine Z :=
  loop (fun '(dstva, src) =>
    let len := Z.of_nat (length src) in
    if len >? 0 then
      let va0 := PGROUNDDOWN dstva in
      pa0 ← walkaddr pagetable va0;
      if pa0 =? 0 then mret (inr (-1))
      else
        let n := PGSIZE - (dstva - va0) in
        let n := if n >? len then len else n in
        cow ← is_cowpage pagetable va0;
        pa0 ← (if (cow : bool) then cow_alloc pagetable va0 else mret pa0);
        if cow && (pa0 =? 0) then mret (inr (-1))
        else
          modify (set_mem (fun m =>
            write_bytes m (pa0 + (dstva - va0)) (take (Z.to_nat n) src)));;
          mret (inl (u64 (va0 + PGSIZE), drop (Z.to_nat n) src))
    else mret (inr 0)) page_fuel (dstva, src).

(** Returns the code and the bytes stored from [dst] on. *)
Definition copyin (pagetable srcva len : Z) : M machine (Z * list Z) :=
  loop (fun '(srcva, len, dst) =>
    if len >? 0 then
      let va0 := PGROUNDDOWN srcva in
      pa0 ← walkaddr pagetable va0;
      if pa0 =? 0 then mret (inr (-1, dst))
      else
        let n := PGSIZE - (srcva - va0) in
        let n := if n >? len then len else n in
        bs ← gets (fun σ => read_bytes (m_mem σ) (pa0 + (srcva - va0)) (Z.to_nat n));
        mret (inl (u64 (va0 + PGSIZE), len - n, dst ++ bs))
    else mret (inr (0, dst))) page_fuel (srcva, len, []).

(** The inner loop of [copyinstr] over one page: [n] bytes from [p]; gives
    [got_null], the remaining [max] and the bytes stored. *)
Fixpoint copyinstr_page (m : mem) (p : Z) (n : nat) (max : Z) (dst : list Z) : bool * Z * list Z :=
  match n with
  | O => (false, max, dst)
  | S n =>
      if mget m p =? 0 then (true, max, dst ++ [0])
      else copyinstr_page m (p + 1) n (max - 1) (dst ++ [mget m p])
  end.

Definition copyinstr (pagetable srcva max : Z) : M machine (Z * list Z) :=
  loop (fun '(srcva, max, got_null, dst) =>
    if negb got_null && (max >? 0) then
      let va0 := PGROUNDDOWN srcva in
      pa0 ← walkaddr pagetable va0;
      if pa0 =? 0 then mret (inr (-1, dst))
      else
        let n := PGSIZE - (srcva - va0) in
        let n := if n >? max then max else n in
        r ← gets (fun σ => copyinstr_page (m_mem σ) (pa0 + (srcva - va0)) (Z.to_nat n) max dst);
        let '(got_null, max, dst) := r in
        mret (inl (u64 (va0 + PGSIZE), max, got_null, dst))
    else mret (inr (if (got_null : bool) then 0 else -1, dst)))
    page_fuel (srcva, max, false, []).

(** kernel/proc.c: the page table of a process, given its trapframe page. *)
Definition proc_pagetable (trapframe : Z) : M machine Z :=
  pagetable ← uvmcreate;
  if pagetable =? 0 then mret 0
  else
    r ← mappages pagetable TRAMPOLINE PGSIZE trampoline (Z.lor PTE_R PTE_X);
    if r <? 0 then uvmfree pagetable 0;; mret 0
    else
      r ← mappages pagetable TRAPFRAME PGSIZE trapframe (Z.lor PTE_R PTE_W);
      if r <? 0 then
        uvmunmap pagetable TRAMPOLINE 1 false;;
        uvmfree pagetable 0;;
        mret 0
      else mret pagetable.

Definition proc_freepagetable (pagetable sz : Z) : M machine unit :=
  uvmunmap pagetable TRAMPOLINE 1 false;;
  uvmunmap pagetable TRAPFRAME 1 false;;
  uvmfree pagetable sz.

(** kernel/proc.c: a kernel stack for each process slot. *)
Fixpoint proc_mapstacks_from (kpgtbl : Z) (n : nat) (p : Z) : M machine unit :=
  match n with
  | O => mret tt
  | S n =>
      pa ← kalloc;
      if pa =? 0 then panic "kalloc"
      else
        kvmmap kpgtbl (KSTACK p) pa PGSIZE (Z.lor PTE_R PTE_W);;
        proc_mapstacks_from kpgtbl n (p + 1)
  end.
Definition proc_mapstacks (kpgtbl : Z) : M machine unit :=
  proc_mapstacks_from kpgtbl (Z.to_nat NPROC) 0.

Definition kvmmake : M machine Z :=
  kpgtbl ← kalloc;
  memsetM kpgtbl 0 PGSIZE;;
  kvmmap kpgtbl UART0 UART0 PGSIZE (Z.lor PTE_R PTE_W);;
  kvmmap kpgtbl VIRTIO0 VIRTIO0 PGSIZE (Z.lor PTE_R PTE_W);;
  kvmmap kpgtbl PLIC PLIC 0x400000 (Z.lor PTE_R PTE_W);;
  kvmmap kpgtbl KERNBASE KERNBASE (etext - KERNBASE) (Z.lor PTE_R PTE_X);;
  kvmmap kpgtbl etext etext (PHYSTOP - etext) (Z.lor PTE_R PTE_W);;
  kvmmap kpgtbl TRAMPOLINE trampoline PGSIZE (Z.lor PTE_R PTE_X);;
  proc_mapstacks kpgtbl;;
  mret kpgtbl.
End Vm.
