(* ===== verification/VmRep.v ===== *)
(** * Page tables in memory and their abstraction

    A [world] is what the bytes of physical memory mean: which pages are free,
    which are page-table pages (and of which table, at which place), which hold
    user memory and which belong to the kernel, and the leaf entries of every
    page table as a finite map.  [rep σ w] says that the machine [σ] represents
    the world [w].  Since every page has one kind, page tables are disjoint
    from each other, from the free list and from user memory by construction.

    The lemmas of this file are the elementary moves (take a page, link a
    page-table page, write a leaf) and the specification of [walk]. *)

From S2P Require Import Prelude Riscv Mem Kalloc Vm.

(** What a physical page is used for.  [KNode r p] is the page-table page of
    the table rooted at [r] reached by the list of indices [p]. *)
Inductive kind := KFree | KNode (r : Z) (p : list Z) | KUser | KKern.

#[export] Instance kind_eq_dec : EqDecision kind.
Proof. solve_decision. Defined.

Record world := World {
  w_free : list Z;
  w_kind : gmap Z kind;
  w_node : gmap (Z * list Z) Z;
  w_leaf : gmap (Z * Z) Z
}.

Definition idx_ok (i : Z) : Prop := 0 <= i < 512.
Definition va_ok (va : Z) : Prop := aligned va /\ 0 <= va < MAXVA.
(** The page an address belongs to. *)
Definition page_of (b : Z) : Z := b / PGSIZE * PGSIZE.

(** Pages whose bytes the representation reads. *)
Definition meta (k : option kind) : bool :=
  match k with Some KFree | Some (KNode _ _) => true | _ => false end.

Section Rep.
Context `{L : Layout}.

Record rep (σ : machine) (w : world) : Prop := {
  r_free : free_rep σ (w_free w);
  r_kfree : forall a, a ∈ w_free w <-> w_kind w !! a = Some KFree;
  r_ok : forall a k, w_kind w !! a = Some k -> page_ok a;
  r_node : forall r p a, w_node w !! (r, p) = Some a <-> w_kind w !! a = Some (KNode r p);
  r_root : forall r a, w_node w !! (r, []) = Some a -> a = r;
  r_path : forall r p a, w_node w !! (r, p) = Some a ->
    (length p <= 2)%nat /\ Forall idx_ok p /\
    forall q j, p = q ++ [j] -> is_Some (w_node w !! (r, q));
  r_entry : forall r p a i, w_node w !! (r, p) = Some a -> (length p < 2)%nat -> idx_ok i ->
    load64 (m_mem σ) (pte_addr a i) =
    match w_node w !! (r, p ++ [i]) with
    | Some c => Z.lor (PA2PTE c) PTE_V
    | None => 0
    end;
  r_leaf : forall r i2 i1 a i0, w_node w !! (r, [i2; i1]) = Some a -> idx_ok i0 ->
    load64 (m_mem σ) (pte_addr a i0) = default 0 (w_leaf w !! (r, va_of i2 i1 i0));
  r_leaf_dom : forall r va x, w_leaf w !! (r, va) = Some x ->
    va_ok va /\ is_Some (w_node w !! (r, [PX 2 va; PX 1 va]));
  r_nrc : forall r p a, w_node w !! (r, p) = Some a -> refcnt σ a = 1
}.

Lemma page_of_in a b : aligned a -> a <= b < a + PGSIZE <-> page_of b = a.
Proof. unfold aligned, page_of, PGSIZE. intros. dlia. Qed.

Lemma page_of_off a i : aligned a -> 0 <= i < PGSIZE -> page_of (a + i) = a.
Proof. intros. apply page_of_in; [done|lia]. Qed.

Lemma entry_bytes a i b :
  aligned a -> idx_ok i -> pte_addr a i <= b < pte_addr a i + 8 -> page_of b = a.
Proof.
  unfold idx_ok, pte_addr. intros Ha Hi Hb. apply page_of_in; [done|].
  unfold PGSIZE. lia.
Qed.

Lemma entry_disjoint a i a' i' :
  aligned a -> aligned a' -> idx_ok i -> idx_ok i' -> (a, i) <> (a', i') ->
  pte_addr a i + 8 <= pte_addr a' i' \/ pte_addr a' i' + 8 <= pte_addr a i.
Proof.
  unfold pte_addr, idx_ok. intros Ha Ha' Hi Hi' Hne.
  destruct (decide (a = a')) as [->|Hn].
  - assert (i <> i') by congruence. lia.
  - destruct (aligned_disjoint a a' Ha Ha' Hn); unfold PGSIZE in *; lia.
Qed.

(** Words of pages that are not written are unchanged. *)
Lemma load_entry_same (m m' : mem) a i :
  aligned a -> idx_ok i ->
  (forall b, page_of b = a -> mget m' b = mget m b) ->
  load64 m' (pte_addr a i) = load64 m (pte_addr a i).
Proof. intros Ha Hi H. apply load64_ext. intros b Hb. apply H. by eapply entry_bytes. Qed.

Lemma load_page_same (m m' : mem) a :
  aligned a -> (forall b, page_of b = a -> mget m' b = mget m b) ->
  load64 m' a = load64 m a.
Proof.
  intros Ha H. apply load64_ext. intros b Hb. apply H. apply page_of_in; [done|].
  unfold PGSIZE. lia.
Qed.

Section Facts.
Context {σ : machine} {w : world} (R : rep σ w).

Lemma rep_node_kind r p a : w_node w !! (r, p) = Some a -> w_kind w !! a = Some (KNode r p).
Proof. apply R. Qed.
Lemma rep_node_ok r p a : w_node w !! (r, p) = Some a -> page_ok a.
Proof. intros Hn. by eapply (r_ok _ _ R), rep_node_kind. Qed.
Lemma rep_node_inj r p r' p' a :
  w_node w !! (r, p) = Some a -> w_node w !! (r', p') = Some a -> r = r' /\ p = p'.
Proof. intros H1%rep_node_kind H2%rep_node_kind. naive_solver. Qed.
Lemma rep_kind_aligned a k : w_kind w !! a = Some k -> aligned a.
Proof. intros Hk. by eapply (r_ok _ _ R). Qed.
Lemma rep_free_kind a : a ∈ w_free w -> w_kind w !! a = Some KFree.
Proof. apply R. Qed.
End Facts.

(** A step that leaves alone the bytes and counters of free pages and
    page-table pages keeps the representation. *)
Lemma rep_frame σ σ' w :
  rep σ w -> m_freelist σ' = m_freelist σ ->
  (forall b, meta (w_kind w !! page_of b) = true -> mget (m_mem σ') b = mget (m_mem σ) b) ->
  (forall a, meta (w_kind w !! a) = true -> refcnt σ' a = refcnt σ a) ->
  rep σ' w.
Proof.
  intros R Hfl Hm Hrc.
  assert (forall a, meta (w_kind w !! a) = true -> forall b, page_of b = a ->
    mget (m_mem σ') b = mget (m_mem σ) b) as Hm' by (intros a Ha b <-; by apply Hm).
  split; try apply R.
  - eapply free_rep_frame; [apply R|done|..]; intros a Ha%(rep_free_kind R).
    + apply load_page_same; [by eapply rep_kind_aligned|]. apply Hm'. by rewrite Ha.
    + apply Hrc. by rewrite Ha.
  - intros r p a i Hn Hp Hi. rewrite <- (r_entry _ _ R r p a i) by done.
    apply load_entry_same; [by eapply rep_node_ok|done|]. apply Hm'.
    by rewrite (rep_node_kind R _ _ _ Hn).
  - intros r i2 i1 a i0 Hn Hi. rewrite <- (r_leaf _ _ R r i2 i1 a i0) by done.
    apply load_entry_same; [by eapply rep_node_ok|done|]. apply Hm'.
    by rewrite (rep_node_kind R _ _ _ Hn).
  - intros r p a Hn. rewrite Hrc; [by eapply (r_nrc _ _ R)|].
    by rewrite (rep_node_kind R _ _ _ Hn).
Qed.

(** ** Elementary moves *)

(** The allocator hands a free page to the kernel. *)
Definition w_take (w : world) (a : Z) (fl : list Z) : world :=
  World fl (<[a := KKern]> (w_kind w)) (w_node w) (w_leaf w).
(** A kernel page goes back to the allocator. *)
Definition w_give (w : world) (a : Z) : world :=
  World (a :: w_free w) (<[a := KFree]> (w_kind w)) (w_node w) (w_leaf w).
(** A kernel page becomes the page-table page below entry [i] of node [p]. *)
Definition w_link (w : world) (r : Z) (p : list Z) (i a : Z) : world :=
  World (w_free w) (<[a := KNode r (p ++ [i])]> (w_kind w))
    (<[(r, p ++ [i]) := a]> (w_node w)) (w_leaf w).
(** A kernel page becomes a page table without entries. *)
Definition w_newroot (w : world) (a : Z) : world :=
  World (w_free w) (<[a := KNode a []]> (w_kind w)) (<[(a, []) := a]> (w_node w)) (w_leaf w).
Definition set_leaf (lf : gmap (Z * Z) Z) (r va v : Z) : gmap (Z * Z) Z :=
  if decide (v = 0) then delete (r, va) lf else <[(r, va) := v]> lf.
Definition w_setleaf (w : world) (r va v : Z) : world :=
  World (w_free w) (w_kind w) (w_node w) (set_leaf (w_leaf w) r va v).
(** A kernel page becomes user memory, and back. *)
Definition w_setkind (w : world) (a : Z) (k : kind) : world :=
  World (w_free w) (<[a := k]> (w_kind w)) (w_node w) (w_leaf w).

Lemma set_leaf_lookup lf r va v r' va' :
  default 0 (set_leaf lf r va v !! (r', va')) =
  if decide ((r, va) = (r', va')) then v else default 0 (lf !! (r', va')).
Proof.
  unfold set_leaf. case_decide; [rewrite lookup_delete|rewrite lookup_insert];
    case_decide; done.
Qed.

Lemma rep_kalloc σ w (Q : Z -> machine -> Prop) :
  rep σ w ->
  match w_free w with
  | [] => Q 0 σ
  | a :: fl =>
      forall σ', rep σ' (w_take w a fl) ->
        w_kind w !! a = Some KFree ->
        refcnt σ' a = 1 ->
        (forall b, aligned b -> b <> a -> refcnt σ' b = refcnt σ b) ->
        (forall b, page_of b <> a -> mget (m_mem σ') b = mget (m_mem σ) b) ->
        Q a σ'
  end ->
  wp kalloc σ Q.
Proof.
  intros R HQ. eapply kalloc_wp; [apply R|]. destruct (w_free w) as [|a fl] eqn:E; [done|].
  intros σ' Hf Hrc Hrcs Hs _.
  assert (w_kind w !! a = Some KFree) as Hk by (apply (r_kfree _ _ R); rewrite E; set_solver).
  pose proof (rep_kind_aligned R _ _ Hk) as Ha.
  assert (forall b, page_of b <> a -> mget (m_mem σ') b = mget (m_mem σ) b) as Hm.
  { intros b Hb. apply Hs. by rewrite page_of_in. }
  apply HQ; try done. pose proof (fr_nodup _ _ (r_free _ _ R)) as Hnd.
  rewrite E in Hnd. apply NoDup_cons in Hnd as [Hnin Hnd].
  assert (forall r p c, w_node w !! (r, p) = Some c -> c <> a) as Hna.
  { intros r p c Hn ->. apply (rep_node_kind R) in Hn. congruence. }
  split; cbn; try apply R.
  - done.
  - intros b. rewrite lookup_insert. case_decide as Hd.
    + subst. split; [by intros|done].
    + rewrite <- (r_kfree _ _ R), E. set_solver.
  - intros b k. rewrite lookup_insert. case_decide as Hd; [subst|].
    + intros _. by eapply (r_ok _ _ R).
    + apply (r_ok _ _ R).
  - intros r p b. rewrite lookup_insert. case_decide as Hd.
    + subst. split; [|done]. intros Hn. by destruct (Hna _ _ _ Hn).
    + apply (r_node _ _ R).
  - intros r p b i Hn Hp Hi. rewrite <- (r_entry _ _ R r p b i) by done.
    apply load_entry_same; [by eapply (rep_node_ok R)|done|]. intros x Hx.
    apply Hm. rewrite Hx. by eapply Hna.
  - intros r i2 i1 b i0 Hn Hi. rewrite <- (r_leaf _ _ R r i2 i1 b i0) by done.
    apply load_entry_same; [by eapply (rep_node_ok R)|done|]. intros x Hx.
    apply Hm. rewrite Hx. by eapply Hna.
  - intros r p b Hn. rewrite Hrcs; [by eapply (r_nrc _ _ R)| |by eapply Hna].
    by eapply (rep_node_ok R).
Qed.

(** A page that is neither free nor a page-table page, with one reference,
    goes back to the free list. *)
Lemma rep_kfree_last σ w a k (Q : unit -> machine -> Prop) :
  rep σ w -> w_kind w !! a = Some k -> meta (Some k) = false -> refcnt σ a = 1 ->
  (forall σ', rep σ' (w_give w a) ->
     refcnt σ' a = 0 ->
     (forall b, aligned b -> b <> a -> refcnt σ' b = refcnt σ b) ->
     (forall b, page_of b <> a -> mget (m_mem σ') b = mget (m_mem σ) b) ->
     Q tt σ') ->
  wp (kfree a) σ Q.
Proof.
  intros R Hk Hmeta Hone HQ. pose proof (r_ok _ _ R _ _ Hk) as Hok.
  eapply kfree_wp; [apply R|done|lia|]. rewrite decide_True by done.
  intros σ' Hf Hrc Hrcs Hs _. pose proof (proj1 Hok) as Ha.
  assert (forall b, page_of b <> a -> mget (m_mem σ') b = mget (m_mem σ) b) as Hm.
  { intros b Hb. apply Hs. by rewrite page_of_in. }
  assert (forall r p c, w_node w !! (r, p) = Some c -> c <> a) as Hna.
  { intros r p c Hn ->. apply (rep_node_kind R) in Hn.
    rewrite Hn in Hk. by injection Hk as <-. }
  apply HQ; [|lia|done|done].
  split; cbn; try apply R.
  - done.
  - intros b. rewrite elem_of_cons, lookup_insert. case_decide as Hd.
    + subst. naive_solver.
    + rewrite <- (r_kfree _ _ R). naive_solver.
  - intros b k'. rewrite lookup_insert. case_decide as Hd; [by subst|]. apply (r_ok _ _ R).
  - intros r p b. rewrite lookup_insert. case_decide as Hd.
    + subst. split; [|done]. intros Hn. by destruct (Hna _ _ _ Hn).
    + apply (r_node _ _ R).
  - intros r p b i Hn Hp Hi. rewrite <- (r_entry _ _ R r p b i) by done.
    apply load_entry_same; [by eapply (rep_node_ok R)|done|]. intros x Hx.
    apply Hm. rewrite Hx. by eapply Hna.
  - intros r i2 i1 b i0 Hn Hi. rewrite <- (r_leaf _ _ R r i2 i1 b i0) by done.
    apply load_entry_same; [by eapply (rep_node_ok R)|done|]. intros x Hx.
    apply Hm. rewrite Hx. by eapply Hna.
  - intros r p b Hn. rewrite Hrcs; [by eapply (r_nrc _ _ R)| |by eapply Hna].
    by eapply (rep_node_ok R).
Qed.

(** With several references, [kfree] only decrements the counter. *)
Lemma rep_kfree_more σ w a k (Q : unit -> machine -> Prop) :
  rep σ w -> w_kind w !! a = Some k -> meta (Some k) = false -> 1 < refcnt σ a ->
  (forall σ', rep σ' w ->
     m_mem σ' = m_mem σ ->
     refcnt σ' a = refcnt σ a - 1 ->
     (forall b, aligned b -> b <> a -> refcnt σ' b = refcnt σ b) ->
     Q tt σ') ->
  wp (kfree a) σ Q.
Proof.
  intros R Hk Hmeta Hrc1 HQ. pose proof (r_ok _ _ R _ _ Hk) as Hok.
  unfold kfree. rewrite (proj1 (page_ok_bad a) Hok). wp_step. apply kfree_dec_wp; [done|lia|].
  intros σ' Hm Hl Hrc Hrcs. rewrite (proj2 (Z.ltb_lt 1 (refcnt σ a))) by done. wp_step.
  apply HQ; [|done|done|done]. eapply rep_frame; [done|done|by rewrite Hm|].
  intros b Hb. apply Hrcs.
  - destruct (w_kind w !! b) eqn:E; [|done]. by eapply (rep_kind_aligned R).
  - intros ->. by rewrite Hk, Hmeta in Hb.
Qed.

(** Storing into the entry of a page-table page. *)
Definition store_entry (a i v : Z) (σ : machine) : machine :=
  set_mem (fun m => store64 m (pte_addr a i) v) σ.

#[global] Arguments store_entry : simpl never.

Lemma refcnt_store_entry a i v σ b : refcnt (store_entry a i v σ) b = refcnt σ b.
Proof. done. Qed.

Lemma mget_store_entry a i v σ b :
  aligned a -> idx_ok i -> page_of b <> a ->
  mget (m_mem (store_entry a i v σ)) b = mget (m_mem σ) b.
Proof.
  intros Ha Hi Hb. apply mget_store64_ne. intros Hc.
  by apply Hb, (entry_bytes a i b).
Qed.

Lemma load_store_entry_eq a i v σ :
  0 <= v < 2 ^ 64 -> load64 (m_mem (store_entry a i v σ)) (pte_addr a i) = v.
Proof. intros. by apply load64_store64. Qed.

Lemma load_store_entry_ne a i v σ a' i' :
  aligned a -> aligned a' -> idx_ok i -> idx_ok i' -> (a, i) <> (a', i') ->
  load64 (m_mem (store_entry a i v σ)) (pte_addr a' i') = load64 (m_mem σ) (pte_addr a' i').
Proof. intros. apply load64_store64_ne. by apply entry_disjoint. Qed.

Lemma store_entry_free σ w r p a i v :
  rep σ w -> w_node w !! (r, p) = Some a -> idx_ok i ->
  free_rep (store_entry a i v σ) (w_free w).
Proof.
  intros R Hn Hi. eapply free_rep_frame; [apply R|done| |done].
  intros b Hb%(rep_free_kind R). apply load_page_same; [by eapply (rep_kind_aligned R)|].
  intros x Hx. apply mget_store_entry; [by eapply (rep_node_ok R)|done|].
  intros Hx'. apply (rep_node_kind R) in Hn. congruence.
Qed.

Lemma rep_link σ w r p i t a :
  rep σ w -> w_node w !! (r, p) = Some t -> (length p < 2)%nat -> idx_ok i ->
  w_node w !! (r, p ++ [i]) = None ->
  w_kind w !! a = Some KKern -> refcnt σ a = 1 ->
  (forall j, idx_ok j -> load64 (m_mem σ) (pte_addr a j) = 0) ->
  rep (store_entry t i (Z.lor (PA2PTE a) PTE_V) σ) (w_link w r p i a).
Proof.
  intros R Ht Hp Hi Hnone Hk Hone Hzero.
  pose proof (rep_node_ok R _ _ _ Ht) as Htok. pose proof (proj1 Htok) as Htal.
  pose proof (r_ok _ _ R _ _ Hk) as Hok. pose proof (proj1 Hok) as Hal.
  assert (forall r' p' c, w_node w !! (r', p') = Some c -> c <> a) as Hna.
  { intros r' p' c Hn ->. apply (rep_node_kind R) in Hn. congruence. }
  assert (0 <= Z.lor (PA2PTE a) PTE_V < 2 ^ 64) as Hv.
  { pose proof (page_ok_range a Hok). apply lor_range; [lia| |change PTE_V with 1; lia].
    rewrite PA2PTE_eq; unfold PHYSTOP, KERNBASE, PGSIZE in *; dlia. }
  destruct (r_path _ _ R _ _ _ Ht) as (_ & Hpok & _).
  split; cbn [w_link w_free w_kind w_node w_leaf].
  - by eapply store_entry_free.
  - intros b. rewrite lookup_insert. case_decide as Hd; [subst|apply (r_kfree _ _ R)].
    split; [|done]. intros Hb%(rep_free_kind R). congruence.
  - intros b k. rewrite lookup_insert. case_decide as Hd; [by subst|]. apply (r_ok _ _ R).
  - intros r' p' b. rewrite !lookup_insert. repeat case_decide; simplify_eq.
    + done.
    + split; [congruence|]. intros Hb%(r_node _ _ R). congruence.
    + split; [|congruence]. intros Hn. by destruct (Hna _ _ _ Hn).
    + apply (r_node _ _ R).
  - intros r' b. rewrite lookup_insert_ne by (destruct p; naive_solver). apply (r_root _ _ R).
  - intros r' p' b. rewrite lookup_insert. case_decide as Hd.
    + intros [= <-]. injection Hd as <- <-. split; [rewrite length_app; cbn; lia|].
      split; [by apply Forall_app_2, Forall_singleton|].
      intros q j [-> ->]%app_inj_tail. rewrite lookup_insert_ne; [by eexists|].
      intros [= Hbad]. apply (f_equal length) in Hbad. rewrite length_app in Hbad. cbn in Hbad. lia.
    + intros (H1 & H2 & H3)%(r_path _ _ R). split; [done|]. split; [done|].
      intros q j Hq. destruct (H3 q j Hq) as [c Hc]. rewrite lookup_insert.
      case_decide; by eexists.
  - intros r' p' b j. rewrite lookup_insert. case_decide as Hd.
    + intros [= <-] Hlen Hj. injection Hd as <- <-.
      rewrite load_store_entry_ne; [|done..|].
      2:{ intros [= -> ->]. by eapply Hna. }
      rewrite Hzero by done. rewrite lookup_insert_ne.
      2:{ intros [= Hbad]. apply (f_equal length) in Hbad. rewrite !length_app in Hbad. cbn in Hbad. lia. }
      destruct (w_node w !! (r, (p ++ [i]) ++ [j])) as [c|] eqn:Hc; [|done].
      apply (r_path _ _ R) in Hc as (_ & _ & Hc). destruct (Hc _ _ eq_refl). congruence.
    + intros Hb Hlen Hj. destruct (decide ((t, i) = (b, j))) as [Heq|Hne].
      * injection Heq as <- <-. destruct (rep_node_inj R _ _ _ _ _ Ht Hb) as [<- <-].
        rewrite load_store_entry_eq by done. by rewrite lookup_insert_eq.
      * rewrite load_store_entry_ne; [|done| |done..]. 2:{ by eapply (rep_node_ok R). }
        rewrite (r_entry _ _ R r' p' b j) by done.
        rewrite lookup_insert_ne; [done|]. intros Heq. injection Heq as <- Heq.
        apply app_inj_tail in Heq as [<- <-]. rewrite Ht in Hb. by simplify_eq.
  - intros r' i2 i1 b i0. rewrite lookup_insert. case_decide as Hd.
    + intros [= <-] Hj. injection Hd as <- Hd.
      rewrite load_store_entry_ne; [|done..|].
      2:{ intros [= -> ->]. by eapply Hna. }
      rewrite Hzero by done.
      destruct (w_leaf w !! (r, va_of i2 i1 i0)) as [x|] eqn:Hx; [|done].
      apply (r_leaf_dom _ _ R) in Hx as [_ [c Hc]].
      assert (p ++ [i] = [i2] ++ [i1]) as [-> ->]%app_inj_tail by done.
      apply Forall_inv in Hpok.
      unfold idx_ok in *. destruct (PX_va_of i2 i1 i0) as (E2 & E1 & _); [lia..|]. rewrite E2, E1 in Hc.
      cbn in Hnone. congruence.
    + intros Hb Hj. rewrite <- (r_leaf _ _ R r' i2 i1 b i0) by done.
      apply load_store_entry_ne; [done| |done..|]; [by eapply (rep_node_ok R)|].
      intros [= <- <-]. destruct (rep_node_inj R _ _ _ _ _ Ht Hb) as [<- ->]. cbn in Hp. lia.
  - intros r' va x (Hva & c & Hc)%(r_leaf_dom _ _ R). split; [done|].
    rewrite lookup_insert. case_decide; by eexists.
  - intros r' p' b. rewrite lookup_insert, refcnt_store_entry. case_decide as Hd.
    + by intros [= <-].
    + apply (r_nrc _ _ R).
Qed.

Lemma rep_newroot σ w a :
  rep σ w -> w_kind w !! a = Some KKern -> refcnt σ a = 1 ->
  (forall j, idx_ok j -> load64 (m_mem σ) (pte_addr a j) = 0) ->
  w_node w !! (a, []) = None ->
  rep σ (w_newroot w a).
Proof.
  intros R Hk Hone Hzero Hnone. pose proof (r_ok _ _ R _ _ Hk) as Hok.
  assert (forall r' p' c, w_node w !! (r', p') = Some c -> c <> a) as Hna.
  { intros r' p' c Hn ->. apply (rep_node_kind R) in Hn. congruence. }
  split; cbn [w_newroot w_free w_kind w_node w_leaf].
  - apply R.
  - intros b. rewrite lookup_insert. case_decide as Hd; [subst|apply (r_kfree _ _ R)].
    split; [|done]. intros Hb%(rep_free_kind R). congruence.
  - intros b k. rewrite lookup_insert. case_decide as Hd; [by subst|]. apply (r_ok _ _ R).
  - intros r' p' b. rewrite !lookup_insert. repeat case_decide; simplify_eq.
    + done.
    + split; [congruence|]. intros Hb%(r_node _ _ R). congruence.
    + split; [|congruence]. intros Hn. by destruct (Hna _ _ _ Hn).
    + apply (r_node _ _ R).
  - intros r' b. rewrite lookup_insert. case_decide as Hd.
    + intros [= <-]. by injection Hd as <-.
    + apply (r_root _ _ R).
  - intros r' p' b. rewrite lookup_insert. case_decide as Hd.
    + intros [= <-]. injection Hd as <- <-. split; [cbn; lia|].
      split; [constructor|]. intros q j Hq. by destruct q.
    + intros (H1 & H2 & H3)%(r_path _ _ R). split; [done|]. split; [done|].
      intros q j Hq. destruct (H3 q j Hq) as [c Hc]. rewrite lookup_insert.
      case_decide; by eexists.
  - intros r' p' b j. rewrite lookup_insert. case_decide as Hd.
    + intros [= <-] _ Hj. injection Hd as <- <-. rewrite Hzero by done.
      rewrite lookup_insert_ne by done. cbn.
      destruct (w_node w !! (a, [j])) as [c|] eqn:Hc; [|done].
      apply (r_path _ _ R) in Hc as (_ & _ & Hc). destruct (Hc [] j eq_refl). congruence.
    + intros Hb Hlen Hj. rewrite lookup_insert_ne by (destruct p'; done).
      by apply (r_entry _ _ R r' p' b j).
  - intros r' i2 i1 b i0. rewrite lookup_insert_ne by done. apply (r_leaf _ _ R).
  - intros r' va x (Hva & c & Hc)%(r_leaf_dom _ _ R). split; [done|].
    rewrite lookup_insert_ne by done. by eexists.
  - intros r' p' b. rewrite lookup_insert. case_decide as Hd.
    + by intros [= <-].
    + apply (r_nrc _ _ R).
Qed.

Lemma rep_setleaf σ w r va t v :
  rep σ w -> va_ok va -> w_node w !! (r, [PX 2 va; PX 1 va]) = Some t -> 0 <= v < 2 ^ 64 ->
  rep (store_entry t (PX 0 va) v σ) (w_setleaf w r va v).
Proof.
  intros R [Hal Hva] Ht Hv. pose proof (rep_node_ok R _ _ _ Ht) as Htok.
  pose proof (proj1 Htok) as Htal. pose proof (PX_range 0 va) as H0.
  pose proof (PX_range 1 va) as H1. pose proof (PX_range 2 va) as H2.
  split; cbn [w_setleaf w_free w_kind w_node w_leaf]; try apply R.
  - by eapply store_entry_free.
  - intros r' p' b j Hb Hlen Hj. rewrite load_store_entry_ne.
    + by apply (r_entry _ _ R).
    + done.
    + by eapply (rep_node_ok R).
    + done.
    + done.
    + intros [= <- <-]. destruct (rep_node_inj R _ _ _ _ _ Ht Hb) as [_ <-]. cbn in Hlen. lia.
  - intros r' i2 i1 b i0 Hb Hj. rewrite set_leaf_lookup.
    destruct (r_path _ _ R _ _ _ Hb) as (_ & Hidx & _).
    apply Forall_cons in Hidx as [Hi2 Hidx]. apply Forall_inv in Hidx as Hi1.
    unfold idx_ok in Hi2, Hi1, Hj. destruct (PX_va_of i2 i1 i0) as (E2 & E1 & E0); [done..|].
    case_decide as Hd.
    + injection Hd as <- Hd. rewrite Hd, E2, E1 in Ht. rewrite Ht in Hb. simplify_eq.
      rewrite E0. by apply load_store_entry_eq.
    + rewrite load_store_entry_ne.
      * by apply (r_leaf _ _ R).
      * done.
      * by eapply (rep_node_ok R).
      * done.
      * done.
      * intros [= <- He]. destruct (rep_node_inj R _ _ _ _ _ Ht Hb) as [<- [= He2 He1]].
        apply Hd. f_equal. rewrite <- He, <- He2, <- He1. by rewrite va_of_PX.
  - intros r' va' x. unfold set_leaf. case_decide.
    + rewrite lookup_delete_Some. intros [_ Hx]. by eapply (r_leaf_dom _ _ R).
    + rewrite lookup_insert_Some. intros [[[= <- <-] _]|[_ Hx]].
      * split; [done|by eexists].
      * by eapply (r_leaf_dom _ _ R).
Qed.

Lemma rep_setkind σ w a k k' :
  rep σ w -> w_kind w !! a = Some k -> meta (Some k) = false -> meta (Some k') = false ->
  rep σ (w_setkind w a k').
Proof.
  intros R Hk Hm Hm'. pose proof (r_ok _ _ R _ _ Hk) as Hok.
  split; cbn [w_setkind w_free w_kind w_node w_leaf]; try apply R.
  - intros b. rewrite lookup_insert. case_decide as Hd; [subst|apply (r_kfree _ _ R)].
    rewrite (r_kfree _ _ R), Hk. split; intros [= ->]; done.
  - intros b k1. rewrite lookup_insert. case_decide as Hd; [by subst|]. apply (r_ok _ _ R).
  - intros r p b. rewrite lookup_insert. case_decide as Hd; [subst|apply (r_node _ _ R)].
    rewrite (r_node _ _ R), Hk. split; intros [= ->]; done.
Qed.

(** ** [walk] *)

Lemma flag_node c : page_ok c ->
  flag (Z.lor (PA2PTE c) PTE_V) PTE_V = true /\ PTE2PA (Z.lor (PA2PTE c) PTE_V) = c.
Proof.
  intros Hok. pose proof (page_ok_range c Hok). destruct Hok as [Hal _].
  assert (0 <= c < 2 ^ 56) by (unfold PHYSTOP, KERNBASE, PGSIZE in *; lia).
  rewrite flag_V, Z.lor_spec, orb_true_r. split; [done|].
  rewrite PTE2PA_lor by (change PTE_V with 1; lia). by apply PTE2PA_PA2PTE.
Qed.

(** The leaf entry of an address in memory, or 0 (NULL) if a page-table page
    is missing on the way. *)
Definition pte_ptr (w : world) (r va : Z) : Z :=
  match w_node w !! (r, [PX 2 va; PX 1 va]) with
  | Some t => pte_addr t (PX 0 va)
  | None => 0
  end.

Lemma walk_read_wp σ w r va (Q : Z -> machine -> Prop) :
  rep σ w -> w_node w !! (r, []) = Some r -> 0 <= va < MAXVA ->
  Q (pte_ptr w r va) σ -> wp (walk r va false) σ Q.
Proof.
  intros R Hr Hva HQ. unfold walk.
  assert ((va >=? MAXVA) = false) as -> by (rewrite Z.geb_leb; apply Z.leb_gt; lia).
  cbn [walk_loop]. unfold ld. do 2 wp_step.
  rewrite (r_entry _ _ R r [] r) by (done || apply PX_range || (cbn; lia)). cbn [app].
  unfold pte_ptr in HQ. change (Z.of_nat 2) with 2. change (Z.of_nat 1) with 1.
  destruct (w_node w !! (r, [PX 2 va])) as [t1|] eqn:E1.
  - destruct (flag_node t1 (rep_node_ok R _ _ _ E1)) as [-> ->]. do 2 wp_step.
    rewrite (r_entry _ _ R r [PX 2 va] t1) by (done || apply PX_range || (cbn; lia)).
    cbn [app]. destruct (w_node w !! (r, [PX 2 va; PX 1 va])) as [t0|] eqn:E0.
    + destruct (flag_node t0 (rep_node_ok R _ _ _ E0)) as [-> ->]. by wp_step.
    + change (flag 0 PTE_V) with false. cbn [negb]. by wp_step.
  - change (flag 0 PTE_V) with false. cbn [negb]. wp_step. destruct (w_node w !! (r, [PX 2 va; PX 1 va])) as [t0|] eqn:E0; [|done].
    apply (r_path _ _ R) in E0 as (_ & _ & E0). destruct (E0 [PX 2 va] (PX 1 va) eq_refl).
    congruence.
Qed.

(** [grow r]: the table rooted at [r] took pages from the front of the free
    list for new page-table pages, and nothing else changed. *)
Record grow (r : Z) (σ : machine) (w : world) (σ' : machine) (w' : world) : Prop := {
  g_free : exists pre, w_free w = pre ++ w_free w';
  g_kind : forall a, a ∉ w_free w -> w_kind w' !! a = w_kind w !! a;
  g_new : forall a, a ∈ w_free w -> a ∉ w_free w' -> exists p, w_kind w' !! a = Some (KNode r p);
  g_node : forall k v, w_node w !! k = Some v -> w_node w' !! k = Some v;
  g_other : forall r' p, r' <> r -> w_node w' !! (r', p) = w_node w !! (r', p);
  g_mem : forall b, meta (w_kind w !! page_of b) = false ->
    mget (m_mem σ') b = mget (m_mem σ) b;
  g_rc : forall a, aligned a -> a ∉ w_free w -> refcnt σ' a = refcnt σ a
}.

(** At most [n] pages were taken. *)
Definition took (n : nat) (w w' : world) : Prop := (length (w_free w) <= length (w_free w') + n)%nat.

Lemma grow_refl r σ w : grow r σ w σ w.
Proof. split; try done. by exists []. Qed.

Lemma grow_sub r σ w σ' w' a : grow r σ w σ' w' -> a ∈ w_free w' -> a ∈ w_free w.
Proof. intros [[pre ->]] Ha. set_solver. Qed.

Lemma meta_not_free σ w a :
  rep σ w -> meta (w_kind w !! a) = false -> a ∉ w_free w.
Proof. intros R Hm Ha%(rep_free_kind R). by rewrite Ha in Hm. Qed.

Lemma grow_trans r σ w σ1 w1 σ2 w2 :
  rep σ w -> grow r σ w σ1 w1 -> grow r σ1 w1 σ2 w2 -> grow r σ w σ2 w2.
Proof.
  intros R G1 G2.
  assert (forall a, a ∉ w_free w -> a ∉ w_free w1) as Hsub
    by (intros a Ha Ha1; by apply Ha, (grow_sub _ _ _ _ _ _ G1)).
  split.
  - destruct (g_free _ _ _ _ _ G1) as [p1 E1], (g_free _ _ _ _ _ G2) as [p2 E2].
    exists (p1 ++ p2). by rewrite E1, E2, app_assoc.
  - intros a Ha. rewrite (g_kind _ _ _ _ _ G2), (g_kind _ _ _ _ _ G1) by auto. done.
  - intros a Ha Ha2. destruct (decide (a ∈ w_free w1)) as [Ha1|Ha1].
    + by apply (g_new _ _ _ _ _ G2).
    + destruct (g_new _ _ _ _ _ G1 a Ha Ha1) as [p Hp]. exists p.
      by rewrite (g_kind _ _ _ _ _ G2).
  - intros k v Hk. by apply (g_node _ _ _ _ _ G2), (g_node _ _ _ _ _ G1).
  - intros r' p Hne. rewrite (g_other _ _ _ _ _ G2), (g_other _ _ _ _ _ G1) by done. done.
  - intros b Hb. pose proof (meta_not_free _ _ _ R Hb) as Hnf.
    rewrite (g_mem _ _ _ _ _ G2), (g_mem _ _ _ _ _ G1); [done|done|].
    by rewrite (g_kind _ _ _ _ _ G1).
  - intros a Hal Ha. rewrite (g_rc _ _ _ _ _ G2), (g_rc _ _ _ _ _ G1) by auto. done.
Qed.

(** A page that is not free keeps its kind. *)
Lemma grow_kind r σ w σ' w' a k :
  rep σ w -> grow r σ w σ' w' -> w_kind w !! a = Some k -> k <> KFree ->
  w_kind w' !! a = Some k /\ a ∉ w_free w.
Proof.
  intros R G Hk Hne. assert (a ∉ w_free w) as Hnf.
  { intros Ha%(rep_free_kind R). congruence. }
  split; [by rewrite (g_kind _ _ _ _ _ G)|done].
Qed.

(** Allocating, zeroing and linking one page-table page. *)
Lemma walk_new_wp σ w r p i t (k : Z -> M machine Z) (Q : Z -> machine -> Prop) :
  rep σ w -> w_node w !! (r, p) = Some t -> (length p < 2)%nat -> idx_ok i ->
  w_node w !! (r, p ++ [i]) = None ->
  (w_free w = [] -> Q 0 σ) ->
  (forall a σ' w', rep σ' w' -> grow r σ w σ' w' -> took 1 w w' -> w_leaf w' = w_leaf w ->
     w_node w' !! (r, p ++ [i]) = Some a ->
     (forall q, q <> p ++ [i] -> w_node w' !! (r, q) = w_node w !! (r, q)) ->
     wp (k a) σ' Q) ->
  wp (a ← kalloc;
      if a =? 0 then mret 0
      else memsetM a 0 PGSIZE;; st (pte_addr t i) (Z.lor (PA2PTE a) PTE_V);; k a) σ Q.
Proof.
  intros R Ht Hlen Hi Hnone Hnil Hk. wp_step. eapply rep_kalloc; [done|].
  destruct (w_free w) as [|a fl] eqn:Ef.
  { rewrite Z.eqb_refl. wp_step. by apply Hnil. }
  intros σ1 R1 Hfree Hone Hrcs Hm1.
  pose proof (r_ok _ _ R _ _ Hfree) as Hok. pose proof (page_ok_range a Hok).
  pose proof (proj1 Hok) as Hal.
  assert ((a =? 0) = false) as -> by (apply Z.eqb_neq; unfold KERNBASE in *; lia).
  unfold memsetM, st. repeat wp_step.
  set (σ2 := set_mem (fun m => memset m a 0 PGSIZE) σ1).
  assert (w_kind (w_take w a fl) !! a = Some KKern) as Hka by (cbn; by rewrite lookup_insert_eq).
  assert (rep σ2 (w_take w a fl)) as R2.
  { eapply rep_frame; [done|done| |done]. intros b Hb. cbn.
    rewrite mget_memset, decide_False; [done|]. rewrite page_of_in by done.
    intros Hpb. rewrite Hpb, Hka in Hb. done. }
  assert (forall j, idx_ok j -> load64 (m_mem σ2) (pte_addr a j) = 0) as Hz.
  { intros j Hj. unfold idx_ok, pte_addr in *. apply load64_memset0; unfold PGSIZE; lia. }
  pose proof (rep_link σ2 (w_take w a fl) r p i t a R2 Ht Hlen Hi Hnone Hka Hone Hz) as R3.
  apply (Hk a (store_entry t i (Z.lor (PA2PTE a) PTE_V) σ2) _ R3).
  - assert (a ∈ w_free w) as Hain by (rewrite Ef; set_solver).
    assert (t <> a) as Hta.
    { intros ->. apply (rep_node_kind R) in Ht. congruence. }
    split; cbn.
    + exists [a]. by rewrite Ef.
    + intros b Hb. rewrite !lookup_insert_ne; set_solver.
    + intros b Hb Hb'. rewrite Ef in Hb. assert (b = a) as -> by set_solver.
      rewrite lookup_insert_eq. by eexists.
    + intros [r' q] v Hv. rewrite lookup_insert_ne; [done|]. congruence.
    + intros r' q Hne. rewrite lookup_insert_ne; [done|]. congruence.
    + intros b Hb. assert (page_of b <> a) as Hba.
      { intros Hba. by rewrite Hba, Hfree in Hb. }
      assert (page_of b <> t) as Hbt.
      { intros Hbt. by rewrite Hbt, (rep_node_kind R _ _ _ Ht) in Hb. }
      transitivity (mget (m_mem σ2) b).
      { apply mget_store_entry; [by eapply (rep_node_ok R)|done|done]. }
      cbn. rewrite mget_memset, decide_False; [by apply Hm1|]. by rewrite page_of_in.
    + intros b Hbal Hb. change (refcnt σ1 b = refcnt σ b). apply Hrcs; [done|].
      intros ->. by apply Hb.
  - unfold took. cbn. rewrite Ef. cbn. lia.
  - done.
  - cbn. by rewrite lookup_insert_eq.
  - intros q Hq. cbn. rewrite lookup_insert_ne; [done|]. congruence.
Qed.

Lemma walk_alloc_wp σ w r va (Q : Z -> machine -> Prop) :
  rep σ w -> w_node w !! (r, []) = Some r -> 0 <= va < MAXVA ->
  (forall σ' w', rep σ' w' -> grow r σ w σ' w' -> took 2 w w' -> w_leaf w' = w_leaf w ->
     w_free w' = [] -> Q 0 σ') ->
  (forall σ' w' t, rep σ' w' -> grow r σ w σ' w' -> took 2 w w' -> w_leaf w' = w_leaf w ->
     w_node w' !! (r, [PX 2 va; PX 1 va]) = Some t -> Q (pte_addr t (PX 0 va)) σ') ->
  wp (walk r va true) σ Q.
Proof.
  intros R Hr Hva Hfail HQ. unfold walk.
  assert ((va >=? MAXVA) = false) as -> by (rewrite Z.geb_leb; apply Z.leb_gt; lia).
  (* the second level, from a state where the first level is present *)
  assert (forall σ1 w1 t1, rep σ1 w1 -> grow r σ w σ1 w1 -> took 1 w w1 -> w_leaf w1 = w_leaf w ->
    w_node w1 !! (r, [PX 2 va]) = Some t1 -> wp (walk_loop 1 t1 va true) σ1 Q) as Hlow.
  { intros σ1 w1 t1 R1 G1 N1 El1 Ht1. unfold took in *. cbn [walk_loop]. unfold ld. do 2 wp_step.
    change (Z.of_nat 1) with 1.
    rewrite (r_entry _ _ R1 r [PX 2 va] t1) by (done || apply PX_range || (cbn; lia)).
    cbn [app]. destruct (w_node w1 !! (r, [PX 2 va; PX 1 va])) as [t0|] eqn:E0.
    - destruct (flag_node t0 (rep_node_ok R1 _ _ _ E0)) as [-> ->]. wp_step.
      eapply HQ; try done. lia.
    - change (flag 0 PTE_V) with false. cbn [negb].
      eapply (walk_new_wp σ1 w1 r [PX 2 va] (PX 1 va) t1); try done.
      + cbn; lia.
      + apply PX_range.
      + intros Hn. apply (Hfail σ1 w1); try done. lia.
      + intros a σ2 w2 R2 G2 N2 El2 Ha _. wp_step. eapply HQ; [done| |unfold took in *; lia|congruence|done].
        by eapply grow_trans. }
  cbn [walk_loop]. unfold ld. do 2 wp_step. change (Z.of_nat 2) with 2.
  rewrite (r_entry _ _ R r [] r) by (done || apply PX_range || (cbn; lia)). cbn [app].
  destruct (w_node w !! (r, [PX 2 va])) as [t1|] eqn:E1.
  - destruct (flag_node t1 (rep_node_ok R _ _ _ E1)) as [-> ->].
    apply (Hlow σ w t1); try done; [apply grow_refl|unfold took; lia].
  - change (flag 0 PTE_V) with false. cbn [negb].
    eapply (walk_new_wp σ w r [] (PX 2 va) r); try done.
    + cbn; lia.
    + apply PX_range.
    + intros Hn. apply (Hfail σ w); try done; [apply grow_refl|unfold took; lia].
    + intros a σ2 w2 R2 G2 N2 El2 Ha _. by apply (Hlow σ2 w2 a).
Qed.

(** When the page-table pages are there, [walk] does not allocate. *)
Lemma walk_present_wp σ w r va t alloc (Q : Z -> machine -> Prop) :
  rep σ w -> w_node w !! (r, []) = Some r -> 0 <= va < MAXVA ->
  w_node w !! (r, [PX 2 va; PX 1 va]) = Some t ->
  Q (pte_addr t (PX 0 va)) σ -> wp (walk r va alloc) σ Q.
Proof.
  intros R Hr Hva E0 HQ. unfold walk.
  assert ((va >=? MAXVA) = false) as -> by (rewrite Z.geb_leb; apply Z.leb_gt; lia).
  destruct (r_path _ _ R _ _ _ E0) as (_ & _ & Hp).
  destruct (Hp [PX 2 va] (PX 1 va) eq_refl) as [t1 E1].
  cbn [walk_loop]. unfold ld. do 2 wp_step.
  change (Z.of_nat 2) with 2. change (Z.of_nat 1) with 1.
  rewrite (r_entry _ _ R r [] r) by (done || apply PX_range || (cbn; lia)). cbn [app].
  rewrite E1. destruct (flag_node t1 (rep_node_ok R _ _ _ E1)) as [-> ->]. do 2 wp_step.
  rewrite (r_entry _ _ R r [PX 2 va] t1) by (done || apply PX_range || (cbn; lia)).
  cbn [app]. rewrite E0. destruct (flag_node t (rep_node_ok R _ _ _ E0)) as [-> ->].
  by wp_step.
Qed.

(** The word of a leaf entry, through the pointer that [walk] returns. *)
Lemma load_leaf σ w r va t :
  rep σ w -> va_ok va -> w_node w !! (r, [PX 2 va; PX 1 va]) = Some t ->
  load64 (m_mem σ) (pte_addr t (PX 0 va)) = default 0 (w_leaf w !! (r, va)).
Proof.
  intros R [Hal Hva] Ht. rewrite (r_leaf _ _ R r (PX 2 va) (PX 1 va) t) by (done || apply PX_range).
  by rewrite va_of_PX.
Qed.

Lemma pte_addr_nonzero σ w r p t i :
  rep σ w -> w_node w !! (r, p) = Some t -> 0 <= i -> (pte_addr t i =? 0) = false.
Proof.
  intros R Ht Hi. pose proof (page_ok_range t (rep_node_ok R _ _ _ Ht)).
  apply Z.eqb_neq. unfold pte_addr, KERNBASE in *. lia.
Qed.

Lemma leaf_node σ w r va x :
  rep σ w -> w_leaf w !! (r, va) = Some x ->
  va_ok va /\ w_node w !! (r, []) = Some r /\
  exists t, w_node w !! (r, [PX 2 va; PX 1 va]) = Some t.
Proof.
  intros R (Hva & t & Ht)%(r_leaf_dom _ _ R). split; [done|]. split; [|by exists t].
  destruct (r_path _ _ R _ _ _ Ht) as (_ & _ & Hp).
  destruct (Hp [PX 2 va] (PX 1 va) eq_refl) as [t1 Ht1].
  destruct (r_path _ _ R _ _ _ Ht1) as (_ & _ & Hp1).
  destruct (Hp1 [] (PX 2 va) eq_refl) as [t2 Ht2].
  pose proof (r_root _ _ R _ _ Ht2). by subst.
Qed.

Lemma mkpte_nonzero pa perm : 0 <= pa < 2 ^ 56 -> mkpte pa perm <> 0.
Proof.
  intros Hpa E. pose proof (mkpte_testbit pa perm 0 Hpa) as Hb.
  rewrite E, orb_true_r, Z.bits_0 in Hb. specialize (Hb ltac:(lia)). done.
Qed.

Lemma grow_setleaf r σ w σ' w' va t v :
  rep σ w -> rep σ' w' -> grow r σ w σ' w' -> va_ok va ->
  w_node w' !! (r, [PX 2 va; PX 1 va]) = Some t ->
  grow r σ w (store_entry t (PX 0 va) v σ') (w_setleaf w' r va v).
Proof.
  intros R R' G Hva Ht. split; cbn; try apply G.
  intros b Hb. rewrite mget_store_entry; [by apply (g_mem _ _ _ _ _ G)| | |].
  - by eapply (rep_node_ok R').
  - apply PX_range.
  - intros Hpb. apply (rep_node_kind R') in Ht as Hk.
    pose proof (meta_not_free _ _ _ R Hb) as Hnf.
    rewrite <- (g_kind _ _ _ _ _ G), Hpb, Hk in Hb by done. done.
Qed.
End Rep.
