(* ===== verification/VmSpec.v ===== *)
(** * Specifications of the page-table operations of kernel/vm.c

    [mappages], [uvmunmap], [uvmalloc], [uvmdealloc], [uvmcopy] and the
    copy-on-write routines against the abstraction of VmRep.v.  The invariant
    [user_ok] says what the reference counts of kernel/kalloc.c count: the
    leaf entries, over all page tables, that map a page of user memory.
    [cow_ok] is the copy-on-write discipline: a writable page has one mapping. *)

From S2P Require Import Prelude Riscv Mem Kalloc Vm VmRep.

(** ** Mapping a range of pages *)

(** The leaf map after [k] pages of a [mappages] loop. *)
Fixpoint map_range (lf : gmap (Z * Z) Z) (r a pa perm : Z) (k : nat) : gmap (Z * Z) Z :=
  match k with
  | O => lf
  | S k =>
      <[(r, a + Z.of_nat k * PGSIZE) := mkpte (pa + Z.of_nat k * PGSIZE) perm]>
        (map_range lf r a pa perm k)
  end.

(** No valid entry at this address of table [r]. *)
Definition unmapped (lf : gmap (Z * Z) Z) (r va : Z) : Prop :=
  Z.testbit (default 0 (lf !! (r, va))) 0 = false.

Lemma map_range_ne lf r a pa perm k r' va :
  (forall j, (j < k)%nat -> (r', va) <> (r, a + Z.of_nat j * PGSIZE)) ->
  map_range lf r a pa perm k !! (r', va) = lf !! (r', va).
Proof.
  induction k as [|k IH]; intros Hne; [done|]. cbn.
  rewrite lookup_insert_ne by (intros E; eapply (Hne k); [lia|done]).
  apply IH. intros j Hj. apply Hne. lia.
Qed.

Lemma map_range_eq lf r a pa perm k j :
  (j < k)%nat ->
  map_range lf r a pa perm k !! (r, a + Z.of_nat j * PGSIZE) =
  Some (mkpte (pa + Z.of_nat j * PGSIZE) perm).
Proof.
  induction k as [|k IH]; intros Hj; [lia|]. cbn.
  destruct (decide (j = k)) as [->|]; [by rewrite lookup_insert_eq|].
  rewrite lookup_insert_ne; [apply IH; lia|]. unfold PGSIZE. intros [= E]. lia.
Qed.

(** Pages covered by [size] bytes from [va]. *)
Definition npages (va size : Z) : nat :=
  Z.to_nat ((PGROUNDDOWN (va + size - 1) - PGROUNDDOWN va) / PGSIZE + 1).

Section Spec.
Context `{L : Layout}.

Lemma mappages_wp σ w r va size pa perm (Q : Z -> machine -> Prop) :
  rep σ w -> w_node w !! (r, []) = Some r ->
  0 <= va -> 0 < size -> va + size <= MAXVA ->
  0 <= pa -> pa + size + PGSIZE <= 2 ^ 56 -> 0 <= perm < 1024 ->
  (forall j, (j < npages va size)%nat ->
     unmapped (w_leaf w) r (PGROUNDDOWN va + Z.of_nat j * PGSIZE)) ->
  (forall σ' w' k, rep σ' w' -> grow r σ w σ' w' -> took (2 * npages va size) w w' -> w_free w' = [] ->
     (k < npages va size)%nat ->
     w_leaf w' = map_range (w_leaf w) r (PGROUNDDOWN va) pa perm k -> Q (-1) σ') ->
  (forall σ' w', rep σ' w' -> grow r σ w σ' w' -> took (2 * npages va size) w w' ->
     w_leaf w' = map_range (w_leaf w) r (PGROUNDDOWN va) pa perm (npages va size) -> Q 0 σ') ->
  wp (mappages r va size pa perm) σ Q.
Proof.
  intros R Hr Hva Hsz Hmax Hpa Hpam Hperm Hun Hfail HQ. unfold mappages.
  assert (MAXVA = 2 ^ 38) as EM by done.
  rewrite (proj2 (Z.eqb_neq size 0)) by lia.
  unfold u64. rewrite (Z.mod_small (va + size - 1)) by lia.
  destruct (PGROUNDDOWN_spec va) as (A0 & L0); [lia|].
  destruct (PGROUNDDOWN_spec (va + size - 1)) as (A1 & L1); [lia|].
  unfold npages in *. set (a0 := PGROUNDDOWN va) in *. set (last := PGROUNDDOWN (va + size - 1)) in *.
  assert (exists n, last = a0 + Z.of_nat n * PGSIZE /\ Z.to_nat ((last - a0) / PGSIZE + 1) = S n)
    as (n & En & Enn).
  { exists (Z.to_nat ((last - a0) / PGSIZE)). unfold aligned, PGSIZE in *. dlia. }
  rewrite Enn in *.
  apply (wp_loop _ (fun m '(a, p) σ1 => exists w1 k, (k + m = n)%nat /\
    a = a0 + Z.of_nat k * PGSIZE /\ p = pa + Z.of_nat k * PGSIZE /\
    rep σ1 w1 /\ grow r σ w σ1 w1 /\ took (2 * k) w w1 /\ w_leaf w1 = map_range (w_leaf w) r a0 pa perm k) _ _ n).
  - intros m [a p] σ1 (w1 & k & Hk & -> & -> & R1 & G1 & N1 & El). unfold took in *.
    assert (va_ok (a0 + Z.of_nat k * PGSIZE)) as Hvk.
    { unfold va_ok, aligned, PGSIZE in *. dlia. }
    assert (0 <= pa + Z.of_nat k * PGSIZE < 2 ^ 56) as Hpk.
    { unfold aligned, PGSIZE in *. dlia. }
    wp_step. eapply (walk_alloc_wp σ1 w1 r); [done|by apply (g_node _ _ _ _ _ G1)|apply Hvk| |].
    + intros σ2 w2 R2 G2 N2 El2 Hnil. unfold took in *. rewrite Z.eqb_refl. wp_step.
      eapply Hfail; [done| | |done| |by rewrite El2]; [by eapply grow_trans|lia|lia].
    + intros σ2 w2 t R2 G2 N2 El2 Ht. unfold took in *.
      erewrite pte_addr_nonzero by (done || apply PX_range). unfold ld. do 2 wp_step.
      rewrite (load_leaf σ2 w2 r _ t) by done. rewrite flag_V, El2, El.
      rewrite map_range_ne by (intros j Hj [= E]; unfold PGSIZE in *; lia).
      rewrite Hun by lia. unfold st. do 2 wp_step.
      pose proof (mkpte_nonzero (pa + Z.of_nat k * PGSIZE) perm Hpk) as Hnz.
      assert (rep (store_entry t (PX 0 (a0 + Z.of_nat k * PGSIZE))
        (mkpte (pa + Z.of_nat k * PGSIZE) perm) σ2)
        (w_setleaf w2 r (a0 + Z.of_nat k * PGSIZE) (mkpte (pa + Z.of_nat k * PGSIZE) perm))) as R3.
      { apply rep_setleaf; try done. pose proof (mkpte_range _ _ Hpk Hperm). lia. }
      assert (set_leaf (w_leaf w2) r (a0 + Z.of_nat k * PGSIZE)
        (mkpte (pa + Z.of_nat k * PGSIZE) perm) = map_range (w_leaf w) r a0 pa perm (S k)) as El3.
      { cbn. unfold set_leaf. rewrite decide_False by done. by rewrite El2, El. }
      assert (grow r σ w (store_entry t (PX 0 (a0 + Z.of_nat k * PGSIZE))
        (mkpte (pa + Z.of_nat k * PGSIZE) perm) σ2)
        (w_setleaf w2 r (a0 + Z.of_nat k * PGSIZE) (mkpte (pa + Z.of_nat k * PGSIZE) perm))) as G3.
      { eapply grow_setleaf; try done. by eapply grow_trans. }
      wp_step; wp_step; bool_to_prop.
      * eapply HQ; [exact R3|exact G3|cbn [w_free w_setleaf]; lia|]. cbn [w_leaf w_setleaf]. rewrite El3. f_equal.
        unfold PGSIZE in *. lia.
      * exists (m - 1)%nat. split; [unfold PGSIZE in *; nia|]. eexists _, (S k).
        split; [unfold PGSIZE in *; nia|].
        rewrite !Z.mod_small by (unfold PGSIZE, va_ok in *; lia).
        split; [lia|]. split; [lia|]. split; [exact R3|]. split; [done|]. split; [cbn [w_free w_setleaf]; lia|done].
  - exists w, 0%nat. split; [lia|]. split; [lia|]. split; [lia|]. split; [done|].
    split; [apply grow_refl|]. split; [unfold took; lia|done].
  - unfold page_fuel, aligned, PGSIZE in *. dlia.
Qed.

Lemma npages_one va : va_ok va -> npages va PGSIZE = 1%nat.
Proof.
  intros [Ha Hv]. assert (MAXVA = 2 ^ 38) by done. unfold npages.
  rewrite !PGROUNDDOWN_eq by (unfold PGSIZE; lia). unfold aligned, PGSIZE in *. dlia.
Qed.

Lemma PGROUNDDOWN_id va : va_ok va -> PGROUNDDOWN va = va.
Proof.
  intros [Ha Hv]. assert (MAXVA = 2 ^ 38) by done.
  rewrite PGROUNDDOWN_eq by lia. unfold aligned, PGSIZE in *. dlia.
Qed.

(** One page. *)
Lemma mappages1_wp σ w r va pa perm (Q : Z -> machine -> Prop) :
  rep σ w -> w_node w !! (r, []) = Some r -> va_ok va ->
  0 <= pa < 2 ^ 55 -> 0 <= perm < 1024 -> unmapped (w_leaf w) r va ->
  (forall σ' w', rep σ' w' -> grow r σ w σ' w' -> took 2 w w' -> w_free w' = [] ->
     w_leaf w' = w_leaf w -> Q (-1) σ') ->
  (forall σ' w', rep σ' w' -> grow r σ w σ' w' -> took 2 w w' ->
     w_leaf w' = <[(r, va) := mkpte pa perm]> (w_leaf w) -> Q 0 σ') ->
  wp (mappages r va PGSIZE pa perm) σ Q.
Proof.
  intros R Hr Hva Hpa Hperm Hun Hfail HQ. pose proof (npages_one va Hva) as Hn.
  pose proof (PGROUNDDOWN_id va Hva) as Hd.
  apply (mappages_wp σ w); try done; rewrite ?Hn, ?Hd.
  - apply Hva.
  - destruct Hva as [Ha Hv]. assert (MAXVA = 2 ^ 38) by done.
    unfold aligned, PGSIZE in *. dlia.
  - lia.
  - unfold PGSIZE. lia.
  - intros j Hj. assert (j = 0%nat) as -> by lia. by rewrite Z.add_0_r.
  - intros σ' w' k R' G' N' Hnil Hk. assert (k = 0%nat) as -> by lia. by apply Hfail.
  - cbn [map_range]. by rewrite !Z.add_0_r.
Qed.

(** One page whose page-table pages are there: nothing is allocated. *)
Lemma mappages1_present_wp σ w r va t pa perm (Q : Z -> machine -> Prop) :
  rep σ w -> w_node w !! (r, []) = Some r -> va_ok va ->
  w_node w !! (r, [PX 2 va; PX 1 va]) = Some t -> unmapped (w_leaf w) r va ->
  Q 0 (store_entry t (PX 0 va) (mkpte pa perm) σ) ->
  wp (mappages r va PGSIZE pa perm) σ Q.
Proof.
  intros R Hr Hva Ht Hun HQ. unfold mappages. cbn [Z.eqb PGSIZE].
  pose proof (PGROUNDDOWN_id va Hva) as Hd.
  assert (PGROUNDDOWN (u64 (va + PGSIZE - 1)) = va) as Hl.
  { destruct Hva as [Ha Hv]. assert (MAXVA = 2 ^ 38) by done.
    unfold u64. rewrite Z.mod_small by (unfold PGSIZE; lia).
    rewrite PGROUNDDOWN_eq by (unfold PGSIZE; lia). unfold aligned, PGSIZE in *. dlia. }
  change 4096 with PGSIZE. rewrite Hd, Hl. unfold wp at 1.
  rewrite loop_first by done. cbv beta iota. apply wp_bind, wp_bind.
  apply (walk_present_wp σ w r va t); [done|done|apply Hva|done|].
  erewrite pte_addr_nonzero by (done || apply PX_range). unfold ld, st. do 2 wp_step.
  rewrite (load_leaf σ w r _ t) by done. rewrite flag_V, Hun. do 2 wp_step.
  rewrite Z.eqb_refl. wp_step. by wp_step.
Qed.

Lemma walkaddr_wp σ w r va (Q : Z -> machine -> Prop) :
  rep σ w -> w_node w !! (r, []) = Some r -> va_ok va ->
  Q (match w_leaf w !! (r, va) with
     | Some x => if Z.testbit x 0 && Z.testbit x 4 then PTE2PA x else 0
     | None => 0
     end) σ ->
  wp (walkaddr r va) σ Q.
Proof.
  intros R Hr Hva HQ. unfold walkaddr.
  rewrite Z.geb_leb, (proj2 (Z.leb_gt _ _)) by apply Hva.
  wp_step. apply (walk_read_wp σ w); [done|done|apply Hva|]. unfold pte_ptr.
  destruct (w_node w !! (r, [PX 2 va; PX 1 va])) as [t|] eqn:Ht.
  - erewrite pte_addr_nonzero by (done || apply PX_range). unfold ld. do 2 wp_step.
    rewrite (load_leaf σ w r _ t) by done. rewrite flag_V, flag_U.
    destruct (w_leaf w !! (r, va)) as [x|]; cbn [default from_option id].
    + destruct (Z.testbit x 0), (Z.testbit x 4); cbn [negb andb] in *; by wp_step.
    + by wp_step.
  - rewrite Z.eqb_refl. wp_step. destruct (w_leaf w !! (r, va)) eqn:Hx; [|done].
    apply (leaf_node σ w) in Hx as (_ & _ & [t Ht']); [congruence|done].
Qed.

(** Allocating an empty page table. *)
Lemma uvmcreate_wp σ w (Q : Z -> machine -> Prop) :
  rep σ w ->
  match w_free w with
  | [] => Q 0 σ
  | a :: fl =>
      forall σ', rep σ' (w_newroot (w_take w a fl) a) -> w_kind w !! a = Some KFree ->
        (forall b, aligned b -> b <> a -> refcnt σ' b = refcnt σ b) ->
        (forall b, page_of b <> a -> mget (m_mem σ') b = mget (m_mem σ) b) -> Q a σ'
  end ->
  wp uvmcreate σ Q.
Proof.
  intros R HQ. unfold uvmcreate. wp_step. apply (rep_kalloc σ w); [done|].
  destruct (w_free w) as [|a fl] eqn:Ef; [by wp_step|].
  intros σ1 R1 Hk Hone Hrc Hm. pose proof (r_ok _ _ R _ _ Hk) as Hok.
  pose proof (page_ok_range a Hok). pose proof (proj1 Hok) as Hal.
  rewrite (proj2 (Z.eqb_neq a 0)) by (unfold KERNBASE in *; lia).
  unfold memsetM. do 3 wp_step.
  assert (w_kind (w_take w a fl) !! a = Some KKern) as Hka by (cbn; by rewrite lookup_insert_eq).
  apply HQ; [|done|done|].
  - apply rep_newroot; [|done|done| |].
    + eapply rep_frame; [done|done| |done]. intros b Hb. cbn.
      rewrite mget_memset, decide_False; [done|]. rewrite page_of_in by done.
      intros Hpb. by rewrite Hpb, Hka in Hb.
    + intros j Hj. unfold idx_ok, pte_addr in *. apply load64_memset0; unfold PGSIZE; lia.
    + cbn. destruct (w_node w !! (a, [])) as [c|] eqn:Hc; [|done].
      pose proof (r_root _ _ R _ _ Hc) as ->. apply (rep_node_kind R) in Hc. congruence.
  - intros b Hb. cbn. rewrite mget_memset, decide_False; [by apply Hm|]. by rewrite page_of_in.
Qed.
End Spec.
