(* ===== verification/Cow.v ===== *)
(** * Copy-on-write: what the reference counts count

    [user_ok] relates the counters of kernel/kalloc.c to the page tables: the
    counter of a page of user memory is the number of leaf entries below the
    trapframe, over all page tables, that map it.  [cow_ok] is the
    copy-on-write discipline: an entry with [PTE_W] is the only mapping of its
    page.  The specifications of [uvmunmap], [uvmcopy] (fork), [cow_alloc]
    (page fault) and of the copy routines are stated with these invariants. *)

From S2P Require Import Prelude Riscv Mem Kalloc Vm VmRep VmSpec.

(** An entry of the user part of a page table that maps page [a]. *)
Definition is_ref (a : Z) (kv : Z * Z * Z) : Prop := kv.1.2 < TRAPFRAME /\ PTE2PA kv.2 = a.

#[export] Instance is_ref_dec a kv : Decision (is_ref a kv).
Proof. unfold is_ref. apply _. Defined.

(** The number of user mappings of page [a]. *)
Definition urefs (lf : gmap (Z * Z) Z) (a : Z) : Z := cnt (is_ref a) lf.

(** Entries of user pages: valid and readable, as [uvmalloc] creates them. *)
Definition leaf_wf (x : Z) : Prop :=
  0 <= x < 2 ^ 54 /\ Z.testbit x 0 = true /\ Z.testbit x 1 = true.

Record user_ok (σ : machine) (w : world) : Prop := {
  u_leaf : forall r va x, w_leaf w !! (r, va) = Some x -> va < TRAPFRAME ->
    leaf_wf x /\ w_kind w !! PTE2PA x = Some KUser;
  u_rc : forall a, w_kind w !! a = Some KUser ->
    refcnt σ a = urefs (w_leaf w) a /\ 1 <= refcnt σ a;
  u_once : forall r va x va' x', w_leaf w !! (r, va) = Some x ->
    w_leaf w !! (r, va') = Some x' -> va < TRAPFRAME -> va' < TRAPFRAME ->
    PTE2PA x = PTE2PA x' -> va = va';
  (* trampoline and trapframe *)
  u_trap : forall r va x, w_leaf w !! (r, va) = Some x -> TRAPFRAME <= va -> Z.testbit x 4 = false
}.

Definition cow_ok (w : world) : Prop :=
  forall r va x, w_leaf w !! (r, va) = Some x -> va < TRAPFRAME ->
    Z.testbit x 2 = true -> urefs (w_leaf w) (PTE2PA x) = 1.

Lemma urefs_delete lf r va x a :
  lf !! (r, va) = Some x -> va < TRAPFRAME ->
  urefs (delete (r, va) lf) a = urefs lf a - if decide (PTE2PA x = a) then 1 else 0.
Proof.
  intros Hx Hva. unfold urefs. rewrite (cnt_delete _ _ _ _ Hx). f_equal.
  unfold is_ref. cbn. repeat case_decide; naive_solver.
Qed.

Lemma urefs_insert_new lf r va y a :
  lf !! (r, va) = None -> va < TRAPFRAME ->
  urefs (<[(r, va) := y]> lf) a = urefs lf a + if decide (PTE2PA y = a) then 1 else 0.
Proof.
  intros Hx Hva. unfold urefs. rewrite cnt_insert_new by done. f_equal.
  unfold is_ref. cbn. repeat case_decide; naive_solver.
Qed.

Lemma urefs_insert lf r va x y a :
  lf !! (r, va) = Some x -> PTE2PA y = PTE2PA x ->
  urefs (<[(r, va) := y]> lf) a = urefs lf a.
Proof.
  intros Hx E. unfold urefs. rewrite (cnt_insert _ _ _ _ _ Hx).
  unfold is_ref. cbn. repeat case_decide; naive_solver lia.
Qed.

(** ** Abstract operations *)

(** Removing one entry; the last mapping frees the page. *)
Definition w_unmap (w : world) (r va : Z) : world :=
  match w_leaf w !! (r, va) with
  | None => w
  | Some x =>
      w_setleaf (if decide (urefs (w_leaf w) (PTE2PA x) = 1) then w_give w (PTE2PA x) else w) r va 0
  end.

Fixpoint w_unmaps (w : world) (r va : Z) (k : nat) : world :=
  match k with
  | O => w
  | S k => w_unmap (w_unmaps w r va k) r (va + Z.of_nat k * PGSIZE)
  end.

(** What unmapping leaves alone: page tables, kernel pages, and the bytes of
    the user pages that are still in use. *)
Record shrink (σ : machine) (w : world) (σ' : machine) (w' : world) : Prop := {
  s_kind : forall a, w_kind w' !! a = w_kind w !! a \/
    (w_kind w !! a = Some KUser /\ w_kind w' !! a = Some KFree);
  s_node : w_node w' = w_node w;
  s_mem : forall b, meta (w_kind w' !! page_of b) = false ->
    mget (m_mem σ') b = mget (m_mem σ) b;
  s_rc : forall a, w_kind w !! a = Some KKern -> refcnt σ' a = refcnt σ a
}.

Lemma w_unmap_leaf w r va : w_leaf (w_unmap w r va) = delete (r, va) (w_leaf w).
Proof.
  unfold w_unmap. destruct (w_leaf w !! (r, va)) as [x|] eqn:Hx.
  - cbn. unfold set_leaf. rewrite decide_True by done. by case_decide.
  - by rewrite delete_id.
Qed.

Lemma w_unmaps_ne w r va k r' va' :
  (forall j, (j < k)%nat -> (r', va') <> (r, va + Z.of_nat j * PGSIZE)) ->
  w_leaf (w_unmaps w r va k) !! (r', va') = w_leaf w !! (r', va').
Proof.
  induction k as [|k IH]; intros Hne; [done|]. cbn. rewrite w_unmap_leaf.
  rewrite lookup_delete_ne by (intros E; eapply (Hne k); [lia|done]).
  apply IH. intros j Hj. apply Hne. lia.
Qed.

Lemma w_unmaps_eq w r va k j :
  (j < k)%nat -> w_leaf (w_unmaps w r va k) !! (r, va + Z.of_nat j * PGSIZE) = None.
Proof.
  induction k as [|k IH]; intros Hj; [lia|]. cbn. rewrite w_unmap_leaf.
  rewrite lookup_delete. case_decide; [done|]. apply IH.
  assert (j <> k) by congruence. lia.
Qed.

Lemma w_unmap_node w r va : w_node (w_unmap w r va) = w_node w.
Proof. unfold w_unmap. destruct (_ !! _); [cbn; by case_decide|done]. Qed.

Lemma w_unmaps_node w r va k : w_node (w_unmaps w r va k) = w_node w.
Proof. induction k as [|k IH]; [done|]. cbn. by rewrite w_unmap_node. Qed.

Lemma shrink_refl σ w : shrink σ w σ w.
Proof. split; auto. Qed.

Lemma shrink_trans σ w σ1 w1 σ2 w2 :
  shrink σ w σ1 w1 -> shrink σ1 w1 σ2 w2 -> shrink σ w σ2 w2.
Proof.
  intros S1 S2. split.
  - intros a. destruct (s_kind _ _ _ _ S1 a) as [E1|E1], (s_kind _ _ _ _ S2 a) as [E2|E2];
      rewrite ?E2, ?E1; naive_solver congruence.
  - by rewrite (s_node _ _ _ _ S2), (s_node _ _ _ _ S1).
  - intros b Hb. rewrite (s_mem _ _ _ _ S2 b Hb). apply (s_mem _ _ _ _ S1).
    destruct (s_kind _ _ _ _ S2 (page_of b)) as [E|[_ E]]; [by rewrite <- E|].
    by rewrite E in Hb.
  - intros a Ha. rewrite (s_rc _ _ _ _ S2); [by apply (s_rc _ _ _ _ S1)|].
    destruct (s_kind _ _ _ _ S1 a) as [E|[E _]]; congruence.
Qed.

Lemma leaf_wf_flags x : leaf_wf x -> (PTE_FLAGS x =? PTE_V) = false.
Proof.
  intros (_ & _ & Hr). apply Z.eqb_neq. intros E.
  assert (Z.testbit (PTE_FLAGS x) 1 = true) as Hb by (by rewrite PTE_FLAGS_testbit).
  by rewrite E in Hb.
Qed.

Section Cow.
Context `{L : Layout}.

Lemma user_page σ w r va x :
  rep σ w -> user_ok σ w -> w_leaf w !! (r, va) = Some x -> va < TRAPFRAME ->
  page_ok (PTE2PA x) /\ leaf_wf x /\ w_kind w !! PTE2PA x = Some KUser /\
  refcnt σ (PTE2PA x) = urefs (w_leaf w) (PTE2PA x) /\ 1 <= refcnt σ (PTE2PA x).
Proof.
  intros R U Hx Hva. destruct (u_leaf _ _ U _ _ _ Hx Hva) as [Hwf Hk].
  destruct (u_rc _ _ U _ Hk). split; [by eapply (r_ok _ _ R)|done].
Qed.

(** Dropping one mapping, with its counter. *)
Lemma user_ok_delete σ w σ' w' r va x :
  user_ok σ w -> w_leaf w !! (r, va) = Some x -> va < TRAPFRAME ->
  w_leaf w' = delete (r, va) (w_leaf w) ->
  (forall a, w_kind w' !! a = Some KUser <->
     w_kind w !! a = Some KUser /\ ~ (a = PTE2PA x /\ urefs (w_leaf w) a = 1)) ->
  (forall a, w_kind w' !! a = Some KUser ->
     refcnt σ' a = refcnt σ a - if decide (PTE2PA x = a) then 1 else 0) ->
  user_ok σ' w'.
Proof.
  intros U Hx Hva El Hk Hrc.
  split; rewrite El.
  - intros r' va' y [Hne Hy]%lookup_delete_Some Hva'.
    destruct (u_leaf _ _ U _ _ _ Hy Hva') as [Hwfy Hky]. split; [done|].
    apply Hk. split; [done|]. intros [Epa H1]. apply Hne.
    by eapply (cnt_one (is_ref (PTE2PA y)) (w_leaf w) (r, va) x (r', va') y).
  - intros a Ha. rewrite (urefs_delete _ _ _ _ _ Hx), Hrc by done. apply Hk in Ha as [Ha Hlast].
    destruct (u_rc _ _ U a Ha) as [Hr Hp]. split; [lia|]. case_decide; [|lia].
    assert (urefs (w_leaf w) a <> 1) by naive_solver. lia.
  - intros r' v1 y1 v2 y2 [_ E1]%lookup_delete_Some [_ E2]%lookup_delete_Some.
    by eapply (u_once _ _ U).
  - intros r' va' y [_ Hy]%lookup_delete_Some. by apply (u_trap _ _ U r').
Qed.

(** [kfree] of the page of an entry, then clearing the entry. *)
Lemma unmap_page_wp σ w r va x t (Q : unit -> machine -> Prop) :
  rep σ w -> user_ok σ w -> w_leaf w !! (r, va) = Some x -> va < TRAPFRAME ->
  w_node w !! (r, [PX 2 va; PX 1 va]) = Some t ->
  (forall σ', rep σ' (w_unmap w r va) -> user_ok σ' (w_unmap w r va) ->
     shrink σ w σ' (w_unmap w r va) -> Q tt σ') ->
  wp (kfree (PTE2PA x);; st (pte_addr t (PX 0 va)) 0) σ Q.
Proof.
  intros R U Hx Hva Ht HQ.
  destruct (user_page σ w r va x R U Hx Hva) as (Hok & Hwf & Hk & Hrc & Hpos).
  destruct (leaf_node _ _ _ _ _ R Hx) as (Hvaok & _ & _).
  pose proof (w_unmap_leaf w r va) as El. unfold w_unmap in HQ, El. rewrite Hx in HQ, El.
  pose proof (rep_node_ok R _ _ _ Ht) as Htok. pose proof (rep_node_kind R _ _ _ Ht) as Htk.
  assert (forall b, meta (w_kind w !! page_of b) = false -> page_of b <> t) as Hbt.
  { intros b Hb E. by rewrite E, Htk in Hb. }
  wp_step. destruct (decide (urefs (w_leaf w) (PTE2PA x) = 1)) as [H1|H1].
  - apply (rep_kfree_last σ w (PTE2PA x) KUser); [done|done|done|lia|].
    intros σ1 R1 Hz Hrcs Hm. unfold st. wp_step.
    apply (HQ (store_entry t (PX 0 va) 0 σ1)).
    + by apply rep_setleaf.
    + eapply (user_ok_delete σ w); [done|done|done|done|..]; cbn; intros a;
        rewrite lookup_insert; case_decide as Hd; subst;
        [by split; [|intros []; naive_solver]|split; [|tauto]; intros ?; split; [done|]; naive_solver|done|].
      rewrite Z.sub_0_r. intros Ha.
      apply Hrcs; [by eapply (rep_kind_aligned R)|done].
    + split; cbn; [|done| |].
      * intros a. rewrite lookup_insert. case_decide; subst; [by right|by left].
      * intros b Hb. rewrite lookup_insert in Hb. case_decide as Hd; [done|].
        rewrite mget_store_entry; [by apply Hm|apply Htok|apply PX_range|by apply Hbt].
      * intros a Ha. rewrite refcnt_store_entry. apply Hrcs; [by eapply (rep_kind_aligned R)|].
        congruence.
  - apply (rep_kfree_more σ w (PTE2PA x) KUser); [done|done|done|lia|].
    intros σ1 R1 Hmem Hrc1 Hrcs. unfold st. wp_step.
    apply (HQ (store_entry t (PX 0 va) 0 σ1)).
    + by apply rep_setleaf.
    + eapply (user_ok_delete σ w); [done|done|done|done|..]; cbn; intros a; [naive_solver|].
      intros Ha. rewrite refcnt_store_entry. case_decide as Hd; [by subst|].
      rewrite Z.sub_0_r. apply Hrcs; [by eapply (rep_kind_aligned R)|done].
    + split; cbn; [by left|done| |].
      * intros b Hb. rewrite mget_store_entry; [by rewrite Hmem|apply Htok|apply PX_range|by apply Hbt].
      * intros a Ha. rewrite refcnt_store_entry. apply Hrcs; [by eapply (rep_kind_aligned R)|].
        congruence.
Qed.

(** The pages [va], ..., [va + (k-1)*PGSIZE] of table [r] are mapped. *)
Definition mapped (w : world) (r va : Z) (k : nat) : Prop :=
  forall j, (j < k)%nat -> is_Some (w_leaf w !! (r, va + Z.of_nat j * PGSIZE)).

Lemma uvmunmap_wp σ w r va k (Q : unit -> machine -> Prop) :
  rep σ w -> user_ok σ w -> aligned va -> 0 <= va -> va + Z.of_nat k * PGSIZE <= TRAPFRAME ->
  mapped w r va k ->
  (forall σ', rep σ' (w_unmaps w r va k) -> user_ok σ' (w_unmaps w r va k) ->
     shrink σ w σ' (w_unmaps w r va k) -> Q tt σ') ->
  wp (uvmunmap r va (Z.of_nat k) true) σ Q.
Proof.
  intros R U Hal Hva Hend Hm HQ. unfold uvmunmap. assert (TRAPFRAME = 2 ^ 38 - 8192) as ET by done.
  unfold aligned in Hal. rewrite Hal. cbn [negb Z.eqb].
  unfold u64. rewrite (Z.mod_small (va + _)) by (unfold PGSIZE in *; lia).
  apply (wp_loop _ (fun m a σ1 => exists i, (i + m = k)%nat /\ a = va + Z.of_nat i * PGSIZE /\
    rep σ1 (w_unmaps w r va i) /\ user_ok σ1 (w_unmaps w r va i) /\
    shrink σ w σ1 (w_unmaps w r va i)) _ _ k).
  - intros m a σ1 (i & Hi & -> & R1 & U1 & S1).
    wp_step; bool_to_prop.
    2:{ wp_step. assert (i = k) as -> by (unfold PGSIZE in *; lia). by apply HQ. }
    assert (i < k)%nat as Hik by (unfold PGSIZE in *; lia).
    destruct (Hm i Hik) as [x Hx]. destruct (leaf_node _ _ _ _ _ R Hx) as (Hvaok & Hr & t & Ht).
    assert (w_leaf (w_unmaps w r va i) !! (r, va + Z.of_nat i * PGSIZE) = Some x) as Hx1.
    { rewrite w_unmaps_ne; [done|]. intros j Hj [= E]. unfold PGSIZE in E. lia. }
    assert (va + Z.of_nat i * PGSIZE < TRAPFRAME) as Hlt by (unfold PGSIZE in *; lia).
    wp_step. apply (walk_read_wp σ1 (w_unmaps w r va i)); [done|by rewrite w_unmaps_node|apply Hvaok|].
    rewrite <- (w_unmaps_node w r va i) in Ht. unfold pte_ptr. rewrite Ht.
    erewrite pte_addr_nonzero by (done || apply PX_range). unfold ld. do 2 wp_step.
    rewrite (load_leaf σ1 (w_unmaps w r va i) r _ t) by done.
    rewrite Hx1. cbn [default from_option id].
    destruct (user_page _ _ _ _ _ R1 U1 Hx1 Hlt) as (_ & Hwf & _).
    rewrite flag_V, (proj1 (proj2 Hwf)), (leaf_wf_flags x Hwf). cbn [negb].
    apply wp_bind_assoc. wp_step.
    apply (unmap_page_wp σ1 (w_unmaps w r va i) r (va + Z.of_nat i * PGSIZE) x t); try done.
    intros σ2 R2 U2 S2. wp_step. exists (m - 1)%nat. split; [lia|]. exists (S i).
    split; [lia|]. rewrite Z.mod_small by (unfold PGSIZE in *; lia).
    split; [lia|]. split; [done|]. split; [done|]. by eapply shrink_trans.
  - exists 0%nat. split; [done|]. split; [lia|]. split; [done|]. split; [done|apply shrink_refl].
  - unfold page_fuel, PGSIZE in *. lia.
Qed.

(** ** Growth of one address space *)

(** The table [r] and its user memory took pages from the free list; page
    tables, kernel pages and the bytes of every page in use are unchanged. *)
Record ext (r : Z) (σ : machine) (w : world) (σ' : machine) (w' : world) : Prop := {
  x_free : forall a, a ∈ w_free w' -> a ∈ w_free w;
  x_kind : forall a, a ∉ w_free w -> w_kind w' !! a = w_kind w !! a;
  x_new : forall a, a ∈ w_free w -> a ∉ w_free w' ->
    w_kind w' !! a = Some KUser \/ exists p, w_kind w' !! a = Some (KNode r p);
  x_node : forall k v, w_node w !! k = Some v -> w_node w' !! k = Some v;
  x_other : forall r' p, r' <> r -> w_node w' !! (r', p) = w_node w !! (r', p);
  x_mem : forall b, meta (w_kind w !! page_of b) = false ->
    mget (m_mem σ') b = mget (m_mem σ) b;
  x_kern : forall a, w_kind w !! a = Some KKern -> refcnt σ' a = refcnt σ a
}.

Lemma kind_not_free σ w a k : rep σ w -> w_kind w !! a = Some k -> k <> KFree -> a ∉ w_free w.
Proof. intros R Hk Hne Ha%(rep_free_kind R). congruence. Qed.

Lemma grow_ext r σ w σ' w' : rep σ w -> grow r σ w σ' w' -> ext r σ w σ' w'.
Proof.
  intros R G. split; try apply G.
  - intros a. by apply (grow_sub r σ w σ').
  - intros a Ha Ha'. right. by apply (g_new _ _ _ _ _ G).
  - intros a Ha. apply (g_rc _ _ _ _ _ G); [by eapply (rep_kind_aligned R)|].
    by eapply kind_not_free.
Qed.

Lemma ext_refl r σ w : ext r σ w σ w.
Proof. by split. Qed.

Lemma ext_trans r σ w σ1 w1 σ2 w2 :
  rep σ w -> rep σ1 w1 -> ext r σ w σ1 w1 -> ext r σ1 w1 σ2 w2 -> ext r σ w σ2 w2.
Proof.
  intros R R1 X1 X2. pose proof (x_free _ _ _ _ _ X1) as F1.
  split.
  - intros a Ha%(x_free _ _ _ _ _ X2). auto.
  - intros a Ha. rewrite (x_kind _ _ _ _ _ X2), (x_kind _ _ _ _ _ X1) by auto. done.
  - intros a Ha Ha2. destruct (decide (a ∈ w_free w1)) as [Ha1|Ha1].
    + by apply (x_new _ _ _ _ _ X2).
    + rewrite (x_kind _ _ _ _ _ X2) by done. by apply (x_new _ _ _ _ _ X1).
  - intros k v Hk. by apply (x_node _ _ _ _ _ X2), (x_node _ _ _ _ _ X1).
  - intros r' p Hne. rewrite (x_other _ _ _ _ _ X2), (x_other _ _ _ _ _ X1) by done. done.
  - intros b Hb. pose proof (meta_not_free _ _ _ R Hb) as Hnf.
    rewrite (x_mem _ _ _ _ _ X2), (x_mem _ _ _ _ _ X1); [done|done|].
    by rewrite (x_kind _ _ _ _ _ X1).
  - intros a Ha. assert (a ∉ w_free w) by (by eapply kind_not_free).
    rewrite (x_kern _ _ _ _ _ X2), (x_kern _ _ _ _ _ X1); [done|done|].
    by rewrite (x_kind _ _ _ _ _ X1).
Qed.

(** Writing a leaf entry of any table. *)
Lemma ext_setleaf r0 σ w r va t v :
  rep σ w -> va_ok va -> w_node w !! (r, [PX 2 va; PX 1 va]) = Some t ->
  ext r0 σ w (store_entry t (PX 0 va) v σ) (w_setleaf w r va v).
Proof.
  intros R Hva Ht. split; cbn; try done.
  intros b Hb. rewrite mget_store_entry; [done|by eapply (rep_node_ok R)|apply PX_range|].
  intros E. by rewrite E, (rep_node_kind R _ _ _ Ht) in Hb.
Qed.

(** ** Changing the flags of an entry *)

Lemma leaf_wf_nonzero y : leaf_wf y -> y <> 0.
Proof. intros (_ & H & _) ->. by rewrite Z.bits_0 in H. Qed.

Lemma set_leaf_insert lf r va y : leaf_wf y -> set_leaf lf r va y = <[(r, va) := y]> lf.
Proof. intros H%leaf_wf_nonzero. unfold set_leaf. by rewrite decide_False. Qed.

Lemma user_ok_setflags σ w r va x y t :
  user_ok σ w -> w_leaf w !! (r, va) = Some x -> va < TRAPFRAME ->
  leaf_wf y -> PTE2PA y = PTE2PA x ->
  user_ok (store_entry t (PX 0 va) y σ) (w_setleaf w r va y).
Proof.
  intros U Hx Hva Hy E. split; cbn; rewrite set_leaf_insert by done.
  - intros r' va' z [[[= <- <-] <-]|[_ Hz]]%lookup_insert_Some Hlt.
    + rewrite E. split; [done|]. by apply (u_leaf _ _ U r va).
    + by apply (u_leaf _ _ U r' va').
  - intros a Ha. rewrite (urefs_insert _ _ _ _ _ _ Hx E). by apply (u_rc _ _ U).
  - intros r' v1 z1 v2 z2 H1%lookup_insert_Some H2%lookup_insert_Some.
    destruct H1 as [[E1 <-]|[_ E1]], H2 as [[E2 <-]|[_ E2]]; simplify_eq; rewrite ?E; [done|..];
      by eapply (u_once _ _ U).
  - intros r' va' z [[[= <- <-] <-]|[_ Hz]]%lookup_insert_Some; [lia|]. by apply (u_trap _ _ U r').
Qed.

Lemma w_setleaf_twice w r va y1 y2 :
  leaf_wf y1 -> leaf_wf y2 -> w_setleaf (w_setleaf w r va y1) r va y2 = w_setleaf w r va y2.
Proof.
  intros H1 H2. unfold w_setleaf; cbn. rewrite !set_leaf_insert by done. by rewrite insert_insert_eq.
Qed.

(** Two stores to the flags of an entry, one after the other. *)
Lemma setflags_twice σ w r va x y1 y2 t :
  rep σ w -> user_ok σ w -> w_leaf w !! (r, va) = Some x -> va < TRAPFRAME ->
  w_node w !! (r, [PX 2 va; PX 1 va]) = Some t ->
  leaf_wf y1 -> PTE2PA y1 = PTE2PA x -> leaf_wf y2 -> PTE2PA y2 = PTE2PA x ->
  let σ' := store_entry t (PX 0 va) y2 (store_entry t (PX 0 va) y1 σ) in
  rep σ' (w_setleaf w r va y2) /\ user_ok σ' (w_setleaf w r va y2) /\
  forall r0, ext r0 σ w σ' (w_setleaf w r va y2).
Proof.
  intros R U Hx Hva Ht Hy1 E1 Hy2 E2 σ'. destruct (leaf_node _ _ _ _ _ R Hx) as (Hvaok & _).
  assert (0 <= y1 < 2 ^ 64 /\ 0 <= y2 < 2 ^ 64) as [Hr1 Hr2]
    by (destruct Hy1 as [? _], Hy2 as [? _]; lia).
  pose proof (rep_setleaf σ w r va t _ R Hvaok Ht Hr1) as R1.
  pose proof (user_ok_setflags σ w r va x _ t U Hx Hva Hy1 E1) as U1.
  rewrite <- (w_setleaf_twice w r va y1 y2) by done. split; [|split].
  - by apply rep_setleaf.
  - apply (user_ok_setflags _ _ r va y1); [done| |done|done|congruence].
    cbn. rewrite set_leaf_insert by done. by rewrite lookup_insert_eq.
  - intros r0. eapply ext_trans; [done|exact R1|by apply ext_setleaf|]. by apply ext_setleaf.
Qed.
End Cow.
