(* ===== verification/Fork.v ===== *)
(** * [uvmcopy]: the address space of a forked process

    [uvmcopy] (kernel/vm.c) gives the child the parent's pages, write-protected
    and marked copy-on-write in both tables, and counts the new references.
    When a page-table page cannot be allocated it takes the child's mappings
    back.  The specification covers both outcomes. *)

From S2P Require Import Prelude Riscv Mem Kalloc Vm VmRep VmSpec Cow.

(** The entry that both tables have after [fork]. *)
Definition cowify (x : Z) : Z :=
  if Z.testbit x 2 then Z.lor (clear x PTE_W) PTE_RSW_COW else x.

(** The leaf entries after [k] iterations of the loop of [uvmcopy]. *)
Fixpoint copy_leaf (lf : gmap (Z * Z) Z) (old new : Z) (k : nat) : gmap (Z * Z) Z :=
  match k with
  | O => lf
  | S k =>
      let va := Z.of_nat k * PGSIZE in
      match lf !! (old, va) with
      | Some x => <[(new, va) := cowify x]> (<[(old, va) := cowify x]> (copy_leaf lf old new k))
      | None => copy_leaf lf old new k
      end
  end.

(** The parent's entries alone. *)
Fixpoint mark_leaf (lf : gmap (Z * Z) Z) (old : Z) (k : nat) : gmap (Z * Z) Z :=
  match k with
  | O => lf
  | S k =>
      let va := Z.of_nat k * PGSIZE in
      match lf !! (old, va) with
      | Some x => <[(old, va) := cowify x]> (mark_leaf lf old k)
      | None => mark_leaf lf old k
      end
  end.

Lemma clear_W_bit x k : 0 <= x < 2 ^ 64 -> 0 <= k -> k <> 2 ->
  Z.testbit (clear x PTE_W) k = Z.testbit x k.
Proof.
  intros Hx Hk Hne. rewrite clear_spec by done. change PTE_W with (2 ^ 2).
  by rewrite Z.pow2_bits_false, andb_true_r by lia.
Qed.

Lemma cowify_bit x k : 0 <= x < 2 ^ 64 -> 0 <= k -> k <> 2 -> k <> 8 ->
  Z.testbit (cowify x) k = Z.testbit x k.
Proof.
  intros Hx Hk H2 H8. unfold cowify. destruct (Z.testbit x 2); [|done].
  rewrite Z.lor_spec, clear_W_bit by done. change PTE_RSW_COW with (2 ^ 8).
  by rewrite Z.pow2_bits_false, orb_false_r by lia.
Qed.

Lemma cowify_W x : 0 <= x < 2 ^ 64 -> Z.testbit (cowify x) 2 = false.
Proof.
  intros Hx. unfold cowify. destruct (Z.testbit x 2) eqn:E; [|done].
  by rewrite Z.lor_spec, clear_spec, andb_false_r by lia.
Qed.

Lemma cowify_COW x : 0 <= x < 2 ^ 64 -> Z.testbit (cowify x) 8 = Z.testbit x 8 || Z.testbit x 2.
Proof.
  intros Hx. unfold cowify. destruct (Z.testbit x 2); [|by rewrite orb_false_r].
  by rewrite Z.lor_spec, !orb_true_r.
Qed.

Lemma clear_wf x : leaf_wf x -> leaf_wf (clear x PTE_W).
Proof.
  intros (Hr & H0 & H1). pose proof (clear_range x PTE_W) as Hc.
  split; [lia|]. by rewrite !clear_W_bit by lia.
Qed.

Lemma lor_COW_wf x : leaf_wf x -> leaf_wf (Z.lor x PTE_RSW_COW).
Proof.
  intros (Hr & H0 & H1). split; [|rewrite !Z.lor_spec, H0, H1; done].
  apply lor_range; [lia|done|]. change PTE_RSW_COW with 256. lia.
Qed.

Lemma cowify_wf x : leaf_wf x -> leaf_wf (cowify x).
Proof.
  intros Hx. unfold cowify. destruct (Z.testbit x 2); [|done]. by apply lor_COW_wf, clear_wf.
Qed.

Lemma cowify_pa x : 0 <= x < 2 ^ 64 -> PTE2PA (cowify x) = PTE2PA x.
Proof.
  intros Hx. unfold cowify. destruct (Z.testbit x 2); [|done].
  rewrite PTE2PA_lor by (change PTE_RSW_COW with 256; lia).
  apply PTE2PA_clear; [done|]. change PTE_W with 4. lia.
Qed.

Lemma leaf_wf_64 x : leaf_wf x -> 0 <= x < 2 ^ 64.
Proof. intros [? _]. lia. Qed.

#[export] Hint Resolve clear_wf lor_COW_wf cowify_wf leaf_wf_64 : xv6.

Lemma page_mul_inj (j k : nat) : Z.of_nat j * PGSIZE = Z.of_nat k * PGSIZE -> j = k.
Proof. unfold PGSIZE. lia. Qed.

Section Lookup.
Context (lf : gmap (Z * Z) Z) (old new : Z) (Hne : old <> new).

Lemma copy_leaf_ne r va k :
  (forall j, (j < k)%nat -> va <> Z.of_nat j * PGSIZE) \/ (r <> old /\ r <> new) ->
  copy_leaf lf old new k !! (r, va) = lf !! (r, va).
Proof using.
  induction k as [|k IH]; intros Hr; [done|]. cbn.
  assert (copy_leaf lf old new k !! (r, va) = lf !! (r, va)) as E
    by (apply IH; destruct Hr as [Hr|]; [left; intros j Hj; apply Hr; lia|by right]).
  destruct (lf !! (old, Z.of_nat k * PGSIZE)); [|done].
  rewrite !lookup_insert_ne; [done|..]; intros [= <- <-];
    (destruct Hr as [Hr|[]]; [by apply (Hr k); [lia|]|done]).
Qed.

Lemma copy_leaf_old j k :
  (j < k)%nat ->
  copy_leaf lf old new k !! (old, Z.of_nat j * PGSIZE) = cowify <$> lf !! (old, Z.of_nat j * PGSIZE).
Proof.
  induction k as [|k IH]; intros Hj; [lia|]. cbn. destruct (decide (j = k)) as [->|Hn].
  - destruct (lf !! _) eqn:E.
    + rewrite lookup_insert_ne by naive_solver. by rewrite lookup_insert_eq.
    + rewrite copy_leaf_ne; [by rewrite E|]. left. intros i Hi E'%page_mul_inj. lia.
  - destruct (lf !! (old, Z.of_nat k * PGSIZE)); [|apply IH; lia].
    rewrite !lookup_insert_ne; [apply IH; lia|..]; intros [= E]; [apply Hn|done].
    by apply page_mul_inj.
Qed.

Lemma copy_leaf_new j k :
  (j < k)%nat -> is_Some (lf !! (old, Z.of_nat j * PGSIZE)) ->
  copy_leaf lf old new k !! (new, Z.of_nat j * PGSIZE) = cowify <$> lf !! (old, Z.of_nat j * PGSIZE).
Proof.
  intros Hj [x Hx]. induction k as [|k IH]; [lia|]. cbn. destruct (decide (j = k)) as [->|Hn].
  - rewrite Hx. by rewrite lookup_insert_eq.
  - destruct (lf !! (old, Z.of_nat k * PGSIZE)); [|apply IH; lia].
    rewrite !lookup_insert_ne; [apply IH; lia|..]; intros [= E]; [by subst|apply Hn].
    by apply page_mul_inj.
Qed.

Lemma mark_leaf_ne r va k :
  (forall j, (j < k)%nat -> va <> Z.of_nat j * PGSIZE) \/ r <> old ->
  mark_leaf lf old k !! (r, va) = lf !! (r, va).
Proof using.
  induction k as [|k IH]; intros Hr; [done|]. cbn.
  assert (mark_leaf lf old k !! (r, va) = lf !! (r, va)) as E
    by (apply IH; destruct Hr as [Hr|]; [left; intros j Hj; apply Hr; lia|by right]).
  destruct (lf !! (old, Z.of_nat k * PGSIZE)); [|done].
  rewrite lookup_insert_ne; [done|]. intros [= <- <-].
  destruct Hr as [Hr|Hr]; [by apply (Hr k); [lia|]|done].
Qed.

Lemma mark_leaf_old j k :
  (j < k)%nat ->
  mark_leaf lf old k !! (old, Z.of_nat j * PGSIZE) = cowify <$> lf !! (old, Z.of_nat j * PGSIZE).
Proof using.
  induction k as [|k IH]; intros Hj; [lia|]. cbn. destruct (decide (j = k)) as [->|Hn].
  - destruct (lf !! _) eqn:E; [by rewrite lookup_insert_eq|].
    rewrite mark_leaf_ne; [by rewrite E|]. left. intros i Hi E'%page_mul_inj. lia.
  - destruct (lf !! (old, Z.of_nat k * PGSIZE)); [|apply IH; lia].
    rewrite lookup_insert_ne; [apply IH; lia|]. intros [= E]. apply Hn. by apply page_mul_inj.
Qed.
End Lookup.

(** Each page of the parent has one mapping more. *)
Lemma copy_urefs lf old new j x k : old <> new ->
  (forall i, (i < k)%nat -> exists y, lf !! (old, Z.of_nat i * PGSIZE) = Some y /\ 0 <= y < 2 ^ 64 /\ (PTE2PA y = PTE2PA x -> i = j)) ->
  (forall i, (i < k)%nat -> Z.of_nat i * PGSIZE < TRAPFRAME /\ lf !! (new, Z.of_nat i * PGSIZE) = None) ->
  lf !! (old, Z.of_nat j * PGSIZE) = Some x ->
  urefs (copy_leaf lf old new k) (PTE2PA x) = urefs lf (PTE2PA x) + if decide (j < k)%nat then 1 else 0.
Proof.
  intros Hne Hold Hnew Hx. induction k as [|k IH]; [rewrite decide_False by lia; cbn; lia|].
  destruct (Hold k ltac:(lia)) as (y & Hy & Hr & Hj), (Hnew k ltac:(lia)) as [Hlt Hn]. cbn. rewrite Hy.
  assert (forall r, copy_leaf lf old new k !! (r, Z.of_nat k * PGSIZE) = lf !! (r, Z.of_nat k * PGSIZE)) as Hk.
  { intros r. apply copy_leaf_ne. left. intros i Hi E%page_mul_inj. lia. }
  rewrite urefs_insert_new by (by rewrite ?lookup_insert_ne, ?Hk by naive_solver).
  rewrite (urefs_insert _ _ _ y) by (by rewrite ?Hk, ?cowify_pa).
  rewrite IH, cowify_pa by (done || intros; (apply Hold || apply Hnew); lia).
  repeat case_decide; try lia. assert (j = k) as -> by lia. congruence.
Qed.

(** The same entries in the parent, whether the copy went on or was undone. *)
Lemma mark_copy_old lf old new k va :
  old <> new -> copy_leaf lf old new k !! (old, va) = mark_leaf lf old k !! (old, va).
Proof.
  intros Hne. induction k as [|k IH]; [done|]. cbn.
  destruct (lf !! (old, Z.of_nat k * PGSIZE)); [|done].
  rewrite lookup_insert_ne by naive_solver. rewrite !lookup_insert. by case_decide.
Qed.

Section Fork.
Context `{L : Layout}.

Lemma grow_user r σ w σ' w' a :
  rep σ' w' -> grow r σ w σ' w' -> w_kind w' !! a = Some KUser -> w_kind w !! a = Some KUser.
Proof.
  intros R' G Ha. destruct (decide (a ∈ w_free w)) as [Hf|Hf].
  - destruct (decide (a ∈ w_free w')) as [Hf'%(rep_free_kind R')|Hf']; [congruence|].
    destruct (g_new _ _ _ _ _ G a Hf Hf'). congruence.
  - by rewrite (g_kind _ _ _ _ _ G) in Ha.
Qed.

(** New page-table pages do not matter to the invariant. *)
Lemma user_ok_grow r σ w σ' w' w'' :
  rep σ w -> rep σ' w' -> user_ok σ w -> grow r σ w σ' w' ->
  w_kind w'' = w_kind w' -> w_leaf w'' = w_leaf w -> user_ok σ' w''.
Proof.
  intros R R' U G Ek El. split; rewrite El, ?Ek.
  - intros r' va x Hx Hva. destruct (u_leaf _ _ U _ _ _ Hx Hva) as [Hwf Hk]. split; [done|].
    rewrite (g_kind _ _ _ _ _ G); [done|]. by eapply kind_not_free.
  - intros a Ha%(grow_user r σ w σ'); [|done|done].
    rewrite (g_rc _ _ _ _ _ G); [by apply (u_rc _ _ U)|by eapply (rep_kind_aligned R)|].
    by eapply kind_not_free.
  - apply (u_once _ _ U).
  - apply (u_trap _ _ U).
Qed.

(** A new mapping of a page that is already in use, with its reference. *)
Lemma user_ok_share σ w σ' w' r va y :
  user_ok σ w -> w_kind w' = w_kind w -> w_leaf w' = <[(r, va) := y]> (w_leaf w) ->
  w_leaf w !! (r, va) = None -> va < TRAPFRAME -> leaf_wf y ->
  w_kind w !! PTE2PA y = Some KUser ->
  (forall a, w_kind w !! a = Some KUser ->
     refcnt σ' a = refcnt σ a + if decide (PTE2PA y = a) then 1 else 0) ->
  (forall va' x, w_leaf w !! (r, va') = Some x -> va' < TRAPFRAME -> PTE2PA x <> PTE2PA y) ->
  user_ok σ' w'.
Proof.
  intros U Ek El Hnone Hva Hy Hk Hrc Honce. split; rewrite El, ?Ek.
  - intros r' va' x [[_ <-]|[_ Hx]]%lookup_insert_Some Hlt; [done|].
    by apply (u_leaf _ _ U r' va').
  - intros a Ha. rewrite Hrc by done. destruct (u_rc _ _ U a Ha) as [Hr Hp].
    split; [|case_decide; lia]. rewrite urefs_insert_new by done. by rewrite Hr.
  - intros r' v1 z1 v2 z2 H1%lookup_insert_Some H2%lookup_insert_Some Hl1 Hl2 Hpa.
    destruct H1 as [[E1 <-]|[_ E1]], H2 as [[E2 <-]|[_ E2]]; simplify_eq; [done|..].
    + by destruct (Honce v2 z2).
    + by destruct (Honce v1 z1).
    + by eapply (u_once _ _ U).
  - intros r' va' z [[[= <- <-] <-]|[_ Hz]]%lookup_insert_Some; [lia|]. by apply (u_trap _ _ U r').
Qed.

(** At most one page table per process, so the 8-bit counters do not wrap. *)
Definition few_tables (w : world) : Prop :=
  exists T : list Z, (length T <= 255)%nat /\
    forall r, is_Some (w_node w !! (r, [])) -> r ∈ T.

Lemma urefs_few σ w r a :
  rep σ w -> user_ok σ w -> few_tables w -> w_node w !! (r, []) = Some r ->
  (forall va x, w_leaf w !! (r, va) = Some x -> va < TRAPFRAME -> PTE2PA x <> a) ->
  urefs (w_leaf w) a <= 254.
Proof.
  intros R U (T & HT & Hin) Hr Hno.
  assert (r ∈ T) as HrT by (apply Hin; by eexists).
  apply list_elem_of_split in HrT as (T1 & T2 & ->).
  transitivity (Z.of_nat (length (T1 ++ T2))).
  2:{ rewrite length_app in *. cbn in HT. lia. }
  unfold urefs. apply (cnt_bound (is_ref a) fst).
  - intros [r' va] x Hx [Hlt Hpa]. cbn in *.
    destruct (leaf_node _ _ _ _ _ R Hx) as (_ & Hroot & _).
    assert (r' <> r) by (intros ->; by eapply Hno).
    assert (r' ∈ T1 ++ r :: T2) as Hr' by (apply Hin; by eexists). set_solver.
  - intros [r1 v1] x1 [r2 v2] x2 Hx1 [Hl1 Hp1] Hx2 [Hl2 Hp2] E. cbn in *. subst r2. f_equal.
    eapply (u_once _ _ U); [done|done|done|done|congruence].
Qed.

(** ** The write protection of the parent's entry *)

Lemma mark_wp σ w r va x t (Q : unit -> machine -> Prop) :
  rep σ w -> user_ok σ w -> w_leaf w !! (r, va) = Some x -> va < TRAPFRAME ->
  w_node w !! (r, [PX 2 va; PX 1 va]) = Some t ->
  (forall σ', rep σ' (w_setleaf w r va (cowify x)) -> user_ok σ' (w_setleaf w r va (cowify x)) ->
     (forall r0, ext r0 σ w σ' (w_setleaf w r va (cowify x))) ->
     m_refer σ' = m_refer σ -> Q tt σ') ->
  wp (if flag x PTE_W
      then st (pte_addr t (PX 0 va)) (clear x PTE_W);;
           w ← ld (pte_addr t (PX 0 va)); st (pte_addr t (PX 0 va)) (Z.lor w PTE_RSW_COW)
      else mret tt) σ Q.
Proof.
  intros R U Hx Hva Ht HQ. destruct (user_page _ _ _ _ _ R U Hx Hva) as (Hok & Hwf & _).
  destruct (leaf_node _ _ _ _ _ R Hx) as (Hvaok & _).
  pose proof (leaf_wf_64 x Hwf) as Hx64. rewrite flag_W.
  unfold cowify in HQ. destruct (Z.testbit x 2) eqn:EW.
  - assert (leaf_wf (clear x PTE_W)) as Hwf1 by auto with xv6.
    assert (PTE2PA (clear x PTE_W) = PTE2PA x) as Hp1
      by (apply PTE2PA_clear; [done|change PTE_W with 4; lia]).
    assert (leaf_wf (Z.lor (clear x PTE_W) PTE_RSW_COW)) as Hwf2 by auto with xv6.
    unfold st, ld. do 4 wp_step.
    change (set_mem (fun m => store64 m (pte_addr t (PX 0 va)) (clear x PTE_W)) σ)
      with (store_entry t (PX 0 va) (clear x PTE_W) σ).
    rewrite load_store_entry_eq by auto with xv6. wp_step.
    destruct (setflags_twice σ w r va x (clear x PTE_W) (Z.lor (clear x PTE_W) PTE_RSW_COW) t)
      as (R2 & U2 & X2); try done.
    { rewrite PTE2PA_lor; [done|]. change PTE_RSW_COW with 256. lia. }
    by apply (HQ _ R2 U2 X2).
  - assert (w_setleaf w r va x = w) as Ew.
    { unfold w_setleaf. rewrite set_leaf_insert by done. rewrite insert_id by done. by destruct w. }
    rewrite Ew in HQ. wp_step. apply HQ; [done|done| |done]. intros r0. apply ext_refl.
Qed.

(** ** The failure path: undoing the child's mappings *)

Lemma unmaps_shared w old new k :
  old <> new -> Z.of_nat k * PGSIZE <= TRAPFRAME ->
  (forall j, (j < k)%nat -> exists x y,
     w_leaf w !! (old, Z.of_nat j * PGSIZE) = Some x /\
     w_leaf w !! (new, 0 + Z.of_nat j * PGSIZE) = Some y /\ PTE2PA x = PTE2PA y) ->
  w_kind (w_unmaps w new 0 k) = w_kind w /\ w_free (w_unmaps w new 0 k) = w_free w.
Proof.
  intros Hne. induction k as [|k IH]; intros Hk Hsh; [done|]. cbn [w_unmaps].
  destruct IH as [IHk IHf]; [unfold PGSIZE in *; lia|intros j Hj; apply Hsh; lia|].
  destruct (Hsh k) as (x & y & Hx & Hy & E); [lia|].
  assert (Z.of_nat k * PGSIZE < TRAPFRAME) as Hlt by (unfold PGSIZE in *; lia).
  unfold w_unmap. destruct (w_leaf (w_unmaps w new 0 k) !! (new, 0 + Z.of_nat k * PGSIZE))
    as [y'|] eqn:Hy'; [|done].
  rewrite w_unmaps_ne in Hy'
    by (intros j Hj [= E']; assert (j = k) by (apply page_mul_inj; lia); lia).
  assert (y' = y) as -> by congruence.
  rewrite decide_False; [done|]. intros H1.
  assert (2 <= urefs (w_leaf (w_unmaps w new 0 k)) (PTE2PA y)); [|lia].
  apply (cnt_two (is_ref (PTE2PA y)) _ (old, Z.of_nat k * PGSIZE) x (new, 0 + Z.of_nat k * PGSIZE) y).
  - by rewrite w_unmaps_ne by naive_solver.
  - done.
  - rewrite w_unmaps_ne; [done|]. intros j Hj [= E']. assert (j = k) by (apply page_mul_inj; lia). lia.
  - split; [cbn; lia|done].
  - naive_solver.
Qed.

Lemma cow_ok_share w w' old new va x y :
  cow_ok w -> w_leaf w !! (old, va) = Some x -> w_leaf w !! (new, va) = None ->
  old <> new -> va < TRAPFRAME -> PTE2PA y = PTE2PA x -> Z.testbit y 2 = false ->
  w_leaf w' = <[(new, va) := y]> (<[(old, va) := y]> (w_leaf w)) ->
  cow_ok w'.
Proof.
  intros C Hx Hn Hne Hva E HW El r va' z. rewrite El.
  intros [[_ <-]|[Hk1 [[_ <-]|[Hk2 Hz]]%lookup_insert_Some]]%lookup_insert_Some Hlt HWz;
    [congruence..|].
  specialize (C _ _ _ Hz Hlt HWz).
  rewrite urefs_insert_new by (done || rewrite lookup_insert_ne by naive_solver; done).
  rewrite (urefs_insert _ _ _ _ _ (PTE2PA z) Hx E), C.
  rewrite decide_False; [done|]. intros Hp. apply Hk2. rewrite E in Hp.
  by apply (cnt_one (is_ref (PTE2PA z)) (w_leaf w) (old, va) x (r, va') z).
Qed.

Lemma cow_ok_mark w w' r va x y :
  cow_ok w -> w_leaf w !! (r, va) = Some x -> PTE2PA y = PTE2PA x -> Z.testbit y 2 = false ->
  w_leaf w' = <[(r, va) := y]> (w_leaf w) -> cow_ok w'.
Proof.
  intros C Hx E HW El r' va' z. rewrite El.
  intros [[_ <-]|[Hk1 Hz]]%lookup_insert_Some Hlt HWz; [congruence|].
  rewrite (urefs_insert _ _ _ _ _ _ Hx E). by eapply C.
Qed.

(** Fewer mappings keep the discipline, as long as entries stay as they are. *)
Lemma cow_ok_delete w w' r va :
  cow_ok w -> w_leaf w' = delete (r, va) (w_leaf w) -> cow_ok w'.
Proof.
  intros C El r' va' z. rewrite El. intros [Hne Hz]%lookup_delete_Some Hlt HW.
  pose proof (C _ _ _ Hz Hlt HW) as H1.
  assert (1 <= urefs (delete (r, va) (w_leaf w)) (PTE2PA z)) as Hpos.
  { eapply (cnt_pos _ _ (r', va') z); [|done]. by rewrite lookup_delete_ne. }
  destruct (w_leaf w !! (r, va)) as [x|] eqn:Hx.
  - unfold urefs in *. rewrite (cnt_delete _ _ _ _ Hx) in *. case_decide; lia.
  - by rewrite delete_id by done.
Qed.

Lemma cow_ok_unmaps w r va k : cow_ok w -> cow_ok (w_unmaps w r va k).
Proof.
  intros C. induction k as [|k IH]; [done|]. eapply cow_ok_delete; [done|]. apply w_unmap_leaf.
Qed.

Lemma ext_few r σ w σ' w' :
  ext r σ w σ' w' -> w_node w !! (r, []) = Some r -> few_tables w -> few_tables w'.
Proof.
  intros X Hr (T & HT & Hin). exists T. split; [done|]. intros r' Hr'.
  destruct (decide (r' = r)) as [->|Hne]; apply Hin; [by eexists|].
  by rewrite <- (x_other _ _ _ _ _ X) by done.
Qed.

(** ** The loop *)

Section Copy.
Context (σ : machine) (w : world) (old new sz : Z).
Context (R : rep σ w) (U : user_ok σ w) (F : few_tables w).
Context (Hold : w_node w !! (old, []) = Some old) (Hnew : w_node w !! (new, []) = Some new).
Context (Hne : old <> new) (Hsz : 0 <= sz <= TRAPFRAME).
Context (Hempty : forall va, va < TRAPFRAME -> w_leaf w !! (new, va) = None).

(** Pages of [sz] bytes. *)
Definition copy_pages : nat := Z.to_nat ((sz + PGSIZE - 1) / PGSIZE).

Context (Hmap : mapped w old 0 copy_pages).

(** After [k] pages. *)
Record copied (k : nat) (σ1 : machine) (w1 : world) : Prop := {
  c_rep : rep σ1 w1;
  c_user : user_ok σ1 w1;
  c_ext : ext new σ w σ1 w1;
  c_leaf : w_leaf w1 = copy_leaf (w_leaf w) old new k;
  c_cow : cow_ok w -> cow_ok w1
}.

Lemma copy_pages_spec k : (k <= copy_pages)%nat ->
  Z.of_nat k * PGSIZE <= TRAPFRAME /\ ((k < copy_pages)%nat <-> Z.of_nat k * PGSIZE < sz).
Proof using Hsz.
  clear -Hsz. unfold copy_pages. assert (TRAPFRAME = 2 ^ 38 - 8192) as ET by done. rewrite ET in *.
  unfold PGSIZE. intros Hk. dlia.
Qed.

Lemma copied_old k σ1 w1 x :
  copied k σ1 w1 -> w_leaf w !! (old, Z.of_nat k * PGSIZE) = Some x ->
  w_leaf w1 !! (old, Z.of_nat k * PGSIZE) = Some x.
Proof using.
  intros C Hx. rewrite (c_leaf _ _ _ C), copy_leaf_ne; [done|].
  left. intros j Hj E%page_mul_inj. lia.
Qed.

Lemma copied_new k σ1 w1 :
  copied k σ1 w1 -> Z.of_nat k * PGSIZE < TRAPFRAME ->
  w_leaf w1 !! (new, Z.of_nat k * PGSIZE) = None.
Proof using Hempty.
  intros C Hlt. rewrite (c_leaf _ _ _ C), copy_leaf_ne; [by apply Hempty|].
  left. intros j Hj E%page_mul_inj. lia.
Qed.

(** In the child, only the pages copied so far, at the parent's addresses. *)
Lemma copied_child k σ1 w1 va y :
  copied k σ1 w1 -> w_leaf w1 !! (new, va) = Some y -> va < TRAPFRAME ->
  exists j x, (j < k)%nat /\ va = Z.of_nat j * PGSIZE /\
    w_leaf w !! (old, va) = Some x /\ y = cowify x.
Proof using Hempty Hne.
  intros C Hy Hlt. rewrite (c_leaf _ _ _ C) in Hy.
  destruct (decide (Exists (fun j => va = Z.of_nat j * PGSIZE) (seq 0 k))) as [Hj|Hj].
  - apply Exists_exists in Hj as (j & [_ Hj]%elem_of_seq & ->). exists j.
    destruct (w_leaf w !! (old, Z.of_nat j * PGSIZE)) as [x|] eqn:Hx.
    + rewrite copy_leaf_new in Hy; [|done|done|by eexists]. rewrite Hx in Hy.
      injection Hy as <-. by exists x.
    + exfalso. revert Hy. clear C. induction k as [|k IH]; [lia|]. cbn.
      destruct (decide (j = k)) as [->|Hn].
      * rewrite Hx, copy_leaf_ne; [by rewrite Hempty|]. left. intros i Hi E%page_mul_inj. lia.
      * destruct (w_leaf w !! (old, Z.of_nat k * PGSIZE)); [|apply IH; lia].
        rewrite !lookup_insert_ne; [apply IH; lia|..]; intros [= E]; [done|].
        apply Hn. by apply page_mul_inj.
  - rewrite copy_leaf_ne, Hempty in Hy; [done|done|]. left. intros j Hjk ->.
    apply Hj, Exists_exists. exists j. split; [|done]. apply elem_of_seq. lia.
Qed.

Definition copy_post (v : Z) (σ' : machine) : Prop :=
  exists w', rep σ' w' /\ user_ok σ' w' /\ ext new σ w σ' w' /\ (cow_ok w -> cow_ok w') /\
    ((v = 0 /\ w_leaf w' = copy_leaf (w_leaf w) old new copy_pages) \/
     (v = -1 /\ w_free w' = [] /\
      exists k, (k <= copy_pages)%nat /\ w_leaf w' = mark_leaf (w_leaf w) old k)).

(** The child got a mapping of page [k], and its reference was counted. *)
Lemma copied_step k σ1 w1 x σ2 σ3 w3 σ4 :
  let va := Z.of_nat k * PGSIZE in let y := cowify x in
  copied k σ1 w1 -> va < TRAPFRAME -> w_leaf w !! (old, va) = Some x ->
  leaf_wf x -> rep σ2 (w_setleaf w1 old va y) -> user_ok σ2 (w_setleaf w1 old va y) ->
  ext new σ1 w1 σ2 (w_setleaf w1 old va y) ->
  rep σ3 w3 -> grow new σ2 (w_setleaf w1 old va y) σ3 w3 ->
  w_leaf w3 = <[(new, va) := y]> (w_leaf (w_setleaf w1 old va y)) ->
  m_mem σ4 = m_mem σ3 -> m_freelist σ4 = m_freelist σ3 ->
  refcnt σ4 (PTE2PA x) = refcnt σ3 (PTE2PA x) + 1 ->
  (forall b, aligned b -> b <> PTE2PA x -> refcnt σ4 b = refcnt σ3 b) ->
  copied (S k) σ4 w3.
Proof using Hempty Hne Hsz R U.
  intros va y C Hlt Hx Hwf R2 U2 X2 R3 G3 El Hm Hfl Hrc Hrcs.
  pose proof (copied_old _ _ _ _ C Hx) as Hx1. pose proof (copied_new _ _ _ C Hlt) as Hn1.
  assert (PTE2PA y = PTE2PA x) as Epa by (apply cowify_pa; auto with xv6).
  assert (leaf_wf y) as Hy by (by apply cowify_wf).
  assert (w_leaf (w_setleaf w1 old va y) = <[(old, va) := y]> (w_leaf w1)) as El2
    by (cbn; by apply set_leaf_insert).
  destruct (u_leaf _ _ (c_user _ _ _ C) _ _ _ Hx1 Hlt) as [_ Hku].
  assert (w_kind w3 !! PTE2PA x = Some KUser) as Hk3x.
  { rewrite (g_kind _ _ _ _ _ G3); [done|]. by eapply (kind_not_free σ1 w1 _ KUser (c_rep _ _ _ C)). }
  pose proof (r_ok _ _ R3 _ _ Hk3x) as Hok.
  assert (rep σ4 w3) as R4.
  { eapply rep_frame; [done|done|by rewrite Hm|]. intros a Ha. apply Hrcs.
    - destruct (w_kind w3 !! a) eqn:E; [|done]. by eapply (rep_kind_aligned R3).
    - intros ->. by rewrite Hk3x in Ha. }
  split; [done|..].
  - set (w2' := World (w_free w3) (w_kind w3) (w_node w3) (w_leaf (w_setleaf w1 old va y))).
    assert (user_ok σ3 w2') as U3 by (by eapply (user_ok_grow new _ _ σ3 w3 w2' R2 R3 U2)).
    eapply (user_ok_share _ _ σ4 w3 new va y U3); [done|exact El|..|].
    + cbn [w_leaf w2']. rewrite El2, lookup_insert_ne by naive_solver. done.
    + done.
    + done.
    + cbn [w_kind w2']. by rewrite Epa.
    + cbn [w_kind w2']. intros a Ha. rewrite Epa. case_decide as Hd; [by subst|].
      rewrite Hrcs; [lia|by eapply (rep_kind_aligned R3)|done].
    + cbn [w_leaf w2']. intros va' z. rewrite El2, lookup_insert_ne by naive_solver.
      intros Hz Hl Ez. destruct (copied_child _ _ _ _ _ C Hz Hl) as (j & x' & Hj & -> & Hx' & ->).
      destruct (u_leaf _ _ U _ _ _ Hx' Hl) as [Hwf' _].
      rewrite Epa, cowify_pa in Ez by auto with xv6.
      pose proof (u_once _ _ U _ _ _ _ _ Hx' Hx Hl Hlt Ez) as E%page_mul_inj. lia.
  - eapply ext_trans; [done|exact (c_rep _ _ _ C)|exact (c_ext _ _ _ C)|].
    eapply ext_trans; [exact (c_rep _ _ _ C)|exact R2|exact X2|].
    pose proof (grow_ext _ _ _ _ _ R2 G3) as X3. split; try apply X3.
    + intros b Hb. rewrite Hm. by apply (x_mem _ _ _ _ _ X3).
    + intros a Ha. rewrite Hrcs; [by apply (x_kern _ _ _ _ _ X3)|by eapply (rep_kind_aligned R2)|].
      intros ->. cbn in Ha. congruence.
  - rewrite El, El2, (c_leaf _ _ _ C). cbn. fold va. by rewrite Hx.
  - intros Cw. eapply (cow_ok_share w1 w3 old new va x y); try done.
    + by apply (c_cow _ _ _ C).
    + apply cowify_W. auto with xv6.
    + by rewrite El, El2.
Qed.

(** The entries that are left when the child's mappings are undone. *)
Lemma undo_leaf k σ1 w1 x w3 :
  let va := Z.of_nat k * PGSIZE in
  copied k σ1 w1 -> va < TRAPFRAME -> w_leaf w !! (old, va) = Some x ->
  w_leaf w3 = <[(old, va) := cowify x]> (copy_leaf (w_leaf w) old new k) ->
  w_leaf (w_unmaps w3 new 0 k) = mark_leaf (w_leaf w) old (S k).
Proof using Hempty Hne Hsz.
  intros va C Hlt Hx El. apply map_eq. intros [r' va'].
  destruct (decide (r' = new)) as [->|Hr'].
  + rewrite mark_leaf_ne by (by right). destruct (decide (va' < TRAPFRAME)) as [Hl|Hl].
    * rewrite Hempty by done.
      destruct (w_leaf (w_unmaps w3 new 0 k) !! (new, va')) as [z|] eqn:Hz; [|done].
      exfalso. assert (w_leaf w1 !! (new, va') = Some z) as Hz1.
      { rewrite (c_leaf _ _ _ C), <- Hz. rewrite w_unmaps_ne.
        - by rewrite El, lookup_insert_ne by naive_solver.
        - intros j Hj [= ->]. by rewrite w_unmaps_eq in Hz. }
      destruct (copied_child _ _ _ _ _ C Hz1 Hl) as (j & _ & Hj & -> & _).
      rewrite <- (Z.add_0_l (Z.of_nat j * PGSIZE)), w_unmaps_eq in Hz by done. done.
    * rewrite w_unmaps_ne by (intros j Hj [= ->]; unfold va, PGSIZE in *; lia).
      rewrite El, lookup_insert_ne by naive_solver. apply copy_leaf_ne.
      left. intros j Hj ->. unfold va, PGSIZE in *. lia.
  + rewrite w_unmaps_ne by naive_solver. rewrite El. cbn. fold va. rewrite Hx.
    rewrite !lookup_insert. case_decide; [done|].
    destruct (decide (r' = old)) as [->|Ho]; [by apply mark_copy_old|].
    rewrite mark_leaf_ne, copy_leaf_ne by (by right). done.
Qed.

(** A page-table page is missing: the child's mappings are taken back. *)
Lemma copied_fail k σ1 w1 x σ2 σ3 w3 :
  let va := Z.of_nat k * PGSIZE in let y := cowify x in
  copied k σ1 w1 -> (k < copy_pages)%nat -> va < TRAPFRAME ->
  w_leaf w !! (old, va) = Some x -> leaf_wf x ->
  rep σ2 (w_setleaf w1 old va y) -> user_ok σ2 (w_setleaf w1 old va y) ->
  ext new σ1 w1 σ2 (w_setleaf w1 old va y) ->
  rep σ3 w3 -> grow new σ2 (w_setleaf w1 old va y) σ3 w3 -> w_free w3 = [] ->
  w_leaf w3 = w_leaf (w_setleaf w1 old va y) ->
  wp (uvmunmap new 0 (Z.of_nat k) true) σ3 (fun _ => copy_post (-1)).
Proof using All.
  intros va y C Hk Hlt Hx Hwf R2 U2 X2 R3 G3 Hnil El3.
  assert (leaf_wf y) as Hy by (by apply cowify_wf).
  assert (PTE2PA y = PTE2PA x) as Epa by (apply cowify_pa; auto with xv6).
  assert (w_leaf w3 = <[(old, va) := y]> (copy_leaf (w_leaf w) old new k)) as El.
  { rewrite El3, <- (c_leaf _ _ _ C). cbn. by apply set_leaf_insert. }
  assert (user_ok σ3 w3) as U3 by (by eapply (user_ok_grow new _ _ σ3 w3 w3 R2 R3 U2)).
  assert (forall j, (j < k)%nat -> exists x0, w_leaf w !! (old, Z.of_nat j * PGSIZE) = Some x0 /\
    w_leaf w3 !! (old, Z.of_nat j * PGSIZE) = Some (cowify x0) /\
    w_leaf w3 !! (new, 0 + Z.of_nat j * PGSIZE) = Some (cowify x0)) as Hpair.
  { intros j Hj. destruct (Hmap j ltac:(lia)) as [x0 Hx0]. rewrite Z.add_0_l in Hx0.
    exists x0. rewrite Z.add_0_l, El, (lookup_insert_ne _ _ (new, _)) by naive_solver.
    rewrite lookup_insert_ne by (intros [= E%page_mul_inj]; lia).
    rewrite copy_leaf_old, copy_leaf_new by (done || by eexists). by rewrite Hx0. }
  assert (w_kind (w_unmaps w3 new 0 k) = w_kind w3 /\ w_free (w_unmaps w3 new 0 k) = w_free w3)
    as [Ek Ef].
  { apply (unmaps_shared w3 old new k Hne); [unfold va in Hlt; lia|]. intros j Hj.
    destruct (Hpair j Hj) as (x0 & _ & H1 & H2). by exists (cowify x0), (cowify x0). }
  apply (uvmunmap_wp σ3 w3 new 0 k); [done|done|done|done|unfold va in Hlt; lia|..].
  { intros j Hj. destruct (Hpair j Hj) as (x0 & _ & _ & H2). by eexists. }
  intros σ4 R4 U4 S4. exists (w_unmaps w3 new 0 k). split; [done|]. split; [done|].
  assert (ext new σ w σ3 w3) as X3.
  { eapply ext_trans; [done|exact (c_rep _ _ _ C)|exact (c_ext _ _ _ C)|].
    eapply ext_trans; [exact (c_rep _ _ _ C)|exact R2|exact X2|]. by apply grow_ext. }
  split; [|split; [|right; split; [done|split; [by rewrite Ef|]]]].
  - eapply ext_trans; [done|exact R3|exact X3|]. split; rewrite ?Ef, ?Ek, ?w_unmaps_node; try done.
    + intros b Hb. apply (s_mem _ _ _ _ S4). by rewrite Ek.
    + apply (s_rc _ _ _ _ S4).
  - intros Cw. apply cow_ok_unmaps. eapply (cow_ok_mark w1 w3 old va x y); [by apply (c_cow _ _ _ C)|..].
    + by apply (copied_old _ _ _ _ C).
    + done.
    + apply cowify_W. auto with xv6.
    + by rewrite El, (c_leaf _ _ _ C).
  - exists (S k). split; [lia|]. by apply (undo_leaf k σ1 w1 x).
Qed.

Lemma uvmcopy_wp : wp (uvmcopy old new sz) σ copy_post.
Proof using All.
  unfold uvmcopy. pose proof Hsz as Hsz'. assert (TRAPFRAME = 2 ^ 38 - 8192) as ET by done.
  apply (wp_loop _ (fun m i σ1 => exists w1 k, (k + m = copy_pages)%nat /\
    i = Z.of_nat k * PGSIZE /\ copied k σ1 w1) _ _ copy_pages).
  - intros m i σ1 (w1 & k & Hk & -> & C).
    destruct (copy_pages_spec k ltac:(lia)) as [_ Hks].
    wp_step; bool_to_prop.
    2:{ wp_step. exists w1. assert (k = copy_pages) as -> by lia. destruct C. by eauto 10. }
    assert (k < copy_pages)%nat as Hkn by lia.
    destruct (Hmap k Hkn) as [x Hx]. rewrite Z.add_0_l in Hx.
    pose proof (copied_old _ _ _ _ C Hx) as Hx1. destruct C as [R1 U1 X1 El1 Cw1] eqn:EC.
    assert (Z.of_nat k * PGSIZE < TRAPFRAME) as Hlt by lia.
    destruct (user_page _ _ _ _ _ R1 U1 Hx1 Hlt) as (Hok & Hwf & Hku & Hrc & _).
    destruct (leaf_node _ _ _ _ _ R1 Hx1) as (Hvaok & _ & t & Ht).
    wp_step. apply (walk_read_wp σ1 w1); [done|by apply (x_node _ _ _ _ _ X1)|apply Hvaok|].
    unfold pte_ptr. rewrite Ht. erewrite pte_addr_nonzero by (done || apply PX_range).
    wp_step; apply wp_ld. rewrite (load_leaf σ1 w1 old _ t), Hx1 by done.
    cbn [default from_option id]. rewrite flag_V, (proj1 (proj2 Hwf)). cbn [negb].
    wp_step. apply (mark_wp σ1 w1 old (Z.of_nat k * PGSIZE) x t); try done.
    intros σ2 R2 U2 X2 Erc. wp_step; apply wp_ld.
    assert (leaf_wf (cowify x)) as Hwfy by auto with xv6.
    rewrite (load_leaf σ2 _ old _ t R2) by done. cbn [w_leaf w_setleaf].
    rewrite set_leaf_insert, lookup_insert_eq by done. cbn [default from_option id].
    pose proof (cowify_pa x (leaf_wf_64 x Hwf)) as Epa.
    assert (mkpte (PTE2PA x) (PTE_FLAGS (cowify x)) = cowify x) as Emk
      by (rewrite <- Epa; apply mkpte_PTE; apply Hwfy).
    pose proof (page_ok_range _ Hok) as Hpr.
    wp_step. apply (mappages1_wp σ2 (w_setleaf w1 old (Z.of_nat k * PGSIZE) (cowify x))).
    + done.
    + cbn. by apply (x_node _ _ _ _ _ X1).
    + done.
    + unfold PHYSTOP, KERNBASE, PGSIZE in *. lia.
    + apply PTE_FLAGS_range.
    + unfold unmapped. cbn. rewrite set_leaf_insert, lookup_insert_ne by (done || naive_solver).
      by rewrite (copied_new _ _ _ C Hlt).
    + intros σ3 w3 R3 G3 _ Hnil El3. cbn [negb Z.eqb]. wp_step.
      rewrite Z.div_mul by done. eapply wp_mono.
      * apply (copied_fail k σ1 w1 x σ2 σ3 w3); try done.
      * intros [] σ4 HP. wp_step. done.
    + intros σ3 w3 R3 G3 _ El3. rewrite Emk in El3. cbn [negb Z.eqb]. wp_step.
      assert (PTE2PA x ∉ w_free w1) as Hnf by (by eapply kind_not_free).
      assert (refcnt σ3 (PTE2PA x) = refcnt σ1 (PTE2PA x)) as Hrc3.
      { rewrite (g_rc _ _ _ _ _ G3) by (done || apply Hok). unfold refcnt. by rewrite Erc. }
      apply increase_refer_wp; [done|rewrite Hrc3, Hrc| ].
      { apply Z.le_lt_trans with 254; [|lia]. apply (urefs_few σ1 w1 new); try done.
        - by eapply ext_few.
        - by apply (x_node _ _ _ _ _ X1).
        - intros va y Hy Hl. destruct (copied_child _ _ _ _ _ C Hy Hl) as (j & x' & Hj & -> & Hx' & ->).
          destruct (u_leaf _ _ U _ _ _ Hx' Hl) as [Hwf' _]. rewrite cowify_pa by auto with xv6.
          intros E. pose proof (u_once _ _ U _ _ _ _ _ Hx' Hx Hl Hlt E) as E'%page_mul_inj. lia. }
      intros σ4 Hm4 Hf4 Hrc4 Hrcs4. wp_step. exists (m - 1)%nat. split; [lia|].
      exists w3, (S k). split; [lia|]. unfold u64. rewrite Z.mod_small by (unfold PGSIZE in *; lia).
      split; [lia|]. by apply (copied_step k σ1 w1 x σ2 σ3 w3 σ4).
  - exists w, 0%nat. split; [lia|]. split; [done|]. by split; [..|apply ext_refl| |].
  - unfold page_fuel, copy_pages, PGSIZE in *. dlia.
Qed.
End Copy.
End Fork.
