(* ===== verification/CowFault.v ===== *)
(** * Breaking the sharing: [cow_alloc], [is_cowpage] and [copyout]

    [uload] is what a user program sees at a virtual address.  [cow_alloc]
    (kernel/trap.c) makes a page private and writable without changing what
    any process sees; [copyout] (kernel/vm.c) changes exactly the bytes of the
    destination range, in the destination address space only. *)

From S2P Require Import Prelude Riscv Mem Kalloc Vm VmRep VmSpec Cow Fork.

(** The byte that user code of table [r] loads from [va]; [None] is a fault. *)
Definition uload (σ : machine) (w : world) (r va : Z) : option Z :=
  match w_leaf w !! (r, page_of va) with
  | Some x =>
      if Z.testbit x 0 && Z.testbit x 4 && Z.testbit x 1
      then Some (mget (m_mem σ) (PTE2PA x + va mod PGSIZE)) else None
  | None => None
  end.

(** Every process sees the same bytes. *)
Definition same_view (σ : machine) (w : world) (σ' : machine) (w' : world) : Prop :=
  forall r va, va < TRAPFRAME -> uload σ' w' r va = uload σ w r va.

Lemma page_split va : va = page_of va + va mod PGSIZE.
Proof. unfold page_of, PGSIZE. dlia. Qed.

Lemma page_of_lt va t : aligned t -> va < t -> page_of va < t.
Proof. unfold page_of, aligned, PGSIZE. intros. dlia. Qed.

Lemma page_of_pa x va : aligned (PTE2PA x) -> page_of (PTE2PA x + va mod PGSIZE) = PTE2PA x.
Proof. intros Ha. apply page_of_off; [done|]. unfold PGSIZE. dlia. Qed.

Lemma TRAPFRAME_aligned : aligned TRAPFRAME.
Proof. done. Qed.

Lemma lor_W_wf x : leaf_wf x -> leaf_wf (Z.lor x PTE_W).
Proof.
  intros (Hr & H0 & H1). split; [|rewrite !Z.lor_spec, H0, H1; done].
  apply lor_range; [lia|done|]. change PTE_W with 4. lia.
Qed.

Lemma lor_W_pa x : PTE2PA (Z.lor x PTE_W) = PTE2PA x.
Proof. apply PTE2PA_lor. change PTE_W with 4. lia. Qed.

Lemma lor_W_bit x k : 0 <= k -> k <> 2 -> Z.testbit (Z.lor x PTE_W) k = Z.testbit x k.
Proof.
  intros Hk Hne. rewrite Z.lor_spec. change PTE_W with (2 ^ 2).
  by rewrite Z.pow2_bits_false, orb_false_r by lia.
Qed.

Lemma lor_W_set x : Z.testbit (Z.lor x PTE_W) 2 = true.
Proof. by rewrite Z.lor_spec, orb_true_r. Qed.

Lemma clear_COW_bit x k : 0 <= x < 2 ^ 64 -> 0 <= k -> k <> 8 ->
  Z.testbit (clear x PTE_RSW_COW) k = Z.testbit x k.
Proof.
  intros Hx Hk Hne. rewrite clear_spec by done. change PTE_RSW_COW with (2 ^ 8).
  by rewrite Z.pow2_bits_false, andb_true_r by lia.
Qed.

Lemma clear_COW_wf x : leaf_wf x -> leaf_wf (clear x PTE_RSW_COW).
Proof.
  intros (Hr & H0 & H1). pose proof (clear_range x PTE_RSW_COW) as Hc.
  split; [lia|]. by rewrite !clear_COW_bit by lia.
Qed.

Lemma clear_COW_pa x : leaf_wf x -> PTE2PA (clear x PTE_RSW_COW) = PTE2PA x.
Proof. intros [Hr _]. apply PTE2PA_clear; [lia|]. change PTE_RSW_COW with 256. lia. Qed.

#[export] Hint Resolve lor_W_wf clear_COW_wf : xv6.

(** Flags that decide what user code can load. *)
Definition same_perm (x y : Z) : Prop :=
  Z.testbit y 0 = Z.testbit x 0 /\ Z.testbit y 1 = Z.testbit x 1 /\ Z.testbit y 4 = Z.testbit x 4.

Section View.
Context `{L : Layout}.

(** Entries replaced by entries of the same page keep the view. *)
Lemma view_setflags r0 σ w σ' w' r va x y :
  rep σ w -> user_ok σ w -> ext r0 σ w σ' w' ->
  w_leaf w !! (r, va) = Some x -> w_leaf w' = <[(r, va) := y]> (w_leaf w) ->
  PTE2PA y = PTE2PA x -> same_perm x y -> same_view σ w σ' w'.
Proof.
  intros R U X Hx El E (P0 & P1 & P4) r' va' Hlt. unfold uload. rewrite El.
  assert (page_of va' < TRAPFRAME) as Hp by (apply page_of_lt; [apply TRAPFRAME_aligned|done]).
  assert (forall z, w_leaf w !! (r', page_of va') = Some z ->
    mget (m_mem σ') (PTE2PA z + va' mod PGSIZE) = mget (m_mem σ) (PTE2PA z + va' mod PGSIZE)) as Hm.
  { intros z Hz. destruct (user_page _ _ _ _ _ R U Hz Hp) as ([Hal _] & _ & Hk & _).
    apply (x_mem _ _ _ _ _ X). by rewrite page_of_pa, Hk. }
  destruct (decide ((r', page_of va') = (r, va))) as [Ek|Hne].
  - rewrite Ek, lookup_insert_eq, Hx. rewrite P0, P1, P4, E. rewrite <- Ek in Hx. by rewrite Hm.
  - rewrite lookup_insert_ne by done. destruct (w_leaf w !! (r', page_of va')) as [z|] eqn:Hz; [|done].
    by rewrite (Hm z).
Qed.

Lemma urefs_zero σ w a :
  user_ok σ w -> w_kind w !! a <> Some KUser -> urefs (w_leaf w) a = 0.
Proof.
  intros U Hk. unfold urefs. apply cnt_zero. intros [r va] x Hx [Hlt Hpa]. cbn in *. subst a.
  by apply Hk, (u_leaf _ _ U r va).
Qed.

(** ** [cow_alloc] when the page has one reference *)

Definition own (x : Z) : Z := clear (Z.lor x PTE_W) PTE_RSW_COW.

Lemma own_wf x : leaf_wf x -> leaf_wf (own x).
Proof. unfold own. auto with xv6. Qed.
Lemma own_pa x : leaf_wf x -> PTE2PA (own x) = PTE2PA x.
Proof. intros Hx. unfold own. rewrite clear_COW_pa by auto with xv6. apply lor_W_pa. Qed.
Lemma own_W x : leaf_wf x -> Z.testbit (own x) 2 = true.
Proof.
  intros Hx%lor_W_wf%leaf_wf_64. unfold own. rewrite clear_COW_bit by (done || lia). apply lor_W_set.
Qed.
Lemma own_perm x : leaf_wf x -> same_perm x (own x).
Proof.
  intros Hx%lor_W_wf%leaf_wf_64. unfold own, same_perm.
  rewrite !clear_COW_bit by (done || lia). by rewrite !lor_W_bit by lia.
Qed.

(** What [cow_alloc] promises about the address space when it succeeds. *)
Record private (σ : machine) (w : world) (r va v : Z) (σ' : machine) (w' : world) : Prop := {
  p_rep : rep σ' w';
  p_user : user_ok σ' w';
  p_ext : ext r σ w σ' w';
  p_view : same_view σ w σ' w';
  p_leaf : exists y, w_leaf w' = <[(r, va) := y]> (w_leaf w) /\ PTE2PA y = v /\
    Z.testbit y 2 = true /\ (forall x, w_leaf w !! (r, va) = Some x -> same_perm x y) /\
    urefs (w_leaf w') v = 1;
  p_cow : cow_ok w -> cow_ok w'
}.

Lemma cow_ok_exclusive w w' r va x y :
  cow_ok w -> w_leaf w !! (r, va) = Some x -> va < TRAPFRAME ->
  w_leaf w' = <[(r, va) := y]> (w_leaf w) -> PTE2PA y = PTE2PA x ->
  urefs (w_leaf w) (PTE2PA x) = 1 -> cow_ok w'.
Proof.
  intros C Hx Hva El E H1 r' va' z. rewrite El.
  intros [[_ <-]|[Hk Hz]]%lookup_insert_Some Hlt HW; rewrite (urefs_insert _ _ _ _ _ _ Hx E).
  - by rewrite E.
  - by eapply C.
Qed.

Lemma cow_own_private σ w r va x t :
  rep σ w -> user_ok σ w -> w_leaf w !! (r, va) = Some x -> va < TRAPFRAME ->
  w_node w !! (r, [PX 2 va; PX 1 va]) = Some t -> urefs (w_leaf w) (PTE2PA x) = 1 ->
  private σ w r va (PTE2PA x)
    (store_entry t (PX 0 va) (own x) (store_entry t (PX 0 va) (Z.lor x PTE_W) σ))
    (w_setleaf w r va (own x)).
Proof.
  intros R U Hx Hva Ht H1. destruct (user_page _ _ _ _ _ R U Hx Hva) as (Hok & Hwf & Hk & _).
  pose proof (own_wf x Hwf) as Hwo. pose proof (own_pa x Hwf) as Hpo.
  assert (leaf_wf (Z.lor x PTE_W)) as Hw1 by auto with xv6.
  destruct (setflags_twice σ w r va x (Z.lor x PTE_W) (own x) t) as (R2 & U2 & X2);
    try done; [apply lor_W_pa|].
  assert (w_leaf (w_setleaf w r va (own x)) = <[(r, va) := own x]> (w_leaf w)) as El
    by (cbn; by apply set_leaf_insert).
  split; [done|done|done|..].
  - eapply (view_setflags r); try done. by apply own_perm.
  - exists (own x). rewrite El. split; [done|]. split; [done|]. split; [by apply own_W|].
    split; [|by rewrite (urefs_insert _ _ _ _ _ _ Hx Hpo)].
    intros x' Hx'. assert (x' = x) as -> by congruence. by apply own_perm.
  - intros C. by eapply cow_ok_exclusive.
Qed.

(** ** [cow_alloc] when the page is shared *)

(** The address space after the copy: entry [va] maps the new page [a]. *)
Definition w_cow (w : world) (r va a y : Z) (fl : list Z) : world :=
  World fl (<[a := KUser]> (w_kind w)) (w_node w) (<[(r, va) := y]> (w_leaf w)).

Section Copied.
Context (σ : machine) (w : world) (r va x a : Z) (fl : list Z) (σ' : machine).
Context (R : rep σ w) (U : user_ok σ w).
Context (Hx : w_leaf w !! (r, va) = Some x) (Hva : va < TRAPFRAME).
Context (Hmore : 1 < urefs (w_leaf w) (PTE2PA x)).
Context (Hfree : w_free w = a :: fl).
Let y := mkpte a (PTE_FLAGS (Z.lor x PTE_W)).
Context (R' : rep σ' (w_cow w r va a y fl)).
Context (Hrca : refcnt σ' a = 1).
Context (Hrcp : refcnt σ' (PTE2PA x) = refcnt σ (PTE2PA x) - 1).
Context (Hrcs : forall b, aligned b -> b <> a -> b <> PTE2PA x -> refcnt σ' b = refcnt σ b).
Context (Hmem : forall b, meta (w_kind w !! page_of b) = false ->
  mget (m_mem σ') b = mget (m_mem σ) b).
Context (Hcopy : forall i, 0 <= i < PGSIZE ->
  mget (m_mem σ') (a + i) = mget (m_mem σ) (PTE2PA x + i)).

Lemma cow_new_page : w_kind w !! a = Some KFree /\ page_ok a /\ a <> PTE2PA x /\
  leaf_wf x /\ w_kind w !! PTE2PA x = Some KUser.
Proof using All.
  assert (w_kind w !! a = Some KFree) as Hk by (apply (r_kfree _ _ R); rewrite Hfree; set_solver).
  destruct (user_page _ _ _ _ _ R U Hx Hva) as (_ & Hwf & Hku & _).
  split; [done|]. split; [by eapply (r_ok _ _ R)|]. split; [congruence|done].
Qed.

Lemma cow_new_pte : leaf_wf y /\ PTE2PA y = a /\ Z.testbit y 2 = true /\ same_perm x y.
Proof using All.
  destruct cow_new_page as (_ & Hok & _ & Hwf & _). pose proof (page_ok_range a Hok) as Hr.
  assert (0 <= a < 2 ^ 56) as Ha by (unfold PHYSTOP, KERNBASE, PGSIZE in *; lia).
  pose proof (PTE_FLAGS_range (Z.lor x PTE_W)) as Hf. destruct Hwf as (Hxr & H0 & H1).
  assert (forall k, 0 < k < 10 -> Z.testbit y k = Z.testbit (Z.lor x PTE_W) k) as Hb.
  { intros k Hk. unfold y. rewrite mkpte_testbit, PTE_FLAGS_testbit by lia.
    by rewrite (proj2 (Z.eqb_neq k 0)), orb_false_r by lia. }
  assert (Z.testbit y 0 = true) as Hb0.
  { unfold y. by rewrite mkpte_testbit, orb_true_r by lia. }
  split; [|split; [|split]].
  - split; [by apply mkpte_range|]. split; [done|]. by rewrite Hb, lor_W_bit by lia.
  - apply PTE2PA_mkpte; [done|apply Hok|done].
  - rewrite Hb by lia. apply lor_W_set.
  - split; [congruence|]. by rewrite !Hb, !lor_W_bit by lia.
Qed.

Lemma cow_urefs b : urefs (<[(r, va) := y]> (w_leaf w)) b =
  urefs (w_leaf w) b - (if decide (PTE2PA x = b) then 1 else 0) + (if decide (a = b) then 1 else 0).
Proof using All.
  unfold urefs. rewrite (cnt_insert _ _ _ _ _ Hx). destruct cow_new_pte as (_ & Ey & _).
  unfold is_ref. cbn. repeat case_decide; naive_solver lia.
Qed.

Lemma cow_user_ok : user_ok σ' (w_cow w r va a y fl).
Proof using All.
  destruct cow_new_page as (Hk & Hok & Hne & Hwf & Hku).
  destruct cow_new_pte as (Hwy & Ey & HW & Hperm).
  assert (urefs (w_leaf w) a = 0) as H0 by (apply (urefs_zero σ); [done|congruence]).
  split; cbn.
  - intros r' va' z [[[= <- <-] <-]|[_ Hz]]%lookup_insert_Some Hlt.
    + split; [done|]. by rewrite Ey, lookup_insert_eq.
    + destruct (u_leaf _ _ U _ _ _ Hz Hlt) as [Hwz Hkz]. split; [done|].
      rewrite lookup_insert_ne; [done|]. congruence.
  - intros b Hb. rewrite cow_urefs. apply lookup_insert_Some in Hb as [[<- _]|[Hne' Hb]].
    + rewrite decide_False, decide_True by done. lia.
    + destruct (u_rc _ _ U b Hb) as [Hr Hp]. rewrite (decide_False (P := a = b)) by done.
      case_decide as Hd; [subst b; lia|]. rewrite Hrcs; [lia| |done|done].
      by eapply (rep_kind_aligned R).
  - intros r' v1 z1 v2 z2 H1%lookup_insert_Some H2%lookup_insert_Some Hl1 Hl2 Hpa.
    destruct H1 as [[E1 <-]|[_ E1]], H2 as [[E2 <-]|[_ E2]]; simplify_eq; [done|..].
    + destruct (u_leaf _ _ U _ _ _ E2 Hl2) as [_ Hkz]. congruence.
    + destruct (u_leaf _ _ U _ _ _ E1 Hl1) as [_ Hkz]. congruence.
    + by eapply (u_once _ _ U).
  - intros r' va' z [[[= <- <-] <-]|[_ Hz]]%lookup_insert_Some; [lia|]. by apply (u_trap _ _ U r').
Qed.

Lemma cow_copy_private : private σ w r va a σ' (w_cow w r va a y fl).
Proof using All.
  destruct cow_new_page as (Hk & Hok & Hne & Hwf & Hku).
  destruct cow_new_pte as (Hwy & Ey & HW & Hperm).
  assert (urefs (w_leaf w) a = 0) as H0 by (apply (urefs_zero σ); [done|congruence]).
  split; [done|apply cow_user_ok|..].
  - split; cbn; try done.
    + rewrite Hfree. set_solver.
    + intros b Hb. rewrite lookup_insert_ne; [done|]. rewrite Hfree in Hb. set_solver.
    + intros b Hb Hb'. rewrite Hfree in Hb. assert (b = a) as -> by set_solver.
      left. by rewrite lookup_insert_eq.
    + intros b Hb. apply Hrcs; [by eapply (rep_kind_aligned R)|congruence..].
  - intros r' va' Hlt. unfold uload. cbn [w_cow w_leaf].
    assert (page_of va' < TRAPFRAME) as Hp by (apply page_of_lt; [apply TRAPFRAME_aligned|done]).
    destruct (decide ((r', page_of va') = (r, va))) as [Ek|Hnk].
    + rewrite Ek, lookup_insert_eq, Hx. destruct Hperm as (-> & -> & ->).
      rewrite Ey, Hcopy by (unfold PGSIZE; dlia). done.
    + rewrite lookup_insert_ne by done.
      destruct (w_leaf w !! (r', page_of va')) as [z|] eqn:Hz; [|done].
      destruct (user_page _ _ _ _ _ R U Hz Hp) as ([Hal _] & _ & Hkz & _).
      rewrite (Hmem (PTE2PA z + va' mod PGSIZE)); [done|]. by rewrite page_of_pa, Hkz.
  - exists y. cbn. split; [done|]. split; [done|]. split; [done|]. split.
    + intros x' Hx'. assert (x' = x) as -> by congruence. done.
    + rewrite cow_urefs, H0, decide_False, decide_True by done. done.
  - intros C r' va' z. cbn. intros [[_ <-]|[Hnk Hz]]%lookup_insert_Some Hlt HWz; rewrite cow_urefs.
    + rewrite Ey, H0, decide_False, decide_True by done. done.
    + pose proof (C _ _ _ Hz Hlt HWz) as Hone.
      destruct (u_leaf _ _ U _ _ _ Hz Hlt) as [_ Hkz].
      rewrite !decide_False; [lia|congruence|]. intros E. rewrite E in Hmore. lia.
Qed.
End Copied.

(** The entry moves to the new page [a], which holds a copy already. *)
Lemma cow_swap_wp σ w r va x t a fl σ3 (Q : Z -> machine -> Prop) :
  rep σ w -> user_ok σ w -> w_leaf w !! (r, va) = Some x -> va < TRAPFRAME ->
  w_node w !! (r, [PX 2 va; PX 1 va]) = Some t -> 1 < urefs (w_leaf w) (PTE2PA x) ->
  w_free w = a :: fl -> w_kind w !! a = Some KFree ->
  let x1 := Z.lor x PTE_W in
  rep σ3 (w_take (w_setleaf w r va x1) a fl) -> refcnt σ3 a = 1 ->
  (forall b, aligned b -> b <> a -> refcnt σ3 b = refcnt σ b) ->
  (forall b, page_of b <> a -> page_of b <> t -> mget (m_mem σ3) b = mget (m_mem σ) b) ->
  (forall i, 0 <= i < PGSIZE -> mget (m_mem σ3) (a + i) = mget (m_mem σ) (PTE2PA x + i)) ->
  (forall σ' w', private σ w r va a σ' w' -> Q a σ') ->
  wp (w ← ld (pte_addr t (PX 0 va));
      st (pte_addr t (PX 0 va)) (clear w PTE_V);;
      r ← mappages r va PGSIZE a (PTE_FLAGS x1);
      if negb (r =? 0) then
        w ← ld (pte_addr t (PX 0 va));
        st (pte_addr t (PX 0 va)) (Z.lor w PTE_V);; kfree a;; mret 0
      else kfree (PTE2PA x);; mret a) σ3 Q.
Proof.
  intros R U Hx Hva Ht Hmore Hfree Hka x1 R3 Hone Hrcs3 Hm3 Hcopy HQ.
  destruct (user_page _ _ _ _ _ R U Hx Hva) as (Hok & Hwf & Hku & Hrc & _).
  destruct (leaf_node _ _ _ _ _ R Hx) as (Hvaok & Hroot & _).
  assert (leaf_wf x1) as Hwf1 by (unfold x1; auto with xv6). pose proof (leaf_wf_64 _ Hwf1) as Hx1r.
  pose proof (rep_node_kind R _ _ _ Ht) as Htk. pose proof (r_ok _ _ R _ _ Hka) as Hoka.
  pose proof (page_ok_range a Hoka) as Har.
  assert (a <> PTE2PA x /\ a <> t) as [Hane Hat] by (split; congruence).
  set (w2 := w_take (w_setleaf w r va x1) a fl) in *.
  assert (w_node w2 !! (r, [PX 2 va; PX 1 va]) = Some t) as Ht2 by done.
  wp_step. apply wp_ld. rewrite (load_leaf σ3 w2 r va t R3 Hvaok Ht2).
  cbn [w2 w_leaf w_take w_setleaf]. rewrite set_leaf_insert, lookup_insert_eq by done.
  cbn [default from_option id]. pose proof (clear_range x1 PTE_V Hx1r) as Hcl.
  pose proof (rep_setleaf σ3 w2 r va t (clear x1 PTE_V) R3 Hvaok Ht2 ltac:(lia)) as R4.
  wp_step. apply wp_st. wp_step.
  apply (mappages1_present_wp (store_entry t (PX 0 va) (clear x1 PTE_V) σ3)
    (w_setleaf w2 r va (clear x1 PTE_V)) r va t); try done.
  { unfold unmapped. cbn [w_leaf w_setleaf]. rewrite set_leaf_lookup, decide_True by done.
    rewrite clear_spec by (lia || done). by rewrite andb_false_r. }
  cbn [negb Z.eqb]. set (y := mkpte a (PTE_FLAGS x1)).
  assert (0 <= a < 2 ^ 56) as Ha56 by (unfold PHYSTOP, KERNBASE, PGSIZE in *; lia).
  pose proof (mkpte_range a (PTE_FLAGS x1) Ha56 (PTE_FLAGS_range x1)) as Hyr. fold y in Hyr.
  pose proof (rep_setleaf _ _ r va t y R4 Hvaok Ht2 ltac:(lia)) as R5. wp_step.
  set (σ5 := store_entry t (PX 0 va) y _) in *.
  assert (forall b, refcnt σ5 b = refcnt σ3 b) as Hrc5 by done.
  apply (rep_kfree_more σ5 _ (PTE2PA x) KUser _ R5); [|done| |].
  { cbn. by rewrite lookup_insert_ne. }
  { rewrite Hrc5, Hrcs3 by (done || apply Hok). lia. }
  intros σ6 R6 Hm6 Hrcp Hrcs6. wp_step.
  assert (forall b, page_of b <> t -> mget (m_mem σ6) b = mget (m_mem σ3) b) as Hm63.
  { intros b Hb. rewrite Hm6. unfold σ5. rewrite !mget_store_entry; try done; try apply PX_range;
      by eapply (rep_node_ok R). }
  apply (HQ σ6 (w_cow w r va a y fl)), (cow_copy_private σ w r va x a fl σ6); try done.
  - replace (w_cow w r va a _ fl)
      with (w_setkind (w_setleaf (w_setleaf w2 r va (clear x1 PTE_V)) r va y) a KUser).
    + apply (rep_setkind _ _ a KKern); try done. cbn. by rewrite lookup_insert_eq.
    + unfold w_cow, w_setkind; cbn. unfold set_leaf.
      rewrite (decide_False (P := x1 = 0)) by (by apply leaf_wf_nonzero).
      rewrite (decide_False (P := y = 0)) by (by apply mkpte_nonzero).
      f_equal; [by rewrite insert_insert_eq|]. case_decide;
        by rewrite ?insert_delete_eq, ?insert_insert_eq.
  - by rewrite Hrcs6, Hrc5 by (done || apply Hoka).
  - by rewrite Hrcp, Hrc5, Hrcs3 by (done || apply Hok).
  - intros b Hb H1 H2. by rewrite Hrcs6, Hrc5, Hrcs3 by done.
  - intros b Hb. assert (page_of b <> t) by (intros E; by rewrite E, Htk in Hb).
    assert (page_of b <> a) by (intros E; by rewrite E, Hka in Hb). by rewrite Hm63, Hm3.
  - intros i Hi. rewrite Hm63 by (rewrite page_of_off; [done|apply Hoka|done]). by apply Hcopy.
Qed.

(** [cow_alloc]: with one reference the page is kept; a shared page is
    copied; without memory nothing but the [PTE_W] bit of the entry changes. *)
Lemma cow_alloc_wp σ w r va x (Q : Z -> machine -> Prop) :
  rep σ w -> user_ok σ w -> w_leaf w !! (r, va) = Some x -> va < TRAPFRAME ->
  (forall v σ' w', private σ w r va v σ' w' -> v <> 0 ->
     ~ (w_free w = [] /\ 1 < urefs (w_leaf w) (PTE2PA x)) -> Q v σ') ->
  (forall σ', w_free w = [] -> 1 < urefs (w_leaf w) (PTE2PA x) ->
     rep σ' (w_setleaf w r va (Z.lor x PTE_W)) -> user_ok σ' (w_setleaf w r va (Z.lor x PTE_W)) ->
     ext r σ w σ' (w_setleaf w r va (Z.lor x PTE_W)) -> Q 0 σ') ->
  wp (cow_alloc r va) σ Q.
Proof.
  intros R U Hx Hva HQ Hfail. unfold cow_alloc.
  destruct (user_page _ _ _ _ _ R U Hx Hva) as (Hok & Hwf & Hku & Hrc & Hpos).
  destruct (leaf_node _ _ _ _ _ R Hx) as (Hvaok & Hroot & t & Ht).
  pose proof (lor_W_wf x Hwf) as Hwf1. pose proof (lor_W_pa x) as Epa.
  wp_step. apply (walk_present_wp σ w r va t); [done|done|apply Hvaok|done|].
  unfold deref. erewrite pte_addr_nonzero by (done || apply PX_range).
  wp_step. apply wp_ld. rewrite (load_leaf σ w r va t R Hvaok Ht), Hx. cbn [default from_option id].
  wp_step. apply get_refcount_wp; [done|]. pose proof (page_ok_range _ Hok) as Hpr.
  wp_step; bool_to_prop; wp_step; apply wp_st; wp_step; apply wp_ld;
    change (set_mem (fun m => store64 m (pte_addr t (PX 0 va)) (Z.lor x PTE_W)) σ)
      with (store_entry t (PX 0 va) (Z.lor x PTE_W) σ);
    rewrite load_store_entry_eq by auto with xv6.
  - wp_step. apply wp_st. wp_step.
    eapply HQ; [by apply (cow_own_private σ w r va x t); try done; lia| |lia].
    unfold KERNBASE in *. lia.
  - pose proof (rep_setleaf σ w r va t _ R Hvaok Ht (leaf_wf_64 _ Hwf1)) as R1.
    pose proof (rep_node_kind R _ _ _ Ht) as Htk. wp_step.
    set (σ1 := store_entry t (PX 0 va) (Z.lor x PTE_W) σ) in *.
    assert (forall b, page_of b <> t -> mget (m_mem σ1) b = mget (m_mem σ) b) as Hm1.
    { intros b Hb. apply mget_store_entry; [by eapply (rep_node_ok R)|apply PX_range|done]. }
    apply (rep_kalloc σ1 _ _ R1). cbn [w_free w_setleaf].
    destruct (w_free w) as [|a fl] eqn:Hfree.
    { rewrite Z.eqb_refl. wp_step. apply Hfail; [done|lia|done|by eapply user_ok_setflags|].
      by apply ext_setleaf. }
    intros σ2 R2 Hka Hone Hrcs2 Hm2. cbn [w_kind w_setleaf] in Hka.
    pose proof (r_ok _ _ R _ _ Hka) as Hoka. pose proof (page_ok_range a Hoka) as Har.
    rewrite (proj2 (Z.eqb_neq a 0)) by (unfold KERNBASE in *; lia).
    unfold memmoveM. do 2 wp_step. rewrite Epa.
    set (σ3 := set_mem (fun m => memmove m a (PTE2PA x) PGSIZE) σ2).
    assert (forall b, page_of b <> a -> mget (m_mem σ3) b = mget (m_mem σ2) b) as Hm3.
    { intros b Hb. cbn. rewrite mget_memmove, decide_False; [done| |done].
      rewrite page_of_in; [done|apply Hoka]. }
    apply (cow_swap_wp σ w r va x t a fl σ3); try done.
    + lia.
    + eapply rep_frame; [exact R2|done| |done]. intros b Hb. apply Hm3. intros E.
      rewrite E in Hb. cbn in Hb. by rewrite lookup_insert_eq in Hb.
    + intros b Hb Hb'. by rewrite Hm3, Hm2, Hm1.
    + intros i Hi. cbn. rewrite mget_memmove, decide_True by lia.
      replace (PTE2PA x + (a + i - a)) with (PTE2PA x + i) by lia.
      assert (page_of (PTE2PA x + i) = PTE2PA x) as Ep by (apply page_of_off; [apply Hok|done]).
      rewrite Hm2, Hm1 by congruence. done.
    + intros σ' w' P. apply (HQ a σ' w'); [done| |by intros []]. unfold KERNBASE in *. lia.
Qed.
End View.
