(* ===== verification/CopyOut.v ===== *)
(** * Copying between the kernel and user memory: [copyout] and [copyin]

    [copyout] breaks copy-on-write sharing before it writes, so that it changes
    exactly the destination range, in the destination address space, for every
    user address the kernel is given (also unmapped or out of range ones);
    [copyin] reads back what user code would load. *)

From S2P Require Import Prelude Riscv Mem Kalloc Vm VmRep VmSpec Cow Fork CowFault.

Definition is_byte (b : Z) : Prop := 0 <= b < 256.

(** The bytes [bs] were stored at [d] in table [r], and nothing else changed. *)
Definition written (σ : machine) (w : world) (r d : Z) (bs : list Z)
    (σ' : machine) (w' : world) : Prop :=
  forall r' va, va < TRAPFRAME ->
    uload σ' w' r' va =
    if decide (r' = r /\ d <= va < d + Z.of_nat (length bs))
    then bs !! Z.to_nat (va - d) else uload σ w r' va.

(** The pages of the range that the process can read are writable, now or after
    a copy.  [copyout] does not test this. *)
Definition writable (w : world) (r lo hi : Z) : Prop :=
  forall p x, w_leaf w !! (r, p) = Some x -> page_of lo <= p < hi ->
    Z.testbit x 4 = true -> Z.testbit x 2 = true \/ Z.testbit x 8 = true.

Lemma written_nil σ w r d σ' w' : same_view σ w σ' w' -> written σ w r d [] σ' w'.
Proof. intros V r' va Hlt. rewrite decide_False by (cbn; lia). by apply V. Qed.

Lemma written_app σ w r d bs1 bs2 σ1 w1 σ2 w2 :
  written σ w r d bs1 σ1 w1 ->
  written σ1 w1 r (d + Z.of_nat (length bs1)) bs2 σ2 w2 ->
  written σ w r d (bs1 ++ bs2) σ2 w2.
Proof.
  intros W1 W2 r' va Hlt. rewrite W2, W1, length_app by done.
  repeat case_decide; try lia; try done.
  - rewrite lookup_app_r by lia. f_equal. lia.
  - rewrite lookup_app_l by lia. done.
Qed.

Lemma written_view σ w r d bs σ1 w1 σ2 w2 :
  same_view σ w σ1 w1 -> written σ1 w1 r d bs σ2 w2 -> written σ w r d bs σ2 w2.
Proof. intros V W r' va Hlt. rewrite W by done. case_decide; [done|]. by apply V. Qed.

Section CopyOut.
Context `{L : Layout}.

(** Writing inside a page that has one mapping. *)
Lemma write_page σ w r va0 y off bs :
  rep σ w -> user_ok σ w -> w_leaf w !! (r, va0) = Some y -> va0 < TRAPFRAME ->
  Z.testbit y 4 = true -> urefs (w_leaf w) (PTE2PA y) = 1 ->
  0 <= off -> off + Z.of_nat (length bs) <= PGSIZE -> Forall is_byte bs ->
  let σ' := set_mem (fun m => write_bytes m (PTE2PA y + off) bs) σ in
  rep σ' w /\ user_ok σ' w /\ written σ w r (va0 + off) bs σ' w.
Proof.
  intros R U Hy Hva HU H1 Hoff Hlen Hbs σ'.
  destruct (user_page _ _ _ _ _ R U Hy Hva) as (Hok & Hwf & Hku & _).
  destruct (leaf_node _ _ _ _ _ R Hy) as ([Hva0 _] & _).
  assert (forall b, page_of b <> PTE2PA y -> mget (m_mem σ') b = mget (m_mem σ) b) as Hm.
  { intros b Hb. cbn. rewrite mget_write_bytes, decide_False; [done|]. intros Hr. apply Hb.
    apply page_of_in; [apply Hok|]. lia. }
  split; [|split].
  - eapply rep_frame; [done|done| |done]. intros b Hb. apply Hm. intros E. by rewrite E, Hku in Hb.
  - by destruct U.
  - intros r' va Hlt. unfold uload.
    assert (page_of va < TRAPFRAME) as Hp by (apply page_of_lt; [apply TRAPFRAME_aligned|done]).
    pose proof (page_split va) as Hsplit. assert (0 <= va mod PGSIZE < PGSIZE) as Hmod by (unfold PGSIZE; dlia).
    destruct (w_leaf w !! (r', page_of va)) as [z|] eqn:Hz.
    2:{ rewrite decide_False; [done|]. intros [-> Hr].
        assert (page_of va = va0) as E by (apply page_of_in; [done|lia]). congruence. }
    destruct (user_page _ _ _ _ _ R U Hz Hp) as ([Halz _] & _).
    destruct (decide (PTE2PA z = PTE2PA y)) as [E|E].
    + assert ((r', page_of va) = (r, va0)) as [= -> E2].
      { by apply (cnt_one (is_ref (PTE2PA y)) (w_leaf w) _ z _ y). }
      assert (z = y) as -> by congruence. destruct Hwf as (_ & -> & ->). rewrite HU. cbn [andb].
      cbn. rewrite mget_write_bytes. repeat case_decide; try lia; [|done].
      replace (Z.to_nat (PTE2PA y + va mod PGSIZE - (PTE2PA y + off))) with (Z.to_nat (va - (va0 + off))) by lia.
      destruct (bs !! Z.to_nat (va - (va0 + off))) as [b|] eqn:Hb.
      * cbn. f_equal. apply Z.mod_small. by eapply (Forall_lookup_1 _ _ _ _ Hbs).
      * apply lookup_ge_None in Hb. lia.
    + rewrite decide_False.
      * by rewrite Hm by (by rewrite page_of_pa).
      * intros [-> Hr]. assert (page_of va = va0) as E2 by (apply page_of_in; [done|lia]).
        congruence.
Qed.

Lemma is_cowpage_wp σ w r va x (Q : bool -> machine -> Prop) :
  rep σ w -> w_leaf w !! (r, va) = Some x -> Q (Z.testbit x 8) σ -> wp (is_cowpage r va) σ Q.
Proof.
  intros R Hx HQ. unfold is_cowpage. destruct (leaf_node _ _ _ _ _ R Hx) as (Hvaok & Hroot & t & Ht).
  wp_step. apply (walk_present_wp σ w r va t); [done|done|apply Hvaok|done|].
  unfold deref. erewrite pte_addr_nonzero by (done || apply PX_range).
  wp_step. apply wp_ld. rewrite (load_leaf σ w r va t R Hvaok Ht), Hx. cbn [default from_option id].
  wp_step. by rewrite flag_COW.
Qed.

(** [walkaddr] on any 64-bit address: the page of a user mapping, or 0. *)
Lemma walkaddr_user_wp σ w r d (Q : Z -> machine -> Prop) :
  rep σ w -> user_ok σ w -> w_node w !! (r, []) = Some r -> 0 <= d < 2 ^ 64 ->
  ((d < TRAPFRAME -> uload σ w r d = None) -> Q 0 σ) ->
  (forall x, w_leaf w !! (r, page_of d) = Some x -> page_of d < TRAPFRAME ->
     Z.testbit x 4 = true -> PTE2PA x <> 0 -> Q (PTE2PA x) σ) ->
  wp (walkaddr r (PGROUNDDOWN d)) σ Q.
Proof.
  intros R U Hr Hd H0 HQ. rewrite PGROUNDDOWN_eq by done. fold (page_of d).
  assert (MAXVA = 2 ^ 38) as EM by done. assert (TRAPFRAME = 2 ^ 38 - 8192) as ET by done.
  assert (aligned (page_of d) /\ 0 <= page_of d <= d) as [Hpal Hp0]
    by (unfold aligned, page_of, PGSIZE; dlia).
  destruct (Z.ltb_spec (page_of d) MAXVA) as [Hlt|Hge].
  2:{ unfold walkaddr. rewrite Z.geb_leb, (proj2 (Z.leb_le _ _)) by lia. wp_step. apply H0. lia. }
  apply (walkaddr_wp σ w); [done|done|by split; [|lia]|].
  destruct (w_leaf w !! (r, page_of d)) as [x|] eqn:Hx.
  2:{ apply H0. intros _. unfold uload. by rewrite Hx. }
  destruct (Z.testbit x 0 && Z.testbit x 4) eqn:Ebits.
  2:{ apply H0. intros _. unfold uload. by rewrite Hx, Ebits. }
  apply andb_true_iff in Ebits as [_ HU4].
  destruct (Z.ltb_spec (page_of d) TRAPFRAME) as [Htf|Htf];
    [|by rewrite (u_trap _ _ U _ _ _ Hx Htf) in HU4].
  destruct (user_page _ _ _ _ _ R U Hx Htf) as (Hok & _). pose proof (page_ok_range _ Hok).
  apply HQ; try done. unfold KERNBASE in *. lia.
Qed.

(** Bytes of one mapped page. *)
Lemma uload_page σ w r va0 x o :
  rep σ w -> user_ok σ w -> w_leaf w !! (r, va0) = Some x -> va0 < TRAPFRAME ->
  Z.testbit x 4 = true -> 0 <= o < PGSIZE ->
  uload σ w r (va0 + o) = Some (mget (m_mem σ) (PTE2PA x + o)).
Proof.
  intros R U Hx Hva HU Ho. destruct (user_page _ _ _ _ _ R U Hx Hva) as (_ & (_ & H0 & H1) & _).
  destruct (leaf_node _ _ _ _ _ R Hx) as ([Hal _] & _). unfold uload.
  rewrite page_of_off, Hx, H0, H1, HU by done. cbn [andb].
  replace ((va0 + o) mod PGSIZE) with o; [done|]. unfold aligned, PGSIZE in *. dlia.
Qed.

(** ** [copyout] *)

(** User code can read this address. *)
Definition can_read (σ : machine) (w : world) (r va : Z) : Prop := va < TRAPFRAME /\ is_Some (uload σ w r va).
(** The page of [va] is shared copy-on-write and there is no page for a copy. *)
Definition no_copy (w : world) (r va : Z) : Prop :=
  w_free w = [] /\ exists y, w_leaf w !! (r, page_of va) = Some y /\ Z.testbit y 8 = true /\ 1 < urefs (w_leaf w) (PTE2PA y).

Definition copyout_post (σ : machine) (w : world) (r d : Z) (bs : list Z) (v : Z) (σ' : machine) : Prop :=
  exists w', rep σ' w' /\ user_ok σ' w' /\ w_node w' !! (r, []) = Some r /\
    ((v = 0 /\ cow_ok w' /\ written σ w r d bs σ' w' /\
      forall i, (i < length bs)%nat -> can_read σ w r (d + Z.of_nat i)) \/
     (v = -1 /\ exists k, (k < length bs)%nat /\ written σ w r d (take k bs) σ' w' /\
      (~ can_read σ w r (d + Z.of_nat k) \/ no_copy w' r (d + Z.of_nat k)))).

(** The page the bytes go to, and the state in which they are stored. *)
Lemma copyout_page_wp σ w r va0 x (Q : Z -> machine -> Prop) :
  rep σ w -> user_ok σ w -> cow_ok w -> w_leaf w !! (r, va0) = Some x -> va0 < TRAPFRAME ->
  Z.testbit x 4 = true -> Z.testbit x 2 = true \/ Z.testbit x 8 = true ->
  (forall σ' w', rep σ' w' -> user_ok σ' w' -> same_view σ w σ' w' ->
     w_node w' !! (r, []) = Some r -> Z.testbit x 8 = true -> w_free w' = [] ->
     (exists y, w_leaf w' !! (r, va0) = Some y /\ Z.testbit y 8 = true /\ 1 < urefs (w_leaf w') (PTE2PA y)) -> Q 0 σ') ->
  (forall v σ' w' y, rep σ' w' -> user_ok σ' w' -> cow_ok w' -> same_view σ w σ' w' ->
     (forall r' p, (r', p) <> (r, va0) -> w_leaf w' !! (r', p) = w_leaf w !! (r', p)) ->
     w_leaf w' !! (r, va0) = Some y -> PTE2PA y = v -> Z.testbit y 4 = true ->
     urefs (w_leaf w') v = 1 -> v <> 0 -> Q v σ') ->
  wp (if Z.testbit x 8 then cow_alloc r va0 else mret (PTE2PA x)) σ Q.
Proof.
  intros R U C Hx Hva HU HW Hfail HQ.
  destruct (user_page _ _ _ _ _ R U Hx Hva) as (Hok & Hwf & _).
  destruct (Z.testbit x 8) eqn:H8.
  - apply (cow_alloc_wp σ w r va0 x _ R U Hx Hva).
    + intros v σ' w' P Hv _. destruct (p_leaf _ _ _ _ _ _ _ P) as (y & El & Ey & _ & Hperm & H1).
      apply (HQ v σ' w' y); try done.
      * apply P.
      * apply P.
      * by apply (p_cow _ _ _ _ _ _ _ P).
      * apply P.
      * intros r' p Hne. by rewrite El, lookup_insert_ne.
      * by rewrite El, lookup_insert_eq.
      * destruct (Hperm x Hx) as (_ & _ & ->). done.
    + intros σ' Hf Hm R' U' X'.
      assert (w_leaf (w_setleaf w r va0 (Z.lor x PTE_W)) = <[(r, va0) := Z.lor x PTE_W]> (w_leaf w)) as El
        by (cbn; apply set_leaf_insert; auto with xv6).
      apply (Hfail σ' _ R' U'); [| |done|done|].
      * eapply (view_setflags r _ _ _ _ r va0 x (Z.lor x PTE_W)); try done; [apply lor_W_pa|].
        unfold same_perm. by rewrite !lor_W_bit by lia.
      * by apply (leaf_node _ _ _ _ _ R Hx).
      * exists (Z.lor x PTE_W). rewrite El, lookup_insert_eq, lor_W_bit by lia. split; [done|]. split; [done|].
        by rewrite (urefs_insert _ _ _ x), lor_W_pa by (done || apply lor_W_pa).
  - destruct HW as [HW|HW]; [|done]. wp_step. pose proof (page_ok_range _ Hok).
    apply (HQ _ σ w x); try done.
    + by eapply C.
    + unfold KERNBASE in *. lia.
Qed.

Lemma page_of_next d : page_of (page_of d + PGSIZE) = page_of d + PGSIZE.
Proof. unfold page_of, PGSIZE. dlia. Qed.

Lemma copyout_wp σ w r d bs :
  rep σ w -> user_ok σ w -> cow_ok w -> w_node w !! (r, []) = Some r ->
  0 <= d < 2 ^ 64 -> Z.of_nat (length bs) < 2 ^ 64 -> Forall is_byte bs ->
  writable w r d (d + Z.of_nat (length bs)) ->
  wp (copyout r d bs) σ (copyout_post σ w r d bs).
Proof.
  intros R U C Hr Hd Hlen Hbs Hwr. unfold copyout.
  set (hi := d + Z.of_nat (length bs)) in *.
  apply (wp_loop _ (fun n '(d1, src) σ1 => n = length src /\ exists k w1,
    (k <= length bs)%nat /\ src = drop k bs /\ 0 <= d1 < 2 ^ 64 /\ ((0 < n)%nat -> d1 = d + Z.of_nat k) /\
    rep σ1 w1 /\ user_ok σ1 w1 /\ cow_ok w1 /\ w_node w1 !! (r, []) = Some r /\
    written σ w r d (take k bs) σ1 w1 /\ writable w1 r d1 hi /\
    forall i, (i < k)%nat -> can_read σ w r (d + Z.of_nat i)) _ _ (length bs)).
  2:{ split; [done|]. exists 0%nat, w. repeat (split; [lia || done|]). split; [by apply written_nil|]. split; [done|lia]. }
  2:{ unfold page_fuel. lia. }
  intros n [d1 src] σ1 (-> & k & w1 & Hk & -> & Hd1r & Hd1 & R1 & U1 & C1 & Hr1 & W1 & Hwr1 & Hrd).
  rewrite length_drop in *.
  destruct (Z.gtb_spec (Z.of_nat (length bs - k)) 0) as [Hpos|Hz].
  2:{ wp_step. exists w1. split; [done|]. split; [done|]. split; [done|]. left. split; [done|]. split; [done|].
      rewrite take_ge in W1 by lia. split; [done|]. intros i Hi. apply Hrd. lia. }
  specialize (Hd1 ltac:(lia)). assert (TRAPFRAME = 2 ^ 38 - 8192) as ET by done.
  pose proof (page_split d1) as Hsplit. assert (0 <= d1 mod PGSIZE < PGSIZE) as Hmod by (unfold PGSIZE; dlia).
  assert (forall o, 0 <= o -> d1 + o < TRAPFRAME -> uload σ1 w1 r (d1 + o) = uload σ w r (d1 + o)) as Hsame1.
  { intros o Ho Hlt. rewrite W1, decide_False by (done || rewrite length_take; lia). done. }
  wp_step. apply (walkaddr_user_wp σ1 w1); try done.
  { intros Hno. rewrite Z.eqb_refl. wp_step. exists w1. split; [done|]. split; [done|]. split; [done|]. right.
    split; [done|]. exists k. split; [lia|]. split; [done|]. left. rewrite <- Hd1. intros [Hlt [b Hb]].
    pose proof (Hsame1 0) as E0. rewrite Z.add_0_r, Hb, (Hno Hlt) in E0. by discriminate E0; lia. }
  intros x Hx Htf HU4 Hnz. rewrite (proj2 (Z.eqb_neq _ 0) Hnz), PGROUNDDOWN_eq by done. fold (page_of d1).
  destruct (user_page _ _ _ _ _ R1 U1 Hx Htf) as (Hok & Hwf & _).
  wp_step. apply (is_cowpage_wp σ1 w1 r _ x _ R1 Hx). wp_step.
  apply (copyout_page_wp σ1 w1 r (page_of d1) x); try done.
  { apply (Hwr1 (page_of d1) x Hx); [unfold hi; lia|done]. }
  { intros σ2 w2 R2 U2 V2 Hr2 -> Hf2 Hs2. rewrite Z.eqb_refl. cbn [andb]. wp_step. exists w2.
    split; [done|]. split; [done|]. split; [done|]. right. split; [done|]. exists k. split; [lia|]. split.
    - intros r' va Hlt'. rewrite <- W1 by done. by apply V2.
    - right. rewrite <- Hd1. by split. }
  intros v σ2 w2 y R2 U2 C2 V2 Hsame Hy Ey HU2 H1 Hv.
  rewrite (proj2 (Z.eqb_neq v 0) Hv), andb_false_r.
  set (n := if PGSIZE - (d1 - page_of d1) >? Z.of_nat (length bs - k)
    then Z.of_nat (length bs - k) else PGSIZE - (d1 - page_of d1)).
  assert (n = Z.min (PGSIZE - d1 mod PGSIZE) (Z.of_nat (length bs - k))) as En.
  { unfold n. destruct (Z.gtb_spec (PGSIZE - (d1 - page_of d1)) (Z.of_nat (length bs - k))); lia. }
  replace (d1 - page_of d1) with (d1 mod PGSIZE) by lia. clearbody n.
  set (piece := take (Z.to_nat n) (drop k bs)).
  assert (length piece = Z.to_nat n) as Hlp by (unfold piece; rewrite length_take, length_drop; lia).
  do 2 wp_step. subst v.
  destruct (write_page σ2 w2 r (page_of d1) y (d1 mod PGSIZE) piece) as (R3 & U3 & W3); try done; [lia|lia| |].
  { by apply Forall_take, Forall_drop. }
  wp_step. exists (length bs - (k + Z.to_nat n))%nat. split; [lia|].
  rewrite drop_drop, length_drop. split; [lia|]. exists (k + Z.to_nat n)%nat, w2.
  split; [lia|]. split; [done|]. unfold u64. rewrite Z.mod_small by (unfold PGSIZE in *; lia).
  split; [unfold PGSIZE in *; lia|]. split; [lia|]. split; [done|]. split; [done|]. split; [done|].
  destruct (leaf_node _ _ _ _ _ R2 Hy) as (_ & Hr2 & _). split; [done|]. split.
  - replace (take (k + Z.to_nat n) bs) with (take k bs ++ piece)
      by (unfold piece; by rewrite take_take_drop).
    eapply written_app; [exact W1|]. eapply written_view; [exact V2|].
    rewrite length_take, Nat.min_l by lia. rewrite <- Hd1. rewrite <- Hsplit in W3. exact W3.
  - split.
    + intros p z Hz Hp. rewrite page_of_next in Hp. rewrite Hsame in Hz by (intros [= ->]; unfold PGSIZE in *; lia).
      apply (Hwr1 p z Hz). unfold PGSIZE in *. lia.
    + intros i Hi. destruct (decide (i < k)%nat) as [Hik|Hik]; [by apply Hrd|].
      assert (page_of d1 + PGSIZE <= TRAPFRAME) as Hpt.
      { pose proof (proj1 (leaf_node _ _ _ _ _ R1 Hx)) as [Hal _]. pose proof TRAPFRAME_aligned. unfold aligned, PGSIZE in *. dlia. }
      replace (d + Z.of_nat i) with (d1 + Z.of_nat (i - k)) by lia. split; [lia|]. rewrite <- Hsame1 by lia.
      replace (d1 + Z.of_nat (i - k)) with (page_of d1 + (d1 mod PGSIZE + Z.of_nat (i - k))) by lia.
      rewrite (uload_page σ1 w1 r (page_of d1) x) by (done || lia). by eexists.
Qed.

(** ** [copyin] *)

(** User code sees exactly these bytes from [s] on. *)
Definition sees (σ : machine) (w : world) (r s : Z) (bs : list Z) : Prop :=
  forall i, (i < length bs)%nat -> uload σ w r (s + Z.of_nat i) = bs !! i.

Lemma sees_app σ w r s bs1 bs2 :
  sees σ w r s bs1 -> sees σ w r (s + Z.of_nat (length bs1)) bs2 -> sees σ w r s (bs1 ++ bs2).
Proof.
  intros S1 S2 i Hi. rewrite length_app in Hi.
  destruct (decide (i < length bs1)%nat) as [Hl|Hl].
  - rewrite lookup_app_l by done. by apply S1.
  - rewrite lookup_app_r by lia. rewrite <- S2 by lia. f_equal. lia.
Qed.

Lemma sees_page σ w r va0 x o n :
  rep σ w -> user_ok σ w -> w_leaf w !! (r, va0) = Some x -> va0 < TRAPFRAME ->
  Z.testbit x 4 = true -> 0 <= o -> o + Z.of_nat n <= PGSIZE ->
  sees σ w r (va0 + o) (read_bytes (m_mem σ) (PTE2PA x + o) n).
Proof.
  intros R U Hx Hva HU Ho Hn i Hi. rewrite read_bytes_length in Hi.
  unfold read_bytes. rewrite list_lookup_fmap, lookup_seq_lt by done. cbn.
  rewrite <- Z.add_assoc. rewrite (uload_page σ w r va0 x) by (done || lia).
  by rewrite Z.add_assoc.
Qed.

Definition copyin_post (σ : machine) (w : world) (r s len : Z) (res : Z * list Z) (σ' : machine) : Prop :=
  σ' = σ /\ sees σ w r s res.2 /\
  ((res.1 = 0 /\ Z.of_nat (length res.2) = len) \/
   (res.1 = -1 /\ exists i, 0 <= i < len /\ (s + i < TRAPFRAME -> uload σ w r (s + i) = None))).

Lemma copyin_wp σ w r s len :
  rep σ w -> user_ok σ w -> w_node w !! (r, []) = Some r ->
  0 <= s < 2 ^ 64 -> 0 <= len < 2 ^ 64 ->
  wp (copyin r s len) σ (copyin_post σ w r s len).
Proof.
  intros R U Hr Hs Hlen. unfold copyin. assert (TRAPFRAME = 2 ^ 38 - 8192) as ET by done.
  apply (wp_loop _ (fun n '(s1, l1, dst) σ1 => σ1 = σ /\ l1 = Z.of_nat n /\ 0 <= s1 < 2 ^ 64 /\
    Z.of_nat (length dst) + l1 = len /\ (0 < l1 -> s1 = s + Z.of_nat (length dst)) /\
    sees σ w r s dst) _ _ (Z.to_nat len)).
  2:{ split; [done|]. split; [lia|]. split; [done|]. split; [cbn; lia|]. split; [cbn; lia|]. intros i Hi. cbn in Hi. lia. }
  2:{ unfold page_fuel. lia. }
  intros n [[s1 l1] dst] σ1 (-> & -> & Hs1 & Hl & Es & Hsees).
  wp_step; bool_to_prop.
  2:{ wp_step. split; [done|]. split; [done|]. left. cbn. split; [done|lia]. }
  specialize (Es ltac:(lia)). pose proof (page_split s1) as Hsplit.
  assert (0 <= s1 mod PGSIZE < PGSIZE) as Hmod by (unfold PGSIZE; dlia).
  wp_step. apply (walkaddr_user_wp σ w); try done.
  { intros Hno. rewrite Z.eqb_refl. wp_step. split; [done|]. split; [done|]. right. split; [done|].
    exists (Z.of_nat (length dst)). split; [lia|]. by rewrite <- Es. }
  intros x Hx Htf HU4 Hnz. rewrite (proj2 (Z.eqb_neq _ 0) Hnz), PGROUNDDOWN_eq by done. fold (page_of s1).
  set (m := if PGSIZE - (s1 - page_of s1) >? Z.of_nat n then Z.of_nat n else PGSIZE - (s1 - page_of s1)).
  assert (m = Z.min (PGSIZE - s1 mod PGSIZE) (Z.of_nat n)) as Em.
  { unfold m. destruct (Z.gtb_spec (PGSIZE - (s1 - page_of s1)) (Z.of_nat n)); lia. }
  clearbody m. replace (s1 - page_of s1) with (s1 mod PGSIZE) by lia. do 3 wp_step.
  exists (n - Z.to_nat m)%nat. split; [lia|]. split; [done|]. split; [lia|].
  unfold u64. rewrite Z.mod_small by (unfold PGSIZE in *; lia). split; [unfold PGSIZE in *; lia|].
  rewrite length_app, read_bytes_length. split; [lia|]. split; [lia|].
  apply sees_app; [done|]. rewrite <- Es, Hsplit at 1. apply sees_page; try done; lia.
Qed.

(** Inside one page [copyin] copies all or nothing. *)
Lemma copyin_page σ w r s len :
  rep σ w -> user_ok σ w -> w_node w !! (r, []) = Some r ->
  0 <= s < 2 ^ 64 -> 0 <= len -> s mod PGSIZE + len <= PGSIZE ->
  wp (copyin r s len) σ (fun res σ' => σ' = σ /\
    ((res.1 = 0 /\ Z.of_nat (length res.2) = len) \/ res = (-1, []))).
Proof.
  intros R U Hr Hs Hlen Hpage. unfold copyin.
  apply (wp_loop _ (fun n '(s1, l1, dst) σ1 => σ1 = σ /\
    ((n = 1%nat /\ s1 = s /\ l1 = len /\ dst = []) \/ (n = 0%nat /\ l1 = 0 /\ Z.of_nat (length dst) = len))) _ _ 1%nat).
  2:{ split; [done|]. by left. }
  2:{ unfold page_fuel. lia. }
  intros n [[s1 l1] dst] σ1 [-> [(-> & -> & -> & ->)|(-> & -> & Hd)]].
  2:{ cbn [Z.gtb Z.compare]. wp_step. split; [done|]. by left. }
  wp_step; bool_to_prop.
  2:{ wp_step. split; [done|]. left. split; [done|]. cbn. lia. }
  wp_step. apply (walkaddr_user_wp σ w); try done.
  { intros _. rewrite Z.eqb_refl. wp_step. split; [done|]. by right. }
  intros x Hx Htf HU4 Hnz. rewrite (proj2 (Z.eqb_neq _ 0) Hnz), PGROUNDDOWN_eq by done.
  assert (s - s / PGSIZE * PGSIZE = s mod PGSIZE) as -> by (unfold PGSIZE; dlia).
  assert ((if PGSIZE - s mod PGSIZE >? len then len else PGSIZE - s mod PGSIZE) = len) as ->.
  { destruct (Z.gtb_spec (PGSIZE - s mod PGSIZE) len); lia. }
  do 2 wp_step. exists 0%nat. split; [lia|]. split; [done|]. right. split; [done|]. split; [lia|].
  cbn [app]. rewrite read_bytes_length. lia.
Qed.

(** ** [copyinstr] *)

Lemma copyinstr_page_spec m p n max dst :
  let '(got, max', dst') := copyinstr_page m p n max dst in
  exists k, (k <= n)%nat /\
    (forall i, (i < k)%nat -> mget m (p + Z.of_nat i) <> 0) /\
    if got then (k < n)%nat /\ mget m (p + Z.of_nat k) = 0 /\
      dst' = dst ++ read_bytes m p (S k) /\ max' = max - Z.of_nat k
    else k = n /\ dst' = dst ++ read_bytes m p n /\ max' = max - Z.of_nat n.
Proof.
  revert p max dst. induction n as [|n IH]; intros p max dst; cbn [copyinstr_page].
  - exists 0%nat. split; [done|]. split; [lia|]. rewrite app_nil_r. split; [done|]. split; [done|lia].
  - destruct (Z.eqb_spec (mget m p) 0) as [E|E].
    + exists 0%nat. split; [lia|]. split; [lia|]. rewrite Z.add_0_r. split; [lia|]. split; [done|].
      split; [|lia]. cbn. by rewrite Z.add_0_r, E.
    + specialize (IH (p + 1) (max - 1) (dst ++ [mget m p])).
      destruct (copyinstr_page m (p + 1) n (max - 1) (dst ++ [mget m p])) as [[got max'] dst'].
      destruct IH as (k & Hk & Hnz & IH). exists (S k). split; [lia|]. split.
      { intros [|i] Hi; [by rewrite Z.add_0_r|].
        replace (p + Z.of_nat (S i)) with (p + 1 + Z.of_nat i) by lia. apply Hnz. lia. }
      assert (forall j, [mget m p] ++ read_bytes m (p + 1) j = read_bytes m p (S j)) as Hr.
      { intros j. change (S j) with (1 + j)%nat. rewrite read_bytes_app. f_equal. cbn. by rewrite Z.add_0_r. }
      destruct got.
      * destruct IH as (Hkn & Hz & -> & ->). split; [lia|].
        replace (p + Z.of_nat (S k)) with (p + 1 + Z.of_nat k) by lia. split; [done|].
        rewrite <- app_assoc, Hr. split; [done|lia].
      * destruct IH as (-> & -> & ->). split; [lia|]. rewrite <- app_assoc, Hr. split; [done|lia].
Qed.

Definition copyinstr_post (σ : machine) (w : world) (r s max : Z) (res : Z * list Z) (σ' : machine) : Prop :=
  σ' = σ /\ sees σ w r s res.2 /\
  ((res.1 = 0 /\ exists str, res.2 = str ++ [0] /\ Forall (fun b => b <> 0) str /\
      Z.of_nat (length res.2) <= max) \/
   (res.1 = -1 /\ Forall (fun b => b <> 0) res.2 /\
      (Z.of_nat (length res.2) = max \/
       exists i, 0 <= i < max /\ (s + i < TRAPFRAME -> uload σ w r (s + i) = None)))).

Lemma read_bytes_nonzero m p n :
  (forall i, (i < n)%nat -> mget m (p + Z.of_nat i) <> 0) ->
  Forall (fun b => b <> 0) (read_bytes m p n).
Proof.
  intros H. apply Forall_lookup. intros i b Hb. unfold read_bytes in Hb.
  rewrite list_lookup_fmap in Hb. apply fmap_Some in Hb as (j & Hj & ->).
  apply lookup_seq in Hj as [-> Hj]. by apply H.
Qed.

Lemma copyinstr_wp σ w r s max :
  rep σ w -> user_ok σ w -> w_node w !! (r, []) = Some r ->
  0 <= s < 2 ^ 64 -> 0 <= max < 2 ^ 64 ->
  wp (copyinstr r s max) σ (copyinstr_post σ w r s max).
Proof.
  intros R U Hr Hs Hmax. unfold copyinstr. assert (TRAPFRAME = 2 ^ 38 - 8192) as ET by done.
  apply (wp_loop_var _ (fun '(s1, m1, got, dst) => if (got : bool) then 0 else m1 + 1)
    (fun '(s1, m1, got, dst) σ1 => σ1 = σ /\ 0 <= s1 < 2 ^ 64 /\ 0 <= m1 <= max /\
      sees σ w r s dst /\
      if (got : bool)
      then exists str, dst = str ++ [0] /\ Forall (fun b => b <> 0) str /\ Z.of_nat (length dst) <= max
      else Forall (fun b => b <> 0) dst /\ Z.of_nat (length dst) + m1 = max /\
        (0 < m1 -> s1 = s + Z.of_nat (length dst)))).
  2:{ split; [done|]. split; [done|]. split; [lia|]. split; [intros i Hi; cbn in Hi; lia|].
      split; [constructor|]. split; [cbn; lia|]. cbn. lia. }
  2:{ unfold page_fuel. lia. }
  intros [[[s1 m1] got] dst] σ1 (-> & Hs1 & Hm1 & Hsees & I).
  destruct got; cbn [negb andb].
  { wp_step. split; [done|]. split; [done|]. by left. }
  destruct I as (Hnz & Hl & Es). wp_step; bool_to_prop.
  2:{ wp_step. split; [done|]. split; [done|]. right. split; [done|]. split; [done|]. left. cbn. lia. }
  specialize (Es ltac:(lia)). pose proof (page_split s1) as Hsplit.
  assert (0 <= s1 mod PGSIZE < PGSIZE) as Hmod by (unfold PGSIZE; dlia).
  wp_step. apply (walkaddr_user_wp σ w); try done.
  { intros Hno. rewrite Z.eqb_refl. wp_step. split; [done|]. split; [done|]. right. split; [done|].
    split; [done|]. right. exists (Z.of_nat (length dst)). split; [lia|]. by rewrite <- Es. }
  intros x Hx Htf HU4 Hnzp. rewrite (proj2 (Z.eqb_neq _ 0) Hnzp), PGROUNDDOWN_eq by done. fold (page_of s1).
  set (m := if PGSIZE - (s1 - page_of s1) >? m1 then m1 else PGSIZE - (s1 - page_of s1)).
  assert (m = Z.min (PGSIZE - s1 mod PGSIZE) m1) as Em.
  { unfold m. destruct (Z.gtb_spec (PGSIZE - (s1 - page_of s1)) m1); lia. }
  clearbody m. replace (s1 - page_of s1) with (s1 mod PGSIZE) by lia. do 2 wp_step.
  pose proof (copyinstr_page_spec (m_mem σ) (PTE2PA x + s1 mod PGSIZE) (Z.to_nat m) m1 dst) as Hp.
  destruct (copyinstr_page _ _ _ _ _) as [[got' m1'] dst']. destruct Hp as (k & Hk & Hpnz & Hp).
  assert (forall j, (j <= Z.to_nat m)%nat ->
    sees σ w r s (dst ++ read_bytes (m_mem σ) (PTE2PA x + s1 mod PGSIZE) j)) as Hsee'.
  { intros j Hj. apply sees_app; [done|]. rewrite <- Es, Hsplit at 1. apply sees_page; try done; lia. }
  wp_step. unfold u64. rewrite Z.mod_small by (unfold PGSIZE in *; lia).
  destruct got'.
  - destruct Hp as (Hkm & Hz & -> & ->). split; [|lia]. split; [done|].
    split; [unfold PGSIZE in *; lia|]. split; [lia|]. split; [apply Hsee'; lia|].
    exists (dst ++ read_bytes (m_mem σ) (PTE2PA x + s1 mod PGSIZE) k).
    rewrite <- Nat.add_1_r, read_bytes_app, app_assoc. split; [|split].
    + f_equal. cbn. by rewrite Z.add_0_r, Hz.
    + apply Forall_app. split; [done|]. by apply read_bytes_nonzero.
    + rewrite !length_app, !read_bytes_length. lia.
  - destruct Hp as (-> & -> & ->). split; [|unfold PGSIZE in *; lia]. split; [done|].
    split; [unfold PGSIZE in *; lia|]. split; [lia|]. split; [by apply Hsee'|].
    rewrite length_app, read_bytes_length. split; [|lia].
    apply Forall_app. split; [done|]. by apply read_bytes_nonzero.
Qed.
End CopyOut.
