(* ===== verification/VmGrow.v ===== *)
(** * Growing and shrinking an address space: [uvmalloc], [uvmdealloc]

    kernel/vm.c, as [growproc] (kernel/proc.c) and [exec] (kernel/exec.c) use
    them.  A page that [uvmalloc] adds is zero, private to the address space
    and mapped with the given permission; when memory runs out on the way, the
    pages added so far are taken back. *)

From S2P Require Import Prelude Riscv Mem Kalloc Vm VmRep VmSpec Cow Fork CowFault.

Section Grow.
Context `{L : Layout}.

(** ** One page *)

(** A page [a] of the free list, zeroed, has been mapped at [va]. *)
Section Added.
Context (σ : machine) (w : world) (σ2 σ3 : machine) (w3 : world) (r va a perm : Z) (fl : list Z).
Context (R : rep σ w) (U : user_ok σ w) (Hfree : w_free w = a :: fl).
Context (R2 : rep σ2 (w_take w a fl)) (Hone : refcnt σ2 a = 1).
Context (Hrc2 : forall b, aligned b -> b <> a -> refcnt σ2 b = refcnt σ b).
Context (Hm2 : forall b, page_of b <> a -> mget (m_mem σ2) b = mget (m_mem σ) b).
Context (Hz2 : forall b, page_of b = a -> mget (m_mem σ2) b = 0).
Context (R3 : rep σ3 w3) (G3 : grow r σ2 (w_take w a fl) σ3 w3).

Lemma taken_page : w_kind w !! a = Some KFree /\ page_ok a /\ (a ∉ fl) /\ w_kind w3 !! a = Some KKern /\
  0 <= a < 2 ^ 56 /\ refcnt σ3 a = 1 /\ forall b, page_of b = a -> mget (m_mem σ3) b = 0.
Proof using All.
  assert (w_kind w !! a = Some KFree) as Hk by (apply (r_kfree _ _ R); rewrite Hfree; set_solver).
  pose proof (r_ok _ _ R _ _ Hk) as Hok. pose proof (page_ok_range a Hok) as Hr.
  pose proof (fr_nodup _ _ (r_free _ _ R)) as Hnd. rewrite Hfree in Hnd. apply NoDup_cons in Hnd as [Hnin _].
  split; [done|]. split; [done|]. split; [done|].
  split; [rewrite (g_kind _ _ _ _ _ G3) by done; cbn; by rewrite lookup_insert_eq|].
  split; [unfold PHYSTOP, KERNBASE, PGSIZE in *; lia|].
  split; [rewrite (g_rc _ _ _ _ _ G3); [done|apply Hok|done]|].
  intros b Hb. rewrite (g_mem _ _ _ _ _ G3); [by apply Hz2|]. cbn. by rewrite Hb, lookup_insert_eq.
Qed.

(** Page-table pages apart, only [a] left the free list. *)
Lemma taken_ext w4 : w_node w4 = w_node w3 ->
  (forall b, b ∈ w_free w4 -> b ∈ w_free w3 \/ b = a) ->
  (forall b, b <> a -> w_kind w4 !! b = w_kind w3 !! b) ->
  (a ∉ w_free w4 -> w_kind w4 !! a = Some KUser) -> (forall b, b ∈ w_free w3 -> b ∈ w_free w4) ->
  forall σ4, (forall b, page_of b <> a -> mget (m_mem σ4) b = mget (m_mem σ3) b) ->
  (forall b, aligned b -> b <> a -> refcnt σ4 b = refcnt σ3 b) -> ext r σ w σ4 w4.
Proof using All.
  intros En Hf Hk Ha Hf' σ4 Hm Hrc. destruct taken_page as (Hka & Hok & Hnin & _).
  assert (forall b, b ∉ w_free w -> b <> a /\ b ∉ fl) as Hnf by (intros b; rewrite Hfree; set_solver).
  split; rewrite ?En.
  - intros b [Hb| ->]%Hf; [|rewrite Hfree; set_solver]. apply (grow_sub _ _ _ _ _ _ G3) in Hb. rewrite Hfree. set_solver.
  - intros b [Hne Hb]%Hnf. rewrite Hk, (g_kind _ _ _ _ _ G3) by done. cbn. by rewrite lookup_insert_ne.
  - intros b Hb Hb'. destruct (decide (b = a)) as [->|Hne]; [left; by apply Ha|right].
    rewrite Hk by done. apply (g_new _ _ _ _ _ G3); [rewrite Hfree in Hb; cbn; set_solver|]. intros Hb3. by apply Hb', Hf'.
  - intros k v Hkv. by apply (g_node _ _ _ _ _ G3).
  - intros r' p Hne. by apply (g_other _ _ _ _ _ G3).
  - intros b Hb. assert (page_of b <> a) as Hne by (intros E; by rewrite E, Hka in Hb).
    rewrite Hm, (g_mem _ _ _ _ _ G3), Hm2 by (try done; cbn; by rewrite lookup_insert_ne). done.
  - intros b Hb. assert (b <> a) as Hne by congruence. pose proof (rep_kind_aligned R _ _ Hb) as Hal.
    assert (b ∉ w_free w) as Hbf by (by eapply kind_not_free). apply Hnf in Hbf as [_ Hbf].
    rewrite Hrc, (g_rc _ _ _ _ _ G3), Hrc2 by done. done.
Qed.

Context (El : w_leaf w3 = <[(r, va) := mkpte a perm]> (w_leaf w)) (Hnone : w_leaf w !! (r, va) = None).
Context (Hva : va < TRAPFRAME) (Hperm : 0 <= perm < 1024) (HR : Z.testbit perm 1 = true).

Lemma added_user_ok : user_ok σ3 (w_setkind w3 a KUser).
Proof using All.
  destruct taken_page as (Hka & Hok & Hnin & Hk3 & Har & Hrca & _). destruct Hok as [Hal _].
  pose proof (PTE2PA_mkpte a perm Har Hal Hperm) as Ey.
  assert (urefs (w_leaf w) a = 0) as H0 by (apply (urefs_zero σ); [done|congruence]).
  assert (forall b, b <> a -> w_kind w !! b = Some KUser <-> w_kind w3 !! b = Some KUser) as Hku.
  { intros b Hne. split; intros Hb.
    - assert (b ∉ w_free w) as Hbf by (by eapply kind_not_free). rewrite Hfree in Hbf.
      rewrite (g_kind _ _ _ _ _ G3) by (cbn; set_solver). cbn. by rewrite lookup_insert_ne.
    - apply (grow_user r σ2 (w_take w a fl) σ3 w3) in Hb; [|done|done]. cbn in Hb. by rewrite lookup_insert_ne in Hb. }
  split; cbn; rewrite ?El.
  - intros r' va' z [[[= <- <-] <-]|[_ Hz]]%lookup_insert_Some Hlt.
    + rewrite Ey, lookup_insert_eq. split; [|done]. split; [by apply mkpte_range|].
      split; [by rewrite mkpte_testbit, orb_true_r by lia|]. by rewrite mkpte_testbit, HR by lia.
    + destruct (u_leaf _ _ U _ _ _ Hz Hlt) as [Hwz Hkz]. split; [done|]. assert (PTE2PA z <> a) by congruence.
      rewrite lookup_insert_ne by done. by apply Hku.
  - intros b Hb. rewrite urefs_insert_new, Ey by done. apply lookup_insert_Some in Hb as [[<- _]|[Hne Hb]].
    + rewrite decide_True by done. lia.
    + apply Hku in Hb; [|done]. rewrite decide_False by done. destruct (u_rc _ _ U b Hb) as [Hr Hp].
      pose proof (rep_kind_aligned R _ _ Hb) as Hbal. assert (b ∉ w_free w) as Hbf by (by eapply kind_not_free).
      rewrite Hfree in Hbf. rewrite (g_rc _ _ _ _ _ G3), Hrc2 by (try done; cbn; set_solver). lia.
  - intros r' v1 z1 v2 z2 H1%lookup_insert_Some H2%lookup_insert_Some Hl1 Hl2 Hpa.
    destruct H1 as [[E1 <-]|[_ E1]], H2 as [[E2 <-]|[_ E2]]; simplify_eq; [done|..].
    + destruct (u_leaf _ _ U _ _ _ E2 Hl2) as [_ Hkz]. congruence.
    + destruct (u_leaf _ _ U _ _ _ E1 Hl1) as [_ Hkz]. congruence.
    + by eapply (u_once _ _ U).
  - intros r' va' z [[[= <- <-] <-]|[_ Hz]]%lookup_insert_Some; [lia|]. by apply (u_trap _ _ U r').
Qed.

Lemma added_urefs : urefs (w_leaf w3) a = 1.
Proof using All.
  destruct taken_page as (Hka & [Hal _] & _ & _ & Har & _). rewrite El, urefs_insert_new by done.
  rewrite PTE2PA_mkpte, decide_True by done. rewrite (urefs_zero σ w a U); [done|congruence].
Qed.

Lemma added_cow_ok : cow_ok w -> cow_ok (w_setkind w3 a KUser).
Proof using All.
  intros C r' va' z. cbn. destruct taken_page as (Hka & [Hal _] & _ & _ & Har & _). intros Hz Hlt HW.
  rewrite El in Hz. apply lookup_insert_Some in Hz as [[[= <- <-] <-]|[Hne Hz]].
  - rewrite PTE2PA_mkpte by done. apply added_urefs.
  - rewrite El, urefs_insert_new by done. rewrite PTE2PA_mkpte by done. rewrite decide_False; [|].
    + rewrite (C _ _ _ Hz Hlt HW). done.
    + intros E. destruct (u_leaf _ _ U _ _ _ Hz Hlt) as [_ Hkz]. congruence.
Qed.
End Added.

(** ** Many pages *)

(** [k] new pages at [base] in table [r]. *)
Record grown (r base perm : Z) (k : nat) (σ : machine) (w : world) (σ' : machine) (w' : world) : Prop := {
  gw_rep : rep σ' w';
  gw_user : user_ok σ' w';
  gw_ext : ext r σ w σ' w';
  gw_cow : cow_ok w -> cow_ok w';
  gw_len : (k + length (w_free w') <= length (w_free w))%nat;
  gw_other : forall r' va, (forall j, (j < k)%nat -> (r', va) <> (r, base + Z.of_nat j * PGSIZE)) ->
    w_leaf w' !! (r', va) = w_leaf w !! (r', va);
  gw_new : forall j, (j < k)%nat -> exists a, w_leaf w' !! (r, base + Z.of_nat j * PGSIZE) = Some (mkpte a perm) /\
    page_ok a /\ a ∈ w_free w /\ w_kind w' !! a = Some KUser /\ urefs (w_leaf w') a = 1 /\
    forall b, page_of b = a -> mget (m_mem σ') b = 0
}.

Lemma grown_0 r base perm σ w : rep σ w -> user_ok σ w -> grown r base perm 0 σ w σ w.
Proof. intros R U. split; try done. intros j Hj. lia. Qed.

(** A page in use keeps its mapping count when a new page is mapped. *)
Lemma grown_S r base perm k σ w σ1 w1 σ2 σ3 w3 a fl :
  let va := base + Z.of_nat k * PGSIZE in
  rep σ w -> grown r base perm k σ w σ1 w1 -> w_free w1 = a :: fl ->
  rep σ2 (w_take w1 a fl) -> refcnt σ2 a = 1 -> (forall b, aligned b -> b <> a -> refcnt σ2 b = refcnt σ1 b) ->
  (forall b, page_of b <> a -> mget (m_mem σ2) b = mget (m_mem σ1) b) ->
  (forall b, page_of b = a -> mget (m_mem σ2) b = 0) ->
  rep σ3 w3 -> grow r σ2 (w_take w1 a fl) σ3 w3 -> w_leaf w3 = <[(r, va) := mkpte a perm]> (w_leaf w1) ->
  w_leaf w1 !! (r, va) = None -> va < TRAPFRAME -> 0 <= perm < 1024 -> Z.testbit perm 1 = true ->
  grown r base perm (S k) σ w σ3 (w_setkind w3 a KUser).
Proof.
  intros va R [R1 U1 X1 C1 L1 O1 N1] Hfree R2 Hone Hrc2 Hm2 Hz2 R3 G3 El Hnone Hva Hperm HR.
  destruct (taken_page σ1 w1 σ2 σ3 w3 r va a perm fl R1 U1 Hfree R2 Hone Hrc2 Hm2 Hz2 R3 G3) as (Hka & Hok & Hnin & Hk3 & Har & Hrca & Hz3).
  pose proof (added_user_ok σ1 w1 σ2 σ3 w3 r va a perm fl R1 U1 Hfree R2 Hone Hrc2 Hm2 Hz2 R3 G3 El Hnone Hva Hperm HR) as U3.
  assert (ext r σ1 w1 σ3 (w_setkind w3 a KUser)) as X3.
  { eapply (taken_ext σ1 w1 σ2 σ3 w3 r va a perm fl); try done; cbn; [by left|intros b Hne; by rewrite lookup_insert_ne|by rewrite lookup_insert_eq]. }
  split.
  - by apply (rep_setkind σ3 w3 a KKern).
  - done.
  - exact (ext_trans _ _ _ _ _ _ _ R R1 X1 X3).
  - intros C. eapply (added_cow_ok σ1 w1 σ2 σ3 w3 r va a perm fl); try done. by apply C1.
  - cbn. destruct (g_free _ _ _ _ _ G3) as [pre E]. cbn in E. rewrite Hfree in L1. cbn in L1.
    rewrite E, length_app in L1. lia.
  - intros r' va' Hne. cbn. rewrite El, lookup_insert_ne.
    + apply O1. intros j Hj. apply Hne. lia.
    + intros E. apply (Hne k); [lia|done].
  - intros j Hj. cbn. destruct (decide (j = k)) as [->|Hjk].
    + exists a. rewrite El, lookup_insert_eq. split; [done|]. split; [done|].
      split; [apply (x_free _ _ _ _ _ X1); rewrite Hfree; set_solver|]. split; [by rewrite lookup_insert_eq|]. split; [|done].
      rewrite <- El. by eapply (added_urefs σ1 w1 σ2 σ3 w3 r va a perm fl).
    + destruct (N1 j) as (a' & Hl & Hok' & Hf' & Hku & Hu & Hz); [lia|]. exists a'.
      assert (a' <> a) as Hne by congruence. assert (a' ∉ w_free w1) as Hnf by (by eapply kind_not_free).
      rewrite El, lookup_insert_ne by (intros [= E]; unfold va, PGSIZE in *; lia).
      split; [done|]. split; [done|]. split; [done|]. split; [by rewrite (x_kind _ _ _ _ _ X3)|]. split.
      * rewrite urefs_insert_new by done. destruct Hok as [Hal _]. rewrite PTE2PA_mkpte, decide_False by done. lia.
      * intros b Hb. rewrite (x_mem _ _ _ _ _ X3); [by apply Hz|]. by rewrite Hb, Hku.
Qed.

(** The result 0: all pages are back, only page-table pages may have been added. *)
Record regained (r : Z) (σ : machine) (w : world) (σ' : machine) (w' : world) : Prop := {
  rg_rep : rep σ' w';
  rg_user : user_ok σ' w';
  rg_ext : ext r σ w σ' w';
  rg_cow : cow_ok w -> cow_ok w';
  rg_leaf : w_leaf w' = w_leaf w
}.

Lemma regained_user r σ w σ' w' a : user_ok σ w -> regained r σ w σ' w' -> w_kind w' !! a = Some KUser -> w_kind w !! a = Some KUser.
Proof.
  intros U [R' U' X' _ El] Ha. destruct (u_rc _ _ U' a Ha) as [Hr Hp]. rewrite El in Hr.
  destruct (decide (w_kind w !! a = Some KUser)) as [|Hn]; [done|]. rewrite (urefs_zero σ w a U Hn) in Hr. lia.
Qed.

(** ** [uvmdealloc] *)

(** Pages between two sizes. *)
Definition pages_between (lo hi : Z) : nat := Z.to_nat ((PGROUNDUP hi - PGROUNDUP lo) / PGSIZE).

Lemma TRAPFRAME_eq : TRAPFRAME = 2 ^ 38 - 8192.
Proof. done. Qed.

Lemma PGROUNDUP_TRAPFRAME sz : 0 <= sz <= TRAPFRAME -> aligned (PGROUNDUP sz) /\ sz <= PGROUNDUP sz <= TRAPFRAME /\ PGROUNDUP sz < sz + PGSIZE.
Proof.
  intros H. rewrite TRAPFRAME_eq in *. destruct (PGROUNDUP_spec sz) as [Ha Hr]; [unfold PGSIZE; lia|].
  split; [done|]. unfold aligned, PGSIZE in *. dlia.
Qed.

Lemma uvmdealloc_wp σ w r oldsz newsz (Q : Z -> machine -> Prop) :
  rep σ w -> user_ok σ w -> 0 <= newsz -> 0 <= oldsz <= TRAPFRAME ->
  (newsz < oldsz -> mapped w r (PGROUNDUP newsz) (pages_between newsz oldsz)) ->
  (oldsz <= newsz -> Q oldsz σ) ->
  (newsz < oldsz -> forall σ', let w' := w_unmaps w r (PGROUNDUP newsz) (pages_between newsz oldsz) in
     rep σ' w' -> user_ok σ' w' -> shrink σ w σ' w' -> Q newsz σ') ->
  wp (uvmdealloc r oldsz newsz) σ Q.
Proof.
  intros R U Hn Ho Hm HQ1 HQ2. unfold uvmdealloc. rewrite Z.geb_leb. wp_step; bool_to_prop; [wp_step; by apply HQ1|].
  destruct (PGROUNDUP_TRAPFRAME newsz) as (Ha & Hr & _); [lia|]. destruct (PGROUNDUP_TRAPFRAME oldsz) as (Ha' & Hr' & _); [lia|].
  specialize (HQ2 ltac:(lia)). specialize (Hm ltac:(lia)). unfold pages_between in *. set (k := Z.to_nat _) in *.
  wp_step. wp_step; bool_to_prop.
  - assert (u64 (i32 ((PGROUNDUP oldsz - PGROUNDUP newsz) / PGSIZE)) = Z.of_nat k) as ->.
    { unfold k, i32, sgn, u64, aligned, PGSIZE in *. rewrite TRAPFRAME_eq in *.
      rewrite (Z.mod_small _ (2 ^ 32)) by dlia. rewrite (proj2 (Z.ltb_lt _ _)) by dlia. dlia. }
    apply (uvmunmap_wp σ w r _ k); [done|done|done|lia|unfold k, aligned, PGSIZE in *; dlia|done|].
    intros σ' R' U' S'. wp_step. by apply HQ2.
  - wp_step. wp_step. assert (k = 0%nat) as E by (unfold k, aligned, PGSIZE in *; dlia). rewrite E in HQ2.
    apply HQ2; [done|done|apply shrink_refl].
Qed.

(** ** [uvmalloc] *)

(** A user page is mapped somewhere. *)
Lemma used_page σ w a : user_ok σ w -> w_kind w !! a = Some KUser ->
  exists r va x, w_leaf w !! (r, va) = Some x /\ va < TRAPFRAME /\ PTE2PA x = a.
Proof.
  intros U Ha. destruct (u_rc _ _ U a Ha) as [Hrc Hpos]. rewrite Hrc in Hpos.
  destruct (decide (map_Forall (fun k x => ~ is_ref a (k, x)) (w_leaf w))) as [Hall|Hex].
  - unfold urefs in Hpos. rewrite cnt_zero in Hpos; [lia|]. intros k' x Hx. by apply Hall.
  - apply map_not_Forall in Hex as ([r' va] & x & Hx & Hex); [|apply _]. apply dec_stable in Hex as [Hlt Hpa]. cbn in *. eauto 10.
Qed.

Lemma grown_undo r base perm k σ w σ1 w1 σ2 : rep σ w -> user_ok σ w -> grown r base perm k σ w σ1 w1 ->
  (forall j, (j < k)%nat -> w_leaf w !! (r, base + Z.of_nat j * PGSIZE) = None) ->
  rep σ2 (w_unmaps w1 r base k) -> user_ok σ2 (w_unmaps w1 r base k) -> shrink σ1 w1 σ2 (w_unmaps w1 r base k) ->
  regained r σ w σ2 (w_unmaps w1 r base k).
Proof.
  intros R U [R1 U1 X1 C1 L1 O1 N1] Hnone R2 U2 S2. set (w2 := w_unmaps w1 r base k) in *.
  assert (w_leaf w2 = w_leaf w) as El.
  { apply map_eq. intros [r' va]. destruct (decide (Exists (fun j => (r', va) = (r, base + Z.of_nat j * PGSIZE)) (seq 0 k))) as [H|H].
    - apply Exists_exists in H as (j & [_ Hj]%elem_of_seq & [= -> ->]). unfold w2. rewrite w_unmaps_eq by done. by rewrite Hnone.
    - assert (forall j, (j < k)%nat -> (r', va) <> (r, base + Z.of_nat j * PGSIZE)) as H'.
      { intros j Hj E. apply H, Exists_exists. exists j. split; [apply elem_of_seq; lia|done]. }
      unfold w2. rewrite w_unmaps_ne by done. by apply O1. }
  assert (forall a, w_kind w !! a = Some KUser -> w_kind w2 !! a = Some KUser) as Hku.
  { intros a Ha. destruct (used_page σ w a U Ha) as (r' & va & x & Hx & Hlt & <-).
    rewrite <- El in Hx. by apply (u_leaf _ _ U2 _ _ _ Hx). }
  assert (forall a, a ∉ w_free w -> w_kind w2 !! a = w_kind w !! a) as Hk2.
  { intros a Ha. rewrite <- (x_kind _ _ _ _ _ X1 a Ha). destruct (s_kind _ _ _ _ S2 a) as [E|[E1 E2]]; [done|].
    rewrite (x_kind _ _ _ _ _ X1 a Ha) in E1. apply Hku in E1. congruence. }
  assert (forall a, a ∈ w_free w -> a ∉ w_free w2 -> (a ∉ w_free w1) /\ w_kind w2 !! a = w_kind w1 !! a) as Hnew.
  { intros a Ha Ha2. destruct (s_kind _ _ _ _ S2 a) as [E|[_ E]]; [|by apply (r_kfree _ _ R2) in E].
    split; [|done]. intros Ha1%(rep_free_kind R1). rewrite Ha1 in E. by apply (r_kfree _ _ R2) in E. }
  split; [done|done| |by intros C; apply cow_ok_unmaps, C1|done]. split.
  - intros a Ha. destruct (decide (a ∈ w_free w)) as [|Hn]; [done|]. apply (rep_free_kind R2) in Ha. rewrite (Hk2 a Hn) in Ha.
    by apply (r_kfree _ _ R).
  - done.
  - intros a Ha Ha2. destruct (Hnew a Ha Ha2) as [Ha1 ->]. by apply (x_new _ _ _ _ _ X1).
  - intros k' v Hk. rewrite (s_node _ _ _ _ S2). by apply (x_node _ _ _ _ _ X1).
  - intros r' p Hne. rewrite (s_node _ _ _ _ S2). by apply (x_other _ _ _ _ _ X1).
  - intros b Hb. pose proof (meta_not_free _ _ _ R Hb) as Hnf. rewrite (s_mem _ _ _ _ S2), (x_mem _ _ _ _ _ X1); try done.
    by rewrite Hk2.
  - intros a Ha. assert (a ∉ w_free w) as Hnf by (by eapply kind_not_free).
    rewrite (s_rc _ _ _ _ S2), (x_kern _ _ _ _ _ X1); try done. by rewrite (x_kind _ _ _ _ _ X1).
Qed.

Lemma unmaps_len w r va k : (length (w_free (w_unmaps w r va k)) <= k + length (w_free w))%nat.
Proof.
  induction k as [|k IH]; [done|]. cbn. unfold w_unmap. destruct (_ !! _) as [x|]; [|lia]. cbn.
  case_decide; cbn; lia.
Qed.

(** Pages from [base] up to [newsz]. *)
Definition pages_up (base newsz : Z) : nat := Z.to_nat ((newsz - base + PGSIZE - 1) / PGSIZE).

Section Alloc.
Context (σ : machine) (w : world) (r oldsz newsz xperm : Z).
Let base := PGROUNDUP oldsz.
Let perm := Z.lor (Z.lor PTE_R PTE_U) xperm.
Let K := pages_up base newsz.
Context (R : rep σ w) (U : user_ok σ w) (Hr : w_node w !! (r, []) = Some r).
Context (Ho : 0 <= oldsz <= TRAPFRAME) (Hn : newsz < 2 ^ 64) (Hperm : 0 <= perm < 1024).
Context (Hroom : newsz <= TRAPFRAME \/ base + Z.of_nat (length (w_free w)) * PGSIZE <= TRAPFRAME).
Context (Hnone : forall j, base + Z.of_nat j * PGSIZE < newsz -> base + Z.of_nat j * PGSIZE < TRAPFRAME ->
  w_leaf w !! (r, base + Z.of_nat j * PGSIZE) = None).

Lemma base_ok : aligned base /\ 0 <= base <= TRAPFRAME.
Proof using All. destruct (PGROUNDUP_TRAPFRAME oldsz Ho) as (? & ? & _). unfold base. split; [done|lia]. Qed.

Lemma perm_R : Z.testbit perm 1 = true.
Proof using All. unfold perm. by rewrite !Z.lor_spec. Qed.

(** The page that the loop is about to map lies below the trapframe. *)
Lemma next_page i σ1 w1 : grown r base perm i σ w σ1 w1 -> w_free w1 <> [] -> base + Z.of_nat i * PGSIZE < newsz ->
  base + Z.of_nat i * PGSIZE < TRAPFRAME /\ va_ok (base + Z.of_nat i * PGSIZE) /\
  w_leaf w1 !! (r, base + Z.of_nat i * PGSIZE) = None.
Proof using All.
  intros G Hf Hlt. destruct base_ok as [Hal Hb]. pose proof (gw_len _ _ _ _ _ _ _ _ G) as Hlen.
  destruct (w_free w1) as [|a fl] eqn:Ef; [done|]. cbn in Hlen.
  assert (base + Z.of_nat i * PGSIZE < TRAPFRAME) as Ht.
  { destruct Hroom as [?|Hrm]; [lia|]. unfold PGSIZE in *. lia. }
  split; [done|]. split.
  - rewrite TRAPFRAME_eq in Ht. assert (MAXVA = 2 ^ 38) by done. unfold va_ok, aligned, PGSIZE in *. dlia.
  - rewrite (gw_other _ _ _ _ _ _ _ _ G); [by apply Hnone|]. intros j Hj [= E]. unfold PGSIZE in E. lia.
Qed.

Lemma top_page i σ1 w1 : grown r base perm i σ w σ1 w1 -> (i <= K)%nat -> base + Z.of_nat i * PGSIZE <= TRAPFRAME.
Proof using All.
  intros G HiK. destruct base_ok as [Hal Hb]. pose proof (gw_len _ _ _ _ _ _ _ _ G) as Hlen.
  destruct Hroom as [?|Hrm]; [|unfold PGSIZE in *; lia]. rewrite TRAPFRAME_eq in *.
  unfold K, pages_up, aligned, PGSIZE in *. dlia.
Qed.

(** Memory has run out after [i] pages. *)
Lemma undo_wp i σ1 w1 (Q : Z -> machine -> Prop) :
  grown r base perm i σ w σ1 w1 -> base + Z.of_nat i * PGSIZE <= TRAPFRAME ->
  (forall j, (j < i)%nat -> w_leaf w !! (r, base + Z.of_nat j * PGSIZE) = None) ->
  (forall σ' w', regained r σ w σ' w' -> (length (w_free w') <= i + length (w_free w1))%nat -> Q 0 σ') ->
  wp (uvmdealloc r (base + Z.of_nat i * PGSIZE) base;; mret (A := Z + Z) (inr 0)) σ1 (fun v σ' => match v with inr v => Q v σ' | inl _ => False end).
Proof using All.
  intros G Hi Hno HQ. destruct base_ok as [Hal Hb]. wp_step.
  assert (PGROUNDUP base = base) as Eb by (apply PGROUNDUP_aligned; [rewrite TRAPFRAME_eq in *; unfold PGSIZE; lia|done]).
  assert (aligned (base + Z.of_nat i * PGSIZE)) as Hal' by (unfold aligned, PGSIZE in *; dlia).
  assert (PGROUNDUP (base + Z.of_nat i * PGSIZE) = base + Z.of_nat i * PGSIZE) as Ei
    by (apply PGROUNDUP_aligned; [rewrite TRAPFRAME_eq in *; unfold PGSIZE in *; lia|done]).
  assert (pages_between base (base + Z.of_nat i * PGSIZE) = i) as Ek by (unfold pages_between; rewrite Eb, Ei; unfold PGSIZE; dlia).
  apply (uvmdealloc_wp σ1 w1); [apply G|apply G|lia|unfold PGSIZE in *; lia|..]; rewrite ?Ek, ?Eb.
  - intros _ j Hj. destruct (gw_new _ _ _ _ _ _ _ _ G j Hj) as (a & -> & _). by eexists.
  - intros Hle. cbv beta. wp_step. assert (i = 0%nat) as -> by (unfold PGSIZE in *; lia). apply (HQ σ1 w1); [|lia].
    destruct G as [? ? ? ? _ O1 _]. split; try done. apply map_eq. intros [r' va]. apply O1. lia.
  - intros _ σ' w' R' U' S'. cbv beta. wp_step. apply (HQ σ' (w_unmaps w1 r base i)); [by eapply grown_undo|apply unmaps_len].
Qed.

(** The page-table pages for the new page are missing. *)
Lemma give_back i σ1 w1 σ2 σ3 w3 a fl (Q : Z -> machine -> Prop) :
  grown r base perm i σ w σ1 w1 -> (i < K)%nat -> w_free w1 = a :: fl -> rep σ2 (w_take w1 a fl) -> refcnt σ2 a = 1 ->
  (forall b, aligned b -> b <> a -> refcnt σ2 b = refcnt σ1 b) ->
  (forall b, page_of b <> a -> mget (m_mem σ2) b = mget (m_mem σ1) b) ->
  (forall b, page_of b = a -> mget (m_mem σ2) b = 0) ->
  rep σ3 w3 -> grow r σ2 (w_take w1 a fl) σ3 w3 -> w_free w3 = [] -> w_leaf w3 = w_leaf w1 ->
  (forall σ' w', grown r base perm i σ w σ' w' -> (length (w_free w') <= 1)%nat -> Q 0 σ') ->
  wp (kfree a) σ3 (fun _ => Q 0).
Proof using All.
  intros G HiK Ef R2 Hone Hrc2 Hm2 Hz2 R3 G3 Hnil El HQ. destruct G as [R1 U1 X1 C1 L1 O1 N1].
  destruct (taken_page σ1 w1 σ2 σ3 w3 r base a perm fl R1 U1 Ef R2 Hone Hrc2 Hm2 Hz2 R3 G3) as (Hka & Hok & Hnin & Hk3 & Har & Hrca & Hz3).
  apply (rep_kfree_last σ3 w3 a KKern); [done|done|done|done|]. intros σ4 R4 Hrc4 Hrcs4 Hm4.
  assert (ext r σ1 w1 σ4 (w_give w3 a)) as X4.
  { apply (taken_ext σ1 w1 σ2 σ3 w3 r base a perm fl); try assumption; cbn; rewrite ?Hnil.
    - done.
    - set_solver.
    - intros b Hne. by rewrite lookup_insert_ne.
    - set_solver.
    - set_solver. }
  assert (forall b, w_kind w1 !! b = Some KUser <-> w_kind (w_give w3 a) !! b = Some KUser) as Hku.
  { intros b. cbn. split; intros Hb.
    - assert (b <> a) by congruence. rewrite lookup_insert_ne by done.
      assert (b ∉ w_free w1) as Hbf by (by eapply kind_not_free). rewrite Ef in Hbf.
      rewrite (g_kind _ _ _ _ _ G3) by (cbn; set_solver). cbn. by rewrite lookup_insert_ne.
    - apply lookup_insert_Some in Hb as [[_ ?]|[Hne Hb]]; [done|].
      apply (grow_user r σ2 (w_take w1 a fl) σ3 w3) in Hb; [|done|done]. cbn in Hb. by rewrite lookup_insert_ne in Hb. }
  apply (HQ σ4 (w_give w3 a)); [|cbn; by rewrite Hnil]. split.
  - done.
  - split; cbn [w_give w_leaf]; rewrite El.
    + intros r' va z Hz Hlt. destruct (u_leaf _ _ U1 _ _ _ Hz Hlt) as [? ?]. split; [done|]. by apply Hku.
    + intros b Hb%Hku. destruct (u_rc _ _ U1 b Hb) as [Hr1 Hp1]. assert (b <> a) by congruence.
      pose proof (rep_kind_aligned R1 _ _ Hb) as Hbal. assert (b ∉ w_free w1) as Hbf by (by eapply kind_not_free). rewrite Ef in Hbf.
      rewrite Hrcs4, (g_rc _ _ _ _ _ G3), Hrc2 by (try done; cbn; set_solver). done.
    + apply (u_once _ _ U1).
    + apply (u_trap _ _ U1).
  - exact (ext_trans _ _ _ _ _ _ _ R R1 X1 X4).
  - intros C r' va z. cbn [w_give w_leaf]. rewrite El. by apply C1.
  - cbn. rewrite Hnil. cbn. rewrite Ef in L1. cbn in L1. lia.
  - intros r' va Hne. cbn. rewrite El. by apply O1.
  - intros j Hj. destruct (N1 j Hj) as (a' & Hl & Hok' & Hf' & Hk' & Hu & Hz). exists a'. cbn [w_give w_leaf]. rewrite El.
    split; [done|]. split; [done|]. split; [done|]. split; [by apply Hku|]. split; [done|].
    intros b Hb. rewrite (x_mem _ _ _ _ _ X4); [by apply Hz|]. by rewrite Hb, Hk'.
Qed.

(** A new page is zeroed. *)
Lemma zeroed w1 a fl σ1 : w_kind w1 !! a = Some KFree -> page_ok a -> rep σ1 (w_take w1 a fl) ->
  let σ2 := set_mem (fun m => memset m a 0 PGSIZE) σ1 in
  rep σ2 (w_take w1 a fl) /\ (forall b, page_of b <> a -> mget (m_mem σ2) b = mget (m_mem σ1) b) /\
  (forall b, page_of b = a -> mget (m_mem σ2) b = 0) /\ (forall b, refcnt σ2 b = refcnt σ1 b).
Proof using All.
  intros Hk Hok R1 σ2. destruct Hok as [Hal _].
  assert (forall b, page_of b <> a -> mget (m_mem σ2) b = mget (m_mem σ1) b) as Hm.
  { intros b Hb. cbn. rewrite mget_memset, decide_False; [done|]. by rewrite page_of_in. }
  split; [|split; [done|split; [|done]]].
  - eapply rep_frame; [done|done| |done]. intros b Hb. apply Hm. intros E. rewrite E in Hb. cbn in Hb. by rewrite lookup_insert_eq in Hb.
  - intros b Hb. cbn. by rewrite mget_memset, decide_True by (by rewrite page_of_in).
Qed.

Lemma uvmalloc_wp (Q : Z -> machine -> Prop) :
  (newsz < oldsz -> Q oldsz σ) ->
  (forall σ' w', oldsz <= newsz -> grown r base perm K σ w σ' w' -> took (3 * K) w w' -> base + Z.of_nat K * PGSIZE <= TRAPFRAME -> Q newsz σ') ->
  (forall σ' w', oldsz <= newsz -> regained r σ w σ' w' -> (length (w_free w') <= K)%nat -> (length (w_free w) <= 3 * K)%nat -> Q 0 σ') ->
  wp (uvmalloc r oldsz newsz xperm) σ Q.
Proof using All.
  intros HQ0 HQ1 HQ2. destruct base_ok as [Hal Hb]. unfold uvmalloc. wp_step; bool_to_prop; [wp_step; by apply HQ0|].
  fold base. fold perm.
  apply (wp_loop _ (fun m a σ1 => exists i w1, (i + m = K)%nat /\ a = base + Z.of_nat i * PGSIZE /\
    grown r base perm i σ w σ1 w1 /\ took (3 * i) w w1) _ _ K).
  - intros m a0 σ1 (i & w1 & Hi & -> & G & N). unfold took in N. pose proof (gw_rep _ _ _ _ _ _ _ _ G) as R1.
    pose proof (top_page _ _ _ G ltac:(lia)) as Htop.
    wp_step; bool_to_prop.
    2:{ wp_step. assert (i = K) as -> by (unfold K, pages_up, PGSIZE in *; dlia). by apply (HQ1 σ1 w1). }
    assert (i < K)%nat as HiK by (unfold K, pages_up, PGSIZE in *; dlia).
    assert (forall j, (j < i)%nat -> w_leaf w !! (r, base + Z.of_nat j * PGSIZE) = None) as Hno'
      by (intros j Hj; apply Hnone; unfold PGSIZE in *; lia).
    wp_step. apply (rep_kalloc σ1 w1 _ R1). destruct (w_free w1) as [|a fl] eqn:Ef.
    { cbn [Z.eqb]. eapply wp_mono; [apply (undo_wp i σ1 w1 Q); try done|by intros [] ?].
      intros σ' w' Hreg Hlen. rewrite Ef in Hlen. cbn in Hlen, N. apply (HQ2 σ' w'); [done|done|lia|lia]. }
    cbn in N. intros σ2 R2 Hk Hone Hrc Hm. pose proof (r_ok _ _ R1 _ _ Hk) as Hok. pose proof (page_ok_range a Hok) as Hra.
    destruct (next_page i σ1 w1 G) as (Ht & Hva & Hno); [by rewrite Ef|done|].
    rewrite (proj2 (Z.eqb_neq a 0)) by (unfold KERNBASE in *; lia).
    unfold memsetM at 1. do 2 wp_step.
    destruct (zeroed w1 a fl σ2 Hk Hok R2) as (R3 & Hm3 & Hz3 & Hrc3). set (σ3 := set_mem _ σ2) in *.
    assert (forall b, page_of b <> a -> mget (m_mem σ3) b = mget (m_mem σ1) b) as Hm31 by (intros b Hb1; by rewrite Hm3, Hm).
    wp_step. apply (mappages1_wp σ3 (w_take w1 a fl)); try done.
    + cbn. by apply (x_node _ _ _ _ _ (gw_ext _ _ _ _ _ _ _ _ G)).
    + unfold PHYSTOP, KERNBASE, PGSIZE in *. lia.
    + unfold unmapped. cbn. by rewrite Hno.
    + intros σ4 w4 R4 G4 N4 Hnil El. unfold took in N4. rewrite Hnil in N4. cbn in N4. cbn [negb Z.eqb]. wp_step.
      eapply (give_back i σ1 w1 σ3 σ4 w4 a fl (fun _ s => wp _ s _)); try done.
      intros σ5 w5 G5 Hlen5. eapply wp_mono; [apply (undo_wp i σ5 w5 Q); try done|by intros [] ?].
      intros σ' w' Hreg Hlen. apply (HQ2 σ' w'); [done|done|lia|lia].
    + intros σ4 w4 R4 G4 N4 El. unfold took in N4. cbn in N4. cbn [negb Z.eqb]. wp_step. exists (m - 1)%nat. split; [lia|]. exists (S i), (w_setkind w4 a KUser).
      split; [lia|]. unfold u64. rewrite Z.mod_small by (rewrite TRAPFRAME_eq in *; unfold PGSIZE in *; lia).
      split; [lia|]. split; [|unfold took; cbn; lia]. eapply (grown_S r base perm i σ w σ1 w1 σ3 σ4 w4 a fl); try done; apply perm_R.
  - exists 0%nat, w. split; [done|]. split; [lia|]. split; [by apply grown_0|unfold took; lia].
  - unfold page_fuel, K, pages_up, PGSIZE in *. dlia.
Qed.
End Alloc.
End Grow.
