(* ===== verification/VmFree.v ===== *)
(** * Freeing a page table: [freewalk], [uvmfree], [proc_freepagetable]

    [tree d m a ns]: in memory [m] the page [a] is the root of a page table of
    at most [d] levels without leaf entries, whose page-table pages, in the
    order in which [freewalk] frees them, are [ns].  [freewalk] returns exactly
    these pages to the allocator and touches nothing else. *)

From S2P Require Import Prelude Riscv Mem Kalloc Vm VmRep VmSpec Cow Fork CowFault VmGrow.

(** ** [freewalk] on trees *)

Section Tree.
Context `{L : Layout}.

Fixpoint tree (d : nat) (m : mem) (a : Z) (ns : list Z) : Prop :=
  match d with
  | O => False
  | S d => exists cs : list (list Z), length cs = 512%nat /\ ns = concat cs ++ [a] /\
      forall i l, cs !! i = Some l ->
        (load64 m (pte_addr a (Z.of_nat i)) = 0 /\ l = []) \/
        (exists c, load64 m (pte_addr a (Z.of_nat i)) = Z.lor (PA2PTE c) PTE_V /\ page_ok c /\ tree d m c l)
  end.

Lemma tree_root d m a ns : tree d m a ns -> a ∈ ns.
Proof. destruct d; [done|]. intros (cs & _ & -> & _). set_solver. Qed.

Lemma concat_elem (cs : list (list Z)) i l x : cs !! i = Some l -> x ∈ l -> x ∈ concat cs.
Proof.
  revert i. induction cs as [|l0 cs IH]; intros i Hi Hx; [done|]. cbn. apply elem_of_app.
  destruct i as [|i]; cbn in Hi; [injection Hi as ->; by left|right; eauto].
Qed.

(** A tree is a matter of its own pages. *)
Lemma tree_frame d m m' a ns : Forall aligned ns -> tree d m a ns ->
  (forall b, page_of b ∈ ns -> mget m' b = mget m b) -> tree d m' a ns.
Proof.
  revert a ns. induction d as [|d IH]; intros a ns Hal; [done|]. intros (cs & Hlen & -> & Hcs) Hm.
  assert (aligned a) as Ha by (rewrite Forall_forall in Hal; apply Hal; set_solver).
  exists cs. split; [done|]. split; [done|]. intros i l Hi. pose proof (lookup_lt_Some _ _ _ Hi) as Hlt.
  assert (load64 m' (pte_addr a (Z.of_nat i)) = load64 m (pte_addr a (Z.of_nat i))) as ->.
  { apply load_entry_same; [done|unfold idx_ok; lia|]. intros b Hb. apply Hm. rewrite Hb. set_solver. }
  assert (forall x, x ∈ l -> x ∈ concat cs ++ [a]) as Hsub by (intros x Hx; apply elem_of_app; left; by eapply concat_elem).
  destruct (Hcs i l Hi) as [?|(c & E & Hok & Ht)]; [by left|right]. exists c. split; [done|]. split; [done|].
  apply IH; [|done|intros b Hb; apply Hm; by apply Hsub].
  apply Forall_forall. intros x Hx. rewrite Forall_forall in Hal. by apply Hal, Hsub.
Qed.

Lemma node_no_rwx c : page_ok c -> Z.land (Z.lor (PA2PTE c) PTE_V) (Z.lor (Z.lor PTE_R PTE_W) PTE_X) = 0.
Proof.
  intros Hok. pose proof (page_ok_range c Hok). assert (0 <= c < 2 ^ 56) as Hc by (unfold PHYSTOP, KERNBASE, PGSIZE in *; lia).
  change (Z.lor (Z.lor PTE_R PTE_W) PTE_X) with 14. apply Z.bits_inj'. intros k Hk. rewrite Z.land_spec, Z.bits_0, Z.lor_spec.
  destruct (decide (k < 10)) as [Hk10|Hk10].
  - rewrite PA2PTE_testbit by lia. change PTE_V with (2 ^ 0). rewrite Z.pow2_bits_eqb by lia.
    destruct (Z.eqb_spec 0 k) as [<-|]; done.
  - change 14 with (Z.ones 4 - 1). rewrite (Z.bits_above_log2 (Z.ones 4 - 1)), andb_false_r; [done|done|]. change (Z.log2 (Z.ones 4 - 1)) with 3. lia.
Qed.

(** What freeing the pages [ns] does. *)
Record freed_pages (ns fl : list Z) (σ σ' : machine) : Prop := {
  fp_free : free_rep σ' (reverse ns ++ fl);
  fp_mem : forall b, page_of b ∉ ns -> mget (m_mem σ') b = mget (m_mem σ) b;
  fp_rc : forall b, aligned b -> b ∉ ns -> refcnt σ' b = refcnt σ b
}.

Definition owned (σ : machine) (fl ns : list Z) : Prop :=
  NoDup ns /\ forall b, b ∈ ns -> page_ok b /\ refcnt σ b = 1 /\ b ∉ fl.

Lemma free_rep_store σ fl a i v : free_rep σ fl -> page_ok a -> a ∉ fl -> idx_ok i -> free_rep (store_entry a i v σ) fl.
Proof.
  intros Hf Hok Hn Hi. eapply free_rep_frame; [done|done| |done]. intros b Hb.
  apply load_page_same; [by apply (free_rep_elem _ _ _ Hf Hb)|]. intros x Hx.
  apply mget_store_entry; [apply Hok|done|]. rewrite Hx. by intros ->.
Qed.

(** The entries of a table: the sub-trees [cs] are freed in order. *)
Lemma freewalk_entries_wp d a cs : forall σ fl i,
  (forall σ c ns fl, free_rep σ fl -> tree d (m_mem σ) c ns -> owned σ fl ns ->
     wp (freewalk d c) σ (fun _ => freed_pages ns fl σ)) ->
  page_ok a -> a ∉ concat cs -> a ∉ fl -> 0 <= i -> i + Z.of_nat (length cs) <= 512 -> free_rep σ fl -> owned σ fl (concat cs) ->
  (forall j l, cs !! j = Some l ->
     (load64 (m_mem σ) (pte_addr a (i + Z.of_nat j)) = 0 /\ l = []) \/
     (exists c, load64 (m_mem σ) (pte_addr a (i + Z.of_nat j)) = Z.lor (PA2PTE c) PTE_V /\ page_ok c /\ tree d (m_mem σ) c l)) ->
  wp (freewalk_entries (freewalk d) a (length cs) i) σ (fun _ σ' =>
    free_rep σ' (reverse (concat cs) ++ fl) /\
    (forall b, page_of b ∉ concat cs -> page_of b <> a -> mget (m_mem σ') b = mget (m_mem σ) b) /\
    (forall b, aligned b -> b ∉ concat cs -> refcnt σ' b = refcnt σ b)).
Proof.
  induction cs as [|l cs IH]; intros σ fl i Hfw Hok Ha Hafl Hi Hlen Hf Hown Hcs; [cbn [length freewalk_entries concat]; apply wp_ret; by split|]. cbn [length freewalk_entries concat].
  cbn [concat] in Ha, Hown. assert (idx_ok i) as Hix by (unfold idx_ok; cbn [length] in Hlen; lia).
  wp_step. apply wp_ld. destruct (Hcs 0%nat l eq_refl) as [[E ->]|(c & E & Hokc & Ht)]; rewrite Z.add_0_r in E; rewrite E.
  - change (flag 0 PTE_V) with false. cbn [andb]. wp_step. wp_step. cbn [app] in *.
    apply IH; try done; [lia|cbn [length] in Hlen; lia|].
    intros j l Hj. specialize (Hcs (S j) l Hj). by replace (i + 1 + Z.of_nat j) with (i + Z.of_nat (S j)) by lia.
  - destruct (flag_node c Hokc) as [-> ->]. rewrite node_no_rwx by done. cbn [andb Z.eqb].
    destruct Hown as [Hnd Hown]. apply NoDup_app in Hnd as (Hnd1 & Hdis & Hnd2).
    do 2 wp_step.
    eapply wp_mono; [apply (Hfw σ c l fl Hf Ht); split; [done|]; intros b Hb; apply Hown, elem_of_app; by left|].
    intros [] σ1 [Hf1 Hm1 Hrc1]. cbv beta. apply wp_st.
    change (set_mem (fun m => store64 m (pte_addr a i) 0) σ1) with (store_entry a i 0 σ1).
    assert ((a ∉ l) /\ (a ∉ concat cs)) as [Hal Hacs] by set_solver.
    assert (a ∉ reverse l ++ fl) as Hafl1 by (rewrite elem_of_app, elem_of_reverse; tauto).
    assert (forall b, b ∈ concat cs -> b ∉ l) as Hdis' by (intros b Hb Hb'; by apply (Hdis b)).
    assert (forall b, page_of b ∉ l -> page_of b <> a -> mget (m_mem (store_entry a i 0 σ1)) b = mget (m_mem σ) b) as Hm2.
    { intros b Hb Hba. rewrite mget_store_entry; [by apply Hm1|apply Hok|done|done]. }
    eapply wp_mono; [apply (IH (store_entry a i 0 σ1) (reverse l ++ fl) (i + 1)); try done; cbn [length] in Hlen|].
    + lia.
    + lia.
    + by apply free_rep_store.
    + split; [done|]. intros b Hb. destruct (Hown b) as (Hb1 & Hb2 & Hb3); [apply elem_of_app; by right|].
      split; [done|]. rewrite refcnt_store_entry, Hrc1; [|apply Hb1|by apply Hdis']. split; [done|].
      rewrite elem_of_app, elem_of_reverse. intros [?|?]; [by apply (Hdis' b)|done].
    + intros j l' Hj. replace (i + 1 + Z.of_nat j) with (i + Z.of_nat (S j)) by lia.
      pose proof (lookup_lt_Some _ _ _ Hj) as Hjlt.
      rewrite load_store_entry_ne; [|apply Hok|apply Hok|done|unfold idx_ok in *; lia|intros [= ?]; lia].
      assert (load64 (m_mem σ1) (pte_addr a (i + Z.of_nat (S j))) = load64 (m_mem σ) (pte_addr a (i + Z.of_nat (S j)))) as ->.
      { apply load_entry_same; [apply Hok|unfold idx_ok in *; lia|]. intros b Hb. apply Hm1. by rewrite Hb. }
      destruct (Hcs (S j) l' Hj) as [?|(c' & E' & Hokc' & Ht')]; [by left|right]. exists c'. split; [done|]. split; [done|].
      assert (forall b, b ∈ l' -> b ∈ concat cs) as Hsub by (intros b Hb; by eapply concat_elem).
      eapply tree_frame; [|done|].
      * apply Forall_forall. intros b Hb%Hsub. destruct (Hown b) as ([? _] & _); [apply elem_of_app; by right|done].
      * intros b Hb%Hsub. apply Hm2; [by apply Hdis'|]. intros E1. by rewrite E1 in Hb.
    + intros [] σ2 (Hf2 & Hm3 & Hrc2). split; [by rewrite reverse_app, <- app_assoc|].
      split.
      * intros b Hb Hba. rewrite Hm3 by set_solver. apply Hm2; [set_solver|done].
      * intros b Hb Hbn. rewrite Hrc2 by set_solver. rewrite refcnt_store_entry. apply Hrc1; [done|set_solver].
Qed.

Lemma freewalk_wp d : forall σ a ns fl, free_rep σ fl -> tree d (m_mem σ) a ns -> owned σ fl ns ->
  wp (freewalk d a) σ (fun _ => freed_pages ns fl σ).
Proof.
  induction d as [|d IH]; intros σ a ns fl Hf; [done|]. intros (cs & Hlen & -> & Hcs) [Hnd Hown]. cbn [freewalk].
  destruct (Hown a) as (Hok & Hrca & Hafl); [set_solver|]. apply NoDup_app in Hnd as (Hnd & Hdis & _).
  assert (a ∉ concat cs) as Hacs by (intros Hin; apply (Hdis a Hin); set_solver).
  wp_step. rewrite <- Hlen. eapply wp_mono; [apply (freewalk_entries_wp d a cs σ fl 0); try done|].
  - lia.
  - split; [done|]. intros b Hb. apply Hown. set_solver.
  - intros [] σ1 (Hf1 & Hm1 & Hrc1).
    assert (refcnt σ1 a = 1) as Hrca1 by (rewrite Hrc1; [done|apply Hok|done]).
    apply (kfree_wp σ1 (reverse (concat cs) ++ fl)); [done|done|lia|]. rewrite decide_True by done.
    intros σ2 Hf2 Hrc2 Hrcs2 Hs2 _. split.
    + rewrite reverse_app. done.
    + intros b Hb. rewrite Hs2, Hm1; [done|set_solver|set_solver|].
      rewrite page_of_in by apply Hok. set_solver.
    + intros b Hb Hbn. rewrite Hrcs2, Hrc1; [done|done|set_solver|done|set_solver].
Qed.
End Tree.

(** ** The page-table pages of a table without leaves *)

Lemma NoDup_omap {A B} (f : A -> option B) l : NoDup l ->
  (forall x y z, f x = Some z -> f y = Some z -> x = y) -> NoDup (omap f l).
Proof.
  intros Hl Hf. induction Hl as [|x l Hx Hl IH]; [constructor|]. cbn. destruct (f x) as [z|] eqn:E; [|done].
  apply NoDup_cons. split; [|done]. intros (y & Hy & Ey)%list_elem_of_omap. by rewrite (Hf x y z) in Hx.
Qed.

Lemma concat_omap {A B C} (f : B -> option C) (g : A -> list B) l : concat ((fun x => omap f (g x)) <$> l) = omap f (l ≫= g).
Proof. induction l as [|x l IH]; [done|]. cbn. by rewrite IH, omap_app. Qed.

(** The paths of a table, in the order of [freewalk]. *)
Definition idxs : list Z := seqZ 0 512.
Definition paths1 (i : Z) : list (list Z) := ((fun j => [i; j]) <$> idxs) ++ [[i]].
Definition paths : list (list Z) := (idxs ≫= paths1) ++ [[]].

Lemma idxs_elem i : i ∈ idxs <-> idx_ok i.
Proof. unfold idxs. rewrite elem_of_seqZ. unfold idx_ok. lia. Qed.

Lemma length_idxs : length idxs = 512%nat.
Proof. done. Qed.

Lemma lookup_idxs {A} (f : Z -> A) i l : (f <$> idxs) !! i = Some l -> l = f (Z.of_nat i) /\ idx_ok (Z.of_nat i).
Proof.
  intros (x & -> & Hx)%list_lookup_fmap_Some. unfold idxs in Hx. apply lookup_seqZ in Hx as [-> Hi].
  rewrite Z.add_0_l. split; [done|]. unfold idx_ok. lia.
Qed.

Lemma paths1_elem i p : p ∈ paths1 i <-> p = [i] \/ exists j, idx_ok j /\ p = [i; j].
Proof.
  unfold paths1. rewrite elem_of_app, list_elem_of_singleton, list_elem_of_fmap.
  setoid_rewrite idxs_elem. naive_solver.
Qed.

Lemma paths_elem p : (length p <= 2)%nat -> Forall idx_ok p -> p ∈ paths.
Proof.
  intros Hl Hp. unfold paths. rewrite elem_of_app, list_elem_of_bind.
  destruct p as [|i [|j [|]]]; [right; set_solver|left|left|cbn in Hl; lia]; exists i; rewrite paths1_elem, idxs_elem;
    rewrite !Forall_cons in Hp; naive_solver.
Qed.

Lemma NoDup_paths : NoDup paths.
Proof.
  unfold paths. apply NoDup_app. split; [|split].
  - apply NoDup_bind.
    + intros x y p _ _. rewrite !paths1_elem. naive_solver.
    + intros i _. unfold paths1. apply NoDup_app. split; [|split; [|apply NoDup_singleton]].
      * apply NoDup_fmap_2; [intros ? ? [= ->]; done|]. apply NoDup_seqZ.
      * intros p (j & -> & _)%list_elem_of_fmap. rewrite list_elem_of_singleton. done.
    + apply NoDup_seqZ.
  - intros p (i & Hp & _)%list_elem_of_bind. rewrite paths1_elem in Hp. rewrite list_elem_of_singleton. naive_solver.
  - apply NoDup_singleton.
Qed.

#[local] Opaque idxs.

Section Drop.
Context `{L : Layout}.
Context (σ : machine) (w : world) (r : Z) (R : rep σ w) (Hr : w_node w !! (r, []) = Some r).
Context (Hempty : forall va, w_leaf w !! (r, va) = None).

Definition node_at (p : list Z) : option Z := w_node w !! (r, p).
Definition table_pages : list Z := omap node_at paths.

Lemma table_pages_elem b : b ∈ table_pages <-> exists p, w_node w !! (r, p) = Some b.
Proof using R.
  unfold table_pages. rewrite list_elem_of_omap. split; [intros (p & _ & Hp); by exists p|]. intros (p & Hp).
  exists p. split; [|done]. destruct (r_path _ _ R _ _ _ Hp) as (? & ? & _). by apply paths_elem.
Qed.

Lemma table_pages_owned : owned σ (w_free w) table_pages.
Proof using R.
  split.
  - apply NoDup_omap; [apply NoDup_paths|]. intros p q b Hp Hq.
    apply (rep_node_kind R) in Hp, Hq. rewrite Hp in Hq. by injection Hq.
  - intros b (p & Hp)%table_pages_elem. split; [by eapply (rep_node_ok R)|]. split; [by eapply (r_nrc _ _ R)|].
    intros Hf%(rep_free_kind R). apply (rep_node_kind R) in Hp. congruence.
Qed.

Lemma entry_0 i2 i1 a i : w_node w !! (r, [i2; i1]) = Some a -> idx_ok i -> load64 (m_mem σ) (pte_addr a i) = 0.
Proof using R Hempty. intros Ha Hi. by rewrite (r_leaf _ _ R r i2 i1 a i), Hempty. Qed.

Lemma tree1 i2 i1 a : w_node w !! (r, [i2; i1]) = Some a -> tree 1 (m_mem σ) a [a].
Proof using R Hempty.
  intros Ha. exists (replicate 512 []). split; [done|]. split; [done|].
  intros i l [-> Hi]%lookup_replicate. left. split; [|done]. apply (entry_0 i2 i1); [done|unfold idx_ok; lia].
Qed.

Lemma tree2 i2 a : w_node w !! (r, [i2]) = Some a -> tree 2 (m_mem σ) a (omap node_at (paths1 i2)).
Proof using R Hempty.
  intros Ha. exists ((fun j => omap node_at [[i2; j]]) <$> idxs). split; [by rewrite length_fmap, length_idxs|]. split.
  - rewrite (concat_omap node_at (fun j => [[i2; j]])). unfold paths1. rewrite omap_app. f_equal. cbn. unfold node_at. by rewrite Ha.
  - intros i l [-> Hi]%lookup_idxs. rewrite (r_entry _ _ R r [i2] a) by (done || cbn; lia). cbn [app omap list_omap].
    unfold node_at. destruct (w_node w !! (r, [i2; Z.of_nat i])) as [c|] eqn:Hc; [right|by left].
    exists c. split; [done|]. split; [by eapply (rep_node_ok R)|]. by apply (tree1 i2 (Z.of_nat i)).
Qed.

Lemma tree3 : tree 3 (m_mem σ) r table_pages.
Proof using R Hr Hempty.
  exists ((fun i => omap node_at (paths1 i)) <$> idxs). split; [by rewrite length_fmap, length_idxs|]. split.
  - rewrite concat_omap. unfold table_pages, paths. rewrite omap_app. f_equal. cbn. unfold node_at. by rewrite Hr.
  - intros i l [-> Hi]%lookup_idxs. rewrite (r_entry _ _ R r [] r) by (done || cbn; lia). cbn [app].
    destruct (w_node w !! (r, [Z.of_nat i])) as [c|] eqn:Hc; [right|left; split; [done|]].
    + exists c. split; [done|]. split; [by eapply (rep_node_ok R)|]. by apply tree2.
    + destruct (omap node_at (paths1 (Z.of_nat i))) as [|b bs] eqn:E; [done|].
      assert (b ∈ omap node_at (paths1 (Z.of_nat i))) as Hb by (rewrite E; set_solver).
      apply list_elem_of_omap in Hb as (p & [->|(j & Hj & ->)]%paths1_elem & Hp); unfold node_at in Hp; [congruence|].
      destruct (r_path _ _ R _ _ _ Hp) as (_ & _ & Hpre). destruct (Hpre [Z.of_nat i] j eq_refl) as [? ?]. congruence.
Qed.

(** The world without table [r]. *)
Definition drop_kind (k : kind) : kind := match k with KNode r' _ => if decide (r' = r) then KFree else k | _ => k end.
Definition w_drop : world :=
  World (reverse table_pages ++ w_free w) (drop_kind <$> w_kind w)
    (filter (fun kv => kv.1.1 <> r) (w_node w)) (w_leaf w).

Lemma drop_node r' p a : w_node w_drop !! (r', p) = Some a <-> r' <> r /\ w_node w !! (r', p) = Some a.
Proof using. cbn. rewrite map_lookup_filter_Some. cbn. tauto. Qed.

Lemma drop_meta b : meta (w_kind w_drop !! b) = meta (w_kind w !! b).
Proof using. cbn. rewrite lookup_fmap. destruct (w_kind w !! b) as [[]|]; cbn; try done. by case_decide. Qed.

Lemma rep_drop σ' : freed_pages table_pages (w_free w) σ σ' -> rep σ' w_drop.
Proof using R Hempty.
  intros [Hf Hm Hrc].
  assert (forall r' p a, r' <> r -> w_node w !! (r', p) = Some a -> a ∉ table_pages) as Hnot.
  { intros r' p a Hne Ha (q & Hq)%table_pages_elem. apply (rep_node_kind R) in Ha, Hq. congruence. }
  assert (forall r' p a i, r' <> r -> w_node w !! (r', p) = Some a -> idx_ok i ->
    load64 (m_mem σ') (pte_addr a i) = load64 (m_mem σ) (pte_addr a i)) as Hload.
  { intros r' p a i Hne Ha Hi. apply load_entry_same; [by eapply (rep_node_ok R)|done|].
    intros b Hb. apply Hm. rewrite Hb. by eapply Hnot. }
  split.
  - done.
  - intros a. cbn. rewrite elem_of_app, elem_of_reverse, table_pages_elem, (r_kfree _ _ R), lookup_fmap.
    split.
    + intros [(p & Hp%(rep_node_kind R))|Hk]; [rewrite Hp; cbn; by rewrite decide_True|by rewrite Hk].
    + destruct (w_kind w !! a) as [[]|] eqn:E; cbn; try done; [by right|]. case_decide; [|done]. subst. intros _. left.
      exists p. by apply (r_node _ _ R).
  - intros a k. cbn. rewrite lookup_fmap. destruct (w_kind w !! a) eqn:E; [|done]. intros _. by eapply (r_ok _ _ R).
  - intros r' p a. rewrite drop_node, (r_node _ _ R). cbn. rewrite lookup_fmap.
    destruct (w_kind w !! a) as [[]|]; cbn; try (by split; [intros [_ ?]|]); try case_decide; split; naive_solver.
  - intros r' a [Hne Ha]%drop_node. by eapply (r_root _ _ R).
  - intros r' p a [Hne Ha]%drop_node. destruct (r_path _ _ R _ _ _ Ha) as (? & ? & Hpre). split; [done|]. split; [done|].
    intros q j E. destruct (Hpre q j E) as [c Hc]. exists c. by apply drop_node.
  - intros r' p a i [Hne Ha]%drop_node Hp Hi. rewrite (Hload r' p a i) by done. rewrite (r_entry _ _ R r' p a i) by done.
    destruct (w_node w !! (r', p ++ [i])) as [c|] eqn:Hc.
    + by rewrite (proj2 (drop_node r' (p ++ [i]) c)).
    + destruct (w_node w_drop !! (r', p ++ [i])) as [c|] eqn:Hc'; [|done]. apply drop_node in Hc' as [_ ?]. congruence.
  - intros r' i2 i1 a i0 [Hne Ha]%drop_node Hi. rewrite (Hload r' [i2; i1] a i0) by done. by apply (r_leaf _ _ R).
  - intros r' va x Hx. cbn in Hx. destruct (r_leaf_dom _ _ R _ _ _ Hx) as (? & c & Hc). split; [done|]. exists c.
    apply drop_node. split; [|done]. intros ->. by rewrite Hempty in Hx.
  - intros r' p a [Hne Ha]%drop_node. rewrite Hrc; [by eapply (r_nrc _ _ R)|by eapply (rep_node_ok R)|by eapply Hnot].
Qed.
End Drop.

Section Free.
Context `{L : Layout}.

(** What freeing the table [r] and its memory does to everything else. *)
Record dropped (r : Z) (σ : machine) (w : world) (σ' : machine) (w' : world) : Prop := {
  dp_rep : rep σ' w';
  dp_user : user_ok σ' w';
  dp_cow : cow_ok w -> cow_ok w';
  dp_leaf : forall r' va, w_leaf w' !! (r', va) = if decide (r' = r) then None else w_leaf w !! (r', va);
  dp_node : forall r' p, w_node w' !! (r', p) = if decide (r' = r) then None else w_node w !! (r', p);
  dp_kind : forall a, w_kind w' !! a = w_kind w !! a \/
    (w_kind w' !! a = Some KFree /\ (w_kind w !! a = Some KUser \/ exists p, w_kind w !! a = Some (KNode r p)));
  dp_mem : forall b, meta (w_kind w' !! page_of b) = false -> mget (m_mem σ') b = mget (m_mem σ) b;
  dp_kern : forall a, w_kind w !! a = Some KKern -> refcnt σ' a = refcnt σ a
}.

(** Every page that only this table used is free again. *)
Lemma dropped_free r σ w σ' w' a : rep σ w -> dropped r σ w σ' w' ->
  (exists p, w_kind w !! a = Some (KNode r p)) \/
  (w_kind w !! a = Some KUser /\ forall r' va x, w_leaf w !! (r', va) = Some x -> va < TRAPFRAME -> PTE2PA x = a -> r' = r) ->
  a ∈ w_free w'.
Proof.
  intros R [R' U' _ Hl Hn Hk _ _] Ha. apply (r_kfree _ _ R'). destruct (Hk a) as [E|[E _]]; [|done]. exfalso.
  destruct Ha as [(p & Hp)|[Hu Honly]].
  - rewrite Hp in E. apply (r_node _ _ R') in E. rewrite Hn, decide_True in E; done.
  - rewrite Hu in E. destruct (u_rc _ _ U' a E) as [Hrc Hpos]. rewrite Hrc in Hpos.
    destruct (decide (map_Forall (fun k x => ~ is_ref a (k, x)) (w_leaf w'))) as [Hall|Hex].
    + unfold urefs in Hpos. rewrite cnt_zero in Hpos; [lia|]. intros k' x Hx. by apply Hall.
    + apply map_not_Forall in Hex as ([r' va] & x & Hx & Hex); [|apply _]. apply dec_stable in Hex as [Hlt Hpa].
      rewrite Hl in Hx. case_decide as Hd; [done|]. apply Hd. by eapply Honly.
Qed.

Lemma user_ok_drop σ w r σ' : rep σ w -> user_ok σ w -> freed_pages (table_pages w r) (w_free w) σ σ' ->
  user_ok σ' (w_drop w r).
Proof.
  intros R U [_ _ Hrc]. assert (forall a, w_kind (w_drop w r) !! a = Some KUser <-> w_kind w !! a = Some KUser) as Hku.
  { intros a. cbn. rewrite lookup_fmap. destruct (w_kind w !! a) as [[]|]; cbn; try done. case_decide; split; done. }
  split; cbn [w_drop w_leaf].
  - intros r' va x Hx Hlt. rewrite Hku. by apply (u_leaf _ _ U r' va).
  - intros a Ha%Hku. rewrite Hrc; [by apply (u_rc _ _ U)|by eapply (rep_kind_aligned R)|].
    intros (p & Hp)%(table_pages_elem σ w r R). apply (rep_node_kind R) in Hp. congruence.
  - apply (u_once _ _ U).
  - apply (u_trap _ _ U).
Qed.

Lemma freewalk_drop_wp σ w r (Q : unit -> machine -> Prop) : rep σ w -> user_ok σ w -> w_node w !! (r, []) = Some r ->
  (forall va, w_leaf w !! (r, va) = None) ->
  (forall σ', dropped r σ w σ' (w_drop w r) -> Q tt σ') -> wp (freewalk 3 r) σ Q.
Proof.
  intros R U Hr He HQ. eapply wp_mono.
  { eapply freewalk_wp; [apply R|by apply (tree3 σ w)|by apply table_pages_owned]. }
  intros [] σ' HF. apply HQ. pose proof HF as [Hf Hm Hrc]. split.
  - by eapply rep_drop.
  - by eapply user_ok_drop.
  - done.
  - intros r' va. cbn. case_decide; [by subst|done].
  - intros r' p. case_decide as Hd; [subst|].
    + destruct (w_node (w_drop w r) !! (r, p)) eqn:E; [|done]. by apply drop_node in E as [? _].
    + destruct (w_node w !! (r', p)) as [a|] eqn:E; [by apply drop_node|].
      destruct (w_node (w_drop w r) !! (r', p)) as [a|] eqn:E'; [|done]. apply drop_node in E' as [_ ?]. congruence.
  - intros a. cbn. rewrite lookup_fmap. destruct (w_kind w !! a) as [[]|]; cbn; try by left.
    case_decide; [subst; right; eauto|by left].
  - intros b Hb. apply Hm. intros (p & Hp)%(table_pages_elem σ w r R). rewrite drop_meta in Hb.
    by rewrite (rep_node_kind R _ _ _ Hp) in Hb.
  - intros a Ha. apply Hrc; [by eapply (rep_kind_aligned R)|]. intros (p & Hp)%(table_pages_elem σ w r R).
    apply (rep_node_kind R) in Hp. congruence.
Qed.

(** Unmapping first. *)
Lemma dropped_shrink r σ w σ1 w1 σ2 w2 : shrink σ w σ1 w1 -> (cow_ok w -> cow_ok w1) ->
  (forall r' va, r' <> r -> w_leaf w1 !! (r', va) = w_leaf w !! (r', va)) -> dropped r σ1 w1 σ2 w2 -> dropped r σ w σ2 w2.
Proof.
  intros [Sk Sn Sm Sr] Hc Hl [D1 D2 D3 D4 D5 D6 D7 D8]. split; try done.
  - intros C. by apply D3, Hc.
  - intros r' va. rewrite D4. case_decide; [done|by apply Hl].
  - intros r' p. rewrite D5. by rewrite Sn.
  - intros a. destruct (D6 a) as [E|[E HK]], (Sk a) as [E'|[E1 E2]]; rewrite ?E, ?E' in *; eauto.
  - intros b Hb. rewrite D7 by done. apply Sm. destruct (D6 (page_of b)) as [E|[E _]]; [by rewrite <- E|by rewrite E in Hb].
  - intros a Ha. destruct (Sk a) as [E|[E _]]; [|congruence]. rewrite D8; [by apply Sr|congruence].
Qed.

Lemma unmaps_only w r va k r' va' : w_leaf (w_unmaps w r va k) !! (r', va') <> None ->
  w_leaf w !! (r', va') = w_leaf (w_unmaps w r va k) !! (r', va').
Proof.
  induction k as [|k IH]; intros H; [done|]. cbn in *. rewrite w_unmap_leaf in *.
  destruct (decide ((r, va + Z.of_nat k * PGSIZE) = (r', va'))) as [E|E]; [rewrite E, lookup_delete_eq in H; done|].
  rewrite lookup_delete_ne in * by done. by apply IH.
Qed.

Lemma page_index_of va : aligned va -> 0 <= va -> exists j, va = Z.of_nat j * PGSIZE.
Proof. intros Hal H. exists (Z.to_nat (va / PGSIZE)). unfold aligned, PGSIZE in *. dlia. Qed.

(** ** [uvmfree] *)

(** The user memory of table [r] is the pages of [sz] bytes. *)
Definition user_size (w : world) (r sz : Z) : Prop :=
  mapped w r 0 (copy_pages sz) /\
  forall va x, w_leaf w !! (r, va) = Some x -> va < TRAPFRAME -> va < Z.of_nat (copy_pages sz) * PGSIZE.

Lemma uvmfree_wp σ w r sz (Q : unit -> machine -> Prop) : rep σ w -> user_ok σ w -> w_node w !! (r, []) = Some r ->
  0 <= sz <= TRAPFRAME -> user_size w r sz -> (forall va x, w_leaf w !! (r, va) = Some x -> va < TRAPFRAME) ->
  (forall σ' w', dropped r σ w σ' w' -> Q tt σ') -> wp (uvmfree r sz) σ Q.
Proof.
  intros R U Hr Hsz [Hm Hmax] Hno HQ. unfold uvmfree. set (k := copy_pages sz) in *.
  assert (Z.of_nat k * PGSIZE <= TRAPFRAME) as Hk by (by apply (copy_pages_spec sz Hsz k)).
  assert (PGROUNDUP sz / PGSIZE = Z.of_nat k) as Ek.
  { unfold k, copy_pages. rewrite PGROUNDUP_eq by (rewrite TRAPFRAME_eq in *; unfold PGSIZE; lia). unfold PGSIZE. dlia. }
  assert (wp (if sz >? 0 then uvmunmap r 0 (PGROUNDUP sz / PGSIZE) true else mret tt) σ (fun _ σ' =>
    rep σ' (w_unmaps w r 0 k) /\ user_ok σ' (w_unmaps w r 0 k) /\ shrink σ w σ' (w_unmaps w r 0 k))) as Hun.
  { rewrite Ek, Z.gtb_ltb. wp_step; bool_to_prop.
    - apply (uvmunmap_wp σ w r 0 k); try done.
    - wp_step. assert (k = 0%nat) as -> by (unfold k, copy_pages, PGSIZE; dlia). split; [done|]. split; [done|apply shrink_refl]. }
  wp_step. eapply wp_mono; [exact Hun|]. intros [] σ1 (R1 & U1 & S1). set (w1 := w_unmaps w r 0 k) in *.
  assert (forall va, w_leaf w1 !! (r, va) = None) as He.
  { intros va. destruct (w_leaf w1 !! (r, va)) as [x|] eqn:Hx; [exfalso|done].
    destruct (leaf_node _ _ _ _ _ R1 Hx) as ([Hal Hva] & _).
    assert (w_leaf w !! (r, va) = Some x) as Hx0 by (rewrite <- Hx; apply (unmaps_only w r 0 k); unfold w1 in Hx; congruence).
    pose proof (Hmax va x Hx0 (Hno va x Hx0)) as Hlt.
    destruct (page_index_of va) as (j & E); [done|lia|]. unfold w1 in Hx.
    rewrite E, <- (Z.add_0_l (_ * _)), w_unmaps_eq in Hx; [done|]. unfold PGSIZE in *. lia. }
  apply (freewalk_drop_wp σ1 w1 r); [done|done|by unfold w1; rewrite w_unmaps_node|done|].
  intros σ2 D. apply (HQ σ2 (w_drop w1 r)). eapply (dropped_shrink r σ w σ1 w1); [done|by intros C; apply cow_ok_unmaps| |done]. intros r' va Hne. apply w_unmaps_ne. naive_solver.
Qed.

(** ** Back to the beginning *)

(** Nothing has changed but the order of the free list. *)
Record restored (σ : machine) (w : world) (σ' : machine) (w' : world) : Prop := {
  rs_rep : rep σ' w';
  rs_user : user_ok σ' w';
  rs_leaf : w_leaf w' = w_leaf w;
  rs_node : w_node w' = w_node w;
  rs_kind : w_kind w' = w_kind w;
  rs_mem : forall b, meta (w_kind w !! page_of b) = false -> mget (m_mem σ') b = mget (m_mem σ) b;
  rs_kern : forall a, w_kind w !! a = Some KKern -> refcnt σ' a = refcnt σ a
}.

(** A table that was built from free pages and is freed again. *)
Section Undo.
Context (r : Z) (σ : machine) (w : world) (σ1 : machine) (w1 : world) (σ2 : machine) (w2 : world).
Context (R : rep σ w) (U : user_ok σ w) (R1 : rep σ1 w1) (Hnew : forall p, w_node w !! (r, p) = None).
Context (X : ext r σ w σ1 w1) (Hl : forall r' va, r' <> r -> w_leaf w1 !! (r', va) = w_leaf w !! (r', va)).
Context (D : dropped r σ1 w1 σ2 w2).

Lemma new_leaf va : w_leaf w !! (r, va) = None.
Proof using R Hnew.
  destruct (w_leaf w !! (r, va)) as [x|] eqn:Hx; [|done]. destruct (leaf_node _ _ _ _ _ R Hx) as (_ & Hn & _).
  by rewrite Hnew in Hn.
Qed.

Lemma undo_leaf_eq : w_leaf w2 = w_leaf w.
Proof using R Hnew Hl D.
  apply map_eq. intros [r' va]. rewrite (dp_leaf _ _ _ _ _ D). case_decide as Hd; [subst; by rewrite new_leaf|by apply Hl].
Qed.

Lemma undo_kind_old a : a ∉ w_free w -> w_kind w2 !! a = w_kind w !! a.
Proof using All.
  intros Ha. rewrite <- (x_kind _ _ _ _ _ X a Ha). destruct (dp_kind _ _ _ _ _ D a) as [E|[E HK]]; [done|]. exfalso.
  rewrite (x_kind _ _ _ _ _ X a Ha) in HK. destruct HK as [HK|(p & HK)].
  - destruct (used_page σ w a U HK) as (r' & va & x & Hx & Hlt & <-). rewrite <- undo_leaf_eq in Hx.
    destruct (u_leaf _ _ (dp_user _ _ _ _ _ D) _ _ _ Hx Hlt) as [_ ?]. congruence.
  - apply (r_node _ _ R) in HK. by rewrite Hnew in HK.
Qed.

Lemma undo_kind_new a : a ∈ w_free w -> w_kind w2 !! a = Some KFree.
Proof using All.
  intros Ha. destruct (decide (a ∈ w_free w1)) as [Ha1|Ha1].
  - apply (rep_free_kind R1) in Ha1. destruct (dp_kind _ _ _ _ _ D a) as [E|[E _]]; congruence.
  - apply (rep_free_kind (dp_rep _ _ _ _ _ D)), (dropped_free r σ1 w1 σ2 w2); [done|done|].
    destruct (x_new _ _ _ _ _ X a Ha Ha1) as [Hk|(p & Hk)]; [right|left; eauto]. split; [done|].
    intros r' va x Hx Hlt Hpa. destruct (decide (r' = r)) as [|Hne]; [done|]. rewrite Hl in Hx by done.
    destruct (u_leaf _ _ U _ _ _ Hx Hlt) as [_ Hku]. rewrite Hpa in Hku. apply (rep_free_kind R) in Ha. congruence.
Qed.

Lemma ext_dropped : restored σ w σ2 w2.
Proof using All.
  assert (w_kind w2 = w_kind w) as Ek.
  { apply map_eq. intros a. destruct (decide (a ∈ w_free w)) as [Ha|Ha]; [|by apply undo_kind_old].
    rewrite undo_kind_new by done. symmetry. by apply (rep_free_kind R). }
  split; [apply D|apply D|apply undo_leaf_eq| |done|..].
  - apply map_eq. intros [r' p]. rewrite (dp_node _ _ _ _ _ D). case_decide as Hd; [by subst|]. by apply (x_other _ _ _ _ _ X).
  - intros b Hb. rewrite (dp_mem _ _ _ _ _ D) by (by rewrite Ek). by apply (x_mem _ _ _ _ _ X).
  - intros a Ha. rewrite (dp_kern _ _ _ _ _ D), (x_kern _ _ _ _ _ X); try done.
    rewrite (x_kind _ _ _ _ _ X); [done|]. by eapply kind_not_free.
Qed.
End Undo.

(** ** Trampoline and trapframe *)

Lemma urefs_trap lf r va a : TRAPFRAME <= va -> urefs (delete (r, va) lf) a = urefs lf a.
Proof.
  intros Hva. destruct (lf !! (r, va)) as [x|] eqn:Hx; [|by rewrite delete_id]. unfold urefs.
  rewrite (cnt_delete _ _ _ _ Hx), decide_False by (unfold is_ref; cbn; lia). lia.
Qed.

Lemma uvmunmap_trap_wp σ w r va x (Q : unit -> machine -> Prop) : rep σ w -> user_ok σ w -> va_ok va -> TRAPFRAME <= va ->
  w_leaf w !! (r, va) = Some x -> Z.testbit x 0 = true -> PTE_FLAGS x <> PTE_V ->
  (forall σ', rep σ' (w_setleaf w r va 0) -> user_ok σ' (w_setleaf w r va 0) -> shrink σ w σ' (w_setleaf w r va 0) -> Q tt σ') ->
  wp (uvmunmap r va 1 false) σ Q.
Proof.
  intros R U Hva Htf Hx Hx0 Hfl HQ. destruct (leaf_node _ _ _ _ _ R Hx) as (_ & Hr & t & Ht).
  destruct Hva as [Hal Hva]. assert (MAXVA = 2 ^ 38) as EM by done.
  unfold uvmunmap. unfold aligned in Hal. rewrite Hal. cbn [negb Z.eqb].
  assert (u64 (va + 1 * PGSIZE) = va + PGSIZE) as -> by (unfold u64, PGSIZE in *; rewrite Z.mod_small; lia).
  apply (wp_loop _ (fun m a σ1 => (m = 1%nat /\ a = va /\ σ1 = σ) \/
    (m = 0%nat /\ a = va + PGSIZE /\ σ1 = store_entry t (PX 0 va) 0 σ)) _ _ 1%nat).
  - intros m a σ1 [(-> & -> & ->)|(-> & -> & ->)].
    + rewrite (proj2 (Z.ltb_lt va (va + PGSIZE))) by (unfold PGSIZE; lia).
      wp_step. apply (walk_read_wp σ w); [done|done|done|]. unfold pte_ptr. rewrite Ht.
      erewrite pte_addr_nonzero by (done || apply PX_range). wp_step. apply wp_ld.
      rewrite (load_leaf σ w r va t), Hx by (done || by split). cbn [default from_option id].
      rewrite flag_V, Hx0. cbn [negb]. rewrite (proj2 (Z.eqb_neq _ _)) by done. wp_step. wp_step. wp_step. apply wp_st. wp_step.
      exists 0%nat. split; [lia|]. right. split; [done|]. split; [|done]. unfold u64, PGSIZE in *. rewrite Z.mod_small; lia.
    + rewrite Z.ltb_irrefl. wp_step. apply HQ.
      * by apply rep_setleaf.
      * split; cbn; unfold set_leaf; rewrite decide_True by done.
        -- intros r' va' z [_ Hz]%lookup_delete_Some. by apply (u_leaf _ _ U r').
        -- intros a Ha. rewrite refcnt_store_entry, urefs_trap by done. by apply (u_rc _ _ U).
        -- intros r' v1 z1 v2 z2 [_ H1]%lookup_delete_Some [_ H2]%lookup_delete_Some. by eapply (u_once _ _ U).
        -- intros r' va' z [_ Hz]%lookup_delete_Some. by apply (u_trap _ _ U r').
      * split; cbn; [by left|done| |done]. intros b Hb. apply mget_store_entry; [by eapply (rep_node_ok R)|apply PX_range|].
        intros E. by rewrite E, (rep_node_kind R _ _ _ Ht) in Hb.
  - by left.
  - unfold page_fuel. lia.
Qed.
End Free.
