(* ===== verification/VmLife.v ===== *)
(** * The page table of a process from creation to release

    [proc_pagetable] and [proc_freepagetable] of kernel/proc.c over the
    functions of kernel/vm.c: the table that a process or an [exec] starts
    with maps only the trampoline and the trapframe; freeing a table gives
    every page back that nothing else uses. *)

From S2P Require Import Prelude Riscv Mem Kalloc Vm VmRep VmSpec Cow Fork CowFault VmGrow VmFree.

Section Life.
Context `{L : Layout}.

(** A process's table [r]: user memory is [0, sz), the trampoline and the
    trapframe page [tf] are at the top. *)
Record proc_table (w : world) (r sz tf : Z) : Prop := {
  pt_root : w_node w !! (r, []) = Some r;
  pt_tf : 0 <= tf < 2 ^ 55;
  pt_size : user_size w r sz;
  pt_tramp : w_leaf w !! (r, TRAMPOLINE) = Some (mkpte trampoline (Z.lor PTE_R PTE_X));
  pt_frame : w_leaf w !! (r, TRAPFRAME) = Some (mkpte tf (Z.lor PTE_R PTE_W))
}.

Lemma trap_va : va_ok TRAMPOLINE /\ va_ok TRAPFRAME /\ TRAPFRAME < TRAMPOLINE.
Proof. by vm_compute. Qed.

Lemma tramp_range : 0 <= trampoline < 2 ^ 55.
Proof. pose proof layout_base. pose proof layout_etext. pose proof layout_end. unfold PHYSTOP, KERNBASE, PGSIZE in *. lia. Qed.

Lemma trap_only va : va_ok va -> TRAPFRAME <= va -> va = TRAMPOLINE \/ va = TRAPFRAME.
Proof.
  intros [Ha Hv] Hle. assert (MAXVA = 2 ^ 38) by done. assert (TRAMPOLINE = 2 ^ 38 - 4096) as -> by done.
  rewrite TRAPFRAME_eq in *. unfold aligned, PGSIZE in *. dlia.
Qed.

Lemma trap_pte pa perm : 0 <= pa < 2 ^ 56 -> perm = Z.lor PTE_R PTE_X \/ perm = Z.lor PTE_R PTE_W ->
  Z.testbit (mkpte pa perm) 0 = true /\ Z.testbit (mkpte pa perm) 4 = false /\ PTE_FLAGS (mkpte pa perm) <> PTE_V.
Proof.
  intros Hpa Hp. assert (0 <= perm < 1024 /\ Z.testbit perm 1 = true /\ Z.testbit perm 4 = false) as (Hr & H1 & H4) by (by destruct Hp as [-> | ->]).
  split; [rewrite mkpte_testbit by lia; by rewrite orb_true_r|]. split; [rewrite mkpte_testbit by lia; by rewrite H4|].
  intros E. apply (f_equal (fun z => Z.testbit z 1)) in E. unfold PTE_FLAGS in E.
  rewrite Z.land_spec, mkpte_testbit in E by lia. by rewrite H1 in E.
Qed.

(** ** Release *)

(** The leaves of user memory, without those of the trampoline and the trapframe. *)
Lemma user_size_trap w w' r sz : 0 <= sz <= TRAPFRAME -> user_size w r sz ->
  (forall va, va < TRAPFRAME -> w_leaf w' !! (r, va) = w_leaf w !! (r, va)) -> user_size w' r sz.
Proof.
  intros Hsz [Hm Hmax] E. split.
  - intros j Hj. rewrite E; [by apply Hm|]. destruct (copy_pages_spec sz Hsz (copy_pages sz)) as [Hk _]; [lia|]. unfold PGSIZE in *. lia.
  - intros va x Hx Hlt. rewrite E in Hx by done. by eapply Hmax.
Qed.

Lemma cow_ok_trap w w' : cow_ok w -> (forall r va, va < TRAPFRAME -> w_leaf w' !! (r, va) = w_leaf w !! (r, va)) ->
  (forall a, urefs (w_leaf w') a = urefs (w_leaf w) a) -> cow_ok w'.
Proof. intros C El Eu r va x Hx Hlt HW. rewrite Eu. rewrite El in Hx by done. by apply (C r va). Qed.

Lemma setleaf_trap w r va : TRAPFRAME <= va -> let w' := w_setleaf w r va 0 in
  w_leaf w' = delete (r, va) (w_leaf w) /\ (forall r' va', va' < TRAPFRAME -> w_leaf w' !! (r', va') = w_leaf w !! (r', va')) /\
  (forall a, urefs (w_leaf w') a = urefs (w_leaf w) a).
Proof.
  intros Hva w'. assert (w_leaf w' = delete (r, va) (w_leaf w)) as El by (cbn; unfold set_leaf; by rewrite decide_True).
  split; [done|]. rewrite El. split; [|intros a; by apply urefs_trap].
  intros r' va' Hlt. rewrite lookup_delete_ne; [done|]. intros [= _ ?]. lia.
Qed.

(** Unmapping the trampoline or the trapframe first changes nothing else. *)
Lemma uvmunmap_dropped r va σ w σ1 σ2 w2 : TRAPFRAME <= va -> shrink σ w σ1 (w_setleaf w r va 0) ->
  dropped r σ1 (w_setleaf w r va 0) σ2 w2 -> dropped r σ w σ2 w2.
Proof.
  intros Hva S D. destruct (setleaf_trap w r va Hva) as (El & Hl & Hu). eapply dropped_shrink; [done| | |done].
  - intros C. by apply (cow_ok_trap w).
  - intros r' va' Hne. rewrite El, lookup_delete_ne; [done|]. by intros [= ? _].
Qed.

Lemma proc_freepagetable_wp σ w r sz tf (Q : unit -> machine -> Prop) : rep σ w -> user_ok σ w -> 0 <= sz <= TRAPFRAME ->
  proc_table w r sz tf -> (forall σ' w', dropped r σ w σ' w' -> Q tt σ') -> wp (proc_freepagetable r sz) σ Q.
Proof.
  intros R U Hsz [Hr Htf Hsize Ht Hf] HQ. destruct trap_va as (Vt & Vf & Hlt). pose proof tramp_range as Htr.
  destruct (trap_pte trampoline (Z.lor PTE_R PTE_X)) as (T0 & _ & Tf); [lia|by left|].
  destruct (trap_pte tf (Z.lor PTE_R PTE_W)) as (F0 & _ & Ff); [lia|by right|].
  unfold proc_freepagetable. wp_step. eapply (uvmunmap_trap_wp σ w r TRAMPOLINE); try done.
  intros σ1 R1 U1 S1. wp_step. destruct (setleaf_trap w r TRAMPOLINE) as (El1 & Hl1 & _); [lia|].
  assert (w_leaf (w_setleaf w r TRAMPOLINE 0) !! (r, TRAPFRAME) = Some (mkpte tf (Z.lor PTE_R PTE_W))) as Hf1
    by (rewrite El1, lookup_delete_ne; [done|intros [= E]; lia]).
  eapply (uvmunmap_trap_wp σ1 _ r TRAPFRAME); try done. set (w1 := w_setleaf w r TRAMPOLINE 0) in *.
  intros σ2 R2 U2 S2. destruct (setleaf_trap w1 r TRAPFRAME) as (El2 & Hl2 & _); [lia|].
  apply (uvmfree_wp σ2 (w_setleaf w1 r TRAPFRAME 0) r sz); try done.
  - apply (user_size_trap w); [done|done|]. intros va Hva. by rewrite Hl2, Hl1.
  - intros va x Hx. destruct (leaf_node _ _ _ _ _ R2 Hx) as (Hva & _). destruct (Z.lt_ge_cases va TRAPFRAME) as [|Hge]; [done|exfalso].
    rewrite El2, El1 in Hx. apply lookup_delete_Some in Hx as [H1 [H2 _]%lookup_delete_Some].
    destruct (trap_only va Hva Hge) as [-> | ->]; [by apply H2|by apply H1].
  - intros σ' w' D. apply (HQ σ' w'). eapply (uvmunmap_dropped r TRAMPOLINE); [lia|done|].
    eapply (uvmunmap_dropped r TRAPFRAME); [lia|done|done].
Qed.

(** ** Creation *)

(** No table has its root in a free page. *)
Lemma root_of σ w r p c : rep σ w -> w_node w !! (r, p) = Some c -> w_node w !! (r, []) = Some r.
Proof.
  intros R. revert c. induction p as [|j p IH] using rev_ind; intros c Hc.
  - by rewrite (r_root _ _ R _ _ Hc) in Hc.
  - destruct (r_path _ _ R _ _ _ Hc) as (_ & _ & Hq). destruct (Hq p j eq_refl) as [q Hq']. by apply (IH q).
Qed.

Lemma free_no_table σ w r p : rep σ w -> r ∈ w_free w -> w_node w !! (r, p) = None.
Proof.
  intros R Hf%(rep_free_kind R). destruct (w_node w !! (r, p)) as [c|] eqn:Hc; [exfalso|done].
  apply (root_of σ w r p c R), (rep_node_kind R) in Hc. congruence.
Qed.

Lemma urefs_instrap lf r va y a : lf !! (r, va) = None -> TRAPFRAME <= va -> urefs (<[(r, va) := y]> lf) a = urefs lf a.
Proof. intros Hn Hva. rewrite <- (urefs_trap (<[_ := y]> lf) r va) by done. by rewrite delete_insert_id. Qed.

(** A mapping at the trampoline or the trapframe, with new page-table pages. *)
Lemma user_ok_instrap r va y σ w σ' w' : rep σ w -> user_ok σ w -> rep σ' w' -> grow r σ w σ' w' ->
  w_leaf w' = <[(r, va) := y]> (w_leaf w) -> w_leaf w !! (r, va) = None -> TRAPFRAME <= va -> Z.testbit y 4 = false ->
  user_ok σ' w'.
Proof.
  intros R U R' G El Hn Hva Hy. set (w0 := World (w_free w') (w_kind w') (w_node w') (w_leaf w)).
  assert (user_ok σ' w0) as U0 by (by apply (user_ok_grow r σ w σ' w')).
  assert (forall r' va' x, w_leaf w' !! (r', va') = Some x -> va' < TRAPFRAME -> w_leaf w !! (r', va') = Some x) as Hl.
  { intros r' va' x. rewrite El. intros [[[= <- <-] _]|[_ Hx]]%lookup_insert_Some; [lia|done]. }
  split.
  - intros r' va' x Hx Hlt. apply (u_leaf _ _ U0 r' va'); [by apply Hl|done].
  - intros a Ha. rewrite El, urefs_instrap by done. by apply (u_rc _ _ U0).
  - intros r' v1 x1 v2 x2 H1 H2 Hl1 Hl2. apply (u_once _ _ U0 r' v1 x1 v2 x2); [by apply Hl|by apply Hl|done|done].
  - intros r' va' x. rewrite El. intros [[[= <- <-] <-]|[_ Hx]]%lookup_insert_Some; [done|]. by apply (u_trap _ _ U0 r').
Qed.

(** ** The steps of [proc_pagetable] *)

(** A new table [r] with leaves at [tops] only, all of them above user memory. *)
Record building (r : Z) (σ : machine) (w : world) (σ' : machine) (w' : world) : Prop := {
  bd_rep : rep σ' w';
  bd_user : user_ok σ' w';
  bd_cow : cow_ok w -> cow_ok w';
  bd_ext : ext r σ w σ' w';
  bd_fresh : r ∈ w_free w;
  bd_root : w_node w' !! (r, []) = Some r;
  bd_other : forall r' va, r' <> r -> w_leaf w' !! (r', va) = w_leaf w !! (r', va);
  bd_none : forall va, va < TRAPFRAME -> w_leaf w' !! (r, va) = None
}.

Lemma building_new σ w r fl σ' : rep σ w -> user_ok σ w -> w_free w = r :: fl ->
  rep σ' (w_newroot (w_take w r fl) r) -> (forall b, aligned b -> b <> r -> refcnt σ' b = refcnt σ b) ->
  (forall b, page_of b <> r -> mget (m_mem σ') b = mget (m_mem σ) b) ->
  building r σ w σ' (w_newroot (w_take w r fl) r).
Proof.
  intros R U Hf R' Hrc Hm. assert (r ∈ w_free w) as Hr by (rewrite Hf; set_solver).
  pose proof (proj1 (r_kfree _ _ R r) Hr) as Hk. pose proof (fun p => free_no_table σ w r p R Hr) as Hnn.
  assert (forall a, w_kind w !! a = Some KUser <-> w_kind (w_newroot (w_take w r fl) r) !! a = Some KUser) as Hku.
  { intros a. cbn. rewrite insert_insert_eq, lookup_insert. case_decide; naive_solver. }
  split; cbn; [done| |done| |done|by rewrite lookup_insert_eq|done|].
  - split; [|intros a Ha%Hku|apply (u_once _ _ U)|apply (u_trap _ _ U)].
    + intros r' va x Hx Hlt. destruct (u_leaf _ _ U _ _ _ Hx Hlt) as [? ?]. split; [done|by apply Hku].
    + cbn. rewrite Hrc; [by apply (u_rc _ _ U)|by eapply (rep_kind_aligned R)|congruence].
  - assert (forall b, b ∉ w_free w -> b <> r) as Hne by (rewrite Hf; set_solver).
    split; cbn; rewrite ?insert_insert_eq.
    + rewrite Hf. set_solver.
    + intros b Hb%Hne. by rewrite lookup_insert_ne.
    + rewrite Hf. intros b Hb Hb'. assert (b = r) as -> by set_solver. right. exists []. by rewrite lookup_insert_eq.
    + intros k v Hkv. rewrite lookup_insert_ne; [done|]. intros <-. by rewrite Hnn in Hkv.
    + intros r' p Hne'. by rewrite lookup_insert_ne by naive_solver.
    + intros b Hb. apply Hm. intros E. by rewrite E, Hk in Hb.
    + intros b Hb. apply Hrc; [by eapply (rep_kind_aligned R)|congruence].
  - intros va _. destruct (w_leaf w !! (r, va)) as [x|] eqn:Hx; [|done].
    destruct (leaf_node _ _ _ _ _ R Hx) as (_ & Hn & _). by rewrite Hnn in Hn.
Qed.

Lemma building_top r σ w σ1 w1 va y σ2 w2 : rep σ w -> building r σ w σ1 w1 -> rep σ2 w2 -> grow r σ1 w1 σ2 w2 ->
  w_leaf w2 = w_leaf w1 \/ (w_leaf w2 = <[(r, va) := y]> (w_leaf w1) /\ w_leaf w1 !! (r, va) = None) ->
  TRAPFRAME <= va -> Z.testbit y 4 = false -> building r σ w σ2 w2.
Proof.
  intros R [R1 U1 C1 X1 F1 N1 O1 V1] R2 G El Hva Hy.
  assert (user_ok σ2 w2) as U2.
  { destruct El as [El|[El Hn]]; [by apply (user_ok_grow r σ1 w1 σ2 w2)|by apply (user_ok_instrap r va y σ1 w1)]. }
  assert (forall k, k <> (r, va) -> w_leaf w2 !! k = w_leaf w1 !! k) as Hl.
  { intros k Hk. destruct El as [->|[-> _]]; [done|]. by rewrite lookup_insert_ne. }
  assert (forall r' va', va' < TRAPFRAME -> w_leaf w2 !! (r', va') = w_leaf w1 !! (r', va')) as Hl'
    by (intros r' va' Hlt; apply Hl; intros [= _ ?]; lia).
  split; [done|done| | |done| | |].
  - intros C. apply (cow_ok_trap w1); [by apply C1|done|]. intros a. destruct El as [->|[-> Hn]]; [done|by apply urefs_instrap].
  - exact (ext_trans _ _ _ _ _ _ _ R R1 X1 (grow_ext _ _ _ _ _ R1 G)).
  - by apply (g_node _ _ _ _ _ G).
  - intros r' va' Hne. rewrite Hl by naive_solver. by apply O1.
  - intros va' Hlt. rewrite Hl' by done. by apply V1.
Qed.

(** Giving up: the new table is freed and nothing is left of it. *)
Lemma building_free r σ w σ1 w1 (Q : unit -> machine -> Prop) : rep σ w -> user_ok σ w -> building r σ w σ1 w1 ->
  (forall va, TRAPFRAME <= va -> w_leaf w1 !! (r, va) = None) ->
  (forall σ' w', restored σ w σ' w' -> Q tt σ') -> wp (uvmfree r 0) σ1 Q.
Proof.
  intros R U [R1 U1 C1 X1 F1 N1 O1 V1] Hno HQ.
  assert (forall va, w_leaf w1 !! (r, va) = None) as He by (intros va; destruct (Z.lt_ge_cases va TRAPFRAME); auto).
  apply (uvmfree_wp σ1 w1); try done.
  - split; [intros j Hj; by apply Nat.nlt_0_r in Hj|]. intros va x. by rewrite He.
  - intros va x. by rewrite He.
  - intros σ' w' D. apply (HQ σ' w'). eapply (ext_dropped r σ w σ1 w1); try done. intros p. by apply (free_no_table σ).
Qed.

Lemma building_untop r σ w σ1 w1 va σ2 : rep σ w -> building r σ w σ1 w1 -> TRAPFRAME <= va ->
  rep σ2 (w_setleaf w1 r va 0) -> user_ok σ2 (w_setleaf w1 r va 0) -> shrink σ1 w1 σ2 (w_setleaf w1 r va 0) ->
  building r σ w σ2 (w_setleaf w1 r va 0).
Proof.
  intros R [R1 U1 C1 X1 F1 N1 O1 V1] Hva R2 U2 S2. destruct (setleaf_trap w1 r va Hva) as (El & Hl & Hu).
  split; [done|done| | |done|done| |].
  - intros C. by apply (cow_ok_trap w1), Hu; [apply C1|].
  - destruct X1 as [X1 X2 X3 X4 X5 X6 X7]. split; [done|done|done|done|done| |].
    + intros b Hb. rewrite (s_mem _ _ _ _ S2), X6; try done. cbn. rewrite X2; [done|]. by apply (meta_not_free σ w).
    + intros a Ha. rewrite (s_rc _ _ _ _ S2), X7; try done. rewrite X2; [done|]. by eapply kind_not_free.
  - intros r' va' Hne. rewrite El, lookup_delete_ne by naive_solver. by apply O1.
  - intros va' Hlt. rewrite Hl by done. by apply V1.
Qed.

(** [proc_pagetable]: a table with the trampoline and the trapframe, or
    nothing has changed; five pages are enough. *)
Lemma proc_pagetable_wp σ w tf (Q : Z -> machine -> Prop) : rep σ w -> user_ok σ w -> 0 <= tf < 2 ^ 55 ->
  (forall σ' w' r, building r σ w σ' w' -> proc_table w' r 0 tf -> took 5 w w' -> Q r σ') ->
  (forall σ' w', restored σ w σ' w' -> (length (w_free w) <= 5)%nat -> Q 0 σ') -> wp (proc_pagetable tf) σ Q.
Proof.
  intros R U Htf HQ HQ0. destruct trap_va as (Vt & Vf & Hlt). pose proof tramp_range as Htr.
  destruct (trap_pte trampoline (Z.lor PTE_R PTE_X)) as (T0 & T4 & Tf); [lia|by left|].
  destruct (trap_pte tf (Z.lor PTE_R PTE_W)) as (F0 & F4 & Ff); [lia|by right|].
  unfold proc_pagetable. wp_step. apply (uvmcreate_wp σ w); [done|]. destruct (w_free w) as [|r fl] eqn:Ef.
  { cbn [Z.eqb]. wp_step. apply (HQ0 σ w); [by split|]. cbn. lia. }
  intros σ1 R1 Hk Hrc Hm. pose proof (page_ok_range r (r_ok _ _ R _ _ Hk)).
  rewrite (proj2 (Z.eqb_neq r 0)) by (unfold KERNBASE in *; lia).
  pose proof (building_new σ w r fl σ1 R U Ef R1 Hrc Hm) as B1. set (w1 := w_newroot _ _) in *.
  assert (S (length fl) <= length (w_free w1) + 1)%nat as N1 by (cbn; lia).
  assert (forall va, w_leaf w1 !! (r, va) = None) as He1.
  { intros va. cbn. apply (new_leaf r σ w R). intros p. apply (free_no_table σ); [done|]. rewrite Ef. set_solver. }
  clearbody w1. clear Hrc Hm.
  wp_step. apply (mappages1_wp σ1 w1); [done|apply (bd_root _ _ _ _ _ B1)|done|done|done|unfold unmapped; by rewrite He1|..].
  { intros σ2 w2 R2 G2 N2 Hnil El. unfold took in *. rewrite Hnil in N2. cbn in N2. cbn [Z.ltb Z.compare]. wp_step.
    assert (building r σ w σ2 w2) as B2 by (by apply (building_top r σ w σ1 w1 TRAMPOLINE 0); [..|left|lia|]).
    eapply (building_free r σ w σ2 w2); [done|done|done|by intros; rewrite El|].
    intros σ' w' Rs. wp_step. apply (HQ0 σ' w' Rs). rewrite ?Ef. cbn [length]. lia. }
  intros σ2 w2 R2 G2 N2 El2. cbn [Z.ltb Z.compare].
  assert (building r σ w σ2 w2) as B2
    by (eapply (building_top r σ w σ1 w1 TRAMPOLINE (mkpte trampoline (Z.lor PTE_R PTE_X))); try done; right; by rewrite He1).
  assert (w_leaf w2 !! (r, TRAPFRAME) = None) as Hn2 by (rewrite El2, lookup_insert_ne, He1; [done|intros [= ?]; lia]).
  wp_step. apply (mappages1_wp σ2 w2); [done|apply (bd_root _ _ _ _ _ B2)|done|done|done|unfold unmapped; by rewrite Hn2|..].
  - intros σ3 w3 R3 G3 N3 Hnil El3. unfold took in *. rewrite Hnil in N3. cbn in N3. cbn [Z.ltb Z.compare]. wp_step.
    assert (building r σ w σ3 w3) as B3 by (by apply (building_top r σ w σ2 w2 TRAMPOLINE 0); [..|left|lia|]).
    eapply (uvmunmap_trap_wp σ3 w3 r TRAMPOLINE (mkpte trampoline (Z.lor PTE_R PTE_X))); try done; [apply (bd_user _ _ _ _ _ B3)|by rewrite El3, El2, lookup_insert_eq|].
    intros σ4 R4 U4 S4. wp_step. eapply (building_free r σ w σ4); [done|done|apply (building_untop r σ w σ3 w3 TRAMPOLINE); [done|done|lia|done..]| |].
    + intros va _. destruct (setleaf_trap w3 r TRAMPOLINE) as (-> & _); [lia|]. rewrite El3, El2, delete_insert_id by apply He1. apply He1.
    + intros σ' w' Rs. wp_step. apply (HQ0 σ' w' Rs). rewrite ?Ef. cbn [length]. lia.
  - intros σ3 w3 R3 G3 N3 El3. cbn [Z.ltb Z.compare]. wp_step. apply (HQ σ3 w3); [| |unfold took in *; rewrite ?Ef; cbn [length]; lia].
    + eapply (building_top r σ w σ2 w2 TRAPFRAME (mkpte tf (Z.lor PTE_R PTE_W))); try done; by right.
    + split; [by apply (g_node _ _ _ _ _ G3), (bd_root _ _ _ _ _ B2)|done| | |by rewrite El3, lookup_insert_eq].
      * split; [intros j Hj; by apply Nat.nlt_0_r in Hj|]. intros va x. rewrite El3, El2.
        intros [[[= <-] _]|[_ [[[= <-] _]|[_ Hx]]%lookup_insert_Some]]%lookup_insert_Some; [lia|lia|by rewrite He1 in Hx].
      * rewrite El3, lookup_insert_ne, El2 by (intros [= ?]; lia). by rewrite lookup_insert_eq.
Qed.
End Life.
