(* ===== verification/RepCheck.v ===== *)
(** * Deciding the representation predicates

    [rep_check] and [user_check] decide [rep], [user_ok] and [cow_ok] of a
    concrete machine and world by enumerating their finite maps.  The examples
    that instantiate the specifications use them. *)

From S2P Require Import Prelude Riscv Mem Kalloc Vm VmRep VmSpec Cow Fork CowFault.

(** All entries of a finite map. *)
Definition all_entries `{Countable K} {A} (f : K -> A -> bool) (m : gmap K A) : bool :=
  forallb (fun kv => f kv.1 kv.2) (map_to_list m).

Lemma all_entries_spec `{Countable K} {A} (f : K -> A -> bool) (m : gmap K A) k x :
  all_entries f m = true -> m !! k = Some x -> f k x = true.
Proof.
  intros Hf Hk. unfold all_entries in Hf. rewrite forallb_forall in Hf.
  apply (Hf (k, x)). apply list_elem_of_In. by apply elem_of_map_to_list.
Qed.

Definition entries512 : list Z := map Z.of_nat (seq 0 512).

Lemma entries512_spec (f : Z -> bool) i : forallb f entries512 = true -> idx_ok i -> f i = true.
Proof.
  intros Hf Hi. rewrite forallb_forall in Hf. apply Hf. unfold entries512.
  apply in_map_iff. exists (Z.to_nat i). unfold idx_ok in Hi. split; [lia|]. apply in_seq. lia.
Qed.

Section Check.
Context `{L : Layout}.

Fixpoint chain_check (m : mem) (head : Z) (l : list Z) : bool :=
  match l with
  | [] => head =? 0
  | a :: l => (head =? a) && chain_check m (load64 m a) l
  end.

Definition free_check (σ : machine) (fl : list Z) : bool :=
  chain_check (m_mem σ) (m_freelist σ) fl && bool_decide (NoDup fl) &&
  forallb (fun a => bool_decide (page_ok a) && (refcnt σ a =? 0)) fl.

(** The page-table page of a node, entry by entry. *)
Definition node_check (σ : machine) (w : world) (r : Z) (p : list Z) (a : Z) : bool :=
  bool_decide (w_kind w !! a = Some (KNode r p)) &&
  bool_decide (length p <= 2)%nat && bool_decide (Forall idx_ok p) &&
  (refcnt σ a =? 1) &&
  match p with
  | [] => a =? r
  | _ => bool_decide (is_Some (w_node w !! (r, removelast p)))
  end &&
  forallb (fun i =>
    load64 (m_mem σ) (pte_addr a i) =?
    match p with
    | [i2; i1] => default 0 (w_leaf w !! (r, va_of i2 i1 i))
    | _ =>
        match w_node w !! (r, p ++ [i]) with
        | Some c => Z.lor (PA2PTE c) PTE_V
        | None => 0
        end
    end) entries512.

Definition kind_check (w : world) (a : Z) (k : kind) : bool :=
  bool_decide (page_ok a) &&
  match k with
  | KFree => bool_decide (a ∈ w_free w)
  | KNode r p => bool_decide (w_node w !! (r, p) = Some a)
  | _ => true
  end.

Definition rep_check (σ : machine) (w : world) : bool :=
  free_check σ (w_free w) &&
  forallb (fun a => bool_decide (w_kind w !! a = Some KFree)) (w_free w) &&
  all_entries (kind_check w) (w_kind w) &&
  all_entries (fun k a => node_check σ w k.1 k.2 a) (w_node w) &&
  all_entries (fun k _ => bool_decide (va_ok k.2) &&
    bool_decide (is_Some (w_node w !! (k.1, [PX 2 k.2; PX 1 k.2])))) (w_leaf w).

Lemma chain_check_spec m head l : chain_check m head l = true -> chain m head l.
Proof.
  revert head. induction l as [|a l IH]; intros head; cbn; intros H; bool_to_prop; [done|].
  split; [done|]. by apply IH.
Qed.

Lemma free_check_spec σ fl : free_check σ fl = true -> free_rep σ fl.
Proof.
  unfold free_check. intros [[H1 H2]%andb_true_iff H3]%andb_true_iff.
  rewrite forallb_forall in H3.
  split; [by apply chain_check_spec|by apply bool_decide_eq_true in H2|..];
    apply Forall_forall; intros a Ha%list_elem_of_In%H3; apply andb_true_iff in Ha as [Ha1 Ha2].
  - by apply bool_decide_eq_true in Ha1.
  - by apply Z.eqb_eq.
Qed.

Lemma removelast_app (q : list Z) j : removelast (q ++ [j]) = q.
Proof. rewrite List.removelast_app by done. cbn. by rewrite app_nil_r. Qed.

Lemma rep_check_spec σ w : rep_check σ w = true -> rep σ w.
Proof.
  unfold rep_check. intros [[[[H1 H2]%andb_true_iff H3]%andb_true_iff H4]%andb_true_iff
    H5]%andb_true_iff. rewrite forallb_forall in H2.
  assert (forall r p a, w_node w !! (r, p) = Some a -> node_check σ w r p a = true) as HN
    by (intros r p a Hn; apply (all_entries_spec _ _ (r, p) a H4 Hn)).
  assert (forall a k, w_kind w !! a = Some k -> kind_check w a k = true) as HK
    by (intros a k Hk; apply (all_entries_spec _ _ a k H3 Hk)).
  unfold node_check in HN. unfold kind_check in HK.
  split.
  - by apply free_check_spec.
  - intros a. split.
    + intros Ha%list_elem_of_In%H2. by apply bool_decide_eq_true in Ha.
    + intros [_ Hk]%HK%andb_true_iff. by apply bool_decide_eq_true in Hk.
  - intros a k [Hk _]%HK%andb_true_iff. by apply bool_decide_eq_true in Hk.
  - intros r p a. split.
    + intros Hn%HN. rewrite !andb_true_iff in Hn. destruct Hn as (((((Hn & _) & _) & _) & _) & _).
      by apply bool_decide_eq_true in Hn.
    + intros [_ Hk]%HK%andb_true_iff. by apply bool_decide_eq_true in Hk.
  - intros r a Hn%HN. rewrite !andb_true_iff in Hn. destruct Hn as ((_ & Hn) & _). by apply Z.eqb_eq.
  - intros r p a Hn%HN. rewrite !andb_true_iff in Hn. destruct Hn as (((((_ & Hl) & Hi) & _) & Hq) & _).
    apply bool_decide_eq_true in Hl, Hi. split; [done|]. split; [done|].
    intros q j ->. destruct (q ++ [j]) eqn:E; [by destruct q|]. rewrite <- E, removelast_app in Hq.
    by apply bool_decide_eq_true in Hq.
  - intros r p a i Hn%HN Hlen Hi. rewrite !andb_true_iff in Hn. destruct Hn as (_ & He).
    apply (entries512_spec _ i) in He; [|done]. apply Z.eqb_eq in He. rewrite He.
    destruct p as [|? [|? [|]]]; done || (cbn in Hlen; lia).
  - intros r i2 i1 a i0 Hn%HN Hi. rewrite !andb_true_iff in Hn. destruct Hn as (_ & He).
    apply (entries512_spec _ i0) in He; [|done]. by apply Z.eqb_eq in He.
  - intros r va x Hx. apply (all_entries_spec _ _ (r, va) x H5) in Hx. cbn in Hx.
    apply andb_true_iff in Hx as [Hv Ht]. by apply bool_decide_eq_true in Hv, Ht.
  - intros r p a Hn%HN. rewrite !andb_true_iff in Hn. destruct Hn as (((_ & Hn) & _) & _).
    by apply Z.eqb_eq.
Qed.
End Check.

(** ** The copy-on-write invariants *)

Definition leaf_check (w : world) (r va x : Z) : bool :=
  if va <? TRAPFRAME then
    (0 <=? x) && (x <? 2 ^ 54) && Z.testbit x 0 && Z.testbit x 1 &&
    bool_decide (w_kind w !! PTE2PA x = Some KUser) &&
    all_entries (fun k y => negb (k.1 =? r) || negb (k.2 <? TRAPFRAME) ||
      negb (PTE2PA y =? PTE2PA x) || (k.2 =? va)) (w_leaf w)
  else negb (Z.testbit x 4).

Definition user_check (σ : machine) (w : world) : bool :=
  all_entries (fun k x => leaf_check w k.1 k.2 x) (w_leaf w) &&
  all_entries (fun a k => match k with
    | KUser => (refcnt σ a =? urefs (w_leaf w) a) && (1 <=? refcnt σ a)
    | _ => true end) (w_kind w).

Definition cow_check (w : world) : bool :=
  all_entries (fun k x => negb (k.2 <? TRAPFRAME) || negb (Z.testbit x 2) ||
    (urefs (w_leaf w) (PTE2PA x) =? 1)) (w_leaf w).

Lemma user_check_spec σ w : user_check σ w = true -> user_ok σ w.
Proof.
  unfold user_check. intros [H1 H2]%andb_true_iff.
  assert (forall r va x, w_leaf w !! (r, va) = Some x -> leaf_check w r va x = true) as HL
    by (intros r va x Hx; apply (all_entries_spec _ _ (r, va) x H1 Hx)).
  unfold leaf_check in HL. split.
  - intros r va x Hx%HL Hlt. rewrite (proj2 (Z.ltb_lt _ _) Hlt), !andb_true_iff in Hx.
    destruct Hx as (((((?%Z.leb_le & ?%Z.ltb_lt) & ?) & ?) & Hk) & _).
    apply bool_decide_eq_true in Hk. done.
  - intros a Ha. apply (all_entries_spec _ _ a KUser H2) in Ha. cbn in Ha.
    by apply andb_true_iff in Ha as [?%Z.eqb_eq ?%Z.leb_le].
  - intros r va x va' x' Hx%HL Hx' Hlt Hlt' E.
    rewrite (proj2 (Z.ltb_lt _ _) Hlt), !andb_true_iff in Hx. destruct Hx as [_ Hx].
    apply (all_entries_spec _ _ (r, va') x' Hx) in Hx'. cbn in Hx'.
    rewrite Z.eqb_refl, (proj2 (Z.ltb_lt _ _) Hlt'), E, Z.eqb_refl in Hx'. cbn in Hx'.
    by apply Z.eqb_eq in Hx'.
  - intros r va x Hx%HL Hge. rewrite (proj2 (Z.ltb_ge _ _) Hge) in Hx. by apply negb_true_iff.
Qed.

Lemma cow_check_spec w : cow_check w = true -> cow_ok w.
Proof.
  intros H r va x Hx Hlt HW. apply (all_entries_spec _ _ (r, va) x H) in Hx. cbn [fst snd] in Hx.
  rewrite (proj2 (Z.ltb_lt _ _) Hlt), HW in Hx. by apply Z.eqb_eq.
Qed.
