(* ===== verification/Demo.v ===== *)
(** * Concrete address spaces

    A small machine with a parent process (two pages), the page table of its
    child, and a few free pages: before [fork] ([before]) and after it
    ([after], [after_full] without free memory).  The examples instantiate the
    specifications on these states. *)

From S2P Require Import Prelude Riscv Mem Kalloc Vm VmRep VmSpec Cow Fork CowFault RepCheck.

(** Where a linker could put the kernel. *)
#[export, program] Instance demo_layout : Layout :=
  {| kend := 0x80022000; etext := 0x80008000; trampoline := 0x80007000 |}.
Solve All Obligations with done.

Definition pg (k : Z) : Z := 0x87f00000 + k * PGSIZE.
Definition words (l : list (Z * Z)) : mem := foldr (fun '(a, v) m => store64 m a v) ∅ l.
Definition counts (l : list (Z * Z)) : gmap Z Z :=
  list_to_map (map (fun '(k, n) => (ref_idx (pg k), n)) l).
Definition link (k : Z) : Z := Z.lor (PA2PTE (pg k)) PTE_V.

(** Parent: root 0, page-table pages 1 and 2, user pages 3 (text, data) and 4.
    Child: root 5.  Free pages 8 to 11. *)
Definition x3 : Z := mkpte (pg 3) (Z.lor (Z.lor (Z.lor PTE_R PTE_W) PTE_X) PTE_U).
Definition x4 : Z := mkpte (pg 4) (Z.lor (Z.lor PTE_R PTE_W) PTE_U).
Definition user_data : list (Z * Z) := [(pg 3, 0x1122334455667788); (pg 4 + 16, 0xabcdef)].
Definition free_links : list (Z * Z) := [(pg 8, pg 9); (pg 9, pg 10); (pg 10, pg 11)].

Definition before : machine := Machine
  (words ([(pg 0, link 1); (pg 1, link 2); (pg 2, x3); (pg 2 + 8, x4)] ++ user_data ++ free_links))
  (pg 8) (counts [(0, 1); (1, 1); (2, 1); (3, 1); (4, 1); (5, 1)]).

Definition before_world : world := World
  [pg 8; pg 9; pg 10; pg 11]
  (list_to_map [(pg 0, KNode (pg 0) []); (pg 1, KNode (pg 0) [0]); (pg 2, KNode (pg 0) [0; 0]);
     (pg 3, KUser); (pg 4, KUser); (pg 5, KNode (pg 5) []);
     (pg 8, KFree); (pg 9, KFree); (pg 10, KFree); (pg 11, KFree)])
  (list_to_map [((pg 0, []), pg 0); ((pg 0, [0]), pg 1); ((pg 0, [0; 0]), pg 2); ((pg 5, []), pg 5)])
  (list_to_map [((pg 0, 0), x3); ((pg 0, PGSIZE), x4)]).

(** After [fork]: the child has page-table pages 6 and 7 and shares pages 3
    and 4 with its parent. *)
Definition after_mem (fr : list (Z * Z)) : mem :=
  words ([(pg 0, link 1); (pg 1, link 2); (pg 2, cowify x3); (pg 2 + 8, cowify x4);
          (pg 5, link 6); (pg 6, link 7); (pg 7, cowify x3); (pg 7 + 8, cowify x4)] ++ user_data ++ fr).
Definition after_counts : gmap Z Z :=
  counts [(0, 1); (1, 1); (2, 1); (3, 2); (4, 2); (5, 1); (6, 1); (7, 1)].
Definition after_kinds : list (Z * kind) :=
  [(pg 0, KNode (pg 0) []); (pg 1, KNode (pg 0) [0]); (pg 2, KNode (pg 0) [0; 0]);
   (pg 3, KUser); (pg 4, KUser); (pg 5, KNode (pg 5) []); (pg 6, KNode (pg 5) [0]);
   (pg 7, KNode (pg 5) [0; 0])].
Definition after_nodes : gmap (Z * list Z) Z :=
  list_to_map [((pg 0, []), pg 0); ((pg 0, [0]), pg 1); ((pg 0, [0; 0]), pg 2);
    ((pg 5, []), pg 5); ((pg 5, [0]), pg 6); ((pg 5, [0; 0]), pg 7)].
Definition after_leaves : gmap (Z * Z) Z :=
  list_to_map [((pg 0, 0), cowify x3); ((pg 0, PGSIZE), cowify x4);
    ((pg 5, 0), cowify x3); ((pg 5, PGSIZE), cowify x4)].

Definition after : machine := Machine (after_mem [(pg 8, pg 9)]) (pg 8) after_counts.
Definition after_world : world := World [pg 8; pg 9]
  (list_to_map (after_kinds ++ [(pg 8, KFree); (pg 9, KFree)])) after_nodes after_leaves.

Definition after_full : machine := Machine (after_mem []) 0 after_counts.
Definition after_full_world : world := World [] (list_to_map after_kinds) after_nodes after_leaves.

(** As [after_full], with page 3 a read-only text page. *)
Definition x3_text : Z := mkpte (pg 3) (Z.lor (Z.lor PTE_R PTE_X) PTE_U).
Definition text : machine := Machine
  (words ([(pg 0, link 1); (pg 1, link 2); (pg 2, x3_text);
           (pg 5, link 6); (pg 6, link 7); (pg 7, x3_text)] ++ user_data))
  0 (counts [(0, 1); (1, 1); (2, 1); (3, 2); (5, 1); (6, 1); (7, 1)]).
Definition text_world : world := World []
  (delete (pg 4) (list_to_map after_kinds)) after_nodes
  (list_to_map [((pg 0, 0), x3_text); ((pg 5, 0), x3_text)]).

Lemma before_rep : rep before before_world.
Proof. apply rep_check_spec. vm_compute. reflexivity. Qed.
Lemma before_user : user_ok before before_world.
Proof. apply user_check_spec. vm_compute. reflexivity. Qed.
Lemma before_cow : cow_ok before_world.
Proof. apply cow_check_spec. vm_compute. reflexivity. Qed.

Lemma after_rep : rep after after_world.
Proof. apply rep_check_spec. vm_compute. reflexivity. Qed.
Lemma after_user : user_ok after after_world.
Proof. apply user_check_spec. vm_compute. reflexivity. Qed.
Lemma after_cow : cow_ok after_world.
Proof. apply cow_check_spec. vm_compute. reflexivity. Qed.

Lemma after_full_rep : rep after_full after_full_world.
Proof. apply rep_check_spec. vm_compute. reflexivity. Qed.
Lemma after_full_user : user_ok after_full after_full_world.
Proof. apply user_check_spec. vm_compute. reflexivity. Qed.

Lemma before_few : few_tables before_world.
Proof.
  exists [pg 0; pg 5]. split; [cbn; lia|]. intros r [a Ha].
  assert (all_entries (fun k _ => bool_decide (k.2 = [] -> k.1 ∈ [pg 0; pg 5])) (w_node before_world) = true)
    as Hc by (vm_compute; reflexivity).
  apply (all_entries_spec _ _ _ _ Hc) in Ha. apply bool_decide_eq_true in Ha. by apply Ha.
Qed.

Lemma text_rep : rep text text_world.
Proof. apply rep_check_spec. vm_compute. reflexivity. Qed.
Lemma text_user : user_ok text text_world.
Proof. apply user_check_spec. vm_compute. reflexivity. Qed.

Lemma before_child_empty va : w_leaf before_world !! (pg 5, va) = None.
Proof.
  destruct (w_leaf before_world !! (pg 5, va)) eqn:E; [|done].
  assert (all_entries (fun k _ => negb (k.1 =? pg 5)) (w_leaf before_world) = true) as Hc
    by (vm_compute; reflexivity).
  apply (all_entries_spec _ _ _ _ Hc) in E. clear Hc.
  cbn [fst] in E. rewrite Z.eqb_refl in E. discriminate E.
Qed.

Lemma before_mapped : mapped before_world (pg 0) 0 (copy_pages 8192).
Proof.
  change (copy_pages 8192) with 2%nat. intros [|[|j]] Hj; [exists x3; vm_compute; reflexivity|exists x4; vm_compute; reflexivity|lia].
Qed.

(** Every user page of the parent and of the child can be written. *)
Lemma demo_writable w r lo hi :
  all_entries (fun _ x => Z.testbit x 2 || Z.testbit x 8) (w_leaf w) = true ->
  forall p x, w_leaf w !! (r, p) = Some x -> page_of lo <= p < hi ->
    Z.testbit x 4 = true -> Z.testbit x 2 = true \/ Z.testbit x 8 = true.
Proof. intros Hc p x Hx _ _. by apply (all_entries_spec _ _ _ _ Hc), orb_true_iff in Hx. Qed.
