(* ===== verification/VmTheorems.v ===== *)
(** * The main theorems on virtual memory

    [fork], page faults and the copy routines, each with an instance on the
    concrete machines of Demo.v, and the states where copy-on-write goes wrong. *)

From S2P Require Import Prelude Riscv Mem Kalloc Vm VmRep VmSpec Cow Fork CowFault CopyOut.
From S2P Require Import RepCheck Demo.

(** Entries of the same page with the same load permissions. *)
Definition leaf_sim (o o' : option Z) : Prop :=
  match o, o' with
  | Some x, Some y => PTE2PA y = PTE2PA x /\ same_perm x y
  | None, None => True
  | _, _ => False
  end.

Lemma cowify_perm x : 0 <= x < 2 ^ 64 -> same_perm x (cowify x).
Proof. intros Hx. unfold same_perm. by rewrite !cowify_bit by lia. Qed.

Lemma cowify_sim x : leaf_wf x -> leaf_sim (Some x) (Some (cowify x)).
Proof. intros Hx%leaf_wf_64. split; [by apply cowify_pa|by apply cowify_perm]. Qed.

Lemma leaf_sim_refl o : leaf_sim o o.
Proof. by destruct o. Qed.

(** A page address below [sz] is one of the pages copied. *)
Lemma page_index va sz : 0 <= va < sz ->
  exists j, (j < copy_pages sz)%nat /\ page_of va = Z.of_nat j * PGSIZE.
Proof.
  intros Hva. exists (Z.to_nat (va / PGSIZE)). unfold copy_pages, page_of, PGSIZE. dlia.
Qed.

Section Theorems.
Context `{L : Layout}.

Lemma view_sim r0 σ w σ' w' r r' va :
  rep σ w -> user_ok σ w -> ext r0 σ w σ' w' -> va < TRAPFRAME ->
  leaf_sim (w_leaf w !! (r, page_of va)) (w_leaf w' !! (r', page_of va)) ->
  uload σ' w' r' va = uload σ w r va.
Proof.
  intros R U X Hlt Hs. unfold uload.
  assert (page_of va < TRAPFRAME) as Hp by (apply page_of_lt; [apply TRAPFRAME_aligned|done]).
  destruct (w_leaf w !! (r, page_of va)) as [x|] eqn:Hx, (w_leaf w' !! (r', page_of va)) as [y|];
    try done. destruct Hs as [E (P0 & P1 & P4)]. rewrite P0, P1, P4, E.
  destruct (user_page _ _ _ _ _ R U Hx Hp) as ([Hal _] & _ & Hk & _).
  rewrite (x_mem _ _ _ _ _ X (PTE2PA x + va mod PGSIZE)); [done|]. by rewrite page_of_pa, Hk.
Qed.

(** The parent's entries after the copy, page by page. *)
Lemma mark_sim σ w old k p :
  user_ok σ w -> p < TRAPFRAME ->
  leaf_sim (w_leaf w !! (old, p)) (mark_leaf (w_leaf w) old k !! (old, p)).
Proof.
  intros U Hp. destruct (decide (Exists (fun j => p = Z.of_nat j * PGSIZE) (seq 0 k))) as [Hj|Hj].
  - apply Exists_exists in Hj as (j & [_ Hj]%elem_of_seq & ->). rewrite mark_leaf_old by lia.
    destruct (w_leaf w !! _) as [x|] eqn:Hx; [|done]. apply cowify_sim. by eapply (u_leaf _ _ U).
  - rewrite mark_leaf_ne; [apply leaf_sim_refl|]. left. intros j Hjk ->.
    apply Hj, Exists_exists. exists j. split; [|done]. apply elem_of_seq. lia.
Qed.

(** The entry [y] maps the page of [x] for reading only; a page that could be
    written is marked copy-on-write, and all other bits are kept. *)
Definition shared_entry (x y : Z) : Prop :=
  PTE2PA y = PTE2PA x /\ Z.testbit y 2 = false /\ Z.testbit y 8 = Z.testbit x 8 || Z.testbit x 2 /\
  forall k, 0 <= k -> k <> 2 -> k <> 8 -> Z.testbit y k = Z.testbit x k.

Lemma cowify_shared x : leaf_wf x -> shared_entry x (cowify x).
Proof.
  intros Hx%leaf_wf_64. split; [by apply cowify_pa|]. split; [by apply cowify_W|].
  split; [by apply cowify_COW|]. intros k Hk H2 H8. by apply cowify_bit.
Qed.

(** Both tables have the same entry for the page of [va], and the counter of
    the page has been increased. *)
Definition forked (σ : machine) (w : world) (old new va : Z) (σ' : machine) (w' : world) : Prop :=
  exists x y, w_leaf w !! (old, page_of va) = Some x /\ shared_entry x y /\
    w_leaf w' !! (old, page_of va) = Some y /\ w_leaf w' !! (new, page_of va) = Some y /\
    refcnt σ' (PTE2PA x) = refcnt σ (PTE2PA x) + 1.

(** What [fork] promises of memory. *)
Definition fork_post (σ : machine) (w : world) (old new sz v : Z) (σ' : machine) : Prop :=
  exists w', rep σ' w' /\ user_ok σ' w' /\ cow_ok w' /\
    (forall r va, r <> new -> va < TRAPFRAME -> uload σ' w' r va = uload σ w r va) /\
    (forall r p, r <> old -> r <> new -> w_leaf w' !! (r, p) = w_leaf w !! (r, p)) /\
    ((v = 0 /\
      (forall va, 0 <= va < sz -> uload σ' w' new va = uload σ w old va) /\
      (forall va, 0 <= va < sz -> forked σ w old new va σ' w')) \/
     (v = -1 /\ w_free w' = [] /\ (forall p, p < TRAPFRAME -> w_leaf w' !! (new, p) = None) /\
      forall p x, w_leaf w !! (old, p) = Some x -> p < TRAPFRAME ->
        exists y, w_leaf w' !! (old, p) = Some y /\ (y = x \/ shared_entry x y))).

Section Uvmcopy.
Context (σ : machine) (w : world) (old new sz : Z) (R : rep σ w) (U : user_ok σ w).
Context (Hne : old <> new) (Hsz : 0 <= sz <= TRAPFRAME).
Context (Hempty : forall va, va < TRAPFRAME -> w_leaf w !! (new, va) = None) (Hmap : mapped w old 0 (copy_pages sz)).

Lemma copied_entry j : (j < copy_pages sz)%nat ->
  Z.of_nat j * PGSIZE < TRAPFRAME /\ exists x, w_leaf w !! (old, Z.of_nat j * PGSIZE) = Some x /\ leaf_wf x.
Proof using U Hsz Hmap.
  intros Hj. assert (Z.of_nat j * PGSIZE < TRAPFRAME) as Hlt by (destruct (copy_pages_spec sz Hsz j); lia).
  split; [done|]. destruct (Hmap j Hj) as [x Hx]. rewrite Z.add_0_l in Hx. exists x. split; [done|]. by eapply (u_leaf _ _ U).
Qed.

Lemma uvmcopy_forked va σ' w' : 0 <= va < sz -> user_ok σ' w' -> rep σ' w' ->
  w_leaf w' = copy_leaf (w_leaf w) old new (copy_pages sz) -> forked σ w old new va σ' w'.
Proof using All.
  intros Hva U' R' El. destruct (page_index va sz Hva) as (j & Hj & Ep), (copied_entry j Hj) as (Hlt & x & Hx & Hwf).
  assert (w_leaf w' !! (old, Z.of_nat j * PGSIZE) = Some (cowify x)) as Ho by (by rewrite El, copy_leaf_old, Hx).
  exists x, (cowify x). rewrite Ep. split; [done|]. split; [by apply cowify_shared|]. split; [done|].
  split; [by rewrite El, copy_leaf_new, Hx by (done || by eexists)|].
  destruct (user_page _ _ _ _ _ R U Hx Hlt) as (_ & _ & _ & -> & _).
  destruct (user_page _ _ _ _ _ R' U' Ho Hlt) as (_ & _ & _ & Hrc & _). rewrite cowify_pa in Hrc by auto with xv6.
  rewrite Hrc, El, (copy_urefs _ _ _ j x), decide_True; try done.
  - intros i Hi. destruct (copied_entry i Hi) as (Hli & y & Hy & Hwfy). exists y. split; [done|].
    split; [auto with xv6|]. intros E. apply page_mul_inj. by apply (u_once _ _ U old _ y _ x).
  - intros i Hi. destruct (copied_entry i Hi) as [Hli _]. auto.
Qed.

Lemma mark_entry k p x : w_leaf w !! (old, p) = Some x -> p < TRAPFRAME ->
  exists y, mark_leaf (w_leaf w) old k !! (old, p) = Some y /\ (y = x \/ shared_entry x y).
Proof using U.
  intros Hx Hp. destruct (decide (Exists (fun j => p = Z.of_nat j * PGSIZE) (seq 0 k))) as [Hj|Hj].
  - apply Exists_exists in Hj as (j & [_ Hj]%elem_of_seq & ->). exists (cowify x).
    rewrite mark_leaf_old, Hx by lia. split; [done|]. right. apply cowify_shared. by eapply (u_leaf _ _ U).
  - exists x. split; [|by left]. rewrite mark_leaf_ne; [done|]. left. intros j Hjk ->.
    apply Hj, Exists_exists. exists j. split; [|done]. apply elem_of_seq. lia.
Qed.
End Uvmcopy.

(** C3: [uvmcopy], the memory half of [fork], always returns.  Whatever it
    returns, the representation, the reference counts and the copy-on-write
    discipline hold again, no process sees its memory change and the page tables
    of all others are as before.  If it returns 0, the child sees at every
    address below [sz] what the parent saw: both map the same page with the same
    entry, whose reference count is one more.  The entry does not allow writing
    and is marked copy-on-write exactly if the parent's allowed writing or was
    marked; its other bits are the parent's.  If it returns -1, memory was
    exhausted, the child's user space is empty again, and each entry of the
    parent is as before or is such a read-only one for the same page. *)
Theorem uvmcopy_fork σ w old new sz :
  rep σ w -> user_ok σ w -> cow_ok w -> few_tables w ->
  w_node w !! (old, []) = Some old -> w_node w !! (new, []) = Some new -> old <> new ->
  0 <= sz <= TRAPFRAME ->
  (forall va, va < TRAPFRAME -> w_leaf w !! (new, va) = None) ->
  mapped w old 0 (copy_pages sz) ->
  wp (uvmcopy old new sz) σ (fork_post σ w old new sz).
Proof.
  intros R U C F Hold Hnew Hne Hsz Hempty Hmap. eapply wp_mono; [by apply (uvmcopy_wp σ w old new sz)|].
  intros v σ' (w' & R' & U' & X & Cw & Hres). exists w'.
  split; [done|]. split; [done|]. split; [by apply Cw|]. destruct Hres as [[-> El]|(-> & Hnil & k & Hk & El)].
  - split; [|split; [|left; split; [done|]; split]].
    + intros r va Hr Hlt. eapply view_sim; [done|done|done|done|]. rewrite El.
      destruct (decide (r = old)) as [->|Ho].
      * rewrite mark_copy_old by done. eapply mark_sim; [done|]. apply page_of_lt; [apply TRAPFRAME_aligned|done].
      * rewrite copy_leaf_ne by (by right). apply leaf_sim_refl.
    + intros r p Ho Hn. rewrite El. apply copy_leaf_ne. by right.
    + intros va Hva. eapply view_sim; [done|done|done|lia|]. destruct (page_index va sz Hva) as (j & Hj & Ep).
      destruct (copied_entry σ w old sz U Hsz Hmap j Hj) as (_ & x & Hx & Hwf).
      rewrite El, Ep, copy_leaf_new, Hx by (done || by eexists). by apply cowify_sim.
    + intros va Hva. by apply (uvmcopy_forked σ w old new sz).
  - split; [|split; [|right; split; [done|]; split; [done|]; split]].
    + intros r va Hr Hlt. eapply view_sim; [done|done|done|done|]. rewrite El.
      destruct (decide (r = old)) as [->|Ho].
      * eapply mark_sim; [done|]. apply page_of_lt; [apply TRAPFRAME_aligned|done].
      * rewrite mark_leaf_ne by (by right). apply leaf_sim_refl.
    + intros r p Ho Hn. rewrite El. apply mark_leaf_ne. by right.
    + intros p Hp. rewrite El, mark_leaf_ne by (by right). by apply Hempty.
    + intros p x Hx Hp. rewrite El. by apply (mark_entry σ w old U).
Qed.

(** C10: [cow_alloc] on a mapped user page always returns.  A result other
    than 0 is the page that the address now maps: it is writable, this entry
    is its only mapping, every invariant holds again, and no process sees
    any byte change.  The result 0 is returned exactly when the page is
    shared and memory is exhausted. *)
Theorem cow_alloc_private σ w r va x :
  rep σ w -> user_ok σ w -> w_leaf w !! (r, va) = Some x -> va < TRAPFRAME ->
  wp (cow_alloc r va) σ (fun v σ' => exists w', rep σ' w' /\ user_ok σ' w' /\
    same_view σ w σ' w' /\
    (v = 0 <-> w_free w = [] /\ 1 < urefs (w_leaf w) (PTE2PA x)) /\
    (v <> 0 -> (cow_ok w -> cow_ok w') /\ urefs (w_leaf w') v = 1 /\
       exists y, w_leaf w' = <[(r, va) := y]> (w_leaf w) /\ PTE2PA y = v /\ Z.testbit y 2 = true)).
Proof.
  intros R U Hx Hva. apply (cow_alloc_wp σ w r va x); try done.
  - intros v σ' w' P Hv Hex. destruct (p_leaf _ _ _ _ _ _ _ P) as (y & El & Ey & HW & _ & H1).
    exists w'. destruct P. split; [done|]. split; [done|]. split; [done|].
    split; [split; [done|tauto]|]. intros _. split; [done|]. split; [done|]. by exists y.
  - intros σ' Hf H1 R' U' X. exists (w_setleaf w r va (Z.lor x PTE_W)).
    split; [done|]. split; [done|]. split; [|split; [by split|done]].
    eapply (view_setflags r _ _ _ _ r va x (Z.lor x PTE_W)); try done.
    + cbn. apply set_leaf_insert. apply lor_W_wf. by eapply (u_leaf _ _ U).
    + apply lor_W_pa.
    + unfold same_perm. by rewrite !lor_W_bit by lia.
Qed.

(** C5: [copyout] is total on 64-bit addresses and isolated, given that each page
    of the range that the process can read is writable or marked copy-on-write:
    [copyout] does not test this.  It returns 0 or -1.  With 0, the process could
    read every address of the range, it sees the new bytes there, no process (the
    destination included) sees any other byte change, and the invariants hold
    again.  With -1 the same bytes are seen up to the first address that could
    not be stored to, and that is either an address the process cannot read or
    one on a shared copy-on-write page when no page is free. *)
Theorem copyout_isolated σ w r d bs :
  rep σ w -> user_ok σ w -> cow_ok w -> w_node w !! (r, []) = Some r ->
  0 <= d < 2 ^ 64 -> Z.of_nat (length bs) < 2 ^ 64 -> Forall is_byte bs ->
  writable w r d (d + Z.of_nat (length bs)) ->
  wp (copyout r d bs) σ (copyout_post σ w r d bs).
Proof. apply copyout_wp. Qed.

(** C25: what [copyout] stores, [copyin] reads back.  The pages of the range that
    the process can read are writable or marked copy-on-write. *)
Theorem copyin_copyout σ w r d bs :
  rep σ w -> user_ok σ w -> cow_ok w -> w_node w !! (r, []) = Some r ->
  0 <= d -> d + Z.of_nat (length bs) <= TRAPFRAME -> Forall is_byte bs ->
  writable w r d (d + Z.of_nat (length bs)) ->
  wp (copyout r d bs) σ (fun v σ' => v = 0 ->
    wp (copyin r d (Z.of_nat (length bs))) σ' (fun res σ'' => res = (0, bs) /\ σ'' = σ')).
Proof.
  intros R U C Hr Hd Hend Hb Hw. assert (TRAPFRAME = 2 ^ 38 - 8192) as ET by done.
  eapply wp_mono; [apply (copyout_wp σ w); try done; lia|].
  intros v σ' (w' & R' & U' & Hr' & Hres) ->. destruct Hres as [(_ & C' & W & _)|[? _]]; [|done].
  assert (forall i, (i < length bs)%nat -> uload σ' w' r (d + Z.of_nat i) = bs !! i) as Hload.
  { intros i Hi. rewrite W by lia. rewrite decide_True by lia. f_equal. lia. }
  eapply wp_mono; [apply (copyin_wp σ' w'); try done; lia|].
  intros [v dst] σ'' (-> & Hsees & [[E Hlen]|(_ & i & Hi & Hno)]); cbn in *.
  - split; [|done]. f_equal; [done|]. apply list_eq. intros i.
    destruct (decide (i < length bs)%nat) as [Hi|Hi].
    + rewrite <- Hload, <- Hsees by lia. done.
    + rewrite !lookup_ge_None_2 by lia. done.
  - specialize (Hload (Z.to_nat i) ltac:(lia)). rewrite Z2Nat.id, Hno in Hload by lia.
    symmetry in Hload. apply lookup_ge_None in Hload. lia.
Qed.

(** C31: when memory is exhausted, [cow_alloc] of a shared page returns 0 but
    leaves the entry writable: the copy-on-write discipline is broken and
    the next store of the process changes the page that others still map.
    [copyout] returns -1 in this case and the process goes on. *)
Theorem cow_alloc_oom σ w r va x :
  rep σ w -> user_ok σ w -> w_leaf w !! (r, va) = Some x -> va < TRAPFRAME ->
  w_free w = [] -> 1 < urefs (w_leaf w) (PTE2PA x) ->
  wp (cow_alloc r va) σ (fun v σ' => v = 0 /\ exists w', rep σ' w' /\ user_ok σ' w' /\
    w_leaf w' !! (r, va) = Some (Z.lor x PTE_W) /\ ~ cow_ok w').
Proof.
  intros R U Hx Hva Hf H1. pose proof (proj1 (u_leaf _ _ U _ _ _ Hx Hva)) as Hwf.
  apply (cow_alloc_wp σ w r va x); try done.
  { intros v σ' w' _ _ []. done. }
  intros σ' _ _ R' U' _. split; [done|]. eexists. split; [done|]. split; [done|].
  assert (w_leaf (w_setleaf w r va (Z.lor x PTE_W)) = <[(r, va) := Z.lor x PTE_W]> (w_leaf w)) as El
    by (cbn; apply set_leaf_insert; auto with xv6).
  rewrite El, lookup_insert_eq. split; [done|]. intros C.
  specialize (C r va (Z.lor x PTE_W)). rewrite El, lookup_insert_eq in C.
  specialize (C eq_refl Hva (lor_W_set x)).
  rewrite (urefs_insert _ _ _ _ _ _ Hx (lor_W_pa x)), lor_W_pa in C. lia.
Qed.

(** [is_cowpage] dereferences the result of [walk] without a test: on an
    address whose page-table page does not exist the kernel panics. *)
Theorem is_cowpage_null σ w r va :
  rep σ w -> w_node w !! (r, []) = Some r -> 0 <= va < MAXVA ->
  w_node w !! (r, [PX 2 va; PX 1 va]) = None ->
  is_cowpage r va σ = Panic "kerneltrap".
Proof.
  intros R Hr Hva Hn. unfold is_cowpage, mbind, M_bind.
  assert (wp (walk r va false) σ (fun v σ' => v = 0 /\ σ' = σ)) as Hw.
  { apply (walk_read_wp σ w); try done. unfold pte_ptr. by rewrite Hn. }
  apply wp_elim in Hw as (v & σ' & E & -> & ->). by rewrite E.
Qed.

(** C32: [copyout] does not test [PTE_W]: on a page that is shared but not
    marked copy-on-write (the read-only text of a program after [fork]) it
    stores into the shared page, and the other process sees the new byte. *)
Theorem copyout_readonly_shared σ w r r' va x x' b :
  rep σ w -> user_ok σ w -> w_leaf w !! (r, va) = Some x -> w_leaf w !! (r', va) = Some x' ->
  va < TRAPFRAME -> PTE2PA x' = PTE2PA x ->
  Z.testbit x 4 = true -> Z.testbit x' 4 = true ->
  Z.testbit x 2 = false -> Z.testbit x 8 = false -> is_byte b ->
  wp (copyout r va [b]) σ (fun v σ' => v = 0 /\ uload σ' w r' va = Some b).
Proof.
  intros R U Hx Hx' Hva E HU HU' HW H8 Hb. unfold copyout.
  destruct (user_page _ _ _ _ _ R U Hx Hva) as (Hok & Hwf & _).
  destruct (user_page _ _ _ _ _ R U Hx' Hva) as (_ & Hwf' & _).
  destruct (leaf_node _ _ _ _ _ R Hx) as ([Hal Hmax] & Hroot & _).
  assert (MAXVA = 2 ^ 38) as EM by done.
  pose proof (page_ok_range _ Hok) as Hpr.
  unfold wp at 1. rewrite loop_first by done. cbv beta iota. apply wp_bind.
  cbn [length]. change (Z.of_nat 1 >? 0) with true. cbv iota.
  rewrite PGROUNDDOWN_aligned by (done || lia). wp_step.
  apply (walkaddr_wp σ w); [done|done|by split|]. rewrite Hx, (proj1 (proj2 Hwf)), HU. cbn [andb].
  rewrite (proj2 (Z.eqb_neq _ 0)) by (unfold KERNBASE in *; lia). wp_step.
  apply (is_cowpage_wp σ w r va x _ R Hx). rewrite H8. do 2 wp_step. cbn [andb].
  rewrite Z.sub_diag. change (PGSIZE - 0 >? Z.of_nat 1) with true. cbv iota.
  change (Z.to_nat (Z.of_nat 1)) with 1%nat. cbn [take drop]. do 2 wp_step. wp_step.
  set (σ' := set_mem _ σ). unfold wp at 1. rewrite loop_first by done. cbv beta iota.
  cbn [length]. change (Z.of_nat 0 >? 0) with false. cbv iota. apply wp_bind. wp_step. wp_step.
  split; [done|]. unfold uload. assert (page_of va = va) as -> by (apply page_of_in; [done|unfold PGSIZE; lia]).
  rewrite Hx', HU', E. destruct Hwf' as (_ & -> & ->). cbn [andb].
  replace (va mod PGSIZE) with 0 by done. f_equal. cbn [σ' m_mem set_mem].
  rewrite mget_write_bytes, decide_True by (cbn; lia). rewrite Z.sub_diag. by apply Z.mod_small.
Qed.
End Theorems.

(** ** Instances on the machines of Demo.v *)

Lemma uvmcopy_fork_witness :
  wp (uvmcopy (pg 0) (pg 5) 8192) before (fork_post before before_world (pg 0) (pg 5) 8192).
Proof.
  apply (uvmcopy_fork before before_world (pg 0) (pg 5) 8192).
  - exact before_rep.
  - exact before_user.
  - exact before_cow.
  - exact before_few.
  - vm_compute. reflexivity.
  - vm_compute. reflexivity.
  - discriminate.
  - vm_compute. split; discriminate.
  - intros va _. apply before_child_empty.
  - exact before_mapped.
Defined.

Lemma cow_alloc_private_witness :
  wp (cow_alloc (pg 5) 0) after (fun v σ' => exists w', rep σ' w' /\ user_ok σ' w' /\
    same_view after after_world σ' w' /\
    (v = 0 <-> w_free after_world = [] /\ 1 < urefs (w_leaf after_world) (PTE2PA (cowify x3))) /\
    (v <> 0 -> (cow_ok after_world -> cow_ok w') /\ urefs (w_leaf w') v = 1 /\
      exists y, w_leaf w' = <[(pg 5, 0) := y]> (w_leaf after_world) /\ PTE2PA y = v /\
        Z.testbit y 2 = true)).
Proof.
  apply (cow_alloc_private after after_world (pg 5) 0 (cowify x3)).
  - exact after_rep.
  - exact after_user.
  - vm_compute. reflexivity.
  - reflexivity.
Defined.

Lemma copyout_isolated_witness :
  wp (copyout (pg 5) 4094 [1; 2; 3; 4]) after (copyout_post after after_world (pg 5) 4094 [1; 2; 3; 4]).
Proof.
  apply (copyout_isolated after after_world (pg 5) 4094 [1; 2; 3; 4]).
  - exact after_rep.
  - exact after_user.
  - exact after_cow.
  - vm_compute. reflexivity.
  - lia.
  - cbn. lia.
  - repeat constructor; unfold is_byte; lia.
  - exact (demo_writable after_world (pg 5) _ _ ltac:(vm_compute; reflexivity)).
Defined.

Lemma copyin_copyout_witness :
  wp (copyout (pg 0) 8190 [7; 8]) after (fun v σ' => v = 0 ->
    wp (copyin (pg 0) 8190 2) σ' (fun res σ'' => res = (0, [7; 8]) /\ σ'' = σ')).
Proof.
  apply (copyin_copyout after after_world (pg 0) 8190 [7; 8]).
  - exact after_rep.
  - exact after_user.
  - exact after_cow.
  - vm_compute. reflexivity.
  - lia.
  - vm_compute. discriminate.
  - repeat constructor; unfold is_byte; lia.
  - exact (demo_writable after_world (pg 0) _ _ ltac:(vm_compute; reflexivity)).
Defined.

Lemma cow_alloc_oom_witness :
  wp (cow_alloc (pg 5) 0) after_full (fun v σ' => v = 0 /\ exists w', rep σ' w' /\ user_ok σ' w' /\
    w_leaf w' !! (pg 5, 0) = Some (Z.lor (cowify x3) PTE_W) /\ ~ cow_ok w').
Proof.
  apply (cow_alloc_oom after_full after_full_world (pg 5) 0 (cowify x3)).
  - exact after_full_rep.
  - exact after_full_user.
  - vm_compute. reflexivity.
  - reflexivity.
  - reflexivity.
  - vm_compute. reflexivity.
Defined.

Lemma is_cowpage_null_witness : is_cowpage (pg 5) 0 before = Panic "kerneltrap".
Proof.
  apply (is_cowpage_null before before_world (pg 5) 0).
  - exact before_rep.
  - vm_compute. reflexivity.
  - vm_compute. split; [discriminate|reflexivity].
  - vm_compute. reflexivity.
Defined.

Lemma copyout_readonly_shared_witness :
  wp (copyout (pg 5) 0 [66]) text (fun v σ' => v = 0 /\ uload σ' text_world (pg 0) 0 = Some 66).
Proof.
  apply (copyout_readonly_shared text text_world (pg 5) (pg 0) 0 x3_text x3_text 66).
  - exact text_rep.
  - exact text_user.
  - vm_compute. reflexivity.
  - vm_compute. reflexivity.
  - reflexivity.
  - reflexivity.
  - reflexivity.
  - reflexivity.
  - reflexivity.
  - reflexivity.
  - unfold is_byte. lia.
Defined.
