(* ===== verification/CString.v ===== *)
(** * C strings: kernel/string.c and the string half of user/ulib.c

    A string argument is a reader: the byte at each offset from the pointer
    ([at_addr] reads memory, [at_list] a buffer).  A function that stores
    through a pointer returns the bytes that it stores from that pointer on;
    its source and destination do not overlap, as in every call of the system
    ([memmove], which allows overlap, is in Mem.v).  Bytes are unsigned: char
    is unsigned on RISC-V. *)

From Stdlib Require Import Ascii.
From S2P Require Import Prelude Riscv Mem.

Definition reader := Z -> Z.
Definition at_addr (m : mem) (a : Z) : reader := fun i => mget m (a + i).
Definition at_list (l : list Z) : reader := fun i => nth (Z.to_nat i) l 0.

Definition ch (a : ascii) : Z := Z.of_N (N_of_ascii a).
Definition bytes (s : string) : list Z := map ch (String.list_ascii_of_string s).

(** ** kernel/string.c *)

Fixpoint memcmp_loop (s1 s2 : reader) (i : Z) (n : nat) : Z :=
  match n with
  | O => 0
  | S n =>
      if negb (s1 i =? s2 i) then s1 i - s2 i
      else memcmp_loop s1 s2 (i + 1) n
  end.
Definition memcmp (v1 v2 : reader) (n : Z) : Z := memcmp_loop v1 v2 0 (Z.to_nat n).

Fixpoint strncmp_loop (p q : reader) (i : Z) (n : nat) : Z :=
  match n with
  | O => 0
  | S n =>
      if negb (p i =? 0) && (p i =? q i) then strncmp_loop p q (i + 1) n
      else p i - q i
  end.
Definition strncmp (p q : reader) (n : Z) : Z := strncmp_loop p q 0 (Z.to_nat n).

(** [while(n-- > 0 && ( *s++ = *t++ ) != 0); while(n-- > 0) *s++ = 0] *)
Fixpoint strncpy_loop (t : reader) (i : Z) (n : nat) : list Z :=
  match n with
  | O => []
  | S n => if t i =? 0 then t i :: repeat 0 n else t i :: strncpy_loop t (i + 1) n
  end.
Definition strncpy (t : reader) (n : Z) : list Z := strncpy_loop t 0 (Z.to_nat n).

(** [while(--n > 0 && ( *s++ = *t++ ) != 0); *s = 0] *)
Fixpoint safestrcpy_loop (t : reader) (i : Z) (n : nat) : list Z :=
  match n with
  | O => []
  | S n => t i :: if t i =? 0 then [] else safestrcpy_loop t (i + 1) n
  end.
Definition safestrcpy (t : reader) (n : Z) : list Z :=
  if n <=? 0 then [] else safestrcpy_loop t 0 (Z.to_nat (n - 1)) ++ [0].

(** [None] when no NUL is found within [fuel] bytes. *)
Fixpoint strlen_loop (s : reader) (n : Z) (fuel : nat) : option Z :=
  match fuel with
  | O => None
  | S fuel => if s n =? 0 then Some n else strlen_loop s (n + 1) fuel
  end.
Definition strlen (s : reader) (fuel : nat) : option Z := strlen_loop s 0 fuel.

(** ** user/ulib.c *)

Fixpoint strcpy_loop (t : reader) (i : Z) (fuel : nat) : option (list Z) :=
  match fuel with
  | O => None
  | S fuel =>
      if t i =? 0 then Some [t i]
      else match strcpy_loop t (i + 1) fuel with Some l => Some (t i :: l) | None => None end
  end.
Definition strcpy (t : reader) (fuel : nat) : option (list Z) := strcpy_loop t 0 fuel.

Fixpoint strcmp_loop (p q : reader) (i : Z) (fuel : nat) : option Z :=
  match fuel with
  | O => None
  | S fuel =>
      if negb (p i =? 0) && (p i =? q i) then strcmp_loop p q (i + 1) fuel
      else Some (p i - q i)
  end.
Definition strcmp (p q : reader) (fuel : nat) : option Z := strcmp_loop p q 0 fuel.

(** The offset of the character, or [Some None] for a null result. *)
Fixpoint strchr_loop (s : reader) (c i : Z) (fuel : nat) : option (option Z) :=
  match fuel with
  | O => None
  | S fuel =>
      if s i =? 0 then Some None
      else if s i =? c then Some (Some i)
      else strchr_loop s c (i + 1) fuel
  end.
Definition strchr (s : reader) (c : Z) (fuel : nat) : option (option Z) := strchr_loop s c 0 fuel.

(** [n] is an [int]. *)
Fixpoint atoi_loop (s : reader) (i n : Z) (fuel : nat) : option Z :=
  match fuel with
  | O => None
  | S fuel =>
      if (48 <=? s i) && (s i <=? 57) then atoi_loop s (i + 1) (i32 (n * 10 + s i - 48)) fuel
      else Some n
  end.
Definition atoi (s : reader) (fuel : nat) : option Z := atoi_loop s 0 0 fuel.

(** [memmove] of ulib.c copies upwards when the source is above. *)
Definition umemmove (m : mem) (dst src n : Z) : mem :=
  if src >? dst then copy_up m dst src (Z.to_nat n)
  else copy_down m (dst + n) (src + n) (Z.to_nat n).

(** ** What the functions compute *)

(** [s] is the string at the reader: its bytes are not NUL, a NUL follows. *)
Definition cstr (r : reader) (s : list Z) : Prop :=
  (forall i, (i < length s)%nat -> r (Z.of_nat i) = nth i s 0 /\ nth i s 0 <> 0) /\
  r (Z.of_nat (length s)) = 0.

Definition shift (r : reader) : reader := fun i => r (i + 1).

Lemma cstr_cons r b s : cstr r (b :: s) <-> r 0 = b /\ b <> 0 /\ cstr (shift r) s.
Proof.
  unfold cstr, shift. split.
  - intros [H1 H2]. destruct (H1 0%nat) as [E0 N0]; [cbn; lia|]. cbn in E0, N0.
    split; [done|]. split; [done|]. split.
    + intros i Hi. destruct (H1 (S i)) as [E N]; [cbn; lia|].
      cbn [nth] in *. replace (Z.of_nat i + 1) with (Z.of_nat (S i)) by lia. done.
    + cbn [length] in H2. replace (Z.of_nat (length s) + 1) with (Z.of_nat (S (length s))) by lia. done.
  - intros (E0 & N0 & H1 & H2). split.
    + intros [|i] Hi; [by cbn|]. cbn [nth length] in *. destruct (H1 i) as [E N]; [lia|].
      replace (Z.of_nat (S i)) with (Z.of_nat i + 1) by lia. done.
    + cbn [length]. replace (Z.of_nat (S (length s))) with (Z.of_nat (length s) + 1) by lia. done.
Qed.

Lemma cstr_nil r : cstr r [] <-> r 0 = 0.
Proof. split; [by intros [_ H]|]. intros H. split; [cbn; lia|done]. Qed.

Lemma strlen_cstr r s fuel : cstr r s -> (length s < fuel)%nat -> strlen r fuel = Some (Z.of_nat (length s)).
Proof.
  intros [H1 H2] Hf. unfold strlen. assert (forall k n f, (k + n = length s)%nat -> (n < f)%nat ->
    strlen_loop r (Z.of_nat k) f = Some (Z.of_nat (length s))) as H; [|by apply (H 0%nat (length s))].
  intros k n. revert k. induction n as [|n IH]; intros k f Hk Hn; (destruct f as [|f]; [lia|]); cbn [strlen_loop].
  - replace k with (length s) by lia. by rewrite H2.
  - destruct (H1 k) as [E N]; [lia|]. rewrite E, (proj2 (Z.eqb_neq _ _)) by done.
    replace (Z.of_nat k + 1) with (Z.of_nat (S k)) by lia. apply IH; lia.
Qed.

Lemma cstr_inj r s s' : cstr r s -> cstr r s' -> s = s'.
Proof.
  revert r s'. induction s as [|b s IH]; intros r [|b' s'].
  - done.
  - intros H0%cstr_nil (E & N & _)%cstr_cons. congruence.
  - intros (E & N & _)%cstr_cons H0%cstr_nil. congruence.
  - intros (E & N & H)%cstr_cons (E' & N' & H')%cstr_cons. f_equal; [congruence|by eapply IH].
Qed.

Lemma at_list_cstr s rest : Forall (fun b => b <> 0) s -> cstr (at_list (s ++ 0 :: rest)) s.
Proof.
  intros Hs. unfold at_list, cstr. split.
  - intros i Hi. rewrite Nat2Z.id, app_nth1 by done. split; [done|].
    rewrite Forall_nth in Hs. by apply Hs.
  - rewrite Nat2Z.id, app_nth2 by lia. by rewrite Nat.sub_diag.
Qed.

(** Loops of the functions in terms of the shifted reader. *)
Ltac shift_loop IH := intros; cbn; rewrite ?IH; done.

Lemma strncmp_shift n p q i : strncmp_loop p q (i + 1) n = strncmp_loop (shift p) (shift q) i n.
Proof. revert i. induction n as [|n IH]; [done|]. shift_loop IH. Qed.
Lemma strncpy_shift n t i : strncpy_loop t (i + 1) n = strncpy_loop (shift t) i n.
Proof. revert i. induction n as [|n IH]; [done|]. shift_loop IH. Qed.
Lemma safestrcpy_shift n t i : safestrcpy_loop t (i + 1) n = safestrcpy_loop (shift t) i n.
Proof. revert i. induction n as [|n IH]; [done|]. shift_loop IH. Qed.
Lemma strcmp_shift n p q i : strcmp_loop p q (i + 1) n = strcmp_loop (shift p) (shift q) i n.
Proof. revert i. induction n as [|n IH]; [done|]. shift_loop IH. Qed.
Lemma strcpy_shift n t i : strcpy_loop t (i + 1) n = strcpy_loop (shift t) i n.
Proof. revert i. induction n as [|n IH]; [done|]. shift_loop IH. Qed.

(** The bytes before the first NUL, at most [n] of them. *)
Fixpoint prefix (r : reader) (n : nat) : list Z :=
  match n with
  | O => []
  | S n => if r 0 =? 0 then [] else r 0 :: prefix (shift r) n
  end.

Lemma prefix_length r n : (length (prefix r n) <= n)%nat.
Proof.
  revert r. induction n as [|n IH]; intros r; cbn; [lia|].
  destruct (r 0 =? 0); cbn; [lia|]. specialize (IH (shift r)). lia.
Qed.

Lemma prefix_nonzero r n : Forall (fun b => b <> 0) (prefix r n).
Proof.
  revert r. induction n as [|n IH]; intros r; cbn; [constructor|].
  destruct (Z.eqb_spec (r 0) 0); [constructor|]. by constructor.
Qed.

Lemma prefix_cstr r s n : cstr r s -> (length s <= n)%nat -> prefix r n = s.
Proof.
  revert r s. induction n as [|n IH]; intros r s Hs Hn; [by destruct s; cbn in Hn; [|lia]|].
  cbn. destruct s as [|b s].
  - apply cstr_nil in Hs. by rewrite Hs.
  - apply cstr_cons in Hs as (-> & Hb & Hs). rewrite (proj2 (Z.eqb_neq b 0)) by done.
    f_equal. apply IH; [done|]. cbn in Hn. lia.
Qed.

Lemma prefix_take r s n : cstr r s -> prefix r n = take n s.
Proof.
  revert r s. induction n as [|n IH]; intros r s Hs; [done|]. cbn. destruct s as [|b s].
  - apply cstr_nil in Hs. by rewrite Hs.
  - apply cstr_cons in Hs as (-> & Hb & Hs). rewrite (proj2 (Z.eqb_neq b 0)) by done.
    change (take (S n) (b :: s)) with (b :: take n s). f_equal. by apply IH.
Qed.

Lemma at_list_cons b l : at_list (b :: l) 0 = b.
Proof. done. Qed.

Lemma prefix_ext r r' n : (forall i, 0 <= i -> r i = r' i) -> prefix r n = prefix r' n.
Proof.
  revert r r'. induction n as [|n IH]; intros r r' H; [done|]. cbn. rewrite (H 0) by lia.
  destruct (r' 0 =? 0); [done|]. f_equal. apply IH. intros i Hi. unfold shift. apply H. lia.
Qed.

Lemma shift_at_list b l i : 0 <= i -> shift (at_list (b :: l)) i = at_list l i.
Proof. intros Hi. unfold shift, at_list. replace (Z.to_nat (i + 1)) with (S (Z.to_nat i)) by lia. done. Qed.

(** [strncmp] is 0 exactly when the strings agree up to their first NUL or
    [n] bytes, whichever comes first, whether or not they are terminated
    within [n]. *)
Theorem strncmp_prefix p q n :
  strncmp p q n = 0 <-> prefix p (Z.to_nat n) = prefix q (Z.to_nat n).
Proof.
  unfold strncmp. generalize (Z.to_nat n) as k. intros k. revert p q.
  induction k as [|k IH]; intros p q; [done|]. cbn. rewrite strncmp_shift.
  destruct (Z.eqb_spec (p 0) 0) as [E|E]; cbn [negb andb].
  - rewrite E. destruct (Z.eqb_spec (q 0) 0) as [E'|E']; split; intros; try done; lia.
  - destruct (Z.eqb_spec (p 0) (q 0)) as [E'|E'].
    + rewrite IH, <- E', (proj2 (Z.eqb_neq _ 0) E). split; [by intros ->|congruence].
    + split; [lia|]. destruct (q 0 =? 0); intros; congruence.
Qed.

Lemma strncpy_length t n : length (strncpy t n) = Z.to_nat n.
Proof.
  unfold strncpy. generalize (Z.to_nat n) as k. intros k. generalize 0 as i. revert t.
  induction k as [|k IH]; intros t i; [done|]. cbn. destruct (t i =? 0); cbn; [by rewrite repeat_length|].
  by rewrite IH.
Qed.

(** What [strncpy] stores reads back as the source, up to [n] bytes. *)
Lemma strncpy_prefix t n : prefix (at_list (strncpy t n)) (Z.to_nat n) = prefix t (Z.to_nat n).
Proof.
  unfold strncpy. generalize (Z.to_nat n) as k. intros k. revert t.
  induction k as [|k IH]; intros t; [done|]. cbn [strncpy_loop]. rewrite strncpy_shift.
  cbn [prefix]. destruct (Z.eqb_spec (t 0) 0) as [E|E].
  - rewrite E. by change (at_list (0 :: repeat 0 k) 0) with 0.
  - change (at_list (t 0 :: strncpy_loop (shift t) 0 k) 0) with (t 0).
    rewrite (proj2 (Z.eqb_neq _ 0) E). f_equal. rewrite <- (IH (shift t)). apply prefix_ext.
    intros i Hi. by apply shift_at_list.
Qed.

Lemma safestrcpy_loop_spec t k :
  exists z, safestrcpy_loop t 0 k = prefix t k ++ repeat 0 z /\ (z <= 1)%nat /\
    (length (prefix t k) + z <= k)%nat.
Proof.
  revert t. induction k as [|k IH]; intros t; [exists 0%nat; cbn; split; [done|lia]|]. cbn. rewrite safestrcpy_shift.
  destruct (Z.eqb_spec (t 0) 0) as [E|E].
  - exists 1%nat. rewrite E. split; [done|]. cbn. lia.
  - destruct (IH (shift t)) as (z & -> & Hz & Hl). exists z. split; [done|]. cbn. lia.
Qed.

(** [safestrcpy] always terminates its result: for [n > 0] it stores at
    most [n] bytes, and they are the NUL-terminated string of the first
    [n - 1] bytes of the source. *)
Theorem safestrcpy_terminated t n :
  0 < n -> Z.of_nat (length (safestrcpy t n)) <= n /\
  cstr (at_list (safestrcpy t n)) (prefix t (Z.to_nat (n - 1))).
Proof.
  intros Hn. unfold safestrcpy. rewrite (proj2 (Z.leb_gt n 0)) by done.
  destruct (safestrcpy_loop_spec t (Z.to_nat (n - 1))) as (z & -> & Hz & Hl).
  split; [rewrite !length_app, repeat_length; cbn [length]; lia|].
  rewrite <- app_assoc. assert (exists rest, repeat 0 z ++ [0] = 0 :: rest) as [rest ->].
  { destruct z as [|[|]]; [by exists []|by exists [0]|lia]. }
  apply at_list_cstr, prefix_nonzero.
Qed.

Lemma safestrcpy_terminated_witness :
  Z.of_nat (length (safestrcpy (at_list (bytes "initcode")) 5)) <= 5 /\
  cstr (at_list (safestrcpy (at_list (bytes "initcode")) 5)) (bytes "init").
Proof. apply (safestrcpy_terminated (at_list (bytes "initcode")) 5). lia. Defined.

Lemma strlen_spec r s fuel : cstr r s -> (length s < fuel)%nat -> strlen r fuel = Some (Z.of_nat (length s)).
Proof.
  intros Hs. unfold strlen. replace (Z.of_nat (length s)) with (0 + Z.of_nat (length s)) by lia.
  assert (forall k i, (length s < k + i)%nat -> (i <= length s)%nat ->
    strlen_loop r (Z.of_nat i) k = Some (Z.of_nat (length s))) as H.
  { intros k. induction k as [|k IH]; intros i Hk Hi; [lia|]. cbn. destruct Hs as [H1 H2].
    destruct (Z.eqb_spec (r (Z.of_nat i)) 0) as [E|E].
    - assert (i = length s) as ->; [|done]. destruct (decide (i < length s)%nat) as [Hl|]; [|lia].
      destruct (H1 i Hl) as [E' N]. congruence.
    - assert (i <> length s) by congruence.
      replace (Z.of_nat i + 1) with (Z.of_nat (S i)) by lia. apply IH; lia. }
  intros Hf. apply (H fuel 0%nat); lia.
Qed.

Lemma strcpy_spec r s fuel : cstr r s -> (length s < fuel)%nat -> strcpy r fuel = Some (s ++ [0]).
Proof.
  unfold strcpy. revert r s. induction fuel as [|k IH]; intros r s Hs Hf; [lia|]. cbn. rewrite strcpy_shift.
  destruct s as [|b s].
  - apply cstr_nil in Hs. by rewrite Hs.
  - apply cstr_cons in Hs as (-> & Hb & Hs). rewrite (proj2 (Z.eqb_neq b 0)) by done.
    by rewrite (IH _ _ Hs) by (cbn in Hf; lia).
Qed.

Lemma strcmp_spec p q s t fuel : cstr p s -> cstr q t -> (length s < fuel)%nat ->
  exists v, strcmp p q fuel = Some v /\ (v = 0 <-> s = t).
Proof.
  unfold strcmp. revert p q s t. induction fuel as [|k IH]; intros p q s t Hs Ht Hf; [lia|].
  cbn. rewrite strcmp_shift. destruct s as [|b s].
  - apply cstr_nil in Hs. rewrite Hs. cbn. exists (0 - q 0). split; [done|]. destruct t as [|c t].
    + apply cstr_nil in Ht. rewrite Ht. done.
    + apply cstr_cons in Ht as (-> & Hc & _). split; [lia|done].
  - apply cstr_cons in Hs as (-> & Hb & Hs). rewrite (proj2 (Z.eqb_neq b 0)) by done. cbn [negb andb].
    destruct (Z.eqb_spec b (q 0)) as [E|E].
    + destruct t as [|c t]; [apply cstr_nil in Ht; congruence|].
      apply cstr_cons in Ht as (Eq & Hc & Ht).
      destruct (IH _ _ _ _ Hs Ht) as (v & -> & Hv); [cbn in Hf; lia|]. exists v. split; [done|].
      rewrite Hv. split; [intros ->; f_equal; congruence|by intros [= _ ->]].
    + exists (b - q 0). split; [done|]. split; [lia|]. intros <-. apply cstr_cons in Ht as (? & _). lia.
Qed.

(** The two [memmove]s, which test the overlap differently, agree. *)
Lemma umemmove_memmove m dst src n b :
  0 <= n -> mget (umemmove m dst src n) b = mget (memmove m dst src n) b.
Proof.
  intros Hn. rewrite mget_memmove by done. unfold umemmove.
  destruct (Z.gtb_spec src dst).
  - rewrite mget_copy_up by lia. repeat case_decide; try lia; f_equal; lia.
  - rewrite mget_copy_down by lia. repeat case_decide; try lia; f_equal; lia.
Qed.
