(* ===== verification/Printf.v ===== *)
(** * Formatted output: kernel/printf.c and user/printf.c

    Output is the list of characters handed to [consputc] or [putc].  A format
    string is the list of its bytes before the NUL, and the variable arguments
    are a list of tagged values; [None] is a call whose arguments do not match
    the format (undefined in C). *)

From Stdlib Require Import Ascii.
From S2P Require Import Prelude Riscv Mem CString.

Inductive varg :=
| VInt (z : Z)                  (* int *)
| VLong (z : Z)                 (* uint64 *)
| VStr (s : option (list Z)).   (* char*, possibly null *)

(** [digits[d]] of the kernel and of the user library. *)
Definition kdigits : list Z := bytes "0123456789abcdef".
Definition udigits : list Z := bytes "0123456789ABCDEF".
Definition digit (digits : list Z) (d : Z) : Z := nth (Z.to_nat d) digits 0.

(** [do { buf[i++] = digits[x % base]; } while((x /= base) != 0)]: [buf], in the
    order it is filled. *)
Fixpoint digits_loop (digits : list Z) (base x : Z) (fuel : nat) : list Z :=
  match fuel with
  | O => []
  | S fuel =>
      digit digits (x mod base) ::
      (if x / base =? 0 then [] else digits_loop digits base (x / base) fuel)
  end.

(** A [uint] has at most 32 digits in any base. *)
Definition printint_with (digits : list Z) (xx base : Z) (sign : bool) : list Z :=
  let neg := sign && (xx <? 0) in
  let x := u32 (if neg then - xx else xx) in
  let buf := digits_loop digits base x 32 ++ (if neg then [ch "-"] else []) in
  rev buf.

Fixpoint printptr_loop (digits : list Z) (x : Z) (n : nat) : list Z :=
  match n with
  | O => []
  | S n => digit digits (Z.shiftr x 60) :: printptr_loop digits (u64 (Z.shiftl x 4)) n
  end.
Definition printptr_with (digits : list Z) (x : Z) : list Z :=
  ch "0" :: ch "x" :: printptr_loop digits x 16.

(** ** kernel/printf.c *)

Definition kprintint : Z -> Z -> bool -> list Z := printint_with kdigits.
Definition kprintptr : Z -> list Z := printptr_with kdigits.

Definition null_str : list Z := bytes "(null)".

(** One conversion: what it prints, and the arguments that are left. *)
Definition kconv (c : Z) (args : list varg) : option (list Z * list varg) :=
  if c =? ch "d" then
    match args with VInt z :: args => Some (kprintint z 10 true, args) | _ => None end
  else if c =? ch "x" then
    match args with VInt z :: args => Some (kprintint z 16 true, args) | _ => None end
  else if c =? ch "p" then
    match args with VLong z :: args => Some (kprintptr z, args) | _ => None end
  else if c =? ch "s" then
    match args with VStr s :: args => Some (default null_str s, args) | _ => None end
  else if c =? ch "%" then Some ([ch "%"], args)
  else Some ([ch "%"; c], args).

Fixpoint kprintf (fmt : list Z) (args : list varg) : option (list Z) :=
  match fmt with
  | [] => Some []
  | c :: fmt =>
      if negb (c =? ch "%") then l ← kprintf fmt args; Some (c :: l)
      else
        match fmt with
        | [] => Some []
        | c :: fmt => '(o, args) ← kconv c args; l ← kprintf fmt args; Some (o ++ l)
        end
  end.

(** ** user/printf.c *)

Definition uprintint : Z -> Z -> bool -> list Z := printint_with udigits.
Definition uprintptr : Z -> list Z := printptr_with udigits.

Definition uconv (c : Z) (args : list varg) : option (list Z * list varg) :=
  if c =? ch "d" then
    match args with VInt z :: args => Some (uprintint z 10 true, args) | _ => None end
  else if c =? ch "l" then
    (* the uint64 becomes the [int] parameter of printint *)
    match args with VLong z :: args => Some (uprintint (i32 z) 10 false, args) | _ => None end
  else if c =? ch "x" then
    match args with VInt z :: args => Some (uprintint z 16 false, args) | _ => None end
  else if c =? ch "p" then
    match args with VLong z :: args => Some (uprintptr z, args) | _ => None end
  else if c =? ch "s" then
    match args with VStr s :: args => Some (default null_str s, args) | _ => None end
  else if c =? ch "c" then
    match args with VInt z :: args => Some ([u8 z], args) | _ => None end
  else if c =? ch "%" then Some ([c], args)
  else Some ([ch "%"; c], args).

(** [state] is true after a ['%']. *)
Fixpoint vprintf (fmt : list Z) (state : bool) (args : list varg) : option (list Z) :=
  match fmt with
  | [] => Some []
  | c :: fmt =>
      if negb state then
        if c =? ch "%" then vprintf fmt true args
        else l ← vprintf fmt false args; Some (c :: l)
      else '(o, args) ← uconv c args; l ← vprintf fmt false args; Some (o ++ l)
  end.
Definition printf (fmt : list Z) (args : list varg) : option (list Z) := vprintf fmt false args.

(** ** Numbers read back *)

Definition digit_val (c : Z) : Z := if c <=? 57 then c - 48 else if c <=? 90 then c - 55 else c - 87.
(** The number a list of digits denotes, most significant first. *)
Definition number (base : Z) (l : list Z) : Z := fold_left (fun n c => n * base + digit_val c) l 0.
Definition read_int (l : list Z) : Z :=
  match l with
  | c :: l' => if c =? ch "-" then - number 10 l' else number 10 l
  | [] => 0
  end.

(** The digits of both libraries denote 0 to 15. *)
Definition good_digits (digits : list Z) : Prop :=
  forall d, 0 <= d < 16 -> digit_val (digit digits d) = d /\ 48 <= digit digits d /\
    (d < 10 -> digit digits d = 48 + d).

Lemma good_digits_dec (digits : list Z) :
  forallb (fun d => (digit_val (digit digits d) =? d) && (48 <=? digit digits d) &&
    ((10 <=? d) || (digit digits d =? 48 + d))) (map Z.of_nat (seq 0 16)) = true ->
  good_digits digits.
Proof.
  intros H d Hd. rewrite forallb_forall in H.
  assert (In d (map Z.of_nat (seq 0 16))) as Hin.
  { apply in_map_iff. exists (Z.to_nat d). split; [lia|]. apply in_seq. lia. }
  apply H in Hin. apply andb_true_iff in Hin as [[H1 H2]%andb_true_iff H3].
  bool_to_prop. split; [done|]. split; [done|]. intros. destruct H3 as [H3|H3]; bool_to_prop; [lia|done].
Qed.

Lemma kdigits_good : good_digits kdigits.
Proof. apply good_digits_dec. reflexivity. Qed.
Lemma udigits_good : good_digits udigits.
Proof. apply good_digits_dec. reflexivity. Qed.

Section Digits.
Context (digits : list Z) (Hd : good_digits digits) (base : Z) (Hb : 2 <= base <= 16).

Lemma number_snoc l c : number base (l ++ [c]) = number base l * base + digit_val c.
Proof. unfold number. by rewrite fold_left_app. Qed.

Lemma digits_loop_number fuel x :
  0 <= x < 2 ^ Z.of_nat fuel -> number base (rev (digits_loop digits base x fuel)) = x.
Proof using Hd Hb.
  revert x. induction fuel as [|k IH]; intros x Hx; [cbn in *; lia|]. cbn [digits_loop].
  assert (0 <= x mod base < base) as Hm by (apply Z.mod_pos_bound; lia).
  pose proof (Z.div_mod x base ltac:(lia)) as Hdm.
  cbn [rev]. rewrite number_snoc. destruct (Hd (x mod base) ltac:(lia)) as [-> _].
  destruct (Z.eqb_spec (x / base) 0) as [E|E]; [unfold number; cbn; lia|].
  rewrite IH; [lia|]. assert (0 <= x / base) by (apply Z.div_pos; lia).
  split; [done|]. rewrite Nat2Z.inj_succ, Z.pow_succ_r in Hx by lia. nia.
Qed.

Lemma digits_loop_chars fuel x : 0 <= x ->
  Forall (fun c => 48 <= c) (digits_loop digits base x fuel).
Proof using Hd Hb.
  revert x. induction fuel as [|k IH]; intros x Hx; [constructor|]. cbn [digits_loop].
  assert (0 <= x mod base < base) by (apply Z.mod_pos_bound; lia).
  constructor; [apply Hd; lia|]. destruct (_ =? 0); [constructor|]. apply IH, Z.div_pos; lia.
Qed.

(** At most [k] digits for a number below [base ^ k]. *)
Lemma digits_loop_length fuel x k : 0 <= x < base ^ Z.of_nat k -> (0 < k)%nat ->
  (length (digits_loop digits base x fuel) <= k)%nat.
Proof using Hb.
  revert x k. induction fuel as [|f IH]; intros x k Hx Hk; cbn [digits_loop length]; [lia|].
  destruct (Z.eqb_spec (x / base) 0) as [E|E]; [cbn; lia|].
  destruct k as [|k]; [lia|]. rewrite Nat2Z.inj_succ, Z.pow_succ_r in Hx by lia.
  assert (0 <= x / base < base ^ Z.of_nat k) as Hq.
  { split; [apply Z.div_pos; lia|]. apply Z.div_lt_upper_bound; lia. }
  destruct k as [|k]; [change (base ^ Z.of_nat 0) with 1 in Hq; lia|].
  apply le_n_S, (IH (x / base) (S k)); [done|lia].
Qed.

Lemma digits_loop_nonempty fuel x : (0 < fuel)%nat -> digits_loop digits base x fuel <> [].
Proof using. by destruct fuel; [lia|]. Qed.
End Digits.

(** Both [printint]s, of the kernel and of the user library, print every
    [int] so that reading the decimal text back gives the number, the smallest
    one included, with at most 11 characters, which the 16-byte buffer holds. *)
Theorem printint_decimal digits xx :
  digits = kdigits \/ digits = udigits -> - 2 ^ 31 <= xx < 2 ^ 31 ->
  read_int (printint_with digits xx 10 true) = xx /\
  (length (printint_with digits xx 10 true) <= 11)%nat.
Proof.
  intros Hdig Hx. assert (good_digits digits) as Hg
    by (destruct Hdig as [-> | ->]; [apply kdigits_good|apply udigits_good]).
  unfold printint_with. cbn [andb].
  assert (0 <= u32 (if xx <? 0 then - xx else xx) < 2 ^ 32) as Hu
    by (unfold u32; apply Z.mod_pos_bound; lia).
  assert (u32 (if xx <? 0 then - xx else xx) = Z.abs xx) as E.
  { unfold u32. destruct (Z.ltb_spec xx 0); rewrite Z.mod_small by lia; lia. }
  set (x := u32 _) in *. set (ds := digits_loop digits 10 x 32).
  assert (number 10 (rev ds) = x) as Hn by (apply digits_loop_number; [done|lia|change (Z.of_nat 32) with 32; lia]).
  assert (length ds <= 10)%nat as Hl by (apply digits_loop_length; [lia|change (10 ^ Z.of_nat 10) with 10000000000; lia|lia]).
  assert (Forall (fun c => 48 <= c) ds) as Hc by (apply digits_loop_chars; [done|lia|lia]).
  destruct (Z.ltb_spec xx 0).
  - rewrite rev_app_distr, length_app, !length_rev. split; [|cbn [length rev app]; lia].
    cbn [rev app read_int]. rewrite Z.eqb_refl, Hn. lia.
  - rewrite app_nil_r, length_rev. split; [|lia].
    assert (rev ds <> []) as Hne.
    { intros E'. apply (f_equal (@rev Z)) in E'. rewrite rev_involutive in E'.
      by apply (digits_loop_nonempty digits 10 32 x) in E'; [|lia]. }
    destruct (rev ds) as [|c l] eqn:Er; [done|]. unfold read_int.
    assert (48 <= c) as Hc48.
    { rewrite Forall_forall in Hc. apply Hc. apply list_elem_of_In, in_rev. rewrite Er. by left. }
    rewrite (proj2 (Z.eqb_neq c (ch "-"))); [lia|]. change (ch "-") with 45. lia.
Qed.

Lemma printint_decimal_witness :
  read_int (printint_with kdigits (- 2147483648) 10 true) = - 2147483648 /\
  (length (printint_with kdigits (- 2147483648) 10 true) <= 11)%nat.
Proof. apply (printint_decimal kdigits (- 2147483648)); [by left|lia]. Defined.

(** ** [atoi] reads what [printf] prints *)

Definition is_digit (c : Z) : Prop := 48 <= c <= 57.

Lemma number_app base l l' : number base (l ++ l') = fold_left (fun n c => n * base + digit_val c) l' (number base l).
Proof. apply fold_left_app. Qed.

Lemma number_mono l l' : Forall is_digit l -> Forall is_digit l' -> 0 <= number 10 l <= number 10 (l ++ l').
Proof.
  intros Hl Hl'. assert (forall l a, Forall is_digit l -> 0 <= a ->
    a <= fold_left (fun n c => n * 10 + digit_val c) l a) as H.
  { intros k. induction k as [|c k IH]; intros a Hk Ha; cbn; [lia|].
    apply Forall_cons in Hk as [Hc Hk]. unfold is_digit in Hc.
    assert (0 <= digit_val c) by (unfold digit_val; rewrite (proj2 (Z.leb_le c 57)); lia).
    specialize (IH (a * 10 + digit_val c) Hk). lia. }
  pose proof (H l 0 Hl ltac:(lia)) as H0. rewrite number_app. split; [exact H0|]. by apply H.
Qed.

Lemma atoi_loop_digits pre l rest fuel :
  Forall is_digit pre -> Forall is_digit l -> number 10 (pre ++ l) < 2 ^ 31 -> (length l < fuel)%nat ->
  atoi_loop (at_list (pre ++ l ++ 0 :: rest)) (Z.of_nat (length pre)) (number 10 pre) fuel =
  Some (number 10 (pre ++ l)).
Proof.
  revert pre fuel. induction l as [|c l IH]; intros pre fuel Hp Hl Hn Hf; (destruct fuel as [|k]; [lia|]);
    cbn [atoi_loop].
  - assert (at_list (pre ++ [] ++ 0 :: rest) (Z.of_nat (length pre)) = 0) as ->.
    { unfold at_list. rewrite Nat2Z.id, app_nth2, Nat.sub_diag by lia. done. }
    cbn [Z.leb andb]. by rewrite app_nil_r.
  - assert (at_list (pre ++ (c :: l) ++ 0 :: rest) (Z.of_nat (length pre)) = c) as ->.
    { unfold at_list. rewrite Nat2Z.id, app_nth2, Nat.sub_diag by lia. done. }
    apply Forall_cons in Hl as [Hc Hl]. unfold is_digit in Hc.
    rewrite (proj2 (Z.leb_le 48 c)), (proj2 (Z.leb_le c 57)) by lia. cbn [andb].
    assert (Forall is_digit (pre ++ [c])) as Hpc by (apply Forall_app; split; [done|by constructor]).
    assert (number 10 (pre ++ [c]) = number 10 pre * 10 + c - 48) as Enc.
    { rewrite number_app. cbn. unfold digit_val. rewrite (proj2 (Z.leb_le c 57)) by lia. lia. }
    replace (pre ++ c :: l) with ((pre ++ [c]) ++ l) in * by (by rewrite <- app_assoc).
    pose proof (number_mono _ _ Hpc Hl) as Hm.
    replace (i32 (number 10 pre * 10 + c - 48)) with (number 10 (pre ++ [c])).
    2:{ rewrite <- Enc. unfold i32, sgn. rewrite Z.mod_small by lia. destruct (Z.ltb_spec (number 10 (pre ++ [c])) (2 ^ (32 - 1))); lia. }
    replace (pre ++ (c :: l) ++ 0 :: rest) with ((pre ++ [c]) ++ l ++ 0 :: rest) by (by rewrite <- app_assoc).
    replace (Z.of_nat (length pre) + 1) with (Z.of_nat (length (pre ++ [c]))) by (rewrite length_app; cbn; lia).
    apply IH; try done. cbn in Hf. lia.
Qed.

(** [atoi] reads back what [printf("%d")] prints, for every [int] that is
    not negative. *)
Theorem atoi_printf n rest :
  0 <= n < 2 ^ 31 ->
  exists out, printf (bytes "%d") [VInt n] = Some out /\ atoi (at_list (out ++ 0 :: rest)) 12 = Some n.
Proof.
  intros Hn. unfold printf.
  assert (vprintf (bytes "%d") false [VInt n] = Some (uprintint n 10 true ++ [])) as -> by done.
  eexists. split; [done|]. rewrite app_nil_r. unfold uprintint, printint_with. cbn [andb].
  rewrite (proj2 (Z.ltb_ge n 0)) by lia. rewrite app_nil_r. unfold u32. rewrite Z.mod_small by lia.
  set (ds := digits_loop udigits 10 n 32).
  assert (number 10 (rev ds) = n) as En
    by (apply digits_loop_number; [apply udigits_good|lia|change (Z.of_nat 32) with 32; lia]).
  assert (Forall is_digit ds) as Hds.
  { assert (0 <= n) as H0 by lia. unfold ds. clear -H0. generalize 32%nat as k. intros k. revert n H0.
    induction k as [|k IH]; intros n H0; [constructor|]. cbn [digits_loop].
    assert (0 <= n mod 10 < 10) by (apply Z.mod_pos_bound; lia).
    constructor; [|destruct (_ =? 0); [constructor|]; apply IH, Z.div_pos; lia].
    rewrite (proj2 (proj2 (udigits_good (n mod 10) ltac:(lia)))) by lia. unfold is_digit. lia. }
  assert (length ds <= 10)%nat as Hl by (apply digits_loop_length; [lia|change (10 ^ Z.of_nat 10) with 10000000000; lia|lia]).
  unfold atoi. rewrite (atoi_loop_digits [] (rev ds) rest); cbn [app].
  - by rewrite En.
  - constructor.
  - by apply Forall_rev in Hds.
  - rewrite En. lia.
  - rewrite length_rev. lia.
Qed.

Lemma atoi_printf_witness :
  exists out, printf (bytes "%d") [VInt 1810] = Some out /\ atoi (at_list (out ++ 0 :: [])) 12 = Some 1810.
Proof. apply (atoi_printf 1810 []). lia. Defined.

(** [%l] converts its 64-bit argument to an [int]: numbers that differ by 2^32
    print alike. *)
Lemma vprintf_l_truncates z :
  printf (bytes "%l") [VLong z] = printf (bytes "%l") [VLong (z + 2 ^ 32)].
Proof.
  assert (i32 z = i32 (z + 2 ^ 32)) as E.
  { unfold i32, sgn. replace ((z + 2 ^ 32) mod 2 ^ 32) with (z mod 2 ^ 32); [done|].
    rewrite <- (Z.mod_add z 1 (2 ^ 32)) by lia. done. }
  change (Some (uprintint (i32 z) 10 false ++ []) = Some (uprintint (i32 (z + 2 ^ 32)) 10 false ++ [])).
  by rewrite <- E.
Qed.

(** The kernel's [%x] is signed: 0xffffffff prints as -1. *)
Lemma kprintf_x_signed : kprintf (bytes "%x") [VInt (-1)] = Some (bytes "-1").
Proof. reflexivity. Qed.
