(* ===== verification/Pipe.v ===== *)
(** * kernel/pipe.c

    The ring buffer with its two free-running 32-bit counters.  [pi->lock] is
    held from the start of [pipewrite] or [piperead] to its return, except
    inside [sleep], so a call is a sequence of bursts: [pipewrite_burst] and
    [piperead_burst] run the loops until they return or sleep.  [pstep]
    interleaves the bursts of any number of readers and writers.  User memory
    is an argument: [src] is the byte that [copyin] finds ([None] is its error),
    [dst] whether [copyout] succeeds; [killed] is what [killed(pr)] returns at
    each iteration, since [kill] does not take [pi->lock]. *)

From S2P Require Import Prelude Riscv.

Definition PIPESIZE : Z := 512.

Record pipe := Pipe {
  p_data : gmap Z Z;
  nread : Z;
  nwrite : Z;
  readopen : bool;
  writeopen : bool
}.

(** [pipealloc], the part that initialises the page. *)
Definition pipe_init : pipe := Pipe ∅ 0 0 true true.

(** How a burst ends. *)
Inductive burst := Sleep (i : Z) | Return (r : Z).

(** [pi->data[pi->nwrite++ % PIPESIZE] = ch] *)
Definition put (pi : pipe) (ch : Z) : pipe :=
  Pipe (<[nwrite pi mod PIPESIZE := ch]> (p_data pi)) (nread pi) (u32 (nwrite pi + 1))
    (readopen pi) (writeopen pi).
(** [pi->data[pi->nread++ % PIPESIZE]] *)
Definition next (pi : pipe) : Z := default 0 (p_data pi !! (nread pi mod PIPESIZE)).
Definition take_one (pi : pipe) : pipe :=
  Pipe (p_data pi) (u32 (nread pi + 1)) (nwrite pi) (readopen pi) (writeopen pi).

(** [todo] is [n - i].  The result: the pipe, how the burst ended, whether
    [wakeup(&pi->nread)] was called, and the bytes stored. *)
Fixpoint pipewrite_burst (pi : pipe) (src : Z -> option Z) (killed : Z -> bool) (i : Z)
    (todo : nat) : pipe * burst * bool * list Z :=
  match todo with
  | O => (pi, Return i, true, [])
  | S todo =>
      if negb (readopen pi) || killed i then (pi, Return (-1), false, [])
      else if nwrite pi =? u32 (nread pi + PIPESIZE) then (pi, Sleep i, true, [])
      else
        match src i with
        | None => (pi, Return i, true, [])
        | Some ch =>
            let '(pi', b, wake, out) := pipewrite_burst (put pi ch) src killed (i + 1) todo in
            (pi', b, wake, ch :: out)
        end
  end.

Fixpoint piperead_copy (pi : pipe) (dst : Z -> bool) (i : Z) (todo : nat) : pipe * Z * list Z :=
  match todo with
  | O => (pi, i, [])
  | S todo =>
      if nread pi =? nwrite pi then (pi, i, [])
      else
        let ch := next pi in
        let pi' := take_one pi in
        if negb (dst i) then (pi', i, [ch])
        else let '(pi'', r, out) := piperead_copy pi' dst (i + 1) todo in (pi'', r, ch :: out)
  end.

(** The result: the pipe, how the burst ended, whether [wakeup(&pi->nwrite)]
    was called, and the bytes taken. *)
Definition piperead_burst (pi : pipe) (dst : Z -> bool) (killed : bool) (n : Z) :
    pipe * burst * bool * list Z :=
  if (nread pi =? nwrite pi) && writeopen pi then
    if killed then (pi, Return (-1), false, []) else (pi, Sleep 0, false, [])
  else
    let '(pi', r, out) := piperead_copy pi dst 0 (Z.to_nat n) in
    (pi', Return r, true, out).

(** Returns whether the page is freed. *)
Definition pipeclose (pi : pipe) (writable : bool) : pipe * bool :=
  let pi' := if writable then Pipe (p_data pi) (nread pi) (nwrite pi) (readopen pi) false
             else Pipe (p_data pi) (nread pi) (nwrite pi) false (writeopen pi) in
  (pi', negb (readopen pi') && negb (writeopen pi')).

(** ** Readers and writers *)

Inductive thread :=
| TIdle
| TWriter (src : Z -> option Z) (n i : Z) (asleep : bool)
| TReader (n : Z) (asleep : bool).

(** [wakeup(&pi->nread)] and [wakeup(&pi->nwrite)] *)
Definition wake_reader (t : thread) : thread :=
  match t with TReader n _ => TReader n false | _ => t end.
Definition wake_writer (t : thread) : thread :=
  match t with TWriter src n i _ => TWriter src n i false | _ => t end.

(** [s_in] and [s_out] are all the bytes ever put into and taken from the pipe. *)
Record psys := Psys { s_pipe : pipe; s_thr : list thread; s_in : list Z; s_out : list Z }.

Definition after_write (b : burst) (src : Z -> option Z) (n : Z) : thread :=
  match b with Sleep i => TWriter src n i true | Return _ => TIdle end.
Definition after_read (b : burst) (n : Z) : thread :=
  match b with Sleep _ => TReader n true | Return _ => TIdle end.

Section Sys.
(** Which answers of [killed] are considered. *)
Context (calm : (Z -> bool) -> Prop).

Inductive pstep : psys -> psys -> Prop :=
| ps_start_write k pi T W R src n :
    T !! k = Some TIdle ->
    pstep (Psys pi T W R) (Psys pi (<[k := TWriter src n 0 false]> T) W R)
| ps_start_read k pi T W R n :
    T !! k = Some TIdle -> pstep (Psys pi T W R) (Psys pi (<[k := TReader n false]> T) W R)
| ps_write k pi T W R src n i killed pi' b wake out :
    T !! k = Some (TWriter src n i false) -> calm killed ->
    pipewrite_burst pi src killed i (Z.to_nat (n - i)) = (pi', b, wake, out) ->
    pstep (Psys pi T W R)
      (Psys pi' (let T' := <[k := after_write b src n]> T in
                 if (wake : bool) then wake_reader <$> T' else T') (W ++ out) R)
| ps_read k pi T W R n dst killed pi' b wake out :
    T !! k = Some (TReader n false) ->
    piperead_burst pi dst killed n = (pi', b, wake, out) ->
    pstep (Psys pi T W R)
      (Psys pi' (let T' := <[k := after_read b n]> T in
                 if (wake : bool) then wake_writer <$> T' else T') W (R ++ out))
| ps_close pi T W R writable :
    pstep (Psys pi T W R)
      (Psys (pipeclose pi writable).1
         ((if (writable : bool) then wake_reader else wake_writer) <$> T) W R)
| ps_kill k pi T W R t :
    (* [kill] makes a sleeping process runnable *)
    T !! k = Some t -> pstep (Psys pi T W R) (Psys pi (<[k := wake_reader (wake_writer t)]> T) W R).

End Sys.

(** The bytes in the buffer, given all bytes put and taken. *)
Definition content (W R : list Z) : list Z := drop (length R) W.
#[global] Arguments content : simpl never.

(** The buffer is the queue of the bytes put and not yet taken. *)
Record fifo (pi : pipe) (W R : list Z) : Prop := {
  f_prefix : R = take (length R) W;
  f_len : (length (content W R) <= 512)%nat;
  f_nread : nread pi = Z.of_nat (length R) mod 2 ^ 32;
  f_nwrite : nwrite pi = Z.of_nat (length W) mod 2 ^ 32;
  f_data : forall k ch, content W R !! k = Some ch ->
    p_data pi !! ((Z.of_nat (length R) + Z.of_nat k) mod 512) = Some ch
}.

(** Who sleeps has a reason to. *)
Definition writers_wait (S : psys) : Prop :=
  forall k src n i, s_thr S !! k = Some (TWriter src n i true) ->
    length (content (s_in S) (s_out S)) = 512%nat /\ readopen (s_pipe S) = true.
Definition readers_wait (S : psys) : Prop :=
  forall k n, s_thr S !! k = Some (TReader n true) ->
    content (s_in S) (s_out S) = [] /\ writeopen (s_pipe S) = true.

Section Fifo.
Context {pi : pipe} {W R : list Z} (F : fifo pi W R).

Lemma fifo_length : (length (content W R) + length R = length W)%nat.
Proof using F.
  pose proof (f_prefix _ _ _ F) as Hp. unfold content. rewrite length_drop.
  apply (f_equal length) in Hp. rewrite length_take in Hp. lia.
Qed.

Lemma fifo_full : (nwrite pi =? u32 (nread pi + PIPESIZE)) = bool_decide (length (content W R) = 512%nat).
Proof using F.
  pose proof fifo_length as Hl. pose proof (f_len _ _ _ F) as H512.
  rewrite (f_nread _ _ _ F), (f_nwrite _ _ _ F). unfold u32, PIPESIZE. rewrite Z.add_mod_idemp_l by lia.
  case_bool_decide as Hd; [apply Z.eqb_eq|apply Z.eqb_neq].
  - f_equal. lia.
  - set (w := Z.of_nat (length W)) in *. set (r := Z.of_nat (length R)) in *.
    assert (r <= w < r + 512) by lia. change (2 ^ 32) with 4294967296. dlia.
Qed.

Lemma fifo_empty : (nread pi =? nwrite pi) = bool_decide (content W R = []).
Proof using F.
  pose proof fifo_length as Hl. pose proof (f_len _ _ _ F) as H512.
  rewrite (f_nread _ _ _ F), (f_nwrite _ _ _ F).
  case_bool_decide as Hd; [apply Z.eqb_eq|apply Z.eqb_neq].
  - rewrite Hd in Hl. cbn in Hl. by rewrite Hl.
  - assert (length (content W R) <> 0%nat) by (intros ?%length_zero_iff_nil; done).
    set (w := Z.of_nat (length W)) in *. set (r := Z.of_nat (length R)) in *.
    assert (r < w <= r + 512) by lia. change (2 ^ 32) with 4294967296. dlia.
Qed.

Lemma content_snoc ch : content (W ++ [ch]) R = content W R ++ [ch].
Proof using F.
  pose proof fifo_length. unfold content. apply drop_app_le. lia.
Qed.

Lemma mod512 a : a mod 2 ^ 32 mod 512 = a mod 512.
Proof using. change (2 ^ 32) with 4294967296. dlia. Qed.

Lemma fifo_put ch : (length (content W R) < 512)%nat -> fifo (put pi ch) (W ++ [ch]) R.
Proof using F.
  intros Hlt. pose proof fifo_length as Hl.
  split.
  - rewrite take_app_le by lia. apply F.
  - rewrite content_snoc, length_app. cbn. lia.
  - apply F.
  - cbn. rewrite (f_nwrite _ _ _ F), length_app, Nat2Z.inj_add. unfold u32. by rewrite Z.add_mod_idemp_l.
  - intros k c. rewrite content_snoc. cbn. unfold PIPESIZE.
    rewrite (f_nwrite _ _ _ F), mod512. intros Hk.
    assert (k <= length (content W R))%nat as Hkl
      by (apply lookup_lt_Some in Hk; rewrite length_app in Hk; cbn in Hk; lia).
    destruct (decide (k = length (content W R))) as [->|Hne].
    + rewrite lookup_app_r, Nat.sub_diag in Hk by lia. injection Hk as <-.
      replace (Z.of_nat (length R) + Z.of_nat (length (content W R))) with (Z.of_nat (length W)) by lia.
      by rewrite lookup_insert_eq.
    + rewrite lookup_app_l in Hk by lia. rewrite lookup_insert_ne; [by apply (f_data _ _ _ F)|]. dlia.
Qed.

Lemma fifo_take ch rest : content W R = ch :: rest ->
  next pi = ch /\ fifo (take_one pi) W (R ++ [ch]) /\ content W (R ++ [ch]) = rest.
Proof using F.
  intros Hc. pose proof fifo_length as Hl. rewrite Hc in Hl. cbn in Hl.
  assert (W !! length R = Some ch) as Hw.
  { rewrite <- (Nat.add_0_r (length R)), <- lookup_drop. fold (content W R). by rewrite Hc. }
  assert (content W (R ++ [ch]) = rest) as Hc'.
  { unfold content in *. rewrite length_app. cbn. rewrite <- drop_drop, Hc. done. }
  split; [|split; [|done]].
  - unfold next, PIPESIZE. rewrite (f_nread _ _ _ F), mod512.
    pose proof (f_data _ _ _ F 0%nat ch) as Hd. rewrite Hc, Z.add_0_r in Hd. by rewrite Hd.
  - split.
    + rewrite length_app. cbn. rewrite Nat.add_1_r, (take_S_r _ _ ch) by done. f_equal. apply F.
    + rewrite Hc'. pose proof (f_len _ _ _ F) as H. rewrite Hc in H. cbn in H. lia.
    + cbn. rewrite (f_nread _ _ _ F), length_app, Nat2Z.inj_add. unfold u32. by rewrite Z.add_mod_idemp_l.
    + apply F.
    + rewrite Hc'. intros k c Hk. cbn. rewrite length_app. cbn.
      pose proof (f_data _ _ _ F (S k) c) as Hd. rewrite Hc in Hd. specialize (Hd Hk).
      rewrite <- Hd. f_equal. f_equal. lia.
Qed.
End Fifo.

(** ** Bursts *)

Lemma pipewrite_burst_spec pi W R src killed i todo pi' b wake out :
  fifo pi W R -> pipewrite_burst pi src killed i todo = (pi', b, wake, out) ->
  fifo pi' (W ++ out) R /\ readopen pi' = readopen pi /\ writeopen pi' = writeopen pi /\
  (forall k ch, out !! k = Some ch -> src (i + Z.of_nat k) = Some ch) /\
  match b with
  | Sleep j => j = i + Z.of_nat (length out) /\ wake = true /\ readopen pi = true /\
      length (content (W ++ out) R) = 512%nat
  | Return r => (r = -1 /\ wake = false /\ (readopen pi = false \/ killed (i + Z.of_nat (length out)) = true)) \/
      (r = i + Z.of_nat (length out) /\ wake = true /\
       (length out = todo \/ src r = None))
  end.
Proof.
  revert pi W i pi' b wake out. induction todo as [|todo IH]; intros pi W i pi' b wake out F; cbn.
  - intros [= <- <- <- <-]. rewrite app_nil_r. split; [done|]. split; [done|]. split; [done|].
    split; [done|]. right. split; [cbn; lia|]. split; [done|by left].
  - destruct (negb (readopen pi) || killed i) eqn:Ek.
    { intros [= <- <- <- <-]. rewrite app_nil_r. split; [done|]. split; [done|]. split; [done|].
      split; [done|]. left. split; [done|]. split; [done|]. cbn. rewrite Z.add_0_r.
      apply orb_true_iff in Ek as [Ek|Ek]; [left; by apply negb_true_iff|by right]. }
    apply orb_false_iff in Ek as [Eo%negb_false_iff Ek]. rewrite (fifo_full F).
    case_bool_decide as Hfull.
    { intros [= <- <- <- <-]. rewrite app_nil_r. split; [done|]. split; [done|]. split; [done|].
      split; [done|]. cbn. rewrite Z.add_0_r. done. }
    destruct (src i) as [ch|] eqn:Es.
    2:{ intros [= <- <- <- <-]. rewrite app_nil_r. split; [done|]. split; [done|]. split; [done|].
        split; [done|]. right. cbn. rewrite Z.add_0_r. split; [done|]. split; [done|by right]. }
    pose proof (f_len _ _ _ F). pose proof (fifo_put F ch ltac:(lia)) as F1.
    destruct (pipewrite_burst (put pi ch) src killed (i + 1) todo) as [[[pi1 b1] wake1] out1] eqn:E1.
    intros [= <- <- <- <-]. destruct (IH _ _ _ _ _ _ _ F1 E1) as (F2 & Er & Ew & Hout & Hb).
    replace (W ++ ch :: out1) with ((W ++ [ch]) ++ out1) by (by rewrite <- app_assoc).
    split; [done|]. split; [done|]. split; [done|]. split.
    { intros [|k] c Hk; cbn in Hk; [injection Hk as <-; by rewrite Z.add_0_r|].
      replace (i + Z.of_nat (S k)) with (i + 1 + Z.of_nat k) by lia. by apply Hout. }
    cbn [length]. destruct b1 as [j|r].
    + destruct Hb as (-> & -> & Hro & Hf). split; [lia|]. done.
    + destruct Hb as [(-> & -> & Hk)|(-> & -> & Hk)]; [left|right].
      * split; [done|]. split; [done|]. destruct Hk as [Hk|Hk]; [by left|right].
        replace (i + Z.of_nat (S (length out1))) with (i + 1 + Z.of_nat (length out1)) by lia. done.
      * split; [lia|]. split; [done|]. destruct Hk as [Hk|Hk]; [left; lia|by right].
Qed.

Lemma piperead_copy_spec pi W R dst i todo pi' r out :
  fifo pi W R -> piperead_copy pi dst i todo = (pi', r, out) ->
  fifo pi' W (R ++ out) /\ readopen pi' = readopen pi /\ writeopen pi' = writeopen pi /\
  (out = [] -> todo = 0%nat \/ content W R = []).
Proof.
  revert pi R i pi' r out. induction todo as [|todo IH]; intros pi R i pi' r out F; cbn.
  - intros [= <- <- <-]. rewrite app_nil_r. auto.
  - rewrite (fifo_empty F). case_bool_decide as He.
    { intros [= <- <- <-]. rewrite app_nil_r. auto. }
    destruct (content W R) as [|ch rest] eqn:Hc; [done|].
    destruct (fifo_take F ch rest Hc) as (-> & F1 & _). destruct (negb (dst i)).
    { intros [= <- <- <-]. naive_solver. }
    destruct (piperead_copy (take_one pi) dst (i + 1) todo) as [[pi1 r1] out1] eqn:E1.
    intros [= <- <- <-]. destruct (IH _ _ _ _ _ _ F1 E1) as (F2 & Er & Ew & _).
    replace (R ++ ch :: out1) with ((R ++ [ch]) ++ out1) by (by rewrite <- app_assoc). done.
Qed.

(** ** Every interleaving *)

Lemma wake_reader_asleep (T : list thread) k n :
  (wake_reader <$> T) !! k = Some (TReader n true) -> False.
Proof. rewrite list_lookup_fmap. destruct (T !! k) as [[]|]; done. Qed.
Lemma wake_writer_asleep (T : list thread) k src n i :
  (wake_writer <$> T) !! k = Some (TWriter src n i true) -> False.
Proof. rewrite list_lookup_fmap. destruct (T !! k) as [[]|]; done. Qed.
Lemma wake_reader_writer (T : list thread) k src n i a :
  (wake_reader <$> T) !! k = Some (TWriter src n i a) -> T !! k = Some (TWriter src n i a).
Proof. rewrite list_lookup_fmap. destruct (T !! k) as [[]|]; done. Qed.
Lemma wake_writer_reader (T : list thread) k n a :
  (wake_writer <$> T) !! k = Some (TReader n a) -> T !! k = Some (TReader n a).
Proof. rewrite list_lookup_fmap. destruct (T !! k) as [[]|]; done. Qed.

(** Threads of a step: a thread other than the one that ran. *)
Lemma asleep_other (T : list thread) k j t t' :
  <[k := t]> T !! j = Some t' -> (j = k /\ t' = t) \/ T !! j = Some t'.
Proof. intros [(-> & <- & _)|[_ H]]%list_lookup_insert_Some; auto. Qed.

Lemma piperead_burst_spec pi W R dst killed n pi' b wake out :
  fifo pi W R -> piperead_burst pi dst killed n = (pi', b, wake, out) ->
  fifo pi' W (R ++ out) /\ readopen pi' = readopen pi /\ writeopen pi' = writeopen pi /\
  (wake = false -> out = []) /\
  match b with
  | Sleep _ => content W R = [] /\ writeopen pi = true /\ out = [] /\ wake = false
  | Return _ => True
  end.
Proof.
  intros F. unfold piperead_burst. rewrite (fifo_empty F).
  case_bool_decide as He; destruct (writeopen pi) eqn:Ew; cbn [andb].
  1:{ destruct killed; intros [= <- <- <- <-]; rewrite app_nil_r;
        (split; [done|]; split; [done|]; split; [done|]; done). }
  all: destruct (piperead_copy pi dst 0 (Z.to_nat n)) as [[pi1 r] o] eqn:E; intros [= <- <- <- <-];
    destruct (piperead_copy_spec _ _ _ _ _ _ _ _ _ F E) as (F1 & Er & Ew1 & _);
    (split; [done|]; split; [done|]; split; [congruence|]; done).
Qed.

Section Invariants.
Context (calm : (Z -> bool) -> Prop).

Lemma pstep_fifo S S' : pstep calm S S' ->
  fifo (s_pipe S) (s_in S) (s_out S) -> fifo (s_pipe S') (s_in S') (s_out S').
Proof.
  destruct 1 as [| |k pi T W R src n i killed pi' b wake out Hk Hc E|k pi T W R n dst killed pi' b wake out Hk E|
    pi T W R writable|]; cbn; intros F; try done.
  - by destruct (pipewrite_burst_spec _ _ _ _ _ _ _ _ _ _ _ F E).
  - by destruct (piperead_burst_spec _ _ _ _ _ _ _ _ _ _ F E).
  - destruct writable; by destruct F.
Qed.

Lemma pstep_writers S S' : pstep calm S S' ->
  fifo (s_pipe S) (s_in S) (s_out S) -> writers_wait S -> writers_wait S'.
Proof.
  destruct 1 as [k pi T W R src n Hk|k pi T W R n Hk|k pi T W R src n i killed pi' b wake out Hk Hc E|
    k pi T W R n dst killed pi' b wake out Hk E|pi T W R writable|k pi T W R t Hk];
    unfold writers_wait; cbn; intros F Hw j src0 n0 i0.
  - intros [[_ [=]]|Hj]%asleep_other. by eapply Hw.
  - intros [[_ [=]]|Hj]%asleep_other. by eapply Hw.
  - intros Hj. assert (<[k := after_write b src n]> T !! j = Some (TWriter src0 n0 i0 true)) as Hj'
      by (destruct wake; [by apply wake_reader_writer|done]).
    destruct (pipewrite_burst_spec _ _ _ _ _ _ _ _ _ _ _ F E) as (F1 & Er & _ & _ & Hb).
    rewrite Er. apply asleep_other in Hj' as [[_ Hb']|Hj'].
    + destruct b; [|done]. by destruct Hb as (_ & _ & ? & ?).
    + destruct (Hw _ _ _ _ Hj') as [Hf Ho]. split; [|done].
      pose proof (fifo_length F) as H0. pose proof (fifo_length F1) as H1. pose proof (f_len _ _ _ F1).
      rewrite length_app in H1. lia.
  - intros Hj. destruct wake; [by apply wake_writer_asleep in Hj|].
    destruct (piperead_burst_spec _ _ _ _ _ _ _ _ _ _ F E) as (_ & Er & _ & Hout & _).
    rewrite Hout, app_nil_r, Er by done. apply asleep_other in Hj as [[_ Hb']|Hj]; [by destruct b|].
    by eapply Hw.
  - destruct writable.
    + intros Hj%wake_reader_writer. by eapply Hw.
    + intros Hj. by apply wake_writer_asleep in Hj.
  - intros [[_ Ht]|Hj]%asleep_other; [by destruct t|]. by eapply Hw.
Qed.

(** [killed] does not change during a burst. *)
Lemma pstep_readers S S' :
  (forall killed i j, calm killed -> killed i = killed j) -> pstep calm S S' ->
  fifo (s_pipe S) (s_in S) (s_out S) -> readers_wait S -> readers_wait S'.
Proof.
  intros Hconst. destruct 1 as [k pi T W R src n Hk|k pi T W R n Hk|
    k pi T W R src n i killed pi' b wake out Hk Hc E|k pi T W R n dst killed pi' b wake out Hk E|
    pi T W R writable|k pi T W R t Hk]; unfold readers_wait; cbn; intros F Hw j n0.
  - intros [[_ [=]]|Hj]%asleep_other. by eapply Hw.
  - intros [[_ [=]]|Hj]%asleep_other. by eapply Hw.
  - intros Hj. destruct wake; [by apply wake_reader_asleep in Hj|].
    destruct (pipewrite_burst_spec _ _ _ _ _ _ _ _ _ _ _ F E) as (F1 & Er & Ew & _ & Hb).
    apply asleep_other in Hj as [[_ Hb']|Hj]; [by destruct b|].
    destruct (Hw _ _ Hj) as [He Ho]. rewrite Ew. split; [|done].
    assert (out = []) as ->; [|by rewrite app_nil_r].
    destruct b as [|r]; [by destruct Hb as (_ & [=] & _)|].
    destruct Hb as [(_ & _ & Hk')|(_ & [=] & _)].
    destruct (Z.to_nat (n - i)) as [|todo]; cbn in E; [congruence|].
    destruct Hk' as [Hk'|Hk'].
    + rewrite Hk' in E. cbn in E. congruence.
    + rewrite (Hconst killed _ i Hc) in Hk'. rewrite Hk', orb_true_r in E. congruence.
  - intros Hj. destruct (piperead_burst_spec _ _ _ _ _ _ _ _ _ _ F E) as (F1 & Er & Ew & Hout & Hb).
    assert (<[k := after_read b n]> T !! j = Some (TReader n0 true)) as Hj'
      by (destruct wake; [by apply wake_writer_reader|done]).
    rewrite Ew. apply asleep_other in Hj' as [[_ Hb']|Hj'].
    + destruct b; [|done]. destruct Hb as (? & ? & -> & _). by rewrite app_nil_r.
    + destruct (Hw _ _ Hj') as [He Ho]. split; [|done].
      pose proof (fifo_length F) as H0. pose proof (fifo_length F1) as H1. rewrite He in H0. cbn in H0.
      rewrite length_app in H1. apply length_zero_iff_nil. lia.
  - destruct writable.
    + intros Hj. by apply wake_reader_asleep in Hj.
    + intros Hj%wake_writer_reader. by eapply Hw.
  - intros [[_ Ht]|Hj]%asleep_other; [by destruct t|]. by eapply Hw.
Qed.

Lemma psys_init n : fifo pipe_init [] [] /\ writers_wait (Psys pipe_init (replicate n TIdle) [] []) /\
  readers_wait (Psys pipe_init (replicate n TIdle) [] []).
Proof.
  split.
  { split; [done|unfold content; cbn; lia|done|done|]. intros k ch Hk. by destruct k. }
  split; [intros k src m i|intros k m]; cbn; by intros [? _]%lookup_replicate.
Qed.

(** C12: a pipe is a bounded FIFO queue.  With any number of readers and writers
    whose calls interleave in any way, after any number of steps (also when the
    32-bit counters have wrapped), the bytes read so far are a prefix of the
    bytes written so far, in order, none lost and none twice; at most
    [PIPESIZE] bytes are in flight; and a writer sleeps only while the buffer
    is full and the read end is open. *)
Theorem pipe_fifo n S :
  rtc (pstep calm) (Psys pipe_init (replicate n TIdle) [] []) S ->
  (exists rest, s_in S = s_out S ++ rest /\ Z.of_nat (length rest) <= PIPESIZE) /\ writers_wait S.
Proof.
  destruct (psys_init n) as (F0 & W0 & _). intros H.
  assert (fifo (s_pipe S) (s_in S) (s_out S) /\ writers_wait S) as [F W].
  { revert F0 W0. change (fifo pipe_init [] []) with
      (let S := Psys pipe_init (replicate n TIdle) [] [] in fifo (s_pipe S) (s_in S) (s_out S)).
    induction H as [S|S S1 S2 Hs _ IH]; [done|]. cbn. intros F W. apply IH.
    - by eapply pstep_fifo.
    - by eapply pstep_writers. }
  split; [|done]. exists (content (s_in S) (s_out S)). split.
  - rewrite (f_prefix _ _ _ F) at 1. symmetry. apply take_drop.
  - pose proof (f_len _ _ _ F). unfold PIPESIZE. lia.
Qed.

Lemma pipe_inv n S : (forall killed i j, calm killed -> killed i = killed j) ->
  rtc (pstep calm) (Psys pipe_init (replicate n TIdle) [] []) S ->
  fifo (s_pipe S) (s_in S) (s_out S) /\ writers_wait S /\ readers_wait S.
Proof.
  intros Hc. destruct (psys_init n) as (F0 & W0 & R0). intros H. revert F0 W0 R0.
  change (fifo pipe_init [] []) with
    (let S := Psys pipe_init (replicate n TIdle) [] [] in fifo (s_pipe S) (s_in S) (s_out S)).
  induction H as [S|S S1 S2 Hs _ IH]; [done|]. cbn. intros F W R. apply IH.
  - by eapply pstep_fifo.
  - by eapply pstep_writers.
  - by eapply pstep_readers.
Qed.

(** C27: no lost wakeup, as long as nobody is killed in the middle of a write: a
    reader sleeps only while the pipe is empty and the write end is open, a
    writer only while it is full, so readers and writers never sleep at the
    same time. *)
Theorem pipe_no_lost_wakeup n S :
  (forall killed i j, calm killed -> killed i = killed j) ->
  rtc (pstep calm) (Psys pipe_init (replicate n TIdle) [] []) S ->
  readers_wait S /\ writers_wait S /\
  ~ (exists k m j src m' i, s_thr S !! k = Some (TReader m true) /\
       s_thr S !! j = Some (TWriter src m' i true)).
Proof.
  intros Hc H. destruct (pipe_inv n S Hc H) as (_ & W & R). split; [done|]. split; [done|].
  intros (k & m & j & src & m' & i & Hk & Hj). destruct (R _ _ Hk) as [He _], (W _ _ _ _ Hj) as [Hf _].
  by rewrite He in Hf.
Qed.
End Invariants.

(** ** Examples *)

(** A reader sleeps; a writer of two bytes wakes it. *)
Definition two (i : Z) : option Z := Some (10 + i).
Definition S_read : psys := Psys pipe_init [TReader 5 true; TIdle] [] [].
Definition alive (k : Z -> bool) : Prop := forall i, k i = false.
Definition S_wrote : psys := Psys (put (put pipe_init 10) 11) [TReader 5 false; TIdle] [10; 11] [].

Lemma reach_S_read calm : rtc (pstep calm) (Psys pipe_init (replicate 2 TIdle) [] []) S_read.
Proof.
  eapply rtc_l; [by apply (ps_start_read calm 0 pipe_init [TIdle; TIdle] [] [] 5)|].
  eapply rtc_l; [|apply rtc_refl].
  by apply (ps_read calm 0 pipe_init [TReader 5 false; TIdle] [] [] 5 (fun _ => true) false pipe_init (Sleep 0) false []).
Qed.

Lemma reach_S_wrote : rtc (pstep alive) (Psys pipe_init (replicate 2 TIdle) [] []) S_wrote.
Proof.
  etransitivity; [apply reach_S_read|].
  eapply rtc_l; [by apply (ps_start_write alive 1 pipe_init [TReader 5 true; TIdle] [] [] two 2)|].
  eapply rtc_l; [|apply rtc_refl].
  by apply (ps_write alive 1 pipe_init [TReader 5 true; TWriter two 2 0 false] [] [] two 2 0 (fun _ => false)
    (put (put pipe_init 10) 11) (Return 2) true [10; 11]).
Qed.

Lemma pipe_fifo_witness :
  (exists rest, s_in S_wrote = s_out S_wrote ++ rest /\ Z.of_nat (length rest) <= PIPESIZE) /\
  writers_wait S_wrote.
Proof. apply (pipe_fifo alive 2 S_wrote reach_S_wrote). Defined.

Lemma pipe_no_lost_wakeup_witness :
  readers_wait S_wrote /\ writers_wait S_wrote /\
  ~ (exists k m j src m' i, s_thr S_wrote !! k = Some (TReader m true) /\
       s_thr S_wrote !! j = Some (TWriter src m' i true)).
Proof.
  apply (pipe_no_lost_wakeup alive 2 S_wrote); [|exact reach_S_wrote].
  intros killed i j H. rewrite !H. reflexivity.
Defined.

(** The writer stores one byte, is killed, and returns -1 without a wakeup. *)
Definition S_lost : psys := Psys (put pipe_init 10) [TReader 5 true; TIdle] [10] [].

(** C34: a writer that is killed between two bytes returns -1 without waking the
    readers, although it has already stored bytes: a reachable state has a
    reader asleep on a pipe that is not empty. *)
Theorem pipe_killed_lost_wakeup :
  rtc (pstep (fun _ => True)) (Psys pipe_init (replicate 2 TIdle) [] []) S_lost /\
  s_thr S_lost !! 0%nat = Some (TReader 5 true) /\ content (s_in S_lost) (s_out S_lost) <> [].
Proof.
  split; [|done]. etransitivity; [apply reach_S_read|].
  eapply rtc_l; [by apply (ps_start_write _ 1 pipe_init [TReader 5 true; TIdle] [] [] two 2)|].
  eapply rtc_l; [|apply rtc_refl].
  by apply (ps_write _ 1 pipe_init [TReader 5 true; TWriter two 2 0 false] [] [] two 2 0 (fun i => i =? 1)
    (put pipe_init 10) (Return (-1)) false [10]).
Qed.
