(* ===== verification/BufCache.v ===== *)
(** * The interface of the buffer cache

    What kernel/log.c and kernel/fs.c use of kernel/bio.c: the operations
    ([BufCache]) and what they promise ([BufCacheSpec]), stated on an abstract
    cache [acache].  [Bio] implements the interface with the linked list of
    buffers; [Log] and [Fs] are written and proved against it. *)

From S2P Require Import Prelude Riscv Mem.

(** The 1024 data bytes of a block, by offset. *)
Abbreviation block := (gmap Z Z).
Definition BSIZE : Z := 1024.

(** The disk, by block number. *)
Abbreviation diskT := (gmap Z (gmap Z Z)).
Definition dget (d : diskT) (b : Z) : block := default ∅ (d !! b).

(** The operations, on a cache of type [C].  A buffer is named by its index;
    [bdata], [bset] and [bblockno] are the accesses to [b->data] and
    [b->blockno] in the clients. *)
Class BufCache (C : Type) := {
  bread : Z -> Z -> M C Z;
  bwrite : Z -> M C unit;
  brelse : Z -> M C unit;
  bpin : Z -> M C unit;
  bunpin : Z -> M C unit;
  bdata : Z -> M C block;
  bset : Z -> block -> M C unit;
  bblockno : Z -> M C Z
}.

(** The abstract cache: what each block holds for a reader ([a_view]), what is
    on the disk, how many pins each block has, which buffers are locked and for
    which block, and the disks after each write so far, the last one first. *)
Record acache := Acache {
  a_view : diskT;
  a_disk : diskT;
  a_pins : gmap Z Z;
  a_held : gmap Z Z;
  a_hist : list diskT
}.

Definition pins (a : acache) (b : Z) : Z := default 0 (a_pins a !! b).
(** The blocks that cannot leave the cache. *)
Definition busy (a : acache) : gset Z := dom (a_pins a) ∪ map_img (a_held a).
Definition room (a : acache) (b : Z) : Prop := (size (busy a ∪ {[b]}) <= Z.to_nat NBUF)%nat.
Definition unlocked (a : acache) (b : Z) : Prop := forall i, a_held a !! i <> Some b.

Definition a_lock (i b : Z) (a : acache) : acache :=
  Acache (a_view a) (a_disk a) (a_pins a) (<[i := b]> (a_held a)) (a_hist a).
Definition a_unlock (i : Z) (a : acache) : acache :=
  Acache (a_view a) (a_disk a) (a_pins a) (delete i (a_held a)) (a_hist a).
Definition a_store (b : Z) (d : block) (a : acache) : acache :=
  Acache (<[b := d]> (a_view a)) (a_disk a) (a_pins a) (a_held a) (a_hist a).
Definition a_flush (b : Z) (a : acache) : acache :=
  let d := <[b := dget (a_view a) b]> (a_disk a) in
  Acache (a_view a) d (a_pins a) (a_held a) (d :: a_hist a).
Definition a_pin (b : Z) (a : acache) : acache :=
  Acache (a_view a) (a_disk a) (<[b := pins a b + 1]> (a_pins a)) (a_held a) (a_hist a).
Definition a_unpin (b : Z) (a : acache) : acache :=
  Acache (a_view a) (a_disk a)
    (if pins a b =? 1 then delete b (a_pins a) else <[b := pins a b - 1]> (a_pins a))
    (a_held a) (a_hist a).

Class BufCacheSpec (C : Type) `{!BufCache C} := {
  crep : C -> acache -> Prop;
  (** a block that is neither pinned nor locked is the same on disk *)
  crep_clean c a b : crep c a -> b ∉ busy a -> dget (a_view a) b = dget (a_disk a) b;
  crep_pins c a b n : crep c a -> a_pins a !! b = Some n -> 0 < n;
  bread_spec c a b (Q : Z -> C -> Prop) :
    crep c a -> unlocked a b -> room a b ->
    (forall i c', a_held a !! i = None -> crep c' (a_lock i b a) -> Q i c') ->
    wp (bread ROOTDEV b) c Q;
  bwrite_spec c a i b (Q : unit -> C -> Prop) :
    crep c a -> a_held a !! i = Some b ->
    (forall c', crep c' (a_flush b a) -> Q tt c') -> wp (bwrite i) c Q;
  brelse_spec c a i b (Q : unit -> C -> Prop) :
    crep c a -> a_held a !! i = Some b ->
    (0 < pins a b \/ dget (a_view a) b = dget (a_disk a) b) ->
    (forall c', crep c' (a_unlock i a) -> Q tt c') -> wp (brelse i) c Q;
  bpin_spec c a i b (Q : unit -> C -> Prop) :
    crep c a -> a_held a !! i = Some b ->
    (forall c', crep c' (a_pin b a) -> Q tt c') -> wp (bpin i) c Q;
  bunpin_spec c a i b (Q : unit -> C -> Prop) :
    crep c a -> a_held a !! i = Some b -> 0 < pins a b ->
    (forall c', crep c' (a_unpin b a) -> Q tt c') -> wp (bunpin i) c Q;
  bdata_spec c a i b (Q : block -> C -> Prop) :
    crep c a -> a_held a !! i = Some b -> Q (dget (a_view a) b) c -> wp (bdata i) c Q;
  bset_spec c a i b d (Q : unit -> C -> Prop) :
    crep c a -> a_held a !! i = Some b ->
    (forall c', crep c' (a_store b d a) -> Q tt c') -> wp (bset i d) c Q;
  bblockno_spec c a i b (Q : Z -> C -> Prop) :
    crep c a -> a_held a !! i = Some b -> Q b c -> wp (bblockno i) c Q
}.

Lemma elem_of_busy a b : b ∈ busy a <-> is_Some (a_pins a !! b) \/ exists i, a_held a !! i = Some b.
Proof. unfold busy. rewrite elem_of_union, elem_of_dom. by rewrite elem_of_map_img. Qed.

Lemma dget_insert d b x b' : dget (<[b := x]> d) b' = if decide (b = b') then x else dget d b'.
Proof. unfold dget. rewrite lookup_insert. by case_decide. Qed.

Lemma room_list a b l : (forall x, x ∈ busy a -> x ∈ l) -> b ∈ l -> (length l <= 30)%nat -> room a b.
Proof.
  intros Hl Hb Hn. unfold room. change (Z.to_nat NBUF) with 30%nat.
  trans (length l); [|done]. change (size (busy a ∪ {[b]})) with (length (elements (busy a ∪ {[b]}))).
  apply submseteq_length, NoDup_submseteq; [apply NoDup_elements|]. intros x. rewrite elem_of_elements.
  rewrite elem_of_union, elem_of_singleton. intros [?| ->]; [by apply Hl|done].
Qed.
