(* ===== verification/Bio.v ===== *)
(** * kernel/bio.c

    The buffer cache: [NBUF] buffers on a doubly linked list through [head],
    kept in order of use.  A buffer is named by its index in [bcache.buf], and
    [head] by [NBUF].  The disk of kernel/virtio_disk.c is the map [disk];
    [hist] records every disk that existed, for the statements on crashes.

    The file's theorem is the instance [bio_spec] of the interface
    [BufCacheSpec]; [bget_lru] and [brelse_mru] say which buffer is recycled. *)

From S2P Require Import Prelude Riscv Mem BufCache.

Record buf := Buf {
  b_valid : bool;
  b_dev : Z;
  b_blockno : Z;
  b_locked : bool;   (* the sleep-lock *)
  b_refcnt : Z;
  b_prev : Z;
  b_next : Z;
  b_data : block
}.

Record bcache := Bcache {
  bufs : gmap Z buf;
  disk : diskT;
  hist : list diskT
}.

Definition HEAD : Z := NBUF.
Definition buf0 : buf := Buf false 0 0 false 0 0 0 ∅.
Definition bufat (s : bcache) (i : Z) : buf := default buf0 (bufs s !! i).

Definition set_buf (i : Z) (f : buf -> buf) (s : bcache) : bcache :=
  Bcache (<[i := f (bufat s i)]> (bufs s)) (disk s) (hist s).
Definition upd (i : Z) (f : buf -> buf) : M bcache unit := modify (set_buf i f).

Definition set_next (n : Z) (b : buf) : buf :=
  Buf (b_valid b) (b_dev b) (b_blockno b) (b_locked b) (b_refcnt b) (b_prev b) n (b_data b).
Definition set_prev (p : Z) (b : buf) : buf :=
  Buf (b_valid b) (b_dev b) (b_blockno b) (b_locked b) (b_refcnt b) p (b_next b) (b_data b).
Definition set_ref (r : Z) (b : buf) : buf :=
  Buf (b_valid b) (b_dev b) (b_blockno b) (b_locked b) r (b_prev b) (b_next b) (b_data b).
Definition set_locked (l : bool) (b : buf) : buf :=
  Buf (b_valid b) (b_dev b) (b_blockno b) l (b_refcnt b) (b_prev b) (b_next b) (b_data b).
Definition set_data (v : bool) (d : block) (b : buf) : buf :=
  Buf v (b_dev b) (b_blockno b) (b_locked b) (b_refcnt b) (b_prev b) (b_next b) d.
Definition recycle (dev blockno : Z) (b : buf) : buf :=
  Buf false dev blockno (b_locked b) 1 (b_prev b) (b_next b) (b_data b).

(** The insertion at the front that [binit] and [brelse] share:
    [b->next = bcache.head.next; b->prev = &bcache.head;
     bcache.head.next->prev = b; bcache.head.next = b]. *)
Definition push_front (i : Z) : M bcache unit :=
  n ← gets (fun s => b_next (bufat s HEAD));
  upd i (set_next n);;
  upd i (set_prev HEAD);;
  n ← gets (fun s => b_next (bufat s HEAD));
  upd n (set_prev i);;
  upd HEAD (set_next i).

(** [b->next->prev = b->prev; b->prev->next = b->next] *)
Definition unlink (i : Z) : M bcache unit :=
  b ← gets (fun s => bufat s i);
  upd (b_next b) (set_prev (b_prev b));;
  b ← gets (fun s => bufat s i);
  upd (b_prev b) (set_next (b_next b)).

Fixpoint binit_from (i : Z) (k : nat) : M bcache unit :=
  match k with
  | O => mret tt
  | S k => push_front i;; binit_from (i + 1) k
  end.

Definition binit : M bcache unit :=
  upd HEAD (set_prev HEAD);;
  upd HEAD (set_next HEAD);;
  binit_from 0 (Z.to_nat NBUF).

(** A lock that is held would block the caller for ever in a sequential run. *)
Definition acquiresleep (i : Z) : M bcache unit :=
  l ← gets (fun s => b_locked (bufat s i));
  if (l : bool) then panic "deadlock" else upd i (set_locked true).
Definition holdingsleep (i : Z) : M bcache bool := gets (fun s => b_locked (bufat s i)).
Definition releasesleep (i : Z) : M bcache unit := upd i (set_locked false).

Definition find_step (dev blockno : Z) (i : Z) : M bcache (Z + option Z) :=
  if i =? HEAD then mret (inr None)
  else
    b ← gets (fun s => bufat s i);
    if (b_dev b =? dev) && (b_blockno b =? blockno) then mret (inr (Some i))
    else mret (inl (b_next b)).
Definition free_step (i : Z) : M bcache (Z + option Z) :=
  if i =? HEAD then mret (inr None)
  else
    b ← gets (fun s => bufat s i);
    if b_refcnt b =? 0 then mret (inr (Some i)) else mret (inl (b_prev b)).

(** The list has [NBUF] nodes; [BUFFUEL] bounds a walk of it. *)
Definition BUFFUEL : positive := 64.

Definition bget (dev blockno : Z) : M bcache Z :=
  first ← gets (fun s => b_next (bufat s HEAD));
  r ← loop (find_step dev blockno) BUFFUEL first;
  match r with
  | Some i =>
      upd i (fun b => set_ref (b_refcnt b + 1) b);;
      acquiresleep i;;
      mret i
  | None =>
      last ← gets (fun s => b_prev (bufat s HEAD));
      r ← loop free_step BUFFUEL last;
      match r with
      | Some i =>
          upd i (recycle dev blockno);;
          acquiresleep i;;
          mret i
      | None => panic "bget: no buffers"
      end
  end.

Definition virtio_disk_rw (i : Z) (write : bool) : M bcache unit :=
  b ← gets (fun s => bufat s i);
  if write then
    modify (fun s => let d := <[b_blockno b := b_data b]> (disk s) in Bcache (bufs s) d (d :: hist s))
  else modify (fun s => set_buf i (set_data (b_valid b) (dget (disk s) (b_blockno b))) s).

Definition bio_bread (dev blockno : Z) : M bcache Z :=
  i ← bget dev blockno;
  b ← gets (fun s => bufat s i);
  (if b_valid b then mret tt
   else virtio_disk_rw i false;; upd i (fun b => set_data true (b_data b) b));;
  mret i.

Definition bio_bwrite (i : Z) : M bcache unit :=
  h ← holdingsleep i;
  if negb h then panic "bwrite" else virtio_disk_rw i true.

Definition bio_brelse (i : Z) : M bcache unit :=
  h ← holdingsleep i;
  if negb h then panic "brelse" else
  releasesleep i;;
  upd i (fun b => set_ref (b_refcnt b - 1) b);;
  b ← gets (fun s => bufat s i);
  if b_refcnt b =? 0 then unlink i;; push_front i
  else mret tt.

Definition bio_bpin (i : Z) : M bcache unit := upd i (fun b => set_ref (b_refcnt b + 1) b).
Definition bio_bunpin (i : Z) : M bcache unit := upd i (fun b => set_ref (b_refcnt b - 1) b).

#[export] Instance bio_cache : BufCache bcache := {|
  bread := bio_bread;
  bwrite := bio_bwrite;
  brelse := bio_brelse;
  bpin := bio_bpin;
  bunpin := bio_bunpin;
  bdata := fun i => gets (fun s => b_data (bufat s i));
  bset := fun i d => upd i (fun b => set_data (b_valid b) d b);
  bblockno := fun i => gets (fun s => b_blockno (bufat s i))
|}.

(** ** Circular lists *)

(** Following [f] from [x] visits [l] and arrives at [y]. *)
Fixpoint path (f : Z -> Z) (x : Z) (l : list Z) (y : Z) : Prop :=
  match l with
  | [] => f x = y
  | a :: l => f x = a /\ path f a l y
  end.

Lemma path_app f x l1 a l2 y : path f x (l1 ++ a :: l2) y <-> path f x l1 a /\ path f a l2 y.
Proof. revert x. induction l1 as [|b l1 IH]; intros x; cbn; [done|]. rewrite IH. tauto. Qed.

Lemma path_ext f g x l y : (forall i, i ∈ x :: l -> f i = g i) -> path f x l y -> path g x l y.
Proof.
  revert x. induction l as [|a l IH]; intros x H; cbn.
  - intros <-. symmetry. apply H. set_solver.
  - intros [<- Hp]. split; [symmetry; apply H; set_solver|]. apply IH; [set_solver|done].
Qed.

Lemma last_cons (a x : Z) l : List.last (a :: l) x = List.last l a.
Proof.
  revert a x. induction l as [|b l IH]; intros a x; [done|].
  change (List.last (b :: l) x = List.last (b :: l) a). by rewrite !IH.
Qed.

(** The node before [y] of a path. *)
Lemma path_last f x l y : path f x l y -> f (List.last l x) = y.
Proof.
  revert x. induction l as [|a l IH]; intros x; [done|]. rewrite last_cons. intros [_ H].
  by apply IH.
Qed.

Lemma path_first f x l y : path f x l y -> f x = List.hd y l.
Proof. by destruct l; cbn; [|intros [? _]]. Qed.

Lemma last_in l (x : Z) : List.last l x ∈ x :: l.
Proof.
  revert x. induction l as [|a l IH]; intros x; [set_solver|]. rewrite last_cons.
  pose proof (IH a). set_solver.
Qed.

Lemma last_rev l (x : Z) : List.last (rev l) x = List.hd x l.
Proof. destruct l as [|a l]; [done|]. cbn. by rewrite last_last. Qed.
Lemma hd_rev l (x : Z) : List.hd x (rev l) = List.last l x.
Proof. rewrite <- (rev_involutive l) at 2. by rewrite last_rev. Qed.

(** Redirecting the last step of a path. *)
Lemma path_redirect f g x l y z :
  NoDup (x :: l) -> path f x l y -> (forall i, i ∈ x :: l -> i <> List.last l x -> g i = f i) ->
  g (List.last l x) = z -> path g x l z.
Proof.
  revert x. induction l as [|a l IH]; intros x Hn; cbn [path]; [intros _ _ H; exact H|].
  intros [Hf Hp] Hg Hz. apply NoDup_cons in Hn as [Hx Hn].
  rewrite last_cons in *. split.
  - rewrite Hg; [done|set_solver|]. intros ->. apply Hx. apply last_in.
  - apply IH; [done|done| |done]. intros i Hi. apply Hg. set_solver.
Qed.

(** Removing [a] from a path. *)
Lemma path_remove f g x l1 a l2 y :
  NoDup (x :: l1 ++ a :: l2) -> path f x (l1 ++ a :: l2) y ->
  (forall i, i ∈ x :: l1 ++ l2 -> i <> List.last l1 x -> g i = f i) ->
  g (List.last l1 x) = f a -> path g x (l1 ++ l2) y.
Proof.
  intros Hn [H1 H2]%path_app Hg Ha.
  assert (List.last l1 x ∈ x :: l1) as Hl by apply last_in.
  assert (NoDup (x :: l1)) as Hn1.
  { change (x :: l1 ++ a :: l2) with ((x :: l1) ++ a :: l2) in Hn. by apply NoDup_app in Hn as [? _]. }
  assert (forall i, i ∈ l2 -> i ∉ x :: l1) as Hd.
  { change (x :: l1 ++ a :: l2) with ((x :: l1) ++ a :: l2) in Hn. apply NoDup_app in Hn as (_ & Hd & _).
    intros i Hi Hi'. apply (Hd i Hi'). set_solver. }
  assert (path g x l1 (f a)) as H1'
    by (eapply path_redirect; [done|exact H1| |done]; intros i Hi; apply Hg; set_solver).
  destruct l2 as [|b l2]; cbn in H2.
  - rewrite app_nil_r. by rewrite H2 in H1'.
  - destruct H2 as [E H2]. rewrite E in H1'. apply path_app. split; [done|].
    eapply path_ext; [|exact H2]. intros i Hi. symmetry. apply Hg; [set_solver|].
    intros ->. by eapply (Hd _ Hi).
Qed.

(** ** The linked list of buffers *)

Definition nx (s : bcache) (i : Z) : Z := b_next (bufat s i).
Definition pv (s : bcache) (i : Z) : Z := b_prev (bufat s i).

(** [l] is the list from the most to the least recently used buffer. *)
Definition linked (s : bcache) (l : list Z) : Prop :=
  NoDup (HEAD :: l) /\ path (nx s) HEAD l HEAD /\ path (pv s) HEAD (rev l) HEAD.

(** Everything but the links. *)
Definition core (b : buf) : buf := set_next 0 (set_prev 0 b).
Definition same_core (s s' : bcache) : Prop :=
  (forall i, core (bufat s' i) = core (bufat s i)) /\ disk s' = disk s /\ hist s' = hist s.

Lemma bufat_set i f s j : bufat (set_buf i f s) j = if decide (i = j) then f (bufat s i) else bufat s j.
Proof. unfold bufat, set_buf. cbn. rewrite lookup_insert. by case_decide. Qed.

Lemma same_core_next i n s s' : same_core s s' -> same_core s (set_buf i (set_next n) s').
Proof.
  intros [H ?]. split; [|done]. intros j. rewrite bufat_set. case_decide; subst; apply H.
Qed.
Lemma same_core_prev i n s s' : same_core s s' -> same_core s (set_buf i (set_prev n) s').
Proof.
  intros [H ?]. split; [|done]. intros j. rewrite bufat_set. case_decide; subst; apply H.
Qed.
Lemma same_core_refl s : same_core s s.
Proof. done. Qed.
#[local] Hint Resolve same_core_refl same_core_next same_core_prev : xv6.

Lemma rev_elem (l : list Z) i : i ∈ rev l <-> i ∈ l.
Proof. by rewrite <- (Permutation_rev l). Qed.

Lemma rev_NoDup (l : list Z) x : NoDup (x :: l) -> NoDup (x :: rev l).
Proof.
  intros [Hx Hn]%NoDup_cons. apply NoDup_cons. split; [by rewrite rev_elem|].
  by rewrite <- (Permutation_rev l).
Qed.

Ltac buf_cases :=
  unfold nx, pv; cbn [bufs disk hist]; rewrite ?bufat_set;
  repeat (case_decide; subst; cbn [b_next b_prev set_next set_prev]; try done).

Lemma push_front_wp i s l (Q : unit -> bcache -> Prop) :
  linked s l -> i ∉ HEAD :: l ->
  (forall s', linked s' (i :: l) -> same_core s s' -> Q tt s') -> wp (push_front i) s Q.
Proof.
  intros (Hn & Hx & Hp) Hi HQ. unfold push_front, upd. repeat wp_step.
  set (n := b_next (bufat s HEAD)).
  assert (n = List.hd HEAD l) as Hhd by apply (path_first _ _ _ _ Hx).
  assert (n ∈ HEAD :: l) as Hnin by (rewrite Hhd; destruct l; [left|right; left]).
  assert (i <> HEAD /\ (i ∉ l) /\ n <> i) as (Hi1 & Hi2 & Hi3) by set_solver.
  set (s1 := set_buf i (set_prev HEAD) (set_buf i (set_next n) s)).
  assert (b_next (bufat s1 HEAD) = n) as E.
  { unfold s1. buf_cases. }
  rewrite E. apply HQ.
  - split; [|split].
    + apply NoDup_cons in Hn as [? ?]. repeat (apply NoDup_cons; split); set_solver.
    + cbn. split; [by buf_cases|].
      destruct l as [|a l]; cbn in Hhd; cbn.
      * unfold s1. buf_cases.
      * cbn in Hx. destruct Hx as [_ Hx]. apply NoDup_cons in Hn as [Hh _].
        split; [unfold s1; buf_cases; by rewrite decide_True by done|].
        eapply path_ext; [|exact Hx]. intros j Hj. unfold s1. buf_cases; set_solver.
    + cbn [rev]. apply path_app. split.
      * eapply (path_redirect (pv s)); [by apply rev_NoDup|exact Hp| |]; rewrite last_rev, <- Hhd.
        -- intros j Hj Hjn. assert (j <> i) by (rewrite elem_of_cons, rev_elem in Hj; set_solver).
           unfold s1. buf_cases.
        -- unfold s1. buf_cases.
      * cbn. unfold s1. buf_cases.
  - unfold s1. auto 6 with xv6.
Qed.

Lemma unlink_wp i s l1 l2 (Q : unit -> bcache -> Prop) :
  linked s (l1 ++ i :: l2) ->
  (forall s', linked s' (l1 ++ l2) -> same_core s s' -> Q tt s') ->
  wp (unlink i) s Q.
Proof.
  intros (Hn & Hx & Hp) HQ. unfold unlink, upd. repeat wp_step. fold (nx s i) (pv s i).
  assert (NoDup (HEAD :: rev l2 ++ i :: rev l1)) as Hn'.
  { apply rev_NoDup in Hn. by rewrite rev_app_distr in Hn; cbn in Hn; rewrite <- app_assoc in Hn. }
  assert (path (pv s) HEAD (rev l2 ++ i :: rev l1) HEAD) as Hp'
    by (by rewrite rev_app_distr in Hp; cbn in Hp; rewrite <- app_assoc in Hp).
  assert (pv s i = List.last l1 HEAD) as Epv.
  { apply path_app in Hp' as [_ H]. rewrite (path_first _ _ _ _ H). apply hd_rev. }
  assert (nx s i = List.last (rev l2) HEAD) as Enx.
  { apply path_app in Hx as [_ H]. rewrite (path_first _ _ _ _ H). by rewrite last_rev. }
  assert (nx s i <> i) as Hni.
  { rewrite Enx. pose proof (last_in (rev l2) HEAD) as Hin. intros E. rewrite E in Hin.
    change (HEAD :: rev l2 ++ i :: rev l1) with ((HEAD :: rev l2) ++ i :: rev l1) in Hn'.
    apply NoDup_app in Hn' as (_ & Hd & _). apply (Hd i Hin). set_solver. }
  set (s1 := set_buf (nx s i) (set_prev (pv s i)) s).
  assert (bufat s1 i = bufat s i) as E1 by (unfold s1; rewrite bufat_set; by rewrite decide_False).
  rewrite E1. apply HQ.
  - split; [|split].
    + clear -Hn. apply NoDup_cons in Hn as [Hh Hn]. apply NoDup_cons. split; [set_solver|].
      apply NoDup_app in Hn as (? & Hd & Hn). apply NoDup_cons in Hn as [? ?]. apply NoDup_app.
      split; [done|]. split; [|done]. intros x Hx. specialize (Hd x Hx). set_solver.
    + eapply (path_remove (nx s)); [exact Hn|exact Hx| |]; rewrite <- Epv.
      * intros j _ Hj. unfold s1. buf_cases.
      * unfold s1. buf_cases.
    + rewrite rev_app_distr. eapply (path_remove (pv s)); [exact Hn'|exact Hp'| |]; rewrite <- Enx.
      * intros j _ Hj. unfold s1. buf_cases.
      * unfold s1. buf_cases.
  - unfold s1. auto 6 with xv6.
Qed.

(** The two searches of [bget], along [next] and along [prev]. *)
Lemma walk_wp (step : Z -> M bcache (Z + option Z)) (f : Z -> Z) (t : Z -> bool) s x l :
  step HEAD s = Ok (inr None) s ->
  (forall i, i <> HEAD -> step i s = Ok (if t i then inr (Some i) else inl (f i)) s) ->
  path f x l HEAD -> HEAD ∉ l -> (length l < 63)%nat ->
  wp (loop step BUFFUEL (f x)) s (fun r s' => s' = s /\ r = List.find t l).
Proof.
  intros H0 H1 Hp Hh Hl.
  apply (wp_loop _ (fun n a s' => s' = s /\ exists x l', (HEAD ∉ l') /\ path f x l' HEAD /\ a = f x /\
    List.find t l = List.find t l' /\ n = length l') _ BUFFUEL (length l)); [| |unfold BUFFUEL; lia].
  2: { split; [done|]. by exists x, l. }
  clear x Hp Hh Hl. intros n a s' (-> & x & l' & Hh & Hp & -> & Hf & ->). unfold wp.
  destruct l' as [|b l'].
  - cbn in Hp. by rewrite Hp, H0.
  - destruct Hp as [-> Hp]. rewrite H1 by set_solver. cbn in Hf.
    destruct (t b); [done|]. exists (length l'). split; [cbn; lia|]. split; [done|].
    exists b, l'. split; [set_solver|done].
Qed.

Definition has (s : bcache) (dev blockno : Z) (i : Z) : bool :=
  (b_dev (bufat s i) =? dev) && (b_blockno (bufat s i) =? blockno).
Definition unused (s : bcache) (i : Z) : bool := b_refcnt (bufat s i) =? 0.

Lemma find_wp s l dev blockno :
  linked s l -> (length l < 63)%nat ->
  wp (loop (find_step dev blockno) BUFFUEL (nx s HEAD)) s
    (fun r s' => s' = s /\ r = List.find (has s dev blockno) l).
Proof.
  intros (Hn & Hx & _) Hl. apply walk_wp; [done| |done|by apply NoDup_cons in Hn as [? _]|done].
  intros i Hi. unfold find_step. rewrite (proj2 (Z.eqb_neq i HEAD) Hi).
  unfold mbind, M_bind, gets, has. by destruct (_ && _).
Qed.

Lemma free_wp s l :
  linked s l -> (length l < 63)%nat ->
  wp (loop free_step BUFFUEL (pv s HEAD)) s (fun r s' => s' = s /\ r = List.find (unused s) (rev l)).
Proof.
  intros (Hn & _ & Hp) Hl. apply walk_wp; [done| |done| |by rewrite length_rev].
  - intros i Hi. unfold free_step. rewrite (proj2 (Z.eqb_neq i HEAD) Hi).
    unfold mbind, M_bind, gets, unused. by destruct (_ =? _).
  - rewrite rev_elem. by apply NoDup_cons in Hn as [? _].
Qed.

(** ** The cache implements its interface *)

Definition isbuf (i : Z) : Prop := 0 <= i < NBUF.

(** All but the order of the list. *)
Record body (s : bcache) (a : acache) : Prop := {
  r_dev i : isbuf i ->
    (b_dev (bufat s i) = ROOTDEV /\ b_valid (bufat s i) = true) \/
    (b_dev (bufat s i) = 0 /\ b_refcnt (bufat s i) = 0 /\ b_locked (bufat s i) = false);
  r_uniq i j : isbuf i -> isbuf j -> b_dev (bufat s i) = ROOTDEV -> b_dev (bufat s j) = ROOTDEV ->
    b_blockno (bufat s i) = b_blockno (bufat s j) -> i = j;
  r_lock i : isbuf i -> b_locked (bufat s i) = bool_decide (is_Some (a_held a !! i));
  r_held i b : a_held a !! i = Some b ->
    isbuf i /\ b_dev (bufat s i) = ROOTDEV /\ b_blockno (bufat s i) = b;
  r_ref i : isbuf i -> b_dev (bufat s i) = ROOTDEV ->
    b_refcnt (bufat s i) = pins a (b_blockno (bufat s i)) + if b_locked (bufat s i) then 1 else 0;
  r_pins b n : a_pins a !! b = Some n ->
    0 < n /\ exists i, isbuf i /\ b_dev (bufat s i) = ROOTDEV /\ b_blockno (bufat s i) = b;
  r_data i : isbuf i -> b_dev (bufat s i) = ROOTDEV ->
    b_data (bufat s i) = dget (a_view a) (b_blockno (bufat s i));
  r_clean b : b ∉ busy a -> dget (a_view a) b = dget (a_disk a) b;
  r_disk : a_disk a = disk s;
  r_hist : a_hist a = hist s
}.

Definition brep (s : bcache) (a : acache) : Prop :=
  (exists l, linked s l /\ forall i, i ∈ l <-> isbuf i) /\ body s a.

Lemma core_fields b b' : core b = core b' ->
  b_valid b = b_valid b' /\ b_dev b = b_dev b' /\ b_blockno b = b_blockno b' /\
  b_locked b = b_locked b' /\ b_refcnt b = b_refcnt b' /\ b_data b = b_data b'.
Proof. destruct b, b'. by intros [= -> -> -> -> -> ->]. Qed.

Lemma body_core s s' a : same_core s s' -> body s a -> body s' a.
Proof.
  intros (Hc & Hd & Hh) Hb.
  assert (forall i, b_valid (bufat s' i) = b_valid (bufat s i) /\ b_dev (bufat s' i) = b_dev (bufat s i) /\
    b_blockno (bufat s' i) = b_blockno (bufat s i) /\ b_locked (bufat s' i) = b_locked (bufat s i) /\
    b_refcnt (bufat s' i) = b_refcnt (bufat s i) /\ b_data (bufat s' i) = b_data (bufat s i)) as Hf
    by (intros i; apply core_fields, Hc).
  split.
  - intros i. destruct (Hf i) as (-> & -> & _ & -> & -> & _). apply Hb.
  - intros i j. destruct (Hf i) as (_ & -> & -> & _), (Hf j) as (_ & -> & -> & _). apply Hb.
  - intros i. destruct (Hf i) as (_ & _ & _ & -> & _). apply Hb.
  - intros i b. destruct (Hf i) as (_ & -> & -> & _). apply Hb.
  - intros i. destruct (Hf i) as (_ & -> & -> & -> & -> & _). apply Hb.
  - intros b n Hp. destruct (r_pins _ _ Hb b n Hp) as (? & i & ?). split; [done|]. exists i.
    destruct (Hf i) as (_ & -> & -> & _). done.
  - intros i. destruct (Hf i) as (_ & -> & -> & _ & _ & ->). apply Hb.
  - apply Hb.
  - rewrite Hd. apply Hb.
  - rewrite Hh. apply Hb.
Qed.

Lemma linked_set s l i f :
  (forall b, b_next (f b) = b_next b) -> (forall b, b_prev (f b) = b_prev b) ->
  linked s l -> linked (set_buf i f s) l.
Proof.
  intros Hn Hp (H & Hx & Hy). split; [done|]. split.
  - eapply path_ext; [|exact Hx]. intros j _. unfold nx. rewrite bufat_set. case_decide; subst; by rewrite ?Hn.
  - eapply path_ext; [|exact Hy]. intros j _. unfold pv. rewrite bufat_set. case_decide; subst; by rewrite ?Hp.
Qed.

Lemma linked_disk s l d h : linked s l -> linked (Bcache (bufs s) d h) l.
Proof. done. Qed.

Lemma order_length l : NoDup l -> (forall i, i ∈ l <-> isbuf i) -> (length l = 30)%nat.
Proof.
  intros Hn Hl. assert (l ≡ₚ map Z.of_nat (seq 0 30)) as ->; [|done].
  apply NoDup_Permutation; [done|apply NoDup_fmap; [|apply NoDup_seq]; intros ??; lia|].
  intros i. rewrite Hl, list_elem_of_fmap. unfold isbuf. split.
  - intros Hi. exists (Z.to_nat i). split; [lia|]. apply elem_of_seq. unfold NBUF, MAXOPBLOCKS in Hi. lia.
  - intros (k & -> & [_ Hk]%elem_of_seq). unfold NBUF, MAXOPBLOCKS. lia.
Qed.

Section Body.
Context {s : bcache} {a : acache} (Hb : body s a).

Lemma pins_nonneg b : 0 <= pins a b.
Proof using Hb.
  unfold pins. destruct (a_pins a !! b) as [n|] eqn:E; cbn; [|lia]. apply (r_pins _ _ Hb) in E as [? _]. lia.
Qed.

Lemma used_busy i : isbuf i -> b_refcnt (bufat s i) <> 0 ->
  b_dev (bufat s i) = ROOTDEV /\ b_blockno (bufat s i) ∈ busy a.
Proof using Hb.
  intros Hi Hr. destruct (r_dev _ _ Hb i Hi) as [[Hd _]|(_ & ? & _)]; [|done]. split; [done|].
  apply elem_of_busy. pose proof (r_ref _ _ Hb i Hi Hd) as E. pose proof (r_lock _ _ Hb i Hi) as El.
  destruct (b_locked (bufat s i)).
  - right. symmetry in El. apply bool_decide_eq_true in El as [b Hh]. exists i. rewrite Hh. f_equal.
    symmetry. by apply (r_held _ _ Hb).
  - left. unfold pins in E. destruct (a_pins a !! _); [by eexists|]. cbn in E. lia.
Qed.

(** [bget] always finds a buffer when the pinned and locked blocks leave room. *)
Lemma some_unused b l :
  (forall i, i ∈ l <-> isbuf i) -> NoDup l -> room a b ->
  (forall i, isbuf i -> b_dev (bufat s i) = ROOTDEV -> b_blockno (bufat s i) <> b) ->
  List.find (unused s) (rev l) <> None.
Proof using Hb.
  intros Hl Hn Hroom Hnot Hf.
  assert (forall i, isbuf i -> b_dev (bufat s i) = ROOTDEV /\ b_blockno (bufat s i) ∈ busy a) as Hu.
  { intros i Hi. apply used_busy; [done|]. pose proof (List.find_none _ _ Hf i) as H.
    intros E. enough (unused s i = false) as E' by (unfold unused in E'; apply Z.eqb_neq in E'; done).
    apply H. apply list_elem_of_In. by rewrite rev_elem, Hl. }
  assert (NoDup (b :: map (fun i => b_blockno (bufat s i)) l)) as Hnb.
  { apply NoDup_cons. split.
    - intros (i & E & Hi%Hl)%list_elem_of_fmap. apply (Hnot i Hi); [by apply Hu|done].
    - apply NoDup_fmap_2_strong; [|done]. intros i j Hi%Hl Hj%Hl. by apply (r_uniq _ _ Hb); try apply Hu. }
  pose proof (size_list_to_set (C:=gset Z) _ Hnb) as Hs. cbn [length] in Hs.
  rewrite length_map, (order_length l Hn Hl) in Hs.
  assert (size (list_to_set (C:=gset Z) (b :: map (fun i => b_blockno (bufat s i)) l)) <=
          size (busy a ∪ {[b]}))%nat as Hle.
  { apply subseteq_size. intros x. rewrite elem_of_list_to_set, elem_of_cons.
    intros [->|(i & -> & Hi%Hl)%list_elem_of_fmap]; [set_solver|]. apply elem_of_union_l. by apply Hu. }
  unfold room in Hroom. change (Z.to_nat NBUF) with 30%nat in Hroom. lia.
Qed.

Lemma body_take s' i b :
  isbuf i -> a_held a !! i = None -> unlocked a b ->
  (forall j, j <> i -> bufat s' j = bufat s j) -> disk s' = disk s -> hist s' = hist s ->
  (forall j, isbuf j -> j <> i -> b_dev (bufat s j) = ROOTDEV -> b_blockno (bufat s j) <> b) ->
  (forall n, b_dev (bufat s i) = ROOTDEV -> a_pins a !! b_blockno (bufat s i) = Some n ->
     b_blockno (bufat s i) = b) ->
  bufat s' i = Buf true ROOTDEV b true (pins a b + 1) (pv s' i) (nx s' i) (dget (a_view a) b) ->
  body s' (a_lock i b a).
Proof using Hb.
  intros Hi Hh Hu Ho Hd Hh' Hne Hp HB.
  assert (forall j, bufat s' j = bufat s j \/ j = i) as Hc by (intros j; destruct (decide (j = i)); auto).
  split.
  - intros j Hj. destruct (decide (j = i)) as [->|]; [by rewrite HB; left|]. rewrite Ho by done. by apply Hb.
  - intros j k Hj Hk. destruct (decide (j = i)) as [->|], (decide (k = i)) as [->|]; [done| | |].
    + rewrite HB, Ho by done. cbn. intros _ E1 E2. by apply Hne in E1.
    + rewrite HB, Ho by done. cbn. intros E1 _ E2. by apply Hne in E1.
    + rewrite !Ho by done. by apply Hb.
  - intros j Hj. cbn. rewrite lookup_insert. case_decide as E.
    + subst j. by rewrite HB.
    + rewrite Ho by done. by apply Hb.
  - intros j c. cbn. rewrite lookup_insert. case_decide as E.
    + intros [= <-]. subst j. by rewrite HB.
    + rewrite Ho by done. apply Hb.
  - intros j Hj. destruct (decide (j = i)) as [->|]; [by rewrite HB|]. rewrite Ho by done. by apply Hb.
  - intros c n Hc'. destruct (r_pins _ _ Hb c n Hc') as (Hn & j & Hj & Hjd & Hjb). split; [done|].
    exists j. split; [done|]. destruct (decide (j = i)) as [->|]; [|by rewrite Ho].
    rewrite HB. cbn. split; [done|]. rewrite <- Hjb in Hc' |- *. symmetry. by eapply Hp.
  - intros j Hj. destruct (decide (j = i)) as [->|]; [by rewrite HB|]. rewrite Ho by done. by apply Hb.
  - intros c Hc'. apply (r_clean _ _ Hb). rewrite elem_of_busy in Hc' |- *. intros [?|[k Hk]].
    + apply Hc'. by left.
    + apply Hc'. right. exists k. cbn. rewrite lookup_insert. case_decide; [subst; congruence|done].
  - rewrite Hd. apply Hb.
  - rewrite Hh'. apply Hb.
Qed.
End Body.

Ltac set_simpl :=
  repeat (rewrite ?bufat_set, ?decide_True, ?decide_False by done;
          cbn [b_valid b_dev b_blockno b_locked b_refcnt b_prev b_next b_data
               set_next set_prev set_ref set_locked set_data recycle]).

Lemma has_spec s dev b i : has s dev b i = true <-> b_dev (bufat s i) = dev /\ b_blockno (bufat s i) = b.
Proof. unfold has. by rewrite andb_true_iff, !Z.eqb_eq. Qed.

Lemma acquiresleep_wp s i (Q : unit -> bcache -> Prop) :
  b_locked (bufat s i) = false -> Q tt (set_buf i (set_locked true) s) -> wp (acquiresleep i) s Q.
Proof. intros E HQ. unfold acquiresleep, upd. repeat wp_step; [congruence|done]. Qed.

(** A buffer nobody refers to is not locked, and its block is not pinned. *)
Lemma unused_free s a i : body s a -> isbuf i -> b_refcnt (bufat s i) = 0 ->
  b_locked (bufat s i) = false /\ a_held a !! i = None /\
  forall n, b_dev (bufat s i) = ROOTDEV -> a_pins a !! b_blockno (bufat s i) <> Some n.
Proof.
  intros Hb Hi Hr. assert (b_locked (bufat s i) = false) as Hl.
  { destruct (r_dev _ _ Hb i Hi) as [[Hd _]|(_ & _ & ?)]; [|done].
    pose proof (r_ref _ _ Hb i Hi Hd) as E. pose proof (pins_nonneg Hb (b_blockno (bufat s i))).
    destruct (b_locked _); [lia|done]. }
  split; [done|]. split.
  - pose proof (r_lock _ _ Hb i Hi) as E. rewrite Hl in E. symmetry in E.
    apply bool_decide_eq_false in E. by apply eq_None_not_Some.
  - intros n Hd Hp. pose proof (r_ref _ _ Hb i Hi Hd) as E. rewrite Hl, Hr in E.
    unfold pins in E. rewrite Hp in E. cbn in E. apply (r_pins _ _ Hb) in Hp as [? _]. lia.
Qed.

Lemma bread_cached s a i b l (Q : Z -> bcache -> Prop) :
  linked s l -> (forall i, i ∈ l <-> isbuf i) -> body s a -> unlocked a b ->
  List.find (has s ROOTDEV b) l = Some i ->
  (forall s', a_held a !! i = None -> brep s' (a_lock i b a) -> Q i s') ->
  wp (upd i (fun b => set_ref (b_refcnt b + 1) b);; acquiresleep i;; mret i) s
    (fun i s' => wp (x ← gets (fun s => bufat s i);
      (if b_valid x then mret tt
       else virtio_disk_rw i false;; upd i (fun b => set_data true (b_data b) b));; mret i) s' Q).
Proof.
  intros Hl Ho Hb Hu Hf HQ. apply List.find_some in Hf as [Hi [Hd Hbn]%has_spec].
  apply list_elem_of_In, Ho in Hi.
  assert (a_held a !! i = None) as Hh.
  { destruct (a_held a !! i) as [c|] eqn:E; [|done]. exfalso. apply (Hu i).
    destruct (r_held _ _ Hb _ _ E) as (_ & _ & E'). congruence. }
  assert (b_locked (bufat s i) = false) as Hlk.
  { rewrite (r_lock _ _ Hb i Hi), Hh. by apply bool_decide_eq_false, is_Some_None. }
  assert (b_valid (bufat s i) = true) as Hv.
  { destruct (r_dev _ _ Hb i Hi) as [[_ ?]|[? _]]; [done|]. by rewrite Hd in *. }
  unfold upd. wp_step. wp_step. wp_step. apply acquiresleep_wp; [by set_simpl|].
  wp_step. wp_step. wp_step. set_simpl. rewrite Hv. repeat wp_step.
  apply HQ; [done|]. split; [exists l; split; [by apply linked_set, linked_set|done]|].
  apply (body_take Hb); try done.
  - intros j Hj. by set_simpl.
  - intros j Hj Hji Hjd Hjb. apply Hji. apply (r_uniq _ _ Hb); congruence.
  - unfold pv, nx. set_simpl. destruct (bufat s i) as [v d k lk r p n x] eqn:EB.
    pose proof (r_ref _ _ Hb i Hi) as Er. pose proof (r_data _ _ Hb i Hi) as Ed. rewrite EB in *. cbn in *.
    subst. rewrite Er, Ed, Z.add_0_r by done. done.
Qed.

Lemma bread_recycle s a i b l (Q : Z -> bcache -> Prop) :
  linked s l -> (forall i, i ∈ l <-> isbuf i) -> body s a -> unlocked a b ->
  List.find (has s ROOTDEV b) l = None -> List.find (unused s) (rev l) = Some i ->
  (forall s', a_held a !! i = None -> brep s' (a_lock i b a) -> Q i s') ->
  wp (upd i (recycle ROOTDEV b);; acquiresleep i;; mret i) s
    (fun i s' => wp (x ← gets (fun s => bufat s i);
      (if b_valid x then mret tt
       else virtio_disk_rw i false;; upd i (fun b => set_data true (b_data b) b));; mret i) s' Q).
Proof.
  intros Hl Ho Hb Hu Hf0 Hf HQ. apply List.find_some in Hf as [Hi Hr%Z.eqb_eq].
  apply list_elem_of_In in Hi. rewrite rev_elem, Ho in Hi.
  destruct (unused_free _ _ _ Hb Hi Hr) as (Hlk & Hh & Hp).
  assert (forall j, isbuf j -> b_dev (bufat s j) = ROOTDEV -> b_blockno (bufat s j) <> b) as Hne.
  { intros j Hj Hd Hbn. pose proof (List.find_none _ _ Hf0 j) as H.
    rewrite <- list_elem_of_In, Ho in H. specialize (H Hj).
    rewrite (proj2 (has_spec s ROOTDEV b j)) in H; done. }
  assert (b ∉ busy a) as Hnb.
  { rewrite elem_of_busy. intros [[n Hn]|[j Hj]]; [|by eapply Hu].
    apply (r_pins _ _ Hb) in Hn as (_ & j & ? & ? & ?). by eapply Hne. }
  unfold upd, virtio_disk_rw. wp_step. wp_step. wp_step. apply acquiresleep_wp; [by set_simpl|].
  wp_step. wp_step. wp_step. set_simpl. repeat wp_step. set_simpl.
  apply HQ; [done|]. split.
  { exists l. split; [|done]. repeat (apply linked_set; [done..|]). done. }
  apply (body_take Hb); try done.
  - intros j Hj. by set_simpl.
  - intros j Hj _. by apply Hne.
  - intros n Hd Hn. by eapply Hp in Hn.
  - unfold pv, nx. set_simpl. rewrite (r_clean _ _ Hb b Hnb), (r_disk _ _ Hb). f_equal.
    unfold pins. destruct (a_pins a !! b) eqn:E; [|done]. exfalso. apply Hnb, elem_of_busy. left. by eexists.
Qed.

Lemma bread_wp s a b (Q : Z -> bcache -> Prop) :
  brep s a -> unlocked a b -> room a b ->
  (forall i s', a_held a !! i = None -> brep s' (a_lock i b a) -> Q i s') ->
  wp (bio_bread ROOTDEV b) s Q.
Proof.
  intros [(l & Hl & Ho) Hb] Hu Hroom HQ. unfold bio_bread, bget.
  assert (NoDup l) as Hn by (destruct Hl as [H _]; by apply NoDup_cons in H as [_ ?]).
  pose proof (order_length l Hn Ho) as Hlen.
  wp_step. wp_step. wp_step. wp_step.
  eapply wp_mono; [apply (find_wp s l); [done|lia]|]. intros r s' [-> ->].
  destruct (List.find _ l) as [i|] eqn:Ef.
  - eapply bread_cached; try done. intros s'. apply HQ.
  - wp_step. wp_step. wp_step. eapply wp_mono; [apply (free_wp s l); [done|lia]|].
    intros r s' [-> ->]. destruct (List.find _ (rev l)) as [i|] eqn:Er.
    + eapply bread_recycle; try done. intros s'. apply HQ.
    + exfalso. eapply (some_unused Hb b l); try done.
      intros j Hj Hd Hbn. pose proof (List.find_none _ _ Ef j) as H.
      rewrite <- list_elem_of_In, Ho in H. specialize (H Hj).
      by rewrite (proj2 (has_spec s ROOTDEV b j)) in H.
Qed.

(** A change of one buffer that is in the cache for its block. *)
Lemma body_update s a s' a' i b :
  body s a -> a_held a !! i = Some b ->
  (forall j, j <> i -> bufat s' j = bufat s j) ->
  (let B := bufat s' i in b_valid B = true /\ b_dev B = ROOTDEV /\ b_blockno B = b /\
     b_locked B = bool_decide (is_Some (a_held a' !! i)) /\
     b_refcnt B = pins a' b + (if b_locked B then 1 else 0) /\ b_data B = dget (a_view a') b) ->
  (forall j, j <> i -> a_held a' !! j = a_held a !! j) ->
  (forall c, a_held a' !! i = Some c -> c = b) ->
  (forall c, c <> b -> a_pins a' !! c = a_pins a !! c) ->
  (forall n, a_pins a' !! b = Some n -> 0 < n) ->
  (forall c, c <> b -> dget (a_view a') c = dget (a_view a) c) ->
  (forall c, c ∉ busy a' -> dget (a_view a') c = dget (a_disk a') c) ->
  a_disk a' = disk s' -> a_hist a' = hist s' ->
  body s' a'.
Proof.
  intros Hb Hh Ho (Bv & Bd & Bb & Bl & Br & Bx) Hho Hhi Hpo Hpi Hv Hc Hd Hhi'.
  destruct (r_held _ _ Hb _ _ Hh) as (Hi & Hid & Hib).
  assert (forall j, isbuf j -> j <> i -> b_dev (bufat s j) = ROOTDEV -> b_blockno (bufat s j) <> b) as Hne.
  { intros j Hj Hji Hjd Hjb. apply Hji, (r_uniq _ _ Hb); congruence. }
  split; try done.
  - intros j Hj. destruct (decide (j = i)) as [->|]; [by left|]. rewrite Ho by done. by apply Hb.
  - intros j k Hj Hk. destruct (decide (j = i)) as [->|], (decide (k = i)) as [->|]; [done| | |].
    + rewrite Bb, (Ho k) by done. intros _ E1 E2. by apply Hne in E1.
    + rewrite Bb, (Ho j) by done. intros E1 _ E2. by apply Hne in E1.
    + rewrite !Ho by done. by apply Hb.
  - intros j Hj. destruct (decide (j = i)) as [->|]; [done|]. rewrite Ho, Hho by done. by apply Hb.
  - intros j c Hj. destruct (decide (j = i)) as [->|].
    + rewrite (Hhi c Hj). done.
    + rewrite Ho by done. apply Hb. by rewrite <- Hho.
  - intros j Hj. destruct (decide (j = i)) as [->|]; [by rewrite Bb|]. rewrite Ho by done. intros Hjd.
    rewrite (r_ref _ _ Hb j Hj Hjd). unfold pins. by rewrite Hpo by (by apply Hne).
  - intros c n Hp. destruct (decide (c = b)) as [->|Hcb].
    + split; [by apply Hpi|]. by exists i.
    + rewrite Hpo in Hp by done. destruct (r_pins _ _ Hb c n Hp) as (? & j & ? & ? & ?). split; [done|].
      exists j. rewrite Ho by congruence. done.
  - intros j Hj. destruct (decide (j = i)) as [->|]; [by rewrite Bb|]. rewrite Ho by done. intros Hjd.
    rewrite Hv by (by apply Hne). by apply Hb.
Qed.

(** What is known of a locked buffer. *)
Lemma held_buf s a i b : body s a -> a_held a !! i = Some b ->
  exists p n, bufat s i = Buf true ROOTDEV b true (pins a b + 1) p n (dget (a_view a) b).
Proof.
  intros Hb Hh. destruct (r_held _ _ Hb _ _ Hh) as (Hi & Hd & Hbn).
  pose proof (r_lock _ _ Hb i Hi) as Hl. rewrite Hh, bool_decide_true in Hl by by eexists.
  pose proof (r_ref _ _ Hb i Hi Hd) as Hr. pose proof (r_data _ _ Hb i Hi Hd) as Hx.
  destruct (r_dev _ _ Hb i Hi) as [[_ Hv]|[E _]]; [|by rewrite Hd in E].
  destruct (bufat s i) as [v d k lk r p n x]. cbn in *. subst. by exists p, n.
Qed.

Section Ops.
Context {s : bcache} {a : acache} {i b : Z} (Hr : brep s a) (Hh : a_held a !! i = Some b).

Lemma busy_other c : c ∉ busy a -> c <> b.
Proof using Hh. clear Hr. intros Hc ->. apply Hc, elem_of_busy. right. by exists i. Qed.

Lemma bwrite_wp (Q : unit -> bcache -> Prop) :
  (forall s', brep s' (a_flush b a) -> Q tt s') -> wp (bio_bwrite i) s Q.
Proof using Hr Hh.
  intros HQ. destruct Hr as [(l & Hl & Ho) Hb].
  destruct (held_buf _ _ _ _ Hb Hh) as (p & n & EB).
  unfold bio_bwrite, holdingsleep, virtio_disk_rw. wp_step. wp_step. rewrite EB. cbn [negb b_locked].
  repeat wp_step. rewrite EB. cbn. apply HQ. split; [by exists l; split|].
  pose proof (r_disk _ _ Hb) as Ed. pose proof (r_hist _ _ Hb) as Eh.
  apply (body_update s a _ _ i b); cbn; rewrite ?Ed, ?Eh; try done.
  - unfold bufat in *. cbn. rewrite EB. cbn. rewrite Hh, bool_decide_true by by eexists. done.
  - intros c E. congruence.
  - intros m Hm. by apply (r_pins _ _ Hb) in Hm as [? _].
  - intros c Hc. rewrite dget_insert, decide_False by (intros <-; by eapply busy_other).
    rewrite (r_clean _ _ Hb c Hc). by rewrite Ed.
Qed.

Lemma bset_wp d (Q : unit -> bcache -> Prop) :
  (forall s', brep s' (a_store b d a) -> Q tt s') -> wp (bset i d) s Q.
Proof using Hr Hh.
  intros HQ. destruct Hr as [(l & Hl & Ho) Hb].
  destruct (held_buf _ _ _ _ Hb Hh) as (p & n & EB). apply HQ.
  split; [exists l; split; [by apply linked_set|done]|].
  apply (body_update s a _ _ i b); cbn; try done; try apply Hb.
  - intros j Hj. by set_simpl.
  - set_simpl. rewrite EB. cbn. rewrite Hh, bool_decide_true by by eexists.
    rewrite dget_insert, decide_True by done. done.
  - intros c E. congruence.
  - intros c Hc. rewrite dget_insert. by rewrite decide_False.
  - intros c Hc. rewrite dget_insert, decide_False by (intros <-; by eapply busy_other).
    by apply (r_clean _ _ Hb).
Qed.

Lemma bpin_wp (Q : unit -> bcache -> Prop) :
  (forall s', brep s' (a_pin b a) -> Q tt s') -> wp (bio_bpin i) s Q.
Proof using Hr Hh.
  intros HQ. destruct Hr as [(l & Hl & Ho) Hb].
  destruct (held_buf _ _ _ _ Hb Hh) as (p & n & EB). pose proof (pins_nonneg Hb b). apply HQ.
  split; [exists l; split; [by apply linked_set|done]|].
  apply (body_update s a _ _ i b); cbn; try done; try apply Hb.
  - intros j Hj. by set_simpl.
  - set_simpl. rewrite EB. cbn. rewrite Hh, bool_decide_true by by eexists.
    unfold pins at 2. cbn. by rewrite lookup_insert_eq.
  - intros c E. congruence.
  - intros c Hc. by rewrite lookup_insert_ne.
  - intros m. rewrite lookup_insert_eq. intros [= <-]. lia.
  - intros c Hc. apply (r_clean _ _ Hb). rewrite elem_of_busy in *. cbn in *. intros [Hp|?].
    + apply Hc. left. rewrite lookup_insert. by case_decide.
    + apply Hc. by right.
Qed.

Lemma bunpin_wp (Q : unit -> bcache -> Prop) :
  0 < pins a b -> (forall s', brep s' (a_unpin b a) -> Q tt s') -> wp (bio_bunpin i) s Q.
Proof using Hr Hh.
  intros Hp HQ. destruct Hr as [(l & Hl & Ho) Hb].
  destruct (held_buf _ _ _ _ Hb Hh) as (p & n & EB). apply HQ.
  assert (forall c, a_pins (a_unpin b a) !! c =
    if decide (c = b) then (if pins a b =? 1 then None else Some (pins a b - 1)) else a_pins a !! c) as Hpin.
  { intros c. cbn. destruct (pins a b =? 1); case_decide; subst;
      rewrite ?lookup_delete_eq, ?lookup_insert_eq, ?lookup_delete_ne, ?lookup_insert_ne by done; done. }
  split; [exists l; split; [by apply linked_set|done]|].
  apply (body_update s a _ _ i b); try done; try apply Hb.
  - intros j Hj. by set_simpl.
  - set_simpl. rewrite EB. cbn [b_valid b_dev b_blockno b_locked b_refcnt b_data].
    change (a_held (a_unpin b a)) with (a_held a). rewrite Hh, bool_decide_true by by eexists.
    unfold pins at 2. rewrite Hpin, decide_True by done.
    repeat split. destruct (pins a b =? 1) eqn:E; bool_to_prop; cbn; lia.
  - intros c E. cbn in E. congruence.
  - intros c Hc. by rewrite Hpin, decide_False.
  - intros m. rewrite Hpin, decide_True by done. destruct (pins a b =? 1) eqn:E; [done|].
    bool_to_prop. intros [= <-]. lia.
  - intros c Hc. apply (r_clean _ _ Hb). rewrite elem_of_busy in *. rewrite Hpin in Hc. cbn in Hc.
    case_decide as E; [|done]. subst c. exfalso. apply Hc. right. by exists i.
Qed.

Lemma brelse_wp (Q : unit -> bcache -> Prop) :
  0 < pins a b \/ dget (a_view a) b = dget (a_disk a) b ->
  (forall s', brep s' (a_unlock i a) -> Q tt s') -> wp (bio_brelse i) s Q.
Proof using Hr Hh.
  intros Hc HQ. destruct Hr as [(l & Hl & Ho) Hb].
  destruct (held_buf _ _ _ _ Hb Hh) as (p & n & EB).
  unfold bio_brelse, holdingsleep, releasesleep. wp_step. wp_step. rewrite EB. cbn [negb b_locked].
  wp_step. apply wp_modify. wp_step. apply wp_modify. wp_step. wp_step. set (s1 := set_buf i _ _).
  assert (linked s1 l) as Hl1 by (by apply linked_set, linked_set).
  assert (body s1 (a_unlock i a)) as Hb1.
  { apply (body_update s a _ _ i b); cbn; try done; try apply Hb.
    - intros j Hj. unfold s1. by set_simpl.
    - unfold s1. set_simpl. rewrite EB. cbn. rewrite lookup_delete_eq, bool_decide_false by by intros [].
      unfold pins. cbn. repeat split. lia.
    - intros j Hj. by rewrite lookup_delete_ne.
    - intros c E. by rewrite lookup_delete_eq in E.
    - intros c Hnc. destruct (decide (c = b)) as [->|Hcb].
      + destruct Hc as [Hp|?]; [|done]. exfalso. apply Hnc, elem_of_busy. left. cbn.
        unfold pins in Hp. destruct (a_pins a !! b); [by eexists|]. cbn in Hp. lia.
      + apply (r_clean _ _ Hb). rewrite elem_of_busy in *. cbn in Hnc. intros [?|[j Hj]]; apply Hnc; [by left|].
        right. exists j. rewrite lookup_delete_ne; [done|]. intros ->. congruence. }
  wp_step; [|apply HQ; split; [by exists l|done]].
  destruct (r_held _ _ Hb _ _ Hh) as (Hi & _ & _).
  assert (i ∈ l) as (l1 & l2 & ->)%list_elem_of_split by (by apply Ho).
  wp_step. eapply (unlink_wp i s1 l1 l2); [done|]. intros s2 Hl2 Hc2.
  assert (i ∉ HEAD :: l1 ++ l2) as Hni.
  { destruct Hl as [Hnd _]. apply NoDup_cons in Hnd as [Hx Hnd]. apply NoDup_app in Hnd as (_ & Hd & Hnd).
    apply NoDup_cons in Hnd as [? _]. rewrite elem_of_cons, elem_of_app. intros [E|[E|E]]; [|by apply Hd in E; set_solver|done].
    apply Hx. rewrite <- E. set_solver. }
  apply (push_front_wp i s2 (l1 ++ l2)); [done|done|]. intros s3 Hl3 Hc3. apply HQ. split.
  - exists (i :: l1 ++ l2). split; [done|]. intros j. rewrite <- Ho. set_solver.
  - eapply body_core; [exact Hc3|]. by eapply body_core; [exact Hc2|].
Qed.
End Ops.

#[export, refine] Instance bio_spec : BufCacheSpec bcache := {| crep := brep |}.
Proof.
  - intros s a b [_ Hb]. apply Hb.
  - intros s a b n [_ Hb] Hp. by apply (r_pins _ _ Hb) in Hp as [? _].
  - intros s a b Q. apply bread_wp.
  - intros s a i b Q Hr Hh. exact (bwrite_wp Hr Hh Q).
  - intros s a i b Q Hr Hh. exact (brelse_wp Hr Hh Q).
  - intros s a i b Q Hr Hh. exact (bpin_wp Hr Hh Q).
  - intros s a i b Q Hr Hh. exact (bunpin_wp Hr Hh Q).
  - intros s a i b Q [_ Hb] Hh. destruct (held_buf _ _ _ _ Hb Hh) as (p & n & EB).
    unfold bdata, bio_cache, wp, gets. by rewrite EB.
  - intros s a i b d Q Hr Hh. exact (bset_wp Hr Hh d Q).
  - intros s a i b Q [_ Hb] Hh. destruct (held_buf _ _ _ _ Hb Hh) as (p & n & EB).
    unfold bblockno, bio_cache, wp, gets. by rewrite EB.
Defined.

(** ** Initialisation *)

Definition bio0 (d : diskT) : bcache := Bcache ∅ d [].

Lemma same_core_trans s1 s2 s3 : same_core s1 s2 -> same_core s2 s3 -> same_core s1 s3.
Proof. intros (H & E1 & E2) (H' & E1' & E2'). split; [|split; congruence]. intros i. by rewrite H', H. Qed.

Lemma binit_from_wp k i s l (Q : unit -> bcache -> Prop) :
  linked s l -> (forall j, j ∈ l <-> 0 <= j < i) -> 0 <= i -> i + Z.of_nat k <= NBUF ->
  (forall s' l', linked s' l' -> (forall j, j ∈ l' <-> 0 <= j < i + Z.of_nat k) -> same_core s s' -> Q tt s') ->
  wp (binit_from i k) s Q.
Proof.
  revert i s l. induction k as [|k IH]; intros i s l Hl Hj Hi Hk HQ; cbn [binit_from].
  - wp_step. eapply HQ; [exact Hl| |done]. intros j. rewrite Hj. lia.
  - wp_step. apply (push_front_wp i s l); [done| |].
    { rewrite elem_of_cons, Hj. unfold HEAD. lia. }
    intros s1 Hl1 Hc1. apply (IH (i + 1) s1 (i :: l)); [done| |lia|lia|].
    { intros j. rewrite elem_of_cons, Hj. lia. }
    intros s2 l2 Hl2 Hj2 Hc2. eapply HQ; [exact Hl2| |by eapply same_core_trans].
    intros j. rewrite Hj2. lia.
Qed.

(** [binit], run on zeroed memory, builds a well-formed list of all [NBUF]
    buffers and an empty cache: every block reads as it is on disk. *)
Theorem binit_empty d :
  wp binit (bio0 d) (fun _ s => brep s (Acache d d ∅ ∅ [])).
Proof.
  unfold binit, upd. wp_step. wp_step. wp_step. wp_step.
  set (s := set_buf HEAD _ _).
  apply (binit_from_wp (Z.to_nat NBUF) 0 s []); [|set_solver by lia|lia|done|].
  { split; [apply NoDup_singleton|]. by split. }
  intros s' l Hl Hj Hc. split; [by exists l|].
  eapply body_core; [exact Hc|]. unfold s.
  assert (forall i, isbuf i -> bufat (set_buf HEAD (set_next HEAD) (set_buf HEAD (set_prev HEAD) (bio0 d))) i = buf0) as E.
  { intros i Hi. assert (HEAD <> i) by (unfold HEAD, isbuf in *; lia). by set_simpl. }
  split; try done.
  - intros i Hi. rewrite E by done. by right.
  - intros i j Hi. by rewrite E.
  - intros i Hi. by rewrite E.
  - intros i Hi. by rewrite E.
  - intros i Hi. by rewrite E.
Qed.

(** ** Which buffer is recycled *)

(** When a block is not cached, [bget] takes the least recently used of
    the buffers nobody refers to, gives it to the block and locks it; all other
    buffers, and the order of the list, stay as they are. *)
Theorem bget_recycles_lru s l1 i l2 dev b :
  linked s (l1 ++ i :: l2) -> (length (l1 ++ i :: l2) <= Z.to_nat NBUF)%nat ->
  (forall j, j ∈ l1 ++ i :: l2 -> ~ (b_dev (bufat s j) = dev /\ b_blockno (bufat s j) = b)) ->
  b_refcnt (bufat s i) = 0 -> b_locked (bufat s i) = false ->
  (forall j, j ∈ l2 -> b_refcnt (bufat s j) <> 0) ->
  wp (bget dev b) s (fun r s' => r = i /\ linked s' (l1 ++ i :: l2) /\
    (forall j, j <> i -> bufat s' j = bufat s j) /\
    bufat s' i = set_locked true (recycle dev b (bufat s i)) /\ disk s' = disk s).
Proof.
  intros Hl Hlen Hno Hr Hlk Hl2. change (Z.to_nat NBUF) with 30%nat in Hlen. unfold bget.
  assert (List.find (has s dev b) (l1 ++ i :: l2) = None) as Ef.
  { destruct (List.find _ _) as [j|] eqn:E; [|done].
    apply List.find_some in E as [Hj Hj'%has_spec]. apply list_elem_of_In in Hj. by apply Hno in Hj. }
  assert (List.find (unused s) (rev (l1 ++ i :: l2)) = Some i) as Eu.
  { rewrite rev_app_distr. cbn. rewrite <- app_assoc. cbn.
    assert (forall j, j ∈ rev l2 -> unused s j = false) as Hu.
    { intros j Hj. rewrite rev_elem in Hj. apply Z.eqb_neq. exact (Hl2 j Hj). }
    clear -Hr Hu. induction (rev l2) as [|j l IH]; cbn.
    - unfold unused at 1. by rewrite Hr.
    - rewrite Hu by left. apply IH. intros k Hk. apply Hu. by right. }
  wp_step. wp_step. wp_step. eapply wp_mono; [by apply (find_wp s _ dev b Hl); lia|].
  intros r s' [-> ->]. rewrite Ef. wp_step. wp_step. wp_step.
  eapply wp_mono; [by apply (free_wp s _ Hl); lia|]. intros r s' [-> ->]. rewrite Eu.
  unfold upd. wp_step. wp_step. wp_step. apply acquiresleep_wp; [by set_simpl|]. wp_step.
  split; [done|]. split; [by apply linked_set, linked_set|]. split; [|by set_simpl].
  intros j Hj. by set_simpl.
Qed.

(** The last release of a buffer moves it to the most recently used end of
    the list; the others keep their order. *)
Theorem brelse_to_front s l1 i l2 :
  linked s (l1 ++ i :: l2) -> b_locked (bufat s i) = true -> b_refcnt (bufat s i) = 1 ->
  wp (bio_brelse i) s (fun _ s' => linked s' (i :: l1 ++ l2) /\ b_refcnt (bufat s' i) = 0 /\
    b_locked (bufat s' i) = false /\
    forall j, j <> i -> core (bufat s' j) = core (bufat s j)).
Proof.
  intros Hl Hlk Hr. unfold bio_brelse, holdingsleep, releasesleep. wp_step. wp_step.
  rewrite Hlk. cbn [negb]. wp_step. apply wp_modify. wp_step. apply wp_modify. wp_step. wp_step.
  set (s1 := set_buf i _ _). assert (linked s1 (l1 ++ i :: l2)) as Hl1 by (by apply linked_set, linked_set).
  assert (b_refcnt (bufat s1 i) = 0) as -> by (unfold s1; set_simpl; by rewrite Hr).
  cbn [Z.eqb]. wp_step. apply (unlink_wp i s1 l1 l2); [done|]. intros s2 Hl2 Hc2.
  apply (push_front_wp i s2 (l1 ++ l2)); [done| |].
  { destruct Hl as [Hnd _]. change (HEAD :: l1 ++ i :: l2) with ((HEAD :: l1) ++ i :: l2) in Hnd.
    apply NoDup_app in Hnd as (_ & Hd & [Hi _]%NoDup_cons).
    change (HEAD :: l1 ++ l2) with ((HEAD :: l1) ++ l2). rewrite elem_of_app.
    intros [E|E]; [|done]. apply (Hd _ E). left. }
  intros s3 Hl3 Hc3. destruct (same_core_trans _ _ _ Hc2 Hc3) as (Hc & _ & _).
  destruct (core_fields _ _ (Hc i)) as (_ & _ & _ & El & Er & _). split; [done|].
  split; [rewrite Er; unfold s1; set_simpl; by rewrite Hr|]. split; [rewrite El; unfold s1; by set_simpl|].
  intros j Hj. rewrite Hc. unfold s1. by set_simpl.
Qed.

(** ** Examples: two buffers, the older one not in use, the newer one locked. *)

Definition two_bufs : bcache :=
  Bcache {[ HEAD := Buf false 0 0 false 0 1 0 ∅;
            0 := Buf true 1 7 true 1 HEAD 1 ∅;
            1 := Buf true 1 8 false 0 0 HEAD ∅ ]} ∅ [].

Lemma two_bufs_linked : linked two_bufs [0; 1].
Proof.
  split; [|split; cbn; repeat split].
  repeat (apply NoDup_cons; split; [unfold HEAD; cbn; set_solver by lia|]). constructor.
Qed.

Lemma bget_recycles_lru_witness :
  wp (bget 1 9) two_bufs (fun r s' => r = 1 /\ linked s' ([0] ++ 1 :: []) /\
    (forall j, j <> 1 -> bufat s' j = bufat two_bufs j) /\
    bufat s' 1 = set_locked true (recycle 1 9 (bufat two_bufs 1)) /\ disk s' = disk two_bufs).
Proof.
  apply (bget_recycles_lru two_bufs [0] 1 [] 1 9).
  - exact two_bufs_linked.
  - apply Nat.leb_le. reflexivity.
  - intros j Hj. apply list_elem_of_In in Hj. destruct Hj as [<-|[<-|[]]]; intros [_ E]; discriminate E.
  - reflexivity.
  - reflexivity.
  - intros j Hj. apply list_elem_of_In in Hj. destruct Hj.
Defined.

Lemma brelse_to_front_witness :
  wp (bio_brelse 0) two_bufs (fun _ s' => linked s' (0 :: [] ++ [1]) /\ b_refcnt (bufat s' 0) = 0 /\
    b_locked (bufat s' 0) = false /\ forall j, j <> 0 -> core (bufat s' j) = core (bufat two_bufs j)).
Proof.
  apply (brelse_to_front two_bufs [] 0 [1]); [exact two_bufs_linked|reflexivity|reflexivity].
Defined.
