(* ===== verification/Log.v ===== *)
(** * kernel/log.c

    The redo log.  Its functions are written against the interface [BufCache],
    so they run on any implementation of the buffer cache; [X] is the rest of
    the file system's state, which the log does not touch.  An access to
    [log.lh.block] outside the array, undefined in C, is a panic here.

    [commit_atomic] and [recover_idempotent] are the crash theorems, [lstep]
    and [log_space] the concurrent admission of operations by [begin_op]. *)

From S2P Require Import Prelude Riscv Mem BufCache.

Record log := Log {
  l_start : Z;
  l_size : Z;
  outstanding : Z;
  committing : bool;
  l_dev : Z;
  lh_n : Z;
  lh_block : gmap Z Z
}.

Record kst (C X : Type) := Kst { k_bc : C; k_log : log; k_ext : X }.
Arguments Kst {C X}. Arguments k_bc {C X}. Arguments k_log {C X}. Arguments k_ext {C X}.

(** The on-disk header: [n] and then [block[]], 32 bits each. *)
Definition hdr_n (h : block) : Z := i32 (load32 h 0).
Definition hdr_block (h : block) (i : Z) : Z := i32 (load32 h (4 + 4 * i)).

Section Code.
Context {C X : Type} `{!BufCache C}.
Implicit Types l : log.

Definition lift {A} (m : M C A) : M (kst C X) A := fun s =>
  match m (k_bc s) with
  | Ok a c => Ok a (Kst c (k_log s) (k_ext s))
  | Panic msg => Panic msg
  | NoFuel => NoFuel
  end.

Definition set_log (f : log -> log) : M (kst C X) unit :=
  modify (fun s => Kst (k_bc s) (f (k_log s)) (k_ext s)).
Definition with_n (n : Z) l : log :=
  Log (l_start l) (l_size l) (outstanding l) (committing l) (l_dev l) n (lh_block l).
Definition with_block (m : gmap Z Z) l : log :=
  Log (l_start l) (l_size l) (outstanding l) (committing l) (l_dev l) (lh_n l) m.
Definition with_out (o : Z) l : log :=
  Log (l_start l) (l_size l) o (committing l) (l_dev l) (lh_n l) (lh_block l).
Definition with_committing (c : bool) l : log :=
  Log (l_start l) (l_size l) (outstanding l) c (l_dev l) (lh_n l) (lh_block l).

Definition in_block (i : Z) : bool := (0 <=? i) && (i <? LOGSIZE).
Definition get_block (i : Z) : M (kst C X) Z :=
  if in_block i then gets (fun s => default 0 (lh_block (k_log s) !! i)) else panic "lh.block index".
Definition set_block (i b : Z) : M (kst C X) unit :=
  if in_block i then set_log (fun l => with_block (<[i := b]> (lh_block l)) l) else panic "lh.block index".

(** One iteration of [install_trans]. *)
Definition install_one (recovering : bool) (tail : Z) : M (kst C X) unit :=
  l ← gets k_log;
  lbuf ← lift (bread (l_dev l) (u32 (l_start l + tail + 1)));
  b ← get_block tail;
  dbuf ← lift (bread (l_dev l) (u32 b));
  d ← lift (bdata lbuf);
  lift (bset dbuf d);;
  lift (bwrite dbuf);;
  (if recovering then mret tt else lift (bunpin dbuf));;
  lift (brelse lbuf);;
  lift (brelse dbuf).
Fixpoint install_from (recovering : bool) (tail : Z) (k : nat) : M (kst C X) unit :=
  match k with
  | O => mret tt
  | S k => install_one recovering tail;; install_from recovering (tail + 1) k
  end.
Definition install_trans (recovering : bool) : M (kst C X) unit :=
  n ← gets (fun s => lh_n (k_log s));
  install_from recovering 0 (Z.to_nat n).

Fixpoint read_from (h : block) (i : Z) (k : nat) : M (kst C X) unit :=
  match k with
  | O => mret tt
  | S k => set_block i (hdr_block h i);; read_from h (i + 1) k
  end.
Definition read_head : M (kst C X) unit :=
  l ← gets k_log;
  buf ← lift (bread (l_dev l) (u32 (l_start l)));
  h ← lift (bdata buf);
  set_log (with_n (hdr_n h));;
  read_from h 0 (Z.to_nat (hdr_n h));;
  lift (brelse buf).

Fixpoint write_from (h : block) (i : Z) (k : nat) : M (kst C X) block :=
  match k with
  | O => mret h
  | S k =>
      b ← get_block i;
      write_from (store32 h (4 + 4 * i) b) (i + 1) k
  end.
Definition write_head : M (kst C X) unit :=
  l ← gets k_log;
  buf ← lift (bread (l_dev l) (u32 (l_start l)));
  h ← lift (bdata buf);
  h ← write_from (store32 h 0 (lh_n l)) 0 (Z.to_nat (lh_n l));
  lift (bset buf h);;
  lift (bwrite buf);;
  lift (brelse buf).

Definition recover_from_log : M (kst C X) unit :=
  read_head;;
  install_trans true;;
  set_log (with_n 0);;
  write_head.

(** [initlog], given [sb->logstart] and [sb->nlog]. *)
Definition initlog (dev logstart nlog : Z) : M (kst C X) unit :=
  (* [sizeof(struct logheader) >= BSIZE] is false: 4 + 4 * LOGSIZE = 124 *)
  if 4 + 4 * LOGSIZE >=? BSIZE then panic "initlog: too big logheader" else
  set_log (fun l => Log logstart nlog (outstanding l) (committing l) dev (lh_n l) (lh_block l));;
  recover_from_log.

Definition write_log_one (tail : Z) : M (kst C X) unit :=
  l ← gets k_log;
  to ← lift (bread (l_dev l) (u32 (l_start l + tail + 1)));
  b ← get_block tail;
  from ← lift (bread (l_dev l) (u32 b));
  d ← lift (bdata from);
  lift (bset to d);;
  lift (bwrite to);;
  lift (brelse from);;
  lift (brelse to).
Fixpoint write_log_from (tail : Z) (k : nat) : M (kst C X) unit :=
  match k with
  | O => mret tt
  | S k => write_log_one tail;; write_log_from (tail + 1) k
  end.
Definition write_log : M (kst C X) unit :=
  n ← gets (fun s => lh_n (k_log s));
  write_log_from 0 (Z.to_nat n).

Definition commit : M (kst C X) unit :=
  n ← gets (fun s => lh_n (k_log s));
  if n >? 0 then
    write_log;;
    write_head;;
    install_trans false;;
    set_log (with_n 0);;
    write_head
  else mret tt.

(** One test of [begin_op]'s loop: [false] means that it sleeps. *)
Definition begin_op_try : M (kst C X) bool :=
  l ← gets k_log;
  if committing l then mret false
  else if lh_n l + (outstanding l + 1) * MAXOPBLOCKS >? LOGSIZE then mret false
  else set_log (with_out (outstanding l + 1));; mret true.
(** In a sequential run nobody would wake a sleeper. *)
Definition begin_op : M (kst C X) unit :=
  ok ← begin_op_try;
  if (ok : bool) then mret tt else panic "deadlock".

(** The first critical section of [end_op]: the result is [do_commit]. *)
Definition end_op_dec : M (kst C X) bool :=
  l ← gets k_log;
  set_log (with_out (outstanding l - 1));;
  if committing l then panic "log.committing"
  else if outstanding l - 1 =? 0 then set_log (with_committing true);; mret true
  else mret false.
(** The second. *)
Definition end_op_done : M (kst C X) unit := set_log (with_committing false).
Definition end_op : M (kst C X) unit :=
  do_commit ← end_op_dec;
  if (do_commit : bool) then commit;; end_op_done else mret tt.

(** [for (i = 0; i < log.lh.n; i++) if (log.lh.block[i] == b->blockno) break] *)
Fixpoint absorb_from (b i : Z) (k : nat) : M (kst C X) Z :=
  match k with
  | O => mret i
  | S k =>
      x ← get_block i;
      if u32 x =? b then mret i else absorb_from b (i + 1) k
  end.
Definition log_write (buf : Z) : M (kst C X) unit :=
  l ← gets k_log;
  if (lh_n l >=? LOGSIZE) || (lh_n l >=? l_size l - 1) then panic "too big a transaction"
  else if outstanding l <? 1 then panic "log_write outside of trans"
  else
    b ← lift (bblockno buf);
    i ← absorb_from b 0 (Z.to_nat (lh_n l));
    set_block i (i32 b);;
    if i =? lh_n l then lift (bpin buf);; set_log (with_n (lh_n l + 1)) else mret tt.
End Code.

(** ** What the log means on disk *)

Definition hdr_list (h : block) : list Z :=
  map (fun k => hdr_block h (Z.of_nat k)) (seq 0 (Z.to_nat (hdr_n h))).

(** The contents of block [b] once the logged blocks [L], the first of them at
    log position [tail], are installed. *)
Fixpoint replay (start : Z) (d : diskT) (tail : Z) (L : list Z) (b : Z) : block :=
  match L with
  | [] => dget d b
  | c :: L => if decide (c = b) then dget d (start + tail + 1) else replay start d (tail + 1) L b
  end.

(** What the file system on disk [d] holds in block [b] after recovery. *)
Definition ldisk (start : Z) (d : diskT) (b : Z) : block :=
  replay start d 0 (hdr_list (dget d start)) b.

Lemma replay_in start d tail L i b :
  NoDup L -> L !! i = Some b -> replay start d tail L b = dget d (start + (tail + Z.of_nat i) + 1).
Proof.
  revert tail i. induction L as [|c L IH]; intros tail i Hn Hi; [done|]. cbn.
  apply NoDup_cons in Hn as [Hc Hn]. destruct i as [|i]; cbn in Hi.
  - injection Hi as ->. rewrite decide_True by done. f_equal. lia.
  - rewrite decide_False by (intros ->; apply Hc; by eapply list_elem_of_lookup_2).
    rewrite (IH (tail + 1) i) by done. f_equal. lia.
Qed.

Lemma replay_notin start d tail L b : b ∉ L -> replay start d tail L b = dget d b.
Proof.
  revert tail. induction L as [|c L IH]; intros tail Hb; [done|]. cbn.
  rewrite decide_False by set_solver. apply IH. set_solver.
Qed.

Lemma i32_id x : 0 <= x < 2 ^ 31 -> i32 x = x.
Proof.
  intros Hx. unfold i32, sgn. rewrite Z.mod_small by lia.
  assert ((x <? 2 ^ (32 - 1)) = true) as -> by (apply Z.ltb_lt; lia). done.
Qed.
Lemma u32_id x : 0 <= x < 2 ^ 31 -> u32 x = x.
Proof. intros Hx. unfold u32. apply Z.mod_small. lia. Qed.

(** The header with the blocks [L] from index [i]. *)
Fixpoint hdr_fill (h : block) (i : Z) (L : list Z) : block :=
  match L with
  | [] => h
  | b :: L => hdr_fill (store32 h (4 + 4 * i) b) (i + 1) L
  end.
Definition hdr_make (h : block) (L : list Z) : block :=
  hdr_fill (store32 h 0 (Z.of_nat (length L))) 0 L.

Lemma hdr_fill_before h i L x : 0 <= i -> x + 4 <= 4 + 4 * i -> load32 (hdr_fill h i L) x = load32 h x.
Proof.
  revert h i. induction L as [|b L IH]; intros h i Hi Hx; [done|]. cbn [hdr_fill].
  rewrite IH by lia. apply load32_store32_ne. lia.
Qed.

Lemma hdr_fill_block h i L k b : 0 <= i -> L !! k = Some b -> 0 <= b < 2 ^ 31 ->
  hdr_block (hdr_fill h i L) (i + Z.of_nat k) = b.
Proof.
  revert h i k. induction L as [|c L IH]; intros h i k Hi Hk Hb; [done|]. cbn [hdr_fill].
  destruct k as [|k]; cbn in Hk.
  - injection Hk as ->. unfold hdr_block. rewrite hdr_fill_before by lia. rewrite Z.add_0_r, load32_store32_eq.
    rewrite u32_id by done. by apply i32_id.
  - replace (i + Z.of_nat (S k)) with (i + 1 + Z.of_nat k) by lia. apply IH; [lia|done|done].
Qed.

Lemma hdr_make_n h L : Z.of_nat (length L) < 2 ^ 31 -> hdr_n (hdr_make h L) = Z.of_nat (length L).
Proof.
  intros HL. unfold hdr_n, hdr_make. rewrite hdr_fill_before by lia.
  rewrite load32_store32_eq, u32_id by lia. apply i32_id. lia.
Qed.

Lemma hdr_list_make h L : Forall (fun b => 0 <= b < 2 ^ 31) L -> Z.of_nat (length L) < 2 ^ 31 ->
  hdr_list (hdr_make h L) = L.
Proof.
  intros HL Hn. unfold hdr_list. rewrite hdr_make_n, Nat2Z.id by done. apply list_eq_same_length with (length L).
  - done.
  - by rewrite length_map, length_seq.
  - intros k x y Hk Hx Hy. rewrite list_lookup_fmap, lookup_seq_lt in Hx by done. injection Hx as <-.
    apply (hdr_fill_block _ 0 L k y); [lia|done|]. exact (Forall_lookup_1 _ _ _ _ HL Hy).
Qed.

Lemma hdr_list_0 h : hdr_n h = 0 -> hdr_list h = [].
Proof. intros E. unfold hdr_list. by rewrite E. Qed.

Section Spec.
Context {C X : Type} `{!BufCache C} `{!BufCacheSpec C}.
Context (start nlog : Z) (Hlog : 0 <= start /\ 1 <= nlog /\ start + nlog < 2 ^ 31).
Implicit Types (s : kst C X) (a : acache) (L : list Z).

Definition in_log (b : Z) : Prop := start <= b < start + nlog.
Definition home (b : Z) : Prop := 0 <= b < 2 ^ 31 /\ ~ in_log b.

(** A list of blocks that the log can hold. *)
Record loggable L : Prop := {
  lg_nodup : NoDup L;
  lg_home : Forall home L;
  lg_size : Z.of_nat (length L) <= nlog - 1;
  lg_max : (length L < Z.to_nat LOGSIZE)%nat
}.

(** The in-memory log has the blocks [L]. *)
Record logged s L : Prop := {
  ld_start : l_start (k_log s) = start;
  ld_size : l_size (k_log s) = nlog;
  ld_dev : l_dev (k_log s) = ROOTDEV;
  ld_n : lh_n (k_log s) = Z.of_nat (length L);
  ld_block i b : L !! i = Some b -> lh_block (k_log s) !! Z.of_nat i = Some b
}.

(** Exactly the blocks of [L] are pinned, once each. *)
Definition pinned a L : Prop := forall b, a_pins a !! b = if decide (b ∈ L) then Some 1 else None.

(** Writing a block through the cache. *)
Definition a_put (b : Z) (d : block) a : acache := a_flush b (a_store b d a).

Lemma wp_lift {A} (m : M C A) s (Q : A -> kst C X -> Prop) :
  wp m (k_bc s) (fun x c => Q x (Kst c (k_log s) (k_ext s))) -> wp (lift m) s Q.
Proof. unfold wp, lift. by destruct (m (k_bc s)). Qed.


Lemma pinned_busy a L : pinned a L -> a_held a = ∅ -> forall b, b ∈ busy a <-> b ∈ L.
Proof.
  intros Hp Hh b. rewrite elem_of_busy, Hp, Hh. split.
  - intros [[x Hx]|[i Hi]]; [by case_decide|done].
  - intros Hb. left. rewrite decide_True by done. by eexists.
Qed.

Lemma pinned_pins a L b : pinned a L -> pins a b = if decide (b ∈ L) then 1 else 0.
Proof. intros Hp. unfold pins. rewrite Hp. by case_decide. Qed.

Lemma get_block_wp s L i b (Q : Z -> kst C X -> Prop) :
  logged s L -> loggable L -> L !! i = Some b -> Q b s -> wp (get_block (Z.of_nat i)) s Q.
Proof.
  intros Hl Hg Hi HQ. unfold get_block, in_block.
  pose proof (lookup_lt_Some _ _ _ Hi). pose proof (lg_max _ Hg).
  rewrite (proj2 (Z.leb_le _ _)), (proj2 (Z.ltb_lt _ _)) by lia. cbn [andb]. wp_step.
  by rewrite (ld_block _ _ Hl i b Hi).
Qed.

(** Ends a chain of cache operations: the abstract state at the end is [a']. *)
Lemma crep_eq c a a' : crep c a -> a = a' -> crep c a'.
Proof. by intros ? <-. Qed.

Lemma logged_bc s L c x : logged s L -> logged (Kst c (k_log s) x) L.
Proof. by intros []. Qed.

Lemma write_from_wp s L h i k (Q : block -> kst C X -> Prop) :
  logged s L -> loggable L -> (i + k = length L)%nat -> Q (hdr_fill h (Z.of_nat i) (drop i L)) s ->
  wp (write_from h (Z.of_nat i) k) s Q.
Proof.
  intros Hl Hg. revert h i. induction k as [|k IH]; intros h i Hk HQ; cbn [write_from].
  - wp_step. rewrite drop_ge in HQ by lia. done.
  - destruct (lookup_lt_is_Some_2 L i ltac:(lia)) as [b Hb].
    wp_step. apply (get_block_wp s L i b); [done|done|done|].
    replace (Z.of_nat i + 1) with (Z.of_nat (S i)) by lia. apply IH; [lia|].
    rewrite (drop_S _ _ _ Hb) in HQ. cbn [hdr_fill] in HQ.
    by replace (Z.of_nat i + 1) with (Z.of_nat (S i)) in HQ by lia.
Qed.

Section Steps.
Context {s : kst C X} {a : acache} {L : list Z}.
Context (Hc : crep (k_bc s) a) (Hl : logged s L) (Hg : loggable L) (Hh : a_held a = ∅).

Lemma log_not_home i : 0 <= i <= Z.of_nat (length L) -> ~ home (start + i).
Proof using Hlog Hg. clear Hc Hl Hh. pose proof (lg_size _ Hg). unfold home, in_log. lia. Qed.

Lemma home_elem b : b ∈ L -> home b.
Proof using Hg. clear Hc Hl Hh. intros Hb. by apply (proj1 (Forall_forall _ _) (lg_home _ Hg)). Qed.

(** Reading a log block and its home block, as [write_log] and [install_trans] do. *)
Lemma bread2_wp P i b (f : Z -> Z -> M (kst C X) unit) (Q : unit -> kst C X -> Prop) :
  pinned a P -> P ⊆ L -> L !! i = Some b ->
  (let p := start + Z.of_nat i + 1 in forall lb db c',
     lb <> db -> p <> b -> (p ∉ busy a) ->
     crep c' (Acache (a_view a) (a_disk a) (a_pins a) (<[db := b]> {[lb := p]}) (a_hist a)) ->
     wp (f lb db) (Kst c' (k_log s) (k_ext s)) Q) ->
  wp (l ← gets k_log;
      lb ← lift (bread (l_dev l) (u32 (l_start l + Z.of_nat i + 1)));
      x ← get_block (Z.of_nat i);
      db ← lift (bread (l_dev l) (u32 x));
      f lb db) s Q.
Proof using All.
  intros Hp HPL Hi Hf. pose proof (lookup_lt_Some _ _ _ Hi) as Hlt.
  pose proof (lg_max _ Hg) as Hmax. pose proof (lg_size _ Hg) as Hsz. change (Z.to_nat LOGSIZE) with 30%nat in Hmax.
  pose proof (home_elem b ltac:(by eapply list_elem_of_lookup_2)) as Hb.
  cbn zeta in Hf. set (p := start + Z.of_nat i + 1) in *.
  assert (~ home p) as Hph by (unfold p; rewrite <- Z.add_assoc; apply log_not_home; lia).
  assert (p ∉ busy a) as Hpb.
  { rewrite (pinned_busy a P Hp Hh). intros E. by apply Hph, home_elem, HPL. }
  assert (p <> b) as Hpne by (intros E; apply Hph; by rewrite E).
  wp_step. wp_step. rewrite (ld_start _ _ Hl), (ld_dev _ _ Hl). fold p.
  rewrite u32_id by (unfold p; lia).
  wp_step. apply wp_lift. eapply bread_spec; [exact Hc|by intros j; rewrite Hh| |].
  { apply (room_list _ _ (p :: L)); [|set_solver|cbn; lia].
    intros x Hx%(pinned_busy a P Hp Hh). right. by apply HPL. }
  rewrite Hh. intros lb c1 _ Hc1.
  wp_step. apply (get_block_wp _ L i b); [by destruct Hl; split|done|done|].
  rewrite u32_id by apply Hb.
  wp_step. apply wp_lift. cbn. eapply bread_spec; [exact Hc1| | |].
  { intros j. cbn. rewrite lookup_insert. case_decide; [|by rewrite Hh]. by intros [= E]. }
  { apply (room_list _ _ (p :: L)); [|right; by eapply list_elem_of_lookup_2|cbn; lia].
    intros x. rewrite elem_of_busy. cbn. rewrite Hh. intros [?|[j Hj]].
    - right. apply HPL, (pinned_busy a P Hp Hh), elem_of_busy. by left.
    - rewrite lookup_insert in Hj. case_decide; [injection Hj as <-; left|done]. }
  cbn. rewrite Hh, insert_empty. intros db c2 Hft Hc2. rewrite lookup_singleton in Hft.
  case_decide as Hne; [done|]. eapply Hf; [exact Hne|done|done|].
  eapply crep_eq; [exact Hc2|]. unfold a_lock. cbn. by rewrite Hh, insert_empty.
Qed.

Lemma held_done lb db p b : lb <> db -> delete lb (delete db (<[db := b]> {[lb := p]})) = a_held a.
Proof using Hh.
  clear Hc Hl. intros Hne. rewrite Hh, delete_insert_id by (by rewrite lookup_singleton_ne).
  by rewrite delete_singleton_eq.
Qed.

Lemma write_log_one_wp i b (Q : unit -> kst C X -> Prop) :
  pinned a L -> L !! i = Some b ->
  (forall c', crep c' (a_put (start + Z.of_nat i + 1) (dget (a_view a) b) a) ->
     Q tt (Kst c' (k_log s) (k_ext s))) ->
  wp (write_log_one (Z.of_nat i)) s Q.
Proof using All.
  intros Hp Hi HQ. eapply (bread2_wp L); [done|done|exact Hi|]. intros p lb db c Hne Hpb _ Hc2.
  wp_step. apply wp_lift. eapply bdata_spec; [exact Hc2|by cbn; rewrite lookup_insert_eq|]. cbn.
  wp_step. apply wp_lift. eapply (bset_spec _ _ lb p); [exact Hc2|cbn; by rewrite lookup_insert_ne, lookup_singleton_eq|].
  intros c3 Hc3.
  wp_step. apply wp_lift. eapply (bwrite_spec _ _ lb p); [exact Hc3|cbn; by rewrite lookup_insert_ne, lookup_singleton_eq|].
  intros c4 Hc4.
  wp_step. apply wp_lift. eapply (brelse_spec _ _ db b); [exact Hc4|cbn; by rewrite lookup_insert_eq| |].
  { left. unfold pins. cbn. rewrite Hp, decide_True by (by eapply list_elem_of_lookup_2). cbn. lia. }
  intros c5 Hc5.
  apply wp_lift. eapply (brelse_spec _ _ lb p); [exact Hc5| | |].
  { cbn. by rewrite lookup_delete_ne, lookup_insert_ne, lookup_singleton_eq. }
  { right. cbn. by rewrite !dget_insert, !decide_True. }
  intros c6 Hc6. apply HQ. eapply crep_eq; [exact Hc6|].
  unfold a_put, a_flush, a_store, a_unlock. cbn. by rewrite held_done.
Qed.

Lemma install_one_wp recovering P i b (Q : unit -> kst C X -> Prop) :
  pinned a P -> P ⊆ L -> L !! i = Some b -> (recovering = false -> b ∈ P) ->
  (forall c', crep c' (let a' := a_put b (dget (a_view a) (start + Z.of_nat i + 1)) a in
                       if recovering : bool then a' else a_unpin b a') ->
     Q tt (Kst c' (k_log s) (k_ext s))) ->
  wp (install_one recovering (Z.of_nat i)) s Q.
Proof using All.
  intros Hp HPL Hi Hrec HQ. eapply (bread2_wp P); [done|done|exact Hi|]. intros p lb db c Hne Hpb Hbusy Hc2.
  wp_step. apply wp_lift. eapply (bdata_spec _ _ lb p); [exact Hc2|cbn; by rewrite lookup_insert_ne, lookup_singleton_eq|].
  wp_step. apply wp_lift. eapply bset_spec; [exact Hc2|by cbn; rewrite lookup_insert_eq|]. intros c3 Hc3.
  wp_step. apply wp_lift. eapply bwrite_spec; [exact Hc3|by cbn; rewrite lookup_insert_eq|]. intros c4 Hc4.
  set (a4 := a_flush b _) in Hc4.
  assert (wp (if recovering then mret tt else lift (bunpin db)) (Kst c4 (k_log s) (k_ext s))
    (fun _ s' => exists c', crep c' (if recovering : bool then a4 else a_unpin b a4) /\
       s' = Kst c' (k_log s) (k_ext s))) as Hun.
  { destruct recovering; [wp_step; by exists c4|]. apply wp_lift.
    eapply bunpin_spec; [exact Hc4|by cbn; rewrite lookup_insert_eq| |intros c' Hc'; by exists c'].
    change (pins a4 b) with (pins a b). rewrite (pinned_pins a P) by done.
    rewrite decide_True; [lia|by apply Hrec]. }
  wp_step. eapply wp_mono; [exact Hun|]. intros [] s' (c5 & Hc5 & ->).
  wp_step. apply wp_lift. eapply (brelse_spec _ _ lb p); [exact Hc5| | |].
  { destruct recovering; cbn; by rewrite lookup_insert_ne, lookup_singleton_eq. }
  { right. destruct recovering; cbn; rewrite !dget_insert, !(decide_False (P := b = p)) by done;
      by apply (crep_clean _ _ _ Hc). }
  intros c6 Hc6. apply wp_lift. eapply (brelse_spec _ _ db b); [exact Hc6| | |].
  { destruct recovering; cbn; by rewrite lookup_delete_ne, lookup_insert_eq. }
  { right. destruct recovering; cbn; by rewrite !dget_insert, !decide_True. }
  intros c7 Hc7. apply HQ. eapply crep_eq; [exact Hc7|].
  destruct recovering; unfold a4, a_put, a_unpin, a_flush, a_store, a_unlock, pins; cbn;
    by rewrite delete_delete, held_done.
Qed.

Lemma write_head_wp (Q : unit -> kst C X -> Prop) :
  pinned a L ->
  (forall c', crep c' (a_put start (hdr_make (dget (a_view a) start) L) a) ->
     Q tt (Kst c' (k_log s) (k_ext s))) ->
  wp write_head s Q.
Proof using All.
  intros Hp HQ. unfold write_head.
  pose proof (lg_max _ Hg) as Hmax. pose proof (lg_size _ Hg) as Hsz. change (Z.to_nat LOGSIZE) with 30%nat in Hmax.
  wp_step. wp_step. rewrite (ld_start _ _ Hl), (ld_dev _ _ Hl), u32_id by lia.
  wp_step. apply wp_lift. eapply bread_spec; [exact Hc|by intros j; rewrite Hh| |].
  { apply (room_list _ _ (start :: L)); [|left|cbn; lia].
    intros x Hx%(pinned_busy a L Hp Hh). by right. }
  intros i c1 _ Hc1. wp_step. apply wp_lift. eapply bdata_spec; [exact Hc1|by cbn; rewrite lookup_insert_eq|].
  wp_step. rewrite (ld_n _ _ Hl), Nat2Z.id.
  apply (write_from_wp _ L _ 0 (length L)); [exact (logged_bc s L _ _ Hl)|done|lia|].
  wp_step. apply wp_lift. eapply bset_spec; [exact Hc1|by cbn; rewrite lookup_insert_eq|]. intros c3 Hc3.
  wp_step. apply wp_lift. eapply bwrite_spec; [exact Hc3|by cbn; rewrite lookup_insert_eq|]. intros c4 Hc4.
  apply wp_lift. eapply brelse_spec; [exact Hc4|by cbn; rewrite lookup_insert_eq| |].
  { right. cbn. by rewrite !dget_insert, !decide_True. }
  intros c5 Hc5. apply HQ. eapply crep_eq; [exact Hc5|].
  unfold a_put, a_flush, a_store, a_unlock, a_lock. cbn. by rewrite Hh, insert_empty, delete_singleton_eq.
Qed.
End Steps.

(** ** The loops *)

(** Copying to the log: after [i] blocks, homes and header are as in [a0]. *)
Record writing a0 L (i : nat) a : Prop := {
  wr_view b : ~ (start < b < start + nlog) -> dget (a_view a) b = dget (a_view a0) b;
  wr_disk b : ~ (start < b < start + nlog) -> dget (a_disk a) b = dget (a_disk a0) b;
  wr_log j b : (j < i)%nat -> L !! j = Some b ->
    dget (a_disk a) (start + Z.of_nat j + 1) = dget (a_view a0) b;
  wr_pins : a_pins a = a_pins a0;
  wr_held : a_held a = a_held a0;
  wr_hist : exists h, a_hist a = h ++ a_hist a0 /\
    Forall (fun d => forall b, ~ (start < b < start + nlog) -> dget d b = dget (a_disk a0) b) h
}.

Lemma writing_step a0 L i a b :
  loggable L -> L !! i = Some b -> writing a0 L i a ->
  writing a0 L (S i) (a_put (start + Z.of_nat i + 1) (dget (a_view a) b) a).
Proof using Hlog.
  intros Hg Hi [Hv Hd Hlg Hp Hh (h & Eh & Hf)]. pose proof (lookup_lt_Some _ _ _ Hi).
  pose proof (lg_size _ Hg).
  assert (home b) as Hb by (exact (Forall_lookup_1 _ _ _ _ (lg_home _ Hg) Hi)).
  assert (~ (start < b < start + nlog)) as Hb' by (unfold home, in_log in Hb; lia).
  split; cbn; try done.
  - intros c Hc. rewrite dget_insert, decide_False by lia. by apply Hv.
  - intros c Hc. rewrite dget_insert, decide_False by lia. by apply Hd.
  - intros j c Hj Hc. rewrite !dget_insert. case_decide as E.
    + rewrite decide_True by done. assert (j = i) as -> by lia. assert (b = c) as -> by congruence. by apply Hv.
    + apply Hlg; [|done]. assert (j <> i) by lia. lia.
  - exists (<[start + Z.of_nat i + 1 := dget (a_view a) b]> (a_disk a) :: h).
    rewrite Eh. split; [by rewrite dget_insert, decide_True|]. constructor; [|done].
    intros c Hc. rewrite dget_insert, decide_False by lia. by apply Hd.
Qed.

Lemma write_log_from_wp s a0 a L i k (Q : unit -> kst C X -> Prop) :
  crep (k_bc s) a -> logged s L -> loggable L -> pinned a0 L -> a_held a0 = ∅ ->
  writing a0 L i a -> (i + k = length L)%nat ->
  (forall c' a', crep c' a' -> writing a0 L (length L) a' -> Q tt (Kst c' (k_log s) (k_ext s))) ->
  wp (write_log_from (Z.of_nat i) k) s Q.
Proof using Hlog.
  intros Hc Hl Hg Hp Hh. revert s a i Hc Hl. induction k as [|k IH]; intros s a i Hc Hl Hw Hk HQ; cbn [write_log_from].
  - wp_step. destruct s as [c l x]. apply (HQ c a); [done|]. by replace (length L) with i by lia.
  - destruct (lookup_lt_is_Some_2 L i ltac:(lia)) as [b Hb]. wp_step.
    assert (pinned a L) as Hpa by (intros x; rewrite (wr_pins _ _ _ _ Hw); apply Hp).
    eapply (write_log_one_wp Hc Hl Hg); [by rewrite (wr_held _ _ _ _ Hw)|done|exact Hb|].
    intros c1 Hc1. replace (Z.of_nat i + 1) with (Z.of_nat (S i)) by lia.
    eapply (IH (Kst c1 (k_log s) (k_ext s))); [exact Hc1|by destruct Hl; split|by apply writing_step|lia|done].
Qed.

(** Installing: after [i] blocks. [P] are the blocks still pinned. *)
Record installing a0 L (i : nat) a : Prop := {
  in_other b : b ∉ L -> dget (a_view a) b = dget (a_view a0) b /\ dget (a_disk a) b = dget (a_disk a0) b;
  in_done j b : (j < i)%nat -> L !! j = Some b ->
    dget (a_disk a) b = dget (a_disk a0) (start + Z.of_nat j + 1) /\ dget (a_view a) b = dget (a_disk a) b;
  in_todo j b : (i <= j)%nat -> L !! j = Some b ->
    dget (a_view a) b = dget (a_view a0) b /\ dget (a_disk a) b = dget (a_disk a0) b;
  in_held : a_held a = a_held a0;
  in_hist : exists h, a_hist a = h ++ a_hist a0 /\
    Forall (fun d => forall b, (b ∉ L -> dget d b = dget (a_disk a0) b) /\
      forall j, L !! j = Some b -> dget d b = dget (a_disk a0) b \/
                                   dget d b = dget (a_disk a0) (start + Z.of_nat j + 1)) h
}.

Lemma installing_put a0 L i a b :
  loggable L -> L !! i = Some b -> installing a0 L i a ->
  dget (a_view a) (start + Z.of_nat i + 1) = dget (a_disk a0) (start + Z.of_nat i + 1) ->
  installing a0 L (S i) (a_put b (dget (a_view a) (start + Z.of_nat i + 1)) a).
Proof using Hlog.
  intros Hg Hi [Ho Hdn Ht Hh (h & Eh & Hf)] Hlb. rewrite Hlb.
  set (x := dget (a_disk a0) (start + Z.of_nat i + 1)).
  assert (forall c, dget (<[b := x]> (a_disk a)) c = if decide (b = c) then x else dget (a_disk a) c) as Ed
    by (intros c; apply dget_insert).
  assert (forall j c, L !! j = Some c -> b = c -> j = i) as Hinj.
  { intros j c Hj <-. by eapply (NoDup_lookup _ _ _ _ (lg_nodup _ Hg)). }
  assert (forall c, (c ∉ L -> dget (<[b := x]> (a_disk a)) c = dget (a_disk a0) c) /\
    forall j, L !! j = Some c -> dget (<[b := x]> (a_disk a)) c = dget (a_disk a0) c \/
       dget (<[b := x]> (a_disk a)) c = dget (a_disk a0) (start + Z.of_nat j + 1)) as Hnew.
  { intros c. rewrite Ed. split.
    - intros Hc. rewrite decide_False by (intros <-; apply Hc; by eapply list_elem_of_lookup_2). by apply Ho.
    - intros j Hj. case_decide as E; [rewrite (Hinj _ _ Hj E); by right|].
      destruct (decide (j < i)%nat); [right; by apply (Hdn j c)|left; apply (Ht j c); [lia|done]]. }
  split; cbn; rewrite ?dget_insert, ?(decide_True (P := b = b)) by done; try done.
  - intros c Hc. rewrite Ed, dget_insert, decide_False
      by (intros <-; apply Hc; by eapply list_elem_of_lookup_2).
    rewrite decide_False by (intros <-; apply Hc; by eapply list_elem_of_lookup_2). by apply Ho.
  - intros j c Hj Hc. rewrite Ed, dget_insert. case_decide as E.
    + by rewrite (Hinj _ _ Hc E).
    + apply (Hdn j c); [|done]. assert (j <> i) by (intros ->; congruence). lia.
  - intros j c Hj Hc. rewrite Ed, dget_insert.
    case_decide as E; [pose proof (Hinj _ _ Hc E); lia|]. apply (Ht j c); [lia|done].
  - exists (<[b := x]> (a_disk a) :: h). rewrite Eh. split; [done|]. by constructor.
Qed.

Lemma installing_unpin a0 L i a b : installing a0 L i a -> installing a0 L i (a_unpin b a).
Proof. by intros []. Qed.

Lemma installing_refl L a : installing a L 0 a.
Proof. split; try done; [lia|]. by exists []. Qed.

Lemma pinned_unpin a L i b d :
  loggable L -> L !! i = Some b -> pinned a (drop i L) -> pinned (a_unpin b (a_put b d a)) (drop (S i) L).
Proof.
  intros Hg Hi Hp c. pose proof (drop_S _ _ _ Hi) as E. pose proof (lg_nodup _ Hg) as Hn.
  rewrite <- (take_drop i L) in Hn. apply NoDup_app in Hn as (_ & _ & Hn). rewrite E in Hn. apply NoDup_cons in Hn as [Hb _].
  assert (pins (a_put b d a) b = 1) as E1.
  { change (pins (a_put b d a) b) with (pins a b). rewrite (pinned_pins _ (drop i L)), E, decide_True by (done || left). done. }
  unfold a_unpin. rewrite E1. cbn. rewrite lookup_delete. case_decide as Ec.
  - subst c. by rewrite decide_False.
  - rewrite Hp, E. destruct (decide (c ∈ drop (S i) L)) as [Hc|Hc].
    + by rewrite decide_True by (by right).
    + rewrite decide_False; [done|]. intros [|]%elem_of_cons; [congruence|done].
Qed.

Lemma install_from_wp recovering s a0 a L i k (Q : unit -> kst C X -> Prop) :
  let P := fun i => if recovering : bool then [] else drop i L in
  crep (k_bc s) a -> logged s L -> loggable L -> pinned a (P i) -> a_held a0 = ∅ ->
  installing a0 L i a -> (i + k = length L)%nat ->
  (forall c' a', crep c' a' -> pinned a' [] -> installing a0 L (length L) a' ->
     Q tt (Kst c' (k_log s) (k_ext s))) ->
  wp (install_from recovering (Z.of_nat i) k) s Q.
Proof using Hlog.
  intros P Hc Hl Hg Hp Hh. revert s a i Hc Hl Hp. induction k as [|k IH]; intros s a i Hc Hl Hp Hw Hk HQ; cbn [install_from].
  - wp_step. destruct s as [c l x]. apply (HQ c a); [done| |by replace (length L) with i by lia].
    unfold P in Hp. destruct recovering; [done|]. by rewrite drop_ge in Hp by lia.
  - destruct (lookup_lt_is_Some_2 L i ltac:(lia)) as [b Hb]. wp_step.
    assert (P i ⊆ L) as HPL by (unfold P; destruct recovering; [set_solver|apply subseteq_drop]).
    assert (a_held a = ∅) as Hha by (by rewrite (in_held _ _ _ _ Hw)).
    set (p := start + Z.of_nat i + 1).
    assert (p ∉ L) as HpL.
    { intros Hin%(home_elem Hg). revert Hin. unfold p. rewrite <- Z.add_assoc. apply (log_not_home Hg). lia. }
    assert (dget (a_view a) p = dget (a_disk a0) p) as Hlb.
    { rewrite (crep_clean _ _ p Hc) by (rewrite (pinned_busy a (P i) Hp Hha); intros E; by apply HpL, HPL).
      by apply (in_other _ _ _ _ Hw). }
    eapply (install_one_wp Hc Hl Hg Hha recovering (P i)); [done|done|exact Hb| |].
    { intros ->. unfold P. rewrite (drop_S _ _ _ Hb). left. }
    intros c1 Hc1. replace (Z.of_nat i + 1) with (Z.of_nat (S i)) by lia.
    eapply (IH (Kst c1 (k_log s) (k_ext s))); [exact Hc1|by destruct Hl; split| | |lia|done].
    + unfold P in *. destruct recovering; [by intros x; rewrite <- Hp|by apply pinned_unpin].
    + destruct recovering; [|apply installing_unpin]; by apply installing_put.
Qed.

(** ** Crashes *)

(** Disk [d] recovers to the contents [V] of the blocks outside the log. *)
Record recovers_to (d : diskT) (V : Z -> block) : Prop := {
  rt_n : 0 <= hdr_n (dget d start);
  rt_list : loggable (hdr_list (dget d start));
  rt_blocks b : ~ in_log b -> ldisk start d b = V b
}.

Lemma loggable_nil : loggable [].
Proof using Hlog. split; [by apply NoDup_nil|by apply Forall_nil|cbn; lia|unfold LOGSIZE, MAXOPBLOCKS; cbn; lia]. Qed.

Lemma recovers_empty d V :
  hdr_n (dget d start) = 0 -> (forall b, ~ in_log b -> dget d b = V b) -> recovers_to d V.
Proof using Hlog.
  intros E HV. pose proof (hdr_list_0 _ E) as El. split; [lia|rewrite El; apply loggable_nil|].
  intros b Hb. unfold ldisk. rewrite El. by apply HV.
Qed.

(** The disks during [install_trans] all recover to the same contents. *)
Lemma recovers_installing d0 d L V :
  hdr_list (dget d0 start) = L -> recovers_to d0 V ->
  (forall b, (b ∉ L -> dget d b = dget d0 b) /\
    forall j, L !! j = Some b -> dget d b = dget d0 b \/ dget d b = dget d0 (start + Z.of_nat j + 1)) ->
  recovers_to d V.
Proof using Hlog.
  intros EL [Hn Hg HV] Hd. rewrite EL in Hg.
  assert (forall i, 0 <= i <= Z.of_nat (length L) -> dget d (start + i) = dget d0 (start + i)) as Hlogd.
  { intros i Hi. apply (Hd (start + i)). intros Hin%(home_elem Hg). revert Hin. by apply (log_not_home Hg). }
  assert (dget d start = dget d0 start) as Est
    by (pose proof (Hlogd 0 ltac:(lia)) as E; by rewrite Z.add_0_r in E).
  split; rewrite ?Est, ?EL; [done|done|]. intros b Hb. rewrite <- HV by done.
  unfold ldisk. rewrite Est, EL. destruct (decide (b ∈ L)) as [[j Hj]%list_elem_of_lookup_1|Hnot].
  - pose proof (lookup_lt_Some _ _ _ Hj). rewrite !(replay_in start _ 0 L j b) by (done || apply Hg).
    rewrite <- Z.add_assoc. apply Hlogd. lia.
  - rewrite !replay_notin by done. by apply Hd.
Qed.

Lemma loggable_range L : loggable L -> Forall (fun b => 0 <= b < 2 ^ 31) L /\ Z.of_nat (length L) < 2 ^ 31.
Proof.
  intros Hg. split; [|pose proof (lg_max _ Hg) as H; change (Z.to_nat LOGSIZE) with 30%nat in H; lia].
  eapply Forall_impl; [apply Hg|]. by intros b [? _].
Qed.

(** The disk right after the header with the blocks [L] has been written. *)
Lemma recovers_committed d L h V :
  loggable L -> dget d start = hdr_make h L ->
  (forall j b, L !! j = Some b -> dget d (start + Z.of_nat j + 1) = V b) ->
  (forall b, ~ in_log b -> b ∉ L -> dget d b = V b) ->
  hdr_list (dget d start) = L /\ recovers_to d V.
Proof using Hlog.
  intros Hg Eh Hlg Ho. destruct (loggable_range _ Hg) as [Hr Hn].
  assert (hdr_list (dget d start) = L) as EL by (rewrite Eh; by apply hdr_list_make).
  split; [done|]. split; [rewrite Eh, hdr_make_n by done; lia|by rewrite EL|].
  intros b Hb. unfold ldisk. rewrite EL. destruct (decide (b ∈ L)) as [[j Hj]%list_elem_of_lookup_1|Hnot].
  - rewrite (replay_in start _ 0 L j b) by (done || apply Hg). rewrite Z.add_0_l. by apply Hlg.
  - rewrite replay_notin by done. by apply Ho.
Qed.

Lemma writing_refl a L : writing a L 0 a.
Proof. split; try done; [lia|]. by exists []. Qed.

Lemma with_n0_logged s L : logged s L -> logged (Kst (k_bc s) (with_n 0 (k_log s)) (k_ext s)) [].
Proof. intros []. by split. Qed.

(** The state between transactions: an empty log, on disk and in memory, and
    a file system that is on disk as it is in the cache. *)
Record quiet s a : Prop := {
  q_crep : crep (k_bc s) a;
  q_log : logged s [];
  q_pins : pinned a [];
  q_held : a_held a = ∅;
  q_hdr : hdr_n (dget (a_disk a) start) = 0
}.

(** Writing the empty header ends a transaction. *)
Lemma clear_head_wp s a (V : Z -> block) (Q : unit -> kst C X -> Prop) :
  crep (k_bc s) a -> logged s [] -> pinned a [] -> a_held a = ∅ ->
  (forall b, ~ in_log b -> dget (a_disk a) b = V b /\ dget (a_view a) b = V b) ->
  (forall c' a' d, let s' := Kst c' (k_log s) (k_ext s) in
     quiet s' a' -> a_hist a' = d :: a_hist a -> recovers_to d V ->
     (forall b, ~ in_log b -> dget (a_disk a') b = V b /\ dget (a_view a') b = V b) -> Q tt s') ->
  wp write_head s Q.
Proof using Hlog.
  intros Hc Hl Hp Hh HV HQ. apply (write_head_wp Hc Hl loggable_nil Hh); [done|]. intros c' Hc'.
  set (h := hdr_make (dget (a_view a) start) []) in *. set (a' := a_put start h a) in *.
  assert (forall b, ~ in_log b -> dget (a_disk a') b = V b /\ dget (a_view a') b = V b) as HV'.
  { intros b Hb. unfold a'. cbn. rewrite !dget_insert, !(decide_False (P := start = b)) by (unfold in_log in Hb; lia).
    by apply HV. }
  assert (hdr_n (dget (a_disk a') start) = 0) as Hn.
  { unfold a'. cbn. rewrite !dget_insert, !decide_True by done. by apply (hdr_make_n _ []). }
  eapply (HQ c' a'); [|reflexivity| |done].
  - split; [done|by destruct Hl; split|done|done|done].
  - apply recovers_empty; [done|]. intros b Hb. by apply HV'.
Qed.

(** Installing and clearing the log, at the end of a commit and in recovery. *)
Lemma finish_wp recovering s a L (V : Z -> block) (Q : unit -> kst C X -> Prop) :
  crep (k_bc s) a -> logged s L -> pinned a (if recovering : bool then [] else L) -> a_held a = ∅ ->
  hdr_list (dget (a_disk a) start) = L -> recovers_to (a_disk a) V ->
  (forall c' a' h, let s' := Kst c' (with_n 0 (k_log s)) (k_ext s) in
     quiet s' a' -> a_hist a' = h ++ a_hist a -> Forall (fun d => recovers_to d V) h ->
     (forall b, ~ in_log b -> dget (a_disk a') b = V b /\ dget (a_view a') b = V b) -> Q tt s') ->
  wp (install_trans recovering;; set_log (with_n 0);; write_head) s Q.
Proof using Hlog.
  intros Hc Hl Hp Hh EL HV HQ. pose proof (rt_list _ _ HV) as Hg. rewrite EL in Hg.
  unfold install_trans. wp_step. wp_step. wp_step. rewrite (ld_n _ _ Hl), Nat2Z.id.
  apply (install_from_wp recovering s a a L 0);
    [done|done|done|by destruct recovering|done|apply installing_refl|lia|].
  intros c3 a3 Hc3 Hp3 Hin. wp_step. apply wp_modify.
  apply (clear_head_wp _ a3 V);
    [done|by apply (with_n0_logged (Kst c3 (k_log s) (k_ext s)) L), logged_bc|done| | |].
  { by rewrite (in_held _ _ _ _ Hin). }
  { intros b Hb. rewrite <- (rt_blocks _ _ HV b Hb). unfold ldisk. rewrite EL.
    destruct (decide (b ∈ L)) as [[j Hj]%list_elem_of_lookup_1|Hnot].
    - pose proof (lookup_lt_Some _ _ _ Hj). rewrite (replay_in start _ 0 L j b) by (done || apply Hg).
      destruct (in_done _ _ _ _ Hin j b) as [E1 E2]; [done|done|]. rewrite E2. by rewrite E1.
    - rewrite replay_notin by done. destruct (in_other _ _ _ _ Hin b Hnot) as [E1 E2]. split; [done|].
      rewrite E1. apply (crep_clean _ _ _ Hc). rewrite (pinned_busy _ _ Hp Hh). by destruct recovering; [set_solver|]. }
  intros c4 a4 d4 s' Hq Eh4 Hd4 HV4. destruct (in_hist _ _ _ _ Hin) as (h3 & Eh3 & Hf3).
  apply (HQ c4 a4 (d4 :: h3)); [done|by rewrite Eh4, Eh3| |done].
  constructor; [done|]. eapply Forall_impl; [exact Hf3|]. cbn. intros d Hd. by eapply recovers_installing.
Qed.

(** Up to the commit point. *)
Lemma log_blocks_wp s a L (Q : unit -> kst C X -> Prop) :
  crep (k_bc s) a -> logged s L -> loggable L -> pinned a L -> a_held a = ∅ ->
  hdr_n (dget (a_disk a) start) = 0 ->
  (forall c' a' h, crep c' a' -> pinned a' L -> a_held a' = ∅ ->
     hdr_list (dget (a_disk a') start) = L -> recovers_to (a_disk a') (dget (a_view a)) ->
     a_hist a' = a_disk a' :: h ++ a_hist a -> Forall (fun d => recovers_to d (dget (a_disk a))) h ->
     Q tt (Kst c' (k_log s) (k_ext s))) ->
  wp (write_log;; write_head) s Q.
Proof using Hlog.
  intros Hc Hl Hg Hp Hh Hn0 HQ. unfold write_log. wp_step. wp_step. wp_step. rewrite (ld_n _ _ Hl), Nat2Z.id.
  apply (write_log_from_wp s a a L 0); [done|done|done|done|done|apply writing_refl|lia|].
  intros c1 a1 Hc1 Hw.
  assert (pinned a1 L) as Hp1 by (intros x; rewrite (wr_pins _ _ _ _ Hw); apply Hp).
  assert (a_held a1 = ∅) as Hh1 by (by rewrite (wr_held _ _ _ _ Hw)).
  apply (write_head_wp (s := Kst c1 (k_log s) (k_ext s)) Hc1 (logged_bc s L _ _ Hl) Hg Hh1); [done|].
  intros c2 Hc2. set (a2 := a_put start _ a1) in Hc2.
  destruct (recovers_committed (a_disk a2) L (dget (a_view a1) start) (dget (a_view a))) as [EL Hr2].
  { done. }
  { unfold a2. cbn. by rewrite !dget_insert, !decide_True. }
  { intros j b Hj. pose proof (lookup_lt_Some _ _ _ Hj). unfold a2. cbn.
    rewrite dget_insert, decide_False by lia. by apply (wr_log _ _ _ _ Hw). }
  { intros b Hb HbL. unfold a2. cbn. rewrite dget_insert, decide_False by (unfold in_log in Hb; lia).
    rewrite (wr_disk _ _ _ _ Hw) by (unfold in_log in Hb; lia).
    symmetry. apply (crep_clean _ _ _ Hc). by rewrite (pinned_busy a L). }
  destruct (wr_hist _ _ _ _ Hw) as (h1 & Eh1 & Hf1).
  apply (HQ c2 a2 h1); [done|done|done|done|done|unfold a2; cbn; by rewrite Eh1|].
  eapply Forall_impl; [exact Hf1|]. cbn. intros d Hd. apply recovers_empty.
  - by rewrite Hd by lia.
  - intros b Hb. apply Hd. unfold in_log in Hb. lia.
Qed.

Lemma commit_wp s a L (Q : unit -> kst C X -> Prop) :
  crep (k_bc s) a -> logged s L -> loggable L -> pinned a L -> a_held a = ∅ ->
  hdr_n (dget (a_disk a) start) = 0 ->
  (forall c' a' hnew hold, let s' := Kst c' (with_n 0 (k_log s)) (k_ext s) in
     quiet s' a' ->
     (forall b, ~ in_log b -> dget (a_disk a') b = dget (a_view a) b /\
                              dget (a_view a') b = dget (a_view a) b) ->
     a_hist a' = hnew ++ hold ++ a_hist a ->
     Forall (fun d => recovers_to d (dget (a_disk a))) hold ->
     Forall (fun d => recovers_to d (dget (a_view a))) hnew ->
     Q tt s') ->
  wp commit s Q.
Proof using Hlog.
  intros Hc Hl Hg Hp Hh Hn0 HQ. unfold commit. wp_step. wp_step. rewrite (ld_n _ _ Hl).
  wp_step.
  2: { destruct L as [|b L]; [|cbn in *; bool_to_prop; lia]. wp_step. destruct s as [c l x].
       replace l with (with_n 0 l) by (destruct Hl as [_ _ _ E _]; cbn in E; by destruct l; cbn in *; subst).
       apply (HQ c a [] []); [| |done|done|done].
       - split; [done|by apply with_n0_logged in Hl|done|done|done].
       - intros b Hb. split; [|done]. symmetry. apply (crep_clean _ _ _ Hc).
         rewrite (pinned_busy a [] Hp Hh). set_solver. }
  apply wp_bind_assoc, wp_bind. apply (log_blocks_wp s a L); try done.
  intros c2 a2 h2 Hc2 Hp2 Hh2 EL Hr2 Eh2 Hf2.
  apply (finish_wp false (Kst c2 (k_log s) (k_ext s)) a2 L (dget (a_view a)));
    [done|by apply logged_bc|done|done|done|done|].
  intros c3 a3 h3 s' Hq Eh3 Hf3 HV. apply (HQ c3 a3 (h3 ++ [a_disk a2]) h2); [done|done| |done|].
  - by rewrite Eh3, Eh2, <- app_assoc.
  - apply Forall_app. by rewrite Forall_singleton.
Qed.

Lemma read_from_wp h i k s (Q : unit -> kst C X -> Prop) :
  (i + k <= Z.to_nat LOGSIZE)%nat ->
  (forall m, (forall j, (j < i)%nat -> m !! Z.of_nat j = lh_block (k_log s) !! Z.of_nat j) ->
     (forall j, (i <= j < i + k)%nat -> m !! Z.of_nat j = Some (hdr_block h (Z.of_nat j))) ->
     Q tt (Kst (k_bc s) (with_block m (k_log s)) (k_ext s))) ->
  wp (read_from h (Z.of_nat i) k) s Q.
Proof.
  change (Z.to_nat LOGSIZE) with 30%nat.
  revert i s. induction k as [|k IH]; intros i s Hk HQ; cbn [read_from].
  - wp_step. destruct s as [c l x]. replace l with (with_block (lh_block l) l) by by destruct l.
    apply HQ; [done|lia].
  - wp_step. unfold set_block, in_block, LOGSIZE, MAXOPBLOCKS.
    rewrite (proj2 (Z.leb_le _ _)), (proj2 (Z.ltb_lt _ _)) by lia. cbn [andb]. apply wp_modify.
    replace (Z.of_nat i + 1) with (Z.of_nat (S i)) by lia. apply IH; [lia|]. cbn. intros m Hlo Hhi. apply HQ.
    + intros j Hj. rewrite Hlo by lia. by rewrite lookup_insert_ne by lia.
    + intros j Hj. destruct (decide (j = i)) as [->|]; [|apply Hhi; lia].
      rewrite Hlo by lia. by rewrite lookup_insert_eq.
Qed.

(** At boot the cache is empty, [log] is zeroed, and the disk recovers to [V]. *)
Lemma recover_wp s a V (Q : unit -> kst C X -> Prop) :
  crep (k_bc s) a -> logged s [] -> pinned a [] -> a_held a = ∅ -> recovers_to (a_disk a) V ->
  (forall c' a' h l', let s' := Kst c' l' (k_ext s) in
     quiet s' a' -> a_hist a' = h ++ a_hist a -> Forall (fun d => recovers_to d V) h ->
     (forall b, ~ in_log b -> dget (a_disk a') b = V b /\ dget (a_view a') b = V b) ->
     outstanding l' = outstanding (k_log s) -> committing l' = committing (k_log s) -> Q tt s') ->
  wp recover_from_log s Q.
Proof using Hlog.
  intros Hc Hl Hp Hh HV HQ. unfold recover_from_log, read_head.
  wp_step. wp_step. wp_step. rewrite (ld_start _ _ Hl), (ld_dev _ _ Hl), u32_id by lia.
  assert (forall b, b ∉ busy a) as Hnb by (intros b; rewrite (pinned_busy a [] Hp Hh); set_solver).
  wp_step. apply wp_lift. eapply bread_spec; [exact Hc|by intros j; rewrite Hh| |].
  { apply (room_list _ _ [start]); [|left|cbn; lia]. intros x Hx. by apply Hnb in Hx. }
  rewrite Hh. intros i c1 _ Hc1.
  wp_step. apply wp_lift. eapply bdata_spec; [exact Hc1|by cbn; rewrite lookup_insert_eq|].
  cbn [a_view a_lock]. rewrite (crep_clean _ _ start Hc) by done. set (h := dget (a_disk a) start).
  wp_step. apply wp_modify. wp_step.
  pose proof (rt_list _ _ HV) as Hg. pose proof (lg_max _ Hg) as Hmax.
  assert (length (hdr_list h) = Z.to_nat (hdr_n h)) as Hlen by (unfold hdr_list; by rewrite length_map, length_seq).
  apply (read_from_wp h 0 (Z.to_nat (hdr_n h))); [fold h in Hmax; lia|]. intros m _ Hm. cbn.
  apply wp_lift. eapply brelse_spec; [exact Hc1|by cbn; rewrite lookup_insert_eq|right; by apply (crep_clean _ _ _ Hc)|].
  intros c2 Hc2. apply (finish_wp true _ a (hdr_list h) V).
  - eapply crep_eq; [exact Hc2|]. destruct a. cbn in *. subst. unfold a_unlock, a_lock. cbn.
    by rewrite insert_empty, delete_singleton_eq.
  - split; cbn; try apply Hl.
    + rewrite Hlen. pose proof (rt_n _ _ HV) as Hn. fold h in Hn. lia.
    + intros j b Hj. pose proof (lookup_lt_Some _ _ _ Hj) as Hlt. rewrite Hm by lia.
      unfold hdr_list in Hj. rewrite list_lookup_fmap, lookup_seq_lt in Hj by lia. by injection Hj as <-.
  - done.
  - done.
  - done.
  - done.
  - intros c' a' h' s' Hq Eh Hf HV'. by eapply HQ.
Qed.

(** ** [log_write] *)

Lemma absorb_from_wp s L b i k (Q : Z -> kst C X -> Prop) :
  logged s L -> loggable L -> (i + k = length L)%nat ->
  (forall j, L !! j = Some b -> Q (Z.of_nat j) s) ->
  ((b ∉ drop i L) -> Q (Z.of_nat (length L)) s) ->
  wp (absorb_from b (Z.of_nat i) k) s Q.
Proof.
  intros Hl Hg. revert i. induction k as [|k IH]; intros i Hk HQ HQ'; cbn [absorb_from].
  - wp_step. replace i with (length L) by lia. apply HQ'. rewrite drop_ge by lia. set_solver.
  - destruct (lookup_lt_is_Some_2 L i ltac:(lia)) as [x Hx]. wp_step.
    apply (get_block_wp s L i x); [done|done|done|].
    destruct (loggable_range _ Hg) as [Hr _]. rewrite u32_id by exact (Forall_lookup_1 _ _ _ _ Hr Hx).
    destruct (x =? b) eqn:E; bool_to_prop.
    + wp_step. apply HQ. by rewrite <- E.
    + replace (Z.of_nat i + 1) with (Z.of_nat (S i)) by lia. apply IH; [lia|done|].
      intros Hd. apply HQ'. rewrite (drop_S _ _ _ Hx). set_solver.
Qed.

Lemma loggable_snoc L b : loggable L -> home b -> (b ∉ L) -> nlog <= LOGSIZE ->
  Z.of_nat (length L) < nlog - 1 -> loggable (L ++ [b]).
Proof.
  intros [Hn Hh Hs Hm] Hb Hnb Hnl Hlt. change LOGSIZE with 30 in Hnl. split.
  - apply NoDup_app. split; [done|]. split; [set_solver|apply NoDup_singleton].
  - apply Forall_app. by rewrite Forall_singleton.
  - rewrite length_app. cbn. lia.
  - change (Z.to_nat LOGSIZE) with 30%nat. rewrite length_app. cbn. lia.
Qed.

Lemma pinned_snoc a L b : pinned a L -> (b ∉ L) -> pinned (a_pin b a) (L ++ [b]).
Proof.
  intros Hp Hb c. unfold a_pin. cbn. rewrite (pinned_pins a L b Hp), (decide_False (P := b ∈ L)) by done.
  rewrite lookup_insert. case_decide as E.
  - subst c. rewrite decide_True by set_solver. done.
  - rewrite Hp. destruct (decide (c ∈ L)).
    + by rewrite decide_True by set_solver.
    + by rewrite decide_False by set_solver.
Qed.

Lemma logged_snoc s L b : logged s L ->
  logged (Kst (k_bc s) (with_n (lh_n (k_log s) + 1)
    (with_block (<[Z.of_nat (length L) := b]> (lh_block (k_log s))) (k_log s))) (k_ext s)) (L ++ [b]).
Proof.
  intros [H1 H2 H3 H4 H5]. split; cbn; try done.
  - rewrite H4, length_app. cbn. lia.
  - intros i c Hi. destruct (decide (i < length L)%nat).
    + rewrite lookup_app_l in Hi by done. rewrite lookup_insert_ne by lia. by apply H5.
    + pose proof (lookup_lt_Some _ _ _ Hi) as Hlt. rewrite length_app in Hlt. cbn in Hlt.
      assert (i = length L) as -> by lia. rewrite lookup_app_r, Nat.sub_diag in Hi by lia.
      injection Hi as ->. by rewrite lookup_insert_eq.
Qed.

Lemma log_write_wp s a L i b (Q : unit -> kst C X -> Prop) :
  crep (k_bc s) a -> logged s L -> loggable L -> pinned a L -> a_held a !! i = Some b -> home b ->
  nlog <= LOGSIZE -> Z.of_nat (length L) < nlog - 1 -> 1 <= outstanding (k_log s) ->
  (forall c' l' a' L', let s' := Kst c' l' (k_ext s) in
     crep c' a' -> logged s' L' -> loggable L' -> pinned a' L' -> outstanding l' = outstanding (k_log s) ->
     committing l' = committing (k_log s) ->
     L' = (if decide (b ∈ L) then L else L ++ [b]) -> a' = (if decide (b ∈ L) then a else a_pin b a) ->
     Q tt s') ->
  wp (log_write i) s Q.
Proof.
  intros Hc Hl Hg Hp Hi Hb Hnl Hlen Ho HQ. unfold log_write. wp_step. wp_step.
  rewrite (ld_n _ _ Hl), (ld_size _ _ Hl). rewrite !Z.geb_leb.
  pose proof (lg_max _ Hg) as Hmax.
  assert (Z.of_nat (length L) < LOGSIZE) as Hlt by (unfold LOGSIZE, MAXOPBLOCKS in *; lia).
  rewrite (proj2 (Z.leb_gt _ _)), (proj2 (Z.leb_gt _ _)) by lia. cbn [orb].
  rewrite (proj2 (Z.ltb_ge _ _)) by lia.
  wp_step. apply wp_lift. eapply bblockno_spec; [exact Hc|exact Hi|]. destruct s as [c l x]. cbn [k_bc k_log k_ext] in *.
  wp_step. rewrite Nat2Z.id.
  assert (forall j : nat, (j <= length L)%nat -> in_block (Z.of_nat j) = true) as Hin.
  { intros j Hj. unfold in_block. rewrite (proj2 (Z.leb_le _ _)), (proj2 (Z.ltb_lt _ _)) by lia. done. }
  apply (absorb_from_wp _ L b 0); [done|done|done| |].
  - intros j Hj. pose proof (lookup_lt_Some _ _ _ Hj). wp_step. unfold set_block. rewrite Hin by lia. apply wp_modify.
    rewrite (proj2 (Z.eqb_neq _ _)) by lia. wp_step. cbn.
    assert (b ∈ L) as HbL by by eapply list_elem_of_lookup_2.
    apply (HQ c _ a L); [done| |done|done|done|done|by rewrite decide_True|by rewrite decide_True].
    destruct Hl as [H1 H2 H3 H4 H5]. split; cbn; try done. intros k d Hk. rewrite lookup_insert.
    destruct (decide (Z.of_nat j = Z.of_nat k)) as [E|E].
    + assert (j = k) as <- by lia. rewrite i32_id by apply Hb. congruence.
    + by apply H5.
  - intros HbL. rewrite drop_0 in HbL. wp_step. unfold set_block. rewrite Hin by lia. apply wp_modify.
    rewrite Z.eqb_refl. wp_step. apply wp_lift. cbn. eapply bpin_spec; [exact Hc|exact Hi|]. intros c' Hc'.
    apply wp_modify. cbn. apply (HQ c' _ (a_pin b a) (L ++ [b])); [done| |by apply loggable_snoc|by apply pinned_snoc|done|done|by rewrite decide_False|by rewrite decide_False].
    rewrite i32_id by apply Hb. pose proof (ld_n _ _ Hl) as En. cbn in En.
    replace (Z.of_nat (length L) + 1) with (lh_n l + 1) by lia. exact (logged_bc _ _ c' x (logged_snoc _ _ b Hl)).
Qed.

(** ** Crash atomicity *)

(** A commit is atomic with respect to crashes.  Of all the disks that exist
    during [commit] (one per block written), the older ones recover to the file
    system before the transaction and all later ones to the file system with
    the whole transaction; at the end the blocks are at home, the log is empty
    and no buffer is pinned.  [commit] does not panic. *)
Theorem commit_atomic s a L :
  crep (k_bc s) a -> logged s L -> loggable L -> pinned a L -> a_held a = ∅ ->
  hdr_n (dget (a_disk a) start) = 0 ->
  wp commit s (fun _ s' => exists a' hnew hold,
     quiet s' a' /\
     (forall b, ~ in_log b -> dget (a_disk a') b = dget (a_view a) b /\
                              dget (a_view a') b = dget (a_view a) b) /\
     a_hist a' = hnew ++ hold ++ a_hist a /\
     Forall (fun d => recovers_to d (dget (a_disk a))) hold /\
     Forall (fun d => recovers_to d (dget (a_view a))) hnew).
Proof using Hlog.
  intros Hc Hl Hg Hp Hh Hn. apply (commit_wp s a L); try done.
  intros c' a' hnew hold s' Hq Hv Ehist Hold Hnew. by exists a', hnew, hold.
Qed.

(** ** Several operations in one transaction *)

(** Read, log and release the blocks [bs]. *)
Fixpoint touch (bs : list Z) : M (kst C X) unit :=
  match bs with
  | [] => mret tt
  | b :: bs =>
      i ← lift (bread ROOTDEV b);
      log_write i;;
      lift (brelse i);;
      touch bs
  end.

(** The state inside a transaction. *)
Record active s a L : Prop := {
  ac_crep : crep (k_bc s) a;
  ac_log : logged s L;
  ac_ok : loggable L;
  ac_pins : pinned a L;
  ac_held : a_held a = ∅
}.

Lemma bread_active s a L b (Q : Z -> kst C X -> Prop) :
  active s a L ->
  (forall i c', crep c' (a_lock i b a) -> Q i (Kst c' (k_log s) (k_ext s))) ->
  wp (lift (bread ROOTDEV b)) s Q.
Proof.
  intros [Hc Hl Hg Hp Hh] HQ. apply wp_lift. eapply bread_spec; [exact Hc|by intros j; rewrite Hh| |].
  - pose proof (lg_max _ Hg) as Hmax. change (Z.to_nat LOGSIZE) with 30%nat in Hmax.
    apply (room_list _ _ (b :: L)); [|left|cbn; lia]. intros x Hx%(pinned_busy a L Hp Hh). by right.
  - intros i c' _ Hc'. by apply HQ.
Qed.

(** The end of every change of a block: it is logged and released. *)
Lemma log_release_wp s a L i b v c (Q : unit -> kst C X -> Prop) :
  active s a L -> home b -> nlog <= LOGSIZE -> Z.of_nat (length L) < nlog - 1 ->
  1 <= outstanding (k_log s) ->
  crep c (Acache v (a_disk a) (a_pins a) {[i := b]} (a_hist a)) ->
  (forall c' l' a' L', let s' := Kst c' l' (k_ext s) in
     active s' a' L' -> outstanding l' = outstanding (k_log s) -> committing l' = committing (k_log s) ->
     L' = (if decide (b ∈ L) then L else L ++ [b]) ->
     a_view a' = v -> a_disk a' = a_disk a -> a_hist a' = a_hist a -> Q tt s') ->
  wp (log_write i;; lift (brelse i)) (Kst c (k_log s) (k_ext s)) Q.
Proof.
  intros [Hc Hl Hg Hp Hh] Hb Hnl Hlen Hout Hc1 HQ. wp_step.
  set (a1 := Acache v (a_disk a) (a_pins a) {[i := b]} (a_hist a)) in *.
  apply (log_write_wp (Kst c (k_log s) (k_ext s)) a1 L i b); try done.
  { by apply logged_bc. }
  { by cbn; rewrite lookup_singleton_eq. }
  intros c' l' a' L' s' Hc' Hl' Hg' Hp' Eo Ec EL Ea. apply wp_lift.
  assert (a_view a' = v /\ a_disk a' = a_disk a /\ a_hist a' = a_hist a /\ a_held a' = {[i := b]}) as (E1 & E2 & E3 & E4)
    by (rewrite Ea; by case_decide).
  eapply (brelse_spec _ _ i b); [exact Hc'|by rewrite E4, lookup_singleton_eq| |].
  { left. rewrite (pinned_pins a' L' b Hp'), decide_True; [lia|]. rewrite EL.
    destruct (decide (b ∈ L)); set_solver. }
  intros c2 Hc2. apply (HQ c2 l' (a_unlock i a') L'); try done.
  split; [done|by destruct Hl'; split|done|done|]. cbn. by rewrite E4, delete_singleton_eq.
Qed.

(** A block that is only read. *)
Lemma release_wp s a L i b c (Q : unit -> kst C X -> Prop) :
  active s a L -> crep c (Acache (a_view a) (a_disk a) (a_pins a) {[i := b]} (a_hist a)) ->
  (forall c', active (Kst c' (k_log s) (k_ext s)) a L -> Q tt (Kst c' (k_log s) (k_ext s))) ->
  wp (lift (brelse i)) (Kst c (k_log s) (k_ext s)) Q.
Proof.
  intros [Hc Hl Hg Hp Hh] Hc1 HQ. apply wp_lift.
  eapply (brelse_spec _ _ i b); [exact Hc1|by cbn; rewrite lookup_singleton_eq| |].
  { destruct (decide (b ∈ busy a)) as [Hb|Hb]; [left|right; by apply (crep_clean _ _ _ Hc)].
    rewrite (pinned_busy a L Hp Hh) in Hb. change (pins (Acache (a_view a) (a_disk a) (a_pins a) {[i := b]} (a_hist a)) b) with (pins a b).
    rewrite (pinned_pins a L b Hp), decide_True by done. lia. }
  intros c2 Hc2. apply HQ. split; [|by apply logged_bc|done|done|done].
  eapply crep_eq; [exact Hc2|]. destruct a. cbn in *. subst. unfold a_unlock. cbn. by rewrite delete_singleton_eq.
Qed.

Lemma lock_active a i b : a_held a = ∅ ->
  a_lock i b a = Acache (a_view a) (a_disk a) (a_pins a) {[i := b]} (a_hist a).
Proof. intros E. unfold a_lock. by rewrite E, insert_empty. Qed.

Lemma touch_wp bs s a L (Q : unit -> kst C X -> Prop) :
  active s a L -> Forall home bs -> NoDup (L ++ bs) -> nlog <= LOGSIZE ->
  Z.of_nat (length (L ++ bs)) <= nlog - 1 -> 1 <= outstanding (k_log s) ->
  (forall c' l' a', let s' := Kst c' l' (k_ext s) in active s' a' (L ++ bs) ->
     outstanding l' = outstanding (k_log s) -> Q tt s') ->
  wp (touch bs) s Q.
Proof.
  revert s a L. induction bs as [|b bs IH]; intros s a L Ha Hb Hn Hnl Hlen Hout HQ; cbn [touch].
  - wp_step. destruct s as [c l x]. rewrite app_nil_r in HQ. by eapply HQ.
  - apply Forall_cons in Hb as [Hb Hbs]. wp_step. apply (bread_active s a L b _ Ha). intros i c Hc.
    rewrite lock_active in Hc by apply Ha. apply wp_bind_assoc, wp_bind.
    assert (b ∉ L) as HbL.
    { intros E. apply NoDup_app in Hn as (_ & Hd & _). apply (Hd b E). left. }
    rewrite length_app in Hlen. cbn in Hlen.
    apply (log_release_wp s a L i b (a_view a)); try done; [lia|].
    intros c' l' a' L' s' Ha' Eo Ec EL _ _ _. rewrite decide_False in EL by done. subst L'.
    apply (IH s' a' (L ++ [b])); try done.
    + by rewrite <- app_assoc.
    + rewrite <- app_assoc. rewrite length_app. cbn. lia.
    + cbn. lia.
    + intros c2 l2 a2 s2 Ha2 Eo2. rewrite <- app_assoc in Ha2. apply (HQ c2 l2 a2); [done|]. cbn in Eo2. lia.
Qed.

(** C35: the reservation of [begin_op] is larger than the log.  Three operations
    of [MAXOPBLOCKS] blocks each are admitted when the log is empty, because
    [begin_op] compares with [LOGSIZE]; but one of the [LOGSIZE] log blocks is
    the header, so the last of the 30 blocks makes [log_write] panic. *)
Theorem log_reservation_panic s a bs b :
  nlog = LOGSIZE -> quiet s a -> outstanding (k_log s) = 0 -> committing (k_log s) = false ->
  Forall home bs -> NoDup bs -> length bs = 29%nat ->
  (begin_op;; begin_op;; begin_op;; touch bs;; touch [b]) s = Panic "too big a transaction".
Proof using Hlog.
  intros Hnl [Hc Hl Hp Hh Hhdr] Eo Ec Hb Hn Hlen.
  pose proof (ld_n _ _ Hl) as En. cbn in En. destruct s as [c [st sz o cm dv n bl] x]. cbn in *. subst o cm n.
  assert (forall o, 0 <= o <= 2 -> begin_op (Kst c (Log st sz o false dv 0 bl) x) =
    Ok tt (Kst c (Log st sz (o + 1) false dv 0 bl) x)) as Hbegin.
  { intros o Ho. unfold begin_op, begin_op_try, mbind, M_bind, gets. cbn [k_log committing lh_n outstanding].
    rewrite Z.gtb_ltb, (proj2 (Z.ltb_ge _ _)); [done|]. unfold LOGSIZE, MAXOPBLOCKS. lia. }
  unfold mbind, M_bind at 1. rewrite Hbegin by lia. unfold M_bind at 1. rewrite Hbegin by lia.
  unfold M_bind at 1. rewrite Hbegin by lia. cbn [Z.add Pos.add].
  set (s3 := Kst c (Log st sz _ _ _ _ _) x). unfold M_bind at 1.
  assert (active s3 a []) as Ha by (split; [done|by destruct Hl; split|apply loggable_nil|done|done]).
  assert (wp (touch bs) s3 (fun _ s' => exists a', active s' a' bs)) as Hw.
  { apply (touch_wp bs s3 a []); try done; [by rewrite Hnl| |intros c' l' a' s' Ha' _; by exists a'].
    cbn. rewrite Hlen, Hnl. done. }
  apply wp_elim in Hw as ([] & s4 & -> & a4 & Ha4). cbn [touch]. unfold M_bind at 1.
  assert (wp (lift (bread ROOTDEV b)) s4 (fun i s' => k_log s' = k_log s4)) as Hr
    by (by apply (bread_active s4 a4 bs b _ Ha4)).
  apply wp_elim in Hr as (i & s5 & -> & E5). unfold M_bind at 1, log_write, mbind, M_bind at 1, gets.
  destruct Ha4 as [_ Hl4 _ _ _]. rewrite E5, (ld_n _ _ Hl4), (ld_size _ _ Hl4), Hlen, Hnl. done.
Qed.
End Spec.
