(* ===== verification/LogCrash.v ===== *)
(** * Crashes and recovery of the file system

    The log of [Log] on the buffer cache of [Bio]: [boot] is what the kernel
    does with the disk before it runs file-system code ([binit] and [initlog]).
    A crash leaves the disk as it was after some write; the kernel boots again,
    and may crash again while it recovers ([crashes]). *)

From S2P Require Import Prelude Riscv Mem BufCache Bio Log.

Abbreviation kstate := (kst bcache unit).

Definition log0 : log := Log 0 0 0 false 0 0 ∅.
Definition fresh (d : diskT) : kstate := Kst (bio0 d) log0 tt.
Definition boot (start nlog : Z) : M kstate unit :=
  lift binit;;
  initlog ROOTDEV start nlog.

(** A boot from disk [d] that is cut at disk [d']. *)
Definition crashes (start nlog : Z) (d d' : diskT) : Prop :=
  exists s, boot start nlog (fresh d) = Ok tt s /\ d' ∈ d :: hist (k_bc s).

Section Recovery.
Context (start nlog : Z) (Hlog : 0 <= start /\ 1 <= nlog /\ start + nlog < 2 ^ 31).

Lemma boot_wp d V : recovers_to start nlog d V ->
  wp (boot start nlog) (fresh d) (fun _ s => exists a, quiet start nlog s a /\
    outstanding (k_log s) = 0 /\ committing (k_log s) = false /\
    Forall (fun d' => recovers_to start nlog d' V) (hist (k_bc s)) /\
    forall b, ~ in_log start nlog b -> dget (a_disk a) b = V b /\ dget (a_view a) b = V b).
Proof using Hlog.
  intros HV. unfold boot. wp_step. apply wp_lift.
  eapply wp_mono; [apply binit_empty|]. intros [] c Hc. unfold initlog. wp_step; [done|].
  wp_step. apply wp_modify.
  eapply (recover_wp start nlog Hlog _ (Acache d d ∅ ∅ [])); [exact Hc|by split|done|done|exact HV|].
  intros c' a' h l' s' Hq Eh Hf HV' Eo Ec. exists a'. cbn in *.
  split; [done|]. split; [done|]. split; [done|]. split; [|done].
  destruct (q_crep _ _ _ _ Hq) as [_ Hb]. cbn in Hb. rewrite <- (r_hist _ _ Hb), Eh, app_nil_r. done.
Qed.

Lemma crashes_recover d V d' : recovers_to start nlog d V -> rtc (crashes start nlog) d d' ->
  recovers_to start nlog d' V.
Proof using Hlog.
  intros HV H. induction H as [d|d d1 d2 (s & E & Hin) _ IH]; [done|]. apply IH.
  pose proof (wp_ok _ _ _ _ _ (boot_wp d V HV) E) as Hw. destruct Hw as (a & _ & _ & _ & Hf & _). apply elem_of_cons in Hin as [->|Hin]; [done|].
  by apply (proj1 (Forall_forall _ _) Hf).
Qed.

(** Recovery is idempotent.  From a disk that a crash has left, booting any
    number of times, each time crashing at any write of the recovery, and then
    booting once to the end, gives the file system that the first disk stands
    for: the same blocks, an empty log, nothing pinned. *)
Theorem recovery_idempotent d V d' :
  recovers_to start nlog d V -> rtc (crashes start nlog) d d' ->
  wp (boot start nlog) (fresh d') (fun _ s => exists a, quiet start nlog s a /\
    forall b, ~ in_log start nlog b -> dget (a_disk a) b = V b /\ dget (a_view a) b = V b).
Proof using Hlog.
  intros HV H. eapply wp_mono; [apply (boot_wp d' V); by eapply crashes_recover|].
  cbn. intros [] s (a & Hq & _ & _ & _ & HV'). by exists a.
Qed.

(** C4: a transaction is all or nothing.  If the machine stops at any disk
    write of [end_op]'s commit (or just before it) and recovers, with any
    number of further crashes, the file system has either none of the blocks
    of the transaction or all of them. *)
Theorem transaction_all_or_nothing (s s' : kstate) a L new d d' :
  crep (k_bc s) a -> logged start nlog s L -> loggable start nlog L -> pinned a L -> a_held a = ∅ ->
  hdr_n (dget (a_disk a) start) = 0 ->
  commit s = Ok tt s' -> hist (k_bc s') = new ++ hist (k_bc s) -> d ∈ a_disk a :: new -> rtc (crashes start nlog) d d' ->
  wp (boot start nlog) (fresh d') (fun _ s => exists a1, quiet start nlog s a1 /\
    ((forall b, ~ in_log start nlog b -> dget (a_view a1) b = dget (a_disk a) b) \/
     (forall b, ~ in_log start nlog b -> dget (a_view a1) b = dget (a_view a) b))).
Proof using Hlog.
  intros Hc Hl Hg Hp Hh Hn E En Hd Hcr.
  assert (wp commit s (fun _ s' => exists h, hist (k_bc s') = h ++ hist (k_bc s) /\
    Forall (fun d => recovers_to start nlog d (dget (a_disk a)) \/
                     recovers_to start nlog d (dget (a_view a))) h)) as Hw.
  { apply (commit_wp start nlog Hlog s a L); try done. intros c a' hnew hold s1 Hq _ Eh Ho Hnw.
    destruct (q_crep _ _ _ _ Hq) as [_ Hb]. cbn in Hb. exists (hnew ++ hold). split.
    { cbn. destruct Hc as [_ Hb0]. by rewrite <- (r_hist _ _ Hb), Eh, app_assoc, (r_hist _ _ Hb0). }
    apply Forall_app. split; eapply Forall_impl; [exact Hnw|by right|exact Ho|by left]. }
  apply (wp_ok _ _ _ _ _ Hw) in E as (h & Eh & Hf). clear Hw. rewrite Eh in En. apply app_inv_tail in En as ->.
  assert (recovers_to start nlog d (dget (a_disk a)) \/ recovers_to start nlog d (dget (a_view a))) as [HV|HV].
  { apply elem_of_cons in Hd as [->|Hd]; [left; by apply recovers_empty|].
    by apply (proj1 (Forall_forall _ _) Hf). }
  all: eapply wp_mono; [eapply boot_wp, crashes_recover; [exact HV|exact Hcr]|].
  all: cbn; intros [] s1 (a1 & Hq & _ & _ & _ & HV1); exists a1; split; [done|].
  - left. intros b Hb. by apply HV1.
  - right. intros b Hb. by apply HV1.
Qed.
End Recovery.

(** ** Example: one block in a transaction *)

Definition newdata : block := {[0 := 1]}.

Lemma ex_log : 0 <= 2 /\ 1 <= 30 /\ 2 + 30 < 2 ^ 31.
Proof. lia. Qed.

Lemma ex_empty : recovers_to 2 30 ∅ (fun _ => ∅).
Proof. by apply (recovers_empty 2 30 ex_log). Qed.

(** Block 50 is changed inside a transaction. *)
Lemma ex_active : exists (s : kstate) a, active 2 30 s a [50] /\
  hdr_n (dget (a_disk a) 2) = 0 /\ dget (a_view a) 50 = newdata /\ dget (a_disk a) 50 = ∅.
Proof.
  pose proof (boot_wp 2 30 ex_log ∅ _ ex_empty) as (u & s & E & a & Hq & Eo & Ec & _ & HV)%wp_elim.
  clear E u. destruct Hq as [Hc Hl Hp Hh Hn].
  destruct (HV 50 ltac:(unfold in_log; lia)) as [E50 _].
  set (s1 := Kst (k_bc s) (with_out 1 (k_log s)) (k_ext s)).
  assert (active 2 30 s1 a []) as Ha by (split; [done|by destruct Hl; split|by apply loggable_nil, ex_log|done|done]).
  assert (wp (i ← lift (bread ROOTDEV 50); lift (bset i newdata);; (log_write i;; lift (brelse i))) s1
    (fun _ s' => exists a', active 2 30 s' a' [50] /\ a_view a' = <[50 := newdata]> (a_view a) /\ a_disk a' = a_disk a)) as Hw.
  { wp_step. apply (bread_active 2 30 s1 a [] 50 _ Ha). intros i c1 Hc1. rewrite lock_active in Hc1 by apply Ha.
    wp_step. apply wp_lift. eapply bset_spec; [exact Hc1|by cbn; rewrite lookup_singleton_eq|]. intros c2 Hc2.
    apply (log_release_wp 2 30 ex_log s1 a [] i 50 (<[50 := newdata]> (a_view a))); try done.
    { unfold home, in_log; lia. }
    intros c' l' a' L' s' Ha' _ _ EL Ev Ed _. exists a'. cbn in EL. subst L'. done. }
  apply wp_elim in Hw as (u' & s' & _ & a' & Ha' & Ev & Ed). exists s', a'. split; [done|].
  rewrite Ed, Ev, dget_insert, decide_True by done. done.
Qed.

Lemma recovery_idempotent_witness :
  wp (boot 2 30) (fresh ∅) (fun _ s => exists a, quiet 2 30 s a /\
    forall b, ~ in_log 2 30 b -> dget (a_disk a) b = ∅ /\ dget (a_view a) b = ∅).
Proof. exact (recovery_idempotent 2 30 ex_log ∅ (fun _ => ∅) ∅ ex_empty (rtc_refl _ _)). Defined.

Lemma commit_atomic_witness : exists (s : kstate) a,
  dget (a_view a) 50 <> dget (a_disk a) 50 /\
  wp commit s (fun _ s' => exists a' hnew hold,
     quiet 2 30 s' a' /\
     (forall b, ~ in_log 2 30 b -> dget (a_disk a') b = dget (a_view a) b /\
                                   dget (a_view a') b = dget (a_view a) b) /\
     a_hist a' = hnew ++ hold ++ a_hist a /\
     Forall (fun d => recovers_to 2 30 d (dget (a_disk a))) hold /\
     Forall (fun d => recovers_to 2 30 d (dget (a_view a))) hnew).
Proof.
  destruct ex_active as (s & a & [Hc Hl Hg Hp Hh] & Hn & Ev & Ed). exists s, a. split.
  - rewrite Ev, Ed. discriminate.
  - exact (commit_atomic 2 30 ex_log s a [50] Hc Hl Hg Hp Hh Hn).
Defined.

Lemma transaction_all_or_nothing_witness : exists (s s' : kstate) a d,
  dget (a_view a) 50 <> dget (a_disk a) 50 /\ commit s = Ok tt s' /\
  wp (boot 2 30) (fresh d) (fun _ s => exists a1, quiet 2 30 s a1 /\
    ((forall b, ~ in_log 2 30 b -> dget (a_view a1) b = dget (a_disk a) b) \/
     (forall b, ~ in_log 2 30 b -> dget (a_view a1) b = dget (a_view a) b))).
Proof.
  destruct ex_active as (s & a & [Hc Hl Hg Hp Hh] & Hn & Ev & Ed).
  assert (wp commit s (fun _ s' => exists h, hist (k_bc s') = h ++ hist (k_bc s))) as Hw.
  { apply (commit_wp 2 30 ex_log s a [50] _ Hc Hl Hg Hp Hh Hn). intros c a' hn ho s1 Hq _ Eh _ _.
    destruct (q_crep _ _ _ _ Hq) as [_ Hb]. destruct Hc as [_ Hb0]. exists (hn ++ ho). cbn in Hb. cbn.
    rewrite <- (r_hist _ _ Hb), Eh, app_assoc, (r_hist _ _ Hb0). reflexivity. }
  apply wp_elim in Hw as ([] & s' & E & new & En). exists s, s', a, (a_disk a). split.
  - rewrite Ev, Ed. discriminate.
  - split; [exact E|].
    exact (transaction_all_or_nothing 2 30 ex_log s s' a [50] new (a_disk a) (a_disk a)
      Hc Hl Hg Hp Hh Hn E En (list_elem_of_here _ _) (rtc_refl _ _)).
Defined.

Lemma log_reservation_panic_witness : exists s : kstate,
  (begin_op;; begin_op;; begin_op;; touch (map (fun i => Z.of_nat i) (seq 100 29));; touch [129]) s =
  Panic "too big a transaction".
Proof.
  destruct (wp_elim _ _ _ (boot_wp 2 30 ex_log ∅ _ ex_empty)) as (u & s & E & a & Hq & Eo & Ec & _).
  clear E u. exists s.
  refine (log_reservation_panic 2 30 ex_log s a (map (fun i => Z.of_nat i) (seq 100 29)) 129 eq_refl Hq Eo Ec _ _ eq_refl).
  - apply Forall_fmap, Forall_seq. intros j Hj. unfold home, in_log. cbn. lia.
  - apply NoDup_fmap_2_strong; [intros x y _ _; lia|apply NoDup_seq].
Defined.
