(* ===== verification/LogOps.v ===== *)
(** * Concurrent file-system operations on the log

    [begin_op], [log_write] and the two critical sections of [end_op] run under
    [log.lock], so calls of several processes interleave at their granularity:
    [lstep].  [log_space] shows that the reservations add up. *)

From S2P Require Import Prelude Riscv Mem BufCache Log.

(** Where a process is.  [Active u]: inside an operation that has added [u]
    blocks to the log; [Commit]: [end_op] has set [committing]. *)
Inductive lpc := Idle | Active (u : Z) | Commit.

Section Ops.
Context {C X : Type} `{!BufCache C}.
Implicit Types (s : kst C X) (T : list lpc).

(** A process may do other things with buffers and with the rest of the state;
    it keeps to the limit of [MAXOPBLOCKS] blocks per operation. *)
Inductive lstep : kst C X * list lpc -> kst C X * list lpc -> Prop :=
| ls_begin k s s' T ok :
    T !! k = Some Idle -> begin_op_try s = Ok ok s' ->
    lstep (s, T) (s', if (ok : bool) then <[k := Active 0]> T else T)
| ls_write k u i s s' T :
    T !! k = Some (Active u) -> log_write i s = Ok tt s' ->
    u + (lh_n (k_log s') - lh_n (k_log s)) <= MAXOPBLOCKS ->
    lstep (s, T) (s', <[k := Active (u + (lh_n (k_log s') - lh_n (k_log s)))]> T)
| ls_end k u s s' T do_commit :
    T !! k = Some (Active u) -> end_op_dec s = Ok do_commit s' ->
    lstep (s, T) (s', <[k := if (do_commit : bool) then Commit else Idle]> T)
| ls_commit k s s' T :
    T !! k = Some Commit -> (commit;; end_op_done) s = Ok tt s' ->
    lstep (s, T) (s', <[k := Idle]> T)
| ls_other s c x T :
    lstep (s, T) (Kst c (k_log s) x, T).

(** ** What the functions do to the log structure *)

(** [m] leaves the log structure alone. *)
Definition keeps {A} (m : M (kst C X) A) : Prop := forall s a s', m s = Ok a s' -> k_log s' = k_log s.

Lemma keeps_ret {A} (a : A) : keeps (mret a).
Proof. by intros s b s' [= _ <-]. Qed.
Lemma keeps_gets {A} (f : kst C X -> A) : keeps (gets f).
Proof. by intros s b s' [= _ <-]. Qed.
Lemma keeps_panic {A} msg : keeps (A := A) (panic msg).
Proof. by intros s b s'. Qed.
Lemma keeps_lift {A} (m : M C A) : keeps (lift m).
Proof. intros s a s'. unfold lift. destruct (m (k_bc s)); [|done..]. by intros [= _ <-]. Qed.
Lemma keeps_bind {A B} (m : M (kst C X) A) (f : A -> M (kst C X) B) :
  keeps m -> (forall a, keeps (f a)) -> keeps (m ≫= f).
Proof.
  intros Hm Hf s b s'. unfold mbind, M_bind. destruct (m s) as [a s1| |] eqn:E; [|done..].
  intros E'. rewrite (Hf a _ _ _ E'). by apply (Hm _ a).
Qed.
Lemma keeps_if {A} (b : bool) (m m' : M (kst C X) A) : keeps m -> keeps m' -> keeps (if b then m else m').
Proof. by destruct b. Qed.
#[local] Hint Resolve keeps_ret keeps_gets keeps_panic keeps_lift keeps_bind keeps_if : xv6.

Lemma keeps_get_block i : keeps (get_block i).
Proof. unfold get_block. auto with xv6. Qed.
#[local] Hint Resolve keeps_get_block : xv6.

Lemma keeps_write_from h i k : keeps (write_from h i k).
Proof. revert h i. induction k; intros h i; cbn [write_from]; auto with xv6. Qed.
Lemma keeps_install_from r i k : keeps (install_from r i k).
Proof. revert i. induction k; intros i; cbn [install_from]; unfold install_one; auto 12 with xv6. Qed.
Lemma keeps_write_log_from i k : keeps (write_log_from i k).
Proof. revert i. induction k; intros i; cbn [write_log_from]; unfold write_log_one; auto 12 with xv6. Qed.
#[local] Hint Resolve keeps_write_from keeps_install_from keeps_write_log_from : xv6.

Lemma keeps_write_head : keeps write_head.
Proof. unfold write_head. auto 10 with xv6. Qed.
Lemma keeps_commit_blocks : keeps (write_log;; write_head;; install_trans false).
Proof. unfold write_log, install_trans. pose proof keeps_write_head. auto 12 with xv6. Qed.

Lemma commit_log s s' : (commit;; end_op_done) s = Ok tt s' ->
  k_log s' = with_committing false (if lh_n (k_log s) >? 0 then with_n 0 (k_log s) else k_log s).
Proof.
  intros ([] & s1 & E & E')%bind_ok. injection E' as <-. cbn. f_equal. unfold commit in E.
  apply bind_ok in E as (n & s2 & [= <- <-] & E). destruct (_ >? 0); [|by injection E as <-].
  apply bind_ok in E as ([] & s3 & E3 & E). apply bind_ok in E as ([] & s4 & E4 & E).
  apply bind_ok in E as ([] & s5 & E5 & E). apply bind_ok in E as ([] & s6 & [= <-] & E).
  rewrite (keeps_write_head _ _ _ E). cbn. f_equal.
  apply (keeps_commit_blocks s tt). unfold mbind, M_bind. by rewrite E3, E4.
Qed.

Lemma keeps_absorb_from b i k : keeps (absorb_from b i k).
Proof. revert i. induction k; intros i; cbn [absorb_from]; auto with xv6. Qed.

Lemma log_write_log i s s' : log_write i s = Ok tt s' ->
  outstanding (k_log s') = outstanding (k_log s) /\ committing (k_log s') = committing (k_log s) /\
  (lh_n (k_log s') = lh_n (k_log s) \/ lh_n (k_log s') = lh_n (k_log s) + 1).
Proof.
  unfold log_write. intros (l & s1 & [= <- <-] & E)%bind_ok.
  destruct (_ || _); [done|]. destruct (_ <? 1); [done|].
  apply bind_ok in E as (b & s2 & E2 & E). apply bind_ok in E as (j & s3 & E3 & E).
  apply bind_ok in E as ([] & s4 & E4 & E). apply keeps_lift in E2. apply keeps_absorb_from in E3.
  unfold set_block in E4. destruct (in_block j); [|done]. injection E4 as <-.
  destruct (j =? _).
  - apply bind_ok in E as ([] & s5 & E5 & E). apply keeps_lift in E5. injection E as <-. cbn in *.
    rewrite E5. cbn. rewrite E3, E2. auto.
  - injection E as <-. cbn. rewrite E3, E2. auto.
Qed.

(** ** The invariant *)

Definition is_active (p : lpc) : Z := match p with Active _ => 1 | _ => 0 end.
Definition is_commit (p : lpc) : Z := match p with Commit => 1 | _ => 0 end.
(** What an operation may still add to the log. *)
Definition reserve (p : lpc) : Z := match p with Active u => MAXOPBLOCKS - u | _ => 0 end.

Record linv (l : log) T : Prop := {
  li_out : outstanding l = total is_active T;
  li_com : total is_commit T = if committing l then 1 else 0;
  li_excl : committing l = true -> outstanding l = 0;
  li_pos : 0 <= lh_n l;
  li_space : lh_n l + total reserve T <= LOGSIZE;
  li_used k u : T !! k = Some (Active u) -> 0 <= u <= MAXOPBLOCKS
}.

Lemma used_insert T k p :
  (forall k u, T !! k = Some (Active u) -> 0 <= u <= MAXOPBLOCKS) ->
  (forall u, p = Active u -> 0 <= u <= MAXOPBLOCKS) ->
  forall j u, <[k := p]> T !! j = Some (Active u) -> 0 <= u <= MAXOPBLOCKS.
Proof.
  intros H Hp j u Hj. apply list_lookup_insert_Some in Hj as [(-> & E & _)|[_ Hj]]; [by apply Hp|by eapply H].
Qed.

Lemma lstep_inv s T s' T' : lstep (s, T) (s', T') -> linv (k_log s) T -> linv (k_log s') T'.
Proof.
  intros H [Ho Hc Hx Hp Hs Hu]. inversion H as [k ? ? ? ok Hk E|k u i ? ? ? Hk E Hlim|k u ? ? ? dc Hk E|k ? ? ? Hk E|]; subst; clear H.
  - unfold begin_op_try in E. apply bind_ok in E as (l & s1 & [= <- <-] & E).
    destruct (committing (k_log s)) eqn:Ec; [injection E as <- <-; split; rewrite ?Ec; done|].
    destruct (_ >? _) eqn:El; [injection E as <- <-; split; rewrite ?Ec; done|].
    apply bind_ok in E as ([] & s2 & [= <-] & [= <- <-]). bool_to_prop.
    assert (total reserve T <= MAXOPBLOCKS * total is_active T) as Hr.
    { rewrite <- total_scale. apply total_le. intros j p Hj. destruct p; cbn; try lia. apply Hu in Hj. lia. }
    split; cbn; rewrite ?Ec; rewrite ?(total_insert _ _ _ _ _ Hk); cbn; try lia; try done.
    apply used_insert; [done|]. intros v [= <-]. unfold MAXOPBLOCKS. lia.
  - destruct (log_write_log _ _ _ E) as (E1 & E2 & E3). pose proof (Hu _ _ Hk).
    split; rewrite ?E1, ?E2, ?(total_insert _ _ _ _ _ Hk); cbn; try lia; try done.
    apply used_insert; [done|]. intros v [= <-]. lia.
  - unfold end_op_dec in E. apply bind_ok in E as (l & s1 & [= <- <-] & E).
    apply bind_ok in E as ([] & s2 & [= <-] & E). destruct (committing (k_log s)) eqn:Ec; [done|].
    pose proof (Hu _ _ Hk). destruct (_ =? 0) eqn:E0; bool_to_prop.
    + apply bind_ok in E as ([] & s3 & [= <-] & [= <- <-]).
      split; cbn; rewrite ?Ec; rewrite ?(total_insert _ _ _ _ _ Hk); cbn; try lia.
      apply used_insert; [done|]. done.
    + injection E as <- <-.
      split; cbn; rewrite ?Ec; rewrite ?(total_insert _ _ _ _ _ Hk); cbn; try lia.
      apply used_insert; [done|]. done.
  - assert (committing (k_log s) = true) as Ec.
    { pose proof (total_ge is_commit T k Commit ltac:(intros []; cbn; lia) Hk) as H. cbn in H.
      destruct (committing _); [done|lia]. }
    rewrite Ec in Hc. rewrite (commit_log _ _ E). destruct (_ >? 0) eqn:En; bool_to_prop.
    all: split; cbn; rewrite ?(total_insert _ _ _ _ _ Hk); cbn; try lia; try done.
    all: apply used_insert; done.
  - done.
Qed.

(** C22: the reservations of concurrent operations add up.  With any number of
    processes in [begin_op], [log_write] and [end_op] in any order, each adding
    at most [MAXOPBLOCKS] blocks per operation: the blocks in the log and those
    still reserved never exceed [LOGSIZE]; while a commit runs, no operation is
    active, so no block of the transaction changes under it; and [end_op] never
    finds a commit in progress, so its panic is unreachable. *)
Theorem log_space c l x n s T :
  outstanding l = 0 -> committing l = false -> lh_n l = 0 ->
  rtc lstep (Kst c l x, replicate n Idle) (s, T) ->
  0 <= lh_n (k_log s) /\ lh_n (k_log s) + total reserve T <= LOGSIZE /\
  (committing (k_log s) = true -> forall k u, T !! k <> Some (Active u)) /\
  (forall k u, T !! k = Some (Active u) -> exists do_commit s', end_op_dec s = Ok do_commit s').
Proof.
  intros E1 E2 E3 H. assert (linv (k_log s) T) as Hi.
  { remember (Kst c l x, replicate n Idle) as a eqn:Ea. remember (s, T) as b eqn:Eb.
    assert (linv (k_log a.1) a.2) as Hi.
    { subst a. cbn. split; rewrite ?total_replicate by done; rewrite ?E1, ?E2, ?E3; try done.
      by intros k u [? _]%lookup_replicate. }
    clear Ea. induction H as [a|[s1 T1] [s2 T2] b Hs _ IH]; [by subst|]. apply IH; [done|].
    by eapply lstep_inv. }
  destruct Hi as [Ho Hc Hx Hp Hs Hu]. split; [done|]. split; [done|].
  assert (forall k u, T !! k = Some (Active u) -> committing (k_log s) = false) as Hnc.
  { intros k u Hk. pose proof (total_ge is_active T k _ ltac:(intros []; cbn; lia) Hk) as H1. cbn in H1.
    destruct (committing (k_log s)) eqn:Ec; [pose proof (Hx eq_refl); lia|done]. }
  split.
  - intros Ec k u Hk. by rewrite (Hnc k u Hk) in Ec.
  - intros k u Hk. unfold end_op_dec, mbind, M_bind, gets, set_log, modify. rewrite (Hnc k u Hk).
    destruct (_ =? 0); by repeat eexists.
Qed.
End Ops.

(** A process begins an operation and ends it: the log is committed by it. *)
#[local] Instance no_cache : BufCache unit := {|
  bread := fun _ _ => mret 0; bwrite := fun _ => mret tt; brelse := fun _ => mret tt;
  bpin := fun _ => mret tt; bunpin := fun _ => mret tt; bdata := fun _ => mret ∅;
  bset := fun _ _ => mret tt; bblockno := fun _ => mret 50 |}.

Definition ex_l (o : Z) (c : bool) (n : Z) (m : gmap Z Z) : log := Log 2 30 o c 1 n m.

Lemma log_space_witness : exists (s : kst unit unit) T, T = [Commit; Idle] /\ committing (k_log s) = true /\ lh_n (k_log s) = 1 /\
  0 <= lh_n (k_log s) /\ lh_n (k_log s) + total reserve T <= LOGSIZE /\
  (committing (k_log s) = true -> forall k u, T !! k <> Some (Active u)) /\
  (forall k u, T !! k = Some (Active u) -> exists do_commit s', end_op_dec s = Ok do_commit s').
Proof.
  exists (Kst tt (ex_l 0 true 1 {[0 := 50]}) tt), [Commit; Idle].
  split; [reflexivity|]. split; [reflexivity|]. split; [reflexivity|].
  apply (log_space tt (ex_l 0 false 0 ∅) tt 2); [reflexivity..|].
  eapply rtc_l; [exact (ls_begin 0 (Kst tt (ex_l 0 false 0 ∅) tt) (Kst tt (ex_l 1 false 0 ∅) tt) [Idle; Idle] true eq_refl eq_refl)|].
  eapply rtc_l; [refine (ls_write 0 0 7 (Kst tt (ex_l 1 false 0 ∅) tt) (Kst tt (ex_l 1 false 1 {[0 := 50]}) tt) [Active 0; Idle] eq_refl eq_refl _);
    cbn; unfold MAXOPBLOCKS; lia|].
  eapply rtc_l; [exact (ls_end 0 1 (Kst tt (ex_l 1 false 1 {[0 := 50]}) tt) (Kst tt (ex_l 0 true 1 {[0 := 50]}) tt) [Active 1; Idle] true eq_refl eq_refl)|].
  apply rtc_refl.
Defined.
