(* ===== verification/Fs.v ===== *)
(** * kernel/fs.c and kernel/fs.h : blocks, inodes, directories, paths

    The functions of the file system, on any buffer cache with the interface
    [BufCache].  An inode pointer is an index into [itable.inode]; [None] is the
    null pointer.  [readi] and [writei] move data to or from user or kernel
    memory: [ok] says whether [either_copyout] of a chunk succeeds, and [src]
    gives the chunk that [either_copyin] fetches.  Strings are the bytes before
    the terminating 0. *)

From S2P Require Import Prelude Riscv Mem CString BufCache Log.

Definition ROOTINO : Z := 1.
Definition FSMAGIC : Z := 0x10203040.
Definition NDIRECT : Z := 12.
Definition NINDIRECT : Z := BSIZE / 4.
Definition MAXFILE : Z := NDIRECT + NINDIRECT.
Definition DINODE : Z := 64.            (* sizeof(struct dinode) *)
Definition IPB : Z := BSIZE / DINODE.
Definition BPB : Z := BSIZE * 8.
Definition DIRSIZ : Z := 14.
Definition DIRENT : Z := 16.            (* sizeof(struct dirent) *)
Definition T_DIR : Z := 1.
Definition T_FILE : Z := 2.
Definition T_DEVICE : Z := 3.

Record superblock := Superblock {
  sb_magic : Z;
  sb_size : Z;
  sb_nblocks : Z;
  sb_ninodes : Z;
  sb_nlog : Z;
  sb_logstart : Z;
  sb_inodestart : Z;
  sb_bmapstart : Z
}.

Definition IBLOCK (i : Z) (sb : superblock) : Z := u32 (i / IPB + sb_inodestart sb).
Definition BBLOCK (b : Z) (sb : superblock) : Z := u32 (b / BPB + sb_bmapstart sb).

Record inode := Inode {
  i_dev : Z;
  i_inum : Z;
  i_ref : Z;
  i_locked : bool;
  i_valid : bool;
  i_type : Z;
  i_major : Z;
  i_minor : Z;
  i_nlink : Z;
  i_size : Z;
  i_addrs : list Z
}.

Definition inode0 : inode := Inode 0 0 0 false false 0 0 0 0 0 (replicate 13 0).

(** The part of the state that fs.c owns, and the current directory of the
    running process. *)
Record fsx := Fsx { f_sb : superblock; f_itable : gmap Z inode; f_cwd : Z }.

(** ** The dinode at offset [o] of a block *)

Definition addr_get (ip : inode) (n : Z) : Z := nth (Z.to_nat n) (i_addrs ip) 0.
Definition addr_set (ip : inode) (n a : Z) : inode :=
  Inode (i_dev ip) (i_inum ip) (i_ref ip) (i_locked ip) (i_valid ip) (i_type ip) (i_major ip)
    (i_minor ip) (i_nlink ip) (i_size ip) (<[Z.to_nat n := a]> (i_addrs ip)).
Definition with_size (sz : Z) (ip : inode) : inode :=
  Inode (i_dev ip) (i_inum ip) (i_ref ip) (i_locked ip) (i_valid ip) (i_type ip) (i_major ip)
    (i_minor ip) (i_nlink ip) sz (i_addrs ip).
Definition with_type (t : Z) (ip : inode) : inode :=
  Inode (i_dev ip) (i_inum ip) (i_ref ip) (i_locked ip) (i_valid ip) t (i_major ip)
    (i_minor ip) (i_nlink ip) (i_size ip) (i_addrs ip).
Definition with_nlink (n : Z) (ip : inode) : inode :=
  Inode (i_dev ip) (i_inum ip) (i_ref ip) (i_locked ip) (i_valid ip) (i_type ip) (i_major ip)
    (i_minor ip) n (i_size ip) (i_addrs ip).
Definition with_dev (ma mi : Z) (ip : inode) : inode :=
  Inode (i_dev ip) (i_inum ip) (i_ref ip) (i_locked ip) (i_valid ip) (i_type ip) ma
    mi (i_nlink ip) (i_size ip) (i_addrs ip).
Definition with_ref (r : Z) (ip : inode) : inode :=
  Inode (i_dev ip) (i_inum ip) r (i_locked ip) (i_valid ip) (i_type ip) (i_major ip)
    (i_minor ip) (i_nlink ip) (i_size ip) (i_addrs ip).
Definition with_lock (l : bool) (ip : inode) : inode :=
  Inode (i_dev ip) (i_inum ip) (i_ref ip) l (i_valid ip) (i_type ip) (i_major ip)
    (i_minor ip) (i_nlink ip) (i_size ip) (i_addrs ip).
Definition with_valid (v : bool) (ip : inode) : inode :=
  Inode (i_dev ip) (i_inum ip) (i_ref ip) (i_locked ip) v (i_type ip) (i_major ip)
    (i_minor ip) (i_nlink ip) (i_size ip) (i_addrs ip).

Fixpoint load_addrs (d : block) (o : Z) (k : nat) : list Z :=
  match k with O => [] | S k => load32 d o :: load_addrs d (o + 4) k end.
Fixpoint store_addrs (d : block) (o : Z) (l : list Z) : block :=
  match l with [] => d | a :: l => store_addrs (store32 d o a) (o + 4) l end.

(** The assignments of [iupdate]. *)
Definition dinode_store (d : block) (o : Z) (ip : inode) : block :=
  let d := store16 d o (i_type ip) in
  let d := store16 d (o + 2) (i_major ip) in
  let d := store16 d (o + 4) (i_minor ip) in
  let d := store16 d (o + 6) (i_nlink ip) in
  let d := store32 d (o + 8) (i_size ip) in
  store_addrs d (o + 12) (i_addrs ip).
(** The assignments of [ilock]. *)
Definition dinode_load (d : block) (o : Z) (ip : inode) : inode :=
  Inode (i_dev ip) (i_inum ip) (i_ref ip) (i_locked ip) (i_valid ip)
    (i16 (load16 d o)) (i16 (load16 d (o + 2))) (i16 (load16 d (o + 4))) (i16 (load16 d (o + 6)))
    (load32 d (o + 8)) (load_addrs d (o + 12) 13).
Definition dinode_off (inum : Z) : Z := (inum mod IPB) * DINODE.

(** ** Bits of the free map *)

Definition bit_used (d : block) (bi : Z) : bool := Z.testbit (mget d (bi / 8)) (bi mod 8).
(** [bp->data[bi/8] |= m] and [bp->data[bi/8] &= ~m] *)
Definition bit_set (d : block) (bi : Z) : block :=
  store8 d (bi / 8) (Z.lor (mget d (bi / 8)) (Z.shiftl 1 (bi mod 8))).
Definition bit_clear (d : block) (bi : Z) : block :=
  store8 d (bi / 8) (Z.land (mget d (bi / 8)) (Z.lnot (Z.shiftl 1 (bi mod 8)))).
(** [for(bi = 0; bi < BPB && b + bi < sb.size; bi++) if free] *)
Fixpoint find_free (d : block) (size b bi : Z) (k : nat) : option Z :=
  match k with
  | O => None
  | S k =>
      if b + bi <? size then
        if bit_used d bi then find_free d size b (bi + 1) k else Some bi
      else None
  end.

Section Code.
Context {C : Type} `{!BufCache C}.
Abbreviation fstate := (kst C fsx).

Definition get_sb : M fstate superblock := gets (fun s => f_sb (k_ext s)).
Definition iat (s : fstate) (i : Z) : inode := default inode0 (f_itable (k_ext s) !! i).
Definition get_i (i : Z) : M fstate inode := gets (fun s => iat s i).
Definition set_ext (f : fsx -> fsx) : M fstate unit :=
  modify (fun s => Kst (k_bc s) (k_log s) (f (k_ext s))).
Definition upd_i (i : Z) (f : inode -> inode) : M fstate unit :=
  modify (fun s => Kst (k_bc s) (k_log s)
    (Fsx (f_sb (k_ext s)) (<[i := f (iat s i)]> (f_itable (k_ext s))) (f_cwd (k_ext s)))).

Definition readsb (dev : Z) : M fstate unit :=
  bp ← lift (bread dev 1);
  d ← lift (bdata bp);
  set_ext (fun x => Fsx (Superblock (load32 d 0) (load32 d 4) (load32 d 8) (load32 d 12) (load32 d 16)
                          (load32 d 20) (load32 d 24) (load32 d 28)) (f_itable x) (f_cwd x));;
  lift (brelse bp).

Definition fsinit (dev : Z) : M fstate unit :=
  readsb dev;;
  sb ← get_sb;
  if negb (sb_magic sb =? FSMAGIC) then panic "invalid file system"
  else initlog dev (sb_logstart sb) (sb_nlog sb).

Definition bzero (dev bno : Z) : M fstate unit :=
  bp ← lift (bread dev bno);
  d ← lift (bdata bp);
  lift (bset bp (memset d 0 0 BSIZE));;
  log_write bp;;
  lift (brelse bp).

(** One round of [balloc]'s outer loop. *)
Definition balloc_step (dev b : Z) : M fstate (Z + Z) :=
  sb ← get_sb;
  if b <? sb_size sb then
    bp ← lift (bread dev (BBLOCK b sb));
    d ← lift (bdata bp);
    match find_free d (sb_size sb) b 0 (Z.to_nat BPB) with
    | Some bi =>
        lift (bset bp (bit_set d bi));;
        log_write bp;;
        lift (brelse bp);;
        bzero dev (b + bi);;
        mret (inr (b + bi))
    | None =>
        lift (brelse bp);;
        mret (inl (b + BPB))
    end
  else mret (inr 0).
(** At most 2^32 / BPB = 2^19 rounds. *)
Definition balloc (dev : Z) : M fstate Z := loop (balloc_step dev) (2 ^ 20) 0.

Definition bfree (dev b : Z) : M fstate unit :=
  sb ← get_sb;
  bp ← lift (bread dev (BBLOCK b sb));
  d ← lift (bdata bp);
  let bi := b mod BPB in
  if negb (bit_used d bi) then panic "freeing free block"
  else
    lift (bset bp (bit_clear d bi));;
    log_write bp;;
    lift (brelse bp).

(** ** Inodes *)

(** The search of [iget]: the entry for the inode, or the first empty one. *)
Fixpoint iget_scan (t : gmap Z inode) (dev inum i : Z) (empty : option Z) (k : nat) : option Z + option Z :=
  match k with
  | O => inr empty
  | S k =>
      let ip := default inode0 (t !! i) in
      if (i_ref ip >? 0) && (i_dev ip =? dev) && (i_inum ip =? inum) then inl (Some i)
      else
        let empty := match empty with
                     | None => if i_ref ip =? 0 then Some i else None
                     | Some _ => empty
                     end in
        iget_scan t dev inum (i + 1) empty k
  end.
Definition iget (dev inum : Z) : M fstate Z :=
  t ← gets (fun s => f_itable (k_ext s));
  match iget_scan t dev inum 0 None (Z.to_nat NINODE) with
  | inl (Some i) => upd_i i (fun ip => with_ref (i_ref ip + 1) ip);; mret i
  | inl None => panic "unreachable"
  | inr None => panic "iget: no inodes"
  | inr (Some i) =>
      upd_i i (fun ip => Inode dev inum 1 (i_locked ip) false (i_type ip) (i_major ip) (i_minor ip)
                           (i_nlink ip) (i_size ip) (i_addrs ip));;
      mret i
  end.

Definition ialloc_step (dev type inum : Z) : M fstate (Z + option Z) :=
  sb ← get_sb;
  if inum <? sb_ninodes sb then
    bp ← lift (bread dev (IBLOCK inum sb));
    d ← lift (bdata bp);
    let o := dinode_off inum in
    if i16 (load16 d o) =? 0 then
      lift (bset bp (store16 (memset d o 0 DINODE) o type));;
      log_write bp;;
      lift (brelse bp);;
      ip ← iget dev inum;
      mret (inr (Some ip))
    else
      lift (brelse bp);;
      mret (inl (inum + 1))
  else mret (inr None).
Definition ialloc (dev type : Z) : M fstate (option Z) := loop (ialloc_step dev type) (2 ^ 33) 1.

Definition iupdate (i : Z) : M fstate unit :=
  ip ← get_i i;
  sb ← get_sb;
  bp ← lift (bread (i_dev ip) (IBLOCK (i_inum ip) sb));
  d ← lift (bdata bp);
  lift (bset bp (dinode_store d (dinode_off (i_inum ip)) ip));;
  log_write bp;;
  lift (brelse bp).

Definition idup (i : Z) : M fstate Z := upd_i i (fun ip => with_ref (i_ref ip + 1) ip);; mret i.

(** [initsleeplock] of every entry; entries that are not in the map are free. *)
Definition iinit : M fstate unit :=
  set_ext (fun x => Fsx (f_sb x) (with_lock false <$> f_itable x) (f_cwd x)).

(** A lock that is held would block a sequential run for ever. *)
Definition ilock_acquire (i : Z) : M fstate unit :=
  ip ← get_i i;
  if i_locked ip then panic "deadlock" else upd_i i (with_lock true).

Definition ilock (i : Z) : M fstate unit :=
  ip ← get_i i;
  if i_ref ip <? 1 then panic "ilock"
  else
    ilock_acquire i;;
    ip ← get_i i;
    if negb (i_valid ip) then
      sb ← get_sb;
      bp ← lift (bread (i_dev ip) (IBLOCK (i_inum ip) sb));
      d ← lift (bdata bp);
      upd_i i (dinode_load d (dinode_off (i_inum ip)));;
      lift (brelse bp);;
      upd_i i (with_valid true);;
      ip ← get_i i;
      if i_type ip =? 0 then panic "ilock: no type" else mret tt
    else mret tt.

Definition iunlock (i : Z) : M fstate unit :=
  ip ← get_i i;
  if negb (i_locked ip) || (i_ref ip <? 1) then panic "iunlock" else upd_i i (with_lock false).

(** ** Inode content *)

(** The second half of [bmap]: the entry of the indirect block. *)
Definition bmap_ind (dev ind bn : Z) : M fstate Z :=
  bp ← lift (bread dev ind);
  d ← lift (bdata bp);
  addr ← (let addr := load32 d (4 * bn) in
          if addr =? 0 then
            addr ← balloc dev;
            if negb (addr =? 0) then
              lift (bset bp (store32 d (4 * bn) addr));;
              log_write bp;;
              mret addr
            else mret addr
          else mret addr);
  lift (brelse bp);;
  mret addr.

Definition bmap (i bn : Z) : M fstate Z :=
  ip ← get_i i;
  if bn <? NDIRECT then
    let addr := addr_get ip bn in
    if addr =? 0 then
      addr ← balloc (i_dev ip);
      if addr =? 0 then mret 0
      else upd_i i (fun ip => addr_set ip bn addr);; mret addr
    else mret addr
  else
    let bn := bn - NDIRECT in
    if bn <? NINDIRECT then
      ind ← (let addr := addr_get ip NDIRECT in
             if addr =? 0 then
               addr ← balloc (i_dev ip);
               if addr =? 0 then mret 0
               else upd_i i (fun ip => addr_set ip NDIRECT addr);; mret addr
             else mret addr);
      if ind =? 0 then mret 0
      else
        bmap_ind (i_dev ip) ind bn
    else panic "bmap: out of range".

Fixpoint itrunc_direct (i n : Z) (k : nat) : M fstate unit :=
  match k with
  | O => mret tt
  | S k =>
      ip ← get_i i;
      (if negb (addr_get ip n =? 0) then
         bfree (i_dev ip) (addr_get ip n);;
         upd_i i (fun ip => addr_set ip n 0)
       else mret tt);;
      itrunc_direct i (n + 1) k
  end.
Fixpoint itrunc_indirect (dev : Z) (d : block) (j : Z) (k : nat) : M fstate unit :=
  match k with
  | O => mret tt
  | S k =>
      (if negb (load32 d (4 * j) =? 0) then bfree dev (load32 d (4 * j)) else mret tt);;
      itrunc_indirect dev d (j + 1) k
  end.
Definition itrunc (i : Z) : M fstate unit :=
  itrunc_direct i 0 (Z.to_nat NDIRECT);;
  ip ← get_i i;
  (if negb (addr_get ip NDIRECT =? 0) then
     bp ← lift (bread (i_dev ip) (addr_get ip NDIRECT));
     d ← lift (bdata bp);
     itrunc_indirect (i_dev ip) d 0 (Z.to_nat NINDIRECT);;
     lift (brelse bp);;
     bfree (i_dev ip) (addr_get ip NDIRECT);;
     upd_i i (fun ip => addr_set ip NDIRECT 0)
   else mret tt);;
  upd_i i (with_size 0);;
  iupdate i.

Definition iput (i : Z) : M fstate unit :=
  ip ← get_i i;
  (if (i_ref ip =? 1) && i_valid ip && (i_nlink ip =? 0) then
     ilock_acquire i;;
     itrunc i;;
     upd_i i (with_type 0);;
     iupdate i;;
     upd_i i (with_valid false);;
     upd_i i (with_lock false)
   else mret tt);;
  upd_i i (fun ip => with_ref (i_ref ip - 1) ip).

Definition iunlockput (i : Z) : M fstate unit := iunlock i;; iput i.

Record stat := Stat { st_dev : Z; st_ino : Z; st_type : Z; st_nlink : Z; st_size : Z }.
Definition stati (i : Z) : M fstate stat :=
  ip ← get_i i;
  mret (Stat (i_dev ip) (i_inum ip) (i_type ip) (i_nlink ip) (i_size ip)).

(** One round of [readi]'s loop; [acc] are the bytes copied so far. *)
Definition readi_step (i n : Z) (ok : Z -> bool) (v : Z * Z * list Z) :
    M fstate ((Z * Z * list Z) + (Z * list Z)) :=
  let '(tot, off, acc) := v in
  if tot <? n then
    addr ← bmap i (off / BSIZE);
    if addr =? 0 then mret (inr (tot, acc))
    else
      ip ← get_i i;
      bp ← lift (bread (i_dev ip) addr);
      d ← lift (bdata bp);
      let m := Z.min (n - tot) (BSIZE - off mod BSIZE) in
      if ok tot then
        lift (brelse bp);;
        mret (inl (tot + m, off + m, acc ++ read_bytes d (off mod BSIZE) (Z.to_nat m)))
      else
        lift (brelse bp);;
        mret (inr (-1, acc))
  else mret (inr (tot, acc)).
(** A file has at most 2^32 bytes, so at most 2^22 + 1 rounds. *)
Definition readi (i : Z) (ok : Z -> bool) (off n : Z) : M fstate (Z * list Z) :=
  ip ← get_i i;
  if (off >? i_size ip) || (u32 (off + n) <? off) then mret (0, [])
  else
    let n := if u32 (off + n) >? i_size ip then i_size ip - off else n in
    loop (readi_step i n ok) (2 ^ 23) (0, off, []).

(** [src tot m] is what [either_copyin] does for [m] bytes from [src + tot]:
    the bytes that it writes and whether it succeeds; a copy that fails may
    have written some. *)
Definition writei_step (i n : Z) (src : Z -> Z -> list Z * bool) (v : Z * Z) : M fstate ((Z * Z) + (Z * Z)) :=
  let '(tot, off) := v in
  if tot <? n then
    addr ← bmap i (off / BSIZE);
    if addr =? 0 then mret (inr (tot, off))
    else
      ip ← get_i i;
      bp ← lift (bread (i_dev ip) addr);
      d ← lift (bdata bp);
      let m := Z.min (n - tot) (BSIZE - off mod BSIZE) in
      lift (bset bp (write_bytes d (off mod BSIZE) (fst (src tot m))));;
      if snd (src tot m) then
        log_write bp;;
        lift (brelse bp);;
        mret (inl (tot + m, off + m))
      else lift (brelse bp);; mret (inr (tot, off))
  else mret (inr (tot, off)).
Definition writei (i : Z) (src : Z -> Z -> list Z * bool) (off n : Z) : M fstate Z :=
  ip ← get_i i;
  if (off >? i_size ip) || (u32 (off + n) <? off) then mret (-1)
  else if u32 (off + n) >? MAXFILE * BSIZE then mret (-1)
  else
    r ← loop (writei_step i n src) (2 ^ 23) (0, off);
    let '(tot, off) := r in
    ip ← get_i i;
    (if off >? i_size ip then upd_i i (with_size off) else mret tt);;
    iupdate i;;
    mret tot.

(** Kernel memory as source or destination: the copy does not fail. *)
Definition kdst (_ : Z) : bool := true.
Definition ksrc (l : list Z) (tot m : Z) : list Z * bool := (take (Z.to_nat m) (drop (Z.to_nat tot) l), true).

(** ** Directories *)

Record dirent := Dirent { de_inum : Z; de_name : list Z }.
Definition dirent_of (l : list Z) : dirent :=
  Dirent (nth 0 l 0 + 256 * nth 1 l 0) (take 14 (drop 2 l)).
Definition bytes_of (de : dirent) : list Z := u8 (de_inum de) :: u8 (de_inum de / 256) :: de_name de.

Definition namecmp (s t : list Z) : Z := strncmp (at_list s) (at_list t) DIRSIZ.

Definition dirlookup_step (i : Z) (name : list Z) (off : Z) : M fstate (Z + option (Z * Z)) :=
  dp ← get_i i;
  if off <? i_size dp then
    r ← readi i kdst off DIRENT;
    if negb (r.1 =? DIRENT) then panic "dirlookup read"
    else
      let de := dirent_of r.2 in
      if de_inum de =? 0 then mret (inl (off + DIRENT))
      else if namecmp name (de_name de) =? 0 then
        ip ← iget (i_dev dp) (de_inum de);
        mret (inr (Some (ip, off)))
      else mret (inl (off + DIRENT))
  else mret (inr None).
(** The inode and the offset of its entry.  At most 2^32 / 16 entries. *)
Definition dirlookup (i : Z) (name : list Z) : M fstate (option (Z * Z)) :=
  dp ← get_i i;
  if negb (i_type dp =? T_DIR) then panic "dirlookup not DIR"
  else loop (dirlookup_step i name) (2 ^ 29) 0.

Definition dirlink_step (i off : Z) : M fstate (Z + Z) :=
  dp ← get_i i;
  if off <? i_size dp then
    r ← readi i kdst off DIRENT;
    if negb (r.1 =? DIRENT) then panic "dirlink read"
    else if de_inum (dirent_of r.2) =? 0 then mret (inr off)
    else mret (inl (off + DIRENT))
  else mret (inr off).
Definition dirlink (i : Z) (name : list Z) (inum : Z) : M fstate Z :=
  r ← dirlookup i name;
  match r with
  | Some (ip, _) => iput ip;; mret (-1)
  | None =>
      off ← loop (dirlink_step i) (2 ^ 29) 0;
      let de := Dirent (u16 inum) (strncpy (at_list name) DIRSIZ) in
      r ← writei i (ksrc (bytes_of de)) off DIRENT;
      if negb (r =? DIRENT) then mret (-1) else mret 0
  end.
End Code.

(** ** Paths *)

Definition SLASH : Z := 47.
Fixpoint skip_slashes (path : list Z) : list Z :=
  match path with
  | c :: p => if c =? SLASH then skip_slashes p else path
  | [] => []
  end.
(** The characters up to the next slash, and the rest. *)
Fixpoint span_elem (path : list Z) : list Z * list Z :=
  match path with
  | [] => ([], [])
  | c :: p => if c =? SLASH then ([], path) else let '(e, r) := span_elem p in (c :: e, r)
  end.
(** The rest of the path, and the first [DIRSIZ] characters of the element. *)
Definition skipelem (path : list Z) : option (list Z * list Z) :=
  match skip_slashes path with
  | [] => None
  | p => let '(s, r) := span_elem p in Some (skip_slashes r, take (Z.to_nat DIRSIZ) s)
  end.

Section Paths.
Context {C : Type} `{!BufCache C}.

(** The loop of [namex].  Each round removes an element of the path. *)
Fixpoint namex_loop (ip : Z) (path : list Z) (parent : bool) (name : list Z) (fuel : nat) :
    M (kst C fsx) (option (Z * list Z)) :=
  match fuel with
  | O => nofuel
  | S fuel =>
      match skipelem path with
      | None =>
          if parent then iput ip;; mret None else mret (Some (ip, name))
      | Some (path, name) =>
          ilock ip;;
          x ← get_i ip;
          if negb (i_type x =? T_DIR) then iunlockput ip;; mret None
          else if parent && (match path with [] => true | _ => false end) then
            iunlock ip;; mret (Some (ip, name))
          else
            r ← dirlookup ip name;
            match r with
            | None => iunlockput ip;; mret None
            | Some (next, _) => iunlockput ip;; namex_loop next path parent name fuel
            end
      end
  end.
Definition namex (path : list Z) (parent : bool) : M (kst C fsx) (option (Z * list Z)) :=
  ip ← (match path with
        | c :: _ => if c =? SLASH then iget ROOTDEV ROOTINO
                    else cwd ← gets (fun s => f_cwd (k_ext s)); idup cwd
        | [] => cwd ← gets (fun s => f_cwd (k_ext s)); idup cwd
        end);
  namex_loop ip path parent [] (S (length path)).
Definition namei (path : list Z) : M (kst C fsx) (option Z) :=
  r ← namex path false;
  mret (option_map fst r).
Definition nameiparent (path : list Z) : M (kst C fsx) (option (Z * list Z)) := namex path true.
End Paths.
