(* ===== verification/FsBlocks.v ===== *)
(** * The block allocator: [bzero], [balloc] and [bfree]

    Specifications inside a transaction.  A transaction may still log the
    blocks of a set [S] fixed in advance (free-map and inode blocks) and [k]
    further ones: [tx s a L k].  This is how [MAXOPBLOCKS] is accounted for. *)

From S2P Require Import Prelude Riscv Mem CString BufCache Log Fs.

(** ** The free map *)

Lemma testbit_mget d i k : 8 <= k -> Z.testbit (mget d i) k = false.
Proof.
  intros Hk. pose proof (mget_range d i). destruct (decide (mget d i = 0)) as [->|Hn]; [by rewrite Z.bits_0|].
  apply Z.bits_above_log2; [lia|]. apply Z.log2_lt_pow2; [lia|].
  assert (2 ^ 8 <= 2 ^ k) by (apply Z.pow_le_mono_r; lia). lia.
Qed.

Lemma bit_byte d x i j : 0 <= x < 256 -> 0 <= j ->
  bit_used (store8 d (i / 8) x) j = if decide (i / 8 = j / 8) then Z.testbit x (j mod 8) else bit_used d j.
Proof.
  intros Hx Hj. unfold bit_used. rewrite mget_store8. case_decide; [|done].
  unfold u8. by rewrite Z.mod_small by lia.
Qed.

Lemma same_bit i j : 0 <= i -> 0 <= j -> i / 8 = j / 8 -> (i = j <-> i mod 8 = j mod 8).
Proof. intros. split; [by intros ->|]. intros. rewrite (Z.div_mod i 8), (Z.div_mod j 8) by lia. lia. Qed.

Lemma bit_used_set d i j : 0 <= i -> 0 <= j ->
  bit_used (bit_set d i) j = if decide (i = j) then true else bit_used d j.
Proof.
  intros Hi Hj. pose proof (mget_range d (i / 8)) as Hr. pose proof (Z.mod_pos_bound i 8 ltac:(lia)).
  pose proof (Z.mod_pos_bound j 8 ltac:(lia)). unfold bit_set. rewrite Z.shiftl_1_l.
  assert (0 <= Z.lor (mget d (i / 8)) (2 ^ (i mod 8)) < 256) as Hb.
  { apply (lor_range _ _ 8); [lia|lia|]. split; [lia|]. assert (2 ^ (i mod 8) < 2 ^ 8) by (apply Z.pow_lt_mono_r; lia). lia. }
  rewrite bit_byte by done. destruct (decide (i / 8 = j / 8)) as [E|E].
  - rewrite Z.lor_spec, Z.pow2_bits_eqb by lia. unfold bit_used. rewrite E.
    destruct (decide (i = j)) as [->|Hne]; [by rewrite Z.eqb_refl, orb_true_r|].
    rewrite (proj2 (Z.eqb_neq _ _)); [by rewrite orb_false_r|]. by rewrite <- same_bit.
  - rewrite decide_False; [done|]. by intros ->.
Qed.

Lemma bit_used_clear d i j : 0 <= i -> 0 <= j ->
  bit_used (bit_clear d i) j = if decide (i = j) then false else bit_used d j.
Proof.
  intros Hi Hj. pose proof (mget_range d (i / 8)) as Hr. pose proof (Z.mod_pos_bound i 8 ltac:(lia)).
  pose proof (Z.mod_pos_bound j 8 ltac:(lia)). unfold bit_clear. rewrite Z.shiftl_1_l.
  set (x := Z.land _ _). assert (0 <= x < 256) as Hb.
  { assert (x = x mod 2 ^ 8) as ->; [|apply Z.mod_pos_bound; lia].
    rewrite <- Z.land_ones by lia. unfold x. rewrite <- Z.land_assoc, (Z.land_comm (Z.lnot _)), Z.land_assoc.
    f_equal. rewrite Z.land_ones by lia. symmetry. apply Z.mod_small. lia. }
  rewrite bit_byte by done. destruct (decide (i / 8 = j / 8)) as [E|E].
  - unfold x. rewrite <- Z.ldiff_land, Z.ldiff_spec, Z.pow2_bits_eqb by lia. unfold bit_used. rewrite E.
    destruct (decide (i = j)) as [->|Hne]; [by rewrite Z.eqb_refl, andb_false_r|].
    rewrite (proj2 (Z.eqb_neq _ _)); [by rewrite andb_true_r|]. by rewrite <- same_bit.
  - rewrite decide_False; [done|]. by intros ->.
Qed.

(** The inner loop of [balloc] finds the first free bit. *)
Lemma find_free_spec d size b bi k r : 0 <= bi ->
  find_free d size b bi k = r ->
  match r with
  | Some j => bi <= j < bi + Z.of_nat k /\ b + j < size /\ bit_used d j = false /\
      forall i, bi <= i < j -> bit_used d i = true
  | None => forall i, bi <= i < bi + Z.of_nat k -> b + i < size -> bit_used d i = true
  end.
Proof.
  revert bi. induction k as [|k IH]; intros bi Hbi Hr; cbn [find_free] in Hr.
  - subst r. lia.
  - destruct (b + bi <? size) eqn:Es; bool_to_prop; [|subst r; intros i Hi Hs; lia].
    destruct (bit_used d bi) eqn:Eu.
    + specialize (IH (bi + 1) ltac:(lia) Hr). destruct r as [j|].
      * destruct IH as (? & ? & ? & IH). repeat split; try done; try lia.
        intros i Hi. destruct (decide (i = bi)) as [->|]; [done|]. apply IH. lia.
      * intros i Hi Hs. destruct (decide (i = bi)) as [->|]; [done|]. apply IH; lia.
    + subst r. repeat split; try done; try lia.
Qed.

(** ** Inside a transaction *)

#[local] Set Default Proof Using "All".

Lemma BPB_pos : 0 < BPB.
Proof. done. Qed.

Section Layout.
Context (start nlog : Z) (sb : superblock) (S : gset Z).

(** ** The layout of the disk *)

Record geom : Prop := {
  g_size : 0 < sb_size sb < 2 ^ 31;
  g_bmap : 0 <= sb_bmapstart sb /\ sb_bmapstart sb + sb_size sb / BPB < 2 ^ 31;
  g_map b : 0 <= b < sb_size sb -> BBLOCK b sb ∈ S /\ home start nlog (BBLOCK b sb)
}.

Definition used (V : diskT) (b : Z) : bool := bit_used (dget V (BBLOCK b sb)) (b mod BPB).
Definition inrange (b : Z) : Prop := 0 <= b < sb_size sb.

(** The free blocks are data blocks: not 0, not in the log, not in [S]. *)
Definition free_ok (V : diskT) : Prop :=
  forall b, inrange b -> used V b = false -> b <> 0 /\ home start nlog b /\ (b ∉ S).

(** [r] has been allocated. *)
Record alloced (V : diskT) (r : Z) (V' : diskT) : Prop := {
  al_range : inrange r;
  al_free : used V r = false;
  al_used b : inrange b -> used V' b = if decide (b = r) then true else used V b;
  al_zero i : 0 <= i < BSIZE -> mget (dget V' r) i = 0;
  al_other b : b <> r -> b <> BBLOCK r sb -> dget V' b = dget V b
}.

Context (G : geom).

Lemma BBLOCK_eq b : inrange b -> BBLOCK b sb = b / BPB + sb_bmapstart sb.
Proof.
  intros Hb. unfold BBLOCK. apply u32_id. pose proof (g_bmap G). unfold inrange in Hb.
  assert (0 <= b / BPB <= sb_size sb / BPB).
  { unfold BPB, BSIZE. split; [apply Z.div_pos; lia|apply Z.div_le_mono; lia]. }
  lia.
Qed.

Lemma same_block b c : inrange b -> inrange c ->
  BBLOCK b sb = BBLOCK c sb -> b mod BPB = c mod BPB -> b = c.
Proof.
  intros Hb Hc. rewrite !BBLOCK_eq by done. intros E1 E2. pose proof BPB_pos.
  rewrite (Z.div_mod b BPB), (Z.div_mod c BPB) by lia. rewrite E2. f_equal. f_equal. lia.
Qed.

(** Setting a bit of the free map. *)
Lemma used_update V r f b :
  (forall j, 0 <= j -> bit_used (f (dget V (BBLOCK r sb))) j =
     if decide (r mod BPB = j) then negb (used V r) else bit_used (dget V (BBLOCK r sb)) j) ->
  inrange r -> inrange b ->
  used (<[BBLOCK r sb := f (dget V (BBLOCK r sb))]> V) b = if decide (b = r) then negb (used V r) else used V b.
Proof.
  intros Hf Hr Hb. pose proof BPB_pos. unfold used at 1. rewrite dget_insert.
  destruct (decide (BBLOCK r sb = BBLOCK b sb)) as [E|E].
  - rewrite Hf by (apply Z.mod_pos_bound; lia). destruct (decide (b = r)) as [->|Hne]; [by rewrite decide_True|].
    rewrite decide_False; [unfold used; by rewrite E|]. intros E'. apply Hne. symmetry. by apply same_block.
  - rewrite decide_False; [done|]. by intros ->.
Qed.

Lemma alloc_free_ok V r V' : free_ok V -> alloced V r V' -> free_ok V'.
Proof.
  intros HF Ha b Hb Hu. rewrite (al_used _ _ _ Ha b Hb) in Hu. case_decide; [done|]. by apply HF.
Qed.

Lemma alloced_intro V r x :
  inrange r -> used V r = false -> free_ok V -> (forall i, 0 <= i < BSIZE -> mget x i = 0) ->
  alloced V r (<[r := x]> (<[BBLOCK r sb := bit_set (dget V (BBLOCK r sb)) (r mod BPB)]> V)).
Proof.
  intros Hr Hu HF Hx. pose proof BPB_pos. destruct (HF r Hr Hu) as (_ & _ & HrS).
  assert (forall b, inrange b -> r <> BBLOCK b sb) as Hrb.
  { intros b Hb ->. apply HrS. by apply (g_map G). }
  split; [done|done| | |].
  - intros b Hb. unfold used at 1. rewrite dget_insert, decide_False by (by apply Hrb).
    change (used (<[BBLOCK r sb := bit_set (dget V (BBLOCK r sb)) (r mod BPB)]> V) b =
      if decide (b = r) then true else used V b).
    rewrite (used_update V r (fun d => bit_set d (r mod BPB))); [by rewrite Hu| |done|done].
    intros j Hj. rewrite bit_used_set, Hu by (done || apply Z.mod_pos_bound; lia). done.
  - intros i Hi. rewrite dget_insert, decide_True by done. by apply Hx.
  - intros b Hb Hb'. rewrite !dget_insert, !decide_False by done. done.
Qed.

(** Locked buffers are not metadata, and their blocks are in use. *)
Definition held_ok (V : diskT) (H : gmap Z Z) : Prop :=
  forall i b, H !! i = Some b -> (b ∉ S) /\ (inrange b -> used V b = true).

Lemma round_block b j : inrange (b + j) -> b mod BPB = 0 -> 0 <= b -> 0 <= j < BPB ->
  BBLOCK (b + j) sb = BBLOCK b sb /\ (b + j) mod BPB = j.
Proof.
  intros Hr Hm Hb Hj. rewrite !BBLOCK_eq by (unfold inrange in *; lia).
  unfold BPB, BSIZE in *. split; [f_equal|]; dlia.
Qed.

End Layout.

Section Tx.
Context {C : Type} `{!BufCache C} `{!BufCacheSpec C}.
Context (start nlog : Z) (Hlog : 0 <= start /\ 1 <= nlog /\ start + nlog < 2 ^ 31) (Hnl : nlog <= LOGSIZE).
Context (sb : superblock) (S : gset Z) (G : geom start nlog sb S).
Abbreviation fstate := (kst C fsx).
Implicit Types (s : fstate) (a : acache) (L : list Z) (H : gmap Z Z) (k b : Z).

(** The blocks that are logged, may be logged, or are held. *)
Definition booked L H : gset Z := list_to_set L ∪ S ∪ map_img H.

Record tx s a L H k : Prop := {
  tx_crep : crep (k_bc s) a;
  tx_log : logged start nlog s L;
  tx_ok : loggable start nlog L;
  tx_pins : pinned a L;
  tx_held : a_held a = H;
  tx_out : 1 <= outstanding (k_log s);
  tx_sb : f_sb (k_ext s) = sb;
  tx_room : Z.of_nat (size (booked L H)) + k < nlog - 1;
  tx_k : 0 <= k
}.

(** The same for code that only reads, inside a transaction or not. *)
Record rd s a L H : Prop := {
  rd_crep : crep (k_bc s) a;
  rd_log : logged start nlog s L;
  rd_ok : loggable start nlog L;
  rd_pins : pinned a L;
  rd_held : a_held a = H;
  rd_sb : f_sb (k_ext s) = sb;
  rd_room : Z.of_nat (size (booked L H)) < nlog - 1
}.

Lemma tx_rd s a L H k : tx s a L H k -> rd s a L H.
Proof. intros []. split; try done. lia. Qed.
Lemma tx_bc s a L H k c : tx s a L H k -> crep c a -> tx (Kst c (k_log s) (k_ext s)) a L H k.
Proof. intros [] Hc. by split; try done; apply logged_bc. Qed.
Lemma rd_bc s a L H c : rd s a L H -> crep c a -> rd (Kst c (k_log s) (k_ext s)) a L H.
Proof. intros [] Hc. by split; try done; apply logged_bc. Qed.

Lemma rd_busy s a L H : rd s a L H -> busy a ⊆ booked L H.
Proof.
  intros T x. rewrite elem_of_busy. unfold booked. rewrite !elem_of_union, elem_of_list_to_set, elem_of_map_img.
  intros [Hx|[i Hi]].
  - left. left. rewrite (rd_pins _ _ _ _ T x) in Hx. by case_decide; [|destruct Hx].
  - right. exists i. by rewrite <- (rd_held _ _ _ _ T).
Qed.

Lemma tx_len s a L H k : tx s a L H k -> Z.of_nat (length L) <= Z.of_nat (size (booked L H)).
Proof.
  intros T. rewrite <- (size_list_to_set (C := gset Z) L) by apply (lg_nodup _ _ _ (tx_ok _ _ _ _ _ T)).
  apply Nat2Z.inj_le, subseteq_size. unfold booked. set_solver.
Qed.

(** The state while buffer [i] is locked for [b] and shows [v]. *)
Definition locked_view a (i b : Z) (v : diskT) : acache :=
  Acache v (a_disk a) (a_pins a) (<[i := b]> (a_held a)) (a_hist a).

Lemma rd_bread s a L H b (Q : Z -> fstate -> Prop) :
  rd s a L H -> (forall i, H !! i <> Some b) ->
  (forall i c, H !! i = None -> crep c (locked_view a i b (a_view a)) ->
     Q i (Kst c (k_log s) (k_ext s))) ->
  wp (lift (bread ROOTDEV b)) s Q.
Proof.
  intros T Hb HQ. apply wp_lift. eapply bread_spec; [apply T|by intros i; rewrite (rd_held _ _ _ _ T)| |].
  - unfold room. pose proof (rd_room _ _ _ _ T).
    assert (size (busy a ∪ {[b]}) <= size (booked L H ∪ {[b]}))%nat
      by (apply subseteq_size; pose proof (rd_busy _ _ _ _ T); set_solver).
    assert (size (booked L H ∪ {[b]}) <= size (booked L H) + 1)%nat.
    { rewrite size_union_alt. apply Nat.add_le_mono_l. rewrite <- (size_singleton (C := gset Z) b).
      apply subseteq_size. set_solver. }
    change NBUF with 30. change LOGSIZE with 30 in Hnl. lia.
  - intros i c Hi Hc. apply HQ; [by rewrite <- (rd_held _ _ _ _ T)|done].
Qed.

(** Releasing a block that was only read. *)
Lemma rd_release s a L H i b c (Q : unit -> fstate -> Prop) :
  rd s a L H -> H !! i = None -> (forall j, H !! j <> Some b) -> crep c (locked_view a i b (a_view a)) ->
  (forall c', crep c' a -> Q tt (Kst c' (k_log s) (k_ext s))) ->
  wp (lift (brelse i)) (Kst c (k_log s) (k_ext s)) Q.
Proof.
  intros T Hi Hb Hc HQ. apply wp_lift.
  eapply (brelse_spec _ _ i b); [exact Hc|by cbn; rewrite lookup_insert_eq| |].
  { destruct (decide (b ∈ L)) as [HbL|HbL].
    - left. change (pins (locked_view a i b (a_view a)) b) with (pins a b).
      rewrite (pinned_pins a L b (rd_pins _ _ _ _ T)), decide_True by done. lia.
    - right. apply (crep_clean _ _ _ (rd_crep _ _ _ _ T)). rewrite elem_of_busy, (rd_pins _ _ _ _ T b).
      rewrite decide_False, (rd_held _ _ _ _ T) by done. intros [[]|[j Hj]]; [done|]. by eapply Hb. }
  intros c2 Hc2. apply HQ. destruct T.
  eapply crep_eq; [exact Hc2|]. unfold a_unlock, locked_view. destruct a. cbn in *. subst.
  by rewrite delete_insert_id.
Qed.

Lemma tx_bread s a L H k b (Q : Z -> fstate -> Prop) :
  tx s a L H k -> (forall i, H !! i <> Some b) ->
  (forall i c, H !! i = None -> crep c (locked_view a i b (a_view a)) ->
     Q i (Kst c (k_log s) (k_ext s))) ->
  wp (lift (bread ROOTDEV b)) s Q.
Proof. intros T%tx_rd. by apply (rd_bread s a L H b). Qed.

Lemma tx_release s a L H k i b c (Q : unit -> fstate -> Prop) :
  tx s a L H k -> H !! i = None -> (forall j, H !! j <> Some b) -> crep c (locked_view a i b (a_view a)) ->
  (forall c', tx (Kst c' (k_log s) (k_ext s)) a L H k -> Q tt (Kst c' (k_log s) (k_ext s))) ->
  wp (lift (brelse i)) (Kst c (k_log s) (k_ext s)) Q.
Proof.
  intros T Hi Hb Hc HQ. apply (rd_release s a L H i b); [by eapply tx_rd|done|done|done|].
  intros c' Hc'. by apply HQ, tx_bc.
Qed.

Lemma booked_log L H b : booked (if decide (b ∈ L) then L else L ++ [b]) H = booked L H ∪ {[b]} \/
  b ∈ booked L H /\ booked (if decide (b ∈ L) then L else L ++ [b]) H = booked L H.
Proof.
  unfold booked. case_decide as E; [right|left; rewrite list_to_set_app_L; cbn; set_solver].
  split; [set_solver|done].
Qed.

Lemma booked_size L H b : Z.of_nat (size (booked (if decide (b ∈ L) then L else L ++ [b]) H)) =
  Z.of_nat (size (booked L H)) + if decide (b ∈ booked L H) then 0 else 1.
Proof.
  destruct (booked_log L H b) as [->|[Hb ->]].
  - case_decide as E.
    + replace (booked L H ∪ {[b]}) with (booked L H) by set_solver. lia.
    + rewrite size_union, size_singleton by set_solver. lia.
  - rewrite decide_True by done. lia.
Qed.

(** Logging and releasing a block that was changed. *)
Lemma tx_log_release s a L H k i b v c (Q : unit -> fstate -> Prop) :
  tx s a L H k -> H !! i = None -> home start nlog b -> b ∈ booked L H \/ 1 <= k ->
  crep c (locked_view a i b v) ->
  (forall s' a' L', tx s' a' L' H (if decide (b ∈ booked L H) then k else k - 1) ->
     a_view a' = v -> a_disk a' = a_disk a -> a_hist a' = a_hist a -> k_ext s' = k_ext s ->
     booked L H ⊆ booked L' H -> b ∈ booked L' H -> Q tt s') ->
  wp (log_write i;; lift (brelse i)) (Kst c (k_log s) (k_ext s)) Q.
Proof.
  intros T Hi Hb Hk Hc HQ. pose proof (tx_len _ _ _ _ _ T). pose proof (tx_room _ _ _ _ _ T).
  pose proof (tx_k _ _ _ _ _ T). wp_step.
  apply (log_write_wp start nlog Hlog (Kst c (k_log s) (k_ext s)) (locked_view a i b v) L i b); try done; try apply T.
  { apply logged_bc, T. }
  { by cbn; rewrite lookup_insert_eq. }
  { lia. }
  intros c' l' a' L' s' Hc' Hl' Hg' Hp' Eo _ EL Ea. apply wp_lift.
  assert (a_view a' = v /\ a_disk a' = a_disk a /\ a_hist a' = a_hist a /\ a_held a' = <[i := b]> H) as (E1 & E2 & E3 & E4).
  { rewrite Ea. rewrite <- (tx_held _ _ _ _ _ T). by case_decide. }
  assert (b ∈ L') as HbL' by (rewrite EL; case_decide; set_solver).
  eapply (brelse_spec _ _ i b); [exact Hc'|by rewrite E4, lookup_insert_eq| |].
  { left. rewrite (pinned_pins a' L' b Hp'), decide_True by done. lia. }
  intros c2 Hc2. apply (HQ (Kst c2 l' (k_ext s)) (a_unlock i a') L'); try done.
  - split; try done.
    + by destruct Hl'; split.
    + cbn. rewrite E4. by rewrite delete_insert_id.
    + cbn. rewrite Eo. apply T.
    + apply T.
    + subst L'. rewrite booked_size. destruct (decide (b ∈ booked L H)); lia.
    + destruct (decide (b ∈ booked L H)); [done|]. destruct Hk; [done|lia].
  - unfold booked. subst L'. destruct (decide (b ∈ L)); set_solver.
  - unfold booked. set_solver.
Qed.

(** ** Holding a buffer across other operations *)

Lemma tx_ext s a L H k x : tx s a L H k -> f_sb x = sb -> tx (Kst (k_bc s) (k_log s) x) a L H k.
Proof. intros []. by split; try done; apply logged_bc. Qed.

Lemma booked_insert L H i b : H !! i = None -> booked L (<[i := b]> H) = booked L H ∪ {[b]}.
Proof. intros Hi. unfold booked. rewrite map_img_insert_notin_L by done. set_solver. Qed.

Lemma tx_hold s a L H k i b c :
  tx s a L H k -> H !! i = None -> b ∈ booked L H \/ 1 <= k -> crep c (locked_view a i b (a_view a)) ->
  tx (Kst c (k_log s) (k_ext s)) (locked_view a i b (a_view a)) L (<[i := b]> H)
    (if decide (b ∈ booked L H) then k else k - 1).
Proof.
  intros [] Hi Hk Hc. split; try done; [by apply logged_bc|by cbn; subst| |].
  - rewrite booked_insert by done. case_decide as E.
    + replace (booked L H ∪ {[b]}) with (booked L H) by set_solver. done.
    + rewrite size_union, size_singleton by set_solver. lia.
  - case_decide; [done|]. destruct Hk; [done|lia].
Qed.

Lemma tx_bset s a L H k i b d (Q : unit -> fstate -> Prop) :
  tx s a L H k -> H !! i = Some b ->
  (forall c, tx (Kst c (k_log s) (k_ext s)) (a_store b d a) L H k -> Q tt (Kst c (k_log s) (k_ext s))) ->
  wp (lift (bset i d)) s Q.
Proof.
  intros [] Hi HQ. apply wp_lift. eapply bset_spec; [done|by subst|]. intros c Hc. apply HQ.
  by split; try done; apply logged_bc.
Qed.

Lemma tx_log_write s a L H k i b (Q : unit -> fstate -> Prop) :
  tx s a L H k -> H !! i = Some b -> home start nlog b ->
  (forall s' a' L', tx s' a' L' H k -> a_view a' = a_view a -> a_disk a' = a_disk a -> a_hist a' = a_hist a ->
     k_ext s' = k_ext s -> booked L' H = booked L H -> b ∈ L' -> L ⊆ L' -> Q tt s') ->
  wp (log_write i) s Q.
Proof.
  intros T Hi Hb HQ. pose proof (tx_len _ _ _ _ _ T). pose proof (tx_room _ _ _ _ _ T).
  pose proof (tx_k _ _ _ _ _ T). assert (b ∈ booked L H) as Hbk.
  { unfold booked. apply elem_of_union_r, elem_of_map_img. by exists i. }
  apply (log_write_wp start nlog Hlog s a L i b); try done; try apply T.
  { by rewrite (tx_held _ _ _ _ _ T). }
  { lia. }
  intros c' l' a' L' s' Hc' Hl' Hg' Hp' Eo _ EL Ea.
  assert (booked L' H = booked L H) as EB.
  { subst L'. destruct (booked_log L H b) as [->|[_ ->]]; [set_solver|done]. }
  assert (a_view a' = a_view a /\ a_disk a' = a_disk a /\ a_hist a' = a_hist a /\ a_held a' = H) as (E1 & E2 & E3 & E4).
  { rewrite Ea. rewrite <- (tx_held _ _ _ _ _ T). by case_decide. }
  apply (HQ s' a' L'); try done.
  - destruct T. split; try done; [cbn; lia|]. by rewrite EB.
  - subst L'. destruct (decide (b ∈ L)); set_solver.
  - subst L'. destruct (decide (b ∈ L)); set_solver.
Qed.

Lemma tx_brelse s a L H k i b (Q : unit -> fstate -> Prop) :
  tx s a L H k -> H !! i = Some b -> b ∈ L \/ dget (a_view a) b = dget (a_disk a) b ->
  (forall c, let a' := a_unlock i a in
     tx (Kst c (k_log s) (k_ext s)) a' L (delete i H) k -> Q tt (Kst c (k_log s) (k_ext s))) ->
  wp (lift (brelse i)) s Q.
Proof.
  intros T Hi Hb HQ. apply wp_lift. eapply (brelse_spec _ _ i b); [apply T|by rewrite (tx_held _ _ _ _ _ T)| |].
  { destruct Hb as [Hb|Hb]; [left|by right].
    rewrite (pinned_pins a L b (tx_pins _ _ _ _ _ T)), decide_True by done. lia. }
  intros c Hc. apply HQ. destruct T. split; try done; [by apply logged_bc|by cbn; subst|].
  assert (size (booked L (delete i H)) <= size (booked L H))%nat; [|lia].
  apply subseteq_size. unfold booked. apply union_mono_l. intros x [j Hj]%elem_of_map_img. apply elem_of_map_img.
  exists j. apply lookup_delete_Some in Hj as [_ Hj]. done.
Qed.

Lemma bzero_wp s a L H k b (Q : unit -> fstate -> Prop) :
  tx s a L H k -> (forall i, H !! i <> Some b) -> home start nlog b -> b ∈ booked L H \/ 1 <= k ->
  (forall s' a' L', tx s' a' L' H (if decide (b ∈ booked L H) then k else k - 1) ->
     a_view a' = <[b := memset (dget (a_view a) b) 0 0 BSIZE]> (a_view a) ->
     a_disk a' = a_disk a -> a_hist a' = a_hist a -> k_ext s' = k_ext s ->
     booked L H ⊆ booked L' H -> b ∈ booked L' H -> Q tt s') ->
  wp (bzero ROOTDEV b) s Q.
Proof.
  intros T Hb Hh Hk HQ. unfold bzero. wp_step. apply (tx_bread s a L H k b); [done|done|]. intros i c Hi Hc.
  wp_step. apply wp_lift. eapply bdata_spec; [exact Hc|by cbn; rewrite lookup_insert_eq|].
  wp_step. apply wp_lift. eapply bset_spec; [exact Hc|by cbn; rewrite lookup_insert_eq|]. intros c2 Hc2.
  cbn [k_log k_ext]. eapply (tx_log_release s a L H k i b); [exact T|exact Hi|exact Hh|exact Hk|exact Hc2|exact HQ].
Qed.

Definition balloc_post s a L H k (Q : Z -> fstate -> Prop) : Prop :=
  (forall s', tx s' a L H k -> k_ext s' = k_ext s ->
     (forall b, inrange sb b -> used sb (a_view a) b = true) -> Q 0 s') /\
  (forall r s' a' L', tx s' a' L' H (k - 1) -> alloced sb (a_view a) r (a_view a') ->
     (forall b, 0 <= b < r -> used sb (a_view a) b = true) ->
     a_disk a' = a_disk a -> a_hist a' = a_hist a -> k_ext s' = k_ext s ->
     booked L H ⊆ booked L' H -> r ∈ booked L' H -> Q r s').

Lemma balloc_step_wp s a L H k b (Q : Z + Z -> fstate -> Prop) :
  tx s a L H k -> 1 <= k -> held_ok sb S (a_view a) H -> free_ok start nlog sb S (a_view a) ->
  0 <= b -> b mod BPB = 0 -> (forall c, 0 <= c < b -> inrange sb c -> used sb (a_view a) c = true) ->
  balloc_post s a L H k (fun r => Q (inr r)) ->
  (forall s', b < sb_size sb -> tx s' a L H k -> k_ext s' = k_ext s ->
     (forall c, 0 <= c < b + BPB -> inrange sb c -> used sb (a_view a) c = true) -> Q (inl (b + BPB)) s') ->
  wp (balloc_step ROOTDEV b) s Q.
Proof.
  intros T Hk HH HF Hb0 Hbm Hlow [Hfull Halloc] Hnext. pose proof BPB_pos. unfold balloc_step, get_sb. wp_step. wp_step.
  rewrite (tx_sb _ _ _ _ _ T). destruct (b <? sb_size sb) eqn:Eb; bool_to_prop.
  2: { wp_step. apply Hfull; [done|done|]. intros c Hc. apply Hlow; unfold inrange in *; lia. }
  assert (inrange sb b) as Hb by (unfold inrange; lia).
  destruct (g_map _ _ _ _ G b Hb) as [HbS Hbh].
  wp_step. apply (tx_bread s a L H k (BBLOCK b sb)); [done|by intros i Hi; apply HH in Hi as [? _]|].
  intros i c Hi Hc. wp_step. apply wp_lift. eapply bdata_spec; [exact Hc|by cbn; rewrite lookup_insert_eq|].
  cbn [a_view locked_view]. set (d := dget (a_view a) (BBLOCK b sb)).
  assert (forall j, inrange sb (b + j) -> 0 <= j < BPB -> used sb (a_view a) (b + j) = bit_used d j) as Hused.
  { intros j Hj1 Hj2. destruct (round_block start nlog sb S G b j) as [E1 E2]; try done. unfold used. by rewrite E1, E2. }
  destruct (find_free d _ b 0 _) as [j|] eqn:Ef; apply find_free_spec in Ef; try lia.
  - rewrite Z2Nat.id in Ef by lia. destruct Ef as (Hj & Hjs & Hju & Hjlow).
    assert (inrange sb (b + j)) as Hr by (unfold inrange; lia).
    destruct (round_block start nlog sb S G b j) as [E1 E2]; try done.
    assert (used sb (a_view a) (b + j) = false) as Hu by (by rewrite Hused).
    destruct (HF _ Hr Hu) as (Hr0 & Hrh & HrS).
    wp_step. apply wp_lift. eapply bset_spec; [exact Hc|by cbn; rewrite lookup_insert_eq|]. intros c2 Hc2.
    apply wp_bind_assoc, wp_bind. cbn [k_log k_ext].
    eapply (tx_log_release s a L H k i (BBLOCK b sb)); [exact T|exact Hi|exact Hbh|left; unfold booked; set_solver|exact Hc2|].
    rewrite decide_True by (unfold booked; set_solver). intros s1 a1 L1 T1 E1v E1d E1h E1x HB1 _. wp_step.
    apply (bzero_wp s1 a1 L1 H k (b + j)); [done| |done|by right|].
    { intros i' Hi'. apply HH in Hi' as [_ Hu']. by rewrite Hu' in Hu. }
    intros s2 a2 L2 T2 E2v E2d E2h E2x HB2 HB2'. wp_step. apply (Halloc (b + j) s2 a2 L2).
    + destruct T2. split; try done; [|lia]. destruct (decide _); lia.
    + rewrite E2v, E1v, dget_insert, decide_False by (intros E; apply HrS; by rewrite <- E).
      pose proof (alloced_intro start nlog sb S G (a_view a) (b + j) (memset (dget (a_view a) (b + j)) 0 0 BSIZE)) as HA.
      rewrite E1, E2 in HA. apply HA; try done.
      intros x Hx. rewrite mget_memset. rewrite decide_True by (unfold BSIZE in *; lia). done.
    + intros x Hx. destruct (decide (x < b)); [apply Hlow; unfold inrange in *; lia|].
      replace x with (b + (x - b)) by lia. rewrite Hused by (unfold inrange in *; lia). apply Hjlow. lia.
    + by rewrite E2d.
    + by rewrite E2h.
    + by rewrite E2x.
    + set_solver.
    + done.
  - rewrite Z2Nat.id in Ef by lia. wp_step.
    apply (tx_release s a L H k i (BBLOCK b sb)); [done|done|by intros i' Hi'; apply HH in Hi' as [? _]|done|].
    intros c2 T2. wp_step. apply (Hnext (Kst c2 (k_log s) (k_ext s))); [done|done|done|].
    intros x Hx Hxr. destruct (decide (x < b)); [apply Hlow; [lia|done]|].
    replace x with (b + (x - b)) by lia. rewrite Hused by (unfold inrange in *; lia).
    apply Ef; unfold inrange in *; lia.
Qed.

Lemma balloc_wp s a L H k (Q : Z -> fstate -> Prop) :
  tx s a L H k -> 1 <= k -> held_ok sb S (a_view a) H -> free_ok start nlog sb S (a_view a) ->
  balloc_post s a L H k Q -> wp (balloc ROOTDEV) s Q.
Proof.
  intros T Hk HH HF HQ. unfold balloc.
  apply (wp_loop_var _ (fun b => Z.max 0 ((sb_size sb - b + BPB - 1) / BPB))
    (fun b s' => tx s' a L H k /\ k_ext s' = k_ext s /\ 0 <= b /\ b mod BPB = 0 /\
       forall c, 0 <= c < b -> inrange sb c -> used sb (a_view a) c = true)).
  - clear T. intros b s1 (T & Ex & Hb & Hm & Hlow).
    apply (balloc_step_wp s1 a L H k b); try done.
    + destruct HQ as [Hf Ha]. split; [intros s' T' E; apply Hf; [done|congruence]|].
      intros r s' a' L' T' A' Hl Ed Eh E. apply (Ha r s' a' L'); try done. congruence.
    + intros s' Hlt T' Ex' Hlow'. pose proof (g_size _ _ _ _ G). split.
      * split; [done|]. split; [congruence|]. unfold BPB, BSIZE in *. split; [lia|]. split; [dlia|done].
      * unfold BPB, BSIZE in *. dlia.
  - split; [done|]. split; [done|]. split; [lia|]. split; [done|lia].
  - pose proof (g_size _ _ _ _ G). unfold BPB, BSIZE. change (Z.pos (2 ^ 20)) with (2 ^ 20). dlia.
Qed.

Lemma bfree_wp s a L H k b (Q : unit -> fstate -> Prop) :
  tx s a L H k -> held_ok sb S (a_view a) H -> inrange sb b -> used sb (a_view a) b = true ->
  (forall s' a' L', tx s' a' L' H k ->
     (forall c, inrange sb c -> used sb (a_view a') c = if decide (c = b) then false else used sb (a_view a) c) ->
     (forall c, c <> BBLOCK b sb -> dget (a_view a') c = dget (a_view a) c) ->
     a_disk a' = a_disk a -> a_hist a' = a_hist a -> k_ext s' = k_ext s ->
     booked L H ⊆ booked L' H -> Q tt s') ->
  wp (bfree ROOTDEV b) s Q.
Proof.
  intros T HH Hb Hu HQ. pose proof BPB_pos. destruct (g_map _ _ _ _ G b Hb) as [HbS Hbh]. unfold bfree, get_sb.
  wp_step. wp_step. rewrite (tx_sb _ _ _ _ _ T).
  wp_step. apply (tx_bread s a L H k (BBLOCK b sb)); [done|by intros i Hi; apply HH in Hi as [? _]|].
  intros i c Hi Hc. wp_step. apply wp_lift. eapply bdata_spec; [exact Hc|by cbn; rewrite lookup_insert_eq|].
  cbn [a_view locked_view]. fold (used sb (a_view a) b). rewrite Hu. cbn [negb].
  wp_step. apply wp_lift. eapply bset_spec; [exact Hc|by cbn; rewrite lookup_insert_eq|]. intros c2 Hc2.
  cbn [k_log k_ext].
  eapply (tx_log_release s a L H k i (BBLOCK b sb)); [exact T|exact Hi|exact Hbh|left; unfold booked; set_solver|exact Hc2|].
  rewrite decide_True by (unfold booked; set_solver). intros s1 a1 L1 T1 E1v E1d E1h E1x HB1 _.
  apply (HQ s1 a1 L1); try done.
  - intros x Hx. rewrite E1v. rewrite (used_update start nlog sb S G (a_view a) b (fun d => bit_clear d (b mod BPB)));
      [by rewrite Hu| |done|done].
    intros j Hj. rewrite bit_used_clear, Hu by (done || apply Z.mod_pos_bound; lia). done.
  - intros x Hx. rewrite E1v. cbn. rewrite dget_insert, decide_False by done. done.
Qed.
End Tx.
