(* ===== verification/FsFile.v ===== *)
(** * Files: [bmap], [readi], [writei], [iupdate]

    A file as the blocks its inode maps ([fblock], [file_ok]) and as bytes
    ([fbyte]).  [bmap] extends the map by fresh zeroed blocks and keeps all
    other blocks of the disk; [readi] returns the bytes; [writei] changes
    exactly the bytes written and the size. *)

From S2P Require Import Prelude Riscv Mem CString BufCache Log Fs FsBlocks.

Lemma addr_get_set ip n m a : length (i_addrs ip) = 13%nat -> 0 <= n < 13 -> 0 <= m ->
  addr_get (addr_set ip n a) m = if decide (n = m) then a else addr_get ip m.
Proof.
  intros Hl Hn Hm. unfold addr_get, addr_set. cbn [i_addrs]. rewrite !nth_lookup. case_decide as E.
  - subst. rewrite list_lookup_insert_eq; [done|lia].
  - rewrite list_lookup_insert_ne; [done|lia].
Qed.

Lemma load32_zero d o : (forall i, o <= i < o + 4 -> mget d i = 0) -> load32 d o = 0.
Proof.
  intros Hz. transitivity (load32 ∅ o); [|reflexivity]. unfold load32. apply load_le_ext. intros b Hb.
  rewrite Hz by lia. reflexivity.
Qed.

Definition with_addrs (l : list Z) (ip : inode) : inode :=
  Inode (i_dev ip) (i_inum ip) (i_ref ip) (i_locked ip) (i_valid ip) (i_type ip) (i_major ip)
    (i_minor ip) (i_nlink ip) (i_size ip) l.

(** Where block [bn] of a file is; 0 if it is not allocated. *)
Definition fblock (V : diskT) (ip : inode) (bn : Z) : Z :=
  if bn <? NDIRECT then addr_get ip bn
  else if addr_get ip NDIRECT =? 0 then 0
  else load32 (dget V (addr_get ip NDIRECT)) (4 * (bn - NDIRECT)).
(** The byte at offset [o]. *)
Definition fbyte (V : diskT) (ip : inode) (o : Z) : Z := mget (dget V (fblock V ip (o / BSIZE))) (o mod BSIZE).

Lemma fblock_ind V ip bn : NDIRECT <= bn -> addr_get ip NDIRECT <> 0 ->
  fblock V ip bn = load32 (dget V (addr_get ip NDIRECT)) (4 * (bn - NDIRECT)).
Proof.
  intros Hb Hi. unfold fblock. rewrite (proj2 (Z.ltb_ge _ _)) by lia. by rewrite (proj2 (Z.eqb_neq _ _)).
Qed.
Lemma fblock_noind V ip bn : NDIRECT <= bn -> addr_get ip NDIRECT = 0 -> fblock V ip bn = 0.
Proof. intros Hb Hi. unfold fblock. rewrite (proj2 (Z.ltb_ge _ _)) by lia. by rewrite Hi. Qed.
Lemma fblock_dir V ip bn : bn < NDIRECT -> fblock V ip bn = addr_get ip bn.
Proof. intros Hb. unfold fblock. by rewrite (proj2 (Z.ltb_lt _ _)). Qed.

Lemma fblock_frame V V' ip bn :
  (addr_get ip NDIRECT <> 0 -> dget V' (addr_get ip NDIRECT) = dget V (addr_get ip NDIRECT)) ->
  fblock V' ip bn = fblock V ip bn.
Proof.
  intros H. unfold fblock. destruct (bn <? NDIRECT); [done|]. destruct (_ =? 0) eqn:E; [done|].
  bool_to_prop. by rewrite H.
Qed.

(** [n] bytes of the file from offset [off]. *)
Definition fbytes (V : diskT) (ip : inode) (off : Z) (n : nat) : list Z :=
  map (fun k => fbyte V ip (off + Z.of_nat k)) (seq 0 n).

Lemma fbytes_length V ip off n : length (fbytes V ip off n) = n.
Proof. unfold fbytes. by rewrite length_map, length_seq. Qed.

Lemma fbytes_lookup V ip off n k : (k < n)%nat -> fbytes V ip off n !! k = Some (fbyte V ip (off + Z.of_nat k)).
Proof. intros Hk. unfold fbytes. by rewrite list_lookup_fmap, lookup_seq_lt by done. Qed.

Lemma fbytes_app V ip off n m : fbytes V ip off (n + m) = fbytes V ip off n ++ fbytes V ip (off + Z.of_nat n) m.
Proof.
  unfold fbytes. rewrite seq_app, map_app. f_equal. cbn. rewrite <- (Nat.add_0_r n) at 1.
  rewrite <- fmap_add_seq, map_map. apply map_ext. intros k. f_equal. lia.
Qed.

(** A run of bytes inside one block. *)
Lemma fbytes_block V ip off m : 0 <= off -> off mod BSIZE + Z.of_nat m <= BSIZE ->
  fbytes V ip off m = read_bytes (dget V (fblock V ip (off / BSIZE))) (off mod BSIZE) m.
Proof.
  intros Ho Hm. unfold fbytes, read_bytes. apply map_ext_in. intros k Hk%in_seq. unfold fbyte, BSIZE in *.
  replace ((off + Z.of_nat k) / 1024) with (off / 1024) by dlia.
  replace ((off + Z.of_nat k) mod 1024) with (off mod 1024 + Z.of_nat k) by dlia. done.
Qed.

(** What [readi] returns: the bytes asked for that the file has, or -1 when a
    copy fails. *)
Definition readable (ip : inode) (off n : Z) : Z :=
  if (off >? i_size ip) || (u32 (off + n) <? off) then 0
  else if u32 (off + n) >? i_size ip then i_size ip - off else n.

Lemma readable_bounds ip off n : 0 <= off < 2 ^ 32 -> 0 <= n < 2 ^ 32 -> 0 <= i_size ip < 2 ^ 32 ->
  0 <= readable ip off n /\ (off <= i_size ip -> off + readable ip off n <= i_size ip).
Proof.
  intros Ho Hn Hs. unfold readable, u32.
  assert ((off + n) mod 2 ^ 32 = off + n \/ (off + n) mod 2 ^ 32 = off + n - 2 ^ 32) as E by dlia.
  destruct (_ || _) eqn:Eb; [lia|]. apply orb_false_iff in Eb as [E1 E2].
  destruct ((off + n) mod 2 ^ 32 >? i_size ip) eqn:Eg; bool_to_prop; lia.
Qed.

#[local] Set Default Proof Using "All".

Section File.
Context (start nlog : Z) (sb : superblock) (S : gset Z) (G : geom start nlog sb S).
Implicit Types (V : diskT) (ip : inode) (b r bn : Z).

(** A block that a file may use. *)
Definition data V b : Prop := inrange sb b /\ home start nlog b /\ (b ∉ S) /\ used sb V b = true.

Record file_ok V ip : Prop := {
  fo_dev : i_dev ip = ROOTDEV;
  fo_len : length (i_addrs ip) = 13%nat;
  fo_size : 0 <= i_size ip <= MAXFILE * BSIZE;
  fo_data bn : 0 <= bn < MAXFILE -> fblock V ip bn <> 0 -> data V (fblock V ip bn);
  fo_ind : addr_get ip NDIRECT <> 0 -> data V (addr_get ip NDIRECT);
  fo_inj bn bn' : 0 <= bn < MAXFILE -> 0 <= bn' < MAXFILE ->
    fblock V ip bn <> 0 -> fblock V ip bn = fblock V ip bn' -> bn = bn';
  fo_sep bn : 0 <= bn < MAXFILE -> fblock V ip bn <> 0 -> fblock V ip bn <> addr_get ip NDIRECT;
  fo_holes bn : 0 <= bn -> bn * BSIZE < i_size ip -> fblock V ip bn <> 0
}.

(** What [bmap] does to the disk and the inode; [r] is its result. *)
Record bmapped V ip bn r V' ip' : Prop := {
  bm_ok : file_ok V' ip';
  bm_meta : exists l, ip' = with_addrs l ip;
  bm_at : r <> 0 -> fblock V' ip' bn = r;
  bm_same bn' : 0 <= bn' < MAXFILE -> bn' <> bn \/ r = 0 -> fblock V' ip' bn' = fblock V ip bn';
  bm_old : fblock V ip bn <> 0 -> r = fblock V ip bn /\ V' = V /\ ip' = ip;
  bm_new : fblock V ip bn = 0 -> r <> 0 ->
    used sb V r = false /\ forall i, 0 <= i < BSIZE -> mget (dget V' r) i = 0;
  bm_frame b : data V b -> b <> addr_get ip NDIRECT -> dget V' b = dget V b;
  bm_used b : inrange sb b -> used sb V b = true -> used sb V' b = true;
  bm_ind : addr_get ip' NDIRECT <> addr_get ip NDIRECT ->
    addr_get ip' NDIRECT <> 0 /\ used sb V (addr_get ip' NDIRECT) = false;
  bm_inodes b : b ∈ S -> (forall c, inrange sb c -> b <> BBLOCK c sb) -> dget V' b = dget V b;
  bm_free : free_ok start nlog sb S V'
}.

Lemma fo_lt V ip m : file_ok V ip -> m * BSIZE < i_size ip -> m < MAXFILE.
Proof. intros F Hm. pose proof (fo_size _ _ F) as H. unfold BSIZE in *. lia. Qed.

Lemma alloced_data V r V' b : alloced sb V r V' -> data V b -> b <> r /\ data V' b /\ dget V' b = dget V b.
Proof.
  intros A (Hb & Hh & HS & Hu). assert (b <> r) as Hne by (intros ->; rewrite (al_free _ _ _ _ A) in Hu; done).
  split; [done|]. split.
  - split; [done|]. split; [done|]. split; [done|]. rewrite (al_used _ _ _ _ A b Hb). by rewrite decide_False.
  - apply (al_other _ _ _ _ A); [done|]. intros ->. apply HS. apply (g_map _ _ _ _ G), (al_range _ _ _ _ A).
Qed.

Lemma alloced_new V r V' : alloced sb V r V' -> free_ok start nlog sb S V -> data V' r /\ r <> 0.
Proof.
  intros A HF. destruct (HF r (al_range _ _ _ _ A) (al_free _ _ _ _ A)) as (H0 & Hh & HS). split; [|done].
  split; [apply A|]. split; [done|]. split; [done|]. rewrite (al_used _ _ _ _ A) by apply A. by rewrite decide_True.
Qed.

Lemma alloced_file V r V' ip : alloced sb V r V' -> file_ok V ip ->
  file_ok V' ip /\ forall bn, fblock V' ip bn = fblock V ip bn.
Proof.
  intros A F. assert (forall bn, fblock V' ip bn = fblock V ip bn) as E.
  { intros bn. apply fblock_frame. intros H. apply (alloced_data V r V'); [done|]. by apply F. }
  split; [|done]. destruct F. split; try done.
  - intros bn Hbn. rewrite E. intros H. apply (alloced_data V r V'); [done|]. by apply fo_data0.
  - intros H. apply (alloced_data V r V'); [done|]. by apply fo_ind0.
  - intros bn bn' Hb Hb'. rewrite !E. by apply fo_inj0.
  - intros bn Hb. rewrite E. by apply fo_sep0.
  - intros bn Hb. rewrite E. by apply fo_holes0.
Qed.

(** The frame conditions that an allocation gives. *)
Lemma alloced_inodes V r V' b : alloced sb V r V' -> free_ok start nlog sb S V ->
  b ∈ S -> (forall c, inrange sb c -> b <> BBLOCK c sb) -> dget V' b = dget V b.
Proof.
  intros A HF Hb Hc. apply (al_other _ _ _ _ A); [|apply Hc, A]. intros ->.
  destruct (HF r (al_range _ _ _ _ A) (al_free _ _ _ _ A)) as (_ & _ & ?). done.
Qed.

Lemma alloced_used V r V' b : alloced sb V r V' -> inrange sb b -> used sb V b = true -> used sb V' b = true.
Proof. intros A Hb Hu. rewrite (al_used _ _ _ _ A b Hb). by case_decide. Qed.

(** A fresh block is none of the file's. *)
Lemma alloced_fresh V r V' ip : alloced sb V r V' -> file_ok V ip ->
  (forall bn, 0 <= bn < MAXFILE -> fblock V ip bn <> 0 -> fblock V ip bn <> r) /\
  (addr_get ip NDIRECT <> 0 -> addr_get ip NDIRECT <> r).
Proof.
  intros A F. split.
  - intros bn Hbn H0. apply (alloced_data V r V'); [done|]. by apply F.
  - intros H0. apply (alloced_data V r V'); [done|]. by apply F.
Qed.

(** A direct block. *)
Lemma bmap_direct V ip bn r V' :
  file_ok V ip -> free_ok start nlog sb S V -> 0 <= bn < NDIRECT -> addr_get ip bn = 0 -> alloced sb V r V' ->
  bmapped V ip bn r V' (addr_set ip bn r).
Proof.
  intros F HF Hbn E0 A. destruct (alloced_file V r V' ip A F) as [F' Ef].
  destruct (alloced_new V r V' A HF) as [Hr Hr0]. destruct (alloced_fresh V r V' ip A F) as [Hfr Hfi].
  pose proof (fo_len _ _ F) as Hl. change NDIRECT with 12 in Hbn.
  assert (addr_get (addr_set ip bn r) NDIRECT = addr_get ip NDIRECT) as Ei
    by (change NDIRECT with 12; rewrite addr_get_set by lia; rewrite decide_False by lia; done).
  assert (forall m, 0 <= m < MAXFILE -> fblock V' (addr_set ip bn r) m = if decide (m = bn) then r else fblock V ip m) as Eb.
  { intros m Hm. rewrite <- Ef. unfold fblock. rewrite Ei. destruct (m <? NDIRECT) eqn:Em; bool_to_prop.
    - rewrite addr_get_set by lia. by case_decide; case_decide; try lia.
    - change NDIRECT with 12 in Em. by rewrite decide_False by lia. }
  split.
  - destruct F'. split; try done.
    + cbn. by rewrite length_insert.
    + intros m Hm. rewrite Eb by done. case_decide; [done|]. rewrite <- Ef. by apply fo_data0.
    + rewrite Ei. by apply fo_ind0.
    + intros m m' Hm Hm'. rewrite !Eb by done. case_decide; case_decide; subst; try done.
      * intros _ E. exfalso. apply (Hfr m'); [done| |done]. by rewrite <- E.
      * intros H0 E. exfalso. by apply (Hfr m).
      * rewrite <- !Ef. by apply fo_inj0.
    + intros m Hm. rewrite Eb, Ei by done. case_decide; [|rewrite <- Ef; by apply fo_sep0].
      intros _ E. apply Hfi; [|done]. rewrite <- E. done.
    + intros m Hm Hs. change (i_size (addr_set ip bn r)) with (i_size ip) in Hs. pose proof (fo_lt V ip m F Hs).
      rewrite Eb by lia. case_decide; [done|]. rewrite <- Ef. by apply fo_holes0.
  - eexists. reflexivity.
  - intros _. rewrite Eb by (change MAXFILE with 268; lia). by rewrite decide_True.
  - intros m Hm [Hne|E]; [|done]. rewrite Eb by done. by rewrite decide_False.
  - intros H. exfalso. apply H. unfold fblock. rewrite (proj2 (Z.ltb_lt bn NDIRECT)) by (change NDIRECT with 12; lia). done.
  - intros _ _. split; [apply A|apply A].
  - intros b Hb _. by apply (alloced_data V r V').
  - intros b Hb. by apply (alloced_used V r V').
  - by rewrite Ei.
  - intros b Hb Hc. by apply (alloced_inodes V r V').
  - by apply (alloc_free_ok start nlog sb S G V r).
Qed.

(** A new indirect block maps nothing yet. *)
Lemma bmap_new_ind V ip bn r V' :
  file_ok V ip -> free_ok start nlog sb S V -> NDIRECT <= bn -> addr_get ip NDIRECT = 0 -> alloced sb V r V' ->
  bmapped V ip bn 0 V' (addr_set ip NDIRECT r).
Proof.
  intros F HF Hbn E0 A. destruct (alloced_file V r V' ip A F) as [F' Ef].
  destruct (alloced_new V r V' A HF) as [Hr Hr0]. destruct (alloced_fresh V r V' ip A F) as [Hfr _].
  pose proof (fo_len _ _ F) as Hl.
  assert (forall m, 0 <= m -> addr_get (addr_set ip NDIRECT r) m = if decide (m = NDIRECT) then r else addr_get ip m) as Ea.
  { intros m Hm. rewrite addr_get_set by (change NDIRECT with 12; lia). by case_decide; case_decide; subst. }
  assert (addr_get (addr_set ip NDIRECT r) NDIRECT = r) as Ei by (rewrite Ea by done; by rewrite decide_True).
  assert (forall m, 0 <= m < MAXFILE -> fblock V' (addr_set ip NDIRECT r) m = fblock V ip m) as Eb.
  { intros m Hm. destruct (decide (m < NDIRECT)) as [Hlt|Hge].
    - rewrite !fblock_dir, Ea by lia. by rewrite decide_False by lia.
    - rewrite fblock_ind, Ei, (fblock_noind V) by (rewrite ?Ei; lia || done).
      apply load32_zero. intros j Hj. apply (al_zero _ _ _ _ A). change NDIRECT with 12 in *.
      change MAXFILE with 268 in Hm. unfold BSIZE. lia. }
  split; try done.
  - destruct F'. split; try done.
    + cbn. by rewrite length_insert.
    + intros m Hm. rewrite Eb by done. rewrite <- Ef. by apply fo_data0.
    + by rewrite Ei.
    + intros m m' Hm Hm'. rewrite !Eb by done. rewrite <- !Ef. by apply fo_inj0.
    + intros m Hm. rewrite Eb, Ei by done. by apply Hfr.
    + intros m Hm Hs. change (i_size (addr_set ip NDIRECT r)) with (i_size ip) in Hs. pose proof (fo_lt V ip m F Hs).
      rewrite Eb by lia. rewrite <- Ef. by apply fo_holes0.
  - eexists. reflexivity.
  - intros m Hm _. by apply Eb.
  - intros H. exfalso. apply H. by apply fblock_noind.
  - intros b Hb _. by apply (alloced_data V r V').
  - intros b Hb. by apply (alloced_used V r V').
  - rewrite Ei. intros _. split; [done|apply A].
  - intros b Hb Hc. by apply (alloced_inodes V r V').
  - by apply (alloc_free_ok start nlog sb S G V r).
Qed.

Lemma used_other V b d c : (b ∉ S) -> inrange sb c -> used sb (<[b := d]> V) c = used sb V c.
Proof.
  intros Hb Hc. unfold used. rewrite dget_insert, decide_False; [done|]. intros ->. apply Hb. by apply (g_map _ _ _ _ G).
Qed.

(** A block entered in the indirect block [x]. *)
Lemma bmap_entry V ip bn r V1 :
  let x := addr_get ip NDIRECT in
  let V' := <[x := store32 (dget V x) (4 * (bn - NDIRECT)) r]> V1 in
  file_ok V ip -> free_ok start nlog sb S V -> NDIRECT <= bn < MAXFILE -> x <> 0 -> fblock V ip bn = 0 ->
  alloced sb V r V1 -> bmapped V ip bn r V' ip.
Proof.
  intros x V' F HF Hbn Hx E0 A. destruct (alloced_file V r V1 ip A F) as [F1 Ef].
  destruct (alloced_new V r V1 A HF) as [Hr Hr0]. destruct (alloced_fresh V r V1 ip A F) as [Hfr Hfi].
  destruct (fo_ind _ _ F Hx) as (Hx1 & Hx2 & HxS & Hx4). fold x in Hx1, Hx2, HxS, Hx4, Hfi.
  assert (forall c, inrange sb c -> used sb V' c = used sb V1 c) as Eu by (intros c Hc; by apply used_other).
  assert (0 <= r < 2 ^ 32) as Hr32 by (destruct Hr as [H _]; pose proof (g_size _ _ _ _ G); unfold inrange in H; lia).
  assert (forall b, data V1 b <-> data V' b) as Ed.
  { intros b. unfold data. split; intros (H1 & H2 & H3 & H4); (split; [done|split; [done|split; [done|]]]).
    - by rewrite Eu.
    - by rewrite Eu in H4. }
  assert (forall m, 0 <= m < MAXFILE -> fblock V' ip m = if decide (m = bn) then r else fblock V ip m) as Eb.
  { intros m Hm. destruct (decide (m < NDIRECT)) as [Hlt|Hge].
    - rewrite !fblock_dir by lia. by rewrite decide_False by lia.
    - rewrite !fblock_ind by (done || lia). fold x. unfold V'. rewrite dget_insert, decide_True by done.
      destruct (decide (m = bn)) as [->|Hne].
      + rewrite load32_store32_eq. unfold u32. by rewrite Z.mod_small.
      + apply load32_store32_ne. lia. }
  split.
  - destruct F1. split; try done.
    + intros m Hm. rewrite Eb by done. rewrite <- Ed. case_decide; [done|]. rewrite <- Ef. by apply fo_data0.
    + intros _. rewrite <- Ed. by apply fo_ind0.
    + intros m m' Hm Hm'. rewrite !Eb by done. case_decide; case_decide; subst; try done.
      * intros _ E. exfalso. apply (Hfr m'); [done| |done]. by rewrite <- E.
      * intros H0 E. exfalso. by apply (Hfr m).
      * rewrite <- !Ef. by apply fo_inj0.
    + intros m Hm. rewrite Eb by done. case_decide; [|rewrite <- Ef; by apply fo_sep0].
      intros _ E. by apply Hfi.
    + intros m Hm Hs. pose proof (fo_lt V ip m F Hs).
      rewrite Eb by lia. case_decide; [done|]. rewrite <- Ef. by apply fo_holes0.
  - exists (i_addrs ip). by destruct ip.
  - intros _. rewrite Eb by (change NDIRECT with 12 in Hbn; lia). by rewrite decide_True.
  - intros m Hm [Hne|E]; [|done]. rewrite Eb by done. by rewrite decide_False.
  - done.
  - intros _ _. split; [apply A|]. intros i Hi. unfold V'. rewrite dget_insert, decide_False by (by apply Hfi). by apply A.
  - intros b Hb Hne. unfold V'. rewrite dget_insert, decide_False by (intros <-; by apply Hne). by apply (alloced_data V r V1).
  - intros b Hb Hu. rewrite Eu by done. by apply (alloced_used V r V1).
  - done.
  - intros b Hb Hc. unfold V'. rewrite dget_insert, decide_False by (intros <-; done). by apply (alloced_inodes V r V1).
  - intros b Hb Hu. rewrite Eu in Hu by done. by apply (alloc_free_ok start nlog sb S G V r V1).
Qed.

(** First the indirect block, then the entry. *)
Lemma bmapped_trans V ip bn r V1 ip1 V2 ip2 :
  bmapped V ip bn 0 V1 ip1 -> fblock V ip bn = 0 -> addr_get ip NDIRECT = 0 -> 0 <= bn < MAXFILE ->
  (forall b, data V b -> b <> addr_get ip1 NDIRECT /\ data V1 b) ->
  bmapped V1 ip1 bn r V2 ip2 -> bmapped V ip bn r V2 ip2.
Proof.
  intros B1 E0 Ei Hbn Hd B2. split; try apply B2.
  - destruct (bm_meta _ _ _ _ _ _ B1) as [l ->], (bm_meta _ _ _ _ _ _ B2) as [l' ->]. by exists l'.
  - intros m Hm H. rewrite (bm_same _ _ _ _ _ _ B2) by done. apply (bm_same _ _ _ _ _ _ B1); auto.
  - done.
  - intros _ H. assert (fblock V1 ip1 bn = 0) as E1 by (rewrite (bm_same _ _ _ _ _ _ B1); auto).
    destruct (bm_new _ _ _ _ _ _ B2 E1 H) as [Hu Hz]. split; [|done].
    destruct (used sb V r) eqn:Er; [|done]. exfalso.
    assert (inrange sb r) as Hr.
    { pose proof (bm_at _ _ _ _ _ _ B2 H) as E. rewrite <- E. apply (fo_data _ _ (bm_ok _ _ _ _ _ _ B2)); [done|]. by rewrite E. }
    by rewrite (bm_used _ _ _ _ _ _ B1 r Hr Er) in Hu.
  - intros b Hb Hn. destruct (Hd b Hb) as [Hne Hb1]. rewrite (bm_frame _ _ _ _ _ _ B2) by done.
    by apply (bm_frame _ _ _ _ _ _ B1).
  - intros b Hb Hu. apply (bm_used _ _ _ _ _ _ B2); [done|]. by apply (bm_used _ _ _ _ _ _ B1).
  - intros Hne. destruct (decide (addr_get ip2 NDIRECT = addr_get ip1 NDIRECT)) as [E|E].
    { rewrite E in Hne |- *. by apply (bm_ind _ _ _ _ _ _ B1). }
    destruct (bm_ind _ _ _ _ _ _ B2 E) as [H0 Hu]. split; [done|].
    destruct (fo_ind _ _ (bm_ok _ _ _ _ _ _ B2) H0) as [Hr _].
    destruct (used sb V _) eqn:Eu; [|done]. by rewrite (bm_used _ _ _ _ _ _ B1 _ Hr Eu) in Hu.
  - intros b Hb Hc. rewrite (bm_inodes _ _ _ _ _ _ B2) by done. by apply (bm_inodes _ _ _ _ _ _ B1).
Qed.
End File.

Section Ops.
Context {C : Type} `{!BufCache C} `{!BufCacheSpec C}.
Context (start nlog : Z) (Hlog : 0 <= start /\ 1 <= nlog /\ start + nlog < 2 ^ 31) (Hnl : nlog <= LOGSIZE).
Context (sb : superblock) (S : gset Z) (G : geom start nlog sb S).
Abbreviation fstate := (kst C fsx).
Abbreviation Tx := (tx start nlog sb S).
Abbreviation File := (file_ok start nlog sb S).
Abbreviation Free := (free_ok start nlog sb S).
Abbreviation Booked := (booked S).
Implicit Types (s : fstate) (a : acache) (L : list Z) (H : gmap Z Z) (k b i : Z).

(** [s'] is [s] with inode [i] changed to [ip]. *)
Record ext_is s s' i (ip : inode) : Prop := {
  ex_sb : f_sb (k_ext s') = f_sb (k_ext s);
  ex_cwd : f_cwd (k_ext s') = f_cwd (k_ext s);
  ex_at : iat s' i = ip;
  ex_other j : j <> i -> iat s' j = iat s j
}.

Lemma ext_is_refl s s' i ip : k_ext s' = k_ext s -> iat s i = ip -> ext_is s s' i ip.
Proof. intros E Hi. split; try by rewrite E. - unfold iat in *. by rewrite E. - intros j _. unfold iat. by rewrite E. Qed.

Lemma ext_is_trans s s1 s2 i ip1 ip2 : ext_is s s1 i ip1 -> ext_is s1 s2 i ip2 -> ext_is s s2 i ip2.
Proof.
  intros [] []. split; try congruence. intros j Hj. rewrite ex_other1 by done. by apply ex_other0.
Qed.

Lemma upd_i_tx s a L H k i f (Q : unit -> fstate -> Prop) :
  Tx s a L H k -> (forall s', Tx s' a L H k -> ext_is s s' i (f (iat s i)) -> Q tt s') -> wp (upd_i i f) s Q.
Proof.
  intros T HQ. apply wp_modify. apply HQ.
  - apply (tx_ext start nlog Hlog Hnl sb S G); [done|]. cbn. apply T.
  - split; try done.
    + unfold iat at 1. cbn. by rewrite lookup_insert_eq.
    + intros j Hj. unfold iat. cbn. by rewrite lookup_insert_ne.
Qed.

(** What logging the indirect block would still cost. *)
Definition indcost L (ip : inode) : Z :=
  if decide (addr_get ip NDIRECT <> 0 /\ addr_get ip NDIRECT ∈ Booked L ∅) then 0 else 1.

Lemma indcost_range L ip : 0 <= indcost L ip <= 1.
Proof. unfold indcost. case_decide; lia. Qed.

(** What a caller of [bmap] gets. *)
Definition bmap_post s a L k i ip bn (Q : Z -> fstate -> Prop) : Prop :=
  forall r s' a' L' k' ip', Tx s' a' L' ∅ k' -> bmapped start nlog sb S (a_view a) ip bn r (a_view a') ip' ->
    ext_is s s' i ip' -> Booked L ∅ ⊆ Booked L' ∅ -> a_disk a' = a_disk a -> a_hist a' = a_hist a ->
    (fblock (a_view a) ip bn <> 0 -> a' = a /\ L' = L /\ k' = k) ->
    (fblock (a_view a) ip bn = 0 -> k - indcost L ip - 1 <= k' - indcost L' ip' /\ (r <> 0 -> r ∈ Booked L' ∅)) ->
    (r = 0 -> forall b, inrange sb b -> used sb (a_view a') b = true) ->
    Q r s'.

Lemma held_none V : held_ok sb S V ∅.
Proof. by intros j b. Qed.

Lemma bmapped_old V ip bn : File V ip -> Free V -> fblock V ip bn <> 0 ->
  bmapped start nlog sb S V ip bn (fblock V ip bn) V ip.
Proof.
  intros F HF Hb. split; try done. - exists (i_addrs ip). by destruct ip.
Qed.

Lemma bmap_direct_wp s a L k i ip bn (Q : Z -> fstate -> Prop) :
  Tx s a L ∅ k -> iat s i = ip -> File (a_view a) ip -> Free (a_view a) -> 0 <= bn < NDIRECT ->
  1 + indcost L ip <= k -> bmap_post s a L k i ip bn Q -> wp (bmap i bn) s Q.
Proof.
  intros T Hi F HF Hbn Hk HQ. unfold bmap, get_i. wp_step. wp_step. rewrite Hi.
  rewrite (proj2 (Z.ltb_lt _ _)) by lia. pose proof (indcost_range L ip).
  assert (fblock (a_view a) ip bn = addr_get ip bn) as Ef by (apply fblock_dir; lia || done).
  destruct (addr_get ip bn =? 0) eqn:E; bool_to_prop.
  2: { wp_step. rewrite <- Ef in E |- *. eapply (HQ _ s a L k ip); [done|by apply bmapped_old|by apply ext_is_refl|done|done|done|done|done|].
       intros E0. congruence. }
  wp_step. rewrite (fo_dev _ _ _ _ _ _ F). apply (balloc_wp start nlog Hlog Hnl sb S G s a L ∅ k); [done|lia|apply held_none|done|].
  split.
  - intros s1 T1 Ex Hfull. cbn [Z.eqb]. wp_step. eapply (HQ 0 s1 a L k ip); [done| |by apply ext_is_refl|done|done|done|by rewrite Ef|lia|done].
    split; try done. + exists (i_addrs ip). by destruct ip. + by rewrite Ef.
  - intros r s1 a1 L1 T1 A _ Ed Eh Ex HB Hr.
    destruct (alloced_new start nlog sb S G _ _ _ A HF) as [_ Hr0].
    rewrite (proj2 (Z.eqb_neq _ _)) by done. wp_step.
    apply (upd_i_tx s1 a1 L1 ∅ (k - 1) i); [done|]. intros s2 T2 Ex2. wp_step.
    eapply (HQ r s2 a1 L1 (k - 1)); [done| | |done|done|done|by rewrite Ef| |done].
    + by apply bmap_direct.
    + eapply ext_is_trans; [by apply (ext_is_refl s s1 i ip)|]. assert (iat s1 i = ip) as E1 by (unfold iat in *; by rewrite Ex).
      by rewrite E1 in Ex2.
    + intros _. split; [|done]. unfold indcost.
      assert (addr_get (addr_set ip bn r) NDIRECT = addr_get ip NDIRECT) as ->.
      { rewrite addr_get_set by (apply F || (change NDIRECT with 12 in *; lia)). change NDIRECT with 12 in *. by rewrite decide_False by lia. }
      repeat case_decide; try lia. set_solver.
Qed.

Lemma bmapped_full V ip bn : File V ip -> Free V -> fblock V ip bn = 0 -> bmapped start nlog sb S V ip bn 0 V ip.
Proof. intros F HF Hb. split; try done. exists (i_addrs ip). by destruct ip. Qed.

Lemma indcost_booked L ip : addr_get ip NDIRECT <> 0 ->
  (if decide (addr_get ip NDIRECT ∈ Booked L ∅) then 0 else 1) = indcost L ip.
Proof. intros H. unfold indcost. repeat case_decide; try done; tauto. Qed.

Lemma unlock_locked a j b v : a_held a = ∅ ->
  a_unlock j (locked_view a j b v) = Acache v (a_disk a) (a_pins a) ∅ (a_hist a).
Proof. intros E. unfold a_unlock, locked_view. cbn. by rewrite E, insert_empty, delete_singleton_eq. Qed.

Lemma bmap_ind_wp s a L k i ip bn (Q : Z -> fstate -> Prop) :
  Tx s a L ∅ k -> iat s i = ip -> File (a_view a) ip -> Free (a_view a) -> NDIRECT <= bn < MAXFILE ->
  addr_get ip NDIRECT <> 0 -> 1 + indcost L ip <= k -> bmap_post s a L k i ip bn Q ->
  wp (bmap_ind (i_dev ip) (addr_get ip NDIRECT) (bn - NDIRECT)) s Q.
Proof.
  intros T Hi F HF Hbn Hx Hk HQ. set (x := addr_get ip NDIRECT) in *. pose proof (tx_held _ _ _ _ _ _ _ _ _ T) as Hh.
  destruct (fo_ind _ _ _ _ _ _ F Hx) as (Hx1 & Hx2 & HxS & Hx4). fold x in Hx1, Hx2, HxS, Hx4.
  pose proof (fblock_ind (a_view a) ip bn ltac:(lia) Hx) as Ef. fold x in Ef.
  unfold bmap_ind. rewrite (fo_dev _ _ _ _ _ _ F).
  wp_step. apply (tx_bread start nlog Hlog Hnl sb S G s a L ∅ k x); [done|done|]. intros j c Hj Hc.
  wp_step. apply wp_lift. eapply bdata_spec; [exact Hc|by cbn; rewrite lookup_insert_eq|].
  cbn [a_view locked_view k_log k_ext]. rewrite <- Ef. destruct (fblock (a_view a) ip bn =? 0) eqn:E0; bool_to_prop.
  2: { wp_step. wp_step. wp_step.
       apply (tx_release start nlog Hlog Hnl sb S G s a L ∅ k j x); [done|done|done|done|]. intros c2 T2. wp_step.
       eapply (HQ _ (Kst c2 (k_log s) (k_ext s)) a L k ip);
         [done|by apply bmapped_old|by apply ext_is_refl|done|done|done|done|done|]. intros E. congruence. }
  pose proof (tx_hold start nlog Hlog Hnl sb S G s a L ∅ k j x c T Hj) as T1.
  replace (if decide (x ∈ Booked L ∅) then k else k - 1) with (k - indcost L ip) in T1
    by (rewrite <- indcost_booked by done; fold x; case_decide; lia).
  specialize (T1 ltac:(right; pose proof (indcost_range L ip); lia) Hc).
  wp_step. wp_step.
  apply (balloc_wp start nlog Hlog Hnl sb S G _ _ _ _ _ _ T1); [lia| |done|].
  { intros j' b. rewrite lookup_insert_Some. by intros [[_ <-]|[_ ?]]. }
  split.
  - intros s1 T2 Ex Hfull. cbn [Z.eqb negb]. wp_step. wp_step.
    eapply (tx_brelse start nlog Hlog Hnl sb S G _ _ _ _ _ j x _ T2); [by rewrite lookup_insert_eq| |].
    { destruct (decide (x ∈ L)); [by left|right]. apply (crep_clean _ _ _ (tx_crep _ _ _ _ _ _ _ _ _ T)).
      rewrite (pinned_busy a L); [done|apply T|done]. }
    intros c2 a2 T3. unfold a2 in T3. rewrite (unlock_locked a) in T3 by done.
    rewrite insert_empty, delete_singleton_eq in T3. wp_step.
    eapply (HQ 0 _ _ L _ ip); [exact T3|by apply bmapped_full|by apply ext_is_refl|done|done|done|by rewrite E0| |done].
    intros _. pose proof (indcost_range L ip). split; [lia|done].
  - intros r s1 a1 L1 T2 A _ Ed Eh Ex HB Hr. cbn [a_view locked_view k_ext] in A, Ed, Eh, Ex.
    destruct (alloced_new start nlog sb S G _ _ _ A HF) as [_ Hr0].
    rewrite (proj2 (Z.eqb_neq r 0)) by done. cbn [negb].
    wp_step. apply (tx_bset start nlog Hlog Hnl sb S G _ _ _ _ _ j x _ _ T2); [by rewrite lookup_insert_eq|].
    intros c3 T3. wp_step.
    apply (tx_log_write start nlog Hlog Hnl sb S G _ _ _ _ _ j x _ T3); [by rewrite lookup_insert_eq|done|].
    intros s4 a4 L4 T4 E4v E4d E4h E4x HB4 HxL HL4. wp_step. wp_step.
    apply (tx_brelse start nlog Hlog Hnl sb S G _ _ _ _ _ j x _ T4); [by rewrite lookup_insert_eq|by left|].
    intros c5 a5 T5. rewrite insert_empty, delete_singleton_eq in T5. wp_step.
    assert (Booked L4 ∅ = Booked L1 (<[j := x]> ∅)) as HB5.
    { rewrite <- HB4, (booked_insert start nlog Hlog Hnl sb S G) by done. unfold booked. set_solver. }
    assert (Booked L ∅ ⊆ Booked L4 ∅) as HB6.
    { rewrite HB5. etransitivity; [|exact HB]. rewrite (booked_insert start nlog Hlog Hnl sb S G) by done. set_solver. }
    eapply (HQ r (Kst c5 (k_log s4) (k_ext s4)) a5 L4 _ ip); [exact T5| |apply ext_is_refl; [cbn; by rewrite E4x|done]| | | |by rewrite E0| |done].
    + cbn [a_view a_unlock a5]. rewrite E4v. cbn [a_view a_store]. rewrite Ef in E0. by apply bmap_entry; rewrite ?Ef.
    + done.
    + cbn. by rewrite E4d.
    + cbn. by rewrite E4h.
    + intros _. assert (indcost L4 ip = 0) as ->.
      { unfold indcost. rewrite decide_True; [done|]. split; [done|]. unfold booked. set_solver. }
      split; [lia|]. intros _. by rewrite HB5.
Qed.

Lemma bmap_wp s a L k i ip bn (Q : Z -> fstate -> Prop) :
  Tx s a L ∅ k -> iat s i = ip -> File (a_view a) ip -> Free (a_view a) -> 0 <= bn < MAXFILE ->
  1 + indcost L ip <= k -> bmap_post s a L k i ip bn Q -> wp (bmap i bn) s Q.
Proof.
  intros T Hi F HF Hbn Hk HQ. destruct (decide (bn < NDIRECT)) as [Hlt|Hge]; [apply (bmap_direct_wp s a L k i ip); try done; lia|].
  unfold bmap, get_i. wp_step. wp_step. rewrite Hi, (proj2 (Z.ltb_ge _ _)) by lia.
  rewrite (proj2 (Z.ltb_lt _ _)) by (change MAXFILE with (NDIRECT + NINDIRECT) in Hbn; lia).
  destruct (addr_get ip NDIRECT =? 0) eqn:E; bool_to_prop.
  2: { wp_step. wp_step. rewrite (proj2 (Z.eqb_neq _ _)) by done. apply (bmap_ind_wp s a L k i ip); try done. lia. }
  assert (fblock (a_view a) ip bn = 0) as E0 by (apply fblock_noind; [lia|done]).
  assert (indcost L ip = 1) as Eic by (unfold indcost; rewrite decide_False; [done|naive_solver]).
  wp_step. wp_step. rewrite (fo_dev _ _ _ _ _ _ F).
  apply (balloc_wp start nlog Hlog Hnl sb S G s a L ∅ k); [done|lia|apply held_none|done|]. split.
  - intros s1 T1 Ex Hfull. cbn [Z.eqb]. wp_step. cbn [Z.eqb]. wp_step.
    eapply (HQ 0 s1 a L k ip); [done|by apply bmapped_full|by apply ext_is_refl|done|done|done|by rewrite E0| |done].
    intros _. split; [lia|done].
  - intros x s1 a1 L1 T1 A _ Ed Eh Ex HB Hx.
    destruct (alloced_new start nlog sb S G _ _ _ A HF) as [_ Hx0].
    rewrite (proj2 (Z.eqb_neq x 0)) by done. wp_step.
    apply (upd_i_tx s1 a1 L1 ∅ (k - 1) i); [done|]. intros s2 T2 Ex2. wp_step.
    assert (iat s1 i = ip) as E1 by (unfold iat in *; by rewrite Ex). rewrite E1 in Ex2.
    set (ip1 := addr_set ip NDIRECT x) in *.
    assert (addr_get ip1 NDIRECT = x) as Ex1.
    { unfold ip1. rewrite addr_get_set by (apply F || done). by rewrite decide_True. }
    pose proof (bmap_new_ind start nlog sb S G (a_view a) ip bn x (a_view a1) F HF ltac:(lia) E A) as B1. fold ip1 in B1.
    assert (indcost L1 ip1 = 0) as Eic1 by (unfold indcost; rewrite decide_True; [done|by rewrite Ex1]).
    rewrite (proj2 (Z.eqb_neq x 0)) by done.
    replace (bmap_ind ROOTDEV x (bn - NDIRECT)) with (bmap_ind (i_dev ip1) (addr_get ip1 NDIRECT) (bn - NDIRECT) : M fstate Z)
      by (rewrite Ex1; unfold ip1; cbn; by rewrite (fo_dev _ _ _ _ _ _ F)).
    apply (bmap_ind_wp s2 a1 L1 (k - 1) i ip1); [done|apply Ex2|apply B1|apply B1|lia|by rewrite Ex1|lia|].
    intros r s3 a3 L3 k3 ip3 T3 B3 Ex3 HB3 Ed3 Eh3 Hold Hnew Hfull.
    assert (fblock (a_view a1) ip1 bn = 0) as E01 by (rewrite (bm_same _ _ _ _ _ _ _ _ _ _ B1); auto).
    eapply (HQ r s3 a3 L3 k3 ip3); [done| | |set_solver|congruence|congruence|by rewrite E0| |done].
    + eapply bmapped_trans; try done. intros b Hb.
      destruct (alloced_data start nlog sb S G _ _ _ _ A Hb) as (Hne & Hd & _). by rewrite Ex1.
    + eapply ext_is_trans; [by apply (ext_is_refl s s1 i ip)|]. by eapply ext_is_trans.
    + intros _. destruct (Hnew E01) as [Hk3 Hr3]. split; [lia|done].
Qed.

(** ** Reading *)

Abbreviation Rd := (rd start nlog sb S).

Lemma bmap_read_wp s a L i ip bn (Q : Z -> fstate -> Prop) :
  Rd s a L ∅ -> iat s i = ip -> File (a_view a) ip -> 0 <= bn < MAXFILE -> fblock (a_view a) ip bn <> 0 ->
  (forall c, crep c a -> Q (fblock (a_view a) ip bn) (Kst c (k_log s) (k_ext s))) ->
  wp (bmap i bn) s Q.
Proof.
  intros T Hi F Hbn Hb HQ. unfold bmap, get_i. wp_step. wp_step. rewrite Hi.
  destruct (bn <? NDIRECT) eqn:E; bool_to_prop.
  - rewrite fblock_dir in Hb, HQ by done. rewrite (proj2 (Z.eqb_neq _ _)) by done. wp_step.
    destruct s as [c l x]. apply HQ, T.
  - rewrite (proj2 (Z.ltb_lt _ _)) by (change MAXFILE with (NDIRECT + NINDIRECT) in Hbn; lia).
    assert (addr_get ip NDIRECT <> 0) as Hx by (intros Ex; apply Hb; by apply fblock_noind).
    rewrite (proj2 (Z.eqb_neq _ _)) by done. wp_step. wp_step. rewrite (proj2 (Z.eqb_neq _ _)) by done.
    unfold bmap_ind. rewrite (fo_dev _ _ _ _ _ _ F).
    wp_step. apply (rd_bread start nlog Hlog Hnl sb S G s a L ∅); [done|done|]. intros j c Hj Hc.
    wp_step. apply wp_lift. eapply bdata_spec; [exact Hc|by cbn; rewrite lookup_insert_eq|]. cbn [a_view locked_view].
    rewrite <- fblock_ind by done. rewrite (proj2 (Z.eqb_neq _ _)) by done. wp_step. wp_step.
    wp_step. apply (rd_release start nlog Hlog Hnl sb S G s a L ∅ j (addr_get ip NDIRECT)); [done|done|done|done|].
    intros c' Hc'. wp_step. by apply HQ.
Qed.

Lemma readi_wp s a L i ip ok off n (Q : Z * list Z -> fstate -> Prop) :
  Rd s a L ∅ -> iat s i = ip -> File (a_view a) ip -> 0 <= off < 2 ^ 32 -> 0 <= n < 2 ^ 32 ->
  let n' := readable ip off n in
  (forall c, crep c a -> Q (n', fbytes (a_view a) ip off (Z.to_nat n')) (Kst c (k_log s) (k_ext s))) ->
  (forall c t, crep c a -> 0 <= t < n' -> ok t = false ->
     Q (-1, fbytes (a_view a) ip off (Z.to_nat t)) (Kst c (k_log s) (k_ext s))) ->
  wp (readi i ok off n) s Q.
Proof.
  intros T Hi F Hoff Hn n' HQ HQ'. unfold readi, get_i. wp_step. wp_step. rewrite Hi.
  pose proof (fo_size _ _ _ _ _ _ F) as Hs. change (MAXFILE * BSIZE) with 274432 in Hs.
  assert (0 <= i_size ip < 2 ^ 32) as Hs32 by lia. pose proof (readable_bounds ip off n Hoff Hn Hs32) as Hn01. fold n' in Hn01.
  unfold readable in n'. destruct (_ || _) eqn:Eb.
  { wp_step. destruct s as [c l x]. apply (HQ c), T. }
  cbv zeta. fold n'. destruct Hn01 as [Hn0 Hn1]. specialize (Hn1 ltac:(by apply orb_false_iff in Eb as [E1 E2]; bool_to_prop)). clearbody n'.
  apply (wp_loop_var _ (fun v => let '(tot, o, _) := v in
      if tot <? n' then (off + n' - 1) / BSIZE - o / BSIZE + 1 else 0)
    (fun v s1 => let '(tot, o, acc) := v in exists c, s1 = Kst c (k_log s) (k_ext s) /\ crep c a /\
       0 <= tot <= n' /\ o = off + tot /\ acc = fbytes (a_view a) ip off (Z.to_nat tot))).
  - intros [[tot o] acc] s1 (c & -> & Hc & Ht & -> & ->). unfold readi_step.
    destruct (tot <? n') eqn:Et; bool_to_prop.
    2: { wp_step. replace tot with n' by lia. by apply HQ. }
    set (o := off + tot). assert (0 <= o) by (unfold o; lia).
    assert (0 <= o / BSIZE /\ o / BSIZE * BSIZE < i_size ip) as [Hbn Hbs] by (unfold o, BSIZE in *; dlia).
    pose proof (rd_bc start nlog Hlog Hnl sb S G s a L ∅ c T Hc) as T1.
    pose proof (fo_holes _ _ _ _ _ _ F _ Hbn Hbs) as Hb0.
    pose proof (fo_lt start nlog sb S G _ _ _ F Hbs) as Hlt.
    pose proof (fo_data _ _ _ _ _ _ F (o / BSIZE) ltac:(lia) Hb0) as (_ & _ & _ & _).
    wp_step. apply (bmap_read_wp _ a L i ip); [done|done|done|lia|done|]. intros c1 Hc1. cbn [k_log k_ext].
    rewrite (proj2 (Z.eqb_neq _ _)) by done. unfold get_i. wp_step. wp_step.
    change (iat (Kst c1 (k_log s) (k_ext s)) i) with (iat s i). rewrite Hi, (fo_dev _ _ _ _ _ _ F).
    pose proof (rd_bc start nlog Hlog Hnl sb S G s a L ∅ c1 T Hc1) as T2.
    wp_step. apply (rd_bread start nlog Hlog Hnl sb S G _ a L ∅ _ _ T2); [done|]. intros j c2 Hj Hc2.
    wp_step. apply wp_lift. eapply bdata_spec; [exact Hc2|by cbn; rewrite lookup_insert_eq|]. cbn [a_view locked_view k_log k_ext].
    set (m := Z.min (n' - tot) (BSIZE - o mod BSIZE)).
    assert (0 < m /\ m <= n' - tot /\ o mod BSIZE + m <= BSIZE) as (Hm0 & Hm1 & Hm2) by (unfold m, BSIZE in *; dlia).
    destruct (ok tot) eqn:Eok.
    + wp_step. apply (rd_release start nlog Hlog Hnl sb S G s a L ∅ j (fblock (a_view a) ip (o / BSIZE))); [done|done|done|done|].
      intros c3 Hc3. wp_step. split.
      * exists c3. split; [done|]. split; [done|]. split; [lia|]. split; [unfold o; lia|].
        rewrite <- fbytes_block by lia. unfold o. rewrite Z2Nat.inj_add by lia. rewrite fbytes_app. by rewrite Z2Nat.id by lia.
      * destruct (tot + m <? n') eqn:Em; bool_to_prop; unfold m, o, BSIZE in *; dlia.
    + wp_step. apply (rd_release start nlog Hlog Hnl sb S G s a L ∅ j (fblock (a_view a) ip (o / BSIZE))); [done|done|done|done|].
      intros c3 Hc3. wp_step. apply HQ'; [done|lia|done].
  - exists (k_bc s). split; [by destruct s|]. split; [apply T|]. split; [lia|]. split; [lia|done].
  - cbn. destruct (0 <? n') eqn:E0; bool_to_prop; [|lia]. unfold BSIZE. dlia.
Qed.
End Ops.
