(* ===== verification/FsWrite.v ===== *)
(** * Writing files

    [iupdate] and [writei] of kernel/fs.c inside a transaction: the bytes that
    are written, the bytes and the other files that are not touched, and that a
    write fits the log space reserved for it. *)

From S2P Require Import Prelude Riscv Mem BufCache Log CString Fs FsBlocks FsFile.

(** The blocks that [n] bytes from [off] touch. *)
Definition nblk (off n : Z) : Z := if n <=? 0 then 0 else (off + n - 1) / BSIZE - off / BSIZE + 1.

(** A source that holds [bytes], of which each chunk is copied whole or not at
    all.  A source in kernel memory is one, and so is user memory for a chunk
    inside one page ([CopyOut.copyin_page]).  It excludes a chunk of which
    [either_copyin] copies the first part before it meets an unmapped page: the
    cached block then keeps these bytes, though [writei] does not log them. *)
Definition src_is (src : Z -> Z -> list Z * bool) (bytes : list Z) : Prop :=
  forall tot m, 0 <= tot -> 0 <= m -> tot + m <= Z.of_nat (length bytes) ->
    src tot m = (take (Z.to_nat m) (drop (Z.to_nat tot) bytes), true) \/ src tot m = ([], false).

Lemma ksrc_is bytes : src_is (ksrc bytes) bytes.
Proof. intros tot m _ _ _. by left. Qed.

Lemma nblk_step o n : 0 <= o -> 0 < n ->
  let m := Z.min n (BSIZE - o mod BSIZE) in
  0 < m /\ m <= n /\ o mod BSIZE + m <= BSIZE /\ nblk (o + m) (n - m) = nblk o n - 1.
Proof.
  intros Ho Hn m. assert (0 < m /\ m <= n /\ o mod BSIZE + m <= BSIZE) as (H1 & H2 & H3) by (unfold m, BSIZE in *; dlia).
  split; [done|]. split; [done|]. split; [done|]. unfold nblk.
  rewrite (proj2 (Z.leb_gt n 0)) by lia. destruct (n - m <=? 0) eqn:E; bool_to_prop; unfold m, BSIZE in *; dlia.
Qed.
#[local] Set Default Proof Using "All".

Section File.
Context (start nlog : Z) (sb : superblock) (S : gset Z) (G : geom start nlog sb S).
Abbreviation File := (file_ok start nlog sb S).
Abbreviation Free := (free_ok start nlog sb S).
Abbreviation Data := (data start nlog sb S).
Implicit Types (V : diskT) (ip : inode) (b r bn off : Z) (l : list Z).

(** [b] is not a block of the file. *)
Definition foreign ip V b : Prop :=
  (forall bn, 0 <= bn < MAXFILE -> fblock V ip bn <> b) /\ addr_get ip NDIRECT <> b.

(** The bytes [l] have been written from offset [off] on; the size is not
    updated yet. *)
Record wrote V ip off l V' ip' : Prop := {
  w_file : File V' ip';
  w_free : Free V';
  w_meta : exists x, ip' = with_addrs x ip;
  w_holes bn : 0 <= bn -> bn * BSIZE < off + Z.of_nat (length l) -> fblock V' ip' bn <> 0;
  w_bytes p : 0 <= p < Z.max (i_size ip) (off + Z.of_nat (length l)) ->
    fbyte V' ip' p = if decide (off <= p < off + Z.of_nat (length l))
                     then nth (Z.to_nat (p - off)) l 0 else fbyte V ip p;
  w_frame b : Data V b -> foreign ip V b -> dget V' b = dget V b /\ foreign ip' V' b;
  w_used b : inrange sb b -> used sb V b = true -> used sb V' b = true;
  w_inodes b : b ∈ S -> (forall c, inrange sb c -> b <> BBLOCK c sb) -> dget V' b = dget V b
}.

(** A file depends on the free map and on its block addresses only. *)
Lemma file_ok_ext V V' ip :
  (forall b, inrange sb b -> used sb V' b = used sb V b) ->
  (forall bn, 0 <= bn < MAXFILE -> fblock V' ip bn = fblock V ip bn) -> File V ip -> File V' ip.
Proof.
  intros Eu Ef F. assert (forall b, Data V b -> Data V' b) as Ed.
  { intros b (H1 & H2 & H3 & H4). split; [done|]. split; [done|]. split; [done|]. by rewrite Eu. }
  pose proof (fo_lt start nlog sb S G V ip) as Hlt. destruct F. split; try done.
  - intros bn Hb. rewrite Ef by done. intros H. by apply Ed, fo_data.
  - intros H. by apply Ed, fo_ind.
  - intros bn bn' Hb Hb'. rewrite !Ef by done. by apply fo_inj.
  - intros bn Hb. rewrite Ef by done. by apply fo_sep.
  - intros bn Hb Hs. assert (bn < MAXFILE) by (apply Hlt; [by split|done]). rewrite Ef by done. by apply fo_holes.
Qed.

Lemma free_ok_ext V V' : (forall b, inrange sb b -> used sb V' b = used sb V b) -> Free V -> Free V'.
Proof. intros Eu HF b Hb. rewrite Eu by done. by apply HF. Qed.

(** Writing one of the data blocks of the file. *)
Lemma fblock_write V ip bn d : File V ip -> 0 <= bn < MAXFILE -> fblock V ip bn <> 0 ->
  let V' := <[fblock V ip bn := d]> V in
  (forall b, inrange sb b -> used sb V' b = used sb V b) /\
  (forall m, 0 <= m < MAXFILE -> fblock V' ip m = fblock V ip m).
Proof.
  intros F Hbn H0 V'. destruct (fo_data _ _ _ _ _ _ F bn Hbn H0) as (_ & _ & HS & _). split.
  - intros b Hb. by apply (used_other start nlog sb S G).
  - intros m Hm. apply fblock_frame. intros Hx. unfold V'. rewrite dget_insert, decide_False; [done|].
    by apply (fo_sep _ _ _ _ _ _ F).
Qed.

Lemma wrote_nil V ip off : File V ip -> Free V -> 0 <= off <= i_size ip -> wrote V ip off [] V ip.
Proof.
  intros F HF Ho. split; try done.
  - exists (i_addrs ip). by destruct ip.
  - cbn. intros bn Hb Hs. apply (fo_holes _ _ _ _ _ _ F); lia.
  - cbn. intros p Hp. by rewrite decide_False by lia.
Qed.

(** A block inside the part written so far, or inside the old size, exists. *)
Lemma wrote_block V ip off l V' ip' p : wrote V ip off l V' ip' -> off + Z.of_nat (length l) <= MAXFILE * BSIZE ->
  0 <= p < Z.max (i_size ip) (off + Z.of_nat (length l)) ->
  0 <= p / BSIZE < MAXFILE /\ fblock V' ip' (p / BSIZE) <> 0.
Proof.
  intros W Hm Hp. destruct (w_meta _ _ _ _ _ _ W) as [x Ex].
  assert (i_size ip' = i_size ip) as Es by (by rewrite Ex).
  pose proof (fo_size _ _ _ _ _ _ (w_file _ _ _ _ _ _ W)) as Hs. rewrite Es in Hs.
  split; [unfold BSIZE in *; dlia|]. destruct (decide (p < off + Z.of_nat (length l))).
  - apply (w_holes _ _ _ _ _ _ W); unfold BSIZE in *; dlia.
  - apply (fo_holes _ _ _ _ _ _ (w_file _ _ _ _ _ _ W)); rewrite ?Es; unfold BSIZE in *; dlia.
Qed.

Lemma wrote_bmap V ip off l V1 ip1 bn r V2 ip2 :
  wrote V ip off l V1 ip1 -> off + Z.of_nat (length l) <= MAXFILE * BSIZE -> 0 <= bn < MAXFILE ->
  bmapped start nlog sb S V1 ip1 bn r V2 ip2 -> wrote V ip off l V2 ip2.
Proof.
  intros W Hm Hbn B. pose proof (w_file _ _ _ _ _ _ W) as F1.
  assert (forall m, 0 <= m < MAXFILE -> fblock V1 ip1 m <> 0 -> fblock V2 ip2 m = fblock V1 ip1 m) as Ef.
  { intros m Hm' H. destruct (decide (m = bn)) as [->|Hne].
    - destruct (bm_old _ _ _ _ _ _ _ _ _ _ B H) as (_ & -> & ->). done.
    - apply (bm_same _ _ _ _ _ _ _ _ _ _ B); auto. }
  split; try apply B.
  - destruct (bm_meta _ _ _ _ _ _ _ _ _ _ B) as [x ->], (w_meta _ _ _ _ _ _ W) as [y ->]. by exists x.
  - intros m Hm0 Hm1. assert (fblock V1 ip1 m <> 0) by (by apply (w_holes _ _ _ _ _ _ W)).
    rewrite Ef; [done| |done]. unfold BSIZE in *. lia.
  - intros p Hp. rewrite <- (w_bytes _ _ _ _ _ _ W p Hp). destruct (wrote_block _ _ _ _ _ _ p W Hm Hp) as [Hr H0].
    unfold fbyte. rewrite Ef by done. f_equal. apply (bm_frame _ _ _ _ _ _ _ _ _ _ B).
    + by apply (fo_data _ _ _ _ _ _ F1).
    + by apply (fo_sep _ _ _ _ _ _ F1).
  - intros b Hb Hfo. destruct (w_frame _ _ _ _ _ _ W b Hb Hfo) as [Eb [Hf1 Hf2]].
    destruct Hb as (Hb1 & Hb2 & Hb3 & Hb4). pose proof (w_used _ _ _ _ _ _ W b Hb1 Hb4) as Hu1.
    split; [rewrite (bm_frame _ _ _ _ _ _ _ _ _ _ B); [done|done|auto]|]. split.
    + intros m Hm'. destruct (decide (m <> bn \/ r = 0)) as [H|H].
      { rewrite (bm_same _ _ _ _ _ _ _ _ _ _ B) by done. by apply Hf1. }
      assert (m = bn /\ r <> 0) as [-> Hr] by (destruct (decide (m = bn)); tauto).
      rewrite (bm_at _ _ _ _ _ _ _ _ _ _ B Hr). intros ->. destruct (decide (fblock V1 ip1 bn = 0)) as [H0|H0].
      * destruct (bm_new _ _ _ _ _ _ _ _ _ _ B H0 Hr) as [Hu _]. congruence.
      * destruct (bm_old _ _ _ _ _ _ _ _ _ _ B H0) as (E & _). by apply (Hf1 bn).
    + destruct (decide (addr_get ip2 NDIRECT = addr_get ip1 NDIRECT)) as [->|Hne]; [done|].
      destruct (bm_ind _ _ _ _ _ _ _ _ _ _ B Hne) as [_ Hu]. intros E. rewrite E in Hu. congruence.
  - intros b Hb Hu. apply (bm_used _ _ _ _ _ _ _ _ _ _ B); [done|]. by apply (w_used _ _ _ _ _ _ W).
  - intros b Hb Hc. rewrite (bm_inodes _ _ _ _ _ _ _ _ _ _ B) by done. by apply (w_inodes _ _ _ _ _ _ W).
Qed.

Lemma wrote_chunk V ip off l V1 ip1 bs :
  let o := off + Z.of_nat (length l) in
  let r := fblock V1 ip1 (o / BSIZE) in
  0 <= off -> wrote V ip off l V1 ip1 -> o + Z.of_nat (length bs) <= MAXFILE * BSIZE ->
  0 <= o / BSIZE < MAXFILE -> r <> 0 ->
  o mod BSIZE + Z.of_nat (length bs) <= BSIZE -> Forall (fun x => 0 <= x < 256) bs ->
  wrote V ip off (l ++ bs) (<[r := write_bytes (dget V1 r) (o mod BSIZE) bs]> V1) ip1.
Proof.
  intros o r Hoff W Hmax Hbn Hr Hfit Hby. pose proof (w_file _ _ _ _ _ _ W) as F1.
  destruct (fblock_write V1 ip1 (o / BSIZE) (write_bytes (dget V1 r) (o mod BSIZE) bs) F1 Hbn Hr) as [Eu Ef].
  fold r in Eu, Ef. destruct (fo_data _ _ _ _ _ _ F1 _ Hbn Hr) as (_ & _ & HrS & _). fold r in HrS.
  set (V2 := <[r := _]> V1) in *.
  split.
  - by apply (file_ok_ext V1).
  - by apply (free_ok_ext V1), W.
  - apply W.
  - intros bn H0 Hb. rewrite length_app, Nat2Z.inj_add in Hb. fold o in Hb.
    rewrite Ef by (unfold BSIZE in *; lia). destruct (decide (bn * BSIZE < o)); [by apply (w_holes _ _ _ _ _ _ W)|].
    assert (bn = o / BSIZE) as -> by (unfold BSIZE in *; dlia). done.
  - intros p Hp. rewrite length_app, Nat2Z.inj_add in Hp |- *. fold o in Hp |- *.
    assert (p < Z.max (i_size ip) (o + Z.of_nat (length bs))) as Hp' by (unfold o; lia).
    unfold fbyte at 1. destruct (decide (p / BSIZE = o / BSIZE)) as [Ep|Ep].
    + rewrite Ep, Ef by done. fold r. unfold V2. rewrite dget_insert, decide_True by done.
      rewrite mget_write_bytes. destruct (decide (o <= p < o + Z.of_nat (length bs))) as [Hin|Hout].
      * rewrite !decide_True by (unfold o, BSIZE in *; dlia).
        rewrite app_nth2 by (unfold o in *; lia).
        replace (Z.to_nat (p mod BSIZE - o mod BSIZE)) with (Z.to_nat (p - off) - length l)%nat
          by (unfold o, BSIZE in *; dlia).
        rewrite nth_lookup.
        destruct (bs !! _) as [x|] eqn:Ex; [|done]. cbn. apply Z.mod_small. by eapply (Forall_lookup_1 _ _ _ _ Hby).
      * rewrite decide_False by (unfold BSIZE in *; dlia).
        replace (mget (dget V1 r) (p mod BSIZE)) with (fbyte V1 ip1 p) by (unfold fbyte; by rewrite Ep).
        rewrite (w_bytes _ _ _ _ _ _ W) by (fold o; lia). fold o. repeat case_decide; try lia; try done.
        rewrite app_nth1 by (unfold o in *; lia). done.
    + assert (~ (o <= p < o + Z.of_nat (length bs))) as Hout by (unfold BSIZE in *; dlia).
      assert (0 <= p < Z.max (i_size ip) o) as Hp2 by lia.
      destruct (wrote_block _ _ _ _ _ _ p W ltac:(fold o; lia) Hp2) as [Hpr Hp0].
      rewrite Ef by done. unfold V2. rewrite dget_insert, decide_False.
      2: { unfold r. intros E. apply Ep. symmetry. by apply (fo_inj _ _ _ _ _ _ F1). }
      change (mget _ _) with (fbyte V1 ip1 p). rewrite (w_bytes _ _ _ _ _ _ W) by done. fold o.
      repeat case_decide; try lia; try done. rewrite app_nth1 by (unfold o in *; lia). done.
  - intros b Hb Hf. destruct (w_frame _ _ _ _ _ _ W b Hb Hf) as [Eb [Hf1 Hf2]]. split.
    + unfold V2. rewrite dget_insert, decide_False; [done|]. by apply Hf1.
    + split; [|done]. intros m Hm. rewrite Ef by done. by apply Hf1.
  - intros b Hb Hu. rewrite Eu by done. by apply (w_used _ _ _ _ _ _ W).
  - intros b Hb Hc. unfold V2. rewrite dget_insert, decide_False by (intros <-; done). by apply (w_inodes _ _ _ _ _ _ W).
Qed.

(** The inode's block is an inode block. *)
Record inode_home ip : Prop := {
  ih_S : IBLOCK (i_inum ip) sb ∈ S;
  ih_home : home start nlog (IBLOCK (i_inum ip) sb);
  ih_map c : inrange sb c -> IBLOCK (i_inum ip) sb <> BBLOCK c sb
}.

(** What [writei] has done when it returns: [l] is what it wrote. *)
Record written V ip off l V' ip' : Prop := {
  wn_file : File V' ip';
  wn_free : Free V';
  wn_meta : exists x, ip' = with_size (Z.max (i_size ip) (off + Z.of_nat (length l))) (with_addrs x ip);
  wn_bytes p : 0 <= p < i_size ip' ->
    fbyte V' ip' p = if decide (off <= p < off + Z.of_nat (length l))
                     then nth (Z.to_nat (p - off)) l 0 else fbyte V ip p;
  wn_frame b : Data V b -> foreign ip V b -> dget V' b = dget V b;
  wn_used b : inrange sb b -> used sb V b = true -> used sb V' b = true;
  wn_inodes b : b ∈ S -> b <> IBLOCK (i_inum ip) sb -> (forall c, inrange sb c -> b <> BBLOCK c sb) ->
    dget V' b = dget V b;
  wn_dinode : dget V' (IBLOCK (i_inum ip) sb) =
    dinode_store (dget V (IBLOCK (i_inum ip) sb)) (dinode_off (i_inum ip)) ip'
}.

(** Writing the inode's block changes no file. *)
Lemma inode_write V ip0 ip d : inode_home ip0 -> File V ip ->
  let V' := <[IBLOCK (i_inum ip0) sb := d]> V in
  (forall b, inrange sb b -> used sb V' b = used sb V b) /\
  (forall bn, fblock V' ip bn = fblock V ip bn) /\
  (forall b, (b ∉ S) -> dget V' b = dget V b).
Proof.
  intros [HS Hh Hm] F V'.
  assert (forall b, (b ∉ S) -> dget V' b = dget V b) as Eb.
  { intros b Hb. unfold V'. rewrite dget_insert, decide_False; [done|]. by intros <-. }
  split; [|split; [|done]].
  - intros b Hb. unfold used, V'. rewrite dget_insert, decide_False; [done|]. by apply Hm.
  - intros bn. apply fblock_frame. intros Hx. apply Eb. by destruct (fo_ind _ _ _ _ _ _ F Hx) as (_ & _ & ? & _).
Qed.

Lemma wrote_done V ip off l V1 ip1 :
  let ip' := with_size (Z.max (i_size ip) (off + Z.of_nat (length l))) ip1 in
  0 <= off -> wrote V ip off l V1 ip1 -> off + Z.of_nat (length l) <= MAXFILE * BSIZE -> inode_home ip ->
  written V ip off l
    (<[IBLOCK (i_inum ip) sb := dinode_store (dget V1 (IBLOCK (i_inum ip) sb)) (dinode_off (i_inum ip)) ip']> V1) ip'.
Proof.
  intros ip' Hoff W Hmax Hih. destruct (w_meta _ _ _ _ _ _ W) as [x Ex].
  pose proof (w_file _ _ _ _ _ _ W) as F1. assert (i_size ip1 = i_size ip) as Es by (by rewrite Ex).
  assert (File V1 ip') as F'.
  { pose proof F1 as [? ? Hsz ? ? ? ? Hho]. split; try done.
    - cbn. rewrite Es in Hsz. lia.
    - cbn. intros bn Hb Hlt. change (fblock V1 ip' bn) with (fblock V1 ip1 bn). destruct (decide (bn * BSIZE < i_size ip)); [apply Hho; [done|lia]|].
      apply (w_holes _ _ _ _ _ _ W); lia. }
  destruct (inode_write V1 ip ip' (dinode_store (dget V1 (IBLOCK (i_inum ip) sb)) (dinode_off (i_inum ip)) ip') Hih F') as (Eu & Ef & Eb).
  set (V2 := <[_ := _]> V1) in *. split.
  - by apply (file_ok_ext V1).
  - by apply (free_ok_ext V1), W.
  - exists x. unfold ip'. by rewrite Ex.
  - intros p Hp. rewrite <- (w_bytes _ _ _ _ _ _ W p Hp). unfold fbyte. rewrite Ef. change (fblock V1 ip' _) with (fblock V1 ip1 (p / BSIZE)).
    destruct (wrote_block _ _ _ _ _ _ p W Hmax Hp) as [Hr H0]. rewrite Eb; [done|].
    by destruct (fo_data _ _ _ _ _ _ F1 _ Hr H0) as (_ & _ & ? & _).
  - intros b Hb Hf. destruct (w_frame _ _ _ _ _ _ W b Hb Hf) as [<- _]. apply Eb. apply Hb.
  - intros b Hb Hu. rewrite Eu by done. by apply (w_used _ _ _ _ _ _ W).
  - intros b Hb Hne Hc. unfold V2. rewrite dget_insert, decide_False by done. by apply (w_inodes _ _ _ _ _ _ W).
  - unfold V2. rewrite dget_insert, decide_True by done. rewrite (w_inodes _ _ _ _ _ _ W); [done|apply Hih..].
Qed.
End File.

Section Ops.
Context {C : Type} `{!BufCache C} `{!BufCacheSpec C}.
Context (start nlog : Z) (Hlog : 0 <= start /\ 1 <= nlog /\ start + nlog < 2 ^ 31) (Hnl : nlog <= LOGSIZE).
Context (sb : superblock) (S : gset Z) (G : geom start nlog sb S).
Abbreviation fstate := (kst C fsx).
Abbreviation Tx := (tx start nlog sb S).
Abbreviation File := (file_ok start nlog sb S).
Abbreviation Free := (free_ok start nlog sb S).
Abbreviation Booked := (booked S).
Implicit Types (s : fstate) (a : acache) (L : list Z) (H : gmap Z Z) (k b i : Z).

Lemma iupdate_wp s a L k i ip (Q : unit -> fstate -> Prop) :
  Tx s a L ∅ k -> iat s i = ip -> i_dev ip = ROOTDEV -> inode_home start nlog sb S ip ->
  (forall s' a' L', Tx s' a' L' ∅ k ->
     a_view a' = (let b := IBLOCK (i_inum ip) sb in
                  <[b := dinode_store (dget (a_view a) b) (dinode_off (i_inum ip)) ip]> (a_view a)) ->
     a_disk a' = a_disk a -> a_hist a' = a_hist a -> k_ext s' = k_ext s -> Booked L ∅ ⊆ Booked L' ∅ -> Q tt s') ->
  wp (iupdate i) s Q.
Proof.
  intros T Hi Hd [HS Hh Hm] HQ. unfold iupdate, get_i, get_sb. wp_step. wp_step. wp_step. wp_step.
  rewrite Hi, Hd, (tx_sb _ _ _ _ _ _ _ _ _ T). set (b := IBLOCK (i_inum ip) sb) in *.
  wp_step. apply (tx_bread start nlog Hlog Hnl sb S G s a L ∅ k b); [done|done|]. intros j c Hj Hc.
  wp_step. apply wp_lift. eapply bdata_spec; [exact Hc|by cbn; rewrite lookup_insert_eq|].
  wp_step. apply wp_lift. eapply bset_spec; [exact Hc|by cbn; rewrite lookup_insert_eq|]. intros c2 Hc2.
  cbn [k_log k_ext].
  eapply (tx_log_release start nlog Hlog Hnl sb S G s a L ∅ k j b); [exact T|exact Hj|exact Hh|left; unfold booked; set_solver|exact Hc2|].
  rewrite decide_True by (unfold booked; set_solver). intros s1 a1 L1 T1 E1v E1d E1h E1x HB1 _.
  by apply (HQ s1 a1 L1).
Qed.

(** Releasing a buffer that was stored to but holds what it held before. *)
Lemma tx_release_same s a L k j b v c (Q : unit -> fstate -> Prop) :
  Tx s a L ∅ k -> dget v b = dget (a_view a) b -> crep c (locked_view a j b v) ->
  (forall c' a', Tx (Kst c' (k_log s) (k_ext s)) a' L ∅ k -> a_view a' = v -> a_disk a' = a_disk a -> a_hist a' = a_hist a ->
     Q tt (Kst c' (k_log s) (k_ext s))) ->
  wp (lift (brelse j)) (Kst c (k_log s) (k_ext s)) Q.
Proof.
  intros T Ev Hc HQ. pose proof (tx_held _ _ _ _ _ _ _ _ _ T) as Hh. apply wp_lift.
  eapply (brelse_spec _ _ j b); [exact Hc|by cbn; rewrite lookup_insert_eq| |].
  { destruct (decide (b ∈ L)) as [HbL|HbL].
    - left. change (pins (locked_view a j b v) b) with (pins a b).
      rewrite (pinned_pins a L b (tx_pins _ _ _ _ _ _ _ _ _ T)), decide_True by done. lia.
    - right. cbn. rewrite Ev. apply (crep_clean _ _ _ (tx_crep _ _ _ _ _ _ _ _ _ T)).
      rewrite (pinned_busy a L); [done|apply T|done]. }
  intros c2 Hc2. rewrite (unlock_locked start nlog Hlog Hnl sb S G a) in Hc2 by done.
  apply (HQ c2 (Acache v (a_disk a) (a_pins a) ∅ (a_hist a))); [|done..]. destruct T. by split; try done; apply logged_bc.
Qed.

(** Between two rounds of the loop: [tot] bytes are written. *)
Record wround s a L i ip off bytes (tot : Z) s1 a1 L1 k1 ip1 : Prop := {
  wr_tx : Tx s1 a1 L1 ∅ k1;
  wr_ext : ext_is s s1 i ip1;
  wr_wrote : wrote start nlog sb S (a_view a) ip off (take (Z.to_nat tot) bytes) (a_view a1) ip1;
  wr_tot : 0 <= tot <= Z.of_nat (length bytes);
  wr_disk : a_disk a1 = a_disk a;
  wr_hist : a_hist a1 = a_hist a;
  wr_booked : Booked L ∅ ⊆ Booked L1 ∅
}.

Lemma indcost_mono L L' ip : Booked L ∅ ⊆ Booked L' ∅ -> indcost S L' ip <= indcost S L ip.
Proof. intros HB. unfold indcost. repeat case_decide; try lia. set_solver. Qed.

(** Why [writei] stops. *)
Definition wstop (src : Z -> Z -> list Z * bool) (n tot : Z) V : Prop :=
  tot = n \/ (tot < n /\ exists m, snd (src tot m) = false) \/
  (tot < n /\ forall b, inrange sb b -> used sb V b = true).

Lemma writei_step_wp s a L i ip src off bytes tot s1 a1 L1 k1 ip1 (Q : (Z * Z) + (Z * Z) -> fstate -> Prop) :
  let n := Z.of_nat (length bytes) in
  0 <= off -> off + n <= MAXFILE * BSIZE -> src_is src bytes -> Forall (fun x => 0 <= x < 256) bytes ->
  wround s a L i ip off bytes tot s1 a1 L1 k1 ip1 -> nblk (off + tot) (n - tot) + indcost S L1 ip1 <= k1 ->
  (forall tot' s2 a2 L2 k2 ip2, tot < n -> 0 <= nblk (off + tot') (n - tot') ->
     nblk (off + tot') (n - tot') = nblk (off + tot) (n - tot) - 1 ->
     nblk (off + tot') (n - tot') + indcost S L2 ip2 <= k2 ->
     wround s a L i ip off bytes tot' s2 a2 L2 k2 ip2 -> Q (inl (tot', off + tot')) s2) ->
  (forall s2 a2 L2 k2 ip2, wround s a L i ip off bytes tot s2 a2 L2 k2 ip2 -> wstop src n tot (a_view a2) ->
     Q (inr (tot, off + tot)) s2) ->
  wp (writei_step i n src (tot, off + tot)) s1 Q.
Proof.
  intros n Ho Hmax Hsrc Hby [T Ex W Ht Ed Eh HB] Hk HQ HQ'. unfold writei_step. fold n in Ht, Hk.
  destruct (tot <? n) eqn:Et; bool_to_prop.
  2: { wp_step. apply (HQ' s1 a1 L1 k1 ip1); [done|]. left. lia. }
  set (o := off + tot) in *. destruct (nblk_step o (n - tot) ltac:(unfold o; lia) ltac:(lia)) as (Hm0 & Hm1 & Hm2 & Hm3).
  assert (0 <= o / BSIZE < MAXFILE) as Hbn by (unfold o, BSIZE in *; dlia).
  assert (Z.of_nat (length (take (Z.to_nat tot) bytes)) = tot) as Hlen by (rewrite length_take; unfold n in *; lia).
  assert (0 <= nblk (o + Z.min (n - tot) (BSIZE - o mod BSIZE)) (n - tot - Z.min (n - tot) (BSIZE - o mod BSIZE))) as Hnb.
  { unfold nblk. destruct (_ <=? 0) eqn:E; bool_to_prop; [lia|]. unfold o, BSIZE in *. dlia. }
  pose proof (w_file _ _ _ _ _ _ _ _ _ _ W) as F1.
  wp_step. apply (bmap_wp start nlog Hlog Hnl sb S G s1 a1 L1 k1 i ip1); [done|apply Ex|done|apply W|done|lia|].
  intros r s2 a2 L2 k2 ip2 T2 B2 Ex2 HB2 Ed2 Eh2 Hold Hnew Hfull.
  pose proof (wrote_bmap start nlog sb S G _ _ _ _ _ _ _ _ _ _ W ltac:(lia) Hbn B2) as W2.
  pose proof (ext_is_trans start nlog Hlog Hnl sb S G _ _ _ _ _ _ Ex Ex2) as Ex02.
  assert (k1 - indcost S L1 ip1 - 1 <= k2 - indcost S L2 ip2 /\
    (r <> 0 -> fblock (a_view a1) ip1 (o / BSIZE) <> 0 -> k2 = k1 /\ L2 = L1 /\ ip2 = ip1)) as [Hk2 Hk2'].
  { destruct (decide (fblock (a_view a1) ip1 (o / BSIZE) = 0)) as [E0|E0].
    - split; [by apply Hnew|done].
    - destruct (Hold E0) as (_ & -> & ->), (bm_old _ _ _ _ _ _ _ _ _ _ B2 E0) as (_ & _ & ->). split; [lia|done]. }
  destruct (r =? 0) eqn:Er; bool_to_prop.
  { wp_step. apply (HQ' s2 a2 L2 k2 ip2).
    - split; try done; [congruence|congruence|set_solver].
    - right. right. split; [done|]. by apply Hfull. }
  assert (fblock (a_view a2) ip2 (o / BSIZE) = r) as Efr by (by apply (bm_at _ _ _ _ _ _ _ _ _ _ B2)).
  pose proof (w_file _ _ _ _ _ _ _ _ _ _ W2) as F2.
  destruct (fo_data _ _ _ _ _ _ F2 _ Hbn ltac:(by rewrite Efr)) as (_ & Hrh & _ & _). rewrite Efr in Hrh.
  unfold get_i. wp_step. wp_step. rewrite (ex_at _ _ _ _ Ex2), (fo_dev _ _ _ _ _ _ F2).
  wp_step. apply (tx_bread start nlog Hlog Hnl sb S G s2 a2 L2 ∅ k2 r); [done|done|]. intros j c Hj Hc.
  wp_step. apply wp_lift. eapply bdata_spec; [exact Hc|by cbn; rewrite lookup_insert_eq|]. cbn [a_view locked_view k_log k_ext].
  set (m := Z.min (n - tot) (BSIZE - o mod BSIZE)) in *.
  wp_step. apply wp_lift. eapply bset_spec; [exact Hc|by cbn; rewrite lookup_insert_eq|]. intros c2 Hc2. cbn [k_log k_ext].
  change (a_store r ?d (locked_view a2 j r (a_view a2))) with (locked_view a2 j r (<[r := d]> (a_view a2))) in Hc2.
  destruct (Hsrc tot m ltac:(lia) ltac:(lia) ltac:(unfold n in *; lia)) as [Es|Es]; rewrite Es in Hc2 |- *; cbn [fst snd] in Hc2 |- *.
  - set (bs := take (Z.to_nat m) (drop (Z.to_nat tot) bytes)) in *.
    assert (length bs = Z.to_nat m) as Hbs by (unfold bs; rewrite length_take, length_drop; unfold n in *; lia).
    apply wp_bind_assoc, wp_bind.
    eapply (tx_log_release start nlog Hlog Hnl sb S G s2 a2 L2 ∅ k2 j r); [exact T2|exact Hj|exact Hrh| |exact Hc2|].
    { destruct (decide (fblock (a_view a1) ip1 (o / BSIZE) = 0)) as [E0|E0]; [left; by apply Hnew|right].
      destruct (Hk2' Er E0) as [-> _]. pose proof (indcost_range start nlog Hlog Hnl sb S G L1 ip1). lia. }
    intros s3 a3 L3 T3 E3v E3d E3h E3x HB3 _. wp_step.
    pose proof (indcost_mono L2 L3 ip2 HB3) as Hi3.
    replace (o + m) with (off + (tot + m)) by (unfold o; lia).
    eapply (HQ (tot + m) s3 a3 L3 _ ip2); [done| | | |split; [exact T3|..]].
    + replace (off + (tot + m)) with (o + m) by (unfold o; lia). replace (n - (tot + m)) with (n - tot - m) by lia. done.
    + fold o. replace (off + (tot + m)) with (o + m) by (unfold o; lia). replace (n - (tot + m)) with (n - tot - m) by lia. done.
    + replace (off + (tot + m)) with (o + m) by (unfold o; lia). replace (n - (tot + m)) with (n - tot - m) by lia.
      destruct (decide (fblock (a_view a1) ip1 (o / BSIZE) = 0)) as [E0|E0].
      * rewrite decide_True by (by apply Hnew). lia.
      * destruct (Hk2' Er E0) as (-> & -> & ->). case_decide; lia.
    + eapply (ext_is_trans start nlog Hlog Hnl sb S G); [exact Ex02|].
      apply (ext_is_refl start nlog Hlog Hnl sb S G); [done|apply Ex2].
    + rewrite E3v, Z2Nat.inj_add, <- take_take_drop by lia. fold bs.
      pose proof (wrote_chunk start nlog sb S G _ _ _ _ _ _ bs Ho W2) as WC. rewrite Hlen in WC. fold o in WC.
      rewrite Efr in WC. apply WC; try done; [rewrite Hbs; unfold o; lia|rewrite Hbs; lia|].
      by apply Forall_take, Forall_drop.
    + fold n. lia.
    + congruence.
    + congruence.
    + set_solver.
  - wp_step.
    apply (tx_release_same s2 a2 L2 k2 j r _ c2 _ T2) with (2 := Hc2); [by rewrite dget_insert, decide_True|].
    intros c3 a3 T3 E3v E3d E3h. wp_step. apply (HQ' _ a3 L2 k2 ip2).
    + split; [exact T3| | |done|congruence|congruence|set_solver].
      * eapply (ext_is_trans start nlog Hlog Hnl sb S G); [exact Ex02|].
        apply (ext_is_refl start nlog Hlog Hnl sb S G); [done|apply Ex2].
      * rewrite E3v. pose proof (wrote_chunk start nlog sb S G _ _ _ _ _ _ [] Ho W2) as WC. rewrite Hlen, app_nil_r in WC.
        fold o in WC. rewrite Efr in WC. apply WC; try done; [unfold o; cbn; lia|cbn; unfold BSIZE; dlia].
    + right. left. split; [done|]. exists m. by rewrite Es.
Qed.

(** After the loop: the size and [iupdate]. *)
Lemma writei_end_wp s a L i ip off bytes tot s1 a1 L1 k1 ip1 (Q : Z -> fstate -> Prop) :
  0 <= off -> off + tot <= MAXFILE * BSIZE -> inode_home start nlog sb S ip ->
  wround s a L i ip off bytes tot s1 a1 L1 k1 ip1 ->
  (forall s' a' L' k' ip', Tx s' a' L' ∅ k' -> ext_is s s' i ip' ->
     written start nlog sb S (a_view a) ip off (take (Z.to_nat tot) bytes) (a_view a') ip' ->
     (forall b, inrange sb b -> used sb (a_view a') b = used sb (a_view a1) b) ->
     a_disk a' = a_disk a -> a_hist a' = a_hist a -> Q tot s') ->
  wp (ip ← get_i i; (if off + tot >? i_size ip then upd_i i (with_size (off + tot)) else mret tt);; iupdate i;; mret tot) s1 Q.
Proof.
  intros Ho Hmax Hih [T Ex W Ht Ed Eh HB] HQ. unfold get_i. wp_step. wp_step. rewrite (ex_at _ _ _ _ Ex).
  assert (Z.of_nat (length (take (Z.to_nat tot) bytes)) = tot) as Hlen by (rewrite length_take; lia).
  destruct (w_meta _ _ _ _ _ _ _ _ _ _ W) as [x Emeta].
  assert (i_size ip1 = i_size ip /\ i_inum ip1 = i_inum ip /\ i_dev ip1 = i_dev ip) as (Es & Ein & Edv) by (by rewrite Emeta).
  set (ip' := with_size (Z.max (i_size ip) (off + tot)) ip1).
  assert (wp (if off + tot >? i_size ip1 then upd_i i (with_size (off + tot)) else mret tt) s1
    (fun _ s2 => Tx s2 a1 L1 ∅ k1 /\ ext_is s s2 i ip')) as Hsz.
  { destruct (_ >? _) eqn:E; bool_to_prop.
    - apply (upd_i_tx start nlog Hlog Hnl sb S G s1 a1 L1 ∅ k1); [done|]. intros s2 T2 Ex2. split; [done|].
      rewrite (ex_at _ _ _ _ Ex) in Ex2. unfold ip'. rewrite Z.max_r by lia.
      by eapply (ext_is_trans start nlog Hlog Hnl sb S G).
    - wp_step. split; [done|]. unfold ip'. rewrite Z.max_l, <- Es by lia. by destruct ip1. }
  wp_step. eapply wp_mono; [exact Hsz|]. cbn. intros [] s2 [T2 Ex2]. wp_step.
  apply (iupdate_wp s2 a1 L1 k1 i ip'); [done|apply Ex2|cbn; apply (fo_dev _ _ _ _ _ _ (w_file _ _ _ _ _ _ _ _ _ _ W))| |].
  { unfold ip'. destruct Hih. by split; cbn; rewrite Ein. }
  intros s3 a3 L3 T3 E3v E3d E3h E3x HB3. wp_step. cbv zeta in E3v. change (i_inum ip') with (i_inum ip1) in E3v.
  rewrite Ein in E3v. eapply (HQ s3 a3 L3 k1 ip'); [done| | | |congruence..].
  - eapply (ext_is_trans start nlog Hlog Hnl sb S G); [exact Ex2|].
    apply (ext_is_refl start nlog Hlog Hnl sb S G); [done|apply Ex2].
  - rewrite E3v. pose proof (wrote_done start nlog sb S G _ _ _ _ _ _ Ho W) as WD. rewrite Hlen in WD. by apply WD.
  - intros b Hb. rewrite E3v. by apply (inode_write start nlog sb S G _ _ ip1 _ Hih (w_file _ _ _ _ _ _ _ _ _ _ W)).
Qed.

Lemma writei_wp s a L k i ip src off bytes (Q : Z -> fstate -> Prop) :
  let n := Z.of_nat (length bytes) in
  Tx s a L ∅ k -> iat s i = ip -> File (a_view a) ip -> Free (a_view a) -> inode_home start nlog sb S ip ->
  0 <= off <= i_size ip -> off + n <= MAXFILE * BSIZE -> src_is src bytes -> Forall (fun x => 0 <= x < 256) bytes ->
  nblk off n + indcost S L ip <= k ->
  (forall tot s' a' L' k' ip', Tx s' a' L' ∅ k' -> ext_is s s' i ip' -> 0 <= tot <= n ->
     written start nlog sb S (a_view a) ip off (take (Z.to_nat tot) bytes) (a_view a') ip' ->
     wstop src n tot (a_view a') ->
     a_disk a' = a_disk a -> a_hist a' = a_hist a -> Q tot s') ->
  wp (writei i src off n) s Q.
Proof.
  intros n T Hi F HF Hih Ho Hmax Hsrc Hby Hk HQ. unfold writei, get_i. wp_step. wp_step. rewrite Hi.
  change (MAXFILE * BSIZE) with 274432 in Hmax |- *.
  rewrite u32_id by lia. rewrite !Z.gtb_ltb, (proj2 (Z.ltb_ge (off + n) off)), (proj2 (Z.ltb_ge (i_size ip) off)),
    (proj2 (Z.ltb_ge 274432 (off + n))) by lia. cbn [orb]. wp_step.
  apply (wp_loop_var _ (fun v => nblk (snd v) (n - fst v))
    (fun v s1 => snd v = off + fst v /\ exists a1 L1 k1 ip1, wround s a L i ip off bytes (fst v) s1 a1 L1 k1 ip1 /\
       nblk (snd v) (n - fst v) + indcost S L1 ip1 <= k1)).
  - intros [tot o] s1 (Eo & a1 & L1 & k1 & ip1 & W & Hsp). cbn [fst snd] in *. subst o.
    apply (writei_step_wp s a L i ip src off bytes tot s1 a1 L1 k1 ip1); [lia|exact Hmax|done|done|done|done| |].
    + intros tot' s2 a2 L2 k2 ip2 _ H0 H1 H2 W2. fold n in H0, H1, H2. split; [|cbn [fst snd]; lia]. split; [done|]. by exists a2, L2, k2, ip2.
    + clear s1 a1 L1 k1 ip1 W Hsp. intros s1 a1 L1 k1 ip1 [T1 Ex W Ht Ed Eh HB] Hstop. fold n in Ht.
      apply (writei_end_wp s a L i ip off bytes tot s1 a1 L1 k1 ip1); [lia|change (MAXFILE * BSIZE) with 274432; lia|done|done|].
      intros s' a' L' k' ip' T' Ex' W' Ev Ed' Eh'. apply (HQ tot s' a' L' k' ip'); try done; [|congruence..].
      unfold wstop in *. destruct Hstop as [?|[?|[? Hf]]]; auto. right. right. split; [done|]. intros b Hb.
      by rewrite Ev; [apply Hf|].
  - cbn. split; [lia|]. exists a, L, k, ip. split; [|by rewrite Z.sub_0_r].
    split; [done|by apply (ext_is_refl start nlog Hlog Hnl sb S G)|by apply (wrote_nil start nlog sb S G)|lia|done|done|done].
  - cbn. rewrite Z.sub_0_r. unfold nblk. destruct (n <=? 0); [done|]. unfold BSIZE. dlia.
Qed.
End Ops.
