(* ===== verification/FsClaims.v ===== *)
(** * Files as sequences of bytes

    The contract of the inode layer of kernel/fs.c: a file is a list of bytes
    ([content]); [writei] overwrites a part of it and may extend it, [readi]
    returns a part of it, and the inode on disk is the one in memory.  Proved
    from [FsBlocks], [FsFile] and [FsWrite]; the examples run on the buffer
    cache of [Bio]. *)

From S2P Require Import Prelude Riscv Mem BufCache Bio Log LogCrash CString Fs FsBlocks FsFile FsWrite.

(** The bytes of a file. *)
Definition content (V : diskT) (ip : inode) : list Z := fbytes V ip 0 (Z.to_nat (i_size ip)).

(** The abstract write. *)
Definition overwrite (c : list Z) (off : Z) (l : list Z) : list Z :=
  take (Z.to_nat off) c ++ l ++ drop (Z.to_nat off + length l) c.

Lemma content_lookup V ip p : 0 <= p < i_size ip -> content V ip !! Z.to_nat p = Some (fbyte V ip p).
Proof. intros Hp. unfold content. rewrite fbytes_lookup by lia. do 2 f_equal. lia. Qed.

Lemma fbytes_content V ip off n : 0 <= off -> off + Z.of_nat n <= i_size ip ->
  fbytes V ip off n = take n (drop (Z.to_nat off) (content V ip)).
Proof.
  intros Ho Hn. apply list_eq. intros k. destruct (decide (k < n)%nat).
  - rewrite fbytes_lookup, lookup_take_lt, lookup_drop by done.
    replace (Z.to_nat off + k)%nat with (Z.to_nat (off + Z.of_nat k)) by lia. by rewrite content_lookup by lia.
  - rewrite !lookup_ge_None_2; [done| |]; rewrite ?fbytes_length, ?length_take; lia.
Qed.

Lemma written_content start nlog sb S V ip off l V' ip' :
  written start nlog sb S V ip off l V' ip' -> 0 <= off <= i_size ip ->
  content V' ip' = overwrite (content V ip) off l.
Proof.
  intros W Ho. destruct (wn_meta _ _ _ _ _ _ _ _ _ _ W) as [x Ex].
  assert (i_size ip' = Z.max (i_size ip) (off + Z.of_nat (length l))) as Es by (by rewrite Ex).
  apply list_eq. intros k. unfold overwrite.
  assert (length (content V ip) = Z.to_nat (i_size ip)) as Hl by apply fbytes_length.
  destruct (decide (Z.of_nat k < i_size ip')) as [Hk|Hk].
  2: { rewrite !lookup_ge_None_2; [done| |]; [|unfold content; rewrite fbytes_length; lia].
       rewrite !length_app, length_take, length_drop. lia. }
  replace k with (Z.to_nat (Z.of_nat k)) at 1 by lia. rewrite content_lookup by lia.
  rewrite (wn_bytes _ _ _ _ _ _ _ _ _ _ W) by lia.
  destruct (decide (Z.of_nat k < off)).
  - rewrite decide_False, lookup_app_l, lookup_take_lt by (rewrite ?length_take; lia).
    rewrite <- content_lookup by lia. f_equal. lia.
  - rewrite lookup_app_r by (rewrite length_take; lia). rewrite length_take, Hl, Nat.min_l by lia.
    case_decide.
    + rewrite lookup_app_l by lia. rewrite nth_lookup. replace (Z.to_nat (Z.of_nat k - off)) with (k - Z.to_nat off)%nat by lia.
      destruct (lookup_lt_is_Some_2 l (k - Z.to_nat off)) as [y ->]; [lia|done].
    + rewrite lookup_app_r, lookup_drop by lia. rewrite <- content_lookup by lia. f_equal. lia.
Qed.

(** ** The inode on disk *)

Lemma mget_store_addrs d o l b : ~ (o <= b < o + 4 * Z.of_nat (length l)) -> mget (store_addrs d o l) b = mget d b.
Proof.
  revert d o. induction l as [|x l IH]; intros d o Hb; [done|]. cbn [store_addrs length] in *.
  rewrite IH by lia. unfold store32. rewrite mget_store_le, decide_False by lia. done.
Qed.

Lemma load_addrs_ext d d' o k : (forall b, o <= b < o + 4 * Z.of_nat k -> mget d b = mget d' b) ->
  load_addrs d o k = load_addrs d' o k.
Proof.
  revert o. induction k as [|k IH]; intros o H; [done|]. cbn [load_addrs]. f_equal.
  - apply load_le_ext. intros b Hb. apply H. lia.
  - apply IH. intros b Hb. apply H. lia.
Qed.

Lemma load_store_addrs d o l : Forall (fun x => 0 <= x < 2 ^ 32) l -> load_addrs (store_addrs d o l) o (length l) = l.
Proof.
  intros Hl. revert d o. induction Hl as [|x l Hx Hl IH]; intros d o; [done|]. cbn [store_addrs length load_addrs]. f_equal.
  - transitivity (load32 (store32 d o x) o); [|rewrite load32_store32_eq; by apply Z.mod_small].
    apply load_le_ext. intros b Hb. apply mget_store_addrs. lia.
  - apply IH.
Qed.

(** The fields fit their types. *)
Record inode_wf (ip : inode) : Prop := {
  iw_type : - 2 ^ 15 <= i_type ip < 2 ^ 15;
  iw_major : - 2 ^ 15 <= i_major ip < 2 ^ 15;
  iw_minor : - 2 ^ 15 <= i_minor ip < 2 ^ 15;
  iw_nlink : - 2 ^ 15 <= i_nlink ip < 2 ^ 15;
  iw_size : 0 <= i_size ip < 2 ^ 32;
  iw_len : length (i_addrs ip) = 13%nat;
  iw_addrs : Forall (fun x => 0 <= x < 2 ^ 32) (i_addrs ip)
}.

(** Memory's part of [m], the disk's part of [ip]. *)
Definition loaded (m ip : inode) : inode :=
  Inode (i_dev m) (i_inum m) (i_ref m) (i_locked m) (i_valid m)
    (i_type ip) (i_major ip) (i_minor ip) (i_nlink ip) (i_size ip) (i_addrs ip).

Lemma i16_u16 x : - 2 ^ 15 <= x < 2 ^ 15 -> i16 (u16 x) = x.
Proof. intros H. unfold i16, sgn, u16. case_match; bool_to_prop; dlia. Qed.

Lemma mget_dinode_store d o ip b : length (i_addrs ip) = 13%nat -> ~ (o <= b < o + DINODE) ->
  mget (dinode_store d o ip) b = mget d b.
Proof.
  intros Hl Hb. unfold DINODE in Hb. unfold dinode_store. rewrite mget_store_addrs by lia.
  unfold store16, store32. rewrite !mget_store_le, !decide_False by lia. done.
Qed.

Lemma dinode_load_ext d d' o m : (forall b, o <= b < o + DINODE -> mget d b = mget d' b) ->
  dinode_load d o m = dinode_load d' o m.
Proof.
  intros H. unfold DINODE in H. unfold dinode_load, load16, load32.
  rewrite (load_addrs_ext d d') by (intros b Hb; apply H; lia).
  by rewrite !(load_le_ext d d') by (intros b Hb; apply H; lia).
Qed.

Lemma dinode_load_store d o ip m : inode_wf ip -> dinode_load (dinode_store d o ip) o m = loaded m ip.
Proof.
  intros []. unfold dinode_load, dinode_store, loaded.
  assert (forall d' b n, b + Z.of_nat n <= o + 12 -> load_le (store_addrs d' (o + 12) (i_addrs ip)) b n = load_le d' b n) as Hlow.
  { intros d' b n Hb. apply load_le_ext. intros c Hc. apply mget_store_addrs. lia. }
  unfold load16, load32 at 1. rewrite !Hlow by lia. rewrite <- iw_len0, load_store_addrs by done.
  change (load_le ?d ?a 2) with (load16 d a). change (load_le ?d ?a 4) with (load32 d a).
  assert (forall d a v b, a + 4 <= b \/ b + 2 <= a -> load16 (store32 d a v) b = load16 d b) as E1
    by (intros; apply load_store_le_ne; lia).
  rewrite load32_store32_eq, !E1 by lia. unfold u32. rewrite Z.mod_small by done.
  repeat (rewrite load16_store16_eq || (rewrite load16_store16_ne by lia)). by rewrite !i16_u16.
Qed.

#[local] Set Default Proof Using "All".

Section Claims.
Context {C : Type} `{!BufCache C} `{!BufCacheSpec C}.
Context (start nlog : Z) (Hlog : 0 <= start /\ 1 <= nlog /\ start + nlog < 2 ^ 31) (Hnl : nlog <= LOGSIZE).
Context (sb : superblock) (S : gset Z) (G : geom start nlog sb S).
Abbreviation fstate := (kst C fsx).
Abbreviation Tx := (tx start nlog sb S).
Abbreviation File := (file_ok start nlog sb S).
Abbreviation Free := (free_ok start nlog sb S).
Implicit Types (s : fstate) (a : acache) (L : list Z) (k b i : Z).

(** C24: [balloc] returns 0 exactly when every block is in use, and changes
    nothing then.  Otherwise it returns the lowest free block, which is now
    marked in the bitmap and filled with zeros; no other bit and no other block
    changes, and at most one block is added to the transaction. *)
Theorem balloc_lowest s a L k :
  Tx s a L ∅ k -> 1 <= k -> Free (a_view a) ->
  wp (balloc ROOTDEV) s (fun r s' => exists a' L' k', Tx s' a' L' ∅ k' /\ k - 1 <= k' /\ k_ext s' = k_ext s /\
    ((r = 0 /\ a' = a /\ forall b, inrange sb b -> used sb (a_view a) b = true) \/
     (r <> 0 /\ alloced sb (a_view a) r (a_view a') /\ (forall b, 0 <= b < r -> used sb (a_view a) b = true)))).
Proof.
  intros T Hk HF. apply (balloc_wp start nlog Hlog Hnl sb S G s a L ∅ k); [done|done|by intros j b|done|]. split.
  - intros s' T' Ex Hfull. exists a, L, k. split; [done|]. split; [lia|]. split; [done|]. by left.
  - intros r s' a' L' T' A Hlow _ _ Ex _ _. exists a', L', (k - 1). split; [done|]. split; [lia|]. split; [done|].
    right. split; [by apply (alloced_new start nlog sb S G _ _ _ A HF)|done].
Qed.

(** [bfree] undoes [balloc]: after both, the same blocks are in use as
    before, and no block changed but the one allocated and its bitmap block. *)
Theorem balloc_bfree s a L k :
  Tx s a L ∅ k -> 1 <= k -> Free (a_view a) ->
  wp (b ← balloc ROOTDEV; (if b =? 0 then mret tt else bfree ROOTDEV b);; mret b) s
    (fun r s' => exists a' L' k', Tx s' a' L' ∅ k' /\
      (forall b, inrange sb b -> used sb (a_view a') b = used sb (a_view a) b) /\
      (forall b, b <> r -> (b ∉ S) -> dget (a_view a') b = dget (a_view a) b)).
Proof.
  intros T Hk HF. wp_step. apply (balloc_wp start nlog Hlog Hnl sb S G s a L ∅ k); [done|done|by intros j b|done|]. split.
  - intros s' T' Ex Hfull. cbn [Z.eqb]. wp_step. wp_step. wp_step. by exists a, L, k.
  - intros r s1 a1 L1 T1 A _ _ _ _ _ _. destruct (alloced_new start nlog sb S G _ _ _ A HF) as [(Hr & _ & HrS & Hu) H0].
    rewrite (proj2 (Z.eqb_neq _ _)) by done. wp_step.
    apply (bfree_wp start nlog Hlog Hnl sb S G s1 a1 L1 ∅ (k - 1)); [done|by intros j b|done|done|].
    intros s2 a2 L2 T2 Eu Eo _ _ _ _. wp_step. exists a2, L2, (k - 1). split; [done|].
    pose proof (proj1 (g_map _ _ _ _ G r Hr)) as HbS. split.
    + intros b Hb. rewrite Eu, (al_used _ _ _ _ A) by done. case_decide as E; [|done]. subst. by rewrite (al_free _ _ _ _ A).
    + intros b Hne Hb. rewrite Eo by (by intros ->). apply (al_other _ _ _ _ A); [done|]. by intros ->.
Qed.

(** [iupdate] saves the inode: the dinode on its block now decodes to the
    in-memory inode, and every other inode of the disk decodes to what it did. *)
Theorem iupdate_saves s a L k i ip :
  Tx s a L ∅ k -> iat s i = ip -> i_dev ip = ROOTDEV -> inode_home start nlog sb S ip -> inode_wf ip ->
  0 <= sb_inodestart sb < 2 ^ 30 -> 0 <= i_inum ip < 2 ^ 30 ->
  wp (iupdate i) s (fun _ s' => exists a' L', Tx s' a' L' ∅ k /\
    (forall m, dinode_load (dget (a_view a') (IBLOCK (i_inum ip) sb)) (dinode_off (i_inum ip)) m = loaded m ip) /\
    (forall j m, 0 <= j < 2 ^ 30 -> j <> i_inum ip ->
       dinode_load (dget (a_view a') (IBLOCK j sb)) (dinode_off j) m =
       dinode_load (dget (a_view a) (IBLOCK j sb)) (dinode_off j) m) /\
    (forall b, b <> IBLOCK (i_inum ip) sb -> dget (a_view a') b = dget (a_view a) b)).
Proof.
  intros T Hi Hd Hih Hw Hs Hn. apply (iupdate_wp start nlog Hlog Hnl sb S G s a L k i ip); try done.
  intros s' a' L' T' Ev _ _ _ _. cbv zeta in Ev. exists a', L'. split; [done|]. rewrite Ev. split; [|split].
  - intros m. rewrite dget_insert, decide_True by done. by apply dinode_load_store.
  - intros j m Hj Hne. rewrite dget_insert. destruct (decide (_ = _)) as [E|E]; [|done]. rewrite <- E.
    apply dinode_load_ext. intros b Hb. apply mget_dinode_store; [apply Hw|].
    unfold IBLOCK in E. unfold dinode_off, DINODE in *. change IPB with 16 in *. rewrite !u32_id in E by dlia. intros Hb'. apply Hne. dlia.
  - intros b Hb. rewrite dget_insert, decide_False by done. done.
Qed.

(** C6: [writei] implements the abstract write, for a source that delivers each
    chunk whole or not at all.  Inside a transaction that can still log
    [nblk off n] data blocks and one indirect block, it writes a prefix of the [n]
    bytes at [off]: the whole, or up to a chunk that cannot be fetched, or until
    the disk is full.  The file's content is the old one with that prefix put in
    place; the blocks of every other file are unchanged; no block is given to two
    files; and the inode is saved.  A fetch that fails after it has copied part of
    a chunk, at a page boundary of user memory, is not covered: those bytes stay
    in the cached block. *)
Theorem writei_correct s a L k i ip src off bytes :
  let n := Z.of_nat (length bytes) in
  Tx s a L ∅ k -> iat s i = ip -> File (a_view a) ip -> Free (a_view a) -> inode_home start nlog sb S ip ->
  0 <= off <= i_size ip -> off + n <= MAXFILE * BSIZE -> src_is src bytes -> Forall (fun x => 0 <= x < 256) bytes ->
  nblk off n + 1 <= k ->
  wp (writei i src off n) s (fun tot s' => exists a' L' k' ip', Tx s' a' L' ∅ k' /\ iat s' i = ip' /\
    0 <= tot <= n /\ wstop sb src n tot (a_view a') /\
    content (a_view a') ip' = overwrite (content (a_view a) ip) off (take (Z.to_nat tot) bytes) /\
    File (a_view a') ip' /\ Free (a_view a') /\
    (forall b, data start nlog sb S (a_view a) b -> foreign ip (a_view a) b -> dget (a_view a') b = dget (a_view a) b) /\
    dget (a_view a') (IBLOCK (i_inum ip) sb) =
      dinode_store (dget (a_view a) (IBLOCK (i_inum ip) sb)) (dinode_off (i_inum ip)) ip').
Proof.
  intros n T Hi F HF Hih Ho Hmax Hsrc Hby Hk. pose proof (indcost_range start nlog Hlog Hnl sb S G L ip).
  apply (writei_wp start nlog Hlog Hnl sb S G s a L k i ip); try done; [fold n; lia|].
  intros tot s' a' L' k' ip' T' Ex Ht W Hst _ _. exists a', L', k', ip'. split; [done|]. split; [apply Ex|].
  split; [done|]. split; [done|]. split; [by apply (written_content start nlog sb S)|].
  split; [apply W|]. split; [apply W|]. split; [|apply W]. intros b. apply (wn_frame _ _ _ _ _ _ _ _ _ _ W).
Qed.

(** C16: reading back what was written.  [readi] at the offset and for the
    number of bytes that [writei] returned gives the bytes that were passed to
    it, if each chunk is fetched whole or not at all; a file is at most [MAXFILE]
    blocks, so neither loop runs out. *)
Theorem writei_readi s a L k i ip src off bytes :
  let n := Z.of_nat (length bytes) in
  Tx s a L ∅ k -> iat s i = ip -> File (a_view a) ip -> Free (a_view a) -> inode_home start nlog sb S ip ->
  0 <= off <= i_size ip -> off + n <= MAXFILE * BSIZE -> src_is src bytes -> Forall (fun x => 0 <= x < 256) bytes ->
  nblk off n + 1 <= k ->
  wp (tot ← writei i src off n; r ← readi i kdst off tot; mret (tot, r)) s (fun '(tot, r) s' =>
    0 <= tot <= n /\ r = (tot, take (Z.to_nat tot) bytes)).
Proof.
  intros n T Hi F HF Hih Ho Hmax Hsrc Hby Hk. pose proof (indcost_range start nlog Hlog Hnl sb S G L ip).
  wp_step. apply (writei_wp start nlog Hlog Hnl sb S G s a L k i ip); try done; [fold n; lia|].
  intros tot s' a' L' k' ip' T' Ex Ht W Hst _ _. fold n in Ht. change (MAXFILE * BSIZE) with 274432 in Hmax.
  assert (length (take (Z.to_nat tot) bytes) = Z.to_nat tot) as Hlen by (rewrite length_take; unfold n in *; lia).
  destruct (wn_meta _ _ _ _ _ _ _ _ _ _ W) as [x Ex'].
  assert (i_size ip' = Z.max (i_size ip) (off + tot)) as Es by (rewrite Ex'; cbn; rewrite Hlen; lia).
  assert (readable ip' off tot = tot) as Er.
  { unfold readable. rewrite u32_id, !Z.gtb_ltb, (proj2 (Z.ltb_ge (i_size ip') off)), (proj2 (Z.ltb_ge (off + tot) off)),
      (proj2 (Z.ltb_ge (i_size ip') (off + tot))) by lia. done. }
  wp_step. apply (readi_wp start nlog Hlog Hnl sb S G s' a' L' i ip'); [by eapply tx_rd|apply Ex|apply W|lia|lia| |].
  - rewrite Er. intros c Hc. wp_step. split; [done|]. f_equal.
    rewrite fbytes_content, (written_content _ _ _ _ _ _ _ _ _ _ W) by lia. unfold overwrite.
    assert (length (content (a_view a) ip) = Z.to_nat (i_size ip)) as Hl by apply fbytes_length.
    rewrite drop_app_length' by (rewrite length_take; lia). by rewrite take_app_length'.
  - intros c t _ _. done.
Qed.
End Claims.

(** ** Example: a small disk

    100 blocks; the log in 2..31, inodes in block 32, the bitmap in block 45;
    blocks 0 to 46 are in use.  Inode 5 is an empty file. *)

Definition ex_sb : superblock := Superblock FSMAGIC 100 50 16 30 2 32 45.
Definition ex_S : gset Z := {[32; 45]}.
Definition ex_disk : diskT := {[45 := list_to_map (zip [0; 1; 2; 3; 4; 5] [255; 255; 255; 255; 255; 127])]}.
Definition ex_ip : inode := Inode ROOTDEV 5 1 true true T_FILE 0 0 1 0 (replicate 13 0).

Lemma ex_geom : geom 2 30 ex_sb ex_S.
Proof.
  split; [done|done|]. intros b Hb. cbn in Hb. assert (BBLOCK b ex_sb = 45) as ->.
  { unfold BBLOCK, ex_sb. cbn [sb_bmapstart]. change BPB with 8192. rewrite u32_id; dlia. }
  split; [set_solver|]. unfold home, in_log. lia.
Qed.

Lemma ex_free V : dget V 45 = dget ex_disk 45 -> free_ok 2 30 ex_sb ex_S V.
Proof.
  intros E b Hb Hu. cbn in Hb. assert (BBLOCK b ex_sb = 45) as Eb.
  { unfold inrange in Hb. cbn in Hb. unfold BBLOCK, ex_sb. cbn [sb_bmapstart]. change BPB with 8192. rewrite u32_id; dlia. }
  unfold used in Hu. rewrite Eb, E in Hu. unfold inrange in Hb. cbn in Hb.
  assert (46 < b) as Hlt.
  { apply Z.nle_gt. intros Hle.
    assert (forallb (fun j => bit_used (dget ex_disk 45) (Z.of_nat j mod BPB)) (seq 0 47) = true) as Hall by (vm_compute; reflexivity).
    rewrite forallb_forall in Hall. specialize (Hall (Z.to_nat b) ltac:(apply in_seq; lia)).
    rewrite Z2Nat.id in Hall by lia. by rewrite Hu in Hall. }
  split; [lia|]. split; [unfold home, in_log; lia|]. unfold ex_S. set_solver by lia.
Qed.

Lemma ex_file V : file_ok 2 30 ex_sb ex_S V ex_ip.
Proof.
  assert (forall bn, 0 <= bn -> fblock V ex_ip bn = 0) as E.
  { intros bn Hb. destruct (decide (bn < NDIRECT)); [|by apply fblock_noind; [lia|]].
    rewrite fblock_dir by lia. unfold addr_get, ex_ip. cbn [i_addrs]. rewrite nth_lookup.
    destruct (replicate _ _ !! _) eqn:El; [|done]. by apply lookup_replicate in El as [-> _]. }
  split; try done.
  - intros bn Hb H. by rewrite E in H by lia.
  - intros bn bn' Hb Hb' H. by rewrite E in H by lia.
  - intros bn Hb Hs. cbn in Hs. unfold BSIZE in Hs. lia.
Qed.

Lemma ex_tx : exists (s : kst bcache fsx) a, tx 2 30 ex_sb ex_S s a [] ∅ 20 /\ iat s 0 = ex_ip /\
  file_ok 2 30 ex_sb ex_S (a_view a) ex_ip /\ free_ok 2 30 ex_sb ex_S (a_view a).
Proof.
  assert (recovers_to 2 30 ex_disk (dget ex_disk)) as HR by (apply (recovers_empty 2 30 ex_log); [done|reflexivity]).
  pose proof (boot_wp 2 30 ex_log ex_disk _ HR) as (u & s & E & a & Hq & Eo & Ec & _ & HV)%wp_elim.
  clear E u. destruct Hq as [Hc Hl Hp Hh Hn].
  destruct (HV 45 ltac:(unfold in_log; lia)) as [_ E45].
  exists (Kst (k_bc s) (with_out 1 (k_log s)) (Fsx ex_sb {[0 := ex_ip]} 0)), a. split; [|split; [done|split; [apply ex_file|by apply ex_free]]].
  split; try done.
  - by destruct Hl; split.
  - by apply loggable_nil, ex_log.
Qed.

Lemma ex_home : inode_home 2 30 ex_sb ex_S ex_ip.
Proof.
  split.
  - unfold ex_S. set_solver.
  - unfold home, in_log. vm_compute. split; [split; discriminate || reflexivity|]. intros [_ H]. by vm_compute in H.
  - intros c Hc E. unfold inrange in Hc. cbn in Hc. assert (BBLOCK c ex_sb = 45) as Eb.
    { unfold BBLOCK, ex_sb. cbn [sb_bmapstart]. change BPB with 8192. rewrite u32_id; dlia. }
    rewrite Eb in E. done.
Qed.

Definition ex_bytes : list Z := [104; 101; 108; 108; 111].

Lemma ex_nl : 30 <= LOGSIZE.
Proof. done. Qed.

Lemma ex_bytes_ok : Forall (fun x => 0 <= x < 256) ex_bytes.
Proof. unfold ex_bytes. repeat (apply Forall_cons; split; [lia|]). by apply Forall_nil. Qed.

Lemma balloc_lowest_witness : exists (s : kst bcache fsx) a,
  wp (balloc ROOTDEV) s (fun r s' => exists a' L' k', tx 2 30 ex_sb ex_S s' a' L' ∅ k' /\ 20 - 1 <= k' /\ k_ext s' = k_ext s /\
    ((r = 0 /\ a' = a /\ forall b, inrange ex_sb b -> used ex_sb (a_view a) b = true) \/
     (r <> 0 /\ alloced ex_sb (a_view a) r (a_view a') /\ (forall b, 0 <= b < r -> used ex_sb (a_view a) b = true)))).
Proof.
  destruct ex_tx as (s & a & T & _ & _ & HF). exists s, a.
  apply (balloc_lowest 2 30 ex_log ex_nl ex_sb ex_S ex_geom s a [] 20 T); [lia|exact HF].
Defined.

Lemma balloc_bfree_witness : exists (s : kst bcache fsx) a,
  wp (b ← balloc ROOTDEV; (if b =? 0 then mret tt else bfree ROOTDEV b);; mret b) s
    (fun r s' => exists a' L' k', tx 2 30 ex_sb ex_S s' a' L' ∅ k' /\
      (forall b, inrange ex_sb b -> used ex_sb (a_view a') b = used ex_sb (a_view a) b) /\
      (forall b, b <> r -> (b ∉ ex_S) -> dget (a_view a') b = dget (a_view a) b)).
Proof.
  destruct ex_tx as (s & a & T & _ & _ & HF). exists s, a.
  apply (balloc_bfree 2 30 ex_log ex_nl ex_sb ex_S ex_geom s a [] 20 T); [lia|exact HF].
Defined.

Lemma iupdate_saves_witness : exists (s : kst bcache fsx) a,
  wp (iupdate 0) s (fun _ s' => exists a' L', tx 2 30 ex_sb ex_S s' a' L' ∅ 20 /\
    (forall m, dinode_load (dget (a_view a') (IBLOCK 5 ex_sb)) (dinode_off 5) m = loaded m ex_ip) /\
    (forall j m, 0 <= j < 2 ^ 30 -> j <> 5 ->
       dinode_load (dget (a_view a') (IBLOCK j ex_sb)) (dinode_off j) m =
       dinode_load (dget (a_view a) (IBLOCK j ex_sb)) (dinode_off j) m) /\
    (forall b, b <> IBLOCK 5 ex_sb -> dget (a_view a') b = dget (a_view a) b)).
Proof.
  destruct ex_tx as (s & a & T & Hi & _ & HF). exists s, a.
  apply (iupdate_saves 2 30 ex_log ex_nl ex_sb ex_S ex_geom s a [] 20 0 ex_ip T Hi eq_refl ex_home); [|cbn; lia|cbn; lia].
  split; cbn [i_type i_major i_minor i_nlink i_size i_addrs ex_ip]; try (unfold T_FILE; lia); [reflexivity|].
  apply Forall_replicate. lia.
Defined.

Lemma writei_correct_witness : exists (s : kst bcache fsx) a,
  wp (writei 0 (ksrc ex_bytes) 0 5) s (fun tot s' => exists a' L' k' ip', tx 2 30 ex_sb ex_S s' a' L' ∅ k' /\ iat s' 0 = ip' /\
    0 <= tot <= 5 /\ wstop ex_sb (ksrc ex_bytes) 5 tot (a_view a') /\
    content (a_view a') ip' = overwrite (content (a_view a) ex_ip) 0 (take (Z.to_nat tot) ex_bytes) /\
    file_ok 2 30 ex_sb ex_S (a_view a') ip' /\ free_ok 2 30 ex_sb ex_S (a_view a') /\
    (forall b, data 2 30 ex_sb ex_S (a_view a) b -> foreign ex_ip (a_view a) b -> dget (a_view a') b = dget (a_view a) b) /\
    dget (a_view a') (IBLOCK 5 ex_sb) = dinode_store (dget (a_view a) (IBLOCK 5 ex_sb)) (dinode_off 5) ip').
Proof.
  destruct ex_tx as (s & a & T & Hi & F & HF). exists s, a.
  apply (writei_correct 2 30 ex_log ex_nl ex_sb ex_S ex_geom s a [] 20 0 ex_ip (ksrc ex_bytes) 0 ex_bytes T Hi F HF ex_home).
  - cbn; lia.
  - cbn [length ex_bytes]. change (MAXFILE * BSIZE) with 274432. lia.
  - apply ksrc_is.
  - apply ex_bytes_ok.
  - vm_compute. discriminate.
Defined.

Lemma writei_readi_witness : exists s : kst bcache fsx,
  wp (tot ← writei 0 (ksrc ex_bytes) 0 5; r ← readi 0 kdst 0 tot; mret (tot, r)) s (fun '(tot, r) s' =>
    0 <= tot <= 5 /\ r = (tot, take (Z.to_nat tot) ex_bytes)).
Proof.
  destruct ex_tx as (s & a & T & Hi & F & HF). exists s.
  apply (writei_readi 2 30 ex_log ex_nl ex_sb ex_S ex_geom s a [] 20 0 ex_ip (ksrc ex_bytes) 0 ex_bytes T Hi F HF ex_home).
  - cbn; lia.
  - cbn [length ex_bytes]. change (MAXFILE * BSIZE) with 274432. lia.
  - apply ksrc_is.
  - apply ex_bytes_ok.
  - vm_compute. discriminate.
Defined.
