(* ===== verification/FsPath.v ===== *)
(** * Path names

    [skipelem] of kernel/fs.c takes a path apart one element at a time; here
    the elements it produces are compared with a specification that splits the
    path at the slashes. *)

From S2P Require Import Prelude Riscv CString Fs.

(** The elements that the loop of [namex] sees: [skipelem] until it returns 0. *)
Fixpoint path_elems (fuel : nat) (path : list Z) : list (list Z) :=
  match fuel with
  | O => []
  | S fuel => match skipelem path with None => [] | Some (rest, name) => name :: path_elems fuel rest end
  end.

(** The specification: the pieces between slashes. *)
Fixpoint split_slash (path : list Z) : list (list Z) :=
  match path with
  | [] => [[]]
  | c :: p =>
      match split_slash p with
      | w :: ws => if c =? SLASH then [] :: w :: ws else (c :: w) :: ws
      | [] => []
      end
  end.
Definition nonempty (w : list Z) : bool := match w with [] => false | _ => true end.
Definition path_spec (path : list Z) : list (list Z) :=
  map (take (Z.to_nat DIRSIZ)) (List.filter nonempty (split_slash path)).

Lemma split_slash_cons p : exists w ws, split_slash p = w :: ws.
Proof. induction p as [|c p (w & ws & E)]; cbn; [eauto|]. rewrite E. case_match; eauto. Qed.

Lemma spec_skip p : path_spec (skip_slashes p) = path_spec p.
Proof.
  induction p as [|c p IH]; [done|]. cbn [skip_slashes]. destruct (c =? SLASH) eqn:E; [|done].
  rewrite IH. unfold path_spec. cbn [split_slash]. destruct (split_slash_cons p) as (w & ws & ->). by rewrite E.
Qed.

Lemma span_split p e r : span_elem p = (e, r) ->
  exists w ws, split_slash r = w :: ws /\ split_slash p = (e ++ w) :: ws /\ (r = [] \/ exists r', r = SLASH :: r').
Proof.
  revert e r. induction p as [|c p IH]; intros e r H; cbn in H.
  - simplify_eq. exists [], []. auto.
  - destruct (c =? SLASH) eqn:E.
    + simplify_eq. destruct (split_slash_cons (c :: p)) as (w & ws & Ew). exists w, ws. rewrite Ew. bool_to_prop. subst. eauto.
    + destruct (span_elem p) as [e' r'] eqn:Es. simplify_eq. destruct (IH _ _ eq_refl) as (w & ws & E1 & E2 & E3).
      exists w, ws. cbn [split_slash]. rewrite E2, E. auto.
Qed.

Lemma span_length p e r : span_elem p = (e, r) -> (length p = length e + length r)%nat.
Proof.
  revert e r. induction p as [|c p IH]; intros e r H; cbn in H; [by simplify_eq|].
  destruct (c =? SLASH); [by simplify_eq|]. destruct (span_elem p) as [e' r']. simplify_eq. cbn.
  by rewrite (IH _ _ eq_refl).
Qed.

Lemma skip_length p : (length (skip_slashes p) <= length p)%nat.
Proof. induction p as [|c p IH]; cbn; [done|]. case_match; cbn; lia. Qed.

Lemma skip_head p : match skip_slashes p with c :: _ => c <> SLASH | [] => True end.
Proof. induction p as [|c p IH]; cbn; [done|]. destruct (c =? SLASH) eqn:E; bool_to_prop; done. Qed.

Lemma skipelem_spec path :
  match skipelem path with
  | None => path_spec path = []
  | Some (rest, name) => path_spec path = name :: path_spec rest /\ (length rest < length path)%nat /\
      name <> [] /\ (length name <= 14)%nat /\ match rest with c :: _ => c <> SLASH | [] => True end
  end.
Proof.
  unfold skipelem. rewrite <- (spec_skip path). pose proof (skip_length path) as Hl. pose proof (skip_head path) as Hh.
  destruct (skip_slashes path) as [|c p] eqn:E; [done|]. destruct (span_elem (c :: p)) as [e r] eqn:Es.
  destruct (span_split _ _ _ Es) as (w & ws & E1 & E2 & Hr). pose proof (span_length _ _ _ Es) as Hlen.
  assert (e <> []) as He. { intros ->. cbn in Es. destruct (c =? SLASH) eqn:Ec; bool_to_prop; [done|]. by destruct (span_elem p). }
  assert (0 < length e)%nat by (destruct e; cbn; [done|lia]).
  split; [|split; [|split; [|split]]].
  - rewrite spec_skip. unfold path_spec. rewrite E2, E1. destruct Hr as [->|[r' ->]].
    + cbn in E1. simplify_eq. rewrite app_nil_r. destruct e; done.
    + cbn in E1. destruct (split_slash_cons r') as (w' & ws' & E'). rewrite E' in E1. simplify_eq. rewrite app_nil_r.
      destruct e; done.
  - pose proof (skip_length r). lia.
  - destruct e; [done|]. by rewrite (firstn_cons 13).
  - rewrite length_take. change (Z.to_nat DIRSIZ) with 14%nat. lia.
  - apply skip_head.
Qed.

Lemma spec_nonempty c p : c <> SLASH -> path_spec (c :: p) <> [].
Proof.
  intros Hc. unfold path_spec. cbn [split_slash]. destruct (split_slash_cons p) as (w & ws & ->).
  by rewrite (proj2 (Z.eqb_neq _ _)).
Qed.

(** [skipelem] splits paths correctly.  Calling it until it returns 0, as
    [namex] does, gives the non-empty pieces of the path between slashes, in
    order, each cut to [DIRSIZ] characters; it stops after at most as many calls
    as the path has characters.  The rest it returns is empty exactly when the
    element was the last one, which is what [nameiparent] relies on. *)
Theorem skipelem_split path fuel : (length path < fuel)%nat ->
  path_elems fuel path = path_spec path /\
  forall rest name, skipelem path = Some (rest, name) -> (rest = [] <-> path_spec path = [name]).
Proof.
  intros Hf. split.
  - revert path Hf. induction fuel as [|fuel IH]; intros path Hf; [lia|]. cbn [path_elems].
    pose proof (skipelem_spec path) as H. destruct (skipelem path) as [[rest name]|]; [|done].
    destruct H as (-> & Hl & _). f_equal. apply IH. lia.
  - intros rest name E. pose proof (skipelem_spec path) as H. rewrite E in H. destruct H as (-> & _ & _ & _ & Hr).
    destruct rest as [|c p]; [done|]. pose proof (spec_nonempty c p Hr). split; [done|]. intros E'. by simplify_eq.
Qed.

(** "//usr//a-very-long-name/b/" *)
Definition ex_path : list Z :=
  [47; 47; 117; 115; 114; 47; 47; 97; 45; 118; 101; 114; 121; 45; 108; 111; 110; 103; 45; 110; 97; 109; 101; 47; 98; 47].
Lemma skipelem_split_witness : (path_elems 30 ex_path = path_spec ex_path /\
  forall rest name, skipelem ex_path = Some (rest, name) -> (rest = [] <-> path_spec ex_path = [name])) /\
  path_spec ex_path = [[117; 115; 114]; [97; 45; 118; 101; 114; 121; 45; 108; 111; 110; 103; 45; 110; 97]; [98]].
Proof. split; [apply (skipelem_split ex_path 30); cbn; lia|reflexivity]. Defined.
