(* ===== verification/Sh.v ===== *)
(** * user/sh.c : the shell

    The parser works on a buffer in memory and builds command nodes on the heap:
    [shst] has both and the parser's position [ps].  A node pointer is a key of
    the heap ([malloc] gives a fresh one), a string pointer an address.  Running
    a command is described by the system calls that it makes ([prog]): what it
    does after each result, and what the child and the parent do after a fork. *)

From Stdlib Require Import Ascii.
From S2P Require Import Prelude Riscv Mem CString.

Definition MAXARGS : Z := 10.
Definition O_RDONLY : Z := 0x000.
Definition O_WRONLY : Z := 0x001.
Definition O_RDWR : Z := 0x002.
Definition O_CREATE : Z := 0x200.
Definition O_TRUNC : Z := 0x400.

(** struct execcmd, redircmd, pipecmd, listcmd and backcmd; the constructor is
    the [type] field. *)
Inductive node :=
  | EXEC (argv eargv : list Z)
  | REDIR (cmd file efile mode fd : Z)
  | PIPE (left right : Z)
  | LIST (left right : Z)
  | BACK (cmd : Z).

Record shst := Shst { s_mem : mem; s_heap : gmap Z node; s_next : Z; s_ps : Z }.

Definition set_ps (p : Z) (st : shst) : shst := Shst (s_mem st) (s_heap st) (s_next st) p.
Definition set_node (p : Z) (n : node) (st : shst) : shst := Shst (s_mem st) (<[p := n]> (s_heap st)) (s_next st) (s_ps st).
Definition set_byte (a v : Z) (st : shst) : shst := Shst (store8 (s_mem st) a v) (s_heap st) (s_next st) (s_ps st).

(** [malloc], [memset] and the assignments of the constructors.  As in the
    source, the result of [malloc] is not tested; the model has the case that it
    is not 0, in which it is a block that is not in use. *)
Definition new_node (n : node) : M shst Z :=
  st ← get;
  put (Shst (s_mem st) (<[s_next st := n]> (s_heap st)) (s_next st + 1) (s_ps st));;
  mret (s_next st).
Definition execcmd : M shst Z := new_node (EXEC (repeat 0 (Z.to_nat MAXARGS)) (repeat 0 (Z.to_nat MAXARGS))).
Definition redircmd (subcmd file efile mode fd : Z) : M shst Z := new_node (REDIR subcmd file efile mode fd).
Definition pipecmd (left right : Z) : M shst Z := new_node (PIPE left right).
Definition listcmd (left right : Z) : M shst Z := new_node (LIST left right).
Definition backcmd (subcmd : Z) : M shst Z := new_node (BACK subcmd).

(** ** Tokens *)

Definition whitespace : list Z := [32; 9; 13; 10; 11].
Definition symbols : list Z := bytes "<|>&;()".

(** [strchr(l, c)] as a condition. *)
Definition in_chars (l : list Z) (c : Z) : bool :=
  match strchr (at_list l) c (S (length l)) with Some (Some _) => true | _ => false end.

(** [while(s < es && strchr(whitespace, *s)) s++] *)
Fixpoint skip_ws_loop (m : mem) (s es : Z) (k : nat) : Z :=
  match k with
  | O => s
  | S k => if (s <? es) && in_chars whitespace (mget m s) then skip_ws_loop m (s + 1) es k else s
  end.
Definition skip_ws (m : mem) (s es : Z) : Z := skip_ws_loop m s es (Z.to_nat (es - s)).

(** [while(s < es && !strchr(whitespace, *s) && !strchr(symbols, *s)) s++] *)
Fixpoint word_end_loop (m : mem) (s es : Z) (k : nat) : Z :=
  match k with
  | O => s
  | S k =>
      if (s <? es) && negb (in_chars whitespace (mget m s)) && negb (in_chars symbols (mget m s))
      then word_end_loop m (s + 1) es k else s
  end.
Definition word_end (m : mem) (s es : Z) : Z := word_end_loop m s es (Z.to_nat (es - s)).

(** The result, [*q] and [*eq]. *)
Definition gettoken (es : Z) : M shst (Z * Z * Z) :=
  st ← get;
  let m := s_mem st in
  let q := skip_ws m (s_ps st) es in
  let c := mget m q in
  let '(ret, s) :=
    if c =? 0 then (c, q)
    else if (c =? ch "|") || (c =? ch "(") || (c =? ch ")") || (c =? ch ";") || (c =? ch "&") || (c =? ch "<")
    then (c, q + 1)
    else if c =? ch ">" then
      if mget m (q + 1) =? ch ">" then (ch "+", q + 2) else (c, q + 1)
    else (ch "a", word_end m q es) in
  modify (set_ps (skip_ws m s es));;
  mret (ret, q, s).

Definition peek (es : Z) (toks : list Z) : M shst bool :=
  st ← get;
  let s := skip_ws (s_mem st) (s_ps st) es in
  modify (set_ps s);;
  mret (negb (mget (s_mem st) s =? 0) && in_chars toks (mget (s_mem st) s)).

(** ** The parser

    Each round of a loop takes at least one character, so the number of
    characters left bounds the rounds; [fuel] bounds the recursion. *)

Definition left (es : Z) : M shst nat := st ← get; mret (S (Z.to_nat (es - s_ps st))).

Fixpoint parseredirs_loop (cmd es : Z) (k : nat) : M shst Z :=
  match k with
  | O => nofuel
  | S k =>
      b ← peek es (bytes "<>");
      if (b : bool) then
        '(tok, _, _) ← gettoken es;
        '(tok2, q, eq) ← gettoken es;
        if negb (tok2 =? ch "a") then panic "missing file for redirection"
        else
          cmd ← (if tok =? ch "<" then redircmd cmd q eq O_RDONLY 0
                 else if tok =? ch ">" then redircmd cmd q eq (Z.lor (Z.lor O_WRONLY O_CREATE) O_TRUNC) 1
                 else if tok =? ch "+" then redircmd cmd q eq (Z.lor O_WRONLY O_CREATE) 1
                 else mret cmd);
          parseredirs_loop cmd es k
      else mret cmd
  end.
Definition parseredirs (cmd es : Z) : M shst Z := k ← left es; parseredirs_loop cmd es k.

(** [cmd->argv[argc] = q; cmd->eargv[argc] = eq] *)
Definition set_arg (cmd argc q eq : Z) : M shst unit :=
  modify (fun st =>
    match s_heap st !! cmd with
    | Some (EXEC argv eargv) => set_node cmd (EXEC (<[Z.to_nat argc := q]> argv) (<[Z.to_nat argc := eq]> eargv)) st
    | _ => st
    end).

(** The loop of [parseexec]: [ret] and [argc] after it. *)
Fixpoint parseargs (cmd ret argc es : Z) (k : nat) : M shst (Z * Z) :=
  match k with
  | O => nofuel
  | S k =>
      b ← peek es (bytes "|)&;");
      if (b : bool) then mret (ret, argc)
      else
        '(tok, q, eq) ← gettoken es;
        if tok =? 0 then mret (ret, argc)
        else if negb (tok =? ch "a") then panic "syntax"
        else
          set_arg cmd argc q eq;;
          let argc := argc + 1 in
          if argc >=? MAXARGS then panic "too many args"
          else
            ret ← parseredirs ret es;
            parseargs cmd ret argc es k
  end.

(** [while(peek(ps, es, "&")) ...] *)
Fixpoint parseback (cmd es : Z) (k : nat) : M shst Z :=
  match k with
  | O => nofuel
  | S k =>
      b ← peek es (bytes "&");
      if (b : bool) then gettoken es;; cmd ← backcmd cmd; parseback cmd es k
      else mret cmd
  end.

Fixpoint parseline (fuel : nat) (es : Z) : M shst Z :=
  match fuel with
  | O => nofuel
  | S fuel =>
      cmd ← parsepipe fuel es;
      k ← left es;
      cmd ← parseback cmd es k;
      b ← peek es (bytes ";");
      if (b : bool) then
        gettoken es;;
        r ← parseline fuel es;
        listcmd cmd r
      else mret cmd
  end
with parsepipe (fuel : nat) (es : Z) : M shst Z :=
  match fuel with
  | O => nofuel
  | S fuel =>
      cmd ← parseexec fuel es;
      b ← peek es (bytes "|");
      if (b : bool) then
        gettoken es;;
        r ← parsepipe fuel es;
        pipecmd cmd r
      else mret cmd
  end
with parseblock (fuel : nat) (es : Z) : M shst Z :=
  match fuel with
  | O => nofuel
  | S fuel =>
      b ← peek es (bytes "(");
      if negb b then panic "parseblock"
      else
        gettoken es;;
        cmd ← parseline fuel es;
        b ← peek es (bytes ")");
        if negb b then panic "syntax - missing )"
        else
          gettoken es;;
          parseredirs cmd es
  end
with parseexec (fuel : nat) (es : Z) : M shst Z :=
  match fuel with
  | O => nofuel
  | S fuel =>
      b ← peek es (bytes "(");
      if (b : bool) then parseblock fuel es
      else
        cmd ← execcmd;
        ret ← parseredirs cmd es;
        k ← left es;
        '(ret, argc) ← parseargs cmd ret 0 es k;
        set_arg cmd argc 0 0;;
        mret ret
  end.

(** [for(i=0; ecmd->argv[i]; i++) *ecmd->eargv[i] = 0] *)
Fixpoint nul_args (argv eargv : list Z) : M shst unit :=
  match argv, eargv with
  | q :: argv, eq :: eargv =>
      if q =? 0 then mret tt else modify (set_byte eq 0);; nul_args argv eargv
  | _, _ => mret tt
  end.

Fixpoint nulterminate (fuel : nat) (cmd : Z) : M shst unit :=
  match fuel with
  | O => nofuel
  | S fuel =>
      st ← get;
      match s_heap st !! cmd with
      | None => mret tt
      | Some (EXEC argv eargv) => nul_args argv eargv
      | Some (REDIR c file efile mode fd) => nulterminate fuel c;; modify (set_byte efile 0)
      | Some (PIPE l r) => nulterminate fuel l;; nulterminate fuel r
      | Some (LIST l r) => nulterminate fuel l;; nulterminate fuel r
      | Some (BACK c) => nulterminate fuel c
      end
  end.

(** [parsecmd] on a string of at most [max] characters.  (The text about
    leftovers that is printed before the panic is not kept.) *)
Definition parsecmd (max : nat) (s : Z) : M shst Z :=
  st ← get;
  match strlen (at_addr (s_mem st) s) (S max) with
  | None => nofuel
  | Some n =>
      let es := s + n in
      modify (set_ps s);;
      cmd ← parseline (4 * Z.to_nat n + 4) es;
      peek es [];;
      st ← get;
      if negb (s_ps st =? es) then panic "syntax"
      else
        nulterminate (Z.to_nat (s_next st)) cmd;;
        mret cmd
  end.

(** ** Running commands

    The system calls of a process; [PFork] has what the child, the parent and a
    parent without a child do. *)
Inductive prog :=
  | PExit (status : Z)
  | PExec (path : list Z) (argv : list (list Z)) (fail : prog)
  | PClose (fd : Z) (k : prog)
  | POpen (path : list Z) (mode : Z) (k : Z -> prog)
  | PFork (child parent fail : prog)
  | PWait (k : prog)
  | PPipe (k : Z -> Z -> prog) (fail : prog)
  | PDup (fd : Z) (k : prog)
  | PChdir (path : list Z) (k : Z -> prog)
  | PWrite (fd : Z) (msg : list Z) (k : prog).

(** The string at an address, of at most [max] characters. *)
Definition str_at (max : nat) (m : mem) (a : Z) : list Z :=
  match strlen (at_addr m a) (S max) with Some n => read_bytes m a (Z.to_nat n) | None => [] end.

Definition sh_panic (msg : list Z) : prog := PWrite 2 (msg ++ [10]) (PExit 1).
Definition fork1 (child parent : prog) : prog := PFork child parent (sh_panic (bytes "fork")).

(** The strings of [argv] up to the null pointer. *)
Fixpoint args_at (max : nat) (m : mem) (argv : list Z) : list (list Z) :=
  match argv with
  | q :: argv => if q =? 0 then [] else str_at max m q :: args_at max m argv
  | [] => []
  end.

Fixpoint runcmd (max : nat) (m : mem) (h : gmap Z node) (fuel : nat) (cmd : Z) : option prog :=
  match fuel with
  | O => None
  | S fuel =>
      if cmd =? 0 then Some (PExit 1)
      else
        match h !! cmd with
        | None => Some (sh_panic (bytes "runcmd"))
        | Some (EXEC argv _) =>
            match args_at max m argv with
            | [] => Some (PExit 1)
            | path :: args =>
                Some (PExec path (path :: args)
                        (PWrite 2 (bytes "exec " ++ path ++ bytes " failed" ++ [10]) (PExit 0)))
            end
        | Some (REDIR c file _ mode fd) =>
            p ← runcmd max m h fuel c;
            let name := str_at max m file in
            Some (PClose fd (POpen name mode (fun r =>
                    if r <? 0 then PWrite 2 (bytes "open " ++ name ++ bytes " failed" ++ [10]) (PExit 1) else p)))
        | Some (LIST l r) =>
            pl ← runcmd max m h fuel l;
            pr ← runcmd max m h fuel r;
            Some (fork1 pl (PWait pr))
        | Some (PIPE l r) =>
            pl ← runcmd max m h fuel l;
            pr ← runcmd max m h fuel r;
            Some (PPipe (fun p0 p1 =>
              fork1 (PClose 1 (PDup p1 (PClose p0 (PClose p1 pl))))
                (fork1 (PClose 0 (PDup p0 (PClose p0 (PClose p1 pr))))
                   (PClose p0 (PClose p1 (PWait (PWait (PExit 0)))))))
              (sh_panic (bytes "pipe")))
        | Some (BACK c) =>
            p ← runcmd max m h fuel c;
            Some (fork1 p (PExit 0))
        end
  end.

(** [gets] on the input still to be read: the line and the rest. *)
Fixpoint gets_loop (input : list Z) (k : nat) : list Z * list Z :=
  match k, input with
  | S k, c :: input =>
      if (c =? 10) || (c =? 13) then ([c], input)
      else let '(l, r) := gets_loop input k in (c :: l, r)
  | _, _ => ([], input)
  end.
Definition getcmd (nbuf : nat) (input : list Z) : option (list Z * list Z) :=
  match gets_loop input (nbuf - 1) with
  | ([], _) => None
  | (line, rest) => if nth 0 line 0 =? 0 then None else Some (line, rest)
  end.

(** One round of the loop of [main] for the line in [buf]: what the shell does
    before it reads the next line, with [next] for the rest. *)
Definition sh_round (s : Z) (line : list Z) (next : prog) : option prog :=
  if (nth 0 line 0 =? ch "c") && (nth 1 line 0 =? ch "d") && (nth 2 line 0 =? ch " ") then
    n ← strlen (at_list line) (S (length line));
    let dir := drop 3 (take (Z.to_nat (n - 1)) line) in
    Some (PChdir dir (fun r => if r <? 0 then PWrite 2 (bytes "cannot cd " ++ dir ++ [10]) next else next))
  else
    match parsecmd 100 s (Shst (write_bytes ∅ s (line ++ [0])) ∅ 1 s) with
    | Ok cmd st =>
        p ← runcmd 100 (s_mem st) (s_heap st) (Z.to_nat (s_next st)) cmd;
        Some (fork1 p (PWait next))
    | Panic msg => Some (fork1 (sh_panic (bytes msg)) (PWait next))
    | NoFuel => None
    end.

(** [main] on an input that only the shell reads.  [open] gives each descriptor
    once, so it is called at most four times. *)
Fixpoint sh_open (n : nat) (k : prog) : prog :=
  POpen (bytes "console") O_RDWR (fun fd =>
    if fd <? 0 then k
    else if fd >=? 3 then PClose fd k
    else match n with O => k | S n => sh_open n k end).
Fixpoint sh_loop (s : Z) (input : list Z) (k : nat) : option prog :=
  match k with
  | O => None
  | S k =>
      p ← match getcmd 100 input with
          | None => Some (PExit 0)
          | Some (line, rest) => next ← sh_loop s rest k; sh_round s line next
          end;
      Some (PWrite 2 (bytes "$ ") p)
  end.
Definition sh_main (s : Z) (input : list Z) : option prog :=
  p ← sh_loop s input (S (length input));
  Some (sh_open 3 p).
