(* ===== verification/ShParse.v ===== *)
(** * The grammar of the shell

    What the parser of user/sh.c accepts and builds, specified apart from the
    code: token sequences that derive a command ([pline]), strings that write a
    token sequence with any white space ([renders]), and command trees with their
    words.  The parser builds the tree of every such string; after
    [nulterminate] each of its strings is a word of the input. *)

From Stdlib Require Import Ascii.
From S2P Require Import Prelude Riscv Mem CString Sh.

(** ** Specification *)

Inductive tree :=
  | TExec (argv : list (list Z))
  | TRedir (t : tree) (file : list Z) (mode fd : Z)
  | TPipe (l r : tree)
  | TList (l r : tree)
  | TBack (t : tree).

Inductive stok := Sym (c : Z) | App | Word (w : list Z).
#[export] Instance stok_eq_dec : EqDecision stok.
Proof. solve_decision. Defined.

Abbreviation AMP := (Sym 38).
Abbreviation SEMI := (Sym 59).
Abbreviation BAR := (Sym 124).
Abbreviation LP := (Sym 40).
Abbreviation RP := (Sym 41).

Inductive redir := RIn (w : list Z) | ROut (w : list Z) | RApp (w : list Z).
Definition redir_toks (r : redir) : list stok :=
  match r with RIn w => [Sym 60; Word w] | ROut w => [Sym 62; Word w] | RApp w => [App; Word w] end.
Definition redir_tree (t : tree) (r : redir) : tree :=
  match r with
  | RIn w => TRedir t w O_RDONLY 0
  | ROut w => TRedir t w (Z.lor (Z.lor O_WRONLY O_CREATE) O_TRUNC) 1
  | RApp w => TRedir t w (Z.lor O_WRONLY O_CREATE) 1
  end.
Definition redirs_toks (rs : list redir) : list stok := concat (map redir_toks rs).

(** A simple command: redirections, then words with redirections after each. *)
Definition args_toks (args : list (list Z * list redir)) : list stok :=
  concat (map (fun a => Word a.1 :: redirs_toks a.2) args).
Definition simple_tree (rs : list redir) (args : list (list Z * list redir)) : tree :=
  fold_left redir_tree (rs ++ concat (map snd args)) (TExec (map fst args)).

Inductive pline : list stok -> tree -> Prop :=
  | pl_end ts t k : ppipe ts t -> pline (ts ++ replicate k AMP) (Nat.iter k TBack t)
  | pl_seq ts t k ts' t' : ppipe ts t -> pline ts' t' ->
      pline (ts ++ replicate k AMP ++ SEMI :: ts') (TList (Nat.iter k TBack t) t')
with ppipe : list stok -> tree -> Prop :=
  | pp_one ts t : pexec ts t -> ppipe ts t
  | pp_pipe ts t ts' t' : pexec ts t -> ppipe ts' t' -> ppipe (ts ++ BAR :: ts') (TPipe t t')
with pexec : list stok -> tree -> Prop :=
  | pe_block ts t rs : pline ts t -> pexec (LP :: ts ++ RP :: redirs_toks rs) (fold_left redir_tree rs t)
  | pe_simple rs args : (length args < Z.to_nat MAXARGS)%nat ->
      pexec (redirs_toks rs ++ args_toks args) (simple_tree rs args).

Scheme pline_mut := Minimality for pline Sort Prop
  with ppipe_mut := Minimality for ppipe Sort Prop
  with pexec_mut := Minimality for pexec Sort Prop.
Combined Scheme parse_mut from pline_mut, ppipe_mut, pexec_mut.

Definition isws (c : Z) : bool := in_chars whitespace c.
Definition issym (c : Z) : bool := in_chars symbols c.
Definition wordch (c : Z) : bool := negb (c =? 0) && negb (isws c) && negb (issym c).

Definition text (t : stok) : list Z := match t with Sym c => [c] | App => [62; 62] | Word w => w end.
Definition tok_ok (t : stok) : Prop :=
  match t with
  | Sym c => issym c = true
  | App => True
  | Word w => w <> [] /\ Forall (fun c => wordch c = true) w
  end.
(** What may come next in the string, so that the token ends here. *)
Definition ends (t : stok) (str : list Z) : Prop :=
  match t, str with
  | Word _, c :: _ => wordch c = false
  | Sym 62, c :: _ => c <> 62
  | _, _ => True
  end.
Inductive renders : list stok -> list Z -> Prop :=
  | rn_nil w : Forall (fun c => isws c = true) w -> renders [] w
  | rn_cons w t ts str : Forall (fun c => isws c = true) w -> tok_ok t -> ends t str -> renders ts str ->
      renders (t :: ts) (w ++ text t ++ str).

(** ** Characters *)

Lemma strchr_spec (l : list Z) c : Forall (fun x => x <> 0) l -> in_chars l c = bool_decide (c ∈ l).
Proof.
  intros Hl. unfold in_chars, strchr.
  assert (forall (pre l : list Z), Forall (fun x => x <> 0) l ->
    match strchr_loop (at_list (pre ++ l)) c (Z.of_nat (length pre)) (S (length l)) with Some (Some _) => true | _ => false end
    = bool_decide (c ∈ l)) as H; [|by apply (H [] l)].
  clear Hl l. intros pre l Hl. revert pre. induction Hl as [|x l Hx Hl IH]; intros pre.
  - cbn [strchr_loop length]. unfold at_list. rewrite Nat2Z.id, app_nil_r, nth_overflow by lia. done.
  - cbn [length]. change (strchr_loop ?r c ?i (S (S ?n))) with
      (if r i =? 0 then Some None else if r i =? c then Some (Some i) else strchr_loop r c (i + 1) (S n)).
    assert (at_list (pre ++ x :: l) (Z.of_nat (length pre)) = x) as E.
    { unfold at_list. rewrite Nat2Z.id, app_nth2, Nat.sub_diag by lia. done. }
    rewrite E, (proj2 (Z.eqb_neq x 0)) by done. destruct (x =? c) eqn:Ec; bool_to_prop.
    + subst. symmetry. apply bool_decide_eq_true. set_solver.
    + specialize (IH (pre ++ [x])). rewrite <- app_assoc, length_app in IH. cbn [app length] in IH.
      replace (Z.of_nat (length pre + 1)) with (Z.of_nat (length pre) + 1) in IH by lia. rewrite IH.
      apply bool_decide_ext. set_solver.
Qed.

Lemma isws_spec c : isws c = bool_decide (c ∈ whitespace).
Proof. apply strchr_spec. unfold whitespace. repeat (apply Forall_cons; split; [done|]). by apply Forall_nil. Qed.
Lemma symbols_eq : symbols = [60; 124; 62; 38; 59; 40; 41].
Proof. reflexivity. Qed.
Lemma issym_spec c : issym c = bool_decide (c ∈ symbols).
Proof. apply strchr_spec. rewrite symbols_eq. repeat (apply Forall_cons; split; [done|]). by apply Forall_nil. Qed.

(** Between [p] and [es] the memory holds [str]. *)
Fixpoint rem (m : mem) (p es : Z) (str : list Z) : Prop :=
  match str with [] => p = es | c :: str => mget m p = c /\ rem m (p + 1) es str end.

Lemma rem_app m p es u v : rem m p es (u ++ v) <-> rem m p (p + Z.of_nat (length u)) u /\ rem m (p + Z.of_nat (length u)) es v.
Proof.
  revert p. induction u as [|c u IH]; intros p; cbn [app rem length].
  - rewrite Z.add_0_r. tauto.
  - rewrite IH. replace (p + 1 + Z.of_nat (length u)) with (p + Z.of_nat (S (length u))) by lia. tauto.
Qed.
Lemma rem_end m p es str : rem m p es str -> es = p + Z.of_nat (length str).
Proof. revert p. induction str as [|c str IH]; intros p H; cbn in *; [lia|]. destruct H as [_ H%IH]. lia. Qed.
Lemma rem_lookup m p es str i c : rem m p es str -> str !! i = Some c -> mget m (p + Z.of_nat i) = c.
Proof.
  revert p i. induction str as [|x str IH]; intros p i H Hi; [done|]. destruct H as [Hx H]. destruct i as [|i]; cbn in Hi.
  - simplify_eq. by rewrite Z.add_0_r.
  - rewrite <- (IH _ _ H Hi). f_equal. lia.
Qed.
(** The character at [p], or the NUL after the string. *)
Lemma rem_head m p es str : rem m p es str -> mget m es = 0 -> mget m p = hd 0 str.
Proof. destruct str as [|c str]; cbn; [by intros ->|by intros [-> _]]. Qed.

Lemma isws_nonzero c : isws c = true -> c <> 0.
Proof. intros H ->. by rewrite isws_spec in H. Qed.
Lemma issym_nonzero c : issym c = true -> c <> 0.
Proof. intros H ->. by rewrite issym_spec in H. Qed.
Lemma issym_isws c : issym c = true -> isws c = false.
Proof.
  rewrite issym_spec, isws_spec. intros H%bool_decide_eq_true. apply bool_decide_eq_false. intros H'.
  rewrite symbols_eq in H. unfold whitespace in H'. set_solver by lia.
Qed.
Lemma wordch_spec c : wordch c = true <-> c <> 0 /\ isws c = false /\ issym c = false.
Proof.
  unfold wordch. rewrite !andb_true_iff, !negb_true_iff, Z.eqb_neq. tauto.
Qed.

(** No white space in front. *)
Definition trimmed (str : list Z) : Prop := match str with c :: _ => isws c = false | [] => True end.

Lemma skip_ws_spec m p es w str : rem m p es (w ++ str) -> Forall (fun c => isws c = true) w -> trimmed str ->
  skip_ws m p es = p + Z.of_nat (length w).
Proof.
  intros H Hw Ht. unfold skip_ws. pose proof (rem_end _ _ _ _ H) as He. rewrite length_app in He.
  assert (length w <= Z.to_nat (es - p))%nat as Hk by lia. revert Hk. generalize (Z.to_nat (es - p)) as k.
  clear He. revert p H. induction Hw as [|c w Hc Hw IH]; intros p H k Hk; cbn [app length] in *.
  - rewrite Z.add_0_r. destruct k as [|k]; [done|]. cbn [skip_ws_loop]. destruct str as [|c str]; cbn in H.
    + subst. rewrite Z.ltb_irrefl. done.
    + destruct H as [-> _]. cbn in Ht. unfold isws in Ht. rewrite Ht, andb_false_r. done.
  - destruct k as [|k]; [lia|]. destruct H as [Hm H]. cbn [skip_ws_loop]. unfold isws in Hc. rewrite Hm, Hc.
    pose proof (rem_end _ _ _ _ H). rewrite (proj2 (Z.ltb_lt p es)) by lia. cbn [andb]. rewrite IH by (done || lia). lia.
Qed.

Lemma word_end_spec m p es w str : rem m p es (w ++ str) -> Forall (fun c => wordch c = true) w ->
  match str with c :: _ => wordch c = false /\ c <> 0 | [] => True end ->
  word_end m p es = p + Z.of_nat (length w).
Proof.
  intros H Hw Ht. unfold word_end. pose proof (rem_end _ _ _ _ H) as He. rewrite length_app in He.
  assert (length w <= Z.to_nat (es - p))%nat as Hk by lia. revert Hk. generalize (Z.to_nat (es - p)) as k.
  clear He. revert p H. induction Hw as [|c w Hc Hw IH]; intros p H k Hk; cbn [app length] in *.
  - rewrite Z.add_0_r. destruct k as [|k]; [done|]. cbn [word_end_loop]. destruct str as [|c str]; cbn in H.
    + subst. rewrite Z.ltb_irrefl. done.
    + destruct H as [-> _]. destruct Ht as [Ht H0]. unfold wordch in Ht. rewrite (proj2 (Z.eqb_neq c 0)) in Ht by done.
      cbn [negb andb] in Ht. unfold isws, issym in Ht. rewrite <- andb_assoc, Ht, andb_false_r. done.
  - destruct k as [|k]; [lia|]. destruct H as [Hm H]. cbn [word_end_loop]. rewrite Hm.
    apply wordch_spec in Hc as (_ & H1 & H2). unfold isws, issym in H1, H2. rewrite H1, H2.
    pose proof (rem_end _ _ _ _ H). rewrite (proj2 (Z.ltb_lt p es)) by lia. cbn [andb negb]. rewrite IH by (done || lia). lia.
Qed.

(** A string is white space and a trimmed rest. *)
Lemma trim str : exists w str', str = w ++ str' /\ Forall (fun c => isws c = true) w /\ trimmed str'.
Proof.
  induction str as [|c str (w & str' & -> & Hw & Ht)]; [by exists [], []|].
  destruct (isws c) eqn:E; [exists (c :: w), str'; by auto|]. exists [], (c :: w ++ str'). auto.
Qed.

Lemma text_trimmed t str : tok_ok t -> trimmed (text t ++ str).
Proof.
  destruct t as [c| |w]; cbn; [by apply issym_isws|by rewrite isws_spec|].
  intros [Hn Hw]. destruct Hw as [|c w Hc _]; [done|]. by apply wordch_spec in Hc as (_ & ? & _).
Qed.

Lemma ws_app_inj w1 s1 w2 s2 : w1 ++ s1 = w2 ++ s2 -> Forall (fun c => isws c = true) w1 -> Forall (fun c => isws c = true) w2 ->
  trimmed s1 -> trimmed s2 -> w1 = w2 /\ s1 = s2.
Proof.
  revert w2. induction w1 as [|c w1 IH]; intros [|c2 w2] E H1 H2 T1 T2; cbn in *; simplify_eq; try done.
  - apply Forall_cons in H2 as [H2 _]. cbn in T1. congruence.
  - apply Forall_cons in H1 as [H1 _]. cbn in T2. congruence.
  - apply Forall_cons in H1 as [_ H1]. apply Forall_cons in H2 as [_ H2]. destruct (IH w2) as [-> ->]; auto.
Qed.

(** Skipping white space keeps the tokens. *)
Lemma renders_trim ts w str : renders ts (w ++ str) -> Forall (fun c => isws c = true) w -> trimmed str -> renders ts str.
Proof.
  intros H Hw Ht. inversion H as [w0 Hw0 E1 E2|w0 t ts0 str0 Hw0 Hok He Hr E1 E2]; subst.
  - destruct str as [|c str]; [by apply rn_nil|]. apply Forall_app in Hw0 as [_ Hc]. apply Forall_cons in Hc as [Hc _].
    cbn in Ht. congruence.
  - apply ws_app_inj in E2 as [-> <-]; [|done..|by apply text_trimmed|done].
    by apply (rn_cons [] t ts0 str0).
Qed.

(** ** Tokens *)

Definition code (t : stok) : Z := match t with Sym c => c | App => 43 | Word _ => 97 end.
(** [peek]'s answer for the next token. *)
Definition starts (toks : list Z) (ts : list stok) : bool :=
  match ts with [] => false | t :: _ => in_chars toks (hd 0 (text t)) end.

Lemma starts_word toks w ts : tok_ok (Word w) -> Forall (fun c => issym c = true) toks -> starts toks (Word w :: ts) = false.
Proof.
  intros [Hn Hw] Ht. destruct Hw as [|c w Hc _]; [done|]. cbn. apply wordch_spec in Hc as (_ & _ & Hs).
  rewrite strchr_spec by (eapply Forall_impl; [exact Ht|]; intros; by apply issym_nonzero).
  apply bool_decide_eq_false. intros Hin. rewrite Forall_forall in Ht. by rewrite (Ht c Hin) in Hs.
Qed.

Section Lexer.
Context (m : mem) (es : Z) (Hz : mget m es = 0).

(** A word of the input, from [q] to [e]. *)
Record wordat (q e : Z) (w : list Z) : Prop := {
  wa_pos : 0 < q;
  wa_rem : rem m q e w;
  wa_ne : w <> [];
  wa_word : Forall (fun c => wordch c = true) w;
  wa_end : wordch (mget m e) = false
}.

(** The parser is in front of the tokens [ts]. *)
Record at_toks (st : shst) (ts : list stok) : Prop := {
  at_mem : s_mem st = m;
  at_pos : 0 < s_ps st;
  at_str : exists str, rem m (s_ps st) es str /\ renders ts str
}.

Lemma at_trim st ts : at_toks st ts -> at_toks (set_ps (skip_ws m (s_ps st) es) st) ts /\
  exists str, rem m (skip_ws m (s_ps st) es) es str /\ renders ts str /\ trimmed str.
Proof.
  intros [Hm Hp (str & Hr & Hs)]. destruct (trim str) as (w & str' & -> & Hw & Ht).
  rewrite (skip_ws_spec m _ es w str') by done. apply rem_app in Hr as [_ Hr].
  assert (renders ts str') by (by eapply renders_trim).
  split; [|by exists str']. split; [done|cbn; lia|]. by exists str'.
Qed.

Lemma renders_nonzero ts str : renders ts str -> Forall (fun c => c <> 0) str.
Proof.
  induction 1 as [w Hw|w t ts str Hw Ht _ _ IH].
  - eapply Forall_impl; [exact Hw|]. intros. by apply isws_nonzero.
  - rewrite !Forall_app. split; [eapply Forall_impl; [exact Hw|]; intros; by apply isws_nonzero|]. split; [|done].
    destruct t as [c| |w0]; cbn in *.
    + apply Forall_singleton. by apply issym_nonzero.
    + repeat (apply Forall_cons; split; [done|]). by apply Forall_nil.
    + eapply Forall_impl; [apply Ht|]. intros c Hc. by apply wordch_spec in Hc as [? _].
Qed.

Lemma renders_first t ts str : renders (t :: ts) str -> trimmed str -> exists str', str = text t ++ str' /\ tok_ok t /\ ends t str' /\ renders ts str'.
Proof.
  intros H Ht. inversion H as [|w t0 ts0 str0 Hw Hok He Hr E1 E2]; subst.
  destruct w as [|c w]; [by exists str0|]. apply Forall_cons in Hw as [Hc _]. cbn in Ht. congruence.
Qed.

Lemma renders_none str : renders [] str -> trimmed str -> str = [].
Proof. intros H Ht. inversion H as [w Hw E1 E2|]; subst. destruct Hw as [|c w Hc _]; [done|]. cbn in Ht. congruence. Qed.

(** The classes of characters in the switch of [gettoken]. *)
Lemma peek_wp toks st ts (Q : bool -> shst -> Prop) :
  at_toks st ts -> (forall p, at_toks (set_ps p st) ts -> Q (starts toks ts) (set_ps p st)) -> wp (peek es toks) st Q.
Proof using Hz.
  intros H HQ. destruct (at_trim st ts H) as [H' (str & Hr & Hs & Ht)]. unfold peek. wp_step. wp_step.
  rewrite (at_mem _ _ H). wp_step. apply wp_modify. wp_step.
  rewrite (rem_head m _ es str Hr Hz). set (p := skip_ws m (s_ps st) es) in *.
  assert (negb (hd 0 str =? 0) && in_chars toks (hd 0 str) = starts toks ts) as ->; [|by apply HQ].
  destruct ts as [|t ts].
  - by rewrite (renders_none str Hs Ht).
  - destruct (renders_first t ts str Hs Ht) as (str' & -> & Hok & _). cbn [starts].
    assert (hd 0 (text t ++ str') = hd 0 (text t) /\ hd 0 (text t) <> 0) as [-> Hn].
    { apply renders_nonzero in Hs. destruct t as [c| |[|c w]]; cbn in *; try (by destruct Hok).
      - split; [done|]. by apply Forall_cons in Hs as [? _].
      - split; [done|]. by apply Forall_cons in Hs as [? _]. }
    by rewrite (proj2 (Z.eqb_neq _ _)).
Qed.

Lemma gettoken_end_wp st (Q : Z * Z * Z -> shst -> Prop) :
  at_toks st [] -> (forall p q e, at_toks (set_ps p st) [] -> Q (0, q, e) (set_ps p st)) -> wp (gettoken es) st Q.
Proof using Hz.
  intros H HQ. destruct (at_trim st [] H) as [H' (str & Hr & Hs & Ht)]. rewrite (renders_none str Hs Ht) in Hr. cbn in Hr.
  unfold gettoken. wp_step. wp_step. rewrite (at_mem _ _ H), Hr, Hz. cbn [Z.eqb]. wp_step. apply wp_modify. wp_step.
  assert (skip_ws m es es = es) as E by (unfold skip_ws; by rewrite Z.sub_diag). rewrite E. apply HQ. by rewrite Hr in H'.
Qed.

(** A symbol is one of seven characters. *)
Lemma issym_cases c : issym c = true -> c = 60 \/ c = 124 \/ c = 62 \/ c = 38 \/ c = 59 \/ c = 40 \/ c = 41.
Proof. rewrite issym_spec, symbols_eq. intros H%bool_decide_eq_true. set_solver. Qed.

Lemma gettoken_wp t st ts (Q : Z * Z * Z -> shst -> Prop) :
  at_toks st (t :: ts) ->
  (forall p q e, at_toks (set_ps p st) ts -> (forall w, t = Word w -> wordat q e w) -> Q (code t, q, e) (set_ps p st)) ->
  wp (gettoken es) st Q.
Proof using Hz.
  intros H HQ. destruct (at_trim st _ H) as [H' (str & Hr & Hs & Ht)].
  destruct (renders_first t ts str Hs Ht) as (str' & -> & Hok & He & Hr').
  unfold gettoken. wp_step. wp_step. rewrite (at_mem _ _ H). set (q := skip_ws m (s_ps st) es) in *.
  apply rem_app in Hr as [Hrt Hrs]. set (s := q + Z.of_nat (length (text t))) in *.
  assert (0 < q) as Hq by apply H'.
  assert (at_toks (set_ps s st) ts) as Hs1 by (split; [apply H|cbn; lia|by exists str']).
  destruct (at_trim _ _ Hs1) as [Hs2 _]. cbn [s_ps set_ps] in Hs2.
  assert ((if mget m q =? 0 then (mget m q, q) else _) = (code t, s)) as ->.
  2: { wp_step. apply wp_modify. wp_step. apply (HQ _ q s); [done|]. intros w ->. destruct Hok as [Hne Hw]. split; try done.
       rewrite (rem_head m s es str' Hrs Hz). destruct str' as [|c str']; [done|exact He]. }
  destruct t as [c| |w].
  - cbn in Hrt. destruct Hrt as [-> _]. cbn [code length text] in *.
    assert (mget m (q + 1) <> 62 \/ c <> 62) as H62.
    { destruct (decide (c = 62)) as [->|]; [left|by right]. change (q + 1) with s. rewrite (rem_head m s es str' Hrs Hz).
      destruct str'; [done|exact He]. }
    apply issym_cases in Hok. destruct Hok as [->|[->|[->|[->|[->|[->| ->]]]]]]; cbn [Z.eqb Pos.eqb orb]; try reflexivity.
    destruct H62; [|done]. rewrite (proj2 (Z.eqb_neq _ _)) by done. reflexivity.
  - cbn in Hrt. destruct Hrt as (-> & -> & _). reflexivity.
  - destruct Hok as [Hne Hw]. destruct Hw as [|c w Hc Hw]; [done|]. cbn in Hrt. pose proof Hrt as [-> _].
    pose proof Hc as (H0 & H1 & H2)%wordch_spec. rewrite issym_spec, symbols_eq in H2. apply bool_decide_eq_false in H2.
    rewrite (proj2 (Z.eqb_neq c 0)) by done.
    assert (c <> 60 /\ c <> 124 /\ c <> 62 /\ c <> 38 /\ c <> 59 /\ c <> 40 /\ c <> 41) as Hcs by set_solver.
    assert (word_end m q es = s) as E.
    { apply (word_end_spec m q es (c :: w) str').
      - apply rem_app. by split.
      - by constructor.
      - apply renders_nonzero in Hr'. destruct str' as [|c' str']; [done|]. cbn in He. split; [done|].
        by apply Forall_cons in Hr' as [? _]. }
    change (ch "|") with 124. change (ch "(") with 40. change (ch ")") with 41. change (ch ";") with 59.
    change (ch "&") with 38. change (ch "<") with 60. change (ch ">") with 62.
    rewrite !(proj2 (Z.eqb_neq c _)) by lia. cbn [orb]. by rewrite E.
Qed.
End Lexer.

(** ** Command nodes *)

(** The node at a pointer stands for the tree; nodes point to older nodes, and
    the words satisfy [W]. *)
Inductive gbuilt (W : Z -> Z -> list Z -> Prop) (h : gmap Z node) : Z -> tree -> Prop :=
  | bu_exec p ps ws pad pad' :
      h !! p = Some (EXEC (map fst ps ++ 0 :: pad) (map snd ps ++ pad')) -> 0 < p ->
      Forall2 (fun x w => W x.1 x.2 w) ps ws -> gbuilt W h p (TExec ws)
  | bu_redir p c q e w mode fd t :
      h !! p = Some (REDIR c q e mode fd) -> W q e w -> c < p -> gbuilt W h c t -> gbuilt W h p (TRedir t w mode fd)
  | bu_pipe p l r t t' : h !! p = Some (PIPE l r) -> l < p -> r < p -> gbuilt W h l t -> gbuilt W h r t' -> gbuilt W h p (TPipe t t')
  | bu_list p l r t t' : h !! p = Some (LIST l r) -> l < p -> r < p -> gbuilt W h l t -> gbuilt W h r t' -> gbuilt W h p (TList t t')
  | bu_back p c t : h !! p = Some (BACK c) -> c < p -> gbuilt W h c t -> gbuilt W h p (TBack t).
#[global] Arguments bu_exec {W} h.
#[global] Arguments bu_redir {W} h.
#[global] Arguments bu_pipe {W} h.
#[global] Arguments bu_list {W} h.
#[global] Arguments bu_back {W} h.

Lemma gbuilt_impl (W W' : Z -> Z -> list Z -> Prop) h p t :
  (forall q e w, W q e w -> W' q e w) -> gbuilt W h p t -> gbuilt W' h p t.
Proof.
  intros HW. induction 1; [|by econstructor; eauto..]. eapply bu_exec; [done|done|].
  eapply Forall2_impl; [done|]. intros x w. apply HW.
Qed.

Lemma gbuilt_pos (W : Z -> Z -> list Z -> Prop) h p t : gbuilt W h p t -> 0 < p.
Proof. induction 1; lia. Qed.

Section Parser.
Context (m : mem) (es : Z) (Hz : mget m es = 0).
Implicit Types (h : gmap Z node) (st : shst) (ts : list stok) (rs : list redir).
Abbreviation At := (at_toks m es).

Abbreviation built := (gbuilt (wordat m)).

Lemma built_mono h h' p t : built h p t -> h ⊆ h' -> built h' p t.
Proof. induction 1; intros Hh; econstructor; eauto using lookup_weaken. Qed.
Lemma built_pos h p t : built h p t -> 0 < p.
Proof. apply gbuilt_pos. Qed.

Definition redir_word (r : redir) : list Z := match r with RIn w | ROut w | RApp w => w end.
Definition redir_node (c q e : Z) (r : redir) : node :=
  match redir_tree (TExec []) r with TRedir _ _ mode fd => REDIR c q e mode fd | _ => BACK 0 end.

(** Redirections put around the node [c]. *)
Inductive chain h : Z -> Z -> list redir -> Prop :=
  | chn_nil c : chain h c c []
  | chn_snoc p c q e r rs p' : chain h p c rs -> h !! p' = Some (redir_node p q e r) -> wordat m q e (redir_word r) ->
      p < p' -> chain h p' c (rs ++ [r]).

Lemma chain_built h p c rs t : chain h p c rs -> built h c t -> built h p (fold_left redir_tree rs t).
Proof.
  induction 1 as [c|p c q e r rs p' _ IH Hp Hw Hlt]; [done|]. intros Ht. rewrite fold_left_app. cbn.
  destruct r; cbn in *; by eapply bu_redir; [..|apply IH].
Qed.
Lemma chain_mono h h' p c rs : chain h p c rs -> h ⊆ h' -> chain h' p c rs.
Proof. induction 1; intros Hh; econstructor; eauto using lookup_weaken. Qed.
Lemma chain_app h p c d rs rs' : chain h p c rs' -> chain h c d rs -> chain h p d (rs ++ rs').
Proof. intros H Hd. induction H; [by rewrite app_nil_r|]. rewrite app_assoc. econstructor; eauto. Qed.
(** Filling in the command node keeps the redirections around it. *)
Lemma chain_update h p c d a b a' b' rs : h !! d = Some (EXEC a b) -> chain h p c rs -> chain (<[d := EXEC a' b']> h) p c rs.
Proof.
  intros Hd. induction 1 as [|p c q e r rs p' _ IH Hp Hw Hlt]; [constructor|]. eapply chn_snoc; [exact IH| |exact Hw|exact Hlt].
  rewrite lookup_insert_ne; [done|]. intros <-. rewrite Hd in Hp. by destruct r.
Qed.

Record pst st ts : Prop := {
  ps_at : At st ts;
  ps_next : 0 < s_next st;
  ps_heap p n : s_heap st !! p = Some n -> 0 < p < s_next st
}.
Lemma pst_ps st ts ts' p : pst st ts -> At (set_ps p st) ts' -> pst (set_ps p st) ts'.
Proof. intros [] ?. by split. Qed.

Lemma new_node_wp n st ts (Q : Z -> shst -> Prop) :
  pst st ts ->
  (forall p st', pst st' ts -> s_heap st' = <[p := n]> (s_heap st) -> s_heap st ⊆ s_heap st' -> 0 < p ->
     (forall c x, s_heap st !! c = Some x -> c < p) -> Q p st') -> wp (new_node n) st Q.
Proof.
  intros [Ha Hn Hh] HQ. unfold new_node. wp_step. wp_step. wp_step. apply wp_put. wp_step.
  assert (s_heap st !! s_next st = None) as Hf.
  { destruct (s_heap st !! s_next st) eqn:E; [|done]. apply Hh in E. lia. }
  eapply HQ; [|reflexivity|by apply insert_subseteq|done|intros c x Hc; apply Hh in Hc; lia].
  split; [by destruct Ha|cbn; lia|]. cbn. intros p x. rewrite lookup_insert_Some. intros [[<- _]|[_ H%Hh]]; lia.
Qed.

Lemma renders_ok ts str : renders ts str -> Forall tok_ok ts.
Proof. induction 1; by constructor. Qed.
Lemma at_ok st t ts : At st ts -> t ∈ ts -> tok_ok t.
Proof. intros [_ _ (str & _ & H%renders_ok)]. rewrite Forall_forall in H. apply H. Qed.
Lemma renders_length ts str : renders ts str -> (length ts <= length str)%nat.
Proof.
  induction 1 as [|w t ts str _ Hok _ _ IH]; cbn; [lia|]. rewrite !length_app.
  destruct t as [| |[|]]; cbn in *; try lia. by destruct Hok.
Qed.
Lemma left_wp st ts (Q : nat -> shst -> Prop) : At st ts -> (forall k, (length ts < k)%nat -> Q k st) -> wp (left es) st Q.
Proof.
  intros [_ _ (str & Hr & Hs)] HQ. unfold left. wp_step. wp_step. wp_step. apply HQ.
  pose proof (renders_length _ _ Hs). pose proof (rem_end _ _ _ _ Hr). lia.
Qed.

(** ** Redirections *)

Lemma starts_redir r ts : starts (bytes "<>") (redir_toks r ++ ts) = true.
Proof. by destruct r. Qed.

Lemma parseredirs_loop_wp rs k st ts p x (Q : Z -> shst -> Prop) :
  pst st (redirs_toks rs ++ ts) -> starts (bytes "<>") ts = false -> (length rs < k)%nat -> s_heap st !! p = Some x ->
  (forall p' st', pst st' ts -> s_heap st ⊆ s_heap st' -> chain (s_heap st') p' p rs -> is_Some (s_heap st' !! p') -> Q p' st') ->
  wp (parseredirs_loop p es k) st Q.
Proof using Hz.
  revert k st p x. induction rs as [|r rs IH]; intros k st p x H Hts Hk Hp HQ; (destruct k as [|k]; [cbn in Hk; lia|]);
    cbn [parseredirs_loop].
  - wp_step. apply (peek_wp m es Hz _ _ ts); [apply H|]. intros a Ha. rewrite Hts. wp_step.
    apply HQ; [by eapply pst_ps|done|constructor|by exists x].
  - change (redirs_toks (r :: rs)) with (redir_toks r ++ redirs_toks rs) in H. rewrite <- app_assoc in H.
    wp_step. apply (peek_wp m es Hz _ _ _ _ (ps_at _ _ H)). intros a Ha. rewrite starts_redir.
    destruct (redir_toks r) as [|t1 [|t2 [|]]] eqn:Er; [by destruct r..| |by destruct r]. cbn [app] in Ha.
    wp_step. apply (gettoken_wp m es Hz t1 _ (t2 :: redirs_toks rs ++ ts)); [done|]. intros a2 q1 e1 Ha2 _.
    wp_step. apply (gettoken_wp m es Hz t2 _ (redirs_toks rs ++ ts)); [done|]. intros a3 q e Ha3 Hw.
    assert (t2 = Word (redir_word r)) as Et by (destruct r; injection Er as <- <-; reflexivity). subst t2.
    change (code (Word (redir_word r)) =? ch "a") with true. cbn [negb].
    replace (if code t1 =? ch "<" then _ else _) with (new_node (redir_node p q e r) : M shst Z)
      by (destruct r; injection Er as <-; reflexivity).
    wp_step. apply (new_node_wp _ _ (redirs_toks rs ++ ts)); [split; [done|apply H..]|].
    intros p1 st1 H1 Eh Hsub Hp1 Hlt. apply (IH k st1 p1 (redir_node p q e r)); [done|done|cbn in Hk; lia|by rewrite Eh, lookup_insert_eq|].
    intros p' st' H' Hsub' Hch Hin. apply HQ; [done|by etransitivity| |done].
    apply (chain_app _ p' p1 p [r] rs); [done|]. apply (chn_snoc _ p p q e r [] p1); [constructor| |by apply Hw|by eapply Hlt].
    eapply lookup_weaken; [|exact Hsub']. by rewrite Eh, lookup_insert_eq.
Qed.

Lemma redirs_toks_length rs : length (redirs_toks rs) = (2 * length rs)%nat.
Proof.
  unfold redirs_toks. induction rs as [|r rs IH]; [done|]. cbn [map concat length]. rewrite length_app, IH. destruct r; cbn; lia.
Qed.

Lemma parseredirs_wp rs st ts p x (Q : Z -> shst -> Prop) :
  pst st (redirs_toks rs ++ ts) -> starts (bytes "<>") ts = false -> s_heap st !! p = Some x ->
  (forall p' st', pst st' ts -> s_heap st ⊆ s_heap st' -> chain (s_heap st') p' p rs -> is_Some (s_heap st' !! p') -> Q p' st') ->
  wp (parseredirs p es) st Q.
Proof using Hz.
  intros H Hts Hp HQ. unfold parseredirs. wp_step. apply (left_wp _ _ _ (ps_at _ _ H)). intros k Hk.
  rewrite length_app, redirs_toks_length in Hk. apply (parseredirs_loop_wp rs k st ts p x); try done. lia.
Qed.

(** ** Arguments *)

(** The command node after the words at [ps]. *)
Definition arg_node (ps : list (Z * Z)) : node :=
  EXEC (map fst ps ++ repeat 0 (10 - length ps)) (map snd ps ++ repeat 0 (10 - length ps)).

Lemma insert_args (l : list Z) n x : (length l < n)%nat ->
  <[length l := x]> (l ++ repeat 0 (n - length l)) = (l ++ [x]) ++ repeat 0 (n - length (l ++ [x])).
Proof.
  intros Hl. rewrite insert_app_r_alt, Nat.sub_diag by lia. rewrite length_app. cbn [length].
  replace (n - length l)%nat with (S (n - (length l + 1))) by lia. cbn. by rewrite <- app_assoc.
Qed.

(** What may follow a simple command. *)
Definition exec_follow ts : Prop := ts = [] \/ starts (bytes "|)&;") ts = true.

Lemma exec_follow_redir ts : exec_follow ts -> starts (bytes "<>") ts = false.
Proof.
  intros [->|H]; [done|]. destruct ts as [|t ts]; [done|]. cbn in *.
  rewrite strchr_spec in H |- * by (repeat (apply Forall_cons; split; [done|]); by apply Forall_nil).
  apply bool_decide_eq_true in H. apply bool_decide_eq_false. intros H'.
  change (bytes "<>") with [60; 62] in H'. change (bytes "|)&;") with [124; 41; 38; 59] in H.
  revert H H'. generalize (hd 0 (text t)). intros c. rewrite !elem_of_cons, !elem_of_nil.
  change (ch "|") with 124. change (ch ")") with 41. change (ch "&") with 38. change (ch ";") with 59.
  change (ch "<") with 60. change (ch ">") with 62. lia.
Qed.

Lemma set_arg_wp cmd ps q e st ts (Q : unit -> shst -> Prop) :
  pst st ts -> s_heap st !! cmd = Some (arg_node ps) -> (length ps < 10)%nat ->
  (pst (set_node cmd (arg_node (ps ++ [(q, e)])) st) ts -> Q tt (set_node cmd (arg_node (ps ++ [(q, e)])) st)) ->
  wp (set_arg cmd (Z.of_nat (length ps)) q e) st Q.
Proof.
  intros H Hc Hl HQ. unfold set_arg. apply wp_modify. rewrite Hc, Nat2Z.id. unfold arg_node at 1.
  pose proof (insert_args (map fst ps) 10 q) as E1. pose proof (insert_args (map snd ps) 10 e) as E2.
  rewrite !length_map in E1, E2. unfold arg_node in HQ. rewrite E1, E2 by done.
  rewrite !map_app, !length_app in *. rewrite !length_map in *. cbn [map length fst snd] in *. apply HQ.
  destruct H as [[] Hn Hh]. split; [by split|done|]. cbn. intros p x. rewrite lookup_insert_Some.
  intros [[<- _]|[_ Hx%Hh]]; [by eapply Hh|done].
Qed.

Lemma parseargs_wp args k st ts cmd ret ps h0 rs ws (Q : Z * Z -> shst -> Prop) :
  pst st (args_toks args ++ ts) -> exec_follow ts -> (length args < k)%nat -> (length ps + length args < 10)%nat ->
  s_heap st !! cmd = Some (arg_node ps) -> is_Some (s_heap st !! ret) -> h0 ⊆ s_heap st -> h0 !! cmd = None ->
  chain (s_heap st) ret cmd rs -> Forall2 (fun x w => wordat m x.1 x.2 w) ps ws ->
  (forall ret' st' ps', pst st' ts -> h0 ⊆ s_heap st' -> s_heap st' !! cmd = Some (arg_node ps') ->
     chain (s_heap st') ret' cmd (rs ++ concat (map snd args)) -> (length ps' < 10)%nat ->
     Forall2 (fun x w => wordat m x.1 x.2 w) ps' (ws ++ map fst args) ->
     Q (ret', Z.of_nat (length ps')) st') ->
  wp (parseargs cmd ret (Z.of_nat (length ps)) es k) st Q.
Proof using Hz.
  revert k st ret ps rs ws. induction args as [|[w rw] args IH]; intros k st ret ps rs ws H Hf Hk Hl Hc Hr Hs0 Hn0 Hch Hw HQ;
    (destruct k as [|k]; [cbn in Hk; lia|]); cbn [parseargs].
  - cbn in H. wp_step. apply (peek_wp m es Hz _ _ _ _ (ps_at _ _ H)). intros a Ha. destruct Hf as [->|Hf].
    + cbn [starts]. wp_step. apply (gettoken_end_wp m es Hz); [done|]. intros a2 q e Ha2. cbn [Z.eqb]. wp_step.
      apply (HQ _ _ ps); try done; [by split; try apply H|by rewrite app_nil_r|cbn in Hl; lia|by rewrite app_nil_r].
    + rewrite Hf. wp_step. apply (HQ _ _ ps); try done; [by split; try apply H|by rewrite app_nil_r|cbn in Hl; lia|by rewrite app_nil_r].
  - change (args_toks ((w, rw) :: args)) with ((Word w :: redirs_toks rw) ++ args_toks args) in H.
    rewrite <- app_assoc in H. cbn [app] in H. pose proof (at_ok _ (Word w) _ (ps_at _ _ H) ltac:(set_solver)) as Hok.
    wp_step. apply (peek_wp m es Hz _ _ _ _ (ps_at _ _ H)). intros a Ha.
    rewrite starts_word by (done || (repeat (apply Forall_cons; split; [done|]); by apply Forall_nil)).
    wp_step. apply (gettoken_wp m es Hz (Word w) _ (redirs_toks rw ++ args_toks args ++ ts)); [done|]. intros a2 q e Ha2 Hwd.
    cbn [code]. change (97 =? 0) with false. change (97 =? ch "a") with true. cbn [negb]. cbn [length] in Hk, Hl.
    wp_step. apply (set_arg_wp cmd ps q e _ (redirs_toks rw ++ args_toks args ++ ts)); [split; [done|apply H..]|done|lia|]. intros H2.
    rewrite Z.geb_leb, (proj2 (Z.leb_gt _ _)) by (change MAXARGS with 10; lia).
    set (st2 := set_node cmd _ _) in *.
    assert (s_heap st2 = <[cmd := arg_node (ps ++ [(q, e)])]> (s_heap st)) as Eh by reflexivity.
    assert (is_Some (s_heap st2 !! ret)) as [x Hx].
    { rewrite Eh. destruct (decide (cmd = ret)) as [->|]; [by rewrite lookup_insert_eq|by rewrite lookup_insert_ne]. }
    wp_step. apply (parseredirs_wp rw st2 (args_toks args ++ ts) ret x); [done| |done|].
    { destruct args as [|[w' rw'] args]; [by apply exec_follow_redir|]. apply (starts_word _ w').
      - eapply at_ok; [exact (ps_at _ _ H2)|]. cbn. set_solver.
      - repeat (apply Forall_cons; split; [done|]). by apply Forall_nil. }
    intros ret' st3 H3 Hs3 Hch3 Hr3.
    replace (Z.of_nat (length ps) + 1) with (Z.of_nat (length (ps ++ [(q, e)]))) by (rewrite length_app; cbn; lia).
    apply (IH k st3 ret' (ps ++ [(q, e)]) (rs ++ rw) (ws ++ [w])); try done; try lia.
    + rewrite length_app. cbn. lia.
    + eapply lookup_weaken; [|exact Hs3]. by rewrite Eh, lookup_insert_eq.
    + etransitivity; [|exact Hs3]. rewrite Eh. by apply insert_subseteq_r.
    + apply (chain_app _ ret' ret); [done|]. eapply chain_mono; [|exact Hs3]. rewrite Eh. by eapply chain_update.
    + apply Forall2_app; [done|]. constructor; [by apply Hwd|constructor].
    + intros r4 st4 ps4. rewrite <- !app_assoc. cbn [app map concat snd fst] in *. apply HQ.
Qed.

(** ** Commands *)

Definition parsed st ts t p st' : Prop := pst st' ts /\ s_heap st ⊆ s_heap st' /\ built (s_heap st') p t.

Lemma built_in h p t : built h p t -> exists x, h !! p = Some x.
Proof. destruct 1; eauto. Qed.

(** A new node on top of parsed commands. *)
Lemma node_wp n t st ts (Q : Z -> shst -> Prop) :
  pst st ts -> (forall h p, s_heap st ⊆ h -> h !! p = Some n -> 0 < p -> (forall c x, s_heap st !! c = Some x -> c < p) -> built h p t) ->
  (forall p st', parsed st ts t p st' -> Q p st') -> wp (new_node n) st Q.
Proof.
  intros H Hb HQ. apply (new_node_wp n st ts); [done|]. intros p st' H' Eh Hs Hp Hlt. apply HQ. split; [done|]. split; [done|].
  apply Hb; [done| |done|done]. by rewrite Eh, lookup_insert_eq.
Qed.

Lemma parseback_wp k n st ts p t (Q : Z -> shst -> Prop) :
  pst st (replicate k AMP ++ ts) -> starts (bytes "&") ts = false -> (k < n)%nat -> built (s_heap st) p t ->
  (forall p' st', parsed st ts (Nat.iter k TBack t) p' st' -> Q p' st') -> wp (parseback p es n) st Q.
Proof using Hz.
  revert n st p t. induction k as [|k IH]; intros n st p t H Hts Hn Hb HQ; (destruct n as [|n]; [lia|]); cbn [parseback].
  - wp_step. apply (peek_wp m es Hz _ _ _ _ (ps_at _ _ H)). intros a Ha. cbn [replicate app]. rewrite Hts. wp_step.
    apply HQ. split; [by eapply pst_ps|]. by split.
  - wp_step. apply (peek_wp m es Hz _ _ _ _ (ps_at _ _ H)). intros a Ha.
    assert (starts (bytes "&") (replicate (S k) AMP ++ ts) = true) as -> by reflexivity.
    wp_step. apply (gettoken_wp m es Hz AMP _ (replicate k AMP ++ ts)); [done|]. intros a2 q e Ha2 _.
    wp_step. unfold backcmd. apply (node_wp _ (TBack t) _ (replicate k AMP ++ ts)); [split; [done|apply H..]| |].
    { intros h p1 Hs Hp1 _ Hlt. destruct (built_in _ _ _ Hb) as [x Hx]. apply (bu_back h p1 p); [done|by eapply Hlt|by eapply built_mono]. }
    intros p1 st1 (H1 & Hs1 & Hb1). apply (IH n st1 p1 (TBack t)); [done|done|lia|done|]. intros p2 st2 (H2 & Hs2 & Hb2).
    rewrite <- Nat.iter_succ_r in Hb2. apply HQ. split; [done|]. split; [by etransitivity|done].
Qed.

Definition line_follow ts : Prop := ts = [] \/ exists ts', ts = RP :: ts'.
Definition pipe_follow ts : Prop := line_follow ts \/ (exists ts', ts = AMP :: ts') \/ exists ts', ts = SEMI :: ts'.

Lemma simple_wp rs args st ts (Q : Z -> shst -> Prop) fuel :
  (length args < Z.to_nat MAXARGS)%nat -> pst st ((redirs_toks rs ++ args_toks args) ++ ts) -> exec_follow ts -> (1 <= fuel)%nat ->
  (forall p st', parsed st ts (simple_tree rs args) p st' -> Q p st') -> wp (parseexec fuel es) st Q.
Proof using Hz.
  change (Z.to_nat MAXARGS) with 10%nat. intros Hl H Hf Hfu HQ. destruct fuel as [|fuel]; [lia|]. cbn [parseexec].
  rewrite <- app_assoc in H. wp_step. apply (peek_wp m es Hz _ _ _ _ (ps_at _ _ H)). intros a Ha.
  assert (starts (bytes "(") (redirs_toks rs ++ args_toks args ++ ts) = false) as ->.
  { destruct rs as [|[]]; [|done..]. destruct args as [|[w rw] args].
    - destruct Hf as [->|Hf]; [done|]. destruct ts as [|t ts]; [done|]. cbn in *.
      rewrite strchr_spec in Hf |- * by (repeat (apply Forall_cons; split; [done|]); by apply Forall_nil).
      apply bool_decide_eq_true in Hf. apply bool_decide_eq_false. intros Hf'. revert Hf Hf'. generalize (hd 0 (text t)). intros c.
      change (bytes "|)&;") with [124; 41; 38; 59]. change (bytes "(") with [40].
      rewrite !elem_of_cons, !elem_of_nil. change (ch "|") with 124. change (ch ")") with 41. change (ch "&") with 38.
      change (ch ";") with 59. change (ch "(") with 40. lia.
    - apply (starts_word _ w); [|repeat (apply Forall_cons; split; [done|]); by apply Forall_nil].
      eapply at_ok; [exact Ha|]. cbn. set_solver. }
  wp_step. unfold execcmd. change (EXEC _ _) with (arg_node []).
  apply (new_node_wp _ _ (redirs_toks rs ++ args_toks args ++ ts)); [by eapply pst_ps|].
  intros cmd st1 H1 Eh1 Hs1 Hp1 Hlt1. cbn [s_heap set_ps] in *.
  assert (s_heap st1 !! cmd = Some (arg_node [])) as Hc1 by (by rewrite Eh1, lookup_insert_eq).
  wp_step. apply (parseredirs_wp rs st1 (args_toks args ++ ts) cmd (arg_node [])); [done| |done|].
  { destruct args as [|[w rw] args]; [by apply exec_follow_redir|].
    apply (starts_word _ w); [|repeat (apply Forall_cons; split; [done|]); by apply Forall_nil].
    eapply at_ok; [exact (ps_at _ _ H1)|]. cbn. set_solver. }
  intros ret st2 H2 Hs2 Hch2 Hr2. wp_step. apply (left_wp _ _ _ (ps_at _ _ H2)). intros k Hk.
  assert (length args < k)%nat as Hk'.
  { rewrite length_app in Hk. assert (length args <= length (args_toks args))%nat; [|lia]. clear.
    unfold args_toks. induction args as [|[w rw] args IH]; [done|]. cbn. rewrite length_app. cbn in IH. lia. }
  wp_step. change 0 with (Z.of_nat (length (@nil (Z * Z)))) at 1.
  apply (parseargs_wp args k st2 ts cmd ret [] (s_heap st) rs []); try done.
  - by eapply lookup_weaken.
  - by etransitivity.
  - destruct (s_heap st !! cmd) eqn:E; [|done]. apply Hlt1 in E. lia.
  - intros ret' st3 ps3 H3 Hs3 Hc3 Hch3 Hl3 Hw3. cbn [app] in Hw3. unfold set_arg. wp_step. apply wp_modify. wp_step.
    rewrite Hc3. unfold arg_node at 1.
    assert (forall l : list Z, length l = length ps3 ->
      <[Z.to_nat (Z.of_nat (length ps3)) := 0]> (l ++ repeat 0 (10 - length ps3)) = l ++ repeat 0 (10 - length ps3)) as Ei.
    { intros l El. rewrite Nat2Z.id, insert_app_r_alt, El, Nat.sub_diag by lia.
      replace (10 - length ps3)%nat with (S (9 - length ps3)) by lia. done. }
    rewrite !Ei by (by rewrite length_map). change (EXEC (map fst ps3 ++ _) _) with (arg_node ps3).
    assert (set_node cmd (arg_node ps3) st3 = st3) as -> by (unfold set_node; rewrite insert_id by done; by destruct st3).
    apply HQ. split; [done|]. split; [done|]. unfold simple_tree. apply (chain_built _ _ cmd); [done|].
    unfold arg_node in Hc3. replace (10 - length ps3)%nat with (S (9 - length ps3)) in Hc3 by lia.
    by eapply (bu_exec _ cmd ps3).
Qed.

Definition line_spec (tl : list stok) (t : tree) : Prop := forall fuel st ts (Q : Z -> shst -> Prop),
  pst st (tl ++ ts) -> line_follow ts -> (4 * length tl + 4 <= fuel)%nat ->
  (forall p st', parsed st ts t p st' -> Q p st') -> wp (parseline fuel es) st Q.
Definition pipe_spec (tl : list stok) (t : tree) : Prop := forall fuel st ts (Q : Z -> shst -> Prop),
  pst st (tl ++ ts) -> pipe_follow ts -> (4 * length tl + 3 <= fuel)%nat ->
  (forall p st', parsed st ts t p st' -> Q p st') -> wp (parsepipe fuel es) st Q.
Definition exec_spec (tl : list stok) (t : tree) : Prop := forall fuel st ts (Q : Z -> shst -> Prop),
  pst st (tl ++ ts) -> exec_follow ts -> (4 * length tl + 2 <= fuel)%nat ->
  (forall p st', parsed st ts t p st' -> Q p st') -> wp (parseexec fuel es) st Q.

Lemma pipe_exec_follow ts : pipe_follow ts -> exec_follow ts.
Proof. intros [[->|[ts' ->]]|[[ts' ->]|[ts' ->]]]; [by left|by right..]. Qed.
Lemma pipe_follow_bar ts : pipe_follow ts -> starts (bytes "|") ts = false.
Proof. by intros [[->|[ts' ->]]|[[ts' ->]|[ts' ->]]]. Qed.
Lemma line_follow_amp ts : line_follow ts -> starts (bytes "&") ts = false /\ starts (bytes ";") ts = false.
Proof. by intros [->|[ts' ->]]. Qed.

(** The part of [parseline] that both forms share: the pipe and the [&]s. *)
Lemma line_head_wp fuel tl t k st ts (Q : Z -> shst -> Prop) :
  pipe_spec tl t -> pst st (tl ++ replicate k AMP ++ ts) -> pipe_follow ts -> starts (bytes "&") ts = false ->
  (4 * length tl + 3 <= fuel)%nat ->
  (forall p st' a, parsed st ts (Nat.iter k TBack t) p (set_ps a st') -> (if starts (bytes ";") ts then
       wp (gettoken es;; r ← parseline fuel es; listcmd p r) (set_ps a st') Q else Q p (set_ps a st'))) ->
  wp (parseline (S fuel) es) st Q.
Proof using Hz.
  intros Hp H Hf Ha Hfu HQ. cbn [parseline]. wp_step. apply (Hp fuel st (replicate k AMP ++ ts)); [done| |lia|].
  { destruct k; [done|]. right. left. by eexists. }
  intros p st1 (H1 & Hs1 & Hb1). wp_step. apply (left_wp _ _ _ (ps_at _ _ H1)). intros n Hn.
  rewrite length_app, length_replicate in Hn. wp_step. apply (parseback_wp k n st1 ts p t); [done|done|lia|done|].
  intros p2 st2 (H2 & Hs2 & Hb2). wp_step. apply (peek_wp m es Hz _ _ _ _ (ps_at _ _ H2)). intros a Ha2.
  specialize (HQ p2 st2 a). destruct (starts (bytes ";") ts).
  - apply HQ. split; [by eapply pst_ps|]. split; [by etransitivity|done].
  - wp_step. apply HQ. split; [by eapply pst_ps|]. split; [by etransitivity|done].
Qed.

Lemma line_end_spec tl t k : pipe_spec tl t -> line_spec (tl ++ replicate k AMP) (Nat.iter k TBack t).
Proof using Hz.
  intros Hp fuel st ts Q H Hf Hfu HQ. rewrite <- app_assoc in H. rewrite length_app in Hfu. destruct fuel as [|fuel]; [lia|].
  destruct (line_follow_amp ts Hf) as [Ha Hs].
  apply (line_head_wp fuel tl t k st ts Q Hp); [done|by left|done|lia|]. intros p st' a Hpd. rewrite Hs. by apply HQ.
Qed.

Lemma line_seq_spec tl t k tl' t' : pipe_spec tl t -> line_spec tl' t' ->
  line_spec (tl ++ replicate k AMP ++ SEMI :: tl') (TList (Nat.iter k TBack t) t').
Proof using Hz.
  intros Hp Hl fuel st ts Q H Hf Hfu HQ. rewrite <- !app_assoc in H. rewrite !length_app in Hfu. cbn [length app] in *.
  destruct fuel as [|fuel]; [lia|].
  apply (line_head_wp fuel tl t k st (SEMI :: tl' ++ ts) Q Hp); [done|right; right; by eexists|done|lia|].
  intros p st1 a (H1 & Hs1 & Hb1). change (starts (bytes ";") (SEMI :: tl' ++ ts)) with true. cbn iota.
  wp_step. apply (gettoken_wp m es Hz SEMI _ (tl' ++ ts)); [apply H1|]. intros a2 q e Ha2 _.
  wp_step. apply (Hl fuel _ ts); [split; [done|apply H1..]|done|lia|]. intros r st2 (H2 & Hs2 & Hb2).
  unfold listcmd. apply (node_wp _ (TList (Nat.iter k TBack t) t') st2 ts); [done| |].
  { intros h p1 Hs Hp1 _ Hlt. destruct (built_in _ _ _ Hb2) as [x Hx], (built_in _ _ _ Hb1) as [y Hy].
    apply (bu_list h p1 p r); [done|eapply Hlt, lookup_weaken; done|by eapply Hlt| |by eapply built_mono].
    eapply built_mono; [exact Hb1|by etransitivity]. }
  intros p3 st3 (H3 & Hs3 & Hb3). apply HQ. split; [done|]. split; [|done].
  etransitivity; [exact Hs1|]. by etransitivity.
Qed.

Lemma pipe_one_spec tl t : exec_spec tl t -> pipe_spec tl t.
Proof using Hz.
  intros He fuel st ts Q H Hf Hfu HQ. destruct fuel as [|fuel]; [lia|]. cbn [parsepipe].
  wp_step. apply (He fuel st ts); [done|by apply pipe_exec_follow|lia|]. intros p st1 (H1 & Hs1 & Hb1).
  wp_step. apply (peek_wp m es Hz _ _ _ _ (ps_at _ _ H1)). intros a Ha. rewrite pipe_follow_bar by done. wp_step.
  apply HQ. split; [by eapply pst_ps|done].
Qed.

Lemma pipe_pipe_spec tl t tl' t' : exec_spec tl t -> pipe_spec tl' t' -> pipe_spec (tl ++ BAR :: tl') (TPipe t t').
Proof using Hz.
  intros He Hp fuel st ts Q H Hf Hfu HQ. rewrite <- app_assoc in H. rewrite length_app in Hfu. cbn [length app] in *.
  destruct fuel as [|fuel]; [lia|]. cbn [parsepipe].
  wp_step. apply (He fuel st (BAR :: tl' ++ ts)); [done|by right|lia|]. intros p st1 (H1 & Hs1 & Hb1).
  wp_step. apply (peek_wp m es Hz _ _ _ _ (ps_at _ _ H1)). intros a Ha. change (starts (bytes "|") (BAR :: tl' ++ ts)) with true. cbn iota.
  wp_step. apply (gettoken_wp m es Hz BAR _ (tl' ++ ts)); [done|]. intros a2 q e Ha2 _.
  wp_step. apply (Hp fuel _ ts); [split; [done|apply H1..]|done|lia|]. intros r st2 (H2 & Hs2 & Hb2).
  unfold pipecmd. apply (node_wp _ (TPipe t t') st2 ts); [done| |].
  { intros h p1 Hs Hp1 _ Hlt. destruct (built_in _ _ _ Hb2) as [x Hx], (built_in _ _ _ Hb1) as [y Hy].
    apply (bu_pipe h p1 p r); [done|eapply Hlt, lookup_weaken; done|by eapply Hlt| |by eapply built_mono].
    eapply built_mono; [exact Hb1|by etransitivity]. }
  intros p3 st3 (H3 & Hs3 & Hb3). apply HQ. split; [done|]. split; [|done].
  etransitivity; [exact Hs1|]. by etransitivity.
Qed.

Lemma exec_block_spec tl t rs : line_spec tl t -> exec_spec (LP :: tl ++ RP :: redirs_toks rs) (fold_left redir_tree rs t).
Proof using Hz.
  intros Hl fuel st ts Q H Hf Hfu HQ. cbn [app length] in *. rewrite <- app_assoc in H. rewrite length_app in Hfu. cbn [length app] in *.
  destruct fuel as [|[|fuel]]; [lia..|]. cbn [parseexec]. wp_step. apply (peek_wp m es Hz _ _ _ _ (ps_at _ _ H)). intros a Ha.
  change (starts (bytes "(") (LP :: _)) with true. cbn iota. cbn [parseblock].
  wp_step. apply (peek_wp m es Hz _ _ _ _ Ha). intros a2 Ha2. change (starts (bytes "(") (LP :: _)) with true. cbn [negb].
  wp_step. apply (gettoken_wp m es Hz LP _ _ _ Ha2). intros a3 q e Ha3 _.
  wp_step. apply (Hl fuel _ (RP :: redirs_toks rs ++ ts)); [split; [done|apply H..]|right; by eexists|lia|].
  intros p st1 (H1 & Hs1 & Hb1). wp_step. apply (peek_wp m es Hz _ _ _ _ (ps_at _ _ H1)). intros a4 Ha4.
  change (starts (bytes ")") (RP :: _)) with true. cbn [negb].
  wp_step. apply (gettoken_wp m es Hz RP _ _ _ Ha4). intros a5 q5 e5 Ha5 _. destruct (built_in _ _ _ Hb1) as [x Hx].
  apply (parseredirs_wp rs _ ts p x); [split; [done|apply H1..]|by apply exec_follow_redir|done|].
  intros p' st' H' Hs' Hch _. apply HQ. split; [done|]. split; [by etransitivity|].
  eapply chain_built; [exact Hch|]. by eapply built_mono.
Qed.

Lemma parse_spec : (forall tl t, pline tl t -> line_spec tl t) /\ (forall tl t, ppipe tl t -> pipe_spec tl t) /\
  (forall tl t, pexec tl t -> exec_spec tl t).
Proof using Hz.
  apply parse_mut.
  - intros ts t k _ Hp. by apply line_end_spec.
  - intros ts t k ts' t' _ Hp _ Hl. by apply line_seq_spec.
  - intros ts t _ He. by apply pipe_one_spec.
  - intros ts t ts' t' _ He _ Hp. by apply pipe_pipe_spec.
  - intros ts t rs _ Hl. by apply exec_block_spec.
  - intros rs args Hl fuel st ts Q H Hf Hfu HQ. apply (simple_wp rs args st ts Q fuel); try done. lia.
Qed.

(** ** NUL-termination *)

(** Some characters that are not in words have become NUL. *)
Definition cut (m1 : mem) : Prop := forall a, mget m1 a = mget m a \/ (mget m1 a = 0 /\ wordch (mget m a) = false).
Definition ended (m1 : mem) q e w : Prop := wordat m q e w /\ mget m1 e = 0.
Definition more (m1 m2 : mem) : Prop := cut m2 /\ forall a, mget m1 a = 0 -> mget m2 a = 0.

Lemma more_trans m1 m2 m3 : more m1 m2 -> more m2 m3 -> more m1 m3.
Proof. intros [_ H1] [H2 H3]. split; auto. Qed.
Lemma ended_more m1 m2 h p t : more m1 m2 -> gbuilt (ended m1) h p t -> gbuilt (ended m2) h p t.
Proof. intros [_ H]. apply gbuilt_impl. intros q e w [Hw He]. split; auto. Qed.

Lemma set_byte_more st e : cut (s_mem st) -> wordch (mget m e) = false -> more (s_mem st) (s_mem (set_byte e 0 st)).
Proof.
  intros Hc He. split.
  - intros a. cbn. rewrite mget_store8. case_decide as E; [subst; by right|apply Hc].
  - intros a Ha. cbn. rewrite mget_store8. by case_decide.
Qed.

Lemma nul_args_wp ps ws pad pad' st (Q : unit -> shst -> Prop) :
  Forall2 (fun x w => wordat m x.1 x.2 w) ps ws -> cut (s_mem st) ->
  (forall m1, more (s_mem st) m1 -> Forall2 (fun x w => ended m1 x.1 x.2 w) ps ws ->
     Q tt (Shst m1 (s_heap st) (s_next st) (s_ps st))) ->
  wp (nul_args (map fst ps ++ 0 :: pad) (map snd ps ++ pad')) st Q.
Proof.
  intros Hps. revert st Q. induction Hps as [|[q e] w ps ws Hw Hps IH]; intros st Q Hc HQ; cbn [map app nul_args fst snd].
  - destruct pad'; cbn [Z.eqb]; apply wp_ret; (destruct st as [m0 h0 n0 p0]; apply (HQ m0); [by split|constructor]).
  - cbn in Hw. rewrite (proj2 (Z.eqb_neq q 0)) by (destruct Hw; lia). wp_step. apply wp_modify.
    pose proof (set_byte_more st e Hc (wa_end _ _ _ _ Hw)) as Hm. apply IH; [apply Hm|].
    intros m1 Hm1 He. apply HQ; [by eapply more_trans|]. constructor; [|done]. split; [done|]. apply Hm1. cbn.
    by rewrite mget_store8, decide_True.
Qed.

Lemma nulterminate_wp h p t : built h p t -> forall fuel st (Q : unit -> shst -> Prop),
  s_heap st = h -> cut (s_mem st) -> (Z.to_nat p < fuel)%nat ->
  (forall m1, more (s_mem st) m1 -> gbuilt (ended m1) h p t -> Q tt (Shst m1 (s_heap st) (s_next st) (s_ps st))) ->
  wp (nulterminate fuel p) st Q.
Proof.
  induction 1 as [p ps ws pad pad' Hp Hpos Hw|p c q e w mode fd t Hp Hw Hlt Hb IH|p l r t t' Hp Hl Hr Hbl IHl Hbr IHr
    |p l r t t' Hp Hl Hr Hbl IHl Hbr IHr|p c t Hp Hlt Hb IH];
    intros fuel st Q Eh Hc Hf HQ; (destruct fuel as [|fuel]; [lia|]); cbn [nulterminate]; wp_step; wp_step; rewrite Eh, Hp.
  - apply (nul_args_wp ps ws); [done|done|]. intros m1 Hm1 He. apply HQ; [done|]. by eapply bu_exec.
  - pose proof (built_pos _ _ _ Hb). wp_step. apply IH; [done|done|lia|]. intros m1 Hm1 Hb1. apply wp_modify.
    pose proof (set_byte_more (Shst m1 (s_heap st) (s_next st) (s_ps st)) e (proj1 Hm1) (wa_end _ _ _ _ Hw)) as Hm2.
    apply (HQ (store8 m1 e 0)); [by eapply more_trans|]. eapply bu_redir; [done| |done|by eapply ended_more].
    split; [done|]. by rewrite mget_store8, decide_True.
  - pose proof (built_pos _ _ _ Hbl). pose proof (built_pos _ _ _ Hbr). wp_step. apply IHl; [done|done|lia|]. intros m1 Hm1 Hb1.
    apply IHr; [done|apply Hm1|lia|]. intros m2 Hm2 Hb2. apply HQ; [by eapply more_trans|].
    eapply bu_pipe; [done|done|done|by eapply ended_more|done].
  - pose proof (built_pos _ _ _ Hbl). pose proof (built_pos _ _ _ Hbr). wp_step. apply IHl; [done|done|lia|]. intros m1 Hm1 Hb1.
    apply IHr; [done|apply Hm1|lia|]. intros m2 Hm2 Hb2. apply HQ; [by eapply more_trans|].
    eapply bu_list; [done|done|done|by eapply ended_more|done].
  - pose proof (built_pos _ _ _ Hb). apply IH; [done|done|lia|]. intros m1 Hm1 Hb1. apply HQ; [done|]. by eapply bu_back.
Qed.

(** A word that was cut off is a string. *)
Lemma ended_str m1 q e w : cut m1 -> ended m1 q e w -> 0 < q /\ cstr (at_addr m1 q) w.
Proof.
  intros Hc [[Hq Hr Hn Hw He] H0]. split; [done|]. unfold at_addr. split.
  - intros i Hi. destruct (lookup_lt_is_Some_2 w i Hi) as [c Ec]. rewrite nth_lookup, Ec. cbn.
    rewrite Forall_forall in Hw. pose proof (Hw c (list_elem_of_lookup_2 _ _ _ Ec)) as Hc0.
    pose proof (rem_lookup _ _ _ _ _ _ Hr Ec) as Em. destruct (Hc (q + Z.of_nat i)) as [->|[_ Hx]].
    + rewrite Em. split; [done|]. by apply wordch_spec in Hc0 as [? _].
    + rewrite Em in Hx. congruence.
  - by rewrite <- (rem_end _ _ _ _ Hr).
Qed.
End Parser.

(** A string pointer of the finished command. *)
Definition argstr (m : mem) (q e : Z) (w : list Z) : Prop := 0 < q /\ cstr (at_addr m q) w.

Lemma cstr_rem m s str : cstr (at_addr m s) str -> rem m s (s + Z.of_nat (length str)) str /\ mget m (s + Z.of_nat (length str)) = 0.
Proof.
  intros H. split; [|apply H]. revert s H. induction str as [|c str IH]; intros s H; cbn [rem length]; [lia|].
  apply cstr_cons in H as (H0 & _ & H). unfold at_addr in H0. rewrite Z.add_0_r in H0. split; [done|].
  replace (s + Z.of_nat (S (length str))) with (s + 1 + Z.of_nat (length str)) by lia. apply IH.
  destruct H as [H1 H2]. unfold at_addr, shift in *. split.
  - intros i Hi. rewrite <- Z.add_assoc, (Z.add_comm 1). by apply H1.
  - rewrite <- Z.add_assoc, (Z.add_comm 1). done.
Qed.

Lemma parsecmd_wp max m s ts t str (Q : Z -> shst -> Prop) :
  pline ts t -> renders ts str -> cstr (at_addr m s) str -> 0 < s -> (length str <= max)%nat ->
  (forall cmd st, gbuilt (argstr (s_mem st)) (s_heap st) cmd t -> cmd < s_next st -> Q cmd st) ->
  wp (parsecmd max s) (Shst m ∅ 1 s) Q.
Proof.
  intros Hp Hr Hs Hpos Hmax HQ. destruct (cstr_rem m s str Hs) as [Hrem Hz]. set (es := s + Z.of_nat (length str)) in *.
  unfold parsecmd. wp_step. wp_step. cbn [s_mem]. rewrite (strlen_cstr _ str) by (done || lia). fold es.
  wp_step. apply wp_modify. cbn [set_ps s_mem s_heap s_next].
  pose proof (renders_length _ _ Hr) as Hlen. rewrite Nat2Z.id.
  assert (pst m es (Shst m ∅ 1 s) (ts ++ [])) as H0.
  { split; [split; [done|done|]|done|done]. rewrite app_nil_r. by exists str. }
  wp_step. apply (proj1 (parse_spec m es Hz) ts t Hp _ _ [] _ H0); [by left|lia|].
  intros cmd st1 (H1 & _ & Hb). wp_step. unfold peek. wp_step. wp_step. wp_step. apply wp_modify. wp_step.
  destruct (at_trim m es st1 [] (ps_at _ _ _ _ H1)) as [_ (str' & Hr' & Hs' & Ht')].
  rewrite (at_mem _ _ _ _ (ps_at _ _ _ _ H1)). rewrite (renders_none str' Hs' Ht') in Hr'. cbn in Hr'.
  wp_step. wp_step. cbn [s_ps set_ps s_next]. rewrite Hr', Z.eqb_refl. cbn [negb].
  destruct (built_in m _ _ _ Hb) as [x Hx]. pose proof (ps_heap _ _ _ _ H1 _ _ Hx) as Hlt.
  assert (cut m (s_mem (set_ps es st1))) as Hcut by (cbn; rewrite (at_mem _ _ _ _ (ps_at _ _ _ _ H1)); by left).
  wp_step. apply (nulterminate_wp m (s_heap st1) cmd t Hb); [done|done|lia|].
  intros m1 [Hc1 _] Hb1. wp_step. apply HQ; [|cbn; lia]. cbn [s_mem s_heap set_ps].
  eapply gbuilt_impl; [|exact Hb1]. intros q e w He. by eapply ended_str.
Qed.

(** C13: the shell parses what its grammar says.  For every token sequence that
    derives a command and every string that writes it (with any white space
    between tokens), [parsecmd] succeeds and returns that command's tree; each
    argument and file name of the tree is the NUL-terminated word of the input,
    so terminating one word never damages another.  The calls of [malloc] are
    assumed to find memory, as the shell does. *)
Theorem parsecmd_grammar max m s ts t str :
  pline ts t -> renders ts str -> cstr (at_addr m s) str -> 0 < s -> (length str <= max)%nat ->
  wp (parsecmd max s) (Shst m ∅ 1 s) (fun cmd st => gbuilt (argstr (s_mem st)) (s_heap st) cmd t).
Proof. intros. by eapply parsecmd_wp. Qed.

(** "ls -l>a|wc ;x&" *)
Definition ex_line : list Z := [108; 115; 32; 45; 108; 62; 97; 124; 119; 99; 32; 59; 120; 38].
Definition ex_toks : list stok :=
  [Word [108; 115]; Word [45; 108]; Sym 62; Word [97]; BAR; Word [119; 99]; SEMI; Word [120]; AMP].
Definition ex_tree : tree :=
  TList (TPipe (TRedir (TExec [[108; 115]; [45; 108]]) [97] 0x601 1) (TExec [[119; 99]])) (TBack (TExec [[120]])).

Lemma ex_pline : pline ex_toks ex_tree.
Proof.
  apply (pl_seq [Word [108; 115]; Word [45; 108]; Sym 62; Word [97]; BAR; Word [119; 99]] _ 0 [Word [120]; AMP]).
  - apply (pp_pipe [Word [108; 115]; Word [45; 108]; Sym 62; Word [97]] _ [Word [119; 99]]).
    + apply (pe_simple [] [([108; 115], []); ([45; 108], [ROut [97]])]). by apply Nat.ltb_lt.
    + apply pp_one, (pe_simple [] [([119; 99], [])]). by apply Nat.ltb_lt.
  - apply (pl_end [Word [120]] (TExec [[120]]) 1). apply pp_one, (pe_simple [] [([120], [])]). by apply Nat.ltb_lt.
Qed.

Lemma ex_renders : renders ex_toks ex_line.
Proof.
  apply (rn_cons [] (Word [108; 115])); [constructor|by split; [|repeat constructor]|done|].
  apply (rn_cons [32] (Word [45; 108])); [by repeat constructor|by split; [|repeat constructor]|done|].
  apply (rn_cons [] (Sym 62)); [constructor|done|done|].
  apply (rn_cons [] (Word [97])); [constructor|by split; [|repeat constructor]|done|].
  apply (rn_cons [] BAR); [constructor|done|done|].
  apply (rn_cons [] (Word [119; 99])); [constructor|by split; [|repeat constructor]|done|].
  apply (rn_cons [32] SEMI); [by repeat constructor|done|done|].
  apply (rn_cons [] (Word [120])); [constructor|by split; [|repeat constructor]|done|].
  apply (rn_cons [] AMP); [constructor|done|done|]. by apply rn_nil.
Qed.

Definition ex_mem : mem := write_bytes ∅ 8 (ex_line ++ [0]).

Lemma parsecmd_grammar_witness :
  wp (parsecmd 100 8) (Shst ex_mem ∅ 1 8) (fun cmd st => gbuilt (argstr (s_mem st)) (s_heap st) cmd ex_tree).
Proof.
  apply (parsecmd_grammar 100 ex_mem 8 ex_toks ex_tree ex_line ex_pline ex_renders); [|lia|cbn; lia].
  split.
  - intros i Hi. cbn in Hi. do 14 (destruct i as [|i]; [by vm_compute|]). lia.
  - by vm_compute.
Defined.
