(* ===== verification/ShTotal.v ===== *)
(** * The shell's parser terminates

    On every input line the parser of user/sh.c either returns a command or
    panics with a syntax error: each loop round and each nested command consumes
    a character, so the bounds in [Sh] are never reached. *)

From Stdlib Require Import Ascii.
From S2P Require Import Prelude Riscv Mem CString Sh ShParse.

(** The computation ends; if it returns, [Q] holds. *)
Definition safe {S A} (c : M S A) (s : S) (Q : A -> S -> Prop) : Prop :=
  match c s with Ok a s' => Q a s' | Panic _ => True | NoFuel => False end.

Section Rules.
Context {S A B : Type}.
Implicit Types (s : S).
Lemma safe_ret (a : A) s (Q : A -> S -> Prop) : Q a s -> safe (mret a) s Q.
Proof. done. Qed.
Lemma safe_bind (c : M S A) (f : A -> M S B) s Q : safe c s (fun a s' => safe (f a) s' Q) -> safe (c ≫= f) s Q.
Proof. unfold safe, mbind, M_bind. by destruct (c s). Qed.
Lemma safe_get s (Q : S -> S -> Prop) : Q s s -> safe get s Q.
Proof. done. Qed.
Lemma safe_modify f s (Q : unit -> S -> Prop) : Q tt (f s) -> safe (modify f) s Q.
Proof. done. Qed.
Lemma safe_panic msg s (Q : A -> S -> Prop) : safe (panic msg) s Q.
Proof. done. Qed.
Lemma safe_mono (c : M S A) s (Q Q' : A -> S -> Prop) : safe c s Q -> (forall a s', Q a s' -> Q' a s') -> safe c s Q'.
Proof. unfold safe. destruct (c s); auto. Qed.
End Rules.

Ltac safe_step := first [apply safe_bind | apply safe_ret | apply safe_get | apply safe_modify | apply safe_panic].

Section Total.
Context (m : mem) (es : Z) (Hz : mget m es = 0).
Implicit Types (st : shst) (p q : Z).

Lemma skip_loop_range p k : p <= es -> p <= skip_ws_loop m p es k <= es.
Proof.
  revert p. induction k as [|k IH]; intros p Hp; cbn [skip_ws_loop]; [lia|].
  destruct (_ && _) eqn:E; [|lia]. apply andb_true_iff in E as [E _]. bool_to_prop. specialize (IH (p + 1)). lia.
Qed.
Lemma skip_range p : p <= es -> p <= skip_ws m p es <= es.
Proof. apply skip_loop_range. Qed.

Lemma skip_stop p : p <= es -> skip_ws m p es < es -> isws (mget m (skip_ws m p es)) = false.
Proof.
  unfold skip_ws. intros Hp. assert (es - p <= Z.of_nat (Z.to_nat (es - p))) as Hk by lia. revert Hk.
  generalize (Z.to_nat (es - p)) as k. intros k. revert p Hp. induction k as [|k IH]; intros p Hp Hk; cbn [skip_ws_loop].
  - intros. lia.
  - destruct (_ && _) eqn:E.
    + apply andb_true_iff in E as [E _]. bool_to_prop. apply IH; lia.
    + intros Hlt. rewrite (proj2 (Z.ltb_lt p es) Hlt) in E. exact E.
Qed.

Lemma word_loop_range p k : p <= es -> p <= word_end_loop m p es k <= es.
Proof.
  revert p. induction k as [|k IH]; intros p Hp; cbn [word_end_loop]; [lia|].
  destruct (_ && _ && _) eqn:E; [|lia]. apply andb_true_iff in E as [E _]. apply andb_true_iff in E as [E _]. bool_to_prop.
  specialize (IH (p + 1)). lia.
Qed.
Lemma word_progress p : p < es -> wordch (mget m p) = true -> p < word_end m p es <= es.
Proof.
  intros Hp (_ & Hw & Hs)%wordch_spec. unfold word_end. destruct (Z.to_nat (es - p)) as [|k] eqn:Ek; [lia|]. cbn [word_end_loop].
  rewrite (proj2 (Z.ltb_lt p es) Hp). unfold isws, issym in *. rewrite Hw, Hs. cbn [andb negb].
  pose proof (word_loop_range (p + 1) k). lia.
Qed.

(** Nodes point to older nodes. *)
Definition node_ok (h : gmap Z node) (p : Z) (n : node) : Prop :=
  match n with
  | EXEC _ _ => True
  | REDIR c _ _ _ _ | BACK c => 0 < c < p
  | PIPE l r | LIST l r => 0 < l < p /\ 0 < r < p
  end.
Record inv st : Prop := {
  in_mem : s_mem st = m;
  in_ps : s_ps st <= es;
  in_next : 0 < s_next st;
  in_heap p n : s_heap st !! p = Some n -> 0 < p < s_next st /\ node_ok (s_heap st) p n
}.
(** From [st], [d] characters or more have been consumed. *)
Definition adv (d : Z) st st' : Prop := inv st' /\ s_ps st + d <= s_ps st' /\ s_next st <= s_next st'.

Lemma inv_ps st p : inv st -> p <= es -> inv (set_ps p st).
Proof. intros [] ?. by split. Qed.

Lemma peek_safe st toks (Q : bool -> shst -> Prop) :
  inv st -> (forall p, adv 0 st (set_ps p st) -> Q false (set_ps p st)) ->
  (forall p, adv 0 st (set_ps p st) -> mget m p <> 0 -> skip_ws m p es = p -> Q true (set_ps p st)) -> safe (peek es toks) st Q.
Proof.
  intros H Hf Ht. unfold peek. safe_step. safe_step. rewrite (in_mem _ H). safe_step. safe_step. safe_step.
  pose proof (skip_range (s_ps st) (in_ps _ H)) as Hr. set (p := skip_ws m (s_ps st) es) in *.
  assert (adv 0 st (set_ps p st)) as Ha by (split; [apply inv_ps; [done|lia]|]; cbn; lia).
  destruct (mget m p =? 0) eqn:E; [by apply Hf|]. bool_to_prop. cbn [negb andb]. destruct (in_chars toks _); [|by apply Hf].
  apply Ht; [done|done|]. unfold p. apply Z.le_antisymm; [|apply skip_range; lia].
  destruct (decide (p < es)) as [Hlt|]; [|pose proof (skip_range p); fold p; lia].
  fold p. unfold skip_ws. destruct (Z.to_nat (es - p)); cbn [skip_ws_loop]; [lia|].
  pose proof (skip_stop (s_ps st) (in_ps _ H) Hlt) as Hs. fold p in Hs. unfold isws in Hs. rewrite Hs, andb_false_r. lia.
Qed.

Lemma gettoken_safe st (Q : Z * Z * Z -> shst -> Prop) :
  inv st -> (forall p q e t, adv 0 st (set_ps p st) -> (t <> 0 -> adv 1 st (set_ps p st)) ->
     (mget m (s_ps st) <> 0 -> skip_ws m (s_ps st) es = s_ps st -> adv 1 st (set_ps p st)) ->
     Q (t, q, e) (set_ps p st)) -> safe (gettoken es) st Q.
Proof.
  intros H HQ. unfold gettoken. safe_step. safe_step. rewrite (in_mem _ H).
  pose proof (skip_range (s_ps st) (in_ps _ H)) as Hr. pose proof (skip_stop (s_ps st) (in_ps _ H)) as Hst.
  set (q := skip_ws m (s_ps st) es) in *. set (c := mget m q) in *.
  assert (c <> 0 -> q < es) as Hlt by (intros Hc; destruct (decide (q = es)) as [E|]; [unfold c in Hc; rewrite E in Hc; done|lia]).
  match goal with |- safe (let '(_, _) := ?x in _) _ _ =>
    assert (exists t s, x = (t, s) /\ q <= s <= es /\ (t <> 0 -> q < s) /\ (c <> 0 -> q < s)) as (t & s & E & Hs1 & Hs2 & Hs3); [|rewrite E] end.
  { destruct (c =? 0) eqn:E0; bool_to_prop; [by exists c, q; repeat split; try lia|]. specialize (Hlt E0). specialize (Hst Hlt).
    destruct (_ || _) eqn:E1; [exists c, (q + 1); repeat split; lia|]. destruct (c =? ch ">") eqn:E2; bool_to_prop.
    - destruct (_ =? _) eqn:E3; [|exists c, (q + 1); repeat split; lia]. bool_to_prop. exists (ch "+"), (q + 2).
      assert (q + 1 <> es) by (intros E; rewrite E, Hz in E3; done). repeat split; lia.
    - exists (ch "a"), (word_end m q es). pose proof (word_progress q Hlt) as Hw.
      assert (wordch (mget m q) = true) as Hc; [|specialize (Hw Hc); repeat split; lia].
      apply wordch_spec. split; [done|]. split; [done|]. rewrite issym_spec, symbols_eq. apply bool_decide_eq_false.
      fold c. rewrite !elem_of_cons, elem_of_nil.
      change (ch "|") with 124 in *. change (ch "(") with 40 in *. change (ch ")") with 41 in *. change (ch ";") with 59 in *.
      change (ch "&") with 38 in *. change (ch "<") with 60 in *. change (ch ">") with 62 in *. lia. }
  safe_step. safe_step. safe_step. pose proof (skip_range s ltac:(lia)) as Hr2.
  assert (inv (set_ps (skip_ws m s es) st)) as Hi by (apply inv_ps; [done|lia]).
  apply HQ; [split; [done|]; cbn; lia| |].
  - intros Ht. split; [done|]. specialize (Hs2 Ht). cbn. lia.
  - intros Hc Eq. split; [done|]. fold q in Eq. unfold c in Hs3. rewrite Eq in Hs3. specialize (Hs3 Hc). cbn. lia.
Qed.

Lemma adv_trans d d' st st1 st2 : adv d st st1 -> adv d' st1 st2 -> adv (d + d') st st2.
Proof. intros (_ & H1 & H2) (H3 & H4 & H5). split; [done|]. lia. Qed.
Lemma adv_weaken d d' st st' : adv d st st' -> d' <= d -> adv d' st st'.
Proof. intros (H1 & H2 & H3) Hd. split; [done|]. lia. Qed.
Lemma adv_refl st : inv st -> adv 0 st st.
Proof. intros H. split; [done|]. lia. Qed.

(** A pointer to a command. *)
Definition cmdptr st p : Prop := 0 < p < s_next st.
Lemma cmdptr_adv d st st' p : adv d st st' -> cmdptr st p -> cmdptr st' p.
Proof. intros (_ & _ & H). unfold cmdptr. lia. Qed.

Lemma new_node_safe n st (Q : Z -> shst -> Prop) :
  inv st -> (forall h, node_ok h (s_next st) n) ->
  (forall p st', adv 0 st st' -> s_ps st' = s_ps st -> cmdptr st' p -> Q p st') -> safe (new_node n) st Q.
Proof.
  intros [H1 H2 H3 H4] Hn HQ. unfold new_node. safe_step. safe_step. safe_step. unfold safe, put. safe_step.
  apply HQ; [|done|unfold cmdptr; cbn; lia]. split; [|cbn; lia]. split; [done|done|cbn; lia|]. cbn. intros p x.
  rewrite lookup_insert_Some. intros [[<- <-]|[_ Hx]]; [split; [lia|apply Hn]|].
  apply H4 in Hx as [Hr Hx]. split; [lia|]. exact Hx.
Qed.

Lemma left_safe st (Q : nat -> shst -> Prop) : (forall k, es - s_ps st < Z.of_nat k -> Q k st) -> safe (left es) st Q.
Proof. intros HQ. unfold left. safe_step. safe_step. safe_step. apply HQ. lia. Qed.

Lemma parseredirs_loop_safe k cmd st (Q : Z -> shst -> Prop) :
  inv st -> cmdptr st cmd -> es - s_ps st < Z.of_nat k ->
  (forall p st', adv 0 st st' -> cmdptr st' p -> Q p st') -> safe (parseredirs_loop cmd es k) st Q.
Proof using Hz.
  revert cmd st. induction k as [|k IH]; intros cmd st H Hc Hk HQ; [pose proof (in_ps _ H); lia|]. cbn [parseredirs_loop].
  safe_step. apply (peek_safe st); [done| |].
  { intros p Ha. safe_step. by apply HQ. }
  intros p Ha Hne Hsk. safe_step. apply (gettoken_safe (set_ps p st)); [apply Ha|]. intros p1 q1 e1 t1 _ _ Ha1. specialize (Ha1 Hne Hsk).
  safe_step. apply (gettoken_safe (set_ps p1 (set_ps p st))); [apply Ha1|]. intros p2 q2 e2 t2 Ha2 _ _.
  destruct (negb _); [apply safe_panic|]. pose proof (adv_trans _ _ _ _ _ (adv_trans _ _ _ _ _ Ha Ha1) Ha2) as A. cbn in A.
  assert (forall file mode fd, safe (redircmd cmd file e2 mode fd) (set_ps p2 (set_ps p1 (set_ps p st)))
    (fun c s' => safe (parseredirs_loop c es k) s' Q)) as Hrd.
  { intros file mode fd. apply new_node_safe; [apply A|intros h; exact Hc|]. intros p' st' A' Ep Hp'.
    apply IH; [apply A'|done| |].
    - rewrite Ep. destruct A as (_ & A & _). cbn in A |- *. lia.
    - intros p3 st3 A3. apply HQ. eapply adv_weaken; [exact (adv_trans _ _ _ _ _ (adv_trans _ _ _ _ _ A A') A3)|lia]. }
  safe_step. destruct (t1 =? _); [apply Hrd|]. destruct (t1 =? _); [apply Hrd|]. destruct (t1 =? _); [apply Hrd|]. safe_step.
  apply IH; [apply A|done| |].
  - destruct A as (_ & A & _). cbn in A |- *. lia.
  - intros p3 st3 A3. apply HQ. eapply adv_weaken; [exact (adv_trans _ _ _ _ _ A A3)|lia].
Qed.

Lemma parseredirs_safe cmd st (Q : Z -> shst -> Prop) :
  inv st -> cmdptr st cmd -> (forall p st', adv 0 st st' -> cmdptr st' p -> Q p st') -> safe (parseredirs cmd es) st Q.
Proof using Hz.
  intros H Hc HQ. unfold parseredirs. safe_step. apply left_safe. intros k Hk. by apply parseredirs_loop_safe.
Qed.

Lemma set_arg_safe cmd n q e st (Q : unit -> shst -> Prop) :
  inv st -> (forall st', adv 0 st st' -> s_ps st' = s_ps st -> Q tt st') -> safe (set_arg cmd n q e) st Q.
Proof.
  intros H HQ. unfold set_arg. safe_step. destruct (s_heap st !! cmd) as [[| | | |]|] eqn:E; try (apply HQ; [by apply adv_refl|done]).
  apply HQ; [|done]. split; [|cbn; lia]. destruct H as [H1 H2 H3 H4]. split; [done..|]. cbn. intros p x.
  rewrite lookup_insert_Some. intros [[<- <-]|[_ Hx]]; [split; [by apply H4 in E as [? _]|done]|]. apply H4 in Hx as [Hr Hx]. by split.
Qed.

Lemma parseargs_safe k cmd ret n st (Q : Z * Z -> shst -> Prop) :
  inv st -> cmdptr st ret -> es - s_ps st < Z.of_nat k ->
  (forall p n' st', adv 0 st st' -> cmdptr st' p -> Q (p, n') st') -> safe (parseargs cmd ret n es k) st Q.
Proof using Hz.
  revert ret n st. induction k as [|k IH]; intros ret n st H Hc Hk HQ; [pose proof (in_ps _ H); lia|]. cbn [parseargs].
  safe_step. apply (peek_safe st); [done| |].
  2: { intros p Ha _ _. safe_step. by apply HQ. }
  intros p Ha. safe_step. apply (gettoken_safe (set_ps p st)); [apply Ha|]. intros p1 q1 e1 t1 Ha0 Ha1 _.
  destruct (t1 =? 0) eqn:E0.
  { safe_step. apply HQ; [|done]. exact (adv_trans _ _ _ _ _ Ha Ha0). }
  bool_to_prop. specialize (Ha1 E0). destruct (negb _); [apply safe_panic|].
  pose proof (adv_trans _ _ _ _ _ Ha Ha1) as A.
  safe_step. apply set_arg_safe; [apply A|]. intros st2 A2 Ep2. destruct (_ >=? _); [apply safe_panic|].
  safe_step. apply parseredirs_safe; [apply A2|by eapply cmdptr_adv|]. intros p3 st3 A3 Hp3.
  pose proof (adv_trans _ _ _ _ _ (adv_trans _ _ _ _ _ A A2) A3) as A4.
  apply IH; [apply A3|done| |].
  - destruct A4 as (_ & A4 & _). lia.
  - intros p4 n' st4 A5. apply HQ. eapply adv_weaken; [exact (adv_trans _ _ _ _ _ A4 A5)|lia].
Qed.

Lemma parseback_safe k cmd st (Q : Z -> shst -> Prop) :
  inv st -> cmdptr st cmd -> es - s_ps st < Z.of_nat k ->
  (forall p st', adv 0 st st' -> cmdptr st' p -> Q p st') -> safe (parseback cmd es k) st Q.
Proof using Hz.
  revert cmd st. induction k as [|k IH]; intros cmd st H Hc Hk HQ; [pose proof (in_ps _ H); lia|]. cbn [parseback].
  safe_step. apply (peek_safe st); [done| |].
  { intros p Ha. safe_step. by apply HQ. }
  intros p Ha Hne Hsk. safe_step. apply (gettoken_safe (set_ps p st)); [apply Ha|]. intros p1 q1 e1 t1 _ _ Ha1. specialize (Ha1 Hne Hsk).
  pose proof (adv_trans _ _ _ _ _ Ha Ha1) as A.
  safe_step. apply new_node_safe; [apply A|intros h; exact Hc|]. intros p' st' A' Ep Hp'.
  apply IH; [apply A'|done| |].
  - rewrite Ep. destruct A as (_ & A & _). cbn in A |- *. lia.
  - intros p3 st3 A3. apply HQ. eapply adv_weaken; [exact (adv_trans _ _ _ _ _ (adv_trans _ _ _ _ _ A A') A3)|lia].
Qed.

Definition parses (c : M shst Z) st : Prop := safe c st (fun p st' => adv 0 st st' /\ cmdptr st' p).

Lemma parses_elim c st (Q : Z -> shst -> Prop) :
  parses c st -> (forall p st', adv 0 st st' -> cmdptr st' p -> Q p st') -> safe c st Q.
Proof. intros H HQ. eapply safe_mono; [exact H|]. intros p st' [? ?]. by apply HQ. Qed.

(** After [peek] and [gettoken]: a nested command, and a node for both. *)
Lemma operand_safe (c : M shst Z) (mk : Z -> Z -> node) cmd toks st st0 (Q : Z -> shst -> Prop) :
  inv st -> adv 0 st0 st -> cmdptr st cmd ->
  (forall st', adv 1 st st' -> parses c st') ->
  (forall a b p h, 0 < a < p -> 0 < b < p -> node_ok h p (mk a b)) ->
  (forall p st', adv 0 st0 st' -> cmdptr st' p -> Q p st') ->
  safe (b ← peek es toks; if (b : bool) then gettoken es;; r ← c; new_node (mk cmd r) else mret cmd) st Q.
Proof using Hz.
  intros H A0 Hc Hcs Hmk HQ. safe_step. apply (peek_safe st); [done| |].
  { intros p Ha. safe_step. apply HQ; [exact (adv_trans _ _ _ _ _ A0 Ha)|done]. }
  intros p Ha Hne Hsk. safe_step. apply (gettoken_safe (set_ps p st)); [apply Ha|]. intros p1 q1 e1 t1 _ _ Ha1. specialize (Ha1 Hne Hsk).
  pose proof (adv_trans _ _ _ _ _ Ha Ha1) as A. safe_step. apply parses_elim; [by apply Hcs|]. intros r st2 A2 Hr.
  apply new_node_safe; [apply A2| |].
  { intros h. apply Hmk; [by apply (cmdptr_adv _ _ _ _ A2)|done]. }
  intros p3 st3 A3 _ Hp3. apply HQ; [|done].
  eapply adv_weaken; [exact (adv_trans _ _ _ _ _ (adv_trans _ _ _ _ _ (adv_trans _ _ _ _ _ A0 A) A2) A3)|lia].
Qed.

Lemma parse_safe fuel : forall st, inv st -> let r := es - s_ps st in
  (4 * r + 4 <= Z.of_nat fuel -> parses (parseline fuel es) st) /\
  (4 * r + 3 <= Z.of_nat fuel -> parses (parsepipe fuel es) st) /\
  (4 * r + 1 <= Z.of_nat fuel -> parses (parseblock fuel es) st) /\
  (4 * r + 2 <= Z.of_nat fuel -> parses (parseexec fuel es) st).
Proof using Hz.
  induction fuel as [|fuel IH]; intros st H r; pose proof (in_ps _ H) as Hps; [repeat split; lia|].
  destruct (IH st H) as (_ & Hpipe & Hblock & Hexec). fold r in Hpipe, Hblock, Hexec.
  assert (forall d st', adv d st st' -> es - s_ps st' <= r - d) as Hr by (intros d st' (_ & ? & _); unfold r; lia).
  repeat split; intros Hf.
  - unfold parses at 1. cbn [parseline]. safe_step. apply parses_elim; [apply Hpipe; lia|]. intros p st1 A1 Hp1.
    safe_step. apply left_safe. intros k Hk. safe_step. apply parseback_safe; [apply A1|done|done|]. intros p2 st2 A2 Hp2.
    pose proof (adv_trans _ _ _ _ _ A1 A2) as A. cbn in A.
    apply (operand_safe (parseline fuel es) LIST p2 (bytes ";") st2 st); [apply A2|done|done| |done|done].
    intros st' A'. apply IH; [apply A'|]. pose proof (Hr _ _ (adv_trans _ _ _ _ _ A A')). lia.
  - unfold parses at 1. cbn [parsepipe]. safe_step. apply parses_elim; [apply Hexec; lia|]. intros p st1 A1 Hp1.
    apply (operand_safe (parsepipe fuel es) PIPE p (bytes "|") st1 st); [apply A1|done|done| |done|done].
    intros st' A'. apply IH; [apply A'|]. pose proof (Hr _ _ (adv_trans _ _ _ _ _ A1 A')). lia.
  - unfold parses at 1. cbn [parseblock]. safe_step. apply (peek_safe st); [done|intros; cbn [negb]; apply safe_panic|].
    intros p Ha Hne Hsk. cbn [negb].
    safe_step. apply (gettoken_safe (set_ps p st)); [apply Ha|]. intros p1 q1 e1 t1 _ _ Ha1. specialize (Ha1 Hne Hsk).
    pose proof (adv_trans _ _ _ _ _ Ha Ha1) as A.
    safe_step. apply parses_elim; [apply IH; [apply A|]; pose proof (Hr _ _ A); lia|]. intros c st2 A2 Hc.
    pose proof (adv_trans _ _ _ _ _ A A2) as A3.
    safe_step. apply (peek_safe st2); [apply A2|intros; cbn [negb]; apply safe_panic|]. intros p3 Ha3 _ _. cbn [negb].
    safe_step. apply (gettoken_safe (set_ps p3 st2)); [apply Ha3|]. intros p4 q4 e4 t4 Ha4 _ _.
    apply parseredirs_safe; [apply Ha4|done|]. intros p5 st5 A5 Hp5. split; [|done].
    eapply adv_weaken; [exact (adv_trans _ _ _ _ _ (adv_trans _ _ _ _ _ (adv_trans _ _ _ _ _ A3 Ha3) Ha4) A5)|lia].
  - unfold parses at 1. cbn [parseexec]. safe_step. apply (peek_safe st); [done| |].
    2: { intros p Ha _ _. destruct (IH (set_ps p st) (proj1 Ha)) as (_ & _ & Hb & _).
         apply parses_elim; [apply Hb; pose proof (Hr _ _ Ha); lia|]. intros p' st' A'. split; [|done]. exact (adv_trans _ _ _ _ _ Ha A'). }
    intros p Ha. safe_step. unfold execcmd. apply new_node_safe; [apply Ha|done|]. intros c st1 A1 _ Hc1.
    safe_step. apply parseredirs_safe; [apply A1|done|]. intros ret st2 A2 Hc2.
    safe_step. apply left_safe. intros k Hk. safe_step. apply parseargs_safe; [apply A2|done|done|]. intros p3 n' st3 A3 Hp3.
    safe_step. apply set_arg_safe; [apply A3|]. intros st4 A4 _. safe_step. split; [|by eapply cmdptr_adv].
    exact (adv_trans _ _ _ _ _ (adv_trans _ _ _ _ _ (adv_trans _ _ _ _ _ (adv_trans _ _ _ _ _ Ha A1) A2) A3) A4).
Qed.
End Total.

Lemma nul_args_safe argv eargv st (Q : unit -> shst -> Prop) :
  (forall m1, Q tt (Shst m1 (s_heap st) (s_next st) (s_ps st))) -> safe (nul_args argv eargv) st Q.
Proof.
  revert eargv st. induction argv as [|q argv IH]; intros eargv st HQ; cbn [nul_args]; [safe_step; by destruct st|].
  destruct eargv as [|e eargv]; [safe_step; by destruct st|]. destruct (q =? 0); [safe_step; by destruct st|].
  safe_step. safe_step. apply IH. apply HQ.
Qed.

Lemma nulterminate_safe fuel p st (Q : unit -> shst -> Prop) :
  (forall p n, s_heap st !! p = Some n -> 0 < p < s_next st /\ node_ok (s_heap st) p n) -> (Z.to_nat p < fuel)%nat ->
  (forall m1, Q tt (Shst m1 (s_heap st) (s_next st) (s_ps st))) -> safe (nulterminate fuel p) st Q.
Proof.
  revert p st Q. induction fuel as [|fuel IH]; intros p st Q Hh Hf HQ; [lia|]. cbn [nulterminate]. safe_step. safe_step.
  destruct (s_heap st !! p) as [n|] eqn:E; [|safe_step; by destruct st]. destruct (Hh p n E) as [Hp Hn]. destruct n; cbn in Hn.
  - by apply nul_args_safe.
  - safe_step. apply IH; [done|lia|]. intros m1. safe_step. apply HQ.
  - safe_step. apply IH; [done|lia|]. intros m1. apply IH; [done|cbn; lia|done].
  - safe_step. apply IH; [done|lia|]. intros m1. apply IH; [done|cbn; lia|done].
  - apply IH; [done|lia|done].
Qed.

(** C28: the parser terminates on every line.  Whatever the bytes of the string
    are, [parsecmd] either returns a command or stops with one of its error
    messages; in particular no unbalanced or deeply nested input makes it loop.
    The calls of [malloc] are assumed to find memory, as the shell does. *)
Theorem parsecmd_total max m s str :
  cstr (at_addr m s) str -> (length str <= max)%nat -> parsecmd max s (Shst m ∅ 1 s) <> NoFuel.
Proof.
  intros Hs Hmax E. destruct (cstr_rem m s str Hs) as [_ Hz]. set (es := s + Z.of_nat (length str)) in *.
  cut (safe (parsecmd max s) (Shst m ∅ 1 s) (fun _ _ => True)); [unfold safe; by rewrite E|]. clear E.
  unfold parsecmd. safe_step. safe_step. cbn [s_mem]. rewrite (strlen_cstr _ str) by (done || lia). fold es.
  safe_step. safe_step. safe_step. cbn [set_ps s_mem s_heap s_next].
  assert (inv m es (Shst m ∅ 1 s)) as H by (split; [done|unfold es; cbn; lia|done|done]).
  rewrite Nat2Z.id. apply parses_elim with (m := m) (es := es).
  { apply (parse_safe m es Hz); [done|]. unfold es. cbn [s_ps set_ps].
lia. }
  intros cmd st1 A1 Hc. safe_step. apply (peek_safe m es st1); [apply A1| |];
    intros p Ha; intros; safe_step; safe_step; (destruct (negb _); [apply safe_panic|]); safe_step.
  all: apply nulterminate_safe; [apply (in_heap m es), Ha|unfold cmdptr in Hc; cbn; lia|]; intros; by safe_step.
Qed.

(** "((a;b)>" does not parse: the parser stops with a panic. *)
Definition ex_bad : list Z := [40; 40; 97; 59; 98; 41; 62].
Lemma parsecmd_total_witness :
  parsecmd 100 8 (Shst (write_bytes ∅ 8 (ex_bad ++ [0])) ∅ 1 8) <> NoFuel /\
  parsecmd 100 8 (Shst (write_bytes ∅ 8 (ex_bad ++ [0])) ∅ 1 8) = Panic "missing file for redirection".
Proof.
  split; [|by vm_compute]. apply (parsecmd_total 100 _ 8 ex_bad); [|cbn; lia]. split.
  - intros i Hi. cbn in Hi. do 7 (destruct i as [|i]; [by vm_compute|]). lia.
  - by vm_compute.
Defined.
