(* ===== verification/ShRun.v ===== *)
(** * What the shell runs

    The descriptor tables that the programs of a command line start with.  The
    specification [plan] says it for the command tree: a redirection replaces
    one descriptor, a pipe connects descriptor 1 of the left side with
    descriptor 0 of the right side, and nothing else changes.  [runs] executes
    the system calls that [runcmd] of user/sh.c makes, with the kernel's rule
    that open, dup and pipe take the lowest free descriptors. *)

From Stdlib Require Import Ascii.
From S2P Require Import Prelude Riscv Mem CString Sh ShParse.

(** What a descriptor refers to; pipes are numbered in order of creation. *)
Inductive obj := OFile (path : list Z) (mode : Z) | ORead (pipe : nat) | OWrite (pipe : nat) | OOther (n : Z).
Abbreviation fdt := (gmap Z obj).
(** A program started with its arguments and descriptors. *)
Abbreviation start := (list (list Z) * fdt)%type.

Definition lowest (fds : fdt) (r : Z) : Prop := 0 <= r /\ fds !! r = None /\ forall j, 0 <= j < r -> is_Some (fds !! j).

(** All processes of a command; every system call succeeds. *)
Inductive runs : nat -> fdt -> prog -> list start -> nat -> Prop :=
  | r_exit n fds st : runs n fds (PExit st) [] n
  | r_exec n fds path argv f : runs n fds (PExec path argv f) [(argv, fds)] n
  | r_close n fds fd k ev n' : runs n (delete fd fds) k ev n' -> runs n fds (PClose fd k) ev n'
  | r_open n fds path mode k r ev n' : lowest fds r -> runs n (<[r := OFile path mode]> fds) (k r) ev n' ->
      runs n fds (POpen path mode k) ev n'
  | r_fork n fds c p f e1 n1 e2 n2 : runs n fds c e1 n1 -> runs n1 fds p e2 n2 -> runs n fds (PFork c p f) (e1 ++ e2) n2
  | r_wait n fds k ev n' : runs n fds k ev n' -> runs n fds (PWait k) ev n'
  | r_pipe n fds k f r0 r1 ev n' : lowest fds r0 -> lowest (<[r0 := ORead n]> fds) r1 ->
      runs (S n) (<[r1 := OWrite n]> (<[r0 := ORead n]> fds)) (k r0 r1) ev n' -> runs n fds (PPipe k f) ev n'
  | r_dup n fds fd o k r ev n' : fds !! fd = Some o -> lowest fds r -> runs n (<[r := o]> fds) k ev n' ->
      runs n fds (PDup fd k) ev n'
  | r_write n fds fd msg k ev n' : runs n fds k ev n' -> runs n fds (PWrite fd msg k) ev n'.

(** The specification. *)
Fixpoint plan (n : nat) (t : tree) (fds : fdt) : list start * nat :=
  match t with
  | TExec [] => ([], n)
  | TExec argv => ([(argv, fds)], n)
  | TRedir t file mode fd => plan n t (<[fd := OFile file mode]> fds)
  | TPipe l r =>
      let '(e1, n1) := plan (S n) l (<[1 := OWrite n]> fds) in
      let '(e2, n2) := plan n1 r (<[0 := ORead n]> fds) in
      (e1 ++ e2, n2)
  | TList l r =>
      let '(e1, n1) := plan n l fds in
      let '(e2, n2) := plan n1 r fds in
      (e1 ++ e2, n2)
  | TBack t => plan n t fds
  end.

Lemma lowest_inj fds r r' : lowest fds r -> lowest fds r' -> r = r'.
Proof.
  intros (H0 & H1 & H2) (H0' & H1' & H2'). destruct (Z.lt_trichotomy r r') as [Hlt|[|Hlt]]; [|done|].
  - destruct (H2' r ltac:(lia)) as [x Hx]. congruence.
  - destruct (H2 r' ltac:(lia)) as [x Hx]. congruence.
Qed.

Lemma runs_det n fds p ev n' ev' n'' : runs n fds p ev n' -> runs n fds p ev' n'' -> ev = ev' /\ n' = n''.
Proof.
  intros H. revert ev' n''.
  induction H as [| |n fds fd k ev n' _ IH|n fds path mode k r ev n' Hl _ IH|n fds c p f e1 n1 e2 n2 _ IH1 _ IH2|n fds k ev n' _ IH
    |n fds k f r0 r1 ev n' H0 H1 _ IH|n fds fd o k r ev n' Hfd Hl _ IH|n fds fd msg k ev n' _ IH]; intros ev' n'' H'; inversion H'; subst; auto.
  - assert (r = r0) as -> by (by eapply lowest_inj). auto.
  - match goal with H1 : runs n _ c _ _, H2 : runs _ _ p _ _ |- _ => apply IH1 in H1 as [-> ->]; by apply IH2 in H2 as [-> ->] end.
  - assert (r0 = r2) as -> by (by eapply lowest_inj). assert (r1 = r3) as -> by (by eapply lowest_inj). auto.
  - assert (o = o0) as -> by congruence. assert (r = r0) as -> by (by eapply lowest_inj). auto.
Qed.

(** The redirections of the tree are of descriptors 0 and 1, its strings short. *)
Fixpoint good (max : nat) (t : tree) : Prop :=
  match t with
  | TExec ws => Forall (fun w => length w <= max)%nat ws
  | TRedir t f _ fd => good max t /\ (length f <= max)%nat /\ (fd = 0 \/ fd = 1)
  | TPipe l r | TList l r => good max l /\ good max r
  | TBack t => good max t
  end.

Section Good.
Context (max : nat).
Definition short (ts : list stok) : Prop := forall w, Word w ∈ ts -> (length w <= max)%nat.
Lemma short_app ts ts' : short (ts ++ ts') <-> short ts /\ short ts'.
Proof. unfold short. set_solver. Qed.
Lemma short_cons t ts : short (t :: ts) -> short ts.
Proof. unfold short. set_solver. Qed.

Lemma good_back k t : good max t -> good max (Nat.iter k TBack t).
Proof. induction k; [done|]. intros H. by apply IHk. Qed.
Lemma good_redirs rs t : short (redirs_toks rs) -> good max t -> good max (fold_left redir_tree rs t).
Proof.
  revert t. induction rs as [|r rs IH]; intros t Hs Ht; [done|]. change (redirs_toks (r :: rs)) with (redir_toks r ++ redirs_toks rs) in Hs.
  apply short_app in Hs as [Hr Hs]. cbn. apply IH; [done|].
  destruct r as [w|w|w]; (split; [done|split; [apply Hr; cbn; set_solver|auto]]).
Qed.
Lemma short_args args : short (args_toks args) ->
  Forall (fun w => length w <= max)%nat (map fst args) /\ short (redirs_toks (concat (map snd args))).
Proof.
  induction args as [|[w rw] args IH]; intros Hs; [split; [constructor|unfold short; set_solver]|].
  change (args_toks ((w, rw) :: args)) with (Word w :: redirs_toks rw ++ args_toks args) in Hs.
  pose proof (short_cons _ _ Hs) as [Hr Ha]%short_app. destruct (IH Ha) as [H1 H2]. split.
  - constructor; [apply Hs; set_solver|done].
  - unfold redirs_toks in *. cbn [map concat snd]. rewrite map_app, concat_app. by apply short_app.
Qed.

Lemma parse_good : (forall ts t, pline ts t -> short ts -> good max t) /\ (forall ts t, ppipe ts t -> short ts -> good max t) /\
  (forall ts t, pexec ts t -> short ts -> good max t).
Proof.
  apply parse_mut.
  - intros ts t k _ IH [Hs _]%short_app. by apply good_back, IH.
  - intros ts t k ts' t' _ IH _ IH' (Hs & (_ & Hs'%short_cons)%short_app)%short_app. split; [by apply good_back, IH|by apply IH'].
  - auto.
  - intros ts t ts' t' _ IH _ IH' (Hs & Hs'%short_cons)%short_app. split; auto.
  - intros ts t rs _ IH (Hs & Hs'%short_cons)%short_cons%short_app. apply good_redirs; auto.
  - intros rs args _ (Hr & Ha)%short_app. destruct (short_args args Ha) as [H1 H2]. unfold simple_tree. apply good_redirs; [|done].
    unfold redirs_toks in *. rewrite map_app, concat_app. by apply short_app.
Qed.

Lemma renders_short ts str : renders ts str -> (length str <= max)%nat -> short ts.
Proof.
  induction 1 as [|w t ts str _ _ _ _ IH]; intros Hl; [unfold short; set_solver|]. rewrite !length_app in Hl.
  intros w' [<-|Hw]%elem_of_cons; [cbn in Hl; lia|]. apply IH; [lia|done].
Qed.
End Good.

Section Run.
Context (max : nat) (m : mem) (h : gmap Z node).

Lemma str_at_spec q w : cstr (at_addr m q) w -> (length w <= max)%nat -> str_at max m q = w.
Proof.
  intros Hs Hl. unfold str_at. rewrite (strlen_cstr _ w) by (done || lia). rewrite Nat2Z.id. apply list_eq. intros i.
  unfold read_bytes. rewrite list_lookup_fmap. destruct (decide (i < length w)%nat) as [Hi|Hi].
  - rewrite lookup_seq_lt by done. cbn. destruct (proj1 Hs i Hi) as [E _]. unfold at_addr in E. rewrite E.
    apply lookup_lt_is_Some_2 in Hi as [c Hc]. by rewrite nth_lookup, Hc.
  - rewrite lookup_seq_ge by lia. symmetry. apply lookup_ge_None_2. lia.
Qed.

Lemma args_at_spec ps ws pad : Forall2 (fun x w => argstr m x.1 x.2 w) ps ws -> Forall (fun w => length w <= max)%nat ws ->
  args_at max m (map fst ps ++ 0 :: pad) = ws.
Proof.
  intros H. induction H as [|[q e] w ps ws [Hq Hs] _ IH]; intros Hl; cbn [map app args_at fst]; [done|].
  apply Forall_cons in Hl as [Hw Hl]. cbn in Hq, Hs. rewrite (proj2 (Z.eqb_neq q 0)) by lia.
  by rewrite (str_at_spec q w), IH.
Qed.

(** Descriptors 0 and 1 are open. *)
Definition std (fds : fdt) : Prop := is_Some (fds !! 0) /\ is_Some (fds !! 1).

Lemma std_insert fds fd o : std fds -> std (<[fd := o]> fds).
Proof.
  intros [H0 H1]. split; rewrite lookup_insert; by case_decide; eauto.
Qed.

(** A free descriptor always exists. *)
Lemma lowest_exists (fds : fdt) : exists r, lowest fds r.
Proof.
  assert (forall k, (exists r, r < Z.of_nat k /\ lowest fds r) \/ (forall j, 0 <= j < Z.of_nat k -> is_Some (fds !! j))) as Hk.
  { induction k as [|k [(r & Hr & Hl)|IH]]; [right; lia|left; exists r; split; [lia|done]|].
    destruct (fds !! Z.of_nat k) eqn:E.
    - right. intros j Hj. destruct (decide (j = Z.of_nat k)) as [->|]; [by eexists|]. apply IH. lia.
    - left. exists (Z.of_nat k). split; [lia|]. split; [lia|]. by split. }
  destruct (Hk (S (size fds))) as [(r & _ & Hr)|Hall]; [by exists r|]. exfalso.
  set (l := map Z.of_nat (seq 0 (S (size fds)))).
  assert (size (list_to_set l : gset Z) <= size (dom fds))%nat as Hs.
  { apply subseteq_size. intros x. rewrite elem_of_list_to_set, elem_of_dom. unfold l. intros (j & -> & Hj)%list_elem_of_fmap.
    apply elem_of_seq in Hj. apply Hall. lia. }
  rewrite size_list_to_set, size_dom in Hs; [unfold l in Hs; rewrite length_map, length_seq in Hs; lia|].
  unfold l. apply NoDup_fmap_2; [intros x y; lia|apply NoDup_seq].
Qed.

(** After a close, the lowest free descriptor is the one closed. *)
Lemma lowest_closed fds fd : fd = 0 \/ (fd = 1 /\ is_Some (fds !! 0)) -> lowest (delete fd fds) fd.
Proof.
  intros Hfd. split; [lia|]. split; [by rewrite lookup_delete_eq|]. intros j Hj.
  destruct Hfd as [->|[-> H0]]; [lia|]. assert (j = 0) as -> by lia. by rewrite lookup_delete_ne.
Qed.

Lemma lowest_high fds r : std fds -> lowest fds r -> 2 <= r.
Proof.
  intros [[x H0] [y H1]] (Hr & Hn & _). destruct (decide (r = 0)) as [->|]; [congruence|]. destruct (decide (r = 1)) as [->|]; [congruence|]. lia.
Qed.

(** One side of a pipe: descriptor [fd] becomes the pipe end, both ends go. *)
Lemma pipe_side n n1 (fds : fdt) r0 r1 fd src o k ev n' :
  (fd = 0 \/ fd = 1) -> std fds -> 2 <= r0 -> 2 <= r1 -> r0 <> r1 -> fds !! r0 = None -> fds !! r1 = None ->
  (src = r0 /\ o = ORead n \/ src = r1 /\ o = OWrite n) ->
  runs n1 (<[fd := o]> fds) k ev n' ->
  runs n1 (<[r1 := OWrite n]> (<[r0 := ORead n]> fds)) (PClose fd (PDup src (PClose r0 (PClose r1 k)))) ev n'.
Proof.
  intros Hfd [H0 H1] Hr0 Hr1 Hne E0 E1 Hsrc Hk. apply r_close.
  apply (r_dup _ _ src o _ fd).
  - destruct Hsrc as [[-> ->]|[-> ->]]; rewrite lookup_delete_ne by lia; simplify_map_eq; done.
  - apply lowest_closed. destruct Hfd as [->| ->]; [by left|right]. split; [done|]. by rewrite !lookup_insert_ne by lia.
  - apply r_close, r_close. replace (delete r1 _) with (<[fd := o]> fds); [done|]. apply map_eq. intros j.
    destruct (decide (j = fd)) as [->|]; [rewrite !lookup_delete_ne by lia; by rewrite !lookup_insert_eq|].
    destruct (decide (j = r1)) as [->|]; [by rewrite lookup_delete_eq, lookup_insert_ne|]. rewrite lookup_delete_ne by done.
    destruct (decide (j = r0)) as [->|]; [by rewrite lookup_delete_eq, lookup_insert_ne|]. rewrite lookup_delete_ne by done.
    rewrite !(lookup_insert_ne _ fd) by done. rewrite lookup_delete_ne by done. by rewrite !lookup_insert_ne by done.
Qed.

Lemma runcmd_spec p t : gbuilt (argstr m) h p t -> good max t -> forall fuel, (Z.to_nat p < fuel)%nat ->
  exists pr, runcmd max m h fuel p = Some pr /\
    forall n fds, std fds -> runs n fds pr (plan n t fds).1 (plan n t fds).2.
Proof.
  induction 1 as [p ps ws pad pad' Hp Hpos Hw|p c q e w mode fd t Hp Hw Hlt Hb IH|p l r t t' Hp Hl Hr Hbl IHl Hbr IHr
    |p l r t t' Hp Hl Hr Hbl IHl Hbr IHr|p c t Hp Hlt Hb IH]; intros Hg fuel Hf; (destruct fuel as [|fuel]; [lia|]); cbn [runcmd].
  - rewrite (proj2 (Z.eqb_neq p 0)) by lia. rewrite Hp, (args_at_spec ps ws) by done. destruct ws as [|w ws].
    + eexists. split; [done|]. intros. constructor.
    + eexists. split; [done|]. intros. constructor.
  - pose proof (gbuilt_pos _ _ _ _ Hb). destruct Hg as (Hg & Hlen & Hfd). rewrite (proj2 (Z.eqb_neq p 0)) by lia. rewrite Hp.
    destruct (IH Hg fuel ltac:(lia)) as (pr & -> & Hrun). cbn. rewrite (str_at_spec q w) by (done || apply Hw).
    eexists. split; [done|]. intros n fds Hs. cbn [plan]. apply r_close. apply (r_open _ _ _ _ _ fd).
    + apply lowest_closed. destruct Hfd as [->| ->]; [by left|right; split; [done|apply Hs]].
    + rewrite insert_delete_eq, (proj2 (Z.ltb_ge fd 0)) by lia. apply Hrun. by apply std_insert.
  - pose proof (gbuilt_pos _ _ _ _ Hbl). pose proof (gbuilt_pos _ _ _ _ Hbr). destruct Hg as [Hgl Hgr].
    rewrite (proj2 (Z.eqb_neq p 0)) by lia. rewrite Hp. destruct (IHl Hgl fuel ltac:(lia)) as (pl & -> & Hrl).
    destruct (IHr Hgr fuel ltac:(lia)) as (pr & -> & Hrr). cbn. eexists. split; [done|]. intros n fds Hs. cbn [plan].
    destruct (lowest_exists fds) as [r0 Hr0]. destruct (lowest_exists (<[r0 := ORead n]> fds)) as [r1 Hr1].
    pose proof (lowest_high _ _ Hs Hr0). pose proof (lowest_high _ _ (std_insert _ r0 (ORead n) Hs) Hr1).
    destruct Hr0 as (Hp0 & E0 & Hb0). destruct Hr1 as (Hp1 & E1 & Hb1).
    assert (r0 <> r1) as Hne by (intros ->; by rewrite lookup_insert_eq in E1). rewrite lookup_insert_ne in E1 by done.
    specialize (Hrl (S n) (<[1 := OWrite n]> fds) (std_insert _ _ _ Hs)).
    destruct (plan (S n) t _) as [e1 n1]. specialize (Hrr n1 (<[0 := ORead n]> fds) (std_insert _ _ _ Hs)).
    destruct (plan n1 t' _) as [e2 n2]. cbn [fst snd] in *.
    apply (r_pipe _ _ _ _ r0 r1); [by split| |].
    { split; [done|]. split; [by rewrite lookup_insert_ne|done]. }
    unfold fork1. eapply r_fork; [eapply (pipe_side n (S n) fds r0 r1 1 r1 (OWrite n)); try done; [by right|by right]|].
    rewrite <- (app_nil_r e2).
    eapply r_fork; [eapply (pipe_side n n1 fds r0 r1 0 r0 (ORead n)); try done; [by left|by left]|].
    apply r_close, r_close, r_wait, r_wait, r_exit.
  - pose proof (gbuilt_pos _ _ _ _ Hbl). pose proof (gbuilt_pos _ _ _ _ Hbr). destruct Hg as [Hgl Hgr].
    rewrite (proj2 (Z.eqb_neq p 0)) by lia. rewrite Hp. destruct (IHl Hgl fuel ltac:(lia)) as (pl & -> & Hrl).
    destruct (IHr Hgr fuel ltac:(lia)) as (pr & -> & Hrr). cbn. eexists. split; [done|]. intros n fds Hs. cbn [plan].
    specialize (Hrl n fds Hs). destruct (plan n t fds) as [e1 n1]. specialize (Hrr n1 fds Hs). destruct (plan n1 t' fds) as [e2 n2].
    eapply r_fork; [exact Hrl|]. by apply r_wait.
  - pose proof (gbuilt_pos _ _ _ _ Hb). rewrite (proj2 (Z.eqb_neq p 0)) by lia. rewrite Hp.
    destruct (IH Hg fuel ltac:(lia)) as (pr & -> & Hrun). cbn. eexists. split; [done|]. intros n fds Hs. cbn [plan].
    rewrite <- (app_nil_r (plan n t fds).1). eapply r_fork; [by apply Hrun|constructor].
Qed.
End Run.

(** C21: a command line runs the programs that its tree says, with the right
    descriptors.  For every line that writes a command of the grammar, parsing
    and running it starts exactly the programs of [plan], in that order, each
    with the words of the line as arguments and with descriptors that differ
    from the shell's only by its redirections and pipe ends; so no program
    holds an end of a pipe other than as its own input or output.  The calls of
    [malloc] are assumed to find memory, as the shell does. *)
Theorem runcmd_plan ts t str s m n fds :
  pline ts t -> renders ts str -> (length str <= 100)%nat -> 0 < s -> cstr (at_addr m s) str -> std fds ->
  exists cmd st pr, parsecmd 100 s (Shst m ∅ 1 s) = Ok cmd st /\
    runcmd 100 (s_mem st) (s_heap st) (Z.to_nat (s_next st)) cmd = Some pr /\
    forall ev n', runs n fds pr ev n' <-> (ev, n') = plan n t fds.
Proof.
  intros Hp Hr Hl Hs Hm Hstd.
  assert (wp (parsecmd 100 s) (Shst m ∅ 1 s) (fun cmd st => gbuilt (argstr (s_mem st)) (s_heap st) cmd t /\ cmd < s_next st))
    as (cmd & st & E & Hb & Hlt)%wp_elim by (by eapply parsecmd_wp).
  pose proof (proj1 (parse_good 100) ts t Hp (renders_short 100 ts str Hr Hl)) as Hg. pose proof (gbuilt_pos _ _ _ _ Hb).
  destruct (runcmd_spec 100 (s_mem st) (s_heap st) cmd t Hb Hg (Z.to_nat (s_next st)) ltac:(lia)) as (pr & Epr & Hrun).
  exists cmd, st, pr. split; [done|]. split; [done|]. specialize (Hrun n fds Hstd). intros ev n'. split.
  - intros H'. destruct (runs_det _ _ _ _ _ _ _ Hrun H') as [<- <-]. by destruct (plan n t fds).
  - intros E'. rewrite <- E' in Hrun. done.
Qed.

Definition ex_fds : fdt := {[0 := OOther 0; 1 := OOther 0; 2 := OOther 0]}.
Lemma runcmd_plan_witness : exists cmd st pr,
  parsecmd 100 8 (Shst ex_mem ∅ 1 8) = Ok cmd st /\
  runcmd 100 (s_mem st) (s_heap st) (Z.to_nat (s_next st)) cmd = Some pr /\
  forall ev n', runs 0 ex_fds pr ev n' <-> (ev, n') =
    ([([[108; 115]; [45; 108]], <[1 := OFile [97] 0x601]> (<[1 := OWrite 0]> ex_fds));
      ([[119; 99]], <[0 := ORead 0]> ex_fds); ([[120]], ex_fds)], 1%nat).
Proof.
  apply (runcmd_plan ex_toks ex_tree ex_line 8 ex_mem 0 ex_fds ex_pline ex_renders); [cbn; lia|lia| |].
  - split; [|by vm_compute]. intros i Hi. cbn in Hi. do 14 (destruct i as [|i]; [by vm_compute|]). lia.
  - split; by eexists.
Defined.
