(* ===== verification/Grep.v ===== *)
(** * user/grep.c : matching and filtering lines

    The matcher is compared with a declarative meaning of patterns ([here]), and
    the buffering loop with "the complete lines that match", for every way in
    which [read] delivers the input.  Strings are the bytes before the NUL. *)

From Stdlib Require Import Ascii.
From S2P Require Import Prelude Riscv CString.

(** ** The code *)

(** [matchstar(c, re, text)], where [mh text] is [matchhere(re, text)]. *)
Fixpoint matchstar (mh : list Z -> bool) (c : Z) (text : list Z) : bool :=
  mh text ||
  match text with
  | [] => false
  | x :: text => ((x =? c) || (c =? ch ".")) && matchstar mh c text
  end.

Fixpoint matchhere (re text : list Z) : bool :=
  match re with
  | [] => true
  | c :: re1 =>
      let single :=
        if (c =? ch "$") && (match re1 with [] => true | _ => false end) then
          match text with [] => true | _ => false end
        else
          match text with
          | [] => false
          | x :: text => ((c =? ch ".") || (c =? x)) && matchhere re1 text
          end in
      match re1 with
      | d :: re2 => if d =? ch "*" then matchstar (matchhere re2) c text else single
      | [] => single
      end
  end.

(** [do ... while( *text++ != 0 )] *)
Fixpoint match_loop (re text : list Z) : bool :=
  matchhere re text || match text with [] => false | _ :: text => match_loop re text end.
Definition match_ (re text : list Z) : bool :=
  match re with
  | c :: re1 => if c =? ch "^" then matchhere re1 text else match_loop re text
  | [] => match_loop re text
  end.

(** [strchr(p, '\n')]: the bytes before the newline and those after it; nothing
    beyond a NUL is seen. *)
Fixpoint cut_line (p : list Z) : option (list Z * list Z) :=
  match p with
  | [] => None
  | c :: p =>
      if c =? 0 then None
      else if c =? 10 then Some ([], p)
      else match cut_line p with Some (l, r) => Some (c :: l, r) | None => None end
  end.
(** The inner loop: what is written, and the bytes that are left. *)
Fixpoint grep_lines (pattern p : list Z) (k : nat) : list Z * list Z :=
  match k with
  | O => ([], p)
  | S k =>
      match cut_line p with
      | None => ([], p)
      | Some (line, rest) =>
          let '(out, tail) := grep_lines pattern rest k in
          ((if match_ pattern line then line ++ [10] else []) ++ out, tail)
      end
  end.

Definition BUFSZ : Z := 1024.
(** [read]: at most [n] bytes of the next piece of input. *)
Definition read_piece (n : nat) (inp : list (list Z)) : list Z * list (list Z) :=
  match inp with
  | [] => ([], [])
  | s :: inp => (take n s, match drop n s with [] => inp | s' => s' :: inp end)
  end.
(** The outer loop with [m] bytes [pend] in the buffer. *)
Fixpoint grep_loop (pattern pend : list Z) (inp : list (list Z)) (fuel : nat) : option (list Z) :=
  match fuel with
  | O => None
  | S fuel =>
      match read_piece (Z.to_nat (BUFSZ - Z.of_nat (length pend) - 1)) inp with
      | ([], _) => Some []
      | (data, inp) =>
          let pend := pend ++ data in
          let '(out, tail) := grep_lines pattern pend (S (length pend)) in
          match grep_loop pattern tail inp fuel with Some o => Some (out ++ o) | None => None end
      end
  end.
Definition grep (pattern : list Z) (inp : list (list Z)) : option (list Z) :=
  grep_loop pattern [] inp (S (length (concat inp))).

(** ** The meaning of patterns *)

Definition any (c x : Z) : Prop := c = ch "." \/ c = x.
(** [here re w rest]: [re] matches [w] in front of [rest]. *)
Inductive here : list Z -> list Z -> list Z -> Prop :=
  | h_nil rest : here [] [] rest
  | h_star c re w u rest : Forall (any c) w -> here re u rest -> here (c :: ch "*" :: re) (w ++ u) rest
  | h_end : here [ch "$"] [] []
  | h_char c re x u rest : hd 0 re <> ch "*" -> (c = ch "$" -> re <> []) -> any c x -> here re u rest ->
      here (c :: re) (x :: u) rest.

Definition matches (re text : list Z) : Prop :=
  match re with
  | c :: re1 =>
      if c =? ch "^" then exists w rest, text = w ++ rest /\ here re1 w rest
      else exists pre w rest, text = pre ++ w ++ rest /\ here re w rest
  | [] => True
  end.

Lemma matchstar_spec mh re c text :
  (forall t, mh t = true <-> exists w rest, t = w ++ rest /\ here re w rest) ->
  matchstar mh c text = true <-> exists v w rest, text = v ++ w ++ rest /\ Forall (any c) v /\ here re w rest.
Proof.
  intros Hmh. induction text as [|x text IH]; cbn [matchstar]; rewrite orb_true_iff, Hmh.
  - split.
    + intros [(w & rest & E & H)|]; [|done]. exists [], w, rest. auto.
    + intros (v & w & rest & E & _ & H). left. symmetry in E. apply app_eq_nil in E as [-> E]. by exists w, rest.
  - rewrite andb_true_iff, orb_true_iff, IH, !Z.eqb_eq. split.
    + intros [(w & rest & E & H)|[Hx (v & w & rest & -> & Hv & H)]]; [exists [], w, rest; auto|].
      exists (x :: v), w, rest. split; [done|]. split; [|done]. constructor; [|done]. unfold any. destruct Hx as [->|]; auto.
    + intros (v & w & rest & E & Hv & H). destruct v as [|y v]; [left; by exists w, rest|right]. cbn in E. simplify_eq.
      apply Forall_cons in Hv as [Hy Hv]. split; [destruct Hy; auto|]. by exists v, w, rest.
Qed.

Lemma matchhere_spec re text : matchhere re text = true <-> exists w rest, text = w ++ rest /\ here re w rest.
Proof.
  revert text. induction re as [re IH] using (induction_ltof1 _ (@length Z)). unfold ltof in IH. intros text.
  destruct re as [|c re1]; [split; [intros _; exists [], text; split; [done|constructor]|done]|]. cbn [matchhere].
  assert (hd 0 re1 <> ch "*" -> ((if (c =? ch "$") && (match re1 with [] => true | _ => false end) then
      match text with [] => true | _ => false end
      else match text with [] => false | x :: text => ((c =? ch ".") || (c =? x)) && matchhere re1 text end) = true <->
    exists w rest, text = w ++ rest /\ here (c :: re1) w rest)) as Hsingle.
  { intros Hns. destruct ((c =? ch "$") && _) eqn:Ed.
    - apply andb_true_iff in Ed as [Ec Er]. bool_to_prop. subst c. destruct re1; [|done]. split.
      + destruct text; [|done]. intros _. exists [], []. split; [done|constructor].
      + intros (w & rest & -> & H). inversion H; subst; [done|]. match goal with Hd : _ = _ -> _ <> _ |- _ => by destruct Hd end.
    - assert (c = ch "$" -> re1 <> []) as Hd by (intros -> ->; done).
      destruct text as [|x text].
      + split; [done|]. intros (w & rest & E & H). symmetry in E. apply app_eq_nil in E as [-> ->].
        inversion H; subst; [by destruct Hns|]. by destruct Hd.
      + rewrite andb_true_iff, orb_true_iff, !Z.eqb_eq, IH by (cbn; lia). split.
        * intros [Hx (w & rest & -> & H)]. exists (x :: w), rest. split; [done|]. by constructor.
        * intros (w & rest & E & H). inversion H; subst; cbn in E; simplify_eq.
          split; [done|]. by eexists _, _. }
  destruct re1 as [|d re2]; [by apply Hsingle|]. destruct (d =? ch "*") eqn:Es; bool_to_prop; [|by apply Hsingle]. subst d.
  rewrite (matchstar_spec _ re2) by (intros t; apply IH; cbn; lia). split.
  - intros (v & w & rest & -> & Hv & H). exists (v ++ w), rest. split; [by rewrite app_assoc|]. by constructor.
  - intros (w & rest & -> & H). inversion H; subst; [|done]. eexists _, _, rest. split; [by rewrite <- app_assoc|]. done.
Qed.

Lemma match_loop_spec re text : match_loop re text = true <-> exists pre w rest, text = pre ++ w ++ rest /\ here re w rest.
Proof.
  induction text as [|x text IH]; cbn [match_loop]; rewrite orb_true_iff, matchhere_spec.
  - split.
    + intros [(w & rest & E & H)|]; [|done]. exists [], w, rest. auto.
    + intros (v & w & rest & E & H). left. symmetry in E. apply app_eq_nil in E as [-> E]. by exists w, rest.
  - rewrite IH. split.
    + intros [(w & rest & E & H)|(v & w & rest & -> & H)]; [exists [], w, rest; auto|]. by exists (x :: v), w, rest.
    + intros (v & w & rest & E & H). destruct v as [|y v]; [left; by exists w, rest|right]. cbn in E. simplify_eq. by exists v, w, rest.
Qed.

(** C23: the matcher decides the meaning of patterns: [match] answers 1 exactly
    when some part of the text (the beginning of it after a [^]) is described by
    the pattern, where [.] stands for any character, [c*] for any number of
    [c]s and a final [$] for the end of the text. *)
Theorem match_correct re text : match_ re text = true <-> matches re text.
Proof.
  unfold match_, matches. destruct re as [|c re].
  - rewrite match_loop_spec. split; [done|]. intros _. exists [], [], text. split; [done|constructor].
  - destruct (c =? ch "^"); [apply matchhere_spec|apply match_loop_spec].
Qed.

(** ** Lines *)

(** The complete lines of the input, and what follows the last newline. *)
Fixpoint split_nl (s : list Z) : list (list Z) * list Z :=
  match s with
  | [] => ([], [])
  | c :: s =>
      let '(ls, last) := split_nl s in
      if c =? 10 then ([] :: ls, last)
      else match ls with [] => ([], c :: last) | l :: ls => ((c :: l) :: ls, last) end
  end.
Definition selected (pattern : list Z) (ls : list (list Z)) : list Z :=
  concat (map (fun l => if match_ pattern l then l ++ [10] else []) ls).

Lemma split_app a b : split_nl (a ++ b) =
  let '(la, ra) := split_nl a in let '(lb, rb) := split_nl (ra ++ b) in (la ++ lb, rb).
Proof.
  induction a as [|c a IH]; cbn [split_nl app]; [by destruct (split_nl b)|]. rewrite IH.
  destruct (split_nl a) as [la ra]. destruct (c =? 10) eqn:Ec.
  - by destruct (split_nl (ra ++ b)).
  - destruct la as [|l la]; cbn [app split_nl]; destruct (split_nl (ra ++ b)) as [lb rb] eqn:Eb; [|done].
    rewrite Ec. by destruct lb.
Qed.

Lemma split_last s : fst (split_nl (snd (split_nl s))) = [].
Proof.
  induction s as [|c s IH]; cbn [split_nl]; [done|]. destruct (split_nl s) as [ls last]. cbn in IH. destruct (c =? 10) eqn:Ec; [done|].
  destruct ls; [|done]. cbn [snd split_nl]. destruct (split_nl last) as [ls' last']. cbn in IH. subst. by rewrite Ec.
Qed.

Lemma split_forall (P : Z -> Prop) s : Forall P s -> Forall P (snd (split_nl s)).
Proof.
  induction 1 as [|c s Hc _ IH]; cbn [split_nl]; [done|]. destruct (split_nl s) as [ls last]. cbn in IH.
  destruct (c =? 10); [done|]. destruct ls; [by constructor|done].
Qed.
Lemma split_none s : fst (split_nl s) = [] -> snd (split_nl s) = s.
Proof.
  induction s as [|c s IH]; cbn [split_nl]; [done|]. destruct (split_nl s) as [ls last]. destruct (c =? 10); [done|].
  destruct ls; [|done]. cbn in IH |- *. intros _. by rewrite IH.
Qed.

Lemma cut_line_spec p : Forall (fun c => c <> 0) p ->
  match cut_line p with
  | None => fst (split_nl p) = []
  | Some (l, r) => split_nl p = (l :: fst (split_nl r), snd (split_nl r)) /\ p = l ++ 10 :: r
  end.
Proof.
  induction p as [|c p IH]; intros Hp; cbn [cut_line split_nl]; [done|]. apply Forall_cons in Hp as [Hc Hp]. specialize (IH Hp).
  rewrite (proj2 (Z.eqb_neq c 0)) by done. destruct (c =? 10) eqn:E; bool_to_prop; [subst; by destruct (split_nl p)|].
  destruct (cut_line p) as [[l r]|].
  - destruct IH as [-> ->]. done.
  - destruct (split_nl p) as [ls last]. cbn in IH. by subst.
Qed.

Lemma grep_lines_spec pattern p k : Forall (fun c => c <> 0) p -> (length p < k)%nat ->
  grep_lines pattern p k = (selected pattern (fst (split_nl p)), snd (split_nl p)).
Proof.
  revert p. induction k as [|k IH]; intros p Hp Hk; [lia|]. cbn [grep_lines]. pose proof (cut_line_spec p Hp) as H.
  destruct (cut_line p) as [[l r]|].
  - destruct H as [E ->]. apply Forall_app in Hp as [_ [_ Hr]%Forall_cons]. rewrite length_app in Hk. cbn in Hk.
    rewrite (IH r) by (done || lia). rewrite E. done.
  - rewrite H. by rewrite (split_none p H).
Qed.

(** Every line, also the last one, fits the buffer. *)
Definition fits (s : list Z) : Prop := Forall (fun l => Z.of_nat (length l) < BUFSZ - 1) (fst (split_nl s) ++ [snd (split_nl s)]).

(** The first line of the input. *)
Definition first (s : list Z) : list Z := hd [] (fst (split_nl s) ++ [snd (split_nl s)]).
Lemma first_app pend b : fst (split_nl pend) = [] -> first (pend ++ b) = pend ++ first b.
Proof.
  unfold first. induction pend as [|c pend IH]; cbn [app split_nl]; [done|]. destruct (split_nl pend) as [ls last].
  destruct (c =? 10); [done|]. destruct ls; [|done]. intros _. specialize (IH eq_refl).
  destruct (split_nl (pend ++ b)) as [[|l lb] rb]; cbn in *; by rewrite IH.
Qed.

Lemma fits_pend pend b : fst (split_nl pend) = [] -> fits (pend ++ b) -> Z.of_nat (length pend) < BUFSZ - 1.
Proof.
  intros Hp Hf. assert (first (pend ++ b) ∈ fst (split_nl (pend ++ b)) ++ [snd (split_nl (pend ++ b))]) as Hin.
  { unfold first. destruct (fst (split_nl (pend ++ b))); cbn; set_solver. }
  unfold fits in Hf. rewrite Forall_forall in Hf. specialize (Hf _ Hin). cbn in Hf. rewrite first_app, length_app in Hf by done. lia.
Qed.

Lemma fits_rest a b : fits (a ++ b) -> fits (snd (split_nl a) ++ b).
Proof.
  unfold fits. rewrite split_app. destruct (split_nl a) as [la ra]. cbn [snd]. destruct (split_nl (ra ++ b)) as [lb rb]. cbn.
  rewrite <- app_assoc, Forall_app. tauto.
Qed.

Lemma grep_loop_spec pattern pend inp fuel :
  Forall (fun c => c <> 0) (pend ++ concat inp) -> fst (split_nl pend) = [] -> fits (pend ++ concat inp) ->
  Forall (fun s => s <> []) inp -> (length (concat inp) < fuel)%nat ->
  grep_loop pattern pend inp fuel = Some (selected pattern (fst (split_nl (pend ++ concat inp)))).
Proof.
  revert pend inp. induction fuel as [|fuel IH]; intros pend inp Hnz Hp Hf Hne Hfu; [lia|]. cbn [grep_loop].
  pose proof (fits_pend _ _ Hp Hf) as Hroom. set (n := Z.to_nat (BUFSZ - Z.of_nat (length pend) - 1)).
  assert (0 < n)%nat as Hn by (unfold n; lia). destruct inp as [|s inp].
  { cbn [concat read_piece] in *. rewrite app_nil_r. by rewrite Hp. }
  apply Forall_cons in Hne as [Hs Hne].
  assert (exists d inp', read_piece n (s :: inp) = (d, inp') /\ d <> [] /\ d ++ concat inp' = concat (s :: inp) /\
    Forall (fun s => s <> []) inp') as (d & inp' & -> & Hd & Ecat & Hne').
  { eexists _, _. split; [done|]. split; [destruct s, n; try done; lia|]. cbn [concat]. rewrite <- (take_drop n s) at 3.
    destruct (drop n s) as [|x r] eqn:Er; [by rewrite app_nil_r|]. rewrite <- app_assoc. split; [done|]. by constructor. }
  destruct d as [|x d]; [done|]. set (d' := x :: d) in *. rewrite <- Ecat, app_assoc in Hnz, Hf |- *.
  assert (length (concat inp') < fuel)%nat as Hfu' by (rewrite <- Ecat, length_app in Hfu; unfold d' in Hfu; cbn in Hfu; lia).
  apply Forall_app in Hnz as [Hnz1 Hnz2]. rewrite grep_lines_spec by (done || lia).
  rewrite (IH (snd (split_nl (pend ++ d'))) inp'); [|..].
  - rewrite (split_app (pend ++ d')). destruct (split_nl (pend ++ d')) as [la ra]. cbn [fst snd].
    destruct (split_nl (ra ++ concat inp')) as [lb rb]. cbn [fst]. unfold selected. by rewrite map_app, concat_app.
  - apply Forall_app. split; [|done]. by apply split_forall.
  - apply split_last.
  - by apply fits_rest.
  - done.
  - done.
Qed.

(** C36: grep prints the matching lines.  However [read] cuts the input into
    pieces, if it has no NUL byte and every line is shorter than the buffer,
    grep writes exactly its complete lines that match the pattern, in order and
    unchanged, and reaches the end of the input. *)
Theorem grep_correct pattern inp :
  Forall (fun c => c <> 0) (concat inp) -> fits (concat inp) -> Forall (fun s => s <> []) inp ->
  grep pattern inp = Some (selected pattern (fst (split_nl (concat inp)))).
Proof. intros Hnz Hf Hne. unfold grep. apply (grep_loop_spec pattern []); try done. lia. Qed.

(** "ab\ncb\n" in two pieces, with the pattern "^.b$" *)
Lemma grep_correct_witness :
  grep [94; 46; 98; 36] [[97]; [98; 10; 99; 98; 10]] =
    Some (selected [94; 46; 98; 36] (fst (split_nl [97; 98; 10; 99; 98; 10]))) /\
  selected [94; 46; 98; 36] (fst (split_nl [97; 98; 10; 99; 98; 10])) = [97; 98; 10; 99; 98; 10].
Proof.
  split; [|reflexivity]. apply (grep_correct [94; 46; 98; 36] [[97]; [98; 10; 99; 98; 10]]).
  - by repeat constructor.
  - by repeat constructor.
  - by repeat constructor.
Defined.

(** ** [main] *)

Definition usage : list Z := bytes "usage: grep pattern [file ...]" ++ [10].
(** The files in turn: what goes to standard output, and the exit status. *)
Fixpoint grep_files (open : list Z -> option (list (list Z))) (pattern : list Z) (files : list (list Z)) : option (list Z * Z) :=
  match files with
  | [] => Some ([], 0)
  | f :: files =>
      match open f with
      | None => Some (bytes "grep: cannot open " ++ f ++ [10], 1)
      | Some inp =>
          o ← grep pattern inp;
          '(out, st) ← grep_files open pattern files;
          Some (o ++ out, st)
      end
  end.
(** Output on descriptors 1 and 2, and the status, for [argv[1..]]. *)
Definition grep_main (open : list Z -> option (list (list Z))) (stdin : list (list Z)) (args : list (list Z)) :
    option (list Z * list Z * Z) :=
  match args with
  | [] => Some ([], usage, 1)
  | [pattern] => o ← grep pattern stdin; Some (o, [], 0)
  | pattern :: files => '(out, st) ← grep_files open pattern files; Some (out, [], st)
  end.
