(* ===== verification/File.v ===== *)
(** * kernel/file.c, pipealloc of kernel/pipe.c and kernel/sysfile.c : open files

    The system-wide table of open files, the descriptors of the processes and
    the system calls on them, on top of the file system of [Fs] and the pipes of
    [Pipe].  A file, inode or pipe pointer is an index; descriptor [fd] of
    process [pid] is entry [(pid, fd)] of [y_ofile].  System-call arguments are
    given decoded: a string is [None] when [argstr] fails.  Transfers to and from
    user memory are arguments, as in [Fs].  A call that would sleep stops the
    sequential run. *)

From Stdlib Require Import Ascii.
From S2P Require Import Prelude Riscv Mem CString BufCache Log Fs Pipe Sh.

Definition NFILE : Z := 100.
Definition NOFILE : Z := 16.
Definition NDEV : Z := 10.
Definition MAXPATH : Z := 128.

Inductive ftype := FD_NONE | FD_PIPE | FD_INODE | FD_DEVICE.
#[export] Instance ftype_eq_dec : EqDecision ftype.
Proof. solve_decision. Defined.

Record file := File {
  f_type : ftype;
  f_ref : Z;
  f_readable : bool;
  f_writable : bool;
  f_pipe : Z;
  f_ip : Z;
  f_off : Z;
  f_major : Z
}.
Definition file0 : file := File FD_NONE 0 false false 0 0 0 0.

Definition with_fref (r : Z) (f : file) : file :=
  File (f_type f) r (f_readable f) (f_writable f) (f_pipe f) (f_ip f) (f_off f) (f_major f).
Definition with_ftype (t : ftype) (f : file) : file :=
  File t (f_ref f) (f_readable f) (f_writable f) (f_pipe f) (f_ip f) (f_off f) (f_major f).
Definition with_off (o : Z) (f : file) : file :=
  File (f_type f) (f_ref f) (f_readable f) (f_writable f) (f_pipe f) (f_ip f) o (f_major f).
Definition as_pipe (r w : bool) (p : Z) (f : file) : file :=
  File FD_PIPE (f_ref f) r w p (f_ip f) (f_off f) (f_major f).

(** The open files, the pipes and the next pipe page, the descriptors and the
    running process. *)
Record sysx := Sysx {
  y_fs : fsx;
  y_file : gmap Z file;
  y_pipe : gmap Z pipe;
  y_next : Z;
  y_ofile : gmap (Z * Z) Z;
  y_pid : Z
}.

Section Code.
Context {C : Type} `{!BufCache C}.
Abbreviation sys := (kst C sysx).
Implicit Types (f fd ip n : Z).

(** A file-system function inside a system call. *)
Definition fs {A} (m : M (kst C fsx) A) : M sys A := fun s =>
  let x := k_ext s in
  match m (Kst (k_bc s) (k_log s) (y_fs x)) with
  | Ok a s' => Ok a (Kst (k_bc s') (k_log s') (Sysx (k_ext s') (y_file x) (y_pipe x) (y_next x) (y_ofile x) (y_pid x)))
  | Panic msg => Panic msg
  | NoFuel => NoFuel
  end.

Definition fat (s : sys) f : file := default file0 (y_file (k_ext s) !! f).
Definition get_f f : M sys file := gets (fun s => fat s f).
Definition upd_x (g : sysx -> sysx) : M sys unit := modify (fun s => Kst (k_bc s) (k_log s) (g (k_ext s))).
Definition set_f f (v : file) : M sys unit :=
  upd_x (fun x => Sysx (y_fs x) (<[f := v]> (y_file x)) (y_pipe x) (y_next x) (y_ofile x) (y_pid x)).
Definition set_pipe (p : Z) (v : pipe) : M sys unit :=
  upd_x (fun x => Sysx (y_fs x) (y_file x) (<[p := v]> (y_pipe x)) (y_next x) (y_ofile x) (y_pid x)).
Definition set_fd fd (f : option Z) : M sys unit :=
  upd_x (fun x => Sysx (y_fs x) (y_file x) (y_pipe x) (y_next x)
    (match f with Some f => <[(y_pid x, fd) := f]> (y_ofile x) | None => delete (y_pid x, fd) (y_ofile x) end) (y_pid x)).
Definition get_fd fd : M sys (option Z) := gets (fun s => y_ofile (k_ext s) !! (y_pid (k_ext s), fd)).

(** ** file.c *)

(** [for(f = ftable.file; f < ftable.file + NFILE; f++) if(f->ref == 0)] *)
Fixpoint free_file (t : gmap Z file) f (k : nat) : option Z :=
  match k with
  | O => None
  | S k => if f_ref (default file0 (t !! f)) =? 0 then Some f else free_file t (f + 1) k
  end.
Definition filealloc : M sys (option Z) :=
  t ← gets (fun s => y_file (k_ext s));
  match free_file t 0 (Z.to_nat NFILE) with
  | Some f => v ← get_f f; set_f f (with_fref 1 v);; mret (Some f)
  | None => mret None
  end.

Definition filedup f : M sys Z :=
  v ← get_f f;
  if f_ref v <? 1 then panic "filedup" else set_f f (with_fref (f_ref v + 1) v);; mret f.

Definition pipe_at (s : sys) (p : Z) : pipe := default pipe_init (y_pipe (k_ext s) !! p).
Definition fileclose f : M sys unit :=
  v ← get_f f;
  if f_ref v <? 1 then panic "fileclose"
  else if f_ref v - 1 >? 0 then set_f f (with_fref (f_ref v - 1) v)
  else
    set_f f (with_ftype FD_NONE (with_fref 0 v));;
    match f_type v with
    | FD_PIPE =>
        pi ← gets (fun s => pipe_at s (f_pipe v));
        set_pipe (f_pipe v) (pipeclose pi (f_writable v)).1
    | FD_INODE | FD_DEVICE => begin_op;; fs (iput (f_ip v));; end_op
    | FD_NONE => mret tt
    end.

(** [ok]: does [copyout] of the structure succeed? *)
Definition filestat f (ok : bool) : M sys (Z * option stat) :=
  v ← get_f f;
  match f_type v with
  | FD_INODE | FD_DEVICE =>
      fs (ilock (f_ip v));;
      st ← fs (stati (f_ip v));
      fs (iunlock (f_ip v));;
      mret (if ok then (0, Some st) else (-1, None))
  | _ => mret (-1, None)
  end.

(** The device switch: what [devsw[major].read] or [.write] returns, [None] for
    a null pointer. *)
Definition devsw := Z -> option (Z -> Z).

(** The result, and the bytes that reach user memory. *)
Definition fileread (dev : devsw) (ok : Z -> bool) f n : M sys (Z * list Z) :=
  v ← get_f f;
  if negb (f_readable v) then mret (-1, [])
  else
    match f_type v with
    | FD_PIPE =>
        pi ← gets (fun s => pipe_at s (f_pipe v));
        let '(pi', b, _, out) := piperead_burst pi ok false n in
        set_pipe (f_pipe v) pi';;
        match b with Return r => mret (r, take (Z.to_nat r) out) | Sleep _ => panic "sleep" end
    | FD_DEVICE =>
        if (f_major v <? 0) || (f_major v >=? NDEV) then mret (-1, [])
        else match dev (f_major v) with None => mret (-1, []) | Some r => mret (r n, []) end
    | FD_INODE =>
        fs (ilock (f_ip v));;
        r ← fs (readi (f_ip v) ok (f_off v) (u32 n));
        (if r.1 >? 0 then v ← get_f f; set_f f (with_off (u32 (f_off v + r.1)) v) else mret tt);;
        fs (iunlock (f_ip v));;
        mret r
    | FD_NONE => panic "fileread"
    end.

(** [int max = ((MAXOPBLOCKS-1-1-2) / 2) * BSIZE] *)
Definition wmax : Z := ((MAXOPBLOCKS - 1 - 1 - 2) / 2) * BSIZE.
(** One round of the loop of [filewrite]; [src i] is user memory from [addr + i]. *)
Definition filewrite_step f (ip n : Z) (src : Z -> Z -> Z -> list Z * bool) (i : Z) : M sys (Z + Z) :=
  if i <? n then
    let n1 := if n - i >? wmax then wmax else n - i in
    begin_op;;
    fs (ilock ip);;
    v ← get_f f;
    r ← fs (writei ip (src i) (f_off v) n1);
    (if r >? 0 then v ← get_f f; set_f f (with_off (u32 (f_off v + r)) v) else mret tt);;
    fs (iunlock ip);;
    end_op;;
    if negb (r =? n1) then mret (inr i) else mret (inl (i + r))
  else mret (inr i).
Definition filewrite (dev : devsw) (psrc : Z -> option Z) (src : Z -> Z -> Z -> list Z * bool) f n : M sys Z :=
  v ← get_f f;
  if negb (f_writable v) then mret (-1)
  else
    match f_type v with
    | FD_PIPE =>
        pi ← gets (fun s => pipe_at s (f_pipe v));
        let '(pi', b, _, _) := pipewrite_burst pi psrc (fun _ => false) 0 (Z.to_nat n) in
        set_pipe (f_pipe v) pi';;
        match b with Return r => mret r | Sleep _ => panic "sleep" end
    | FD_DEVICE =>
        if (f_major v <? 0) || (f_major v >=? NDEV) then mret (-1)
        else match dev (f_major v) with None => mret (-1) | Some w => mret (w n) end
    | FD_INODE =>
        i ← loop (filewrite_step f (f_ip v) n src) (2 ^ 31) 0;
        mret (if i =? n then n else -1)
    | FD_NONE => panic "filewrite"
    end.

(** [pipealloc] of pipe.c; [page]: does [kalloc] succeed? *)
Definition pipealloc (page : bool) : M sys (option (Z * Z)) :=
  f0 ← filealloc;
  match f0 with
  | None => mret None
  | Some f0 =>
      f1 ← filealloc;
      match f1 with
      | None => fileclose f0;; mret None
      | Some f1 =>
          if (page : bool) then
            p ← gets (fun s => y_next (k_ext s));
            upd_x (fun x => Sysx (y_fs x) (y_file x) (<[p := pipe_init]> (y_pipe x)) (p + 1) (y_ofile x) (y_pid x));;
            v0 ← get_f f0; set_f f0 (as_pipe true false p v0);;
            v1 ← get_f f1; set_f f1 (as_pipe false true p v1);;
            mret (Some (f0, f1))
          else fileclose f0;; fileclose f1;; mret None
      end
  end.
End Code.
