(* ===== verification/Sysfile.v ===== *)
(** * kernel/sysfile.c : file-system system calls

    Each call with its early returns; also the parts of [fork] and [exit] of
    kernel/proc.c that copy and close the descriptors. *)

From Stdlib Require Import Ascii.
From S2P Require Import Prelude Riscv Mem CString BufCache Log Fs Pipe Sh File.

Section Code.
Context {C : Type} `{!BufCache C}.
Abbreviation sys := (kst C sysx).
Implicit Types (f fd ip n : Z).

(** The file of descriptor [fd]. *)
Definition argfd fd : M sys (option Z) :=
  if (fd <? 0) || (fd >=? NOFILE) then mret None else get_fd fd.

(** [for(fd = 0; fd < NOFILE; fd++) if(p->ofile[fd] == 0)] *)
Fixpoint free_fd (t : gmap (Z * Z) Z) (pid fd : Z) (k : nat) : option Z :=
  match k with
  | O => None
  | S k => match t !! (pid, fd) with None => Some fd | Some _ => free_fd t pid (fd + 1) k end
  end.
Definition fdalloc f : M sys Z :=
  x ← gets k_ext;
  match free_fd (y_ofile x) (y_pid x) 0 (Z.to_nat NOFILE) with
  | Some fd => set_fd fd (Some f);; mret fd
  | None => mret (-1)
  end.

Definition sys_dup fd : M sys Z :=
  f ← argfd fd;
  match f with
  | None => mret (-1)
  | Some f =>
      fd ← fdalloc f;
      if fd <? 0 then mret (-1) else filedup f;; mret fd
  end.

Definition sys_read (dev : devsw) (ok : Z -> bool) fd n : M sys (Z * list Z) :=
  f ← argfd fd;
  match f with None => mret (-1, []) | Some f => fileread dev ok f n end.

Definition sys_write (dev : devsw) (psrc : Z -> option Z) (src : Z -> Z -> Z -> list Z * bool) fd n : M sys Z :=
  f ← argfd fd;
  match f with None => mret (-1) | Some f => filewrite dev psrc src f n end.

Definition sys_close fd : M sys Z :=
  f ← argfd fd;
  match f with
  | None => mret (-1)
  | Some f => set_fd fd None;; fileclose f;; mret 0
  end.

Definition sys_fstat fd (ok : bool) : M sys (Z * option stat) :=
  f ← argfd fd;
  match f with None => mret (-1, None) | Some f => filestat f ok end.

Definition nlink_add (d : Z) (x : inode) : inode := with_nlink (i16 (i_nlink x + d)) x.

Definition sys_link (old new : option (list Z)) : M sys Z :=
  match old, new with
  | Some old, Some new =>
      begin_op;;
      r ← fs (namei old);
      match r with
      | None => end_op;; mret (-1)
      | Some ip =>
          fs (ilock ip);;
          x ← fs (get_i ip);
          if i_type x =? T_DIR then fs (iunlockput ip);; end_op;; mret (-1)
          else
            fs (upd_i ip (nlink_add 1));;
            fs (iupdate ip);;
            fs (iunlock ip);;
            let bad :=
              fs (ilock ip);;
              fs (upd_i ip (nlink_add (-1)));;
              fs (iupdate ip);;
              fs (iunlockput ip);;
              end_op;;
              mret (-1) in
            r ← fs (nameiparent new);
            match r with
            | None => bad
            | Some (dp, name) =>
                fs (ilock dp);;
                d ← fs (get_i dp);
                x ← fs (get_i ip);
                if negb (i_dev d =? i_dev x) then fs (iunlockput dp);; bad
                else
                  r ← fs (dirlink dp name (i_inum x));
                  if r <? 0 then fs (iunlockput dp);; bad
                  else
                    fs (iunlockput dp);;
                    fs (iput ip);;
                    end_op;;
                    mret 0
            end
      end
  | _, _ => mret (-1)
  end.

Definition isdirempty_step (dp off : Z) : M sys (Z + bool) :=
  d ← fs (get_i dp);
  if off <? i_size d then
    r ← fs (readi dp kdst off DIRENT);
    if negb (r.1 =? DIRENT) then panic "isdirempty: readi"
    else if negb (de_inum (dirent_of r.2) =? 0) then mret (inr false)
    else mret (inl (off + DIRENT))
  else mret (inr true).
Definition isdirempty (dp : Z) : M sys bool := loop (isdirempty_step dp) (2 ^ 29) (2 * DIRENT).

Definition sys_unlink (path : option (list Z)) : M sys Z :=
  match path with
  | None => mret (-1)
  | Some path =>
      begin_op;;
      r ← fs (nameiparent path);
      match r with
      | None => end_op;; mret (-1)
      | Some (dp, name) =>
          fs (ilock dp);;
          let bad := fs (iunlockput dp);; end_op;; mret (-1) in
          if (namecmp name (bytes ".") =? 0) || (namecmp name (bytes "..") =? 0) then bad
          else
            r ← fs (dirlookup dp name);
            match r with
            | None => bad
            | Some (ip, off) =>
                fs (ilock ip);;
                x ← fs (get_i ip);
                if i_nlink x <? 1 then panic "unlink: nlink < 1"
                else
                  full ← (if i_type x =? T_DIR then e ← isdirempty ip; mret (negb e) else mret false);
                  if (full : bool) then fs (iunlockput ip);; bad
                  else
                    r ← fs (writei dp (ksrc (repeat 0 (Z.to_nat DIRENT))) off DIRENT);
                    if negb (r =? DIRENT) then panic "unlink: writei"
                    else
                      (if i_type x =? T_DIR then fs (upd_i dp (nlink_add (-1)));; fs (iupdate dp) else mret tt);;
                      fs (iunlockput dp);;
                      fs (upd_i ip (nlink_add (-1)));;
                      fs (iupdate ip);;
                      fs (iunlockput ip);;
                      end_op;;
                      mret 0
            end
      end
  end.

Definition create (path : list Z) (type major minor : Z) : M sys (option Z) :=
  r ← fs (nameiparent path);
  match r with
  | None => mret None
  | Some (dp, name) =>
      fs (ilock dp);;
      r ← fs (dirlookup dp name);
      match r with
      | Some (ip, _) =>
          fs (iunlockput dp);;
          fs (ilock ip);;
          x ← fs (get_i ip);
          if (type =? T_FILE) && ((i_type x =? T_FILE) || (i_type x =? T_DEVICE)) then mret (Some ip)
          else fs (iunlockput ip);; mret None
      | None =>
          d ← fs (get_i dp);
          r ← fs (ialloc (i_dev d) type);
          match r with
          | None => fs (iunlockput dp);; mret None
          | Some ip =>
              fs (ilock ip);;
              fs (upd_i ip (fun x => with_nlink 1 (with_dev major minor x)));;
              fs (iupdate ip);;
              x ← fs (get_i ip);
              dots ← (if type =? T_DIR then
                        r ← fs (dirlink ip (bytes ".") (i_inum x));
                        if r <? 0 then mret false
                        else r ← fs (dirlink ip (bytes "..") (i_inum d)); mret (negb (r <? 0))
                      else mret true);
              linked ← (if (dots : bool) then r ← fs (dirlink dp name (i_inum x)); mret (negb (r <? 0)) else mret false);
              if (linked : bool) then
                (if type =? T_DIR then fs (upd_i dp (nlink_add 1));; fs (iupdate dp) else mret tt);;
                fs (iunlockput dp);;
                mret (Some ip)
              else
                fs (upd_i ip (with_nlink 0));;
                fs (iupdate ip);;
                fs (iunlockput ip);;
                fs (iunlockput dp);;
                mret None
          end
      end
  end.

(** The inode to open, locked; [None] when the call fails. *)
Definition open_inode (path : list Z) (omode : Z) : M sys (option Z) :=
  if negb (Z.land omode O_CREATE =? 0) then create path T_FILE 0 0
  else
    r ← fs (namei path);
    match r with
    | None => mret None
    | Some ip =>
        fs (ilock ip);;
        x ← fs (get_i ip);
        if (i_type x =? T_DIR) && negb (omode =? O_RDONLY) then fs (iunlockput ip);; mret None
        else mret (Some ip)
    end.

Definition sys_open (path : option (list Z)) (omode : Z) : M sys Z :=
  match path with
  | None => mret (-1)
  | Some path =>
      begin_op;;
      r ← open_inode path omode;
      match r with
      | None => end_op;; mret (-1)
      | Some ip =>
          x ← fs (get_i ip);
          if (i_type x =? T_DEVICE) && ((i_major x <? 0) || (i_major x >=? NDEV)) then
            fs (iunlockput ip);; end_op;; mret (-1)
          else
            r ← filealloc;
            match r with
            | None => fs (iunlockput ip);; end_op;; mret (-1)
            | Some f =>
                fd ← fdalloc f;
                if fd <? 0 then fileclose f;; fs (iunlockput ip);; end_op;; mret (-1)
                else
                  v ← get_f f;
                  set_f f (File (if i_type x =? T_DEVICE then FD_DEVICE else FD_INODE) (f_ref v)
                    (Z.land omode O_WRONLY =? 0)
                    (negb (Z.land omode O_WRONLY =? 0) || negb (Z.land omode O_RDWR =? 0))
                    (f_pipe v) ip (if i_type x =? T_DEVICE then f_off v else 0)
                    (if i_type x =? T_DEVICE then i_major x else f_major v));;
                  (if negb (Z.land omode O_TRUNC =? 0) && (i_type x =? T_FILE) then fs (itrunc ip) else mret tt);;
                  fs (iunlock ip);;
                  end_op;;
                  mret fd
            end
      end
  end.

(** [sys_mkdir] and [sys_mknod] after their arguments. *)
Definition mk (path : option (list Z)) (type major minor : Z) : M sys Z :=
  begin_op;;
  r ← (match path with Some path => create path type major minor | None => mret None end);
  match r with
  | None => end_op;; mret (-1)
  | Some ip => fs (iunlockput ip);; end_op;; mret 0
  end.
Definition sys_mkdir (path : option (list Z)) : M sys Z := mk path T_DIR 0 0.
Definition sys_mknod (path : option (list Z)) (major minor : Z) : M sys Z := mk path T_DEVICE (i16 major) (i16 minor).

Definition set_cwd (ip : Z) : M sys unit :=
  upd_x (fun x => Sysx (Fsx (f_sb (y_fs x)) (f_itable (y_fs x)) ip) (y_file x) (y_pipe x) (y_next x) (y_ofile x) (y_pid x)).
Definition sys_chdir (path : option (list Z)) : M sys Z :=
  begin_op;;
  r ← (match path with Some path => fs (namei path) | None => mret None end);
  match r with
  | None => end_op;; mret (-1)
  | Some ip =>
      fs (ilock ip);;
      x ← fs (get_i ip);
      if negb (i_type x =? T_DIR) then fs (iunlockput ip);; end_op;; mret (-1)
      else
        fs (iunlock ip);;
        cwd ← gets (fun s => f_cwd (y_fs (k_ext s)));
        fs (iput cwd);;
        end_op;;
        set_cwd ip;;
        mret 0
  end.

(** [page]: the page for the pipe; [ok0], [ok1]: the copies of the descriptors. *)
Definition sys_pipe (page ok0 ok1 : bool) : M sys (Z * option (Z * Z)) :=
  r ← pipealloc page;
  match r with
  | None => mret (-1, None)
  | Some (rf, wf) =>
      fd0 ← fdalloc rf;
      if fd0 <? 0 then fileclose rf;; fileclose wf;; mret (-1, None)
      else
        fd1 ← fdalloc wf;
        if fd1 <? 0 then
          set_fd fd0 None;; fileclose rf;; fileclose wf;; mret (-1, None)
        else if negb (ok0 && ok1) then
          set_fd fd0 None;; set_fd fd1 None;; fileclose rf;; fileclose wf;; mret (-1, None)
        else mret (0, Some (fd0, fd1))
  end.

(** ** proc.c: descriptors across fork and exit *)

(** [for(i = 0; i < NOFILE; i++) if(p->ofile[i]) np->ofile[i] = filedup(p->ofile[i])]
    where the new process [np] has no descriptors yet. *)
Fixpoint fork_files (np i : Z) (k : nat) : M sys unit :=
  match k with
  | O => mret tt
  | S k =>
      f ← get_fd i;
      match f with
      | Some f =>
          f ← filedup f;
          upd_x (fun x => Sysx (y_fs x) (y_file x) (y_pipe x) (y_next x) (<[(np, i) := f]> (y_ofile x)) (y_pid x))
      | None => mret tt
      end;;
      fork_files np (i + 1) k
  end.

(** [for(int fd = 0; fd < NOFILE; fd++) if(p->ofile[fd]){ fileclose(f); p->ofile[fd] = 0; }] *)
Fixpoint exit_files (fd : Z) (k : nat) : M sys unit :=
  match k with
  | O => mret tt
  | S k =>
      f ← get_fd fd;
      match f with
      | Some f => fileclose f;; set_fd fd None
      | None => mret tt
      end;;
      exit_files (fd + 1) k
  end.
End Code.
