(* ===== verification/FileRefs.v ===== *)
(** * Reference counts of open files

    For every sequence of system calls of any number of processes, including
    fork, exit and all error paths: the reference count of an open file is the
    number of descriptors that refer to it.  So [filedup] and [fileclose] never
    panic on a descriptor, and a file is closed exactly when its last descriptor
    goes. *)

From Stdlib Require Import Ascii.
From S2P Require Import Prelude Riscv Mem CString BufCache Log Fs Pipe Sh File Sysfile.

(** If the computation returns, [Q] holds. *)
Definition pp {S A} (c : M S A) (s : S) (Q : A -> S -> Prop) : Prop :=
  match c s with Ok a s' => Q a s' | _ => True end.

Section Rules.
Context {S A B : Type}.
Implicit Types (s : S).
Lemma pp_ret (a : A) s (Q : A -> S -> Prop) : Q a s -> pp (mret a) s Q.
Proof. done. Qed.
Lemma pp_bind (c : M S A) (f : A -> M S B) s Q : pp c s (fun a s' => pp (f a) s' Q) -> pp (c ≫= f) s Q.
Proof. unfold pp, mbind, M_bind. by destruct (c s). Qed.
Lemma pp_gets (f : S -> A) s (Q : A -> S -> Prop) : Q (f s) s -> pp (gets f) s Q.
Proof. done. Qed.
Lemma pp_modify f s (Q : unit -> S -> Prop) : Q tt (f s) -> pp (modify f) s Q.
Proof. done. Qed.
Lemma pp_panic msg s (Q : A -> S -> Prop) : pp (panic msg) s Q.
Proof. done. Qed.
Lemma pp_mono (c : M S A) s (Q Q' : A -> S -> Prop) : pp c s Q -> (forall a s', Q a s' -> Q' a s') -> pp c s Q'.
Proof. unfold pp. destruct (c s); auto. Qed.
Lemma pp_assoc {D} (c : M S A) (f : A -> M S B) (g : B -> M S D) s Q :
  pp ((c ≫= f) ≫= g) s Q -> pp (c ≫= fun a => f a ≫= g) s Q.
Proof. unfold pp, mbind, M_bind. by destruct (c s). Qed.
Lemma pp_intro (c : M S A) s (Q : A -> S -> Prop) : (forall a s', c s = Ok a s' -> Q a s') -> pp c s Q.
Proof. unfold pp. destruct (c s); auto. Qed.
Lemma pp_elim (c : M S A) s a s' (Q : A -> S -> Prop) : pp c s Q -> c s = Ok a s' -> Q a s'.
Proof. unfold pp. by intros H E; rewrite E in H. Qed.
End Rules.

Lemma pp_iter {S A B} (step : A -> M S (A + B)) (I : A -> S -> Prop) (Q : B -> S -> Prop) p a s :
  (forall a s, I a s -> pp (step a) s (fun r s' => match r with inl a' => I a' s' | inr b => Q b s' end)) ->
  I a s -> pp (loop step p a) s Q.
Proof.
  intros Hs Hi. unfold loop. apply pp_bind.
  assert (forall n a s, I a s -> pp (iter_nat step n a) s (fun r s' => match r with inl a' => I a' s' | inr b => Q b s' end)) as Hn.
  { induction n as [|n IH]; intros a0 s0 H0; cbn [iter_nat]; [done|]. apply pp_bind. eapply pp_mono; [by apply Hs|].
    intros [a1|b] s1 H1; [by apply IH|done]. }
  unfold pp. rewrite iter_pos_nat. specialize (Hn (Pos.to_nat p) a s Hi). unfold pp in Hn.
  destruct (iter_nat step (Pos.to_nat p) a s) as [[a1|b] s1| |]; try done.
Qed.

Ltac pp_step :=
  cbn beta iota;
  lazymatch goal with
  | |- pp (mbind _ _) _ _ => apply pp_bind
  | |- pp (mret _) _ _ => apply pp_ret
  | |- pp (gets _) _ _ => apply pp_gets
  | |- pp (modify _) _ _ => apply pp_modify
  | |- pp (panic _) _ _ => apply pp_panic
  end.

(** ** What leaves the rest of the state alone *)

Section Ext.
Context {C : Type} `{!BufCache C} {X : Type}.
Definition stays {A} (m : M (kst C X) A) : Prop := forall s, pp m s (fun _ s' => k_ext s' = k_ext s).

Lemma stays_ret {A} (a : A) : stays (mret a).
Proof. done. Qed.
Lemma stays_bind {A B} (m : M (kst C X) A) (f : A -> M (kst C X) B) : stays m -> (forall a, stays (f a)) -> stays (m ≫= f).
Proof. intros Hm Hf s. apply pp_bind. eapply pp_mono; [apply Hm|]. intros a s1 E. eapply pp_mono; [apply Hf|]. cbn. congruence. Qed.
Lemma stays_gets {A} (f : kst C X -> A) : stays (gets f).
Proof. done. Qed.
Lemma stays_log f : stays (set_log f).
Proof. done. Qed.
Lemma stays_lift {A} (m : M C A) : stays (lift m).
Proof. intros s. unfold pp, lift. by destruct (m (k_bc s)). Qed.
Lemma stays_panic {A} msg : stays (panic msg : M (kst C X) A).
Proof. done. Qed.
End Ext.

Ltac stays :=
  repeat first [apply stays_panic | apply stays_ret | apply stays_gets | apply stays_log | apply stays_lift
    | apply stays_bind; [|intros ?] | match goal with |- context [if ?b then _ else _] => destruct b end].

Section ExtLog.
Context {C : Type} `{!BufCache C} {X : Type}.
Lemma stays_begin : stays (begin_op : M (kst C X) unit).
Proof. unfold begin_op, begin_op_try. stays. Qed.
Lemma stays_write_from h i k : stays (write_from h i k : M (kst C X) block).
Proof. revert h i. induction k as [|k IH]; intros h i; cbn [write_from]; [stays|]. unfold get_block. stays; try apply IH. Qed.
Lemma stays_write_log i k : stays (write_log_from i k : M (kst C X) unit).
Proof. revert i. induction k as [|k IH]; intros i; cbn [write_log_from]; [stays|]. unfold write_log_one, get_block. stays; try apply IH. Qed.
Lemma stays_install r i k : stays (install_from r i k : M (kst C X) unit).
Proof. revert i. induction k as [|k IH]; intros i; cbn [install_from]; [stays|]. unfold install_one, get_block. stays; try apply IH. Qed.
Lemma stays_end : stays (end_op : M (kst C X) unit).
Proof.
  unfold end_op, end_op_dec, end_op_done, commit, write_log, write_head, install_trans. stays.
  all: try apply stays_write_log; try apply stays_write_from; try apply stays_install.
Qed.
End ExtLog.

(** ** Counting *)

Section Refs.
Context {C : Type} `{!BufCache C}.
Abbreviation sys := (kst C sysx).
Implicit Types (s : sys) (f g fd : Z) (e : Z -> Z).

(** The descriptors that refer to file [f]. *)
Definition refs (t : gmap (Z * Z) Z) f : Z := cnt (fun kv => kv.2 = f) t.

Definition one f : Z -> Z := fun g => if decide (g = f) then 1 else 0.

(** Each count is the number of descriptors, plus [e] references that are held
    by the code that is running. *)
Record counted (x : sysx) e : Prop := {
  c_ref f : f_ref (default file0 (y_file x !! f)) = refs (y_ofile x) f + e f;
  c_none f : f_ref (default file0 (y_file x !! f)) = 0 -> f_type (default file0 (y_file x !! f)) = FD_NONE;
  c_range k f : y_ofile x !! k = Some f -> 0 <= f < NFILE
}.

Lemma counted_ext x e e' : counted x e -> (forall f, e f = e' f) -> counted x e'.
Proof. intros [] He. split; try done. intros f. by rewrite <- He. Qed.

(** Only the open files and descriptors matter. *)
Lemma counted_eq x x' e : counted x e -> y_file x' = y_file x -> y_ofile x' = y_ofile x -> counted x' e.
Proof. intros [] E1 E2. by split; rewrite ?E1, ?E2. Qed.

Lemma fs_pp {A} (m : M (kst C fsx) A) s (Q : A -> sys -> Prop) :
  (forall a s', y_file (k_ext s') = y_file (k_ext s) -> y_pipe (k_ext s') = y_pipe (k_ext s) ->
     y_ofile (k_ext s') = y_ofile (k_ext s) -> y_pid (k_ext s') = y_pid (k_ext s) -> Q a s') -> pp (fs m) s Q.
Proof. intros HQ. unfold pp, fs. destruct (m _); [|done..]. by apply HQ. Qed.

Definition same_files s s' : Prop :=
  y_file (k_ext s') = y_file (k_ext s) /\ y_ofile (k_ext s') = y_ofile (k_ext s) /\ y_pid (k_ext s') = y_pid (k_ext s).
(** A computation that leaves files and descriptors alone. *)
Definition quiet_pp {A} (m : M sys A) : Prop := forall s, pp m s (fun _ s' => same_files s s').

Lemma quiet_fs {A} (m : M (kst C fsx) A) : quiet_pp (fs m).
Proof. intros s. apply fs_pp. by intros. Qed.
Lemma quiet_keeps {A} (m : M sys A) : stays m -> quiet_pp m.
Proof. intros H s. eapply pp_mono; [apply H|]. intros a s' E. unfold same_files. by rewrite E. Qed.
Lemma quiet_ret {A} (a : A) : quiet_pp (mret a).
Proof. done. Qed.
Lemma quiet_gets {A} (g : sys -> A) : quiet_pp (gets g).
Proof. done. Qed.
Lemma quiet_panic {A} msg : quiet_pp (panic msg : M sys A).
Proof. done. Qed.
Lemma quiet_bind {A B} (m : M sys A) (k : A -> M sys B) : quiet_pp m -> (forall a, quiet_pp (k a)) -> quiet_pp (m ≫= k).
Proof.
  intros Hm Hk s. apply pp_bind. eapply pp_mono; [apply Hm|]. intros a s1 (E1 & E2 & E3). eapply pp_mono; [apply Hk|].
  intros b s2 (E1' & E2' & E3'). unfold same_files. split; [congruence|]. split; congruence.
Qed.
Lemma quiet_pipe p v : quiet_pp (set_pipe p v).
Proof. done. Qed.
Lemma quiet_loop {A B} (step : A -> M sys (A + B)) p a : (forall a, quiet_pp (step a)) -> quiet_pp (loop step p a).
Proof.
  intros Hs s. apply (pp_iter step (fun _ s' => same_files s s')); [|done]. intros a1 s1 (E1 & E2 & E3).
  eapply pp_mono; [apply Hs|]. intros r s2 (E1' & E2' & E3').
  assert (same_files s s2) by (split; [congruence|]; split; congruence). by destruct r.
Qed.

Lemma quiet_counted {A} (m : M sys A) s e (Q : A -> sys -> Prop) :
  quiet_pp m -> counted (k_ext s) e ->
  (forall a s', same_files s s' -> counted (k_ext s') e -> Q a s') -> pp m s Q.
Proof.
  intros Hm Hc HQ. eapply pp_mono; [apply Hm|]. intros a s' Hs. apply HQ; [done|]. by eapply counted_eq; [exact Hc|apply Hs..].
Qed.

(** ** The operations on the table *)

Lemma set_f_counted s f v e (Q : unit -> sys -> Prop) :
  counted (k_ext s) e -> (f_ref v = 0 -> f_type v = FD_NONE) ->
  (forall s', y_ofile (k_ext s') = y_ofile (k_ext s) -> y_pid (k_ext s') = y_pid (k_ext s) -> fat s' f = v ->
     counted (k_ext s') (fun g => e g + (if decide (g = f) then f_ref v - f_ref (fat s f) else 0)) -> Q tt s') ->
  pp (set_f f v) s Q.
Proof.
  intros [Hr Hn Hg] Hv HQ. unfold set_f, upd_x. pp_step. apply HQ; [done|done|unfold fat; cbn; by rewrite lookup_insert_eq|]. cbn. split; cbn.
  - intros g. rewrite lookup_insert. case_decide as E; case_decide; subst; try done.
    + cbn. unfold fat. pose proof (Hr g). lia.
    + rewrite Hr. lia.
  - intros g. rewrite lookup_insert. case_decide; [done|apply Hn].
  - done.
Qed.

Lemma set_fd_none s fd f e (Q : unit -> sys -> Prop) :
  counted (k_ext s) e -> y_ofile (k_ext s) !! (y_pid (k_ext s), fd) = Some f ->
  (forall s', y_file (k_ext s') = y_file (k_ext s) -> y_pid (k_ext s') = y_pid (k_ext s) ->
     y_ofile (k_ext s') = delete (y_pid (k_ext s), fd) (y_ofile (k_ext s)) ->
     counted (k_ext s') (fun g => e g + one f g) -> Q tt s') ->
  pp (set_fd fd None) s Q.
Proof.
  intros [Hr Hn Hg] Hf HQ. unfold set_fd, upd_x. pp_step. apply HQ; [done|done|done|]. cbn. split; cbn.
  - intros g. rewrite Hr. unfold refs. rewrite (cnt_delete _ _ _ f) by done. cbn. unfold one. repeat case_decide; subst; try done; lia.
  - done.
  - intros k g Hk. apply lookup_delete_Some in Hk as [_ Hk]. by apply Hg in Hk.
Qed.

Lemma set_fd_some s fd f e (Q : unit -> sys -> Prop) :
  counted (k_ext s) e -> y_ofile (k_ext s) !! (y_pid (k_ext s), fd) = None -> 0 <= f < NFILE ->
  (forall s', y_file (k_ext s') = y_file (k_ext s) -> y_pid (k_ext s') = y_pid (k_ext s) ->
     y_ofile (k_ext s') = <[(y_pid (k_ext s), fd) := f]> (y_ofile (k_ext s)) ->
     counted (k_ext s') (fun g => e g - one f g) -> Q tt s') ->
  pp (set_fd fd (Some f)) s Q.
Proof.
  intros [Hr Hn Hg] Hf Hrg HQ. unfold set_fd, upd_x. pp_step. apply HQ; [done|done|done|]. cbn. split; cbn.
  - intros g. rewrite Hr. unfold refs. rewrite (cnt_insert_new _ _ _ f) by done. cbn. unfold one. repeat case_decide; subst; try done; lia.
  - done.
  - intros k g Hk. apply lookup_insert_Some in Hk as [[_ <-]|[_ Hk]]; [done|]. by apply Hg in Hk.
Qed.

Lemma free_file_spec t f k r : free_file t f k = Some r -> f <= r < f + Z.of_nat k /\ f_ref (default file0 (t !! r)) = 0.
Proof.
  revert f. induction k as [|k IH]; intros f; cbn [free_file]; [done|]. destruct (_ =? 0) eqn:E; bool_to_prop.
  - intros [= <-]. split; [lia|done].
  - intros H. apply IH in H as [? ?]. split; [lia|done].
Qed.
Lemma free_fd_spec t pid fd k r : free_fd t pid fd k = Some r -> fd <= r < fd + Z.of_nat k /\ t !! (pid, r) = None.
Proof.
  revert fd. induction k as [|k IH]; intros fd; cbn [free_fd]; [done|]. destruct (t !! (pid, fd)) eqn:E.
  - intros H. apply IH in H as [? ?]. split; [lia|done].
  - intros [= <-]. split; [lia|done].
Qed.

Lemma filealloc_pp s e (Q : option Z -> sys -> Prop) :
  counted (k_ext s) e -> Q None s ->
  (forall f s', y_ofile (k_ext s') = y_ofile (k_ext s) -> y_pid (k_ext s') = y_pid (k_ext s) -> 0 <= f < NFILE ->
     counted (k_ext s') (fun g => e g + one f g) -> Q (Some f) s') -> pp filealloc s Q.
Proof.
  intros Hc HN HS. unfold filealloc. pp_step. pp_step. destruct (free_file _ 0 _) as [f|] eqn:E; [|by pp_step].
  apply free_file_spec in E as [Hf H0]. rewrite Z2Nat.id in Hf by done. unfold get_f. pp_step. pp_step. pp_step.
  apply (set_f_counted s f _ e); [done|done|]. intros s' E1 E2 E3 Hc'. pp_step. apply HS; [done|done|lia|].
  eapply counted_ext; [exact Hc'|]. intros g. unfold one, fat. cbn. rewrite H0. by case_decide.
Qed.

Lemma filedup_pp s f e (Q : Z -> sys -> Prop) :
  counted (k_ext s) e ->
  (forall s', y_ofile (k_ext s') = y_ofile (k_ext s) -> y_pid (k_ext s') = y_pid (k_ext s) ->
     counted (k_ext s') (fun g => e g + one f g) -> Q f s') -> pp (filedup f) s Q.
Proof.
  intros Hc HQ. unfold filedup, get_f. pp_step. pp_step. destruct (_ <? 1) eqn:E; [pp_step|]. bool_to_prop. pp_step.
  apply (set_f_counted s f _ e); [done|cbn; lia|]. intros s' E1 E2 E3 Hc'. pp_step. apply HQ; [done|done|].
  eapply counted_ext; [exact Hc'|]. intros g. unfold one. cbn. case_decide; lia.
Qed.

Lemma fileclose_pp s f e (Q : unit -> sys -> Prop) :
  counted (k_ext s) e ->
  (forall s', y_ofile (k_ext s') = y_ofile (k_ext s) -> y_pid (k_ext s') = y_pid (k_ext s) ->
     counted (k_ext s') (fun g => e g - one f g) -> Q tt s') -> pp (fileclose f) s Q.
Proof.
  intros Hc HQ. unfold fileclose, get_f. pp_step. pp_step. destruct (_ <? 1) eqn:E; [pp_step|]. bool_to_prop.
  destruct (_ >? 0) eqn:E1; bool_to_prop.
  - apply (set_f_counted s f _ e); [done|cbn; lia|]. intros s' Eo Ep _ Hc'. apply HQ; [done|done|].
    eapply counted_ext; [exact Hc'|]. intros g. unfold one. cbn. case_decide; lia.
  - pp_step. apply (set_f_counted s f _ e); [done|done|]. intros s' Eo Ep _ Hc'.
    apply (quiet_counted _ s' (fun g => e g - one f g)).
    + destruct (f_type (fat s f)); [apply quiet_ret| | |].
      * apply quiet_bind; [apply quiet_gets|intros; apply quiet_pipe].
      * apply quiet_bind; [apply quiet_keeps, stays_begin|intros]. apply quiet_bind; [apply quiet_fs|intros; apply quiet_keeps, stays_end].
      * apply quiet_bind; [apply quiet_keeps, stays_begin|intros]. apply quiet_bind; [apply quiet_fs|intros; apply quiet_keeps, stays_end].
    + eapply counted_ext; [exact Hc'|]. intros g. unfold one. cbn. case_decide; lia.
    + intros [] s2 (Ef2 & Eo2 & Ep2) Hc2. apply HQ; [congruence|congruence|done].
Qed.

Lemma fdalloc_pp s f e (Q : Z -> sys -> Prop) :
  counted (k_ext s) e -> 0 <= f < NFILE -> Q (-1) s ->
  (forall fd s', 0 <= fd -> y_file (k_ext s') = y_file (k_ext s) -> y_pid (k_ext s') = y_pid (k_ext s) ->
     y_ofile (k_ext s) !! (y_pid (k_ext s), fd) = None ->
     y_ofile (k_ext s') = <[(y_pid (k_ext s), fd) := f]> (y_ofile (k_ext s)) ->
     counted (k_ext s') (fun g => e g - one f g) -> Q fd s') -> pp (fdalloc f) s Q.
Proof.
  intros Hc Hf Hn HQ. unfold fdalloc. pp_step. pp_step. destruct (free_fd _ _ 0 _) as [fd|] eqn:E; [|by pp_step].
  apply free_fd_spec in E as [Hr E]. pp_step. apply (set_fd_some s fd f e); [done|done|done|]. intros s' E1 E2 E3 Hc'. pp_step.
  apply HQ; try done. lia.
Qed.

Lemma argfd_pp s fd (Q : option Z -> sys -> Prop) :
  Q None s -> (forall f, y_ofile (k_ext s) !! (y_pid (k_ext s), fd) = Some f -> Q (Some f) s) -> pp (argfd fd) s Q.
Proof.
  intros HN HS. unfold argfd. destruct (_ || _); [by pp_step|]. unfold get_fd. pp_step.
  destruct (y_ofile (k_ext s) !! _) eqn:E; [by apply HS|done].
Qed.

(** ** The system calls *)

Definition calm {A} (m : M sys A) : Prop := forall s e, (forall g, 0 <= e g) -> counted (k_ext s) e ->
  pp m s (fun _ s' => counted (k_ext s') e).

Lemma quiet_calm {A} (m : M sys A) : quiet_pp m -> calm m.
Proof. intros H s e He Hc. by apply (quiet_counted _ s e). Qed.
Lemma calm_bind {A B} (m : M sys A) (k : A -> M sys B) : calm m -> (forall a, calm (k a)) -> calm (m ≫= k).
Proof. intros Hm Hk s e He Hc. apply pp_bind. eapply pp_mono; [by apply Hm|]. intros a s1 H1. by apply Hk. Qed.
Lemma calm_loop {A B} (step : A -> M sys (A + B)) p a : (forall a, calm (step a)) -> calm (loop step p a).
Proof.
  intros Hs s e He Hc. apply (pp_iter step (fun _ s' => counted (k_ext s') e)); [|done]. intros a1 s1 H1.
  eapply pp_mono; [by apply Hs|]. by intros [].
Qed.

Ltac quiet :=
  repeat lazymatch goal with
  | |- quiet_pp (mbind _ _) => apply quiet_bind; [|intros ?]
  | |- quiet_pp (fs _) => apply quiet_fs
  | |- quiet_pp (mret _) => apply quiet_ret
  | |- quiet_pp (gets _) => apply quiet_gets
  | |- quiet_pp (panic _) => apply quiet_panic
  | |- quiet_pp (set_pipe _ _) => apply quiet_pipe
  | |- quiet_pp begin_op => apply quiet_keeps, stays_begin
  | |- quiet_pp end_op => apply quiet_keeps, stays_end
  | |- quiet_pp (let _ := _ in _) => cbv zeta
  | |- quiet_pp (if ?b then _ else _) => destruct b
  | |- quiet_pp (match ?b with _ => _ end) => destruct b
  end.

Lemma set_off_calm f o : calm (v ← get_f f; set_f f (with_off (o v) v)).
Proof.
  intros s e He Hc. unfold get_f. pp_step. pp_step. apply (set_f_counted s f _ e); [done|apply Hc|].
  intros s' _ _ _ Hc'. eapply counted_ext; [exact Hc'|]. intros g. cbn. case_decide; lia.
Qed.

Lemma fileread_calm dev ok f n : calm (fileread dev ok f n).
Proof.
  apply calm_bind; [apply quiet_calm; unfold get_f; quiet|intros v]. destruct (negb _); [apply quiet_calm; quiet|].
  destruct (f_type v).
  - apply quiet_calm. quiet.
  - apply quiet_calm. quiet.
  - apply calm_bind; [apply quiet_calm; quiet|intros _]. apply calm_bind; [apply quiet_calm; quiet|intros r].
    apply calm_bind; [destruct (_ >? 0); [apply (set_off_calm f (fun v => u32 (f_off v + r.1)))|apply quiet_calm; quiet]|intros _].
    apply quiet_calm. quiet.
  - apply quiet_calm. quiet.
Qed.

Lemma filewrite_calm dev psrc src f n : calm (filewrite dev psrc src f n).
Proof.
  apply calm_bind; [apply quiet_calm; unfold get_f; quiet|intros v]. destruct (negb _); [apply quiet_calm; quiet|].
  destruct (f_type v); try (apply quiet_calm; quiet; fail).
  apply calm_bind; [|intros; apply quiet_calm; quiet]. apply calm_loop. intros i. unfold filewrite_step.
  destruct (i <? n); [|apply quiet_calm; quiet]. cbv zeta.
  apply calm_bind; [apply quiet_calm; quiet|intros _]. apply calm_bind; [apply quiet_calm; quiet|intros _].
  apply calm_bind; [apply quiet_calm; unfold get_f; quiet|intros v']. apply calm_bind; [apply quiet_calm; quiet|intros r].
  apply calm_bind; [destruct (r >? 0); [apply (set_off_calm f (fun v => u32 (f_off v + r)))|apply quiet_calm; quiet]|intros _].
  apply quiet_calm. quiet.
Qed.

Lemma argfd_calm {A} fd (k : option Z -> M sys A) : (forall o, calm (k o)) -> calm (o ← argfd fd; k o).
Proof. intros Hk. apply calm_bind; [apply quiet_calm; unfold argfd, get_fd; quiet|done]. Qed.
Lemma sys_read_calm dev ok fd n : calm (sys_read dev ok fd n).
Proof. apply argfd_calm. intros [f|]; [apply fileread_calm|apply quiet_calm; quiet]. Qed.
Lemma sys_write_calm dev psrc src fd n : calm (sys_write dev psrc src fd n).
Proof. apply argfd_calm. intros [f|]; [apply filewrite_calm|apply quiet_calm; quiet]. Qed.
Lemma sys_fstat_calm fd ok : calm (sys_fstat fd ok).
Proof. apply argfd_calm. intros [f|]; apply quiet_calm; unfold filestat, get_f; quiet. Qed.

Lemma create_quiet path type major minor : quiet_pp (create path type major minor).
Proof. unfold create. quiet. Qed.
Lemma sys_link_calm old new : calm (sys_link old new).
Proof. apply quiet_calm. unfold sys_link. quiet. Qed.
Lemma isdirempty_quiet dp : quiet_pp (isdirempty dp).
Proof. apply quiet_loop. intros off. unfold isdirempty_step. quiet. Qed.
Lemma sys_unlink_calm path : calm (sys_unlink path).
Proof. apply quiet_calm. unfold sys_unlink. quiet. all: apply isdirempty_quiet. Qed.
Lemma mk_calm path type major minor : calm (mk path type major minor).
Proof. apply quiet_calm. unfold mk. quiet. all: apply create_quiet. Qed.
Lemma sys_chdir_calm path : calm (sys_chdir path).
Proof. apply quiet_calm. unfold sys_chdir. quiet. all: try done. Qed.

Lemma sys_dup_calm fd : calm (sys_dup fd).
Proof.
  intros s e He Hc. unfold sys_dup. pp_step. apply argfd_pp; [by pp_step|]. intros f Hf. pp_step.
  apply (fdalloc_pp s f e); [done|by apply (c_range _ _ Hc) in Hf|change (-1 <? 0) with true; by pp_step|]. intros fd' s' Hfd _ _ _ _ Hc'.
  rewrite (proj2 (Z.ltb_ge fd' 0)) by done. pp_step. apply (filedup_pp s' f _ _ Hc'). intros s2 _ _ Hc2. pp_step.
  eapply counted_ext; [exact Hc2|]. intros g. cbn. lia.
Qed.

Lemma sys_close_calm fd : calm (sys_close fd).
Proof.
  intros s e He Hc. unfold sys_close. pp_step. apply argfd_pp; [by pp_step|]. intros f Hf. pp_step.
  apply (set_fd_none s fd f e); [done|done|]. intros s' _ _ _ Hc'. pp_step. apply (fileclose_pp s' f _ _ Hc').
  intros s2 _ _ Hc2. pp_step. eapply counted_ext; [exact Hc2|]. intros g. cbn. lia.
Qed.

Lemma open_inode_quiet path omode : quiet_pp (open_inode path omode).
Proof. unfold open_inode. quiet. all: apply create_quiet. Qed.

Lemma sys_open_calm path omode : calm (sys_open path omode).
Proof.
  unfold sys_open. destruct path as [path|]; [|apply quiet_calm; quiet].
  apply calm_bind; [apply quiet_calm; quiet|intros _]. apply calm_bind; [apply quiet_calm, open_inode_quiet|intros [ip|]]; [|apply quiet_calm; quiet].
  apply calm_bind; [apply quiet_calm; quiet|intros x]. destruct (_ && _); [apply quiet_calm; quiet|].
  intros s e He Hc. pp_step. apply (filealloc_pp s e); [done|apply quiet_calm; [quiet|done|done]|]. intros f s1 _ _ Hf Hc1.
  pp_step. apply (fdalloc_pp s1 f _ _ Hc1 Hf).
  - change (-1 <? 0) with true. pp_step. apply (fileclose_pp s1 f _ _ Hc1). intros s2 _ _ Hc2.
    apply (quiet_counted _ s2 e); [quiet| |done]. eapply counted_ext; [exact Hc2|]. intros g. cbn. lia.
  - intros fd s2 Hfd _ _ _ Eo Hc2. rewrite (proj2 (Z.ltb_ge fd 0)) by done. unfold get_f. pp_step. pp_step. pp_step.
    apply (set_f_counted s2 f _ _ _ Hc2).
    { cbn. intros H0. exfalso. unfold fat in H0. rewrite (c_ref _ _ Hc2) in H0. unfold one in H0. rewrite decide_True in H0 by done.
      assert (1 <= refs (y_ofile (k_ext s2)) f); [|pose proof (He f); lia].
      unfold refs. eapply (cnt_pos _ _ (y_pid (k_ext s1), fd) f); [|done]. rewrite Eo. by rewrite lookup_insert_eq. }
    intros s3 _ _ _ Hc3. apply (quiet_counted _ s3 e); [quiet| |done]. eapply counted_ext; [exact Hc3|].
    intros g. cbn. unfold one. case_decide; lia.
Qed.

Lemma refs_nonneg t f : 0 <= refs t f.
Proof. apply cnt_nonneg. Qed.

(** Changing a file that has a reference. *)
Lemma upd_f_pp s f (h : file -> file) e (Q : unit -> sys -> Prop) :
  counted (k_ext s) e -> (forall v, f_ref (h v) = f_ref v) -> 0 < refs (y_ofile (k_ext s)) f + e f ->
  (forall s', y_ofile (k_ext s') = y_ofile (k_ext s) -> y_pid (k_ext s') = y_pid (k_ext s) -> counted (k_ext s') e -> Q tt s') ->
  pp (v ← get_f f; set_f f (h v)) s Q.
Proof.
  intros Hc Hh Hp HQ. unfold get_f. pp_step. pp_step. pose proof (c_ref _ _ Hc f) as Hr. apply (set_f_counted s f _ e); [done| |].
  - rewrite Hh. unfold fat. lia.
  - intros s' Eo Ep _ Hc'. apply HQ; [done|done|]. eapply counted_ext; [exact Hc'|]. intros g. cbn. rewrite Hh. case_decide; lia.
Qed.

Lemma pipealloc_pp page s e (Q : option (Z * Z) -> sys -> Prop) :
  (forall g, 0 <= e g) -> counted (k_ext s) e ->
  (forall s', counted (k_ext s') e -> Q None s') ->
  (forall f0 f1 s', 0 <= f0 < NFILE -> 0 <= f1 < NFILE -> counted (k_ext s') (fun g => e g + one f0 g + one f1 g) -> Q (Some (f0, f1)) s') ->
  pp (pipealloc page) s Q.
Proof.
  intros He Hc HN HS. unfold pipealloc. pp_step. apply (filealloc_pp s e); [done|pp_step; by apply HN|].
  intros f0 s1 _ _ Hf0 Hc1. pp_step. apply (filealloc_pp s1 _ _ Hc1).
  - pp_step. apply (fileclose_pp s1 f0 _ _ Hc1). intros s2 _ _ Hc2. pp_step. apply HN. eapply counted_ext; [exact Hc2|]. intros g. cbn. lia.
  - intros f1 s2 _ _ Hf1 Hc2. destruct page.
    + pp_step. pp_step. pp_step. unfold upd_x. pp_step. set (s3 := Kst _ _ _).
      assert (counted (k_ext s3) (fun g => e g + one f0 g + one f1 g)) as Hc3 by (by eapply counted_eq; [exact Hc2|..]).
      assert (forall s f, 0 < refs (y_ofile (k_ext s)) f + (e f + one f0 f + one f1 f) \/ (f <> f0 /\ f <> f1)) as Hpos.
      { intros s' f. pose proof (refs_nonneg (y_ofile (k_ext s')) f). pose proof (He f). unfold one. repeat case_decide; auto; left; lia. }
      change (pp (x ← get_f f0; set_f f0 (as_pipe true false (y_next (k_ext s2)) x);;
        v1 ← get_f f1; set_f f1 (as_pipe false true (y_next (k_ext s2)) v1);; mret (Some (f0, f1))) s3 Q).
      apply pp_assoc, pp_bind. apply (upd_f_pp s3 f0 _ _ _ Hc3); [done|destruct (Hpos s3 f0); [done|tauto]|].
      intros s4 _ _ Hc4. apply pp_assoc, pp_bind. apply (upd_f_pp s4 f1 _ _ _ Hc4); [done|destruct (Hpos s4 f1); [done|tauto]|].
      intros s5 _ _ Hc5. pp_step. by apply HS.
    + pp_step. apply (fileclose_pp s2 f0 _ _ Hc2). intros s3 _ _ Hc3. pp_step. apply (fileclose_pp s3 f1 _ _ Hc3). intros s4 _ _ Hc4.
      pp_step. apply HN. eapply counted_ext; [exact Hc4|]. intros g. cbn. lia.
Qed.

(** Closing two files. *)
Lemma close2_pp f0 f1 s e (k : M sys (Z * option (Z * Z))) :
  counted (k_ext s) (fun g => e g + one f0 g + one f1 g) -> quiet_pp k ->
  pp (fileclose f0;; fileclose f1;; k) s (fun _ s' => counted (k_ext s') e).
Proof.
  intros Hc Hk. pp_step. apply (fileclose_pp s f0 _ _ Hc). intros s1 _ _ Hc1. pp_step. apply (fileclose_pp s1 f1 _ _ Hc1). intros s2 _ _ Hc2.
  apply (quiet_counted _ s2 e); [done| |done]. eapply counted_ext; [exact Hc2|]. intros g. cbn. lia.
Qed.

Lemma sys_pipe_calm page ok0 ok1 : calm (sys_pipe page ok0 ok1).
Proof.
  intros s e He Hc. unfold sys_pipe. pp_step. apply (pipealloc_pp page s e); [done|done|intros s' Hc'; by pp_step|].
  intros f0 f1 s1 Hf0 Hf1 Hc1. pp_step. apply (fdalloc_pp s1 f0 _ _ Hc1 Hf0).
  { change (-1 <? 0) with true. by apply close2_pp; [|apply quiet_ret]. }
  intros fd0 s2 Hfd0 _ Ep2 _ Eo2 Hc2. rewrite (proj2 (Z.ltb_ge fd0 0)) by done. pp_step. apply (fdalloc_pp s2 f1 _ _ Hc2 Hf1).
  { change (-1 <? 0) with true. pp_step. apply (set_fd_none s2 fd0 f0 _ _ Hc2); [rewrite Eo2, Ep2; by rewrite lookup_insert_eq|].
    intros s3 _ _ _ Hc3. apply close2_pp; [|apply quiet_ret]. eapply counted_ext; [exact Hc3|]. intros g. cbn. lia. }
  intros fd1 s3 Hfd1 _ Ep3 Hn3 Eo3 Hc3. rewrite (proj2 (Z.ltb_ge fd1 0)) by done. destruct (negb _).
  - assert (fd0 <> fd1) as Hne by (intros ->; rewrite Eo2, Ep2, lookup_insert_eq in Hn3; done).
    pp_step. apply (set_fd_none s3 fd0 f0 _ _ Hc3).
    { rewrite Eo3, Ep3, lookup_insert_ne, Eo2, Ep2 by congruence. by rewrite lookup_insert_eq. }
    intros s4 _ Ep4 Eo4 Hc4. pp_step. apply (set_fd_none s4 fd1 f1 _ _ Hc4).
    { rewrite Eo4, Ep4, lookup_delete_ne, Eo3, Ep3 by congruence. by rewrite lookup_insert_eq. }
    intros s5 _ _ _ Hc5. apply close2_pp; [|apply quiet_ret]. eapply counted_ext; [exact Hc5|]. intros g. cbn. lia.
  - pp_step. eapply counted_ext; [exact Hc3|]. intros g. cbn. lia.
Qed.

Lemma exit_files_calm fd k : calm (exit_files fd k).
Proof.
  revert fd. induction k as [|k IH]; intros fd; cbn [exit_files]; [apply quiet_calm; quiet|].
  intros s e He Hc. unfold get_fd. pp_step. pp_step. destruct (y_ofile (k_ext s) !! _) as [f|] eqn:Ef; [|pp_step; pp_step; by apply IH].
  pp_step. pp_step. apply (fileclose_pp s f e); [done|]. intros s1 Eo Ep Hc1.
  apply (set_fd_none s1 fd f _ _ Hc1); [by rewrite Eo, Ep|]. intros s2 _ _ _ Hc2. apply IH; [done|].
  eapply counted_ext; [exact Hc2|]. intros g. cbn. lia.
Qed.

Lemma fork_files_pp np i k s : y_pid (k_ext s) <> np -> (forall j, i <= j -> y_ofile (k_ext s) !! (np, j) = None) ->
  counted (k_ext s) (fun _ => 0) -> pp (fork_files np i k) s (fun _ s' => counted (k_ext s') (fun _ => 0)).
Proof.
  revert i s. induction k as [|k IH]; intros i s Hne Hnp Hc; cbn [fork_files]; [by pp_step|].
  unfold get_fd. pp_step. pp_step. destruct (y_ofile (k_ext s) !! _) as [f|] eqn:Ef.
  2: { pp_step. pp_step. apply IH; [done| |done]. intros j Hj. apply Hnp. lia. }
  pp_step. pp_step. apply (filedup_pp s f _ _ Hc). intros s1 Eo Ep [Hr Hn Hg]. unfold upd_x. pp_step. apply IH; cbn.
  - by rewrite Ep.
  - intros j Hj. rewrite lookup_insert_ne by (intros [= E]; lia). rewrite Eo. apply Hnp. lia.
  - split; cbn.
    + intros g. rewrite Hr, Eo. unfold refs. rewrite (cnt_insert_new _ _ _ f) by (apply Hnp; lia). cbn. unfold one.
      repeat case_decide; subst; try done; lia.
    + done.
    + intros kk g. rewrite lookup_insert_Some. intros [[_ <-]|[_ H]]; [|by apply Hg in H].
      apply (c_range _ _ Hc) in Ef. done.
Qed.

(** ** All sequences of system calls *)

Inductive sstep s s' : Prop :=
  | ss_dup fd r : sys_dup fd s = Ok r s' -> sstep s s'
  | ss_read dev ok fd n r : sys_read dev ok fd n s = Ok r s' -> sstep s s'
  | ss_write dev psrc src fd n r : sys_write dev psrc src fd n s = Ok r s' -> sstep s s'
  | ss_close fd r : sys_close fd s = Ok r s' -> sstep s s'
  | ss_fstat fd ok r : sys_fstat fd ok s = Ok r s' -> sstep s s'
  | ss_link old new r : sys_link old new s = Ok r s' -> sstep s s'
  | ss_unlink path r : sys_unlink path s = Ok r s' -> sstep s s'
  | ss_open path omode r : sys_open path omode s = Ok r s' -> sstep s s'
  | ss_mkdir path r : sys_mkdir path s = Ok r s' -> sstep s s'
  | ss_mknod path ma mi r : sys_mknod path ma mi s = Ok r s' -> sstep s s'
  | ss_chdir path r : sys_chdir path s = Ok r s' -> sstep s s'
  | ss_pipe page ok0 ok1 r : sys_pipe page ok0 ok1 s = Ok r s' -> sstep s s'
  | ss_fork np : y_pid (k_ext s) <> np -> (forall j, y_ofile (k_ext s) !! (np, j) = None) ->
      fork_files np 0 (Z.to_nat NOFILE) s = Ok tt s' -> sstep s s'
  | ss_exit : exit_files 0 (Z.to_nat NOFILE) s = Ok tt s' -> sstep s s'
  | ss_switch pid cwd : s' = Kst (k_bc s) (k_log s) (let x := k_ext s in
      Sysx (Fsx (f_sb (y_fs x)) (f_itable (y_fs x)) cwd) (y_file x) (y_pipe x) (y_next x) (y_ofile x) pid) -> sstep s s'.

Lemma calm_step {A} (m : M sys A) s a s' : calm m -> m s = Ok a s' -> counted (k_ext s) (fun _ => 0) -> counted (k_ext s') (fun _ => 0).
Proof. intros Hm E Hc. exact (pp_elim _ _ _ _ _ (Hm s (fun _ => 0) (fun _ => Z.le_refl 0) Hc) E). Qed.

Lemma sstep_counted s s' : sstep s s' -> counted (k_ext s) (fun _ => 0) -> counted (k_ext s') (fun _ => 0).
Proof.
  intros Hs Hc. destruct Hs as [??? | ?????? | ??????? | ??? | ???? | ???? | ??? | ???? | ??? | ????? | ??? | ????? | np Hne Hnp E | E | pid cwd ->].
  - eapply calm_step; [apply (sys_dup_calm fd)|done|done].
  - eapply calm_step; [apply sys_read_calm|done|done].
  - eapply calm_step; [apply sys_write_calm|done|done].
  - eapply calm_step; [apply sys_close_calm|done|done].
  - eapply calm_step; [apply sys_fstat_calm|done|done].
  - eapply calm_step; [apply sys_link_calm|done|done].
  - eapply calm_step; [apply sys_unlink_calm|done|done].
  - eapply calm_step; [apply sys_open_calm|done|done].
  - eapply calm_step; [apply mk_calm|done|done].
  - eapply calm_step; [apply mk_calm|done|done].
  - eapply calm_step; [apply sys_chdir_calm|done|done].
  - eapply calm_step; [apply sys_pipe_calm|done|done].
  - refine (pp_elim _ _ _ _ _ (fork_files_pp np 0 _ s Hne _ Hc) E). intros j _. apply Hnp.
  - eapply calm_step; [apply exit_files_calm|done|done].
  - by eapply counted_eq; [exact Hc|..].
Qed.

(** C14: open files are counted correctly.  After any sequence of system calls,
    forks, exits and process switches from a state without open files, with any
    of the calls failing part-way: the reference count of each file is the
    number of descriptors that refer to it, in all processes together; a file
    without descriptors is free; and the file of every descriptor has a count of
    at least 1, so that [filedup] returns it instead of panicking. *)
Theorem file_refs s0 s :
  y_file (k_ext s0) = ∅ -> y_ofile (k_ext s0) = ∅ -> rtc sstep s0 s ->
  (forall f, f_ref (fat s f) = refs (y_ofile (k_ext s)) f) /\
  (forall f, refs (y_ofile (k_ext s)) f = 0 -> f_type (fat s f) = FD_NONE) /\
  (forall k f, y_ofile (k_ext s) !! k = Some f -> 1 <= f_ref (fat s f) /\ exists s', filedup f s = Ok f s').
Proof.
  intros E1 E2 Hr. assert (counted (k_ext s) (fun _ => 0)) as [H1 H2 H3].
  { assert (counted (k_ext s0) (fun _ => 0)) as H0.
    { split; rewrite ?E1, ?E2; [|done|done]. intros f. unfold refs. rewrite cnt_zero; [done|]. by intros k x. }
    clear E1 E2. induction Hr as [|a b c Hab _ IH]; [done|]. apply IH. by eapply sstep_counted. }
  split; [intros f; unfold fat; rewrite H1; lia|]. split.
  - intros f Hf. unfold fat. apply H2. rewrite H1. lia.
  - intros k f Hk. assert (1 <= refs (y_ofile (k_ext s)) f) as Hp by (unfold refs; by eapply (cnt_pos _ _ k f)).
    assert (1 <= f_ref (fat s f)) as Hf by (unfold fat; rewrite H1; lia). split; [done|].
    unfold filedup, get_f, mbind, M_bind, gets. rewrite (proj2 (Z.ltb_ge _ _)) by lia. by eexists.
Qed.
End Refs.

(** A pipe, a duplicate, a fork, and the exit of the parent. *)
#[local] Instance no_cache : BufCache unit := {|
  bread := fun _ _ => mret 0; bwrite := fun _ => mret tt; brelse := fun _ => mret tt;
  bpin := fun _ => mret tt; bunpin := fun _ => mret tt; bdata := fun _ => mret ∅;
  bset := fun _ _ => mret tt; bblockno := fun _ => mret 50 |}.

Definition ex_sys : kst unit sysx :=
  Kst tt (Log 2 30 0 false 1 0 ∅) (Sysx (Fsx (Superblock FSMAGIC 100 50 16 30 2 32 45) ∅ 0) ∅ ∅ 1 ∅ 1).
Definition ok_st {A} (r : res (kst unit sysx) A) : kst unit sysx := match r with Ok _ s => s | _ => ex_sys end.

Lemma file_refs_witness : exists s : kst unit sysx, y_ofile (k_ext s) = {[(2, 0) := 0; (2, 1) := 1; (2, 2) := 0]} /\
  f_ref (fat s 0) = 2 /\ f_ref (fat s 1) = 1 /\
  (forall f, f_ref (fat s f) = refs (y_ofile (k_ext s)) f) /\
  (forall f, refs (y_ofile (k_ext s)) f = 0 -> f_type (fat s f) = FD_NONE) /\
  (forall k f, y_ofile (k_ext s) !! k = Some f -> 1 <= f_ref (fat s f) /\ exists s', filedup f s = Ok f s').
Proof.
  set (s1 := ok_st (sys_pipe true true true ex_sys)). set (s2 := ok_st (sys_dup 0 s1)).
  set (s3 := ok_st (fork_files 2 0 (Z.to_nat NOFILE) s2)). set (s4 := ok_st (exit_files 0 (Z.to_nat NOFILE) s3)).
  exists s4. split; [by vm_compute|]. split; [by vm_compute|]. split; [by vm_compute|].
  apply (file_refs ex_sys s4); [reflexivity|reflexivity|].
  assert (forall j, y_ofile (k_ext s2) !! (2, j) = None) as Hnp.
  { intros j. replace (y_ofile (k_ext s2)) with ({[(1, 0) := 0; (1, 1) := 1; (1, 2) := 0]} : gmap (Z * Z) Z) by (by vm_compute).
    rewrite !lookup_insert_ne by congruence. by apply lookup_singleton_ne. }
  eapply rtc_l; [apply (ss_pipe _ s1 true true true (0, Some (0, 1))); by vm_compute|].
  eapply rtc_l; [apply (ss_dup _ s2 0 2); by vm_compute|].
  eapply rtc_l; [apply (ss_fork _ s3 2); [done|exact Hnp|by vm_compute]|].
  eapply rtc_l; [apply (ss_exit _ s4); by vm_compute|]. apply rtc_refl.
Defined.
