(* ===== verification/Umalloc.v ===== *)
(** * user/umalloc.c, with sys_sbrk and growproc : the user-level allocator

    Memory is seen as headers: [h_hdr] gives the header stored at an address.
    Pointers are byte addresses, and [p + n] on [Header] pointers is
    [p + 16 * n].  [sbrk] is the system call with [growproc] on the size of the
    process; whether the kernel finds physical memory for a new size is an
    argument, of which [phys] says all that is used. *)

From S2P Require Import Prelude Riscv.

(** [union header]: 16 bytes. *)
Record header := Header { ptr : Z; size : Z }.
Definition HSZ : Z := 16.

Record heap := Heap {
  h_hdr : gmap Z header;
  freep : Z;
  p_sz : Z
}.

(** The kernel finds no memory for a process beyond what the machine has. *)
Definition HEAPMAX : Z := PHYSTOP - KERNBASE.
Definition phys (ok : Z -> bool) : Prop := forall newsz, ok newsz = true -> newsz <= HEAPMAX.

Section Code.
(** [&base], in the data segment *)
Context (base : Z).

Definition hat (s : heap) (a : Z) : header := default (Header 0 0) (h_hdr s !! a).
Definition get_ptr (a : Z) : M heap Z := gets (fun s => ptr (hat s a)).
Definition get_size (a : Z) : M heap Z := gets (fun s => size (hat s a)).
Definition set_hdr (a : Z) (h : header) : M heap unit :=
  modify (fun s => Heap (<[a := h]> (h_hdr s)) (freep s) (p_sz s)).
Definition set_ptr (a p : Z) : M heap unit := z ← get_size a; set_hdr a (Header p z).
Definition set_size (a z : Z) : M heap unit := p ← get_ptr a; set_hdr a (Header p z).
Definition set_freep (p : Z) : M heap unit := modify (fun s => Heap (h_hdr s) p (p_sz s)).
Definition set_sz (z : Z) : M heap unit := modify (fun s => Heap (h_hdr s) (freep s) z).

(** The sizes that [uvmalloc], which finds memory for a size as [ok] says, and
    [uvmdealloc] return; [growproc] and [sys_sbrk].  The results [false]
    and [None] are -1. *)
Definition alloc_sz (ok : Z -> bool) (oldsz newsz : Z) : Z :=
  if newsz <? oldsz then oldsz else if ok newsz then newsz else 0.
Definition dealloc_sz (oldsz newsz : Z) : Z := if newsz >=? oldsz then oldsz else newsz.
Definition growproc (ok : Z -> bool) (n : Z) : M heap bool :=
  sz ← gets p_sz;
  if n >? 0 then
    let sz := alloc_sz ok sz (u64 (sz + n)) in
    if sz =? 0 then mret false else set_sz sz;; mret true
  else if n <? 0 then set_sz (dealloc_sz sz (u64 (sz + n)));; mret true
  else set_sz sz;; mret true.
Definition sbrk (ok : Z -> bool) (n : Z) : M heap (option Z) :=
  addr ← gets p_sz;
  b ← growproc ok n;
  if (b : bool) then mret (Some addr) else mret None.

(** The loop of [free] that looks for the place of [bp]. *)
Definition free_scan (bp p : Z) : M heap (Z + Z) :=
  n ← get_ptr p;
  if (bp >? p) && (bp <? n) then mret (inr p)
  else if (p >=? n) && ((bp >? p) || (bp <? n)) then mret (inr p)
  else mret (inl n).
Definition free (ap : Z) : M heap unit :=
  let bp := ap - HSZ in
  p ← gets freep;
  p ← loop (free_scan bp) (2 ^ 32) p;
  z ← get_size bp;
  n ← get_ptr p;
  (if bp + HSZ * z =? n then
     zn ← get_size n;
     set_size bp (u32 (z + zn));;
     nn ← get_ptr n;
     set_ptr bp nn
   else set_ptr bp n);;
  zp ← get_size p;
  (if p + HSZ * zp =? bp then
     z ← get_size bp;
     set_size p (u32 (zp + z));;
     n ← get_ptr bp;
     set_ptr p n
   else set_ptr p bp);;
  set_freep p.

Definition morecore (ok : Z -> bool) (nu : Z) : M heap Z :=
  let nu := if nu <? 4096 then 4096 else nu in
  p ← sbrk ok (i32 (u64 (nu * HSZ)));
  match p with
  | None => mret 0
  | Some hp => set_size hp nu;; free (hp + HSZ);; gets freep
  end.

(** [nunits] is computed in 64 bits, as [sizeof] is, and stored in 32. *)
Definition nunits (nbytes : Z) : Z := u32 ((nbytes + HSZ - 1) / HSZ + 1).

(** Cut [nu] units from the block at [p]: the address of the block cut off. *)
Definition carve (nu prevp p : Z) : M heap Z :=
  z ← get_size p;
  if z =? nu then
    n ← get_ptr p;
    set_ptr prevp n;;
    mret p
  else
    set_size p (u32 (z - nu));;
    z ← get_size p;
    let p := p + HSZ * z in
    set_size p nu;;
    mret p.

(** One round of the loop of [malloc], on [prevp] and [p]. *)
Definition malloc_step (ok : Z -> bool) (nu : Z) (v : Z * Z) : M heap (Z * Z + Z) :=
  let '(prevp, p) := v in
  z ← get_size p;
  if z >=? nu then
    p ← carve nu prevp p;
    set_freep prevp;;
    mret (inr (p + HSZ))
  else
    fp ← gets freep;
    if p =? fp then
      p ← morecore ok nu;
      if p =? 0 then mret (inr 0)
      else n ← get_ptr p; mret (inl (p, n))
    else n ← get_ptr p; mret (inl (p, n)).
Definition malloc (ok : Z -> bool) (nbytes : Z) : M heap Z :=
  fp ← gets freep;
  (if fp =? 0 then set_hdr base (Header base 0);; set_freep base else mret tt);;
  prevp ← gets freep;
  n ← get_ptr prevp;
  loop (malloc_step ok (nunits nbytes)) (2 ^ 32) (prevp, n).
End Code.
