(* ===== verification/UmallocSpec.v ===== *)
(** * The user-level allocator keeps its blocks apart

    The free list is a circular list in the order of addresses that starts at
    [base], with at least one allocated unit between two free blocks.  [circ]
    states this of the headers in memory for the list [L] of free blocks
    (address and units); [owned] adds the allocated blocks. *)

From stdpp Require Import sorting.
From S2P Require Import Prelude Riscv Umalloc.

Abbreviation block := (Z * Z)%type.
Definition before (x y : block) : Prop := x.1 + HSZ * x.2 < y.1.
Definition nxt (L : list block) (last : Z) : Z := match L with [] => last | (a, _) :: _ => a end.
Fixpoint linked (h : gmap Z header) (L : list block) (last : Z) : Prop :=
  match L with
  | [] => True
  | (a, z) :: L => h !! a = Some (Header (nxt L last) z) /\ linked h L last
  end.
Definition inb (x : Z) (b : block) : Prop := b.1 <= x < b.1 + HSZ * b.2.
Definition cover (L : list block) (x : Z) : Prop := exists b, b ∈ L /\ inb x b.

(** ** Lists of blocks *)

Lemma nxt_app P Q last : nxt (P ++ Q) last = nxt P (nxt Q last).
Proof. by destruct P as [|[]]. Qed.
Lemma linked_app h P Q last : linked h (P ++ Q) last <-> linked h P (nxt Q last) /\ linked h Q last.
Proof.
  induction P as [|[a z] P IH]; cbn [linked app]; [tauto|]. rewrite IH, nxt_app. tauto.
Qed.
Lemma linked_frame h h' L last : (forall a z, (a, z) ∈ L -> h' !! a = h !! a) -> linked h L last -> linked h' L last.
Proof.
  induction L as [|[a z] L IH]; [done|]. intros Hf [H1 H2]. split.
  - rewrite Hf with (z := z) by left. done.
  - apply IH; [|done]. intros b y Hb. apply (Hf b y). by right.
Qed.

Lemma total_app {A} (f : A -> Z) l1 l2 : total f (l1 ++ l2) = total f l1 + total f l2.
Proof. induction l1 as [|x l1 IH]; cbn; lia. Qed.

Lemma before_app P Q : StronglySorted before (P ++ Q) <->
  (forall x y, x ∈ P -> y ∈ Q -> before x y) /\ StronglySorted before P /\ StronglySorted before Q.
Proof. apply StronglySorted_app. Qed.

(** The place of an address in a sorted list. *)
Lemma find_place L b bp : StronglySorted before (b :: L) -> Forall (fun x => 0 <= x.2) (b :: L) ->
  b.1 < bp -> (forall x, x ∈ b :: L -> x.1 <> bp) ->
  exists P p Q, b :: L = P ++ p :: Q /\ p.1 < bp /\ forall x, x ∈ Q -> bp < x.1.
Proof.
  revert b. induction L as [|c L IH]; intros b Hs Hz Hb Hn.
  - exists [], b, []. split; [done|]. split; [done|]. intros x Hx. by apply not_elem_of_nil in Hx.
  - apply StronglySorted_cons in Hs as [Hb' Hs]. apply Forall_cons in Hz as [Hzb Hz].
    destruct (decide (c.1 < bp)) as [Hc|Hc].
    + destruct (IH c Hs Hz Hc) as (P & p & Q & E & Hp & HQ).
      { intros x Hx. apply Hn. by right. }
      exists (b :: P), p, Q. by rewrite E.
    + exists [], b, (c :: L). split; [done|]. split; [done|].
      assert (bp < c.1) as Hc' by (pose proof (Hn c ltac:(right; left)); lia).
      apply StronglySorted_cons in Hs as [Hc2 _]. apply Forall_cons in Hz as [Hzc _].
      intros x [->|Hx]%elem_of_cons; [done|].
      eapply Forall_forall in Hc2; [|done]. unfold before, HSZ in Hc2. lia.
Qed.

Section Spec.
Context (base hstart : Z) (Hbase : 0 < base) (Hstart : base + HSZ <= hstart).
Implicit Types (s : heap) (L P Q : list block) (A : gmap Z Z).

Record circ s L : Prop := Circ {
  c_base : exists L0, L = (base, 0) :: L0;
  c_link : linked (h_hdr s) L base;
  c_sort : StronglySorted before L;
  c_elem : forall a z, (a, z) ∈ L -> (a = base /\ z = 0) \/ (1 <= z /\ hstart <= a /\ a + HSZ * z <= p_sz s);
  c_free : exists z, (freep s, z) ∈ L;
  c_sum : hstart + HSZ * total snd L <= p_sz s;
  c_max : p_sz s <= HEAPMAX
}.

Lemma circ_len s L : circ s L -> Z.of_nat (length L) <= 2 ^ 24.
Proof.
  intros [[L0 E] _ Hs He _ Hsum Hmax]. subst L. apply StronglySorted_cons in Hs as [Hb Hs].
  assert (Z.of_nat (length L0) <= total snd L0) as Hl.
  { assert (forall x, x ∈ L0 -> 1 <= x.2) as H1.
    { intros [a z] Hx. destruct (He a z) as [[-> ->]|?]; [by right| |cbn; lia].
      eapply Forall_forall in Hb; [|done]. unfold before in Hb. cbn in Hb. lia. }
    clear -H1. induction L0 as [|x L IH]; [done|]. cbn. pose proof (H1 x ltac:(left)).
    assert (Z.of_nat (length L) <= total snd L) by (apply IH; intros; apply H1; by right). lia. }
  cbn [length total] in *. cbn in Hsum. unfold HSZ, HEAPMAX, PHYSTOP in *. lia.
Qed.

Lemma circ_next s L i a z : circ s L -> L !! i = Some (a, z) ->
  hat s a = Header (nxt (drop (S i) L) base) z.
Proof.
  intros Hc Hi. pose proof (c_link _ _ Hc) as Hl. rewrite <- (take_drop_middle L i (a, z) Hi) in Hl.
  apply linked_app in Hl as [_ [Hl _]]. unfold hat. by rewrite Hl.
Qed.

Lemma circ_before s L i j x y : circ s L -> (i < j)%nat -> L !! i = Some x -> L !! j = Some y -> before x y.
Proof.
  intros Hc Hij Hi Hj. pose proof (c_sort _ _ Hc) as Hs. rewrite <- (take_drop_middle L i x Hi) in Hs.
  apply before_app in Hs as (_ & _ & [Hs _]%StronglySorted_cons). eapply Forall_forall in Hs; [done|].
  apply list_elem_of_lookup. exists (j - S i)%nat. rewrite lookup_drop. by replace (S i + (j - S i))%nat with j by lia.
Qed.

Lemma circ_nonneg s L a z : circ s L -> (a, z) ∈ L -> 0 <= z /\ base <= a.
Proof. intros Hc Hin. destruct (c_elem _ _ Hc _ _ Hin) as [[-> ->]|?]; unfold HSZ in *; lia. Qed.

Lemma circ_lt s L i j a z b y : circ s L -> (i < j)%nat -> L !! i = Some (a, z) -> L !! j = Some (b, y) -> a < b.
Proof.
  intros Hc Hij Hi Hj. pose proof (circ_before _ _ _ _ _ _ Hc Hij Hi Hj) as Hb. unfold before, HSZ in Hb. cbn in Hb.
  pose proof (circ_nonneg _ _ a z Hc ltac:(by eapply list_elem_of_lookup_2)). lia.
Qed.

Lemma circ_inj s L i j a z y : circ s L -> L !! i = Some (a, z) -> L !! j = Some (a, y) -> i = j.
Proof.
  intros Hc Hi Hj. destruct (Nat.lt_trichotomy i j) as [H|[H|H]]; [|done|].
  - pose proof (circ_lt _ _ _ _ _ _ _ _ Hc H Hi Hj). lia.
  - pose proof (circ_lt _ _ _ _ _ _ _ _ Hc H Hj Hi). lia.
Qed.

(** The successor in the circle. *)
Definition nx L (i : nat) : nat := if decide (S i < length L)%nat then S i else 0%nat.
Lemma circ_nx s L i a z : circ s L -> L !! i = Some (a, z) ->
  exists y, L !! nx L i = Some (nxt (drop (S i) L) base, y).
Proof.
  intros Hc Hi. unfold nx. destruct (decide _) as [Hd|Hd].
  - destruct (lookup_lt_is_Some_2 L (S i) Hd) as [[b y] Hb]. exists y.
    by rewrite (drop_S L (b, y) (S i) Hb).
  - rewrite drop_ge by lia. destruct (c_base _ _ Hc) as [L0 ->]. by exists 0.
Qed.

(** ** free *)

Lemma free_step_wp s L i j a z p zp bp :
  circ s L -> L !! i = Some (a, z) -> L !! j = Some (p, zp) -> p < bp ->
  (forall k b y, (j < k)%nat -> L !! k = Some (b, y) -> bp < b) ->
  wp (free_scan bp a) s (fun r s' => s' = s /\
    r = if decide (i = j) then inr p else inl (nxt (drop (S i) L) base)).
Proof.
  intros Hc Hi Hj Hp Hq. unfold free_scan, get_ptr. wp_step. wp_step. rewrite (circ_next _ _ _ _ _ Hc Hi). cbn [ptr].
  destruct (circ_nx _ _ _ _ _ Hc Hi) as [y Hn]. unfold nx in Hn. set (n := nxt _ _) in *.
  assert (base < bp) as Hb.
  { pose proof (circ_nonneg _ _ p zp Hc ltac:(by eapply list_elem_of_lookup_2)). lia. }
  destruct (decide (i = j)) as [->|Hne].
  - rewrite Hj in Hi. injection Hi as <- <-. rewrite (proj2 (Z.gtb_lt bp p)) by lia. destruct (bp <? n) eqn:E; cbn [andb]; [done|].
    bool_to_prop. destruct (decide _) as [Hd|Hd].
    + pose proof (Hq (S j) _ _ ltac:(lia) Hn). lia.
    + assert (n = base) as ->. { destruct (c_base _ _ Hc) as [L0 E0]. rewrite E0 in Hn. by injection Hn. }
      pose proof (circ_nonneg _ _ p zp Hc ltac:(by eapply list_elem_of_lookup_2)).
      rewrite (proj2 (Z.geb_le p base)) by lia. done.
  - destruct (Nat.lt_trichotomy i j) as [H|[H|H]]; [|done|].
    + rewrite decide_True in Hn by (apply lookup_lt_Some in Hj; lia).
      assert (n <= p) as Hnp.
      { destruct (decide (S i = j)) as [<-|]; [rewrite Hj in Hn; injection Hn; lia|].
        pose proof (circ_lt _ _ (S i) j _ _ _ _ Hc ltac:(lia) Hn Hj). lia. }
      pose proof (circ_lt _ _ i (S i) _ _ _ _ Hc ltac:(lia) Hi Hn).
      rewrite (proj2 (Z.ltb_ge bp n)) by lia. rewrite andb_false_r.
      assert ((a >=? n) = false) as -> by lia. done.
    + pose proof (Hq i a z H Hi). assert ((bp >? a) = false) as -> by lia. cbn [andb orb].
      destruct (decide _) as [Hd|Hd].
      * pose proof (circ_lt _ _ i (S i) _ _ _ _ Hc ltac:(lia) Hi Hn). assert ((a >=? n) = false) as -> by lia. done.
      * assert (n = base) as ->. { destruct (c_base _ _ Hc) as [L0 E0]. rewrite E0 in Hn. by injection Hn. }
        rewrite (proj2 (Z.ltb_ge bp base)) by lia. by rewrite andb_false_r.
Qed.

Lemma uwalk_wp s L j p zp bp :
  circ s L -> L !! j = Some (p, zp) -> p < bp ->
  (forall k b y, (j < k)%nat -> L !! k = Some (b, y) -> bp < b) ->
  wp (loop (free_scan bp) (2 ^ 32) (freep s)) s (fun q s' => q = p /\ s' = s).
Proof.
  intros Hc Hj Hp Hq. destruct (c_free _ _ Hc) as [z0 [i0 Hi0]%list_elem_of_lookup].
  set (d := fun i => if decide (i <= j)%nat then (j - i)%nat else (length L - i + j)%nat).
  apply (wp_loop _ (fun n q s' => s' = s /\ exists i z, L !! i = Some (q, z) /\ n = d i) _ _ (d i0)).
  - clear i0 z0 Hi0. intros n q s' (-> & i & z & Hi & ->).
    eapply wp_mono; [exact (free_step_wp s L i j q z p zp bp Hc Hi Hj Hp Hq)|]. intros r s' [-> ->]. destruct (decide (i = j)); [done|].
    exists (d (nx L i)). split; [|split; [done|]].
    + unfold d, nx. pose proof (lookup_lt_Some _ _ _ Hi). pose proof (lookup_lt_Some _ _ _ Hj).
      repeat case_decide; lia.
    + destruct (circ_nx _ _ _ _ _ Hc Hi) as [y Hy]. by exists (nx L i), y.
  - split; [done|]. by exists i0, z0.
  - pose proof (circ_len _ _ Hc). unfold d. pose proof (lookup_lt_Some _ _ _ Hi0). pose proof (lookup_lt_Some _ _ _ Hj).
    case_decide; lia.
Qed.

(** The block [bp] of [z] units in front of the list [Q], joined with its first
    block when they touch. *)
Definition join (z bp : Z) Q : Z * list block :=
  match Q with
  | (n, zn) :: Q' => if bp + HSZ * z =? n then (z + zn, Q') else (z, Q)
  | [] => (z, Q)
  end.

Lemma join_spec z bp Q z1 Q1 : join z bp Q = (z1, Q1) -> 1 <= z -> StronglySorted before Q ->
  (forall x, x ∈ Q -> 1 <= x.2 /\ bp + HSZ * z <= x.1) ->
  (forall x, x ∈ Q1 -> x ∈ Q /\ bp + HSZ * z1 < x.1) /\ z <= z1 /\ StronglySorted before Q1 /\
  total snd Q1 + z1 = total snd Q + z /\
  (forall x, inb x (bp, z1) \/ cover Q1 x <-> inb x (bp, z) \/ cover Q x) /\
  (z1 = z \/ exists n zn, (n, zn) ∈ Q /\ bp + HSZ * z1 = n + HSZ * zn).
Proof.
  intros E Hz Hs Hq. destruct Q as [|[n zn] Q'].
  { injection E as <- <-. split; [intros x Hx; by apply not_elem_of_nil in Hx|]. repeat split; auto; lia. }
  pose proof (Hq (n, zn) ltac:(left)) as [Hzn Hn]. cbn [fst snd] in *.
  apply StronglySorted_cons in Hs as [Hn' Hs]. rewrite Forall_forall in Hn'.
  cbn [join] in E. destruct (bp + HSZ * z =? n) eqn:En; injection E as <- <-; bool_to_prop.
  - split; [intros x Hx; split; [by right|]; pose proof (Hn' x Hx) as Hb; unfold before, HSZ in *; cbn in Hb; lia|].
    split; [lia|]. split; [done|]. split; [cbn; lia|]. split.
    + intros x. split.
      * intros [Hx|(b & Hb & Hx)]; [|right; exists b; split; [by right|done]].
        unfold inb, HSZ in *. cbn [fst snd] in *. destruct (decide (x < bp + 16 * z)); [left; lia|].
        right. exists (n, zn). split; [left|]. unfold inb, HSZ. cbn [fst snd]. lia.
      * intros [Hx|(b & [->|Hb]%elem_of_cons & Hx)]; [| |right; by exists b];
          left; unfold inb, HSZ in *; cbn [fst snd] in *; lia.
    + right. exists n, zn. split; [left|]. unfold HSZ in *. lia.
  - split.
    + intros x Hx. split; [done|]. apply elem_of_cons in Hx as [->|Hx]; [cbn; lia|].
      pose proof (Hn' x Hx) as Hb. unfold before, HSZ in *. cbn in Hb. lia.
    + split; [lia|]. split; [by apply StronglySorted_cons; rewrite Forall_forall|]. split; [done|]. split; [done|]. by left.
Qed.

Lemma merge_right_wp s Q bp z w (R : unit -> heap -> Prop) :
  h_hdr s !! bp = Some (Header w z) -> linked (h_hdr s) Q base -> (forall x, x ∈ Q -> x.1 <> bp) -> base < bp -> 1 <= z ->
  Forall (fun x => 0 <= z + x.2 < 2 ^ 32) Q ->
  (forall z1 Q1, join z bp Q = (z1, Q1) ->
     R tt (Heap (<[bp := Header (nxt Q1 base) z1]> (h_hdr s)) (freep s) (p_sz s))) ->
  wp (if bp + HSZ * z =? nxt Q base then
        zn ← get_size (nxt Q base);
        set_size bp (u32 (z + zn));;
        nn ← get_ptr (nxt Q base);
        set_ptr bp nn
      else set_ptr bp (nxt Q base)) s R.
Proof.
  intros Hbp Hl Hne Hb Hz Hsm HR. unfold set_size, set_ptr, set_hdr, get_size, get_ptr.
  destruct Q as [|[n zn] Q']; cbn [nxt join linked] in *.
  - rewrite (proj2 (Z.eqb_neq _ _)) by (unfold HSZ; lia). repeat wp_step. unfold hat. rewrite Hbp. by apply (HR z []).
  - destruct Hl as [Hn Hl]. destruct (bp + HSZ * z =? n) eqn:E.
    + assert (n <> bp) as Hnb by (unfold HSZ in *; bool_to_prop; lia). repeat wp_step. unfold hat; cbn [h_hdr freep p_sz].
      rewrite !lookup_insert_ne, Hn by done. cbn. rewrite lookup_insert_eq. cbn. rewrite insert_insert_eq.
      apply Forall_cons in Hsm as [Hsm _]. cbn in Hsm. unfold u32. rewrite Z.mod_small by lia. by apply (HR (z + zn) Q').
    + repeat wp_step. unfold hat. rewrite Hbp. by apply (HR z ((n, zn) :: Q')).
Qed.

(** A block that is not on the free list and may be put there. *)
Record loose s L bp z : Prop := Loose {
  lo_hdr : exists w, h_hdr s !! bp = Some (Header w z);
  lo_size : 1 <= z;
  lo_range : hstart <= bp /\ bp + HSZ * z <= p_sz s;
  lo_apart : forall x, inb x (bp, z) -> ~ cover L x;
  lo_sum : hstart + HSZ * (total snd L + z) <= p_sz s
}.

Lemma loose_apart s L bp z a y : circ s L -> loose s L bp z -> (a, y) ∈ L ->
  a <> bp /\ (a + HSZ * y <= bp \/ bp + HSZ * z <= a).
Proof.
  intros Hc Hl Hin. destruct (lo_range _ _ _ _ Hl) as [H1 H2]. pose proof (lo_size _ _ _ _ Hl).
  destruct (c_elem _ _ Hc _ _ Hin) as [[-> ->]|(Hy & Ha & _)]; [unfold HSZ in *; lia|].
  assert (forall x, bp <= x < bp + HSZ * z -> a <= x < a + HSZ * y -> False) as Hx.
  { intros x Hx1 Hx2. apply (lo_apart _ _ _ _ Hl x); [done|]. by exists (a, y). }
  pose proof (Hx bp). pose proof (Hx a). unfold HSZ in *. lia.
Qed.

(** The free list after [free], for a block at its place. *)
Definition joined (z bp p zp : Z) P Q : list block :=
  let '(z1, Q1) := join z bp Q in
  if p + HSZ * zp =? bp then P ++ (p, zp + z1) :: Q1 else P ++ (p, zp) :: (bp, z1) :: Q1.

Lemma cover_app P Q x : cover (P ++ Q) x <-> cover P x \/ cover Q x.
Proof. unfold cover. setoid_rewrite elem_of_app. naive_solver. Qed.
Lemma cover_cons b Q x : cover (b :: Q) x <-> inb x b \/ cover Q x.
Proof. unfold cover. setoid_rewrite elem_of_cons. naive_solver. Qed.

Section Place.
Context s P p zp Q bp z (Hc : circ s (P ++ (p, zp) :: Q)) (Hl : loose s (P ++ (p, zp) :: Q) bp z)
  (Hp : p < bp) (HQ : forall x, x ∈ Q -> bp < x.1).

Lemma place_left : p + HSZ * zp <= bp.
Proof. destruct (loose_apart _ _ _ _ p zp Hc Hl) as [? [?|?]]; [set_solver|done|]. destruct Hl. unfold HSZ in *. lia. Qed.
Lemma place_right x : x ∈ Q -> 1 <= x.2 /\ bp + HSZ * z <= x.1 /\ x.1 + HSZ * x.2 <= p_sz s /\ hstart <= x.1.
Proof.
  intros Hx. destruct x as [a y]. pose proof (HQ _ Hx) as Hb. cbn in *.
  destruct (loose_apart _ _ _ _ a y Hc Hl) as [? Ha]; [set_solver|].
  destruct (c_elem _ _ Hc a y) as [[-> ->]|?]; [set_solver| |unfold HSZ in *; lia].
  destruct (lo_range _ _ _ _ Hl). unfold HSZ in *. lia.
Qed.
Lemma place_sorted : StronglySorted before P /\ StronglySorted before Q /\
  (forall x, x ∈ P -> before x (p, zp)) /\ (forall x, x ∈ Q -> before (p, zp) x) /\ (forall x, x ∈ P -> before x (bp, 0)).
Proof.
  pose proof (c_sort _ _ Hc) as Hs. apply before_app in Hs as (H1 & H2 & [H3 H4]%StronglySorted_cons).
  rewrite Forall_forall in H3. split; [done|]. split; [done|]. split; [intros x Hx; apply H1; [done|left]|]. split; [done|].
  intros x Hx. pose proof (H1 x (p, zp) Hx ltac:(left)) as Hb. unfold before in *. cbn [fst snd] in *. lia.
Qed.

Lemma joined_sorted : StronglySorted before (joined z bp p zp P Q).
Proof.
  destruct place_sorted as (H1 & H2 & H3 & H4 & H5). unfold joined. destruct (join z bp Q) as [z1 Q1] eqn:E.
  destruct (join_spec _ _ _ _ _ E (lo_size _ _ _ _ Hl) H2) as (J1 & J2 & J3 & J4 & J5 & J6).
  { intros x Hx. pose proof (place_right x Hx). tauto. }
  pose proof place_left as Hpl. pose proof (lo_size _ _ _ _ Hl).
  destruct (p + HSZ * zp =? bp) eqn:Ep; bool_to_prop.
  - apply before_app. split.
    + intros x y Hx [->|Hy]%elem_of_cons; [by apply H3|].
      destruct (J1 y Hy) as [_ Hy']. pose proof (H5 x Hx). unfold before, HSZ in *. cbn [fst snd] in *. lia.
    + split; [done|]. apply StronglySorted_cons. split; [|done]. apply Forall_forall. intros y Hy.
      destruct (J1 y Hy) as [_ Hy']. unfold before, HSZ in *. cbn [fst snd]. lia.
  - apply before_app. split.
    + intros x y Hx [->|[->|Hy]%elem_of_cons]%elem_of_cons; [by apply H3|by apply H5|].
      destruct (J1 y Hy) as [Hy1 Hy']. pose proof (H5 x Hx). unfold before, HSZ in *. cbn [fst snd] in *. lia.
    + split; [done|]. apply StronglySorted_cons. split.
      * apply Forall_cons. split; [unfold before; cbn [fst snd]; lia|]. apply Forall_forall. intros y Hy.
        apply H4. by apply J1.
      * apply StronglySorted_cons. split; [|done]. apply Forall_forall. intros y Hy. by apply J1.
Qed.

Lemma joined_cover x : cover (joined z bp p zp P Q) x <-> cover (P ++ (p, zp) :: Q) x \/ inb x (bp, z).
Proof.
  destruct place_sorted as (H1 & H2 & H3 & H4 & H5). unfold joined. destruct (join z bp Q) as [z1 Q1] eqn:E.
  destruct (join_spec _ _ _ _ _ E (lo_size _ _ _ _ Hl) H2) as (J1 & J2 & J3 & J4 & J5 & J6).
  { intros y Hy. pose proof (place_right y Hy). tauto. }
  pose proof (lo_size _ _ _ _ Hl). pose proof (circ_nonneg _ _ p zp Hc ltac:(set_solver)).
  destruct (p + HSZ * zp =? bp) eqn:Ep; bool_to_prop; rewrite !cover_app, !cover_cons; specialize (J5 x).
  - assert (inb x (p, zp + z1) <-> inb x (p, zp) \/ inb x (bp, z1)) as ->
      by (unfold inb, HSZ in *; cbn [fst snd]; lia). tauto.
  - tauto.
Qed.

Lemma joined_total : total snd (joined z bp p zp P Q) = total snd (P ++ (p, zp) :: Q) + z.
Proof.
  destruct place_sorted as (H1 & H2 & H3 & H4 & H5). unfold joined. destruct (join z bp Q) as [z1 Q1] eqn:E.
  destruct (join_spec _ _ _ _ _ E (lo_size _ _ _ _ Hl) H2) as (J1 & J2 & J3 & J4 & J5 & J6).
  { intros x Hx. pose proof (place_right x Hx). tauto. }
  destruct (p + HSZ * zp =? bp); rewrite !total_app; cbn; lia.
Qed.

Definition relinked (h : gmap Z header) : gmap Z header :=
  let '(z1, Q1) := join z bp Q in
  let h1 := <[bp := Header (nxt Q1 base) z1]> h in
  if p + HSZ * zp =? bp then <[p := Header (nxt Q1 base) (zp + z1)]> h1 else <[p := Header bp zp]> h1.

Lemma joined_linked : linked (relinked (h_hdr s)) (joined z bp p zp P Q) base.
Proof.
  destruct place_sorted as (H1 & H2 & H3 & H4 & H5). unfold joined, relinked. destruct (join z bp Q) as [z1 Q1] eqn:E.
  destruct (join_spec _ _ _ _ _ E (lo_size _ _ _ _ Hl) H2) as (J1 & J2 & J3 & J4 & J5 & J6).
  { intros x Hx. pose proof (place_right x Hx). tauto. }
  pose proof (circ_nonneg _ _ p zp Hc ltac:(set_solver)) as Hz. pose proof (lo_size _ _ _ _ Hl) as Hz'.
  assert (forall a y, (a, y) ∈ P -> a <> p /\ a <> bp) as HP.
  { intros a y Ha. pose proof (circ_nonneg _ _ a y Hc ltac:(set_solver)). pose proof (H3 _ Ha) as Hb.
    unfold before, HSZ in Hb. cbn in Hb. lia. }
  assert (forall a y, (a, y) ∈ Q1 -> a <> p /\ a <> bp) as HQ1.
  { intros a y Ha. destruct (J1 _ Ha) as [_ Hb]. unfold HSZ in Hb. cbn in Hb. lia. }
  pose proof (c_link _ _ Hc) as Hk. apply linked_app in Hk as [HkP [Hkp HkQ]]. cbn [nxt] in HkP.
  assert (linked (h_hdr s) Q1 base) as HkQ1.
  { destruct Q as [|[n zn] Q']; [by injection E as <- <-|]. cbn [join] in E. destruct (_ =? n); injection E as <- <-; [|done].
    by destruct HkQ. }
  destruct (p + HSZ * zp =? bp) eqn:Ep; apply linked_app; cbn [nxt linked].
  - split; [|split; [by rewrite lookup_insert_eq|]]; (apply (linked_frame (h_hdr s)); [|done]); intros a y Ha;
      [destruct (HP _ _ Ha)|destruct (HQ1 _ _ Ha)]; by rewrite !lookup_insert_ne.
  - split; [|split; [by rewrite lookup_insert_eq|split; [rewrite lookup_insert_ne by lia; by rewrite lookup_insert_eq|]]];
      (apply (linked_frame (h_hdr s)); [|done]); intros a y Ha; [destruct (HP _ _ Ha)|destruct (HQ1 _ _ Ha)]; by rewrite !lookup_insert_ne.
Qed.

Lemma joined_circ : circ (Heap (relinked (h_hdr s)) p (p_sz s)) (joined z bp p zp P Q).
Proof.
  destruct place_sorted as (H1 & H2 & H3 & H4 & H5).
  pose proof (lo_size _ _ _ _ Hl) as Hz'. destruct (lo_range _ _ _ _ Hl) as [Hr1 Hr2]. pose proof place_left as Hpl.
  split; cbn [h_hdr freep p_sz].
  - unfold joined. destruct (join z bp Q) as [z1 Q1]. destruct (c_base _ _ Hc) as [L0 E0]. destruct P as [|x P']; cbn in E0.
    + injection E0 as -> -> ->. rewrite (proj2 (Z.eqb_neq _ _)) by (unfold HSZ in *; lia). by eexists.
    + injection E0 as -> _. destruct (_ =? bp); by eexists.
  - apply joined_linked.
  - apply joined_sorted.
  - intros a y Ha. unfold joined in Ha. destruct (join z bp Q) as [z1 Q1] eqn:E.
    destruct (join_spec _ _ _ _ _ E Hz' H2) as (J1 & J2 & J3 & J4 & J5 & J6).
    { intros x Hx. pose proof (place_right x Hx). tauto. }
    assert (bp + HSZ * z1 <= p_sz s) as Hm.
    { destruct J6 as [->|(n & zn & Hn & ->)]; [done|]. by apply (place_right _ Hn). }
    assert (forall x, x ∈ P \/ x = (p, zp) \/ x ∈ Q1 -> x ∈ P ++ (p, zp) :: Q) as Hin.
    { intros x [Hx|[->|Hx]]; [set_solver|set_solver|]. destruct (J1 _ Hx). set_solver. }
    destruct (p + HSZ * zp =? bp) eqn:Ep; bool_to_prop;
      apply elem_of_app in Ha as [Ha|[Ha|Ha]%elem_of_cons]; try (apply (c_elem _ _ Hc); apply Hin; auto; fail).
    + injection Ha as -> ->. right. destruct (c_elem _ _ Hc p zp ltac:(apply Hin; auto)) as [[-> ->]|?]; unfold HSZ in *; lia.
    + apply elem_of_cons in Ha as [Ha|Ha]; [injection Ha as -> ->; right; unfold HSZ in *; lia|].
      apply (c_elem _ _ Hc); apply Hin; auto.
  - unfold joined. destruct (join z bp Q) as [z1 Q1]. destruct (_ =? bp); eexists; apply elem_of_app; right; left.
  - rewrite joined_total. apply Hl.
  - apply Hc.
Qed.

Lemma joined_fits : exists b, b ∈ joined z bp p zp P Q /\ z <= b.2.
Proof.
  destruct place_sorted as (H1 & H2 & H3 & H4 & H5). unfold joined. destruct (join z bp Q) as [z1 Q1] eqn:E.
  destruct (join_spec _ _ _ _ _ E (lo_size _ _ _ _ Hl) H2) as (J1 & J2 & J3 & J4 & J5 & J6).
  { intros x Hx. pose proof (place_right x Hx). tauto. }
  pose proof (circ_nonneg _ _ p zp Hc ltac:(set_solver)).
  destruct (_ =? bp); [exists (p, zp + z1)|exists (bp, z1)]; (split; [set_solver|cbn; lia]).
Qed.
End Place.

(** [free] puts the block on the list, joined with its neighbours. *)
Record freed s L bp z s' L' : Prop := Freed {
  fd_circ : circ s' L';
  fd_sz : p_sz s' = p_sz s;
  fd_cover : forall x, cover L' x <-> cover L x \/ inb x (bp, z);
  fd_total : total snd L' = total snd L + z;
  fd_frame : forall a, hstart <= a -> ~ cover L a -> a <> bp -> h_hdr s' !! a = h_hdr s !! a;
  fd_fits : exists b, b ∈ L' /\ z <= b.2
}.

Lemma ufree_wp s L bp z : circ s L -> loose s L bp z ->
  wp (free (bp + HSZ)) s (fun _ s' => exists L', freed s L bp z s' L').
Proof.
  intros Hc Hl. pose proof (lo_size _ _ _ _ Hl) as Hz. destruct (lo_range _ _ _ _ Hl) as [Hr1 Hr2].
  destruct (lo_hdr _ _ _ _ Hl) as [w Hw].
  assert (exists P p zp Q, L = P ++ (p, zp) :: Q /\ p < bp /\ forall x, x ∈ Q -> bp < x.1) as (P & p & zp & Q & -> & Hp & HQ).
  { destruct (c_base _ _ Hc) as [L0 ->]. destruct (find_place L0 (base, 0) bp) as (P & [p zp] & Q & E & Hp & HQ).
    - apply Hc.
    - apply Forall_forall. intros [a y] Ha. apply (circ_nonneg _ _ _ _ Hc) in Ha as [? _]. done.
    - cbn. unfold HSZ in *. lia.
    - intros [a y] Ha. exact (proj1 (loose_apart _ _ _ _ _ _ Hc Hl Ha)).
    - by exists P, p, zp, Q. }
  unfold free. replace (bp + HSZ - HSZ) with bp by lia. wp_step. wp_step. wp_step.
  assert ((P ++ (p, zp) :: Q) !! length P = Some (p, zp)) as HPp by (by apply list_lookup_middle).
  eapply wp_mono; [apply (uwalk_wp s _ (length P) p zp bp Hc HPp Hp)|].
  { intros k b y Hk Hb. apply (HQ (b, y)). rewrite lookup_app_r in Hb by lia.
    destruct (k - length P)%nat as [|k'] eqn:Ek; [lia|]. cbn in Hb. by eapply list_elem_of_lookup_2. }
  intros q s' [-> ->]. wp_step. unfold get_size at 1. wp_step. unfold hat. rewrite Hw. cbn [default size from_option id].
  wp_step. unfold get_ptr at 1. wp_step.
  rewrite (circ_next s _ (length P) p zp Hc HPp). cbn [ptr].
  replace (drop (S (length P)) (P ++ (p, zp) :: Q)) with Q
    by (rewrite drop_app, drop_ge by lia; by replace (S (length P) - length P)%nat with 1%nat by lia).
  pose proof (c_link _ _ Hc) as Hk. apply linked_app in Hk as [_ [Hkp HkQ]].
  wp_step. eapply merge_right_wp; [done|done| | |done| |].
  { intros x Hx. apply HQ in Hx. lia. }
  { unfold HSZ in *; lia. }
  { apply Forall_forall. intros x Hx. pose proof (place_right _ _ _ _ _ _ _ Hc Hl Hp HQ x Hx).
    pose proof (c_max _ _ Hc). unfold HEAPMAX, PHYSTOP, HSZ in *. lia. }
  intros z1 Q1 EJ.
  assert (0 <= zp + z1 < 2 ^ 32) as Hsm.
  { pose proof (joined_circ _ _ _ _ _ _ _ Hc Hl Hp HQ) as Hc'. pose proof (circ_nonneg _ _ p zp Hc ltac:(set_solver)).
    pose proof (c_elem _ _ Hc' bp z1) as H1. pose proof (c_elem _ _ Hc' p (zp + z1)) as H2.
    pose proof (place_left _ _ _ _ _ _ _ Hc Hl Hp HQ) as Hpl. pose proof (c_max _ _ Hc). unfold joined in *. rewrite EJ in *.
    cbn [p_sz] in *. destruct (p + HSZ * zp =? bp); bool_to_prop.
    - destruct H2 as [H2|H2]; [set_solver|lia|]. unfold HEAPMAX, PHYSTOP, KERNBASE, HSZ in *. lia.
    - destruct H1 as [H1|H1]; [set_solver|unfold HSZ in *; lia|]. unfold HEAPMAX, PHYSTOP, KERNBASE, HSZ in *. lia. }
  assert (forall s', s' = Heap (relinked p zp Q bp z (h_hdr s)) p (p_sz s) ->
    exists L', freed s (P ++ (p, zp) :: Q) bp z s' L') as HR.
  { intros s' ->. exists (joined z bp p zp P Q). split.
    - by apply joined_circ.
    - done.
    - intros x. by eapply joined_cover.
    - by eapply joined_total.
    - intros a Ha Hn Hne. cbn [h_hdr]. assert (a <> p) as Hap.
      { intros ->. destruct (c_elem _ _ Hc p zp ltac:(set_solver)) as [[-> ->]|?]; [unfold HSZ in *; lia|].
        apply Hn. exists (p, zp). split; [set_solver|]. unfold inb, HSZ. cbn. lia. }
      unfold relinked. rewrite EJ. destruct (_ =? bp); by rewrite !lookup_insert_ne.
    - by eapply joined_fits. }
  unfold get_size, get_ptr, set_size, set_ptr, set_freep, set_hdr, get_size, get_ptr, hat.
  unfold relinked in HR. rewrite EJ in HR. wp_step. wp_step. wp_step. cbn [h_hdr freep p_sz].
  rewrite lookup_insert_ne, Hkp by lia. cbn [size default from_option id].
  destruct (p + HSZ * zp =? bp) eqn:Ep; repeat (wp_step; cbn [h_hdr freep p_sz]); apply HR; f_equal.
  - rewrite !(lookup_insert_ne _ p bp), !lookup_insert_eq by lia. cbn. rewrite insert_insert_eq. unfold u32. by rewrite Z.mod_small by lia.
  - rewrite !(lookup_insert_ne _ bp p), Hkp by lia. done.
Qed.
End Spec.
