(* ===== verification/UmallocClaims.v ===== *)
(** * Correctness of malloc and free

    The allocator under any sequence of calls: [malloc] finds a block when there
    is one, otherwise asks the kernel for memory, and ends in every case. *)

From stdpp Require Import sorting.
From S2P Require Import Prelude Riscv Umalloc UmallocSpec.

Section Claims.
Context (base hstart : Z) (Hbase : 0 < base) (Hstart : base + HSZ <= hstart).
Implicit Types (s : heap) (L P Q : list block) (A : gmap Z Z).
#[local] Abbreviation circ := (circ base hstart).
#[local] Abbreviation loose := (loose hstart).

Lemma circ_total_nonneg s L : circ s L -> 0 <= total snd L.
Proof.
  intros Hc. assert (forall x, x ∈ L -> 0 <= x.2) as Hn.
  { intros [a z] Hx. by apply (circ_nonneg base hstart Hstart _ _ _ _ Hc) in Hx as [? _]. }
  clear -Hn. induction L as [|x L IH]; [done|]. cbn. pose proof (Hn x ltac:(left)).
  assert (0 <= total snd L) by (apply IH; intros; apply Hn; by right). lia.
Qed.

Lemma circ_top s L a z : circ s L -> (a, z) ∈ L -> a < p_sz s.
Proof.
  intros Hc Ha. pose proof (circ_total_nonneg _ _ Hc). pose proof (c_sum _ _ _ _ Hc).
  destruct (c_elem _ _ _ _ Hc _ _ Ha) as [[-> ->]|?]; unfold HSZ in *; lia.
Qed.

Lemma circ_frame s s' L : circ s L -> freep s' = freep s -> p_sz s <= p_sz s' <= HEAPMAX ->
  (forall a z, (a, z) ∈ L -> h_hdr s' !! a = h_hdr s !! a) -> circ s' L.
Proof.
  intros [] Hf Hsz Hh. split; [done| |done| | |lia|lia].
  - by eapply linked_frame.
  - intros a z Ha. destruct (c_elem a z Ha) as [?|?]; [by left|right; lia].
  - by rewrite Hf.
Qed.

(** ** morecore *)

Record grown s L nu s' L' : Prop := Grown {
  gr_circ : circ s' L';
  gr_size : exists k, nu <= k /\ p_sz s' = p_sz s + HSZ * k /\ total snd L' = total snd L + k /\
    forall x, cover L' x <-> cover L x \/ inb x (p_sz s, k);
  gr_frame : forall a, hstart <= a < p_sz s -> ~ cover L a -> h_hdr s' !! a = h_hdr s !! a;
  gr_fits : exists b, b ∈ L' /\ nu <= b.2
}.

Lemma morecore_wp s L ok nu : phys ok -> circ s L -> 1 <= nu -> HSZ * nu < 2 ^ 31 ->
  wp (morecore ok nu) s (fun r s' => (r = 0 /\ s' = s) \/
    (r = freep s' /\ r <> 0 /\ exists L', grown s L nu s' L')).
Proof.
  intros Hok Hc Hnu Hsm. unfold morecore, sbrk, growproc. set (k := if nu <? 4096 then 4096 else nu).
  assert (nu <= k /\ 4096 <= k /\ HSZ * k < 2 ^ 31) as (Hk1 & Hk2 & Hk3) by (unfold k, HSZ in *; destruct (Z.ltb_spec nu 4096); lia).
  assert (i32 (u64 (k * HSZ)) = HSZ * k) as ->.
  { unfold i32, sgn, u64, HSZ in *. rewrite (Z.mod_small _ (2 ^ 64)) by lia.
    rewrite Z.mod_small by lia. destruct (Z.ltb_spec (k * 16) (2 ^ (32 - 1))); lia. }
  pose proof (circ_total_nonneg _ _ Hc) as Ht. pose proof (c_sum _ _ _ _ Hc) as Hs. pose proof (c_max _ _ _ _ Hc) as Hm.
  assert (u64 (p_sz s + HSZ * k) = p_sz s + HSZ * k) as Hu.
  { unfold u64, HEAPMAX, PHYSTOP, HSZ in *. rewrite Z.mod_small; lia. }
  do 6 wp_step. rewrite (proj2 (Z.gtb_lt (HSZ * k) 0)) by (unfold HSZ in *; lia). rewrite Hu.
  assert (0 < p_sz s) as Hpos by (unfold HSZ in *; lia).
  unfold alloc_sz. rewrite (proj2 (Z.ltb_ge _ _)) by (unfold HSZ in *; lia).
  destruct (ok (p_sz s + HSZ * k)) eqn:Ek; [|cbn [Z.eqb]; wp_step; cbv iota; wp_step; wp_step; by left].
  apply Hok in Ek. rewrite (proj2 (Z.eqb_neq _ 0)) by (unfold HSZ in *; lia).
  unfold set_sz. do 4 wp_step. cbv iota. wp_step.
  unfold set_size, get_ptr, set_hdr. repeat wp_step.
  cbn [h_hdr freep p_sz]. set (w := ptr _). set (s2 := Heap (<[p_sz s := Header w k]> (h_hdr s)) (freep s) (p_sz s + HSZ * k)).
  assert (circ s2 L) as Hc2.
  { eapply (circ_frame s); [done|done|unfold s2, HSZ in *; cbn; lia|]. intros a z Ha.
    pose proof (circ_top _ _ _ _ Hc Ha). unfold s2. cbn. by rewrite lookup_insert_ne by lia. }
  assert (loose s2 L (p_sz s) k) as Hl.
  { split; unfold s2; cbn [h_hdr freep p_sz].
    - exists w. by rewrite lookup_insert_eq.
    - lia.
    - unfold HSZ in *; lia.
    - intros x Hx ([a z] & Ha & Hz). pose proof (circ_top _ _ _ _ Hc Ha).
      destruct (c_elem _ _ _ _ Hc _ _ Ha) as [[-> ->]|?]; unfold inb, HSZ in *; cbn [fst snd] in *; lia.
    - unfold HSZ in *. lia. }
  eapply wp_mono; [by apply (ufree_wp base hstart Hbase Hstart _ _ _ _ Hc2 Hl)|]. intros [] s' [L' []]. wp_step.
  right. split; [done|]. destruct (c_free _ _ _ _ fd_circ) as [zf Hf].
  split; [apply (circ_nonneg base hstart Hstart _ _ _ _ fd_circ) in Hf; lia|].
  exists L'. split; [done| | |].
  - exists k. split; [done|]. done.
  - intros a Ha Hn. rewrite fd_frame; [|lia|done|lia]. cbn. by rewrite lookup_insert_ne by lia.
  - destruct fd_fits as (b & ? & ?). exists b. split; [done|lia].
Qed.

(** ** Taking a block *)

Record taken s L b nu s' L' : Prop := Taken {
  tk_circ : circ s' L';
  tk_sz : p_sz s' = p_sz s;
  tk_low : hstart <= b /\ b + HSZ * nu <= p_sz s;
  tk_cover : forall x, cover L x <-> cover L' x \/ inb x (b, nu);
  tk_apart : forall x, inb x (b, nu) -> ~ cover L' x;
  tk_total : total snd L = total snd L' + nu;
  tk_hdr : exists w, h_hdr s' !! b = Some (Header w nu);
  tk_frame : forall a, hstart <= a -> ~ cover L a -> h_hdr s' !! a = h_hdr s !! a
}.

Section Carve.
Context s P q zq p z Q nu (Hc : circ s (P ++ (q, zq) :: (p, z) :: Q)) (Hnu : 1 <= nu <= z).

Lemma carve_facts : StronglySorted before P /\ StronglySorted before Q /\
  (forall x, x ∈ P -> before x (q, zq) /\ before x (p, z)) /\ before (q, zq) (p, z) /\
  (forall x, x ∈ Q -> before (q, zq) x /\ before (p, z) x) /\ (forall x y, x ∈ P -> y ∈ Q -> before x y) /\
  hstart <= p /\ p + HSZ * z <= p_sz s /\ 0 <= zq.
Proof.
  pose proof (c_sort _ _ _ _ Hc) as Hs. apply before_app in Hs as (H1 & H2 & [H3 [H4 H5]%StronglySorted_cons]%StronglySorted_cons).
  apply Forall_cons in H3 as [H3 H3']. rewrite Forall_forall in H3', H4.
  pose proof (circ_nonneg base hstart Hstart _ _ q zq Hc ltac:(set_solver)).
  destruct (c_elem _ _ _ _ Hc p z ltac:(set_solver)) as [[-> ->]|?]; [lia|].
  repeat split; try done; try (intros; apply H1; set_solver); try lia; auto.
Qed.

Lemma carve_frame a : hstart <= a -> ~ cover (P ++ (q, zq) :: (p, z) :: Q) a -> a <> q /\ a <> p.
Proof.
  intros Ha Hn. split; intros ->; apply Hn.
  - destruct (c_elem _ _ _ _ Hc q zq ltac:(set_solver)) as [[-> ->]|?]; [unfold HSZ in *; lia|].
    exists (q, zq). split; [set_solver|]. unfold inb, HSZ. cbn. lia.
  - exists (p, z). split; [set_solver|]. unfold inb, HSZ. cbn. lia.
Qed.

Lemma carve_apart x : inb x (p, z) -> ~ cover (P ++ (q, zq) :: Q) x.
Proof.
  destruct carve_facts as (_ & _ & F1 & F2 & F3 & _). rewrite cover_app, cover_cons.
  intros Hx [(b & Hb & Hx')|[Hx'|(b & Hb & Hx')]].
  - destruct (F1 _ Hb) as [_ F]. unfold before, inb, HSZ in *. cbn [fst snd] in *. lia.
  - unfold before, inb, HSZ in *. cbn [fst snd] in *. lia.
  - destruct (F3 _ Hb) as [_ F]. unfold before, inb, HSZ in *. cbn [fst snd] in *. lia.
Qed.

(** The block has exactly the size asked for. *)
Lemma carve_exact : z = nu ->
  taken s (P ++ (q, zq) :: (p, z) :: Q) p nu
    (Heap (<[q := Header (nxt Q base) zq]> (h_hdr s)) q (p_sz s)) (P ++ (q, zq) :: Q).
Proof.
  intros Ez. rewrite <- Ez. destruct carve_facts as (F1 & F2 & F3 & F4 & F5 & F6 & F7 & F8 & F9).
  pose proof (c_link _ _ _ _ Hc) as Hk. apply linked_app in Hk as (K1 & K2 & K3 & K4). cbn [nxt] in *.
  assert (q < p) by (unfold before, HSZ in F4; cbn in F4; lia).
  split; cbn [h_hdr freep p_sz]; [split; cbn [h_hdr freep p_sz]|..].
  - destruct (c_base _ _ _ _ Hc) as [L0 E]. destruct P as [|x P']; cbn in E; injection E as ->; [|by eexists].
    by subst; eexists.
  - apply linked_app. cbn [nxt linked]. split; [|split; [by rewrite lookup_insert_eq|]].
    + eapply linked_frame; [|exact K1]. intros a y Ha. destruct (F3 _ Ha) as [F _].
      pose proof (circ_nonneg base hstart Hstart _ _ a y Hc ltac:(set_solver)).
      rewrite lookup_insert_ne; [done|]. unfold before, HSZ in F. cbn in F. lia.
    + eapply linked_frame; [|exact K4]. intros a y Ha. destruct (F5 _ Ha) as [F _].
      rewrite lookup_insert_ne; [done|]. unfold before, HSZ in F. cbn in F. lia.
  - apply before_app. split; [|split; [done|]].
    + intros x y Hx [->|Hy]%elem_of_cons; [by apply F3|by apply F6].
    + apply StronglySorted_cons. split; [|done]. apply Forall_forall. intros y Hy. by apply F5.
  - intros a y Ha. apply (c_elem _ _ _ _ Hc). set_solver.
  - exists zq. set_solver.
  - pose proof (c_sum _ _ _ _ Hc) as H0. rewrite total_app in *. cbn in *. unfold HSZ in *. lia.
  - apply Hc.
  - done.
  - done.
  - intros x. rewrite !cover_app, !cover_cons. tauto.
  - intros x Hx. by apply carve_apart.
  - rewrite !total_app. cbn. lia.
  - exists (nxt Q base). rewrite lookup_insert_ne by lia. done.
  - intros a Ha Hn. destruct (carve_frame a Ha Hn). by rewrite lookup_insert_ne.
Qed.

(** The end of a larger block is cut off. *)
Lemma carve_tail w : nu < z ->
  taken s (P ++ (q, zq) :: (p, z) :: Q) (p + HSZ * (z - nu)) nu
    (Heap (<[p + HSZ * (z - nu) := Header w nu]> (<[p := Header (nxt Q base) (z - nu)]> (h_hdr s))) q (p_sz s))
    (P ++ (q, zq) :: (p, z - nu) :: Q).
Proof.
  intros Hlt. destruct carve_facts as (F1 & F2 & F3 & F4 & F5 & F6 & F7 & F8 & F9).
  pose proof (c_link _ _ _ _ Hc) as Hk. apply linked_app in Hk as (K1 & K2 & K3 & K4). cbn [nxt] in *.
  set (b := p + HSZ * (z - nu)). assert (p < b < p + HSZ * z) as Hb by (unfold b, HSZ; lia).
  assert (q < p) by (unfold before, HSZ in F4; cbn in F4; lia).
  split; cbn [h_hdr freep p_sz]; [split; cbn [h_hdr freep p_sz]|..].
  - destruct (c_base _ _ _ _ Hc) as [L0 E]. destruct P as [|x P']; cbn in E; injection E as ->; [|by eexists].
    by subst; eexists.
  - apply linked_app. cbn [nxt linked]. rewrite !(lookup_insert_ne _ b) by lia. rewrite lookup_insert_eq, lookup_insert_ne by lia.
    split; [|split; [done|split; [done|]]].
    + eapply linked_frame; [|exact K1]. intros a y Ha. destruct (F3 _ Ha) as [_ F].
      pose proof (circ_nonneg base hstart Hstart _ _ a y Hc ltac:(set_solver)). unfold before, HSZ in F. cbn in F.
      by rewrite !lookup_insert_ne by lia.
    + eapply linked_frame; [|exact K4]. intros a y Ha. destruct (F5 _ Ha) as [_ F]. unfold before in F. cbn in F.
      by rewrite !lookup_insert_ne by lia.
  - apply before_app. split; [|split; [done|]].
    + intros x y Hx [->|[->|Hy]%elem_of_cons]%elem_of_cons; [by apply F3| |by apply F6]. by destruct (F3 _ Hx).
    + apply StronglySorted_cons. split; [apply Forall_cons; split; [done|]; apply Forall_forall; intros y Hy; by apply F5|].
      apply StronglySorted_cons. split; [|done]. apply Forall_forall. intros y Hy. destruct (F5 _ Hy) as [_ F].
      unfold before, HSZ in *. cbn [fst snd] in *. lia.
  - intros a y [Ha|[Ha|[Ha|Ha]%elem_of_cons]%elem_of_cons]%elem_of_app; try (apply (c_elem _ _ _ _ Hc); set_solver).
    injection Ha as -> ->. right. unfold HSZ in *. lia.
  - exists zq. set_solver.
  - pose proof (c_sum _ _ _ _ Hc) as H0. rewrite total_app in *. cbn in *. unfold HSZ in *. lia.
  - apply Hc.
  - done.
  - unfold b, HSZ in *. lia.
  - intros x. rewrite !cover_app, !cover_cons.
    assert (inb x (p, z) <-> inb x (p, z - nu) \/ inb x (b, nu)) as ->; [|tauto].
    unfold inb, b, HSZ in *. cbn [fst snd]. lia.
  - intros x Hx Hco. apply (carve_apart x); [unfold inb, b, HSZ in *; cbn [fst snd] in *; lia|].
    rewrite !cover_app, !cover_cons in *. destruct Hco as [?|[?|[Hx'|?]]]; [tauto|tauto| |tauto].
    unfold inb, b, HSZ in *. cbn [fst snd] in *. lia.
  - rewrite !total_app. cbn. lia.
  - exists w. by rewrite lookup_insert_eq.
  - intros a Ha Hn. destruct (carve_frame a Ha Hn). rewrite !lookup_insert_ne; [done|done|]. intros <-. apply Hn.
    exists (p, z). split; [set_solver|]. unfold inb. cbn. lia.
Qed.
End Carve.

Lemma hat_set h m f z a : hat (Heap (<[a := h]> m) f z) a = h.
Proof. unfold hat. cbn. by rewrite lookup_insert_eq. Qed.

Lemma carve_wp s L i q zq p z nu : circ s L -> L !! i = Some (q, zq) -> L !! S i = Some (p, z) -> 1 <= nu <= z ->
  wp (b ← carve nu q p; set_freep q;; mret (inr (b + HSZ) : Z * Z + Z)) s (fun r s' =>
    exists b L', r = inr (b + HSZ) /\ taken s L b nu s' L').
Proof.
  intros Hc Hi Hp Hnu. pose proof (circ_next _ _ _ _ _ _ _ Hc Hi) as Eq. pose proof (circ_next _ _ _ _ _ _ _ Hc Hp) as Ep.
  assert (L = take i L ++ (q, zq) :: (p, z) :: drop (S (S i)) L) as EL.
  { rewrite <- (take_drop_middle L i (q, zq) Hi) at 1. f_equal. f_equal. by apply drop_S. }
  set (P := take i L) in EL. set (Q := drop (S (S i)) L) in *.
  assert (z < 2 ^ 32) as Hz.
  { destruct (c_elem _ _ _ _ Hc p z ltac:(by eapply list_elem_of_lookup_2)) as [[_ ->]|?]; [lia|].
    pose proof (c_max _ _ _ _ Hc). unfold HEAPMAX, PHYSTOP, HSZ in *. lia. }
  clearbody P Q. subst L. unfold carve, get_size, get_ptr, set_ptr, set_size, set_freep, set_hdr, get_size, get_ptr.
  do 3 wp_step. rewrite Ep. cbn [size]. wp_step; bool_to_prop.
  - repeat wp_step. rewrite Ep, Eq. cbn [ptr size h_hdr freep p_sz]. exists p, (P ++ (q, zq) :: Q). split; [done|]. by apply carve_exact.
  - repeat wp_step. rewrite Ep. cbn [ptr size h_hdr freep p_sz]. rewrite !hat_set.
    cbn [size]. unfold u32. rewrite Z.mod_small by lia. eexists _, _. split; [done|].
    apply carve_tail; [done|lia|lia].
Qed.

(** ** malloc *)

Definition nofit L nu : Prop := forall b, b ∈ L -> b.2 < nu.

(** What [malloc] of [nu] units may do. *)
Definition got s L nu (r : Z) s' : Prop :=
  (r = 0 /\ s' = s /\ nofit L nu) \/
  exists b L', r = b + HSZ /\
    (taken s L b nu s' L' \/ exists s1 L1, nofit L nu /\ grown s L nu s1 L1 /\ taken s1 L1 b nu s' L').

(** The blocks passed when the scan that started behind [f] has come to [k]. *)
Definition passed (f k m : nat) : Prop := if decide (f < k)%nat then (f < m < k)%nat else (m < k \/ f < m)%nat.
Definition dist L (f k : nat) : nat := if decide (k <= f)%nat then (f - k)%nat else (length L - k + f)%nat.

Record scan s L nu s0 L0 (ph f i : nat) (prevp p : Z) : Prop := Scan {
  sc_circ : circ s0 L0;
  sc_free : exists z, L0 !! f = Some (freep s0, z);
  sc_prev : exists z, L0 !! i = Some (prevp, z);
  sc_p : p = nxt (drop (S i) L0) base;
  sc_passed : forall m b, passed f (nx L0 i) m -> L0 !! m = Some b -> b.2 < nu;
  sc_phase : (ph = 1%nat /\ s0 = s /\ L0 = L) \/ (ph = 0%nat /\ nofit L nu /\ grown s L nu s0 L0)
}.

Lemma nx_lt L i : (i < length L)%nat -> (nx L i < length L)%nat.
Proof. intros. unfold nx. case_decide; lia. Qed.

Lemma scan_start s L nu s0 L0 ph f z : circ s0 L0 -> L0 !! f = Some (freep s0, z) ->
  (ph = 1%nat /\ s0 = s /\ L0 = L) \/ (ph = 0%nat /\ nofit L nu /\ grown s L nu s0 L0) ->
  scan s L nu s0 L0 ph f f (freep s0) (nxt (drop (S f) L0) base).
Proof.
  intros Hc Hf Hph. split; [done|by eexists|by eexists|done| |done].
  intros m b Hm Hb. exfalso. pose proof (lookup_lt_Some _ _ _ Hf). pose proof (lookup_lt_Some _ _ _ Hb).
  unfold passed, nx in Hm. repeat case_decide; lia.
Qed.

Lemma malloc_step_wp s L ok nu s0 L0 ph f i prevp p : phys ok -> 1 <= nu -> HSZ * nu < 2 ^ 31 ->
  scan s L nu s0 L0 ph f i prevp p ->
  wp (malloc_step ok nu (prevp, p)) s0 (fun r s' =>
    match r with
    | inr r => got s L nu r s'
    | inl (q, n) => exists L1 ph1 f1 i1, scan s L nu s' L1 ph1 f1 i1 q n /\
        ((ph1 < ph)%nat \/ (ph1 = ph /\ L1 = L0 /\ dist L0 f1 (nx L0 i1) < dist L0 f (nx L0 i))%nat)
    end).
Proof.
  intros Hok Hnu Hsm [Hc [zf Hf] [zi Hi] -> Hpass Hph]. set (k := nx L0 i) in *.
  destruct (circ_nx _ _ _ _ _ _ _ Hc Hi) as [z Hk]. fold k in Hk. set (p := nxt _ _) in *.
  pose proof (circ_next _ _ _ _ _ _ _ Hc Hk) as Ek. pose proof (lookup_lt_Some _ _ _ Hf). pose proof (lookup_lt_Some _ _ _ Hk).
  unfold malloc_step, get_size, get_ptr. wp_step. wp_step. rewrite Ek. cbn [size]. wp_step; bool_to_prop.
  - assert (k = S i) as Eki.
    { unfold k, nx in *. destruct (decide _); [done|]. exfalso. destruct (c_base _ _ _ _ Hc) as [L1 ->]. injection Hk. lia. }
    unfold k in *. rewrite Eki in *. eapply wp_mono; [by apply (carve_wp _ _ _ _ _ _ _ _ Hc Hi Hk)|].
    intros r s' (b & L' & -> & Ht). right. exists b, L'. split; [done|].
    destruct Hph as [(_ & -> & ->)|(_ & Hn & Hg)]; [by left|right]. by exists s0, L0.
  - wp_step. wp_step. wp_step; bool_to_prop.
    + assert (k = f) as Ekf. { rewrite <- Heqb0 in Hf. by eapply (circ_inj base hstart Hstart). }
      assert (nofit L0 nu) as Hno.
      { intros [a y] [m Hm]%list_elem_of_lookup. destruct (decide (m = f)) as [->|Hne].
        - rewrite <- Ekf in Hm. rewrite Hk in Hm. injection Hm as <- <-. cbn. lia.
        - apply (Hpass m); [|done]. unfold passed. rewrite Ekf. rewrite decide_False by lia. lia. }
      destruct Hph as [(-> & -> & ->)|(_ & Hn & Hg)].
      2:{ exfalso. destruct (gr_fits _ _ _ _ _ Hg) as (b & Hb & Hb'). pose proof (Hno b Hb). lia. }
      wp_step. eapply wp_mono; [by apply (morecore_wp _ _ ok nu Hok Hc)|].
      intros r s' [[-> ->]|(-> & Hr & L1 & Hg)].
      * cbn. apply wp_ret. by left.
      * rewrite (proj2 (Z.eqb_neq _ _)) by done. repeat wp_step. pose proof (gr_circ _ _ _ _ _ Hg) as Hc1.
        destruct (c_free _ _ _ _ Hc1) as [z1 [f1 Hf1]%list_elem_of_lookup].
        rewrite (circ_next _ _ _ _ _ _ _ Hc1 Hf1). cbn [ptr]. exists L1, 0%nat, f1, f1. split; [|left; lia].
        eapply scan_start; [done|done|]. by right.
    + repeat wp_step. rewrite Ek. cbn [ptr]. assert (k <> f) as Hkf by (intros ->; congruence).
      exists L0, ph, f, k. split; [|right; split; [done|split; [done|]]].
      * split; [done|by eexists|by eexists|done| |done]. intros m b Hm Hb. pose proof (lookup_lt_Some _ _ _ Hb).
        destruct (decide (m = k)) as [->|Hne]; [rewrite Hk in Hb; injection Hb as <-; cbn; lia|].
        apply (Hpass m b); [|done]. unfold passed, nx in Hm |- *. repeat case_decide; lia.
      * fold k. unfold dist, nx. repeat case_decide; lia.
Qed.

Lemma malloc_loop_wp s L ok nu f z : phys ok -> 1 <= nu -> HSZ * nu < 2 ^ 31 -> circ s L -> L !! f = Some (freep s, z) ->
  wp (loop (malloc_step ok nu) (2 ^ 32) (freep s, nxt (drop (S f) L) base)) s (got s L nu).
Proof.
  intros Hok Hnu Hsm Hc Hf.
  set (V := fun n L0 (ph f i : nat) => n = (ph * Z.to_nat (2 ^ 26) + dist L0 f (nx L0 i))%nat).
  assert (forall L0 s0 f i q zq, circ s0 L0 -> L0 !! f = Some q -> L0 !! i = Some zq -> (dist L0 f (nx L0 i) < Z.to_nat (2 ^ 26))%nat) as Hd.
  { intros L0 s0 f0 i0 q zq Hc0 Hf0 Hi0. pose proof (circ_len base hstart Hbase Hstart _ _ Hc0).
    pose proof (lookup_lt_Some _ _ _ Hf0). pose proof (lookup_lt_Some _ _ _ Hi0).
    unfold dist, nx. repeat case_decide; lia. }
  apply (wp_loop _ (fun n v s0 => exists L0 ph f i, scan s L nu s0 L0 ph f i v.1 v.2 /\ V n L0 ph f i) _ _
    (Z.to_nat (2 ^ 26) + dist L f (nx L f))%nat).
  - intros n [prevp p] s0 (L0 & ph & f0 & i & Hs & HV). cbn [fst snd] in Hs.
    eapply wp_mono; [by apply (malloc_step_wp _ _ _ _ _ _ _ _ _ _ _ Hok Hnu Hsm Hs)|].
    intros [[q n']|r] s' Hr; [|done]. destruct Hr as (L1 & ph1 & f1 & i1 & Hs1 & Hlt).
    exists (ph1 * Z.to_nat (2 ^ 26) + dist L1 f1 (nx L1 i1))%nat. split; [|by exists L1, ph1, f1, i1].
    unfold V in HV. destruct (sc_free _ _ _ _ _ _ _ _ _ _ Hs1) as [z1 Hz1]. destruct (sc_prev _ _ _ _ _ _ _ _ _ _ Hs1) as [z2 Hz2].
    pose proof (Hd _ _ _ _ _ _ (sc_circ _ _ _ _ _ _ _ _ _ _ Hs1) Hz1 Hz2). destruct Hlt as [Hlt|(-> & -> & Hlt)]; [nia|lia].
  - exists L, 1%nat, f, f. split; [|unfold V; lia]. cbn [fst snd]. eapply scan_start; [done|done|]. by left.
  - pose proof (Hd _ _ _ _ _ _ Hc Hf Hf). lia.
Qed.

(** ** Programs that use the allocator *)

Definition asum A : Z := map_fold (fun _ z acc => z + acc) 0 A.
Lemma asum_insert A b z : A !! b = None -> asum (<[b := z]> A) = asum A + z.
Proof. intros. unfold asum. rewrite map_fold_insert_L by (done || lia). lia. Qed.
Lemma asum_delete A b z : A !! b = Some z -> asum (delete b A) = asum A - z.
Proof.
  intros Hb. pose proof (asum_insert (delete b A) b z (lookup_delete_eq _ _)) as E.
  rewrite insert_delete_id in E by done. lia.
Qed.

Lemma asum_nonneg A : (forall b z, A !! b = Some z -> 0 <= z) -> 0 <= asum A.
Proof.
  induction A as [|b z A Hb IH] using map_ind; [done|]. intros H. rewrite asum_insert by done.
  pose proof (H b z ltac:(by rewrite lookup_insert_eq)).
  assert (0 <= asum A); [|lia]. apply IH. intros c y Hc. apply (H c y). rewrite lookup_insert_ne; [done|]. congruence.
Qed.

(** The allocated blocks (address of the header, units) and the free list. *)
Record owned s A L : Prop := Owned {
  ow_block : forall b z, A !! b = Some z -> 1 <= z /\ hstart <= b /\ b + HSZ * z <= p_sz s /\
    (exists w, h_hdr s !! b = Some (Header w z)) /\ forall x, inb x (b, z) -> ~ cover L x;
  ow_disj : forall b z c y x, A !! b = Some z -> A !! c = Some y -> b <> c -> inb x (b, z) -> ~ inb x (c, y);
  ow_sum : hstart + HSZ * (total snd L + asum A) = p_sz s
}.

Lemma owned_head s A L b z : owned s A L -> A !! b = Some z -> inb b (b, z).
Proof. intros Ho Hb. destruct (ow_block _ _ _ Ho b z Hb) as [Hz _]. unfold inb, HSZ. cbn. lia. Qed.

Lemma owned_free s A L b z s' L' : owned s A L -> A !! b = Some z -> freed base hstart s L b z s' L' ->
  owned s' (delete b A) L'.
Proof.
  intros Ho Hb [Fc Fz Fco Ft Ff _]. split.
  - intros c y [Hne Hy]%lookup_delete_Some. destruct (ow_block _ _ _ Ho c y Hy) as (H1 & H2 & H3 & H4 & H5).
    rewrite Fz. split; [done|]. split; [done|]. split; [done|]. split.
    + rewrite Ff; [done|done| |done]. apply H5. by eapply owned_head.
    + intros x Hx [Hx'|Hx']%Fco; [by apply (H5 x)|]. by apply (ow_disj _ _ _ Ho b z c y x).
  - intros c y d w x [_ Hy]%lookup_delete_Some [_ Hw]%lookup_delete_Some. by apply (ow_disj _ _ _ Ho).
  - rewrite Fz, Ft, (asum_delete _ _ _ Hb). pose proof (ow_sum _ _ _ Ho). unfold HSZ in *. lia.
Qed.

Lemma owned_take s A L b nu s' L' : owned s A L -> 1 <= nu -> taken s L b nu s' L' ->
  A !! b = None /\ owned s' (<[b := nu]> A) L'.
Proof.
  intros Ho Hnu [Tc Tz Tl Tco Ta Tt Th Tf].
  assert (forall c y x, A !! c = Some y -> inb x (c, y) -> ~ inb x (b, nu)) as Hd.
  { intros c y x Hc Hx Hx'. destruct (ow_block _ _ _ Ho c y Hc) as (_ & _ & _ & _ & H). apply (H x Hx). apply Tco. by right. }
  assert (inb b (b, nu)) as Hbb by (unfold inb, HSZ; cbn; lia).
  assert (A !! b = None) as Hn.
  { destruct (A !! b) as [y|] eqn:E; [|done]. exfalso. apply (Hd b y b E); [by eapply owned_head|done]. }
  split; [done|]. split.
  - intros c y [[<- <-]|[Hne Hy]]%lookup_insert_Some; rewrite Tz; [tauto|].
    destruct (ow_block _ _ _ Ho c y Hy) as (H1 & H2 & H3 & H4 & H5). split; [done|]. split; [done|]. split; [done|]. split.
    + rewrite Tf; [done|done|]. apply H5. by eapply owned_head.
    + intros x Hx Hx'. apply (H5 x Hx). apply Tco. by left.
  - intros c y d w x [[<- <-]|[? Hy]]%lookup_insert_Some [[<- <-]|[? Hw]]%lookup_insert_Some Hne Hx; [done| | |].
    + intros Hx'. by apply (Hd d w x).
    + by apply (Hd c y x).
    + by apply (ow_disj _ _ _ Ho c y d w x).
  - rewrite Tz, (asum_insert _ _ _ Hn). pose proof (ow_sum _ _ _ Ho). rewrite Tt in *. unfold HSZ in *. lia.
Qed.

Lemma owned_grow s A L nu s' L' : owned s A L -> 1 <= nu -> grown s L nu s' L' -> owned s' A L'.
Proof.
  intros Ho Hnu [Gc (k & Hk & Gz & Gt & Gco) Gf _]. pose proof (circ_total_nonneg _ _ Gc) as Ht. split.
  - intros c y Hy. destruct (ow_block _ _ _ Ho c y Hy) as (H1 & H2 & H3 & H4 & H5).
    pose proof (ow_sum _ _ _ Ho). pose proof (c_sum _ _ _ _ Gc).
    split; [done|]. split; [done|]. split; [unfold HSZ in *; lia|split].
    + rewrite Gf; [done|unfold HSZ in *; lia|]. apply H5. by eapply owned_head.
    + intros x Hx [Hx'|Hx']%Gco; [by apply (H5 x)|]. unfold inb in *. cbn [fst snd] in *. lia.
  - apply Ho.
  - rewrite Gz, Gt. pose proof (ow_sum _ _ _ Ho). unfold HSZ in *. lia.
Qed.

(** The largest request: the bytes asked from the kernel fit in an [int]. *)
Definition NMAX : Z := 2 ^ 31 - 32.

Lemma nunits_spec n : 0 <= n <= NMAX -> 1 <= nunits n /\ n <= HSZ * (nunits n - 1) /\ HSZ * nunits n < 2 ^ 31.
Proof. unfold nunits, u32, NMAX, HSZ. intros Hn. rewrite Z.mod_small by dlia. dlia. Qed.

Definition ready s A : Prop :=
  (freep s = 0 /\ A = ∅ /\ p_sz s = hstart /\ hstart <= HEAPMAX) \/ exists L, circ s L /\ owned s A L.

(** The contents of a block: what is stored strictly inside it. *)
Definition same_contents s s' b z : Prop := forall a, b < a < b + HSZ * z -> h_hdr s' !! a = h_hdr s !! a.

Lemma got_owned s A L nu r s' : owned s A L -> 1 <= nu -> circ s L -> got s L nu r s' ->
  (r = 0 /\ s' = s) \/
  (r <> 0 /\ ready s' (<[r - HSZ := nu]> A) /\ A !! (r - HSZ) = None /\ hstart <= r - HSZ /\ r - HSZ + HSZ * nu <= p_sz s' /\
   (forall b z x, A !! b = Some z -> inb x (b, z) -> ~ inb x (r - HSZ, nu)) /\
   (forall b z, A !! b = Some z -> same_contents s s' b z)).
Proof.
  intros Ho Hnu Hc [(-> & -> & _)|(b & L' & -> & Ht)]; [by left|right]. replace (b + HSZ - HSZ) with b by lia.
  assert (exists s1 L1, owned s1 A L1 /\ taken s1 L1 b nu s' L' /\ forall c y, A !! c = Some y -> same_contents s s1 c y)
    as (s1 & L1 & Ho1 & Ht1 & Hs1).
  { destruct Ht as [Ht|(s1 & L1 & _ & Hg & Ht)]; [by exists s, L|]. exists s1, L1. split; [by eapply owned_grow|].
    split; [done|]. intros c y Hy a Ha. destruct (ow_block _ _ _ Ho c y Hy) as (H1 & H2 & H3 & H4 & H5).
    apply (gr_frame _ _ _ _ _ Hg); [lia|]. apply H5. unfold inb. cbn. lia. }
  destruct (owned_take _ _ _ _ _ _ _ Ho1 Hnu Ht1) as [Hn Ho2]. destruct Ht1 as [Tc Tz Tl Tco Ta Tt Th Tf].
  split; [unfold HSZ in *; lia|]. split; [right; by exists L'|]. split; [done|]. split; [tauto|]. split; [rewrite Tz; tauto|]. split.
  - intros c y x Hy Hx Hx'. apply (ow_disj _ _ _ Ho2 c y b nu x); [|by rewrite lookup_insert_eq| |done|done].
    + rewrite lookup_insert_ne; [done|]. congruence.
    + congruence.
  - intros c y Hy a Ha. destruct (ow_block _ _ _ Ho1 c y Hy) as (H1 & H2 & H3 & H4 & H5).
    rewrite Tf; [by apply (Hs1 c y)|lia|]. apply H5. unfold inb. cbn. lia.
Qed.

Lemma malloc_wp s A ok n : phys ok -> ready s A -> 0 <= n <= NMAX ->
  wp (malloc base ok n) s (fun r s' =>
    (r = 0 /\ ready s' A /\ (forall b z, A !! b = Some z -> same_contents s s' b z)) \/
    (r <> 0 /\ ready s' (<[r - HSZ := nunits n]> A) /\ A !! (r - HSZ) = None /\
     hstart <= r - HSZ /\ r - HSZ + HSZ * nunits n <= p_sz s' /\
     (forall b z x, A !! b = Some z -> inb x (b, z) -> ~ inb x (r - HSZ, nunits n)) /\
     (forall b z, A !! b = Some z -> same_contents s s' b z))).
Proof.
  intros Hok Hr Hn. destruct (nunits_spec n Hn) as (H1 & _ & H2). unfold malloc. wp_step. wp_step. wp_step.
  destruct Hr as [(Hf & -> & Hz & Hm)|(L & Hc & Ho)].
  - rewrite Hf. cbn [Z.eqb]. unfold set_hdr, set_freep, get_ptr. repeat wp_step. cbn [h_hdr freep p_sz].
    set (s1 := Heap _ _ _). assert (circ s1 [(base, 0)]) as Hc.
    { split; unfold s1; cbn [h_hdr freep p_sz].
      - by exists [].
      - cbn. by rewrite lookup_insert_eq.
      - repeat constructor.
      - intros a z [E|E]%elem_of_cons; [injection E as -> ->; by left|by apply not_elem_of_nil in E].
      - exists 0. left.
      - unfold HSZ. cbn. lia.
      - lia. }
    replace (hat s1 base) with (Header base 0) by (unfold s1; by rewrite hat_set). cbn [ptr]. eapply wp_mono; [apply (malloc_loop_wp s1 [(base, 0)] ok (nunits n) 0 0 Hok H1 H2 Hc eq_refl)|].
    intros r s' Hg. apply (got_owned s1 ∅) in Hg; [|split; [done|done|unfold s1, HSZ, asum; rewrite map_fold_empty; cbn; lia]|done|done].
    destruct Hg as [[-> ->]|(G1 & G2 & G3 & G4 & G5 & G6 & _)]; [left|right; by split_and!]. split; [done|]. split; [right; exists [(base, 0)]; split; [done|]|done].
    split; [done|done|unfold s1, HSZ, asum; rewrite map_fold_empty; cbn; lia].
  - destruct (c_free _ _ _ _ Hc) as [zf Hf]. pose proof (circ_nonneg base hstart Hstart _ _ _ _ Hc Hf).
    rewrite (proj2 (Z.eqb_neq (freep s) 0)) by lia. repeat wp_step. unfold get_ptr. wp_step.
    apply list_elem_of_lookup in Hf as [f Hf]. rewrite (circ_next _ _ _ _ _ _ _ Hc Hf). cbn [ptr].
    eapply wp_mono; [apply (malloc_loop_wp s L ok (nunits n) f zf Hok H1 H2 Hc Hf)|].
    intros r s' Hg. apply (got_owned s A) in Hg; [|done..].
    destruct Hg as [[-> ->]|Hg]; [left|by right]. split; [done|]. split; [right; by exists L|]. by intros b z _ a _.
Qed.

Lemma free_ready s A b z : ready s A -> A !! b = Some z ->
  wp (free (b + HSZ)) s (fun _ s' => ready s' (delete b A) /\
    forall c y, A !! c = Some y -> c <> b -> same_contents s s' c y).
Proof.
  intros [(_ & -> & _)|(L & Hc & Ho)] Hb; [done|]. destruct (ow_block _ _ _ Ho b z Hb) as (H1 & H2 & H3 & H4 & H5).
  assert (loose s L b z) as Hl.
  { split; [done|done|done|done|]. pose proof (ow_sum _ _ _ Ho) as Hsum. rewrite <- (insert_delete_id A b z Hb) in Hsum.
    rewrite asum_insert in Hsum by (by rewrite lookup_delete_eq).
    assert (0 <= asum (delete b A)); [|unfold HSZ in *; lia]. apply asum_nonneg.
    intros c y [_ Hy]%lookup_delete_Some. apply (ow_block _ _ _ Ho) in Hy. lia. }
  eapply wp_mono; [apply (ufree_wp base hstart Hbase Hstart _ _ _ _ Hc Hl)|]. intros _ s' [L' Hf]. split.
  - right. exists L'. split; [apply Hf|by eapply owned_free].
  - intros c y Hy Hne a Ha. destruct (ow_block _ _ _ Ho c y Hy) as (I1 & I2 & I3 & I4 & I5).
    apply (fd_frame _ _ _ _ _ _ _ _ Hf); [lia|apply I5; unfold inb; cbn; lia|].
    intros ->. apply (ow_disj _ _ _ Ho c y b z b); [done|done|done|unfold inb; cbn; lia|]. by eapply owned_head.
Qed.

(** A program that takes memory with [malloc], at most [NMAX] bytes at a time,
    writes inside its blocks and gives them back with [free]; [A] is what it
    holds.  A larger request is not covered: see [malloc_overflow]. *)
Inductive run : heap -> gmap Z Z -> Prop :=
  | run_start h : run (Heap h 0 hstart) ∅
  | run_malloc s A ok n p s' : run s A -> phys ok -> 0 <= n <= NMAX -> malloc base ok n s = Ok p s' ->
      run s' (if p =? 0 then A else <[p - HSZ := nunits n]> A)
  | run_free s A b z s' : run s A -> A !! b = Some z -> free (b + HSZ) s = Ok tt s' -> run s' (delete b A)
  | run_write s A h : run s A ->
      (forall a, h !! a = h_hdr s !! a \/ exists b z, A !! b = Some z /\ b < a < b + HSZ * z) ->
      run (Heap h (freep s) (p_sz s)) A.

Lemma write_ready s A h : ready s A ->
  (forall a, h !! a = h_hdr s !! a \/ exists b z, A !! b = Some z /\ b < a < b + HSZ * z) ->
  ready (Heap h (freep s) (p_sz s)) A.
Proof.
  intros [Hr|(L & Hc & Ho)] Hw; [by left|]. right. exists L.
  assert (forall a, (forall b z, A !! b = Some z -> ~ b < a < b + HSZ * z) -> h !! a = h_hdr s !! a) as Hw'.
  { intros a Ha. destruct (Hw a) as [?|(b & z & Hb & Hab)]; [done|]. by destruct (Ha b z Hb). }
  split.
  - eapply (circ_frame s); [done|done|cbn; split; [lia|apply Hc]|]. intros a z Ha. apply Hw'. intros b y Hb Hab.
    destruct (ow_block _ _ _ Ho b y Hb) as (H1 & H2 & _ & _ & H5).
    destruct (c_elem _ _ _ _ Hc a z Ha) as [[-> ->]|?]; [unfold HSZ in *; lia|].
    apply (H5 a); [unfold inb; cbn; lia|]. exists (a, z). split; [done|]. unfold inb, HSZ. cbn. lia.
  - destruct Ho as [O1 O2 O3]. split; [|done|done]. intros b z Hb.
    destruct (O1 b z Hb) as (H1 & H2 & H3 & H4 & H5). split; [done|]. split; [done|]. split; [done|]. split; [|done].
    cbn [h_hdr]. rewrite Hw'; [done|]. intros c y Hcy Hbc. destruct (decide (c = b)) as [->|Hne]; [lia|].
    apply (O2 b z c y b); [done|done|done|unfold inb, HSZ; cbn; lia|unfold inb; cbn; lia].
Qed.

Lemma run_ready s A : hstart <= HEAPMAX -> run s A -> ready s A.
Proof.
  intros Hm. induction 1 as [h|s A ok n p s' _ IH Hok Hn E|s A b z s' _ IH Hb E|s A h _ IH Hw].
  - by left.
  - pose proof (wp_ok _ _ _ _ _ (malloc_wp _ _ ok n Hok IH Hn) E) as [(-> & Hr & _)|(Hp & Hr & _)]; [done|].
    by rewrite (proj2 (Z.eqb_neq p 0)).
  - by apply (wp_ok _ _ _ _ _ (free_ready _ _ b z IH Hb) E).
  - by apply write_ready.
Qed.

(** C17: the allocator is correct for every program that stays inside its blocks
    and asks for at most 2^31 - 32 bytes at a time.  After any sequence of calls:
    blocks held by the program do not overlap; [malloc] of up to 2^31 - 32 bytes
    returns, whether or not the kernel has memory, and gives 0 or a block of
    enough bytes inside the heap that overlaps no block the program holds; [free]
    of a block returns; and neither changes anything stored in the other blocks.
    For larger requests this is false: the size in bytes is passed to [sbrk] as
    an [int]. *)
Theorem malloc_free_correct s A : hstart <= HEAPMAX -> run s A ->
  (forall b z c y x, A !! b = Some z -> A !! c = Some y -> b <> c -> inb x (b, z) -> ~ inb x (c, y)) /\
  (forall ok n, phys ok -> 0 <= n <= NMAX -> exists p s', malloc base ok n s = Ok p s' /\
     (forall b z, A !! b = Some z -> same_contents s s' b z) /\
     (p = 0 \/ (hstart <= p - HSZ /\ n <= HSZ * (nunits n - 1) /\ p - HSZ + HSZ * nunits n <= p_sz s' /\
       forall b z x, A !! b = Some z -> inb x (b, z) -> ~ inb x (p - HSZ, nunits n)))) /\
  (forall b z, A !! b = Some z -> exists s', free (b + HSZ) s = Ok tt s' /\
     forall c y, A !! c = Some y -> c <> b -> same_contents s s' c y).
Proof.
  intros Hm Hrun. pose proof (run_ready _ _ Hm Hrun) as Hr. split; [|split].
  - destruct Hr as [(_ & -> & _)|(L & _ & Ho)]; [done|]. apply Ho.
  - intros ok n Hok Hn. destruct (wp_elim _ _ _ (malloc_wp _ _ ok n Hok Hr Hn)) as (p & s' & E & Hp). exists p, s'. split; [done|].
    destruct (nunits_spec n Hn) as (_ & H2 & _).
    destruct Hp as [(-> & _ & Hc)|(_ & _ & _ & H1 & H3 & H4 & Hc)]; (split; [done|]); [by left|by right].
  - intros b z Hb. destruct (wp_elim _ _ _ (free_ready _ _ b z Hr Hb)) as ([] & s' & E & _ & Hc). by exists s'.
Qed.

(** A list of blocks that fills its range has one block. *)
Lemma filled L b hi : StronglySorted before (b :: L) -> (forall x, x ∈ b :: L -> x.1 + HSZ * x.2 <= hi) ->
  b.1 + HSZ * total snd (b :: L) + Z.of_nat (length L) <= hi.
Proof.
  revert b. induction L as [|c L IH]; intros b Hs Hh; [cbn; pose proof (Hh b ltac:(left)); unfold HSZ in *; lia|].
  apply StronglySorted_cons in Hs as [Hb Hs]. apply Forall_cons in Hb as [Hb _].
  specialize (IH c Hs ltac:(intros; apply Hh; by right)). unfold before, HSZ in *.
  change (total snd (b :: c :: L)) with (b.2 + total snd (c :: L)). cbn [length]. lia.
Qed.

(** C37: nothing is lost to fragmentation in the end.  When a program that never
    asked for more than 2^31 - 32 bytes at a time has freed all its blocks, in
    any order, the free list is one block that holds all the memory ever obtained
    from the kernel. *)
Theorem free_all_coalesces s : hstart <= HEAPMAX -> run s ∅ -> hstart < p_sz s ->
  hat s base = Header hstart 0 /\ ptr (hat s hstart) = base /\ HSZ * size (hat s hstart) = p_sz s - hstart.
Proof.
  intros Hm Hrun Hlt. destruct (run_ready _ _ Hm Hrun) as [(_ & _ & ? & _)|(L & Hc & Ho)]; [lia|].
  pose proof (ow_sum _ _ _ Ho) as Hsum. unfold asum in Hsum. rewrite map_fold_empty in Hsum.
  destruct (c_base _ _ _ _ Hc) as [L0 ->]. cbn [total snd] in Hsum. pose proof (c_sort _ _ _ _ Hc) as [Hb Hs]%StronglySorted_cons.
  rewrite Forall_forall in Hb.
  assert (forall x, x ∈ L0 -> hstart <= x.1 /\ x.1 + HSZ * x.2 <= p_sz s) as He.
  { intros [a z] Hx. destruct (c_elem _ _ _ _ Hc a z ltac:(by right)) as [[-> ->]|?]; [|cbn; lia].
    apply Hb in Hx. unfold before in Hx. cbn in Hx. lia. }
  destruct L0 as [|[a z] L0]; [cbn in Hsum; lia|].
  pose proof (filled L0 (a, z) (p_sz s) Hs ltac:(intros; by apply He)) as Hf. destruct (He (a, z) ltac:(left)) as [Ha _].
  cbn [fst] in *. assert (length L0 = 0%nat) as HL by (unfold HSZ in *; lia).
  apply nil_length_inv in HL as ->. cbn [total snd] in *. assert (a = hstart) as -> by (unfold HSZ in *; lia).
  pose proof (c_link _ _ _ _ Hc) as (K1 & K2 & _). unfold hat. rewrite K1, K2. cbn. unfold HSZ in *. split; [done|]. split; [done|lia].
Qed.
End Claims.

(** A program that allocates two blocks and frees the first. *)
(** The kernel has memory as long as the machine has. *)
Definition enough (newsz : Z) : bool := newsz <=? HEAPMAX.
Lemma enough_phys : phys enough.
Proof. intros z Hz. unfold enough in Hz. lia. Qed.

Definition ex_heap : heap := Heap ∅ 0 8192.
Definition ok_heap {A} (r : res heap A) : heap := match r with Ok _ s => s | _ => ex_heap end.
Definition ex_heap1 : heap := ok_heap (malloc 4096 enough 100 ex_heap).
Definition ex_heap2 : heap := ok_heap (malloc 4096 enough 200 ex_heap1).

Lemma ex_heap2_run : run 4096 8192 ex_heap2 {[73600 := 8; 73376 := 14]}.
Proof.
  replace ({[73600 := 8; 73376 := 14]} : gmap Z Z)
    with (if 73392 =? 0 then {[73600 := 8]} else <[73392 - HSZ := nunits 200]> ({[73600 := 8]} : gmap Z Z)) by (by vm_compute).
  apply run_malloc with (s := ex_heap1) (ok := enough); [|apply enough_phys|unfold NMAX; lia|by vm_compute].
  replace ({[73600 := 8]} : gmap Z Z)
    with (if 73616 =? 0 then ∅ else <[73616 - HSZ := nunits 100]> (∅ : gmap Z Z)) by (by vm_compute).
  apply run_malloc with (s := ex_heap) (ok := enough); [apply run_start|apply enough_phys|unfold NMAX; lia|by vm_compute].
Qed.

Lemma malloc_free_correct_witness : exists s', free (73600 + HSZ) ex_heap2 = Ok tt s' /\
  same_contents ex_heap2 s' 73376 14.
Proof.
  destruct (malloc_free_correct 4096 8192 ltac:(lia) ltac:(unfold HSZ; lia) ex_heap2 {[73600 := 8; 73376 := 14]}) as (_ & _ & H).
  - unfold HEAPMAX, PHYSTOP. lia.
  - apply ex_heap2_run.
  - destruct (H 73600 8 ltac:(by vm_compute)) as (s' & E & Hc). exists s'. split; [done|].
    apply Hc; [by vm_compute|lia].
Defined.

Definition ex_heap4 : heap := ok_heap (free (73600 + HSZ) (ok_heap (free (73376 + HSZ) ex_heap2))).
Lemma free_all_coalesces_witness : hat ex_heap4 4096 = Header 8192 0 /\ size (hat ex_heap4 8192) = 4096.
Proof.
  assert (hat ex_heap4 4096 = Header 8192 0 /\ ptr (hat ex_heap4 8192) = 4096 /\
    HSZ * size (hat ex_heap4 8192) = p_sz ex_heap4 - 8192) as (H1 & _ & H2).
  - apply (free_all_coalesces 4096 8192); [lia|unfold HSZ; lia|unfold HEAPMAX, PHYSTOP; lia| |by vm_compute].
    replace (∅ : gmap Z Z) with (delete 73600 (delete 73376 ({[73600 := 8; 73376 := 14]} : gmap Z Z))) by (by vm_compute).
    eapply run_free with (z := 8); [eapply run_free with (z := 14); [apply ex_heap2_run|by vm_compute..]|by vm_compute..].
  - split; [done|]. change (p_sz ex_heap4) with 73728 in H2. unfold HSZ in H2. lia.
Defined.

(** The bytes asked from the kernel are computed in 64 bits but passed as an
    [int]: [malloc] of 2^32 - 1 bytes returns a block although the process grew
    by 16 bytes only. *)
Example malloc_overflow : exists s, malloc 4096 enough (2 ^ 32 - 1) ex_heap = Ok (8192 + HSZ) s /\ p_sz s = p_sz ex_heap + 16.
Proof. eexists. split; [by vm_compute|done]. Qed.
