(* ===== verification/Console.v ===== *)
(** * kernel/console.c and kernel/uart.c

    [cons.lock] and [uart_tx_lock] are held from start to return except inside
    [sleep], so a call is a sequence of bursts, as in [Pipe].  The device is an
    argument: [lsr] lists what the successive reads of the line status register
    say about the transmitter, [rx] holds the bytes that have arrived.  What
    [procdump] prints for control-P is the argument [dump]. *)

From Stdlib Require Import Ascii.
From S2P Require Import Prelude Riscv CString Printf Pipe.

Definition BACKSPACE : Z := 0x100.
(** Control-x *)
Definition C (x : ascii) : Z := Z.of_nat (nat_of_ascii x) - Z.of_nat (nat_of_ascii "@").
Definition INPUT_BUF_SIZE : Z := 128.
Definition NL : Z := 10.

(** ** The transmitter *)

Definition UART_TX_BUF_SIZE : Z := 32.
(** [u_out] lists the bytes written to the transmit holding register. *)
Record uart := Uart { u_buf : gmap Z Z; tx_w : Z; tx_r : Z; u_out : list Z }.

(** The registers written by [uartinit], in order. *)
Definition RHR : Z := 0.
Definition THR : Z := 0.
Definition IER : Z := 1.
Definition IER_RX_ENABLE : Z := Z.shiftl 1 0.
Definition IER_TX_ENABLE : Z := Z.shiftl 1 1.
Definition FCR : Z := 2.
Definition FCR_FIFO_ENABLE : Z := Z.shiftl 1 0.
Definition FCR_FIFO_CLEAR : Z := Z.shiftl 3 1.
Definition LCR : Z := 3.
Definition LCR_EIGHT_BITS : Z := Z.shiftl 3 0.
Definition LCR_BAUD_LATCH : Z := Z.shiftl 1 7.
Definition uartinit : list (Z * Z) :=
  [(IER, 0x00); (LCR, LCR_BAUD_LATCH); (0, 0x03); (1, 0x00); (LCR, LCR_EIGHT_BITS);
   (FCR, Z.lor FCR_FIFO_ENABLE FCR_FIFO_CLEAR); (IER, Z.lor IER_TX_ENABLE IER_RX_ENABLE)].

(** Whether [wakeup(&uart_tx_r)] was called is the second result. *)
Fixpoint uartstart (u : uart) (lsr : list bool) : uart * bool :=
  if tx_w u =? tx_r u then (u, false)
  else
    match lsr with
    | [] | false :: _ => (u, false)
    | true :: lsr =>
        let c := default 0 (u_buf u !! (tx_r u mod UART_TX_BUF_SIZE)) in
        ((uartstart (Uart (u_buf u) (tx_w u) (u64 (tx_r u + 1)) (u_out u ++ [c])) lsr).1, true)
    end.
(** [None]: the caller sleeps on [&uart_tx_r]. *)
Definition uartputc (u : uart) (c : Z) (lsr : list bool) : option (uart * bool) :=
  if tx_w u =? u64 (tx_r u + UART_TX_BUF_SIZE) then None
  else
    Some (uartstart (Uart (<[tx_w u mod UART_TX_BUF_SIZE := u8 c]> (u_buf u)) (u64 (tx_w u + 1)) (tx_r u) (u_out u)) lsr).
(** Waits for the transmitter, then writes. *)
Definition uartputc_sync (u : uart) (c : Z) : uart := Uart (u_buf u) (tx_w u) (tx_r u) (u_out u ++ [u8 c]).
Definition uartgetc (rx : list Z) : Z * list Z :=
  match rx with [] => (-1, []) | c :: rx => (c, rx) end.

(** ** The console *)

Definition consputc (c : Z) : list Z := if c =? BACKSPACE then [8; 32; 8] else [u8 c].

Record cons := Cons { c_buf : gmap Z Z; c_r : Z; c_w : Z; c_e : Z }.

(** One burst of [consolewrite] from byte [i] on; [lsr i] is what [uartputc] sees. *)
Fixpoint consolewrite (u : uart) (src : Z -> option Z) (lsr : Z -> list bool) (i : Z) (todo : nat) : uart * burst :=
  match todo with
  | O => (u, Return i)
  | S todo =>
      match src i with
      | None => (u, Return i)
      | Some c =>
          match uartputc u c (lsr i) with
          | None => (u, Sleep i)
          | Some (u, _) => consolewrite u src lsr (i + 1) todo
          end
      end
  end.

Definition cbyte (s : cons) (i : Z) : Z := default 0 (c_buf s !! (i mod INPUT_BUF_SIZE)).
Definition with_r (s : cons) (r : Z) : cons := Cons (c_buf s) r (c_w s) (c_e s).
Definition with_e (s : cons) (e : Z) : cons := Cons (c_buf s) (c_r s) (c_w s) e.

(** One burst of [consoleread] with [n] bytes to go of [target]; [dst] says
    whether [either_copyout] succeeds.  Also the bytes copied out.  A count that
    is 0 or negative reads nothing and returns 0, which is the case [n] = 0. *)
Fixpoint consoleread (s : cons) (target : Z) (dst : Z -> bool) (killed : bool) (n : nat) : cons * burst * list Z :=
  match n with
  | O => (s, Return target, [])
  | S n' =>
      let n := Z.of_nat n in
      if c_r s =? c_w s then (s, (if killed then Return (-1) else Sleep n), [])
      else
        let c := cbyte s (c_r s) in
        let s1 := with_r s (u32 (c_r s + 1)) in
        if c =? C "D" then
          ((if n <? target then with_r s1 (u32 (c_r s1 - 1)) else s1), Return (target - n), [])
        else if negb (dst (target - n)) then (s1, Return (target - n), [])
        else if c =? NL then (s1, Return (target - (n - 1)), [c])
        else
          let '(s2, b, out) := consoleread s1 target dst killed n' in
          (s2, b, c :: out)
  end.

(** The loop for control-U. *)
Fixpoint kill_line (s : cons) (k : nat) : cons * list Z :=
  match k with
  | O => (s, [])
  | S k =>
      if negb (c_e s =? c_w s) && negb (cbyte s (u32 (c_e s - 1)) =? NL) then
        let '(s, echo) := kill_line (with_e s (u32 (c_e s - 1))) k in (s, consputc BACKSPACE ++ echo)
      else (s, [])
  end.

(** The state, the output, and whether [wakeup(&cons.r)] was called. *)
Definition consoleintr (dump : list Z) (s : cons) (c : Z) : cons * list Z * bool :=
  if c =? C "P" then (s, dump, false)
  else if c =? C "U" then (kill_line s (Z.to_nat (u32 (c_e s - c_w s))), false)
  else if (c =? C "H") || (c =? 0x7f) then
    if negb (c_e s =? c_w s) then (with_e s (u32 (c_e s - 1)), consputc BACKSPACE, false) else (s, [], false)
  else if negb (c =? 0) && (u32 (c_e s - c_r s) <? INPUT_BUF_SIZE) then
    let c := if c =? 13 then NL else c in
    let s := Cons (<[c_e s mod INPUT_BUF_SIZE := u8 c]> (c_buf s)) (c_r s) (c_w s) (u32 (c_e s + 1)) in
    if (c =? NL) || (c =? C "D") || (u32 (c_e s - c_r s) =? INPUT_BUF_SIZE) then
      (Cons (c_buf s) (c_r s) (c_e s) (c_e s), consputc c, true)
    else (s, consputc c, false)
  else (s, [], false).

(** [consoleinit] finds the structure zeroed. *)
Definition cons0 : cons := Cons ∅ 0 0 0.

(** All characters that have arrived, then the transmitter. *)
Fixpoint uartintr (dump : list Z) (s : cons) (u : uart) (rx : list Z) (lsr : list bool) : cons * uart * bool :=
  match rx with
  | [] => (s, (uartstart u lsr).1, false)
  | c :: rx =>
      let '(s, echo, wake) := consoleintr dump s c in
      let '(s, u, wake') := uartintr dump s (foldl uartputc_sync u echo) rx lsr in
      (s, u, wake || wake')
  end.
