(* ===== verification/ConsoleSpec.v ===== *)
(** * The console implements a line discipline

    The specification of the console is a queue of characters that may be read
    and the line being typed.  [console_equiv] says that the ring buffer with
    its three free-running 32-bit indices behaves like it under any sequence of
    keystrokes and reads.  [uart_fifo] is the same for the transmit buffer. *)

From Stdlib Require Import Ascii.
From S2P Require Import Prelude Riscv CString Printf Pipe Console.

(** ** Specification *)

Record acons := Acons { a_queue : list Z; a_line : list Z }.

Definition rubout : list Z := [8; 32; 8].
Definition full (q l : list Z) : bool := (Z.of_nat (length q + length l) >=? INPUT_BUF_SIZE).

(** A key: the new state, the echo, and whether readers are woken. *)
Definition akey (dump : list Z) (a : acons) (c : Z) : acons * list Z * bool :=
  let '(Acons q l) := a in
  if c =? C "P" then (a, dump, false)
  else if c =? C "U" then (Acons q [], concat (replicate (length l) rubout), false)
  else if (c =? C "H") || (c =? 0x7f) then
    match l with [] => (a, [], false) | _ => (Acons q (take (length l - 1) l), rubout, false) end
  else if (c =? 0) || full q l then (a, [], false)
  else
    let c := if c =? 13 then NL else c in
    let l := l ++ [c] in
    if (c =? NL) || (c =? C "D") || full q l then (Acons (q ++ l) [], [c], true)
    else (Acons q l, [c], false).

(** A read: bytes are taken up to a newline or end-of-file. *)
Fixpoint aread (q : list Z) (target : Z) (dst : Z -> bool) (killed : bool) (n : nat) {struct n} : list Z * burst * list Z :=
  match n with
  | O => (q, Return target, [])
  | S n' =>
      let n := Z.of_nat n in
      match q with
      | [] => ([], (if killed then Return (-1) else Sleep n), [])
      | c :: q' =>
          if c =? C "D" then ((if n <? target then q else q'), Return (target - n), [])
          else if negb (dst (target - n)) then (q', Return (target - n), [])
          else if c =? NL then (q', Return (target - (n - 1)), [c])
          else let '(q2, b, out) := aread q' target dst killed n' in (q2, b, c :: out)
      end
  end.

Inductive cevent :=
| Key (c : Z)
| Read (target : Z) (dst : Z -> bool) (killed : bool) (n : nat).
Inductive cresult :=
| Typed (echo : list Z) (wake : bool)
| Got (b : burst) (out : list Z).

Definition cev (dump : list Z) (s : cons) (e : cevent) : cons * cresult :=
  match e with
  | Key c => let '(s, echo, wake) := consoleintr dump s c in (s, Typed echo wake)
  | Read target dst killed n => let '(s, b, out) := consoleread s target dst killed n in (s, Got b out)
  end.
Definition aev (dump : list Z) (a : acons) (e : cevent) : acons * cresult :=
  match e with
  | Key c => let '(a, echo, wake) := akey dump a c in (a, Typed echo wake)
  | Read target dst killed n => let '(q, b, out) := aread (a_queue a) target dst killed n in (Acons q (a_line a), Got b out)
  end.

(** The results of a sequence of events. *)
Fixpoint results {S E R} (f : S -> E -> S * R) (s : S) (es : list E) : list R :=
  match es with [] => [] | e :: es => let '(s, r) := f s e in r :: results f s es end.

(** ** The ring buffer *)

Definition is_byte (c : Z) : Prop := 0 <= c < 256.

Record crep (s : cons) (q l : list Z) : Prop := Crep {
  cr_r : 0 <= c_r s < 2 ^ 32;
  cr_w : c_w s = u32 (c_r s + Z.of_nat (length q));
  cr_e : c_e s = u32 (c_r s + Z.of_nat (length q + length l));
  cr_len : Z.of_nat (length q + length l) <= INPUT_BUF_SIZE;
  cr_buf : forall i x, (q ++ l) !! i = Some x -> c_buf s !! ((c_r s + Z.of_nat i) mod INPUT_BUF_SIZE) = Some x;
  cr_line : NL ∉ l
}.

Lemma mod_u32 x : u32 x mod INPUT_BUF_SIZE = x mod INPUT_BUF_SIZE.
Proof. unfold u32, INPUT_BUF_SIZE. dlia. Qed.
Lemma u32_range x : 0 <= u32 x < 2 ^ 32.
Proof. unfold u32. apply Z.mod_pos_bound. lia. Qed.
Lemma u32_idem x y : u32 (u32 x + y) = u32 (x + y).
Proof. unfold u32. by rewrite Zplus_mod_idemp_l. Qed.
Lemma u32_diff a x y : 0 <= x - y < 2 ^ 32 -> u32 (u32 (a + x) - u32 (a + y)) = x - y.
Proof.
  intros H. unfold u32. rewrite Zminus_mod_idemp_l, Zminus_mod_idemp_r.
  replace (a + x - (a + y)) with (x - y) by lia. by apply Z.mod_small.
Qed.
Lemma u32_inj a x y : u32 (a + x) = u32 (a + y) -> - 2 ^ 32 < x - y < 2 ^ 32 -> x = y.
Proof. unfold u32. intros H Hxy. dlia. Qed.

Lemma cbyte_rep s q l x : crep s (x :: q) l -> cbyte s (c_r s) = x.
Proof.
  intros Hc. unfold cbyte. pose proof (cr_buf _ _ _ Hc 0 x eq_refl) as Hb.
  rewrite Z.add_0_r in Hb. by rewrite Hb.
Qed.

Lemma crep_take s x q l : crep s (x :: q) l -> crep (with_r s (u32 (c_r s + 1))) q l.
Proof.
  intros [H1 H2 H3 H4 H5 H6]. split; cbn [c_r c_w c_e c_buf with_r length] in *.
  - apply u32_range.
  - rewrite H2, u32_idem. f_equal. lia.
  - rewrite H3, u32_idem. f_equal. lia.
  - lia.
  - intros i y Hi. rewrite Zplus_mod, mod_u32, <- Zplus_mod.
    replace (c_r s + 1 + Z.of_nat i) with (c_r s + Z.of_nat (S i)) by lia. by apply H5.
  - done.
Qed.

Lemma crep_empty s q l : crep s q l -> (c_r s =? c_w s) = match q with [] => true | _ => false end.
Proof.
  intros [H1 H2 H3 H4 _ _]. destruct q as [|x q]; cbn [length] in *.
  - rewrite H2, Z.add_0_r. unfold u32. rewrite Z.mod_small by done. apply Z.eqb_refl.
  - apply Z.eqb_neq. rewrite H2. intros E. unfold INPUT_BUF_SIZE in H4.
    assert (u32 (c_r s + 0) = u32 (c_r s + Z.of_nat (S (length q)))) as E'.
    { rewrite Z.add_0_r, <- E. unfold u32. by rewrite Z.mod_small. }
    apply u32_inj in E'; lia.
Qed.

Lemma read_equiv target dst killed n s q l : crep s q l ->
  let '(s', b, out) := consoleread s target dst killed n in
  exists q', aread q target dst killed n = (q', b, out) /\ crep s' q' l.
Proof.
  revert s q. induction n as [|n IH]; intros s q Hc; [cbn; by exists q|].
  cbn [consoleread aread]. rewrite (crep_empty _ _ _ Hc). destruct q as [|x q]; [by exists []|].
  rewrite (cbyte_rep _ _ _ _ Hc). pose proof (crep_take _ _ _ _ Hc) as Ht. destruct (x =? C "D").
  - destruct (Z.of_nat (S n) <? target); [|by exists q]. exists (x :: q). split; [done|].
    replace (with_r _ _) with s; [done|]. destruct s as [b r w e]. unfold with_r. cbn [c_buf c_r c_w c_e]. f_equal.
    destruct (cr_r _ _ _ Hc) as [Hr0 Hr1]. cbn [c_r] in *. unfold u32. rewrite Zminus_mod_idemp_l. rewrite Z.mod_small; lia.
  - destruct (negb _); [by exists q|]. destruct (x =? NL); [by exists q|].
    specialize (IH _ _ Ht). destruct (consoleread _ _ _ _ _) as [[s' b] out].
    destruct IH as (q' & -> & Hc'). by exists q'.
Qed.

(** The line index [e] compared with [w] and [r]. *)
Lemma crep_line s q l : crep s q l ->
  (c_e s =? c_w s) = match l with [] => true | _ => false end /\
  u32 (c_e s - c_w s) = Z.of_nat (length l) /\ u32 (c_e s - c_r s) = Z.of_nat (length q + length l).
Proof.
  intros [H1 H2 H3 H4 _ _]. unfold INPUT_BUF_SIZE in H4.
  assert (u32 (c_e s - c_w s) = Z.of_nat (length l)) as Hd.
  { rewrite H2, H3, u32_diff; lia. }
  split; [|split; [done|]].
  - destruct l as [|x l].
    + rewrite H2, H3. cbn [length]. rewrite Nat.add_0_r. apply Z.eqb_refl.
    + apply Z.eqb_neq. intros E. rewrite E, Z.sub_diag in Hd. change (u32 0) with 0 in Hd. cbn [length] in Hd. lia.
  - rewrite H3. replace (c_r s) with (u32 (c_r s + 0)) at 2 by (unfold u32; rewrite Z.mod_small; lia). rewrite u32_diff; lia.
Qed.

Lemma crep_rubout s q l x : crep s q (l ++ [x]) -> crep (with_e s (u32 (c_e s - 1))) q l.
Proof.
  intros [H1 H2 H3 H4 H5 H6]. rewrite length_app in *. split; cbn [c_r c_w c_e c_buf with_e length] in *.
  - done.
  - done.
  - rewrite H3. unfold Z.sub. rewrite u32_idem. f_equal. lia.
  - lia.
  - intros i y Hi. apply H5. rewrite app_assoc. by apply lookup_app_l_Some.
  - set_solver.
Qed.

Lemma crep_last s q l x : crep s q (l ++ [x]) -> cbyte s (u32 (c_e s - 1)) = x.
Proof.
  intros [H1 H2 H3 H4 H5 H6]. unfold cbyte. rewrite mod_u32. rewrite H3, Zminus_mod, mod_u32, <- Zminus_mod.
  rewrite length_app. cbn [length].
  replace (c_r s + Z.of_nat (length q + (length l + 1)) - 1) with (c_r s + Z.of_nat (length (q ++ l))) by (rewrite length_app; lia).
  rewrite (H5 _ x); [done|]. rewrite app_assoc. by apply list_lookup_middle.
Qed.

Lemma kill_equiv s q l : crep s q l ->
  exists s', kill_line s (length l) = (s', concat (replicate (length l) rubout)) /\ crep s' q [].
Proof.
  revert s. induction l as [|x l IH] using rev_ind; intros s Hc; [by exists s|].
  rewrite length_app, Nat.add_comm. cbn [length Nat.add kill_line replicate concat].
  destruct (crep_line _ _ _ Hc) as [-> _]. rewrite (crep_last _ _ _ _ Hc).
  rewrite (proj2 (Z.eqb_neq x NL)) by (pose proof (cr_line _ _ _ Hc); set_solver).
  assert (match l ++ [x] with [] => true | _ => false end = false) as -> by (by destruct l).
  destruct (IH _ (crep_rubout _ _ _ _ Hc)) as (s' & -> & Hc'). by exists s'.
Qed.

Lemma crep_type s q l c : crep s q l -> is_byte c -> Z.of_nat (length q + length l) < INPUT_BUF_SIZE ->
  let s1 := Cons (<[c_e s mod INPUT_BUF_SIZE := u8 c]> (c_buf s)) (c_r s) (c_w s) (u32 (c_e s + 1)) in
  (c <> NL -> crep s1 q (l ++ [c])) /\ crep (Cons (c_buf s1) (c_r s1) (c_e s1) (c_e s1)) (q ++ l ++ [c]) [].
Proof.
  intros [H1 H2 H3 H4 H5 H6] Hb Hl s1. unfold s1. cbn [c_r c_w c_e c_buf].
  assert (u8 c = c) as -> by (unfold u8, is_byte in *; rewrite Z.mod_small; lia).
  assert (u32 (c_e s + 1) = u32 (c_r s + Z.of_nat (length q + length (l ++ [c])))) as He.
  { rewrite H3, u32_idem, length_app. f_equal. cbn. lia. }
  assert (forall i x, (q ++ l ++ [c]) !! i = Some x ->
    <[c_e s mod INPUT_BUF_SIZE := c]> (c_buf s) !! ((c_r s + Z.of_nat i) mod INPUT_BUF_SIZE) = Some x) as Hbuf.
  { intros i x Hi. rewrite app_assoc in Hi. pose proof (lookup_lt_Some _ _ _ Hi) as Hlt.
    rewrite !length_app in Hlt. cbn in Hlt. rewrite H3, mod_u32. destruct (decide (i = length (q ++ l))) as [->|Hne].
    - rewrite length_app. rewrite lookup_insert_eq. rewrite list_lookup_middle in Hi by done. done.
    - rewrite length_app in Hne. rewrite lookup_insert_ne; [apply H5; apply lookup_app_Some in Hi as [?|[Hge Hi]]; [done|]|].
      + rewrite length_app in Hge, Hi. apply list_lookup_singleton_Some in Hi. lia.
      + unfold INPUT_BUF_SIZE in *. dlia. }
  rewrite length_app in He. cbn in He.
  split; [intros Hnl|]; split; cbn [c_r c_w c_e c_buf]; rewrite ?length_app in *; cbn [length] in *; try done; try lia.
  all: try (rewrite He; f_equal; lia).
  - set_solver.
  - intros i x. rewrite app_nil_r. apply Hbuf.
  - set_solver.
Qed.

Lemma key_equiv dump s q l c : crep s q l -> is_byte c ->
  let '(s', echo, wake) := consoleintr dump s c in
  exists q' l', akey dump (Acons q l) c = (Acons q' l', echo, wake) /\ crep s' q' l'.
Proof.
  intros Hc Hb. unfold consoleintr, akey. destruct (c =? C "P"); [by exists q, l|].
  destruct (crep_line _ _ _ Hc) as (He & Hw & Hr). destruct (c =? C "U").
  { rewrite Hw, Nat2Z.id. destruct (kill_equiv _ _ _ Hc) as (s' & -> & Hc'). by exists q, []. }
  destruct ((c =? C "H") || (c =? 0x7f)).
  { rewrite He. destruct l as [|x l _] using rev_ind; [by exists q, []|].
    assert (match l ++ [x] with [] => true | _ => false end = false) as -> by (by destruct l). cbn [negb].
    exists q, l. split; [|by eapply crep_rubout]. destruct (l ++ [x]) eqn:E; [by destruct l|]. rewrite <- E.
    rewrite length_app. cbn. replace (length l + 1 - 1)%nat with (length l) by lia. by rewrite take_app_length. }
  rewrite Hr. destruct (c =? 0); [by exists q, l|]. unfold full. destruct (Z.of_nat (length q + length l) <? INPUT_BUF_SIZE) eqn:El; cbn [negb andb orb]; bool_to_prop.
  2:{ rewrite (proj2 (Z.geb_le _ _)) by done. by exists q, l. }
  rewrite Z.geb_leb, (proj2 (Z.leb_gt _ _)) by exact El.
  set (c' := if c =? 13 then NL else c). assert (is_byte c') as Hb' by (unfold c', is_byte, NL in *; destruct (c =? 13); lia).
  destruct (crep_type _ _ _ c' Hc Hb' El) as [Ht1 Ht2]. set (s1 := Cons _ _ _ _) in *.
  assert (consputc c' = [c']) as ->.
  { unfold consputc, u8, BACKSPACE, is_byte in *. destruct (Z.eqb_spec c' 0x100); [lia|]. by rewrite Z.mod_small. }
  destruct (crep_line _ _ _ Ht2) as (_ & _ & Hr1). cbn [c_e c_r] in Hr1. rewrite Hr1.
  replace (length (q ++ l ++ [c']) + length (@nil Z))%nat with (length q + length (l ++ [c']))%nat by (rewrite !length_app; cbn; lia).
  assert ((Z.of_nat (length q + length (l ++ [c'])) =? INPUT_BUF_SIZE) = (Z.of_nat (length q + length (l ++ [c'])) >=? INPUT_BUF_SIZE)) as ->.
  { rewrite length_app. cbn [length]. rewrite Z.geb_leb. destruct (Z.eqb_spec (Z.of_nat (length q + (length l + 1))) INPUT_BUF_SIZE), (Z.leb_spec INPUT_BUF_SIZE (Z.of_nat (length q + (length l + 1)))); (done || lia). }
  destruct (_ || _ || _) eqn:E; [by exists (q ++ l ++ [c']), []|]. exists q, (l ++ [c']). split; [done|].
  apply Ht1. intros Enl. rewrite Enl in E. done.
Qed.

(** C39: the console behaves like its specification.  Whatever is typed and
    however it is read, interleaved in any way and for any number of characters
    (the indices of the ring buffer wrap around at 2^32), every echo, every
    wake-up and the result of every read are those of a queue of finished lines
    and an editable current line. *)
Theorem console_equiv dump es :
  Forall (fun e => match e with Key c => is_byte c | Read _ _ _ _ => True end) es ->
  results (cev dump) cons0 es = results (aev dump) (Acons [] []) es.
Proof.
  assert (crep cons0 [] []) as Hc.
  { split; cbn; try done; try lia. set_solver. }
  revert Hc. generalize cons0 as s. generalize (@nil Z) at 1 3 as q. generalize (@nil Z) as l.
  induction es as [|e es IH]; intros l q s Hc Hes; [done|]. apply Forall_cons in Hes as [He Hes]. cbn [results].
  destruct e as [c|target dst killed n]; cbn [cev aev a_queue a_line].
  - pose proof (key_equiv dump s q l c Hc He) as Hk. destruct (consoleintr dump s c) as [[s' echo] wake].
    destruct Hk as (q' & l' & -> & Hc'). f_equal. by apply IH.
  - pose proof (read_equiv target dst killed n s q l Hc) as Hk. destruct (consoleread s target dst killed n) as [[s' b] out].
    destruct Hk as (q' & -> & Hc'). f_equal. by apply IH.
Qed.

(** "ab", backspace, "c", return, and a read of ten bytes. *)
Lemma console_equiv_witness :
  results (cev []) cons0 [Key 97; Key 98; Key 8; Key 99; Key 13; Read 10 (fun _ => true) false 10] =
  [Typed [97] false; Typed [98] false; Typed [8; 32; 8] false; Typed [99] false; Typed [10] true; Got (Return 3) [97; 99; 10]].
Proof.
  rewrite console_equiv; [reflexivity|]. unfold is_byte. repeat (apply Forall_cons; split; [try lia; exact I|]). apply Forall_nil. exact I.
Defined.

(** ** The transmit buffer *)

(** As many bytes as the device takes. *)
Fixpoint drain (q : list Z) (lsr : list bool) : list Z * list Z :=
  match q, lsr with
  | c :: q, true :: lsr => let '(q', out) := drain q lsr in (q', c :: out)
  | _, _ => (q, [])
  end.

Inductive uevent := Putc (c : Z) (lsr : list bool) | Intr (lsr : list bool).
(** [uartputc] and the transmit half of [uartintr]: whether the caller may go
    on, and the bytes that went out. *)
Definition uev (u : uart) (e : uevent) : uart * (bool * list Z) :=
  match e with
  | Putc c lsr =>
      match uartputc u c lsr with
      | None => (u, (false, []))
      | Some (u', _) => (u', (true, drop (length (u_out u)) (u_out u')))
      end
  | Intr lsr => let u' := (uartstart u lsr).1 in (u', (true, drop (length (u_out u)) (u_out u')))
  end.
Definition qev (q : list Z) (e : uevent) : list Z * (bool * list Z) :=
  match e with
  | Putc c lsr =>
      if Z.of_nat (length q) =? UART_TX_BUF_SIZE then (q, (false, []))
      else let '(q, out) := drain (q ++ [u8 c]) lsr in (q, (true, out))
  | Intr lsr => let '(q, out) := drain q lsr in (q, (true, out))
  end.

Record urep (u : uart) (q : list Z) : Prop := Urep {
  ur_r : 0 <= tx_r u < 2 ^ 64;
  ur_w : tx_w u = u64 (tx_r u + Z.of_nat (length q));
  ur_len : Z.of_nat (length q) <= UART_TX_BUF_SIZE;
  ur_buf : forall i x, q !! i = Some x -> u_buf u !! ((tx_r u + Z.of_nat i) mod UART_TX_BUF_SIZE) = Some x
}.

Lemma mod_u64 x : u64 x mod UART_TX_BUF_SIZE = x mod UART_TX_BUF_SIZE.
Proof. unfold u64, UART_TX_BUF_SIZE. dlia. Qed.
Lemma u64_idem x y : u64 (u64 x + y) = u64 (x + y).
Proof. unfold u64. by rewrite Zplus_mod_idemp_l. Qed.

Lemma urep_empty u q : urep u q -> (tx_w u =? tx_r u) = match q with [] => true | _ => false end.
Proof.
  intros [H1 H2 H3 _]. rewrite H2. unfold u64, UART_TX_BUF_SIZE in *. destruct q as [|x q]; cbn [length] in *.
  - apply Z.eqb_eq. rewrite Z.mod_small; lia.
  - apply Z.eqb_neq. clear -H1 H3. dlia.
Qed.

Lemma start_equiv lsr u q : urep u q ->
  let '(q', out) := drain q lsr in
  u_out (uartstart u lsr).1 = u_out u ++ out /\ urep (uartstart u lsr).1 q'.
Proof.
  revert u q. induction lsr as [|b lsr IH]; intros u q Hu; cbn [uartstart]; rewrite (urep_empty _ _ Hu).
  - destruct q; cbn; by rewrite app_nil_r.
  - destruct q as [|x q]; [cbn; by rewrite app_nil_r|]. destruct b; [|cbn; by rewrite app_nil_r].
    destruct Hu as [H1 H2 H3 H4]. pose proof (H4 0%nat x eq_refl) as Hx. rewrite Z.add_0_r in Hx. rewrite Hx. cbn [default from_option id fst drain].
    set (u1 := Uart _ _ _ _). assert (urep u1 q) as Hu1.
    { split; unfold u1; cbn [u_buf tx_w tx_r u_out length] in *.
      - unfold u64. apply Z.mod_pos_bound. lia.
      - rewrite H2, u64_idem. f_equal. lia.
      - lia.
      - intros i y Hi. rewrite Zplus_mod, mod_u64, <- Zplus_mod.
        replace (tx_r u + 1 + Z.of_nat i) with (tx_r u + Z.of_nat (S i)) by lia. by apply H4. }
    specialize (IH u1 q Hu1). destruct (drain q lsr) as [q' out]. destruct IH as [-> Hu']. split; [|done].
    unfold u1. cbn [u_out]. by rewrite <- app_assoc.
Qed.

Lemma putc_equiv u q c lsr : urep u q ->
  match uartputc u c lsr with
  | None => Z.of_nat (length q) = UART_TX_BUF_SIZE
  | Some (u', _) => Z.of_nat (length q) <> UART_TX_BUF_SIZE /\
      let '(q', out) := drain (q ++ [u8 c]) lsr in u_out u' = u_out u ++ out /\ urep u' q'
  end.
Proof.
  intros Hu. pose proof Hu as [H1 H2 H3 H4]. unfold uartputc. rewrite H2.
  assert ((u64 (tx_r u + Z.of_nat (length q)) =? u64 (tx_r u + UART_TX_BUF_SIZE)) = (Z.of_nat (length q) =? UART_TX_BUF_SIZE)) as ->.
  { unfold u64, UART_TX_BUF_SIZE in *. destruct (Z.eqb_spec (Z.of_nat (length q)) 32) as [->|Hne]; [apply Z.eqb_refl|].
    apply Z.eqb_neq. clear -H1 H3 Hne. dlia. }
  destruct (Z.eqb_spec (Z.of_nat (length q)) UART_TX_BUF_SIZE) as [|Hne]; [done|].
  set (u1 := Uart _ _ _ _). assert (urep u1 (q ++ [u8 c])) as Hu1.
  { split; unfold u1; cbn [u_buf tx_w tx_r u_out]; rewrite ?length_app; cbn [length].
    - done.
    - rewrite u64_idem. f_equal. lia.
    - lia.
    - intros i x Hi. rewrite mod_u64. pose proof (lookup_lt_Some _ _ _ Hi) as Hlt. rewrite length_app in Hlt. cbn in Hlt.
      destruct (decide (i = length q)) as [->|Hi'].
      + rewrite lookup_insert_eq. rewrite list_lookup_middle in Hi by done. done.
      + rewrite lookup_insert_ne; [apply H4; by rewrite lookup_app_l in Hi by lia|].
        unfold UART_TX_BUF_SIZE in *. clear -H3 Hne Hlt Hi'. dlia. }
  pose proof (start_equiv lsr u1 _ Hu1) as Hs. destruct (uartstart u1 lsr) as [u' wake]. cbn [fst] in Hs. by split.
Qed.

(** The transmit buffer of the UART is a queue of 32 bytes.  Under any
    sequence of [uartputc] calls and interrupts, a writer is made to wait exactly
    when 32 bytes are pending, and every accepted byte reaches the device once
    and in order, as soon as the device takes it. *)
Theorem uart_equiv es : results uev (Uart ∅ 0 0 []) es = results qev [] es.
Proof.
  assert (urep (Uart ∅ 0 0 []) []) as Hu by (split; cbn; done || lia).
  revert Hu. generalize (Uart ∅ 0 0 []) as u. generalize (@nil Z) as q.
  induction es as [|e es IH]; intros q u Hu; [done|]. cbn [results]. destruct e as [c lsr|lsr]; cbn [uev qev].
  - pose proof (putc_equiv u q c lsr Hu) as Hp. destruct (uartputc u c lsr) as [[u' w]|].
    + destruct Hp as [Hn Hp]. rewrite (proj2 (Z.eqb_neq _ _)) by done. destruct (drain _ _) as [q' out]. destruct Hp as [-> Hu'].
      rewrite drop_app_length. f_equal. by apply IH.
    + rewrite (proj2 (Z.eqb_eq _ _)) by done. f_equal. by apply IH.
  - pose proof (start_equiv lsr u q Hu) as Hs. destruct (drain q lsr) as [q' out]. destruct Hs as [-> Hu'].
    rewrite drop_app_length. f_equal. by apply IH.
Qed.
