(* ===== verification/Monitor.v ===== *)
(** * sleep, wakeup, acquire and release : the kernel's monitors

    Pipes, the console, the log, sleep locks and [wait]/[exit] are all used in
    the same way: a call takes a spin lock [lk], works on the state that [lk]
    protects, calls [wakeup], and may [sleep] on a channel, which releases [lk]
    and takes it again afterwards.  This file models [acquire], [release],
    [sleep], [wakeup], [kill] and the part of [scheduler] they need, one lock
    operation or one entry of the process table at a time, for any such code
    ([nxt]), and proves that it implements atomic bursts: each call is a
    sequence of bursts that run from one sleep to the next in one step.  The
    models of [Pipe], [Console] and [Proc] are written as bursts. *)

From S2P Require Import Prelude.

Inductive procstate := UNUSED | USED | SLEEPING | RUNNABLE | RUNNING | ZOMBIE.
#[export] Instance procstate_eq_dec : EqDecision procstate.
Proof. solve_decision. Defined.

Section Monitor.
Context {St L : Type}.

(** What the code does next while it holds [lk]. *)
Inductive act :=
| Upd (x : St) (l : L)
| Wake (c : Z) (l : L)
| Slp (c : Z) (l : L)
| Ret.
Context (nxt : nat -> L -> St -> act -> Prop).

(** Where a process is.  [l] is its local state, [c] a channel. *)
Inductive pc :=
| Acq (l : L)               (* [acquire(lk)]: spinning *)
| Crit (l : L)              (* holds [lk] *)
| Wk (c : Z) (i : nat) (l : L)   (* [wakeup(c)], next entry [i] *)
| SlAcq (c : Z) (l : L)     (* [sleep]: [acquire(&p->lock)] *)
| SlRel (c : Z) (l : L)     (* [release(lk)] *)
| SlSet (c : Z) (l : L)     (* [p->chan = chan; p->state = SLEEPING] *)
| SlSched (c : Z) (l : L)   (* [sched()]; the scheduler releases [p->lock] *)
| SlOff (c : Z) (l : L)     (* not on a CPU *)
| SlBack (c : Z) (l : L)    (* [p->chan = 0; release(&p->lock)] *)
| Rel                       (* [release(lk)] at the end of the call *)
| Ended.                    (* outside *)

Record thr := Thr { t_pc : pc; t_state : procstate; t_chan : Z; t_lock : bool; t_killed : bool }.
Record sys := Sys { s_st : St; s_lk : option nat; s_thr : list thr }.
Implicit Types (x : St) (l : L) (c : Z) (i j t : nat) (T : list thr).

Definition with_pc (th : thr) (p : pc) : thr := Thr p (t_state th) (t_chan th) (t_lock th) (t_killed th).
Definition with_lock (th : thr) (b : bool) : thr := Thr (t_pc th) (t_state th) (t_chan th) b (t_killed th).
Definition with_state (th : thr) (s : procstate) : thr := Thr (t_pc th) s (t_chan th) (t_lock th) (t_killed th).
Definition with_chan (th : thr) c : thr := Thr (t_pc th) (t_state th) c (t_lock th) (t_killed th).

(** The body of the loops of [wakeup] and [kill], with [p->lock] held. *)
Definition wake1 c (th : thr) : thr :=
  if decide (t_state th = SLEEPING) then
    if t_chan th =? c then with_state th RUNNABLE else th
  else th.
Definition kill1 (th : thr) : thr :=
  let th := Thr (t_pc th) (t_state th) (t_chan th) (t_lock th) true in
  if decide (t_state th = SLEEPING) then with_state th RUNNABLE else th.

Inductive step : sys -> sys -> Prop :=
| st_start x k T t th l : T !! t = Some th -> t_pc th = Ended ->
    step (Sys x k T) (Sys x k (<[t := with_pc th (Acq l)]> T))
| st_acquire x T t th l : T !! t = Some th -> t_pc th = Acq l ->
    step (Sys x None T) (Sys x (Some t) (<[t := with_pc th (Crit l)]> T))
| st_upd x k T t th l x' l' : T !! t = Some th -> t_pc th = Crit l -> nxt t l x (Upd x' l') ->
    step (Sys x k T) (Sys x' k (<[t := with_pc th (Crit l')]> T))
| st_wake x k T t th l c l' : T !! t = Some th -> t_pc th = Crit l -> nxt t l x (Wake c l') ->
    step (Sys x k T) (Sys x k (<[t := with_pc th (Wk c 0 l')]> T))
| st_sleep x k T t th l c l' : T !! t = Some th -> t_pc th = Crit l -> nxt t l x (Slp c l') ->
    step (Sys x k T) (Sys x k (<[t := with_pc th (SlAcq c l')]> T))
| st_ret x k T t th l : T !! t = Some th -> t_pc th = Crit l -> nxt t l x Ret ->
    step (Sys x k T) (Sys x k (<[t := with_pc th Rel]> T))
| st_wake_self x k T t th c l : T !! t = Some th -> t_pc th = Wk c t l ->
    step (Sys x k T) (Sys x k (<[t := with_pc th (Wk c (S t) l)]> T))
| st_wake_one x k T t th c i l p : T !! t = Some th -> t_pc th = Wk c i l -> i <> t ->
    T !! i = Some p -> t_lock p = false ->
    step (Sys x k T) (Sys x k (<[t := with_pc th (Wk c (S i) l)]> (<[i := wake1 c p]> T)))
| st_wake_end x k T t th c l : T !! t = Some th -> t_pc th = Wk c (length T) l ->
    step (Sys x k T) (Sys x k (<[t := with_pc th (Crit l)]> T))
| st_sl_acquire x k T t th c l : T !! t = Some th -> t_pc th = SlAcq c l -> t_lock th = false ->
    step (Sys x k T) (Sys x k (<[t := with_lock (with_pc th (SlRel c l)) true]> T))
| st_sl_release x k T t th c l : T !! t = Some th -> t_pc th = SlRel c l ->
    step (Sys x k T) (Sys x None (<[t := with_pc th (SlSet c l)]> T))
| st_sl_set x k T t th c l : T !! t = Some th -> t_pc th = SlSet c l ->
    step (Sys x k T) (Sys x k (<[t := with_state (with_chan (with_pc th (SlSched c l)) c) SLEEPING]> T))
| st_sl_sched x k T t th c l : T !! t = Some th -> t_pc th = SlSched c l ->
    step (Sys x k T) (Sys x k (<[t := with_lock (with_pc th (SlOff c l)) false]> T))
| st_schedule x k T t th c l : T !! t = Some th -> t_pc th = SlOff c l -> t_lock th = false -> t_state th = RUNNABLE ->
    step (Sys x k T) (Sys x k (<[t := with_lock (with_state (with_pc th (SlBack c l)) RUNNING) true]> T))
| st_sl_back x k T t th c l : T !! t = Some th -> t_pc th = SlBack c l ->
    step (Sys x k T) (Sys x k (<[t := with_lock (with_chan (with_pc th (Acq l)) 0) false]> T))
| st_release x k T t th : T !! t = Some th -> t_pc th = Rel ->
    step (Sys x k T) (Sys x None (<[t := with_pc th Ended]> T))
| st_kill x k T i p : T !! i = Some p -> t_lock p = false ->
    step (Sys x k T) (Sys x k (<[i := kill1 p]> T)).

(** ** Atomic bursts *)

Inductive athr := AReady (l : L) | AAsleep (c : Z) (l : L) | ADone.
Record asys := Asys { a_st : St; a_thr : list athr }.

(** The code from [l], [x] on has come to [l'], [x'] and has woken the channels [W]. *)
Inductive burst (t : nat) (l : L) (x : St) : list Z -> L -> St -> Prop :=
| b_start : burst t l x [] l x
| b_upd W l1 x1 l2 x2 : burst t l x W l1 x1 -> nxt t l1 x1 (Upd x2 l2) -> burst t l x W l2 x2
| b_wake W l1 x1 c l2 : burst t l x W l1 x1 -> nxt t l1 x1 (Wake c l2) -> burst t l x (W ++ [c]) l2 x1.

Definition awake (W : list Z) (a : athr) : athr :=
  match a with AAsleep c l => if decide (c ∈ W) then AReady l else a | _ => a end.

Inductive astep : asys -> asys -> Prop :=
| as_start x A t l : A !! t = Some ADone -> astep (Asys x A) (Asys x (<[t := AReady l]> A))
| as_sleep x A t l W l1 x1 c l2 : A !! t = Some (AReady l) -> burst t l x W l1 x1 -> nxt t l1 x1 (Slp c l2) ->
    astep (Asys x A) (Asys x1 (<[t := AAsleep c l2]> (awake W <$> A)))
| as_ret x A t l W l1 x1 : A !! t = Some (AReady l) -> burst t l x W l1 x1 -> nxt t l1 x1 Ret ->
    astep (Asys x A) (Asys x1 (<[t := ADone]> (awake W <$> A)))
| as_kill x A i c l : A !! i = Some (AAsleep c l) -> astep (Asys x A) (Asys x (<[i := AReady l]> A)).

(** ** The simulation *)

(** Has the burst of the process that holds [lk], now at [p], woken channel [c]
    for process [j]? *)
Definition hits (W : list Z) (p : pc) j c : Prop :=
  c ∈ W \/ match p with Wk c' i _ => c' = c /\ (j < i)%nat | _ => False end.

(** A process that does not hold [lk], and its atomic view. *)
Definition other (hit : Z -> Prop) (th : thr) (a : athr) : Prop :=
  let woken c l := a = AReady l \/ (a = AAsleep c l /\ hit c) in
  match t_pc th with
  | Acq l => t_lock th = false /\ t_state th = RUNNING /\ (a = AReady l \/ exists c, a = AAsleep c l /\ hit c)
  | SlSet c l => t_lock th = true /\ t_state th = RUNNING /\ a = AAsleep c l /\ ~ hit c
  | SlSched c l => t_lock th = true /\ t_state th = SLEEPING /\ t_chan th = c /\ a = AAsleep c l /\ ~ hit c
  | SlOff c l => t_lock th = false /\
      ((t_state th = SLEEPING /\ t_chan th = c /\ a = AAsleep c l /\ ~ hit c) \/ (t_state th = RUNNABLE /\ woken c l))
  | SlBack c l => t_lock th = true /\ t_state th = RUNNING /\ woken c l
  | Ended => t_lock th = false /\ t_state th = RUNNING /\ a = ADone
  | _ => False
  end.

(** The process that holds [lk], whose code is at [l]. *)
Definition holder t (th : thr) l x : Prop :=
  t_state th = RUNNING /\
  match t_pc th with
  | Crit l' => l' = l /\ t_lock th = false
  | Wk c i l' => nxt t l x (Wake c l') /\ t_lock th = false
  | SlAcq c l' => nxt t l x (Slp c l') /\ t_lock th = false
  | SlRel c l' => nxt t l x (Slp c l') /\ t_lock th = true
  | Rel => nxt t l x Ret /\ t_lock th = false
  | _ => False
  end.

Definition base (f : sys) (a : asys) (hit : nat -> Z -> Prop) : Prop :=
  match s_lk f with
  | None => s_st f = a_st a /\ forall j c, ~ hit j c
  | Some h => exists th l0 W l, s_thr f !! h = Some th /\ a_thr a !! h = Some (AReady l0) /\
      burst h l0 (a_st a) W l (s_st f) /\ holder h th l (s_st f) /\ forall j c, hit j c <-> hits W (t_pc th) j c
  end.

Record sim (f : sys) (a : asys) : Prop := Sim {
  sim_len : length (s_thr f) = length (a_thr a);
  sim_hit : exists hit, base f a hit /\
    forall j th b, s_lk f <> Some j -> s_thr f !! j = Some th -> a_thr a !! j = Some b -> other (hit j) th b
}.

Lemma other_ext hit hit' th a : (forall c, hit c <-> hit' c) -> other hit th a -> other hit' th a.
Proof. intros Hh. unfold other. destruct (t_pc th); rewrite ?Hh; try done. intros (? & ? & [?|(c & ? & ?%Hh)]); eauto 6. Qed.

Lemma other_commit W th a : other (fun c => c ∈ W) th a -> other (fun _ => False) th (awake W a).
Proof.
  unfold other. destruct (t_pc th); try done; unfold awake.
  - intros (? & ? & [->|(c & -> & Hc)]); [|rewrite decide_True by done]; (split_and!; [done|done|by left]).
  - intros (? & ? & -> & ?). rewrite decide_False by done. split_and!; [done|done|done|by intros []].
  - intros (? & ? & ? & -> & ?). rewrite decide_False by done. split_and!; [done|done|done|done|by intros []].
  - intros (? & [(? & ? & -> & ?)|(? & [->|[-> ?]])]); [rewrite decide_False by done|rewrite ?decide_True by done..];
      (split; [done|]); [left; split_and!; [done|done|done|by intros []]|right; auto..].
  - intros (? & ? & [->|[-> ?]]); [|rewrite decide_True by done]; (split_and!; [done|done|by left]).
  - intros (? & ? & ->). by split_and!.
Qed.

(** Holders of [lk] are recognised by where they are. *)
Definition inside (p : pc) : bool :=
  match p with Crit _ | Wk _ _ _ | SlAcq _ _ | SlRel _ _ | Rel => true | _ => false end.

Lemma sim_abs f a j th : sim f a -> s_thr f !! j = Some th -> exists b, a_thr a !! j = Some b.
Proof. intros [Hl _] Hj. apply lookup_lt_is_Some_2. rewrite <- Hl. by eapply lookup_lt_Some. Qed.

Lemma sim_inside f a t th : sim f a -> s_thr f !! t = Some th -> inside (t_pc th) = true -> s_lk f = Some t.
Proof.
  intros Hs Ht Hi. destruct (decide (s_lk f = Some t)) as [|Hne]; [done|].
  destruct (sim_abs _ _ _ _ Hs Ht) as [b Hb]. destruct Hs as [_ (hit & _ & Ho)]. specialize (Ho t th b Hne Ht Hb).
  unfold other in Ho. by destruct (t_pc th).
Qed.

Lemma sim_outside f a t th : sim f a -> s_thr f !! t = Some th -> inside (t_pc th) = false -> s_lk f <> Some t.
Proof.
  intros [_ (hit & Hb & _)] Ht Hi E. unfold base in Hb. rewrite E in Hb. destruct Hb as (th' & l0 & W & l & Ht' & _ & _ & [_ Hh] & _).
  rewrite Ht in Ht'. injection Ht' as <-. by destruct (t_pc th).
Qed.

(** A process without [lk] moves; its atomic view may move too. *)
Lemma sim_other x k T A y t th th' b' : sim (Sys x k T) (Asys y A) -> T !! t = Some th -> k <> Some t ->
  (forall hit b, A !! t = Some b -> other hit th b -> other hit th' b') ->
  sim (Sys x k (<[t := th']> T)) (Asys y (<[t := b']> A)).
Proof.
  intros [Hl (hit & Hb & Ho)] Ht Hk Hth. cbn in Hl. split; [cbn; by rewrite !length_insert|]. exists hit. split.
  - unfold base in *. cbn [s_lk s_st s_thr a_st a_thr] in *. destruct k as [h|]; [|done].
    destruct Hb as (th0 & l0 & W & l & H1 & H2 & H3). exists th0, l0, W, l. assert (t <> h) by congruence.
    by rewrite !list_lookup_insert_ne.
  - cbn [s_lk s_thr a_thr] in *. intros j thj b Hj [(-> & -> & _)|[Hne Hj1]]%list_lookup_insert_Some [(E & -> & _)|[Hne' Hj2]]%list_lookup_insert_Some.
    + destruct (lookup_lt_is_Some_2 A j) as [b0 Hb0]; [rewrite <- Hl; by eapply lookup_lt_Some|]. eapply Hth; [done|]. by apply Ho.
    + done.
    + done.
    + by apply Ho.
Qed.

Lemma sim_same x k T A y t th th' : sim (Sys x k T) (Asys y A) -> T !! t = Some th -> k <> Some t ->
  (forall hit b, other hit th b -> other hit th' b) -> sim (Sys x k (<[t := th']> T)) (Asys y A).
Proof.
  intros Hs Ht Hk Hth. destruct (sim_abs _ _ t th Hs Ht) as [b Hb]. cbn in Hb.
  rewrite <- (list_insert_id A t b Hb). eapply sim_other; [done..|]. intros hit b' E. rewrite Hb in E. injection E as <-. apply Hth.
Qed.

(** The process that holds [lk] moves without waking anybody. *)
Lemma sim_holder x x' T a t th th' : sim (Sys x (Some t) T) a -> T !! t = Some th ->
  (forall l0 W l, burst t l0 (a_st a) W l x -> holder t th l x -> exists W' l',
     burst t l0 (a_st a) W' l' x' /\ holder t th' l' x' /\
     forall j c, j <> t -> (j < length T)%nat -> hits W (t_pc th) j c <-> hits W' (t_pc th') j c) ->
  sim (Sys x' (Some t) (<[t := th']> T)) a.
Proof.
  intros [Hl (hit & Hb & Ho)] Ht Hth. unfold base in Hb. cbn [s_lk s_st s_thr] in *.
  destruct Hb as (th0 & l0 & W & l & H1 & H2 & H3 & H4 & H5). rewrite Ht in H1. injection H1 as <-.
  destruct (Hth l0 W l H3 H4) as (W' & l' & H3' & H4' & H5').
  split; [cbn; by rewrite length_insert|]. exists (hits W' (t_pc th')). split.
  - exists th', l0, W', l'. cbn. rewrite list_lookup_insert_eq by (by eapply lookup_lt_Some). done.
  - cbn. intros j thj b Hj Hj1 Hj2. rewrite list_lookup_insert_ne in Hj1 by congruence.
    eapply other_ext; [|by apply (Ho j thj b)]. intros c. rewrite H5. apply H5'; [congruence|]. by eapply lookup_lt_Some.
Qed.

(** [wakeup] passes entry [i], whose lock is free. *)
Lemma wake1_other hit (hit' : Z -> Prop) c th a : t_lock th = false -> (forall d, hit' d <-> hit d \/ d = c) ->
  other hit th a -> other hit' (wake1 c th) a.
Proof.
  intros Hlk Hh Ho. unfold other in Ho. assert (forall l d, (a = AReady l \/ a = AAsleep d l /\ hit d) -> a = AReady l \/ a = AAsleep d l /\ hit' d) as Hm.
  { intros l d [?|[? ?]]; [by left|right]. split; [done|]. apply Hh. by left. }
  unfold wake1. destruct th as [p st ch lk kl]. cbn [t_pc t_state t_chan t_lock] in *. subst lk.
  destruct p as [l|l|c' i l|c' l|c' l|c' l|c' l|c' l|c' l| |]; try done; try (destruct Ho; discriminate).
  - destruct Ho as (_ & -> & Ho). cbn. split_and!; [done|done|]. destruct Ho as [?|(d & -> & Hd)]; [by left|right].
    exists d. split; [done|]. apply Hh. by left.
  - destruct Ho as (_ & [(-> & -> & -> & Hn)|(-> & Hw)]); cbn.
    + rewrite decide_True by done. destruct (Z.eqb_spec c' c) as [->|Hne]; cbn; (split; [done|]).
      * right. split; [done|right]. split; [done|]. apply Hh. by right.
      * left. split_and!; [done..|]. rewrite Hh. tauto.
    + split; [done|right]. split; [done|]. by apply Hm.
  - destruct Ho as (_ & -> & ->). cbn. done.
Qed.

Lemma sim_wake_one x T a t th c i l p : sim (Sys x (Some t) T) a -> T !! t = Some th -> t_pc th = Wk c i l -> i <> t ->
  T !! i = Some p -> t_lock p = false ->
  sim (Sys x (Some t) (<[t := with_pc th (Wk c (S i) l)]> (<[i := wake1 c p]> T))) a.
Proof.
  intros [Hl (hit & Hb & Ho)] Ht Hpc Hne Hi Hlk. unfold base in Hb. cbn [s_lk s_st s_thr] in *.
  destruct Hb as (th0 & l0 & W & l1 & H1 & H2 & H3 & H4 & H5). rewrite Ht in H1. injection H1 as <-.
  split; [cbn; by rewrite !length_insert|]. exists (hits W (Wk c (S i) l)). split.
  - exists (with_pc th (Wk c (S i) l)), l0, W, l1. cbn.
    rewrite list_lookup_insert_eq by (rewrite length_insert; by eapply lookup_lt_Some).
    split_and!; [done..| |done]. unfold holder in *. rewrite Hpc in H4. by cbn.
  - cbn. intros j thj b Hj Hj1 Hj2. rewrite list_lookup_insert_ne in Hj1 by congruence.
    apply list_lookup_insert_Some in Hj1 as [(-> & <- & _)|[Hij Hj1]].
    + eapply wake1_other; [done| |by apply (Ho j p b)]. intros d. rewrite H5, Hpc. unfold hits. intuition lia.
    + eapply other_ext; [|by apply (Ho j thj b)]. intros d. rewrite H5, Hpc. unfold hits. intuition lia.
Qed.

(** The burst ends with the release of [lk]. *)
Lemma sim_commit x T a t th th' b' W l0 l x1 : x1 = x -> length T = length (a_thr a) -> T !! t = Some th -> a_thr a !! t = Some (AReady l0) ->
  (forall j thj b, Some t <> Some j -> T !! j = Some thj -> a_thr a !! j = Some b -> other (fun c => c ∈ W) thj b) ->
  burst t l0 (a_st a) W l x -> other (fun _ => False) th' b' ->
  sim (Sys x1 None (<[t := th']> T)) (Asys x (<[t := b']> (awake W <$> a_thr a))).
Proof.
  intros -> Hl Ht Ha Ho Hb Hth. split; [cbn; by rewrite !length_insert, length_fmap|].
  exists (fun _ _ => False). split; [cbn; tauto|]. cbn.
  intros j thj b _ [(-> & -> & _)|[Hne Hj1]]%list_lookup_insert_Some [(E & -> & _)|[Hne' Hj2]]%list_lookup_insert_Some; [done..|].
  apply list_lookup_fmap_Some in Hj2 as (b0 & -> & Hj2). apply other_commit. apply (Ho j thj b0); [congruence|done|done].
Qed.

Lemma sim_open x T a t th : sim (Sys x (Some t) T) a -> T !! t = Some th -> (forall c i l, t_pc th <> Wk c i l) ->
  exists l0 W l, a_thr a !! t = Some (AReady l0) /\ burst t l0 (a_st a) W l x /\ holder t th l x /\
    forall j thj b, Some t <> Some j -> T !! j = Some thj -> a_thr a !! j = Some b -> other (fun c => c ∈ W) thj b.
Proof.
  intros [Hl (hit & Hb & Ho)] Ht Hpc. unfold base in Hb. cbn [s_lk s_st s_thr] in *.
  destruct Hb as (th0 & l0 & W & l & H1 & H2 & H3 & H4 & H5). rewrite Ht in H1. injection H1 as <-.
  exists l0, W, l. split_and!; [done..|]. intros j thj b Hj Hj1 Hj2. eapply other_ext; [|by apply (Ho j thj b)].
  intros c. rewrite H5. unfold hits. destruct (t_pc th) eqn:E; try tauto. by destruct (Hpc c0 i l1).
Qed.

(** The steps of the process that holds [lk], up to the release. *)
Lemma sim_holder_step x k T a t th th' x' : sim (Sys x k T) a -> T !! t = Some th -> inside (t_pc th) = true ->
  (forall l0 W l, burst t l0 (a_st a) W l x -> holder t th l x -> exists W' l',
     burst t l0 (a_st a) W' l' x' /\ holder t th' l' x' /\
     forall j c, j <> t -> (j < length T)%nat -> hits W (t_pc th) j c <-> hits W' (t_pc th') j c) ->
  exists a', rtc astep a a' /\ sim (Sys x' k (<[t := th']> T)) a'.
Proof.
  intros Hs Ht Hi Hth. pose proof (sim_inside _ _ _ _ Hs Ht Hi) as E. cbn in E. subst k.
  exists a. split; [apply rtc_refl|]. by eapply sim_holder.
Qed.

Lemma sim_other_step x k T a t th th' : sim (Sys x k T) a -> T !! t = Some th -> inside (t_pc th) = false ->
  (forall hit b, other hit th b -> other hit th' b) -> exists a', rtc astep a a' /\ sim (Sys x k (<[t := th']> T)) a'.
Proof.
  intros Hs Ht Hi Hth. pose proof (sim_outside _ _ _ _ Hs Ht Hi) as E. destruct a as [y A].
  exists (Asys y A). split; [apply rtc_refl|]. by eapply sim_same.
Qed.

Lemma sim_start x k T a t th l : sim (Sys x k T) a -> T !! t = Some th -> t_pc th = Ended ->
  exists a', rtc astep a a' /\ sim (Sys x k (<[t := with_pc th (Acq l)]> T)) a'.
Proof.
  intros Hs Ht Hpc. destruct a as [y A]. destruct (sim_abs _ _ _ _ Hs Ht) as [b Hb]. cbn in Hb.
  assert (b = ADone) as ->.
  { pose proof (sim_outside _ _ _ _ Hs Ht ltac:(by rewrite Hpc)) as Hk. destruct Hs as [_ (hit & _ & Ho)].
    specialize (Ho t th b Hk Ht Hb). unfold other in Ho. rewrite Hpc in Ho. tauto. }
  exists (Asys y (<[t := AReady l]> A)). split; [apply rtc_once; by constructor|].
  eapply sim_other; [done|done|by apply (sim_outside _ _ _ _ Hs Ht); rewrite Hpc|].
  intros hit b _ Ho. unfold other in *. rewrite Hpc in Ho. cbn. split_and!; [tauto..|by left].
Qed.

Lemma sim_acquire x T a t th l : sim (Sys x None T) a -> T !! t = Some th -> t_pc th = Acq l ->
  sim (Sys x (Some t) (<[t := with_pc th (Crit l)]> T)) a.
Proof.
  intros Hs Ht Hpc. destruct a as [y A]. destruct (sim_abs _ _ _ _ Hs Ht) as [b Hb]. cbn in Hb.
  destruct Hs as [Hl (hit & Hbs & Ho)]. cbn in Hbs. destruct Hbs as [-> Hh]. cbn in Hl.
  pose proof (Ho t th b ltac:(done) Ht Hb) as Hot. unfold other in Hot. rewrite Hpc in Hot.
  destruct Hot as (Hlk & Hrun & [->|(c & -> & ?%Hh)]); [|done].
  split; [cbn; by rewrite length_insert|]. exists (hits [] (Crit l)). split.
  - cbn. exists (with_pc th (Crit l)), l, [], l. rewrite list_lookup_insert_eq by (by eapply lookup_lt_Some).
    split_and!; [done|done|apply b_start|done|done].
  - cbn. intros j thj b' Hj Hj1 Hj2. rewrite list_lookup_insert_ne in Hj1 by congruence.
    eapply other_ext; [|by apply (Ho j thj b')]. intros c. unfold hits. split; [by intros ?%Hh|]. by intros [?%not_elem_of_nil|?].
Qed.

(** [sleep] releases [lk]: the burst ends asleep. *)
Lemma sim_sleep x T a t th c l : sim (Sys x (Some t) T) a -> T !! t = Some th -> t_pc th = SlRel c l ->
  exists a', rtc astep a a' /\ sim (Sys x None (<[t := with_pc th (SlSet c l)]> T)) a'.
Proof.
  intros Hs Ht Hpc. destruct a as [y A].
  destruct (sim_open _ _ _ _ _ Hs Ht ltac:(by rewrite Hpc)) as (l0 & W & l1 & Ha & Hb & Hh & Ho).
  unfold holder in Hh. rewrite Hpc in Hh. destruct Hh as (Hrun & Hn & Hlk).
  exists (Asys x (<[t := AAsleep c l]> (awake W <$> A))). split; [apply rtc_once; by eapply as_sleep|].
  eapply (sim_commit x T (Asys y A)); [done|apply Hs|done..|]. unfold other. cbn. split_and!; [done|done|done|by intros []].
Qed.

Lemma sim_release x T a t th : sim (Sys x (Some t) T) a -> T !! t = Some th -> t_pc th = Rel ->
  exists a', rtc astep a a' /\ sim (Sys x None (<[t := with_pc th Ended]> T)) a'.
Proof.
  intros Hs Ht Hpc. destruct a as [y A].
  destruct (sim_open _ _ _ _ _ Hs Ht ltac:(by rewrite Hpc)) as (l0 & W & l1 & Ha & Hb & Hh & Ho).
  unfold holder in Hh. rewrite Hpc in Hh. destruct Hh as (Hrun & Hn & Hlk).
  exists (Asys x (<[t := ADone]> (awake W <$> A))). split; [apply rtc_once; by eapply as_ret|].
  eapply (sim_commit x T (Asys y A)); [done|apply Hs|done..|]. unfold other. cbn. by split_and!.
Qed.

Lemma kill1_awake th : t_state th <> SLEEPING -> kill1 th = Thr (t_pc th) (t_state th) (t_chan th) (t_lock th) true.
Proof. intros Hn. unfold kill1. cbn. by rewrite decide_False. Qed.

Lemma sim_kill x k T a i p : sim (Sys x k T) a -> T !! i = Some p -> t_lock p = false ->
  exists a', rtc astep a a' /\ sim (Sys x k (<[i := kill1 p]> T)) a'.
Proof.
  intros Hs Hi Hlk. destruct (inside (t_pc p)) eqn:Hin.
  { eapply sim_holder_step; [done..|]. intros l0 W l Hb Hh. exists W, l. pose proof Hh as [Hrun _].
    rewrite kill1_awake by congruence. split_and!; [done|exact Hh|done]. }
  destruct (decide (t_state p = SLEEPING)) as [Hsl|Hsl].
  2:{ eapply sim_other_step; [done..|]. intros hit b. by rewrite kill1_awake. }
  destruct a as [y A]. destruct (sim_abs _ _ _ _ Hs Hi) as [b Hb]. cbn in Hb.
  pose proof (sim_outside _ _ _ _ Hs Hi Hin) as Hk. pose proof Hs as [_ (hit & _ & Ho)]. specialize (Ho i p b Hk Hi Hb).
  unfold other in Ho. rewrite Hsl in Ho. destruct (t_pc p) as [| | | | | |c l|c l| | |] eqn:Hpc; try done; try (exfalso; destruct_and?; congruence).
  destruct Ho as (_ & [(_ & Hch & -> & _)|[? _]]); [|done].
  exists (Asys y (<[i := AReady l]> A)). split; [apply rtc_once; by eapply as_kill|].
  eapply sim_other; [done..|]. intros hit' b' _ _. unfold other, kill1. cbn. rewrite decide_True by done. cbn. rewrite Hpc. auto.
Qed.

Ltac inside_step Hpc := eapply sim_holder_step; [done|done|by rewrite Hpc|];
  intros l0 W l1 Hb Hh; unfold holder in Hh; rewrite Hpc in Hh.
Ltac outside_step Hpc := eapply sim_other_step; [done|done|by rewrite Hpc|];
  intros hit b Ho; unfold other in *; rewrite Hpc in Ho; cbn.

Lemma sim_step f f' a : sim f a -> step f f' -> exists a', rtc astep a a' /\ sim f' a'.
Proof.
  intros Hs Hst. destruct Hst as [x k T t th l Ht Hpc|x T t th l Ht Hpc|x k T t th l x' l' Ht Hpc Hn|x k T t th l c l' Ht Hpc Hn
    |x k T t th l c l' Ht Hpc Hn|x k T t th l Ht Hpc Hn|x k T t th c l Ht Hpc|x k T t th c i l p Ht Hpc Hne Hi Hlk
    |x k T t th c l Ht Hpc|x k T t th c l Ht Hpc Hlk|x k T t th c l Ht Hpc|x k T t th c l Ht Hpc|x k T t th c l Ht Hpc
    |x k T t th c l Ht Hpc Hlk Hrun|x k T t th c l Ht Hpc|x k T t th Ht Hpc|x k T i p Hi Hlk].
  - by eapply sim_start.
  - exists a. split; [apply rtc_refl|]. by apply sim_acquire.
  - (* update *) inside_step Hpc. destruct Hh as (Hrun & <- & Hlk).
    exists W, l'. split_and!; [by eapply b_upd|done|]. intros j c _ _. by rewrite Hpc.
  - (* wakeup *) inside_step Hpc. destruct Hh as (Hrun & <- & Hlk).
    exists W, l. split_and!; [done|done|]. intros j d _ _. rewrite Hpc. unfold hits. cbn. intuition lia.
  - (* sleep *) inside_step Hpc. destruct Hh as (Hrun & <- & Hlk). exists W, l. split_and!; [done|done|]. intros j d _ _. by rewrite Hpc.
  - (* return *) inside_step Hpc. destruct Hh as (Hrun & <- & Hlk). exists W, l. split_and!; [done|done|]. intros j d _ _. by rewrite Hpc.
  - (* wakeup skips itself *) inside_step Hpc. exists W, l1. split_and!; [done|done|]. intros j d Hj _. rewrite Hpc. unfold hits. cbn. intuition lia.
  - (* wakeup of one process *) pose proof (sim_inside _ _ _ _ Hs Ht ltac:(by rewrite Hpc)) as E. cbn in E. subst k.
    exists a. split; [apply rtc_refl|]. by eapply sim_wake_one.
  - (* end of wakeup *) inside_step Hpc. destruct Hh as (Hrun & Hn & Hlk).
    exists (W ++ [c]), l. split_and!; [by eapply b_wake|done|]. intros j d Hj Hlt. rewrite Hpc. unfold hits. cbn.
    rewrite elem_of_app, list_elem_of_singleton. intuition congruence.
  - (* sleep takes p->lock *) inside_step Hpc. exists W, l1. split_and!; [done|unfold holder; cbn; tauto|]. intros j d _ _. by rewrite Hpc.
  - pose proof (sim_inside _ _ _ _ Hs Ht ltac:(by rewrite Hpc)) as E. cbn in E. subst k. by apply sim_sleep.
  - (* sleep sets the state *) outside_step Hpc. tauto.
  - (* the scheduler releases p->lock *) outside_step Hpc. tauto.
  - (* scheduled again *) outside_step Hpc. rewrite Hrun in Ho. destruct Ho as (_ & [[? _]|[_ Ho]]); [done|tauto].
  - (* back in sleep *) outside_step Hpc. split_and!; [tauto..|]. destruct Ho as (_ & _ & [?|?]); [by left|right; by exists c].
  - pose proof (sim_inside _ _ _ _ Hs Ht ltac:(by rewrite Hpc)) as E. cbn in E. subst k. by apply sim_release.
  - by apply sim_kill.
Qed.

(** The atomic view of a process that does not hold [lk]. *)
Definition view (th : thr) : athr :=
  match t_pc th with
  | SlSet c l | SlSched c l => AAsleep c l
  | SlOff c l => if decide (t_state th = SLEEPING) then AAsleep c l else AReady l
  | Acq l | Crit l | Wk _ _ l | SlAcq _ l | SlRel _ l | SlBack _ l => AReady l
  | Rel | Ended => ADone
  end.

Definition idle : thr := Thr Ended RUNNING 0 false false.

Lemma monitor_sim x n f : rtc step (Sys x None (replicate n idle)) f ->
  exists a, rtc astep (Asys x (replicate n ADone)) a /\ sim f a.
Proof.
  intros Hr. assert (sim (Sys x None (replicate n idle)) (Asys x (replicate n ADone))) as H0.
  { split; [cbn; by rewrite !length_replicate|]. exists (fun _ _ => False). split; [cbn; tauto|]. cbn.
    intros j th b _ [-> _]%lookup_replicate [-> _]%lookup_replicate. by unfold other. }
  revert H0. generalize (Asys x (replicate n ADone)). induction Hr as [|f1 f2 f3 Hst _ IH]; intros a H0.
  - exists a. split; [apply rtc_refl|done].
  - destruct (sim_step _ _ _ H0 Hst) as (a1 & Ha1 & H1). destruct (IH a1 H1) as (a2 & Ha2 & H2).
    exists a2. split; [by etrans|done].
Qed.

Lemma sim_view f a : sim f a -> s_lk f = None -> a_st a = s_st f /\ a_thr a = view <$> s_thr f.
Proof.
  intros [Hl (hit & Hb & Ho)] Hk. unfold base in Hb. rewrite Hk in Hb, Ho. destruct Hb as [-> Hh]. split; [done|].
  apply list_eq_same_length with (n := length (s_thr f)); [by rewrite length_fmap|by symmetry|].
  intros j b b' _ Hj Hj'. apply list_lookup_fmap_Some in Hj' as (th & -> & Ht). specialize (Ho j th b ltac:(done) Ht Hj).
  unfold other in Ho. unfold view. pose proof (Hh j).
  destruct (t_pc th); destruct_and?; repeat destruct_or?; repeat (match goal with H : exists _, _ |- _ => destruct H end || destruct_and?);
    try done; try (exfalso; naive_solver); [by rewrite decide_True|].
  rewrite decide_False by congruence. naive_solver.
Qed.

(** C18: [sleep], [wakeup], [acquire] and [release] make monitors.  For any code
    that works under a lock and sleeps and wakes on channels, with any number of
    processes interleaved at every lock operation, and with [kill] at any time:
    only the process that holds the lock is inside, and whenever the lock is free
    the shared state and the state of every process (ready, asleep on a channel,
    done) are those of an execution in which each process runs from one sleep to
    the next in one step and a wake-up reaches every process asleep on the
    channel.  So no wake-up is lost between the release of the lock and the
    change of the process state in [sleep]. *)
Theorem monitor_atomic x n f : rtc step (Sys x None (replicate n idle)) f ->
  (forall t th, s_thr f !! t = Some th -> inside (t_pc th) = true -> s_lk f = Some t) /\
  (s_lk f = None -> exists a, rtc astep (Asys x (replicate n ADone)) a /\
     a_st a = s_st f /\ a_thr a = view <$> s_thr f).
Proof.
  intros Hr. destruct (monitor_sim _ _ _ Hr) as (a & Ha & Hs). split; [intros t th Ht Hi; by eapply sim_inside|].
  intros Hk. exists a. split; [done|]. by apply sim_view.
Qed.
End Monitor.
Arguments act : clear implicits.
Arguments pc : clear implicits.
Arguments thr : clear implicits.
Arguments sys : clear implicits.
Arguments athr : clear implicits.
Arguments asys : clear implicits.

(** ** Sleep locks (kernel/sleeplock.c) as a monitor *)

(** [lk->locked] and [lk->pid], protected by [lk->lk]. *)
Record slock := Slock { sl_locked : bool; sl_pid : Z }.

Inductive slcode :=
| AcqTest                   (* [while(lk->locked) sleep(lk, &lk->lk)] *)
| RelClear                  (* [lk->locked = 0; lk->pid = 0] *)
| RelWake                   (* [wakeup(lk)] *)
| Fin.                      (* [release(&lk->lk)] *)

(** The sleep lock at address [a], for the process with pid [t]. *)
Inductive sl_next (a : Z) (t : nat) : slcode -> slock -> act slock slcode -> Prop :=
| sl_wait x : sl_locked x = true -> sl_next a t AcqTest x (Slp a AcqTest)
| sl_take x : sl_locked x = false -> sl_next a t AcqTest x (Upd (Slock true (Z.of_nat t)) Fin)
| sl_clear x : sl_next a t RelClear x (Upd (Slock false 0) RelWake)
| sl_wake x : sl_next a t RelWake x (Wake a Fin)
| sl_ret x : sl_next a t Fin x Ret.

(** A process asleep waits for this lock, and the lock is taken. *)
Definition sl_inv (a : Z) (s : asys slock slcode) : Prop :=
  forall j c l, a_thr s !! j = Some (AAsleep c l) -> c = a /\ l = AcqTest /\ sl_locked (a_st s) = true.

(** Within a burst: after the lock was freed, either the wake-up is still to
    come, or it has happened. *)
Lemma sl_burst a t l x W l' x' : burst (sl_next a) t l x W l' x' ->
  (x' = x \/ sl_locked x' = true \/ l' = RelWake \/ a ∈ W) /\ (l' = AcqTest -> x' = x) /\ (l' = RelWake -> sl_locked x' = false \/ x' = x).
Proof.
  induction 1 as [|W l1 x1 l2 x2 _ IH Hn|W l1 x1 c l2 _ IH Hn].
  - tauto.
  - inversion Hn; subst; cbn; split_and!; auto; done.
  - inversion Hn; subst. split_and!; [|done|done]. right; right; right. set_solver.
Qed.

Lemma sl_step a s s' : sl_inv a s -> astep (sl_next a) s s' -> sl_inv a s'.
Proof.
  intros Hi Hst. destruct Hst as [x A t l Ht|x A t l W l1 x1 c l2 Ht Hb Hn|x A t l W l1 x1 Ht Hb Hn|x A i c l Hc]; unfold sl_inv in *; cbn in *.
  - intros j c l' [(-> & ? & _)|[_ Hj]]%list_lookup_insert_Some; [done|by eapply Hi].
  - destruct (sl_burst _ _ _ _ _ _ _ Hb) as (H1 & H2 & H3). inversion Hn; subst. assert (x1 = x) as -> by (by apply H2).
    intros j c' l' [(-> & E & _)|[_ Hj]]%list_lookup_insert_Some; [by injection E as -> ->|].
    apply list_lookup_fmap_Some in Hj as (b & E & Hj). destruct b as [|d l3|]; cbn in E; try done. case_decide; [done|].
    injection E as -> ->. by eapply Hi.
  - destruct (sl_burst _ _ _ _ _ _ _ Hb) as (H1 & H2 & H3). inversion Hn; subst.
    intros j c' l' [(-> & E & _)|[_ Hj]]%list_lookup_insert_Some; [done|].
    apply list_lookup_fmap_Some in Hj as (b & E & Hj). destruct b as [|d l3|]; cbn in E; try done. case_decide as Hd; [done|].
    injection E as -> ->. destruct (Hi _ _ _ Hj) as (-> & -> & Hl). split_and!; [done|done|].
    destruct H1 as [->|[?|[?|?]]]; done.
  - intros j c' l' [(-> & ? & _)|[_ Hj]]%list_lookup_insert_Some; [done|by eapply Hi].
Qed.

(** C38: no process is left asleep on a free sleep lock.  With any number of
    processes that call [acquiresleep] and [releasesleep], interleaved at every
    lock operation, and killed at any time: whenever the spin lock of the sleep
    lock is free and a process is asleep in [acquiresleep] (or has released the
    spin lock to go to sleep), the sleep lock is taken. *)
Theorem sleeplock_wakeups a x n f : rtc (step (sl_next a)) (Sys x None (replicate n idle)) f -> s_lk f = None ->
  forall t th c l, s_thr f !! t = Some th -> view th = AAsleep c l -> sl_locked (s_st f) = true.
Proof.
  intros Hr Hk t th c l Ht Hv. destruct (monitor_sim _ _ _ _ Hr) as (s & Hs & Hsim). destruct (sim_view _ _ _ Hsim Hk) as [<- Ea].
  assert (sl_inv a s) as Hi.
  { assert (sl_inv a (Asys x (replicate n ADone))) as H0 by (intros j c' l' [? _]%lookup_replicate; done).
    revert H0. clear -Hs. induction Hs as [|s1 s2 s3 Hst _ IH]; [done|]. intros H0. apply IH. by eapply sl_step. }
  apply (Hi t c l). rewrite Ea, list_lookup_fmap, Ht. cbn. by rewrite Hv.
Qed.

(** Process 0 takes the lock; process 1 goes to sleep on it. *)
Definition ex_slock : sys slock slcode := Sys (Slock true 0) None
  [idle; Thr (SlOff 7 AcqTest) SLEEPING 7 false false].

Lemma ex_slock_run : rtc (step (sl_next 7)) (Sys (Slock false 0) None (replicate 2 idle)) ex_slock.
Proof.
  eapply rtc_l; [apply (st_start _ _ _ _ 0 idle AcqTest); reflexivity|]. cbn.
  eapply rtc_l; [eapply (st_acquire _ _ _ 0); reflexivity|]. cbn.
  eapply rtc_l; [eapply (st_upd _ _ _ _ 0); [reflexivity|reflexivity|by constructor]|]. cbn.
  eapply rtc_l; [eapply (st_ret _ _ _ _ 0); [reflexivity|reflexivity|constructor]|]. cbn.
  eapply rtc_l; [eapply (st_release _ _ _ _ 0); reflexivity|]. cbn.
  eapply rtc_l; [eapply (st_start _ _ _ _ 1 _ AcqTest); reflexivity|]. cbn.
  eapply rtc_l; [eapply (st_acquire _ _ _ 1); reflexivity|]. cbn.
  eapply rtc_l; [eapply (st_sleep _ _ _ _ 1); [reflexivity|reflexivity|by constructor]|]. cbn.
  eapply rtc_l; [eapply (st_sl_acquire _ _ _ _ 1); reflexivity|]. cbn.
  eapply rtc_l; [eapply (st_sl_release _ _ _ _ 1); reflexivity|]. cbn.
  eapply rtc_l; [eapply (st_sl_set _ _ _ _ 1); reflexivity|]. cbn.
  eapply rtc_l; [eapply (st_sl_sched _ _ _ _ 1); reflexivity|]. cbn. apply rtc_refl.
Qed.

Lemma monitor_atomic_witness : exists a, rtc (astep (sl_next 7)) (Asys (Slock false 0) (replicate 2 ADone)) a /\
  a_st a = Slock true 0 /\ a_thr a = [ADone; AAsleep 7 AcqTest].
Proof.
  destruct (monitor_atomic (sl_next 7) (Slock false 0) 2 ex_slock) as [_ H]; [apply ex_slock_run|].
  destruct (H eq_refl) as (a & H1 & H2 & H3). exists a. split; [exact H1|]. split; [exact H2|]. rewrite H3. reflexivity.
Defined.

Lemma sleeplock_wakeups_witness : sl_locked (s_st ex_slock) = true.
Proof.
  apply (sleeplock_wakeups 7 (Slock false 0) 2 ex_slock) with (t := 1%nat) (th := Thr (SlOff 7 AcqTest) SLEEPING 7 false false) (c := 7) (l := AcqTest);
    [apply ex_slock_run|reflexivity..].
Defined.
