(* ===== verification/Proc.v ===== *)
(** * kernel/proc.c : the process table

    Each definition is what the code does between taking and releasing the locks
    that make it atomic: [p->lock] for one entry, [wait_lock] for the calls that
    use [parent] ([Monitor] justifies this for code that sleeps).  A process is
    an index in the table.  What other parts return is an argument: the page
    that [kalloc] gives for the trapframe and the page table of
    [proc_pagetable] (0 on failure), and whether [uvmcopy] and [copyout]
    succeed.  [ofile] and [cwd] are in [File] and [Fs]. *)

From Stdlib Require Import Ascii.
From S2P Require Import Prelude Riscv CString Printf Monitor.

Definition NPROC : nat := 64.

Record proc := Proc {
  p_state : procstate;
  p_chan : Z;
  p_killed : bool;
  p_xstate : Z;
  p_pid : Z;
  p_parent : option nat;
  p_sz : Z;
  p_pagetable : Z;
  p_trapframe : Z;
  p_name : list Z
}.
Definition proc0 : proc := Proc UNUSED 0 false 0 0 None 0 0 0 [].
Implicit Types (p np me i : nat) (q : proc) (T : list proc).

Definition set_state (s : procstate) q : proc :=
  Proc s (p_chan q) (p_killed q) (p_xstate q) (p_pid q) (p_parent q) (p_sz q) (p_pagetable q) (p_trapframe q) (p_name q).
Definition set_chan (c : Z) q : proc :=
  Proc (p_state q) c (p_killed q) (p_xstate q) (p_pid q) (p_parent q) (p_sz q) (p_pagetable q) (p_trapframe q) (p_name q).
Definition set_killed q : proc :=
  Proc (p_state q) (p_chan q) true (p_xstate q) (p_pid q) (p_parent q) (p_sz q) (p_pagetable q) (p_trapframe q) (p_name q).
Definition set_xstate (x : Z) q : proc :=
  Proc (p_state q) (p_chan q) (p_killed q) x (p_pid q) (p_parent q) (p_sz q) (p_pagetable q) (p_trapframe q) (p_name q).
Definition set_parent (r : option nat) q : proc :=
  Proc (p_state q) (p_chan q) (p_killed q) (p_xstate q) (p_pid q) r (p_sz q) (p_pagetable q) (p_trapframe q) (p_name q).
Definition set_image (sz : Z) (name : list Z) q : proc :=
  Proc (p_state q) (p_chan q) (p_killed q) (p_xstate q) (p_pid q) (p_parent q) sz (p_pagetable q) (p_trapframe q) name.

Definition upd T i (f : proc -> proc) : list proc := alter f i T.

(** The channel of a process: its address in the table. *)
Definition paddr p : Z := Z.of_nat p + 1.

(** [freeproc]: the entry, and the pages given back. *)
Definition freeproc q : proc * list Z :=
  (proc0, (if p_trapframe q =? 0 then [] else [p_trapframe q]) ++ (if p_pagetable q =? 0 then [] else [p_pagetable q])).

Definition allocpid (nextpid : Z) : Z * Z := (nextpid, i32 (nextpid + 1)).

Fixpoint find_unused T : option nat :=
  match T with
  | [] => None
  | q :: T => if decide (p_state q = UNUSED) then Some 0%nat else S <$> find_unused T
  end.

(** The entry found by [allocproc], filled in; or the failure, with the pages freed. *)
Definition fill (pid tf pt : Z) q : proc * bool * list Z :=
  let q := Proc USED (p_chan q) (p_killed q) (p_xstate q) pid (p_parent q) (p_sz q) (p_pagetable q) tf (p_name q) in
  if tf =? 0 then let '(q, fr) := freeproc q in (q, false, fr)
  else
    let q := Proc (p_state q) (p_chan q) (p_killed q) (p_xstate q) (p_pid q) (p_parent q) (p_sz q) pt (p_trapframe q) (p_name q) in
    if pt =? 0 then let '(q, fr) := freeproc q in (q, false, fr)
    else (q, true, []).

Record ptable := Ptable { procs : list proc; nextpid : Z; initproc : nat }.

(** The result: the table, the new process, the pages freed. *)
Definition allocproc (s : ptable) (tf pt : Z) : ptable * option nat * list Z :=
  match find_unused (procs s) with
  | None => (s, None, [])
  | Some i =>
      let '(pid, next) := allocpid (nextpid s) in
      let '(q, ok, fr) := fill pid tf pt (default proc0 (procs s !! i)) in
      (Ptable (<[i := q]> (procs s)) next (initproc s), (if (ok : bool) then Some i else None), fr)
  end.

Definition userinit (tf pt : Z) : ptable :=
  let '(s, p, _) := allocproc (Ptable (replicate NPROC proc0) 1 0) tf pt in
  let p := default 0%nat p in
  Ptable (upd (procs s) p (fun q => set_state RUNNABLE (set_image PGSIZE (bytes "initcode") q))) (nextpid s) p.

(** ** fork *)

(** Up to [release(&np->lock)]. *)
Definition fork_alloc (s : ptable) p (tf pt : Z) (copied : bool) : ptable * option nat * list Z :=
  let '(s, np, fr) := allocproc s tf pt in
  match np with
  | None => (s, None, fr)
  | Some np =>
      if copied then
        let me := default proc0 (procs s !! p) in
        (Ptable (upd (procs s) np (set_image (p_sz me) (p_name me))) (nextpid s) (initproc s), Some np, fr)
      else
        let '(q, fr) := freeproc (default proc0 (procs s !! np)) in
        (Ptable (<[np := q]> (procs s)) (nextpid s) (initproc s), None, fr)
  end.
(** [np->parent = p], and [np->state = RUNNABLE] *)
Definition fork_parent T p np : list proc := upd T np (set_parent (Some p)).
Definition fork_ready T np : list proc := upd T np (set_state RUNNABLE).

(** ** Sleeping and waking *)

Definition wake (c : Z) q : proc :=
  if decide (p_state q = SLEEPING) then if p_chan q =? c then set_state RUNNABLE q else q else q.
Definition wakeup me (c : Z) T : list proc := imap (fun i q => if decide (i = me) then q else wake c q) T.
Definition sleep me (c : Z) T : list proc := upd T me (fun q => set_state SLEEPING (set_chan c q)).

(** [kill]: the first entry with the pid. *)
Fixpoint kill (pid : Z) T : option (list proc) :=
  match T with
  | [] => None
  | q :: T =>
      if p_pid q =? pid then
        let q := set_killed q in
        Some ((if decide (p_state q = SLEEPING) then set_state RUNNABLE q else q) :: T)
      else (q ::.) <$> kill pid T
  end.
Definition setkilled T p : list proc := upd T p set_killed.
Definition killed T p : bool := p_killed (default proc0 (T !! p)).

(** ** exit and wait *)

(** One round of the loop of [reparent]. *)
Definition reparent1 init me p T i : list proc :=
  match T !! i with
  | Some q => if decide (p_parent q = Some p) then wakeup me (paddr init) (<[i := set_parent (Some init) q]> T) else T
  | None => T
  end.
Definition reparent init p T : list proc := foldl (reparent1 init p p) T (seq 0 (length T)).

(** From [acquire(&wait_lock)] to [sched]; [None] is the panic for init. *)
Definition exit (s : ptable) p (status : Z) : option ptable :=
  if decide (p = initproc s) then None
  else
    let T := reparent (initproc s) p (procs s) in
    let T := match p_parent (default proc0 (T !! p)) with
             | Some r => wakeup p (paddr r) T
             | None => wakeup p 0 T
             end in
    Some (Ptable (upd T p (fun q => set_state ZOMBIE (set_xstate status q))) (nextpid s) (initproc s)).

Inductive scan := Found (i : nat) | Kids | NoKids.
Fixpoint wait_scan p T (i : nat) (havekids : bool) : scan :=
  match T with
  | [] => if havekids then Kids else NoKids
  | q :: T =>
      if decide (p_parent q = Some p) then
        if decide (p_state q = ZOMBIE) then Found i else wait_scan p T (S i) true
      else wait_scan p T (S i) havekids
  end.

(** One burst of [wait]: it returns a value, or sleeps. *)
Inductive wresult := WReturn (r : Z) | WSleep.
Definition wait T p (copied : bool) : list proc * wresult * list Z :=
  match wait_scan p T 0 false with
  | Found i =>
      let q := default proc0 (T !! i) in
      if copied then let '(q', fr) := freeproc q in (<[i := q']> T, WReturn (p_pid q), fr)
      else (T, WReturn (-1), [])
  | NoKids => (T, WReturn (-1), [])
  | Kids => if killed T p then (T, WReturn (-1), []) else (sleep p (paddr p) T, WSleep, [])
  end.

(** ** The scheduler *)

(** [c->proc] of each CPU.  [swtch] to a RUNNABLE process, and back. *)
Definition run_on (cpus : list (option nat)) T (c : nat) p : list (option nat) * list proc :=
  (<[c := Some p]> cpus, upd T p (set_state RUNNING)).
Definition yield T p : list proc := upd T p (set_state RUNNABLE).

(** ** procdump *)

Definition state_name (s : procstate) : list Z :=
  match s with
  | UNUSED => bytes "unused" | USED => bytes "used" | SLEEPING => bytes "sleep "
  | RUNNABLE => bytes "runble" | RUNNING => bytes "run   " | ZOMBIE => bytes "zombie"
  end.
Definition procdump T : option (list Z) :=
  foldl (fun out q =>
    if decide (p_state q = UNUSED) then out
    else
      out ← out;
      l ← kprintf (bytes "%d %s %s") [VInt (p_pid q); VStr (Some (state_name (p_state q))); VStr (Some (p_name q))];
      Some (out ++ l ++ [10])) (Some [10]) T.
