(* ===== verification/ProcTree.v ===== *)
(** * Processes form a tree and no exit status is lost

    [pstep] interleaves the operations of [Proc] by any number of processes on
    any number of CPUs, one critical section at a time.  The proofs follow one
    pattern: most steps change only the run state of processes, which the parts
    of the invariant about the tree ([tree]) and about exit statuses ([hist]) do
    not look at. *)

From S2P Require Import Prelude Riscv Monitor Proc.

(** Where the kernel thread of a process is. *)
Inductive loc :=
| Out                       (* no process, or it has exited *)
| User
| Forked (np : nat)         (* in [fork], before [np->parent = p] *)
| Parented (np : nat)       (* in [fork], before [np->state = RUNNABLE] *)
| InWait.                   (* in the loop of [wait] *)

#[export] Instance loc_eq_dec : EqDecision loc.
Proof. solve_decision. Defined.

(** [s_exits] and [s_reaped] list the pid and status of all calls of [exit] and
    of all children returned by [wait]. *)
Record psys := Psys {
  s_tab : ptable;
  s_cpus : list (option nat);
  s_locs : list loc;
  s_exits : list (Z * Z);
  s_reaped : list (Z * Z)
}.

Definition reap (T : list proc) p (copied : bool) : list (Z * Z) :=
  match wait_scan p T 0 false with
  | Found i => if copied then let q := default proc0 (T !! i) in [(p_pid q, p_xstate q)] else []
  | _ => []
  end.
Definition with_procs (s : ptable) T : ptable := Ptable T (nextpid s) (initproc s).

Section Steps.
Context (s : ptable) (C : list (option nat)) (Lc : list loc) (E R : list (Z * Z)).
Abbreviation T := (procs s).

(** Process [p] runs on CPU [c]. *)
Definition runs (c p : nat) : Prop := C !! c = Some (Some p).

Inductive pstep : psys -> Prop :=
| ps_run c p q : C !! c = Some None -> T !! p = Some q -> p_state q = RUNNABLE ->
    pstep (Psys (with_procs s (run_on C T c p).2) (run_on C T c p).1 Lc E R)
| ps_yield c p : runs c p -> pstep (Psys (with_procs s (yield T p)) (<[c := None]> C) Lc E R)
| ps_sleep c p ch : runs c p -> Lc !! p = Some User ->
    pstep (Psys (with_procs s (sleep p ch T)) (<[c := None]> C) Lc E R)
| ps_wakeup me ch : pstep (Psys (with_procs s (wakeup me ch T)) C Lc E R)
| ps_kill pid T' : kill pid T = Some T' -> pstep (Psys (with_procs s T') C Lc E R)
| ps_setkilled p : pstep (Psys (with_procs s (setkilled T p)) C Lc E R)
| ps_fork c p tf pt copied s' r fr : runs c p -> Lc !! p = Some User -> nextpid s < 2 ^ 31 - 1 ->
    fork_alloc s p tf pt copied = (s', r, fr) ->
    pstep (Psys s' C (match r with Some np => <[p := Forked np]> Lc | None => Lc end) E R)
| ps_parent c p np : runs c p -> Lc !! p = Some (Forked np) ->
    pstep (Psys (with_procs s (fork_parent T p np)) C (<[p := Parented np]> Lc) E R)
| ps_ready c p np : runs c p -> Lc !! p = Some (Parented np) ->
    pstep (Psys (with_procs s (fork_ready T np)) C (<[np := User]> (<[p := User]> Lc)) E R)
| ps_exit c p q status s' : runs c p -> Lc !! p = Some User -> T !! p = Some q -> exit s p status = Some s' ->
    pstep (Psys s' (<[c := None]> C) (<[p := Out]> Lc) (E ++ [(p_pid q, status)]) R)
| ps_wait c p copied T' r fr : runs c p -> Lc !! p = Some User \/ Lc !! p = Some InWait ->
    wait T p copied = (T', r, fr) ->
    pstep (Psys (with_procs s T') (match r with WSleep => <[c := None]> C | _ => C end)
      (<[p := match r with WSleep => InWait | _ => User end]> Lc) E (R ++ reap T p copied)).
End Steps.

Definition psteps (x y : psys) : Prop :=
  pstep (s_tab x) (s_cpus x) (s_locs x) (s_exits x) (s_reaped x) y.

(** ** Invariant *)

Inductive kind := Free | New | Live | Dead.
Definition kind_of (st : procstate) : kind :=
  match st with UNUSED => Free | USED => New | ZOMBIE => Dead | _ => Live end.
(** What the tree depends on. *)
Abbreviation node := (kind * Z * option nat)%type.
Definition node_of (q : proc) : node := (kind_of (p_state q), p_pid q, p_parent q).
Abbreviation k_of := (fun n : node => n.1.1).
Abbreviation pid_of := (fun n : node => n.1.2).
Abbreviation par_of := (fun n : node => n.2).

Definition live (N : list node) (p : nat) : Prop := exists n, N !! p = Some n /\ k_of n = Live.
Definition forking (l : loc) (np : nat) : Prop := l = Forked np \/ l = Parented np.

Record tree (N : list node) (next : Z) (init : nat) (Lc : list loc) : Prop := Tree {
  tr_len : length N = length Lc;
  tr_next : 1 <= next;
  tr_pid : forall i n, N !! i = Some n -> k_of n <> Free -> 1 <= pid_of n < next;
  tr_uniq : forall i j n m, N !! i = Some n -> N !! j = Some m -> k_of n <> Free -> k_of m <> Free ->
    pid_of n = pid_of m -> i = j;
  tr_free : forall i n, N !! i = Some n -> k_of n = Free -> par_of n = None;
  tr_init : live N init;
  tr_parent : forall i n r, N !! i = Some n -> par_of n = Some r -> live N r;
  tr_orphan : forall i n, N !! i = Some n -> k_of n = Live \/ k_of n = Dead -> i <> init -> par_of n <> None;
  tr_fork : forall p l np, Lc !! p = Some l -> forking l np -> live N p /\
    exists n, N !! np = Some n /\ k_of n = New /\ par_of n = (if decide (l = Forked np) then None else Some p);
  tr_fork_inj : forall p p' l l' np, Lc !! p = Some l -> Lc !! p' = Some l' -> forking l np -> forking l' np -> p = p'
}.

(** CPUs and running processes. *)
Record sched_ok (C : list (option nat)) (T : list proc) : Prop := Sched_ok {
  so_run : forall c p, C !! c = Some (Some p) -> exists q, T !! p = Some q /\ p_state q = RUNNING;
  so_cpu : forall p q, T !! p = Some q -> p_state q = RUNNING -> exists c, C !! c = Some (Some p);
  so_one : forall c d p, C !! c = Some (Some p) -> C !! d = Some (Some p) -> c = d
}.

(** A process asleep in [wait] has children, and none of them has exited. *)
Definition wait_ok (T : list proc) (Lc : list loc) : Prop :=
  forall p q, T !! p = Some q -> p_state q = SLEEPING -> Lc !! p = Some InWait ->
    p_chan q = paddr p /\ (exists k r, T !! k = Some r /\ p_parent r = Some p) /\
    forall k r, T !! k = Some r -> p_parent r = Some p -> p_state r <> ZOMBIE.

Definition zombie (q : proc) : option (Z * Z) :=
  if decide (p_state q = ZOMBIE) then Some (p_pid q, p_xstate q) else None.
Definition zombies (T : list proc) : list (Z * Z) := omap zombie T.

Record pinv (x : psys) : Prop := Pinv {
  pi_tree : tree (node_of <$> procs (s_tab x)) (nextpid (s_tab x)) (initproc (s_tab x)) (s_locs x);
  pi_sched : sched_ok (s_cpus x) (procs (s_tab x));
  pi_wait : wait_ok (procs (s_tab x)) (s_locs x);
  pi_hist : s_exits x ≡ₚ s_reaped x ++ zombies (procs (s_tab x))
}.

(** ** Changes of the run state only *)

(** [wakeup] and [kill] make a sleeping process runnable. *)
Record mild (q q' : proc) : Prop := Mild {
  mi_node : node_of q' = node_of q;
  mi_xstate : p_xstate q' = p_xstate q;
  mi_state : (p_state q' = p_state q /\ p_chan q' = p_chan q) \/ (p_state q = SLEEPING /\ p_state q' = RUNNABLE)
}.

#[export] Instance mild_refl : Reflexive mild.
Proof. intros q. split; auto. Qed.
#[export] Instance mild_trans : Transitive mild.
Proof.
  intros q1 q2 q3 [A1 A2 A3] [B1 B2 B3]. split; [congruence|congruence|].
  destruct A3 as [[A3 A4]|[A3 A4]], B3 as [[B3 B4]|[B3 B4]]; [left|right|right|congruence]; split; congruence.
Qed.

Lemma mild_zombie q q' : mild q q' -> zombie q' = zombie q.
Proof.
  intros [Hn Hx Hs]. unfold zombie. injection Hn as _ -> _. rewrite Hx.
  destruct Hs as [[-> _]|[-> ->]]; [done|]. by rewrite !decide_False.
Qed.
Lemma mild_state q q' st : mild q q' -> st <> RUNNABLE -> p_state q' = st -> p_state q = st.
Proof. intros [_ _ [[-> _]|[? ->]]]; congruence. Qed.
Lemma mild_run q q' : mild q q' -> p_state q' = RUNNING <-> p_state q = RUNNING.
Proof. intros [_ _ [[-> _]|[-> ->]]]; naive_solver. Qed.

Lemma mild_nodes T T' : Forall2 mild T T' -> node_of <$> T' = node_of <$> T.
Proof. induction 1 as [|q q' T T' Hq _ IH]; [done|]. cbn. f_equal; [apply Hq|done]. Qed.
Lemma mild_zombies T T' : Forall2 mild T T' -> zombies T' = zombies T.
Proof. induction 1 as [|q q' T T' Hq _ IH]; [done|]. unfold zombies in *. cbn. by rewrite (mild_zombie _ _ Hq), IH. Qed.
Lemma mild_lookup T T' p q' : Forall2 mild T T' -> T' !! p = Some q' -> exists q, T !! p = Some q /\ mild q q'.
Proof. intros HT Hp. by apply (Forall2_lookup_r _ _ _ _ _ HT Hp). Qed.
Lemma mild_lookup_l T T' p q : Forall2 mild T T' -> T !! p = Some q -> exists q', T' !! p = Some q' /\ mild q q'.
Proof. intros HT Hp. by apply (Forall2_lookup_l _ _ _ _ _ HT Hp). Qed.

Lemma mild_sched C T T' : Forall2 mild T T' -> sched_ok C T -> sched_ok C T'.
Proof.
  intros HT [H1 H2 H3]. split; [| |done].
  - intros c p Hc. destruct (H1 c p Hc) as (q & Hq & Hr). destruct (mild_lookup_l _ _ _ _ HT Hq) as (q' & Hq' & Hm).
    exists q'. split; [done|]. by apply (mild_run _ _ Hm).
  - intros p q' Hq' Hr. destruct (mild_lookup _ _ _ _ HT Hq') as (q & Hq & Hm). apply (H2 p q Hq). by apply (mild_run _ _ Hm).
Qed.

Lemma mild_wait T T' Lc : Forall2 mild T T' -> wait_ok T Lc -> wait_ok T' Lc.
Proof.
  intros HT Hw p q' Hq' Hs Hl. destruct (mild_lookup _ _ _ _ HT Hq') as (q & Hq & Hm).
  assert (p_state q = SLEEPING /\ p_chan q' = p_chan q) as [Hs' ->].
  { destruct (mi_state _ _ Hm) as [[E1 E2]|[? ?]]; [split; congruence|congruence]. }
  destruct (Hw p q Hq Hs' Hl) as (Hc & (k & r & Hk & Hr) & Hz). split; [done|]. split.
  - destruct (mild_lookup_l _ _ _ _ HT Hk) as (r' & Hk' & Hmr). exists k, r'. split; [done|].
    pose proof (mi_node _ _ Hmr) as E. injection E. congruence.
  - intros k' r' Hk' Hr'. destruct (mild_lookup _ _ _ _ HT Hk') as (r0 & Hk0 & Hmr). pose proof (mi_node _ _ Hmr) as E. injection E as _ _ E3.
    intros Hzo. apply (Hz k' r0 Hk0); [congruence|]. by eapply mild_state.
Qed.

Lemma wake_mild c q : mild q (wake c q).
Proof.
  unfold wake. case_decide as Hs; [|done]. destruct (_ =? c); [|done]. split; [|done|by right].
  unfold node_of. cbn. by rewrite Hs.
Qed.
Lemma wakeup_mild me c T : Forall2 mild T (wakeup me c T).
Proof.
  apply Forall2_same_length_lookup_2; [unfold wakeup; by rewrite length_imap|]. intros i q q' Hq Hq'.
  unfold wakeup in Hq'. rewrite list_lookup_imap, Hq in Hq'. cbn in Hq'. injection Hq' as <-. case_decide; [done|apply wake_mild].
Qed.
Lemma kill_mild pid T T' : kill pid T = Some T' -> Forall2 mild T T'.
Proof.
  revert T'. induction T as [|q T IH]; intros T' E; [done|]. cbn in E. destruct (_ =? pid).
  - injection E as <-. constructor; [|reflexivity]. case_decide as Hs; [|by split; auto]. split; [|done|by right].
    unfold node_of. cbn in *. by rewrite Hs.
  - destruct (kill pid T) as [T1|]; [|done]. injection E as <-. constructor; [done|]. by apply IH.
Qed.
Lemma setkilled_mild p T : Forall2 mild T (setkilled T p).
Proof.
  unfold setkilled, upd. revert p. induction T as [|q T IH]; intros [|p]; cbn; [constructor..| |].
  - constructor; [by split; auto|reflexivity].
  - constructor; [done|]. apply IH.
Qed.

(** ** Changes of the tree *)

Section Tree.
Context (N : list node) (next : Z) (init : nat) (Lc : list loc) (Ht : tree N next init Lc).

Lemma live_insert i n p : k_of n = Live \/ i <> p -> live N p -> live (<[i := n]> N) p.
Proof.
  intros Hn (m & Hm & Hk). destruct (decide (i = p)) as [->|Hne].
  - destruct Hn as [Hn|]; [|done]. exists n. split; [|done]. apply list_lookup_insert_eq. by eapply lookup_lt_Some.
  - exists m. by rewrite list_lookup_insert_ne.
Qed.

(** Locations that are not in [fork] may change freely. *)
Lemma tree_loc p l : (forall np, ~ forking l np) -> tree N next init (<[p := l]> Lc).
Proof.
  intros Hl. destruct Ht as [H0 H1 H2 H3 H4 H5 H6 H7 H8 H9]. split; try done; [by rewrite length_insert| |].
  - intros p' l' np [(-> & -> & _)|[_ Hp]]%list_lookup_insert_Some Hf; [by destruct (Hl np)|]. by eapply H8.
  - intros p1 p2 l1 l2 np [(-> & -> & _)|[_ Hp]]%list_lookup_insert_Some; [by intros _ ?%Hl|].
    intros [(-> & -> & _)|[_ Hp2]]%list_lookup_insert_Some; [by intros _ ?%Hl|]. by apply (H9 p1 p2 l1 l2).
Qed.

(** A free entry is taken, in [fork]. *)
Lemma tree_alloc i n p : N !! i = Some n -> k_of n = Free -> live N p -> Lc !! p = Some User ->
  tree (<[i := (New, next, None)]> N) (next + 1) init (<[p := Forked i]> Lc).
Proof.
  intros Hi Hn Hp Hpl. destruct Ht as [H0 H1 H2 H3 H4 H5 H6 H7 H8 H9].
  assert (forall r, live N r -> live (<[i := (New, next, None)]> N) r) as HL.
  { intros r Hr. apply live_insert; [right|done]. intros ->. destruct Hr as (m & Hm & Hk). congruence. }
  split; [by rewrite !length_insert|lia| | | |by apply HL| | | |].
  - intros j m [(-> & <- & _)|[_ Hj]]%list_lookup_insert_Some Hk; [cbn; lia|]. specialize (H2 j m Hj Hk). lia.
  - intros j k m m' [(-> & <- & _)|[Hne Hj]]%list_lookup_insert_Some [(-> & <- & _)|[Hne' Hj']]%list_lookup_insert_Some Hk Hk' E; [done| | |].
    + cbn in E. specialize (H2 k m' Hj' Hk'). lia.
    + cbn in E. specialize (H2 j m Hj Hk). lia.
    + by apply (H3 j k m m').
  - intros j m [(-> & <- & _)|[_ Hj]]%list_lookup_insert_Some Hk; [done|]. by apply (H4 j m).
  - intros j m r [(-> & <- & _)|[_ Hj]]%list_lookup_insert_Some Hr; [done|]. apply HL. by apply (H6 j m).
  - intros j m [(-> & <- & _)|[_ Hj]]%list_lookup_insert_Some Hk; [by destruct Hk|]. by apply (H7 j m).
  - intros p' l np [(-> & <- & _)|[Hne Hl]]%list_lookup_insert_Some Hf.
    + assert (np = i) as -> by (destruct Hf as [Hf|Hf]; [by injection Hf|done]). split; [by apply HL|].
      exists (New, next, None). rewrite list_lookup_insert_eq by (by eapply lookup_lt_Some). by rewrite decide_True.
    + destruct (H8 p' l np Hl Hf) as (Hlp & m & Hm & Hk & Hpar). split; [by apply HL|]. exists m.
      rewrite list_lookup_insert_ne; [done|]. intros ->. congruence.
  - intros p1 p2 l1 l2 np. intros [(-> & <- & _)|[Hne Hl1]]%list_lookup_insert_Some [(-> & <- & _)|[Hne2 Hl2]]%list_lookup_insert_Some Hf1 Hf2; [done| | |].
    + exfalso. assert (np = i) as -> by (destruct Hf1 as [Hf|Hf]; [by injection Hf|done]).
      destruct (H8 _ _ _ Hl2 Hf2) as (_ & m & Hm & Hk & _). congruence.
    + exfalso. assert (np = i) as -> by (destruct Hf2 as [Hf|Hf]; [by injection Hf|done]).
      destruct (H8 _ _ _ Hl1 Hf1) as (_ & m & Hm & Hk & _). congruence.
    + by apply (H9 p1 p2 l1 l2 np).
Qed.

(** An entry becomes or stays free: it is free or has exited, or is new and
    nobody's. *)
Lemma tree_clear i n : N !! i = Some n -> k_of n = Free \/ k_of n = Dead ->
  forall pid next', next <= next' -> tree (<[i := (Free, pid, None)]> N) next' init Lc.
Proof.
  intros Hi Hn pid next' Hle. destruct Ht as [H0 H1 H2 H3 H4 H5 H6 H7 H8 H9].
  assert (forall r, live N r -> live (<[i := (Free, pid, None)]> N) r) as HL.
  { intros r Hr. apply live_insert; [right|done]. intros ->. destruct Hr as (m & Hm & Hk). destruct Hn; congruence. }
  split; [by rewrite length_insert|lia| | | |by apply HL| | | |done].
  - intros j m [(-> & <- & _)|[_ Hj]]%list_lookup_insert_Some Hk; [done|]. specialize (H2 j m Hj Hk). lia.
  - intros j k m m' [(-> & <- & _)|[Hne Hj]]%list_lookup_insert_Some [(-> & <- & _)|[Hne' Hj']]%list_lookup_insert_Some Hk Hk' E; [done..|].
    by apply (H3 j k m m').
  - intros j m [(-> & <- & _)|[_ Hj]]%list_lookup_insert_Some Hk; [done|]. by apply (H4 j m).
  - intros j m r [(-> & <- & _)|[_ Hj]]%list_lookup_insert_Some Hr; [done|]. apply HL. by apply (H6 j m).
  - intros j m [(-> & <- & _)|[_ Hj]]%list_lookup_insert_Some Hk; [by destruct Hk|]. by apply (H7 j m).
  - intros p l np Hl Hf. destruct (H8 p l np Hl Hf) as (Hlp & m & Hm & Hk & Hpar). split; [by apply HL|]. exists m.
    rewrite list_lookup_insert_ne; [done|]. intros ->. destruct Hn; congruence.
Qed.

Lemma tree_new p np l : Lc !! p = Some l -> forking l np ->
  exists pid, N !! np = Some (New, pid, if decide (l = Forked np) then None else Some p) /\ live N p /\ np <> p.
Proof.
  intros Hl Hf. destruct (tr_fork _ _ _ _ Ht p l np Hl Hf) as (Hlp & [[k pid] par] & Hm & Hk & Hpar). cbn in *. subst.
  exists pid. split; [done|]. split; [done|]. intros ->. destruct Hlp as (m & Hm' & Hk'). rewrite Hm in Hm'. injection Hm' as <-. done.
Qed.

Lemma tree_adopt p np pid : Lc !! p = Some (Forked np) -> N !! np = Some (New, pid, None) ->
  tree (<[np := (New, pid, Some p)]> N) next init (<[p := Parented np]> Lc).
Proof.
  intros Hl Hn. destruct (tree_new p np _ Hl ltac:(by left)) as (_ & _ & Hp & Hnp). destruct Ht as [H0 H1 H2 H3 H4 H5 H6 H7 H8 H9].
  assert (forall r, live N r -> live (<[np := (New, pid, Some p)]> N) r) as HL.
  { intros r Hr. apply live_insert; [right|done]. intros <-. destruct Hr as (m & Hm & Hk). rewrite Hn in Hm. injection Hm as <-. done. }
  split; [by rewrite !length_insert|done| | | |by apply HL| | | |].
  - intros j m [(-> & <- & _)|[_ Hj]]%list_lookup_insert_Some Hk; [by apply (H2 j _ Hn)|]. by apply (H2 j).
  - intros j k m m' [(-> & <- & _)|[Hne Hj]]%list_lookup_insert_Some [(-> & <- & _)|[Hne' Hj']]%list_lookup_insert_Some Hk Hk' E; [done| | |].
    + by apply (H3 j k _ m' Hn).
    + by apply (H3 j k m _ Hj Hn).
    + by apply (H3 j k m m').
  - intros j m [(-> & <- & _)|[_ Hj]]%list_lookup_insert_Some Hk; [done|]. by apply (H4 j m).
  - intros j m r [(-> & <- & _)|[_ Hj]]%list_lookup_insert_Some Hr; [injection Hr as <-; by apply HL|]. apply HL. by apply (H6 j m).
  - intros j m [(-> & <- & _)|[_ Hj]]%list_lookup_insert_Some Hk; [by destruct Hk|]. by apply (H7 j m).
  - intros p' l' np' [(-> & <- & _)|[Hne Hl']]%list_lookup_insert_Some Hf.
    + assert (np' = np) as -> by (destruct Hf as [Hf|Hf]; [done|by injection Hf]). split; [by apply HL|].
      exists (New, pid, Some p'). rewrite list_lookup_insert_eq by (by eapply lookup_lt_Some). by rewrite decide_False.
    + destruct (H8 p' l' np' Hl' Hf) as (Hlp & m & Hm & Hk & Hpar). split; [by apply HL|]. exists m.
      rewrite list_lookup_insert_ne; [done|]. intros ->. apply Hne. eapply (H9 p p'); [done|done|by left|done].
  - intros p1 p2 l1 l2 np' [(-> & <- & _)|[Hne Hl1]]%list_lookup_insert_Some [(-> & <- & _)|[Hne2 Hl2]]%list_lookup_insert_Some Hf1 Hf2; [done| | |].
    + assert (np' = np) as -> by (destruct Hf1 as [Hf|Hf]; [done|by injection Hf]). apply (H9 p1 p2 _ l2 np Hl Hl2); [by left|done].
    + assert (np' = np) as -> by (destruct Hf2 as [Hf|Hf]; [done|by injection Hf]). apply (H9 p1 p2 l1 _ np Hl1 Hl); [done|by left].
    + by apply (H9 p1 p2 l1 l2 np').
Qed.

Lemma tree_ready p np pid : Lc !! p = Some (Parented np) -> N !! np = Some (New, pid, Some p) ->
  tree (<[np := (Live, pid, Some p)]> N) next init (<[np := User]> (<[p := User]> Lc)).
Proof.
  intros Hl Hn. destruct (tree_new p np _ Hl ltac:(by right)) as (_ & _ & Hp & Hnp). destruct Ht as [H0 H1 H2 H3 H4 H5 H6 H7 H8 H9].
  assert (forall r, live N r -> live (<[np := (Live, pid, Some p)]> N) r) as HL by (intros r Hr; apply live_insert; [by left|done]).
  assert (forall p' l np', <[np := User]> (<[p := User]> Lc) !! p' = Some l -> forking l np' -> Lc !! p' = Some l /\ p' <> p) as HF.
  { intros p' l np' [(-> & <- & _)|[_ Hp']]%list_lookup_insert_Some Hf; [by destruct Hf|].
    apply list_lookup_insert_Some in Hp' as [(-> & <- & _)|[Hne Hp']]; [by destruct Hf|done]. }
  split; [by rewrite !length_insert|done| | | |by apply HL| | | |].
  - intros j m [(-> & <- & _)|[_ Hj]]%list_lookup_insert_Some Hk; [by apply (H2 j _ Hn)|]. by apply (H2 j).
  - intros j k m m' [(-> & <- & _)|[Hne Hj]]%list_lookup_insert_Some [(-> & <- & _)|[Hne' Hj']]%list_lookup_insert_Some Hk Hk' E; [done| | |].
    + by apply (H3 j k _ m' Hn).
    + by apply (H3 j k m _ Hj Hn).
    + by apply (H3 j k m m').
  - intros j m [(-> & <- & _)|[_ Hj]]%list_lookup_insert_Some Hk; [done|]. by apply (H4 j m).
  - intros j m r [(-> & <- & _)|[_ Hj]]%list_lookup_insert_Some Hr; [injection Hr as <-; by apply HL|]. apply HL. by apply (H6 j m).
  - intros j m [(-> & <- & _)|[_ Hj]]%list_lookup_insert_Some Hk; [done|]. by apply (H7 j m).
  - intros p' l np' Hl' Hf. destruct (HF _ _ _ Hl' Hf) as [Hl0 Hne].
    destruct (H8 p' l np' Hl0 Hf) as (Hlp & m & Hm & Hk & Hpar). split; [by apply HL|]. exists m.
    rewrite list_lookup_insert_ne; [done|]. intros ->. apply Hne. eapply (H9 p' p); [done|done|done|by right].
  - intros p1 p2 l1 l2 np' Hl1 Hl2 Hf1 Hf2. destruct (HF _ _ _ Hl1 Hf1) as [? _]. destruct (HF _ _ _ Hl2 Hf2) as [? _]. by apply (H9 p1 p2 l1 l2 np').
Qed.

(** A process exits: its children go to init. *)
Definition adopted (p : nat) (n : node) : node := if decide (par_of n = Some p) then (n.1, Some init) else n.
Lemma tree_exit p pid par : N !! p = Some (Live, pid, par) -> p <> init -> Lc !! p = Some User ->
  forall par', adopted p (Live, pid, par) = (Live, pid, par') ->
  tree (<[p := (Dead, pid, par')]> (adopted p <$> N)) next init (<[p := Out]> Lc).
Proof.
  intros Hn Hpi Hl par' Epar. destruct Ht as [H0 H1 H2 H3 H4 H5 H6 H7 H8 H9].
  assert (forall j m, (adopted p <$> N) !! j = Some m -> exists m0, N !! j = Some m0 /\ m.1 = m0.1 /\ m = adopted p m0) as HA.
  { intros j m (m0 & -> & Hm0)%list_lookup_fmap_Some. exists m0. split; [done|]. split; [|done]. unfold adopted. by case_decide. }
  assert (forall r, r <> p -> live N r -> live (<[p := (Dead, pid, par')]> (adopted p <$> N)) r) as HL.
  { intros r Hr (m & Hm & Hk). exists (adopted p m). rewrite list_lookup_insert_ne by done. rewrite list_lookup_fmap, Hm.
    split; [done|]. unfold adopted. by case_decide. }
  assert (forall m r, par_of (adopted p m) = Some r -> r <> p /\ (r = init \/ par_of m = Some r)) as HP.
  { intros m r. unfold adopted. case_decide as Hd; cbn; [intros E; injection E as <-; split; [done|by left]|].
    intros E. split; [congruence|by right]. }
  assert (par' <> None /\ forall r, par' = Some r -> r <> p /\ live N r) as [Hne' Hpar'].
  { assert (par' = par_of (adopted p (Live, pid, par))) as E by (by rewrite Epar). split.
    - rewrite E. unfold adopted. cbn. case_decide; [done|]. by apply (H7 p _ Hn); [left|].
    - intros r Er. rewrite E in Er. destruct (HP _ _ Er) as [? [->|Hr]]; [done|]. split; [done|]. by apply (H6 p _ r Hn). }
  split; [by rewrite !length_insert, length_fmap|done| | | |by apply HL| | | |].
  - intros j m [(-> & <- & _)|[_ (m0 & Hj & E & _)%HA]]%list_lookup_insert_Some Hk; [by apply (H2 j _ Hn)|]. rewrite E in *. by apply (H2 j m0).
  - intros j k m m' [(-> & <- & _)|[Hne (m0 & Hj & E & _)%HA]]%list_lookup_insert_Some [(-> & <- & _)|[Hne2 (m0' & Hj' & E' & _)%HA]]%list_lookup_insert_Some Hk Hk' Ep; [done| | |]; cbn in *.
    + rewrite E' in *. by apply (H3 j k _ m0' Hn).
    + rewrite E in *. by apply (H3 j k m0 _ Hj Hn).
    + rewrite E, E' in *. by apply (H3 j k m0 m0').
  - intros j m [(-> & <- & _)|[_ (m0 & Hj & E & ->)%HA]]%list_lookup_insert_Some Hk; [done|]. rewrite E in Hk. pose proof (H4 j m0 Hj Hk) as En.
    unfold adopted. rewrite decide_False by congruence. done.
  - intros j m r [(-> & <- & _)|[_ (m0 & Hj & E & ->)%HA]]%list_lookup_insert_Some Hr.
    + destruct (Hpar' r Hr). by apply HL.
    + destruct (HP _ _ Hr) as [Hrp [->|Hr']]; [by apply HL|]. apply HL; [done|]. by apply (H6 j m0).
  - intros j m [(-> & <- & _)|[_ (m0 & Hj & E & ->)%HA]]%list_lookup_insert_Some Hk Hji; [done|]. rewrite E in Hk.
    unfold adopted. case_decide; [done|]. by apply (H7 j m0).
  - intros p' l np [(-> & <- & _)|[Hne Hl']]%list_lookup_insert_Some Hf; [by destruct Hf|].
    destruct (H8 p' l np Hl' Hf) as (Hlp & m & Hm & Hk & Hpar). split; [by apply HL|]. exists m.
    rewrite list_lookup_insert_ne by (intros ->; rewrite Hn in Hm; injection Hm as <-; done).
    rewrite list_lookup_fmap, Hm. cbn. unfold adopted. rewrite decide_False; [done|]. rewrite Hpar. case_decide; congruence.
  - intros p1 p2 l1 l2 np [(-> & <- & _)|[_ Hl1]]%list_lookup_insert_Some; [by intros _ []|].
    intros [(-> & <- & _)|[_ Hl2]]%list_lookup_insert_Some; [by intros _ []|]. by apply (H9 p1 p2 l1 l2).
Qed.
End Tree.

(** ** The steps *)

Lemma upd_insert T p q f : T !! p = Some q -> upd T p f = <[p := f q]> T.
Proof. intros Hq. unfold upd. apply list_eq. intros i. destruct (decide (i = p)) as [->|Hne].
  - rewrite list_lookup_alter_eq, Hq. symmetry. apply list_lookup_insert_eq. by eapply lookup_lt_Some.
  - by rewrite list_lookup_alter_ne, list_lookup_insert_ne by done.
Qed.

Lemma zombies_insert T p q q' : T !! p = Some q -> zombie q = None ->
  zombies (<[p := q']> T) ≡ₚ option_list (zombie q') ++ zombies T.
Proof.
  intros Hp Hz. pose proof (lookup_lt_Some _ _ _ Hp). rewrite <- (take_drop_middle T p q Hp) at 2.
  rewrite insert_take_drop by done. unfold zombies. rewrite !omap_app. cbn. rewrite Hz.
  destruct (zombie q'); cbn; [|done]. by rewrite Permutation_middle.
Qed.
Lemma zombies_delete T p q q' : T !! p = Some q -> zombie q' = None ->
  zombies T ≡ₚ option_list (zombie q) ++ zombies (<[p := q']> T).
Proof.
  intros Hp Hz. pose proof (zombies_insert (<[p := q']> T) p q' q) as H. rewrite list_insert_insert_eq, (list_insert_id T p q Hp) in H.
  apply H; [|done]. apply list_lookup_insert_eq. by eapply lookup_lt_Some.
Qed.

(** One live process changes its run state. *)
Section Live.
Context (T : list proc) (p : nat) (q q' : proc) (Hp : T !! p = Some q) (Hn : node_of q' = node_of q)
  (Hk : kind_of (p_state q) = Live).

Lemma live_nodes : node_of <$> <[p := q']> T = node_of <$> T.
Proof. rewrite list_fmap_insert, Hn. apply list_insert_id. by rewrite list_lookup_fmap, Hp. Qed.
Lemma live_zombies : zombies (<[p := q']> T) ≡ₚ zombies T.
Proof.
  assert (forall r, kind_of (p_state r) = Live -> zombie r = None) as Hz.
  { intros r Hr. unfold zombie. case_decide as Hd; [|done]. by rewrite Hd in Hr. }
  rewrite (zombies_insert T p q q' Hp) by (by apply Hz). rewrite Hz; [done|]. injection Hn as -> _ _. done.
Qed.
Lemma live_wait Lc Lc' : (forall i, i <> p -> Lc' !! i = Lc !! i) ->
  (p_state q' = SLEEPING -> Lc' !! p = Some InWait -> p_chan q' = paddr p /\ (exists k r, T !! k = Some r /\ p_parent r = Some p) /\
    forall k r, T !! k = Some r -> p_parent r = Some p -> p_state r <> ZOMBIE) ->
  wait_ok T Lc -> wait_ok (<[p := q']> T) Lc'.
Proof.
  intros HL Hnew Hw i r Hi Hs Hl.
  assert (forall k r, <[p := q']> T !! k = Some r -> exists r0, T !! k = Some r0 /\ p_parent r = p_parent r0 /\ (p_state r = ZOMBIE -> p_state r0 = ZOMBIE)) as HB.
  { intros k r' [(-> & <- & _)|[_ Hk']]%list_lookup_insert_Some; [|by exists r']. exists q. injection Hn as E1 _ E3. rewrite E3.
    split; [done|]. split; [done|]. intros Hz. rewrite Hz, Hk in E1. done. }
  assert (forall k r, T !! k = Some r -> exists r', <[p := q']> T !! k = Some r' /\ p_parent r' = p_parent r) as HF.
  { intros k r' Hk'. destruct (decide (k = p)) as [->|Hne]; [|exists r'; by rewrite list_lookup_insert_ne].
    exists q'. rewrite list_lookup_insert_eq by (by eapply lookup_lt_Some). rewrite Hp in Hk'. injection Hk' as <-. injection Hn as _ _ ->. done. }
  assert (p_chan r = paddr i /\ (exists k r, T !! k = Some r /\ p_parent r = Some i) /\
    forall k r, T !! k = Some r -> p_parent r = Some i -> p_state r <> ZOMBIE) as (H1 & (k & c & Hkc & Hc) & H3).
  { apply list_lookup_insert_Some in Hi as [(-> & <- & _)|[Hne Hi]]; [by apply Hnew|]. rewrite HL in Hl by done. by apply Hw. }
  split; [done|]. split.
  - destruct (HF _ _ Hkc) as (c' & ? & E). exists k, c'. split; [done|congruence].
  - intros k' c' Hk' Hc' Hz. destruct (HB _ _ Hk') as (c0 & Hc0 & E & Hz0). apply (H3 k' c0 Hc0); [congruence|by apply Hz0].
Qed.
End Live.

(** Giving up and taking a CPU. *)
Lemma sched_off C T c p q q' : sched_ok C T -> runs C c p -> T !! p = Some q -> p_state q' <> RUNNING ->
  sched_ok (<[c := None]> C) (<[p := q']> T).
Proof.
  intros [H1 H2 H3] Hc Hp Hs. unfold runs in Hc. split.
  - intros d r [(-> & ? & _)|[Hne Hd]]%list_lookup_insert_Some; [done|]. destruct (H1 d r Hd) as (q0 & Hq0 & Hr). exists q0.
    rewrite list_lookup_insert_ne; [done|]. intros ->. apply Hne. by apply (H3 c d r).
  - intros r qr [(-> & <- & _)|[Hne Hr]]%list_lookup_insert_Some Hs'; [done|]. destruct (H2 r qr Hr Hs') as [d Hd]. exists d.
    rewrite list_lookup_insert_ne; [done|]. intros ->. congruence.
  - intros d d' r [(-> & ? & _)|[_ Hd]]%list_lookup_insert_Some [(-> & ? & _)|[_ Hd']]%list_lookup_insert_Some; [done..|]. by apply (H3 d d' r).
Qed.
Lemma sched_on C T c p q q' : sched_ok C T -> C !! c = Some None -> T !! p = Some q -> p_state q <> RUNNING -> p_state q' = RUNNING ->
  sched_ok (<[c := Some p]> C) (<[p := q']> T).
Proof.
  intros [H1 H2 H3] Hc Hp Hs Hs'.
  assert (forall d, C !! d <> Some (Some p)) as Hno. { intros d Hd. destruct (H1 d p Hd) as (q0 & Hq0 & ?). congruence. }
  split.
  - intros d r [(-> & E & _)|[Hne Hd]]%list_lookup_insert_Some.
    + injection E as <-. exists q'. split; [|done]. apply list_lookup_insert_eq. by eapply lookup_lt_Some.
    + destruct (H1 d r Hd) as (q0 & Hq0 & Hr). exists q0. rewrite list_lookup_insert_ne; [done|]. intros ->. by apply (Hno d).
  - intros r qr [(-> & <- & _)|[Hne Hr]]%list_lookup_insert_Some Hsr.
    + exists c. apply list_lookup_insert_eq. by eapply lookup_lt_Some.
    + destruct (H2 r qr Hr Hsr) as [d Hd]. exists d. rewrite list_lookup_insert_ne; [done|]. intros ->. congruence.
  - intros d d' r [(-> & E & _)|[Hne Hd]]%list_lookup_insert_Some [(-> & E' & _)|[Hne' Hd']]%list_lookup_insert_Some; [done| | |].
    + injection E as <-. by destruct (Hno d').
    + injection E' as <-. by destruct (Hno d).
    + by apply (H3 d d' r).
Qed.
(** An entry that was not running and is not running afterwards. *)
Lemma sched_same C T p q q' : sched_ok C T -> T !! p = Some q -> p_state q <> RUNNING -> p_state q' <> RUNNING ->
  sched_ok C (<[p := q']> T).
Proof.
  intros [H1 H2 H3] Hp Hs Hs'. split; [| |done].
  - intros d r Hd. destruct (H1 d r Hd) as (q0 & Hq0 & Hr). exists q0. rewrite list_lookup_insert_ne; [done|]. intros ->. congruence.
  - intros r qr [(-> & <- & _)|[Hne Hr]]%list_lookup_insert_Some Hsr; [done|]. by apply (H2 r qr).
Qed.

(** ** reparent and wait *)

Definition adopt (init p : nat) (q : proc) : proc := if decide (p_parent q = Some p) then set_parent (Some init) q else q.
Definition asleep_on (T : list proc) (i : nat) : Prop := exists q, T !! i = Some q /\ p_state q = SLEEPING /\ p_chan q = paddr i.

Lemma wakeup_awake me T i : i <> me -> ~ asleep_on (wakeup me (paddr i) T) i.
Proof.
  intros Hi (q & Hq & Hs & Hc). unfold wakeup in Hq. rewrite list_lookup_imap in Hq. destruct (T !! i) as [q0|]; [|done].
  cbn in Hq. rewrite decide_False in Hq by done. injection Hq as <-. unfold wake in *. case_decide; [|congruence].
  destruct (p_chan q0 =? paddr i) eqn:E; [done|]. bool_to_prop. congruence.
Qed.
Lemma mild_asleep T T' i : Forall2 mild T T' -> asleep_on T' i -> asleep_on T i.
Proof.
  intros HT (q' & Hq' & Hs & Hc). destruct (mild_lookup _ _ _ _ HT Hq') as (q & Hq & Hm). exists q. split; [done|].
  destruct (mi_state _ _ Hm) as [[E1 E2]|[? ?]]; [split; congruence|congruence].
Qed.

Lemma mild_fmap_insert T T' i q q' : Forall2 mild T T' -> mild q q' -> Forall2 mild (<[i := q]> T) (<[i := q']> T').
Proof. intros HT Hq. by apply Forall2_insert. Qed.

Lemma reparent_spec init p T : init <> p ->
  Forall2 mild (adopt init p <$> T) (reparent init p T) /\
  ((exists k q, T !! k = Some q /\ p_parent q = Some p) -> ~ asleep_on (reparent init p T) init).
Proof.
  intros Hip. unfold reparent.
  assert (forall n, (n <= length T)%nat -> let T' := foldl (reparent1 init p p) T (seq 0 n) in
    Forall2 mild (imap (fun i q => if decide (i < n)%nat then adopt init p q else q) T) T' /\
    ((exists k q, (k < n)%nat /\ T !! k = Some q /\ p_parent q = Some p) -> ~ asleep_on T' init)) as H.
  { induction n as [|n IH]; intros Hn; cbn zeta.
    { cbn [seq foldl]. split; [|intros (k & q & ? & _); lia]. apply Forall2_same_length_lookup_2; [by rewrite length_imap|].
      intros i q q' Hq Hq'. rewrite list_lookup_imap, Hq' in Hq. cbn in Hq. rewrite decide_False in Hq by lia. by injection Hq as <-. }
    rewrite seq_S, foldl_app. cbn [foldl Nat.add]. destruct (IH ltac:(lia)) as [IH1 IH2]. set (T1 := foldl _ _ (seq 0 n)) in *.
    destruct (lookup_lt_is_Some_2 T n ltac:(lia)) as [q Hq].
    destruct (mild_lookup_l _ _ n q IH1) as (q1 & Hq1 & Hm); [rewrite list_lookup_imap, Hq; cbn; by rewrite decide_False by lia|].
    assert (p_parent q1 = p_parent q) as Epar by (pose proof (mi_node _ _ Hm) as E; by injection E).
    assert (imap (fun i q => if decide (i < S n)%nat then adopt init p q else q) T =
      <[n := adopt init p q]> (imap (fun i q => if decide (i < n)%nat then adopt init p q else q) T)) as ->.
    { apply list_eq. intros i. rewrite list_lookup_imap. destruct (decide (i = n)) as [->|Hne].
      - rewrite list_lookup_insert_eq by (rewrite length_imap; lia). rewrite Hq. cbn. by rewrite decide_True by lia.
      - rewrite list_lookup_insert_ne, list_lookup_imap by done. destruct (T !! i); [|done]. cbn. f_equal. repeat case_decide; done || lia. }
    unfold reparent1. rewrite Hq1, Epar. unfold adopt at 1. case_decide as Hd.
    - split; [|intros _; by apply wakeup_awake]. etrans; [|apply wakeup_mild]. apply mild_fmap_insert; [done|].
      destruct Hm as [M1 M2 M3]. split; [|done|done]. unfold node_of in *. cbn. injection M1 as -> -> _. done.
    - rewrite list_insert_id by (rewrite list_lookup_imap, Hq; cbn; by rewrite decide_False by lia). split; [done|].
      intros (k & qk & Hk & Hqk & Hpar). apply IH2. exists k, qk. split; [|done]. assert (k <> n) by congruence. lia. }
  destruct (H (length T) ltac:(lia)) as [H1 H2]. split.
  - replace (adopt init p <$> T) with (imap (fun i q => if decide (i < length T)%nat then adopt init p q else q) T); [done|].
    apply list_eq. intros i. rewrite list_lookup_imap, list_lookup_fmap. destruct (T !! i) as [q|] eqn:Hi; [|done]. cbn.
    rewrite decide_True; [done|]. by eapply lookup_lt_Some.
  - intros (k & q & Hk & Hq). apply H2. exists k, q. split; [by eapply lookup_lt_Some|done].
Qed.

Lemma wait_scan_spec p T i b :
  match wait_scan p T i b with
  | Found k => exists j q, k = (i + j)%nat /\ T !! j = Some q /\ p_parent q = Some p /\ p_state q = ZOMBIE
  | Kids => (b = true \/ exists j q, T !! j = Some q /\ p_parent q = Some p) /\
      forall j q, T !! j = Some q -> p_parent q = Some p -> p_state q <> ZOMBIE
  | NoKids => b = false /\ forall j q, T !! j = Some q -> p_parent q <> Some p
  end.
Proof.
  revert i b. induction T as [|q T IH]; intros i b; cbn [wait_scan].
  - destruct b; split; auto; intros j q Hj; by rewrite lookup_nil in Hj.
  - case_decide as Hp; [case_decide as Hz|].
    + exists 0%nat, q. split; [lia|]. done.
    + specialize (IH (S i) true). destruct (wait_scan p T (S i) true) as [k| |].
      * destruct IH as (j & q' & -> & H). exists (S j), q'. split; [lia|done].
      * destruct IH as [_ IH]. split; [right; by exists 0%nat, q|]. intros [|j] q' Hj Hq'; [cbn in Hj; congruence|]. by apply (IH j).
      * destruct IH as [? _]. done.
    + specialize (IH (S i) b). destruct (wait_scan p T (S i) b) as [k| |].
      * destruct IH as (j & q' & -> & H). exists (S j), q'. split; [lia|done].
      * destruct IH as [IH1 IH]. split; [destruct IH1 as [?|(j & q' & ? & ?)]; [by left|right; by exists (S j), q']|].
        intros [|j] q' Hj Hq'; [cbn in Hj; congruence|]. by apply (IH j).
      * destruct IH as [? IH]. split; [done|]. intros [|j] q' Hj; [cbn in Hj; congruence|]. by apply (IH j).
Qed.

(** ** Preservation *)

Lemma wait_insert T i q q' Lc Lc' : wait_ok T Lc -> T !! i = Some q -> p_state q' <> SLEEPING -> p_state q' <> ZOMBIE ->
  (forall r, p_parent q = Some r -> p_parent q' = Some r \/ exists qr, T !! r = Some qr /\ p_state qr <> SLEEPING) ->
  (forall j, Lc' !! j = Some InWait -> Lc !! j = Some InWait \/ exists qj, T !! j = Some qj /\ p_state qj <> SLEEPING) ->
  wait_ok (<[i := q']> T) Lc'.
Proof.
  intros Hw Hi Hs Hz Hpar HL j qj [(-> & <- & _)|[Hne Hj]]%list_lookup_insert_Some Hsj Hl; [done|].
  destruct (HL j Hl) as [Hl'|(qj' & Hqj' & ?)]; [|congruence].
  destruct (Hw j qj Hj Hsj Hl') as (Hc & (k & r & Hk & Hr) & Hno). split; [done|]. split.
  - destruct (decide (k = i)) as [->|Hki]; [|exists k, r; by rewrite list_lookup_insert_ne].
    exists i, q'. rewrite list_lookup_insert_eq by (by eapply lookup_lt_Some). split; [done|]. rewrite Hi in Hk. injection Hk as <-.
    destruct (Hpar j Hr) as [?|(qr & ? & ?)]; [done|congruence].
  - intros k' r' [(-> & <- & _)|[_ Hk']]%list_lookup_insert_Some Hr'; [done|]. by apply (Hno k' r').
Qed.

Lemma zombie_none q : p_state q <> ZOMBIE -> zombie q = None.
Proof. intros. unfold zombie. by rewrite decide_False. Qed.
Lemma zombies_same T i q q' : T !! i = Some q -> p_state q <> ZOMBIE -> p_state q' <> ZOMBIE -> zombies (<[i := q']> T) ≡ₚ zombies T.
Proof. intros Hi H1 H2. rewrite (zombies_insert T i q q' Hi) by (by apply zombie_none). by rewrite zombie_none. Qed.

Lemma nodes_insert (T : list proc) (i : nat) q : node_of <$> <[i := q]> T = <[i := node_of q]> (node_of <$> T).
Proof. apply list_fmap_insert. Qed.
Lemma nodes_lookup (T : list proc) (i : nat) q : T !! i = Some q -> (node_of <$> T) !! i = Some (node_of q).
Proof. intros Hi. by rewrite list_lookup_fmap, Hi. Qed.

Ltac psimp := cbn [s_tab s_cpus s_locs s_exits s_reaped procs nextpid initproc with_procs] in *.

Section Preserve.
Context (s : ptable) (C : list (option nat)) (Lc : list loc) (E R : list (Z * Z)) (HI : pinv (Psys s C Lc E R)).
Abbreviation T := (procs s).

Lemma pinv_mild T' : Forall2 mild T T' -> pinv (Psys (with_procs s T') C Lc E R).
Proof.
  intros HT. destruct HI as [H1 H2 H3 H4]. split; psimp.
  - by rewrite (mild_nodes _ _ HT).
  - by eapply mild_sched.
  - by eapply mild_wait.
  - by rewrite (mild_zombies _ _ HT).
Qed.

Lemma runs_running c p : runs C c p -> exists q, T !! p = Some q /\ p_state q = RUNNING.
Proof. apply (so_run _ _ (pi_sched _ HI)). Qed.
Lemma running_live p q : T !! p = Some q -> p_state q = RUNNING -> live (node_of <$> T) p.
Proof. intros Hp Hs. exists (node_of q). split; [by apply nodes_lookup|]. cbn. by rewrite Hs. Qed.

Lemma pinv_live C' Lc' p q q' : T !! p = Some q -> node_of q' = node_of q -> kind_of (p_state q) = Live ->
  sched_ok C' (<[p := q']> T) -> tree (node_of <$> T) (nextpid s) (initproc s) Lc' -> wait_ok (<[p := q']> T) Lc' ->
  pinv (Psys (with_procs s (<[p := q']> T)) C' Lc' E R).
Proof.
  intros Hp Hn Hk Hso Htr Hw. destruct HI as [H1 H2 H3 H4]. split; psimp; [|done|done|].
  - by erewrite live_nodes.
  - by rewrite (live_zombies T p q q').
Qed.

Lemma pinv_run c p q : C !! c = Some None -> T !! p = Some q -> p_state q = RUNNABLE ->
  pinv (Psys (with_procs s (run_on C T c p).2) (run_on C T c p).1 Lc E R).
Proof.
  intros Hc Hp Hs. unfold run_on. cbn. rewrite (upd_insert _ _ _ _ Hp).
  assert (node_of (set_state RUNNING q) = node_of q) as Hn by (unfold node_of; cbn; by rewrite Hs).
  assert (kind_of (p_state q) = Live) as Hk by (by rewrite Hs). eapply pinv_live; [done..| |apply HI|].
  - eapply sched_on; [apply HI|done|done|congruence|done].
  - eapply live_wait; [done..|apply HI].
Qed.
Lemma pinv_yield c p : runs C c p -> pinv (Psys (with_procs s (yield T p)) (<[c := None]> C) Lc E R).
Proof.
  intros Hr. destruct (runs_running _ _ Hr) as (q & Hp & Hs). unfold yield. rewrite (upd_insert _ _ _ _ Hp).
  assert (node_of (set_state RUNNABLE q) = node_of q) as Hn by (unfold node_of; cbn; by rewrite Hs).
  assert (kind_of (p_state q) = Live) as Hk by (by rewrite Hs). eapply pinv_live; [done..| |apply HI|].
  - eapply sched_off; [apply HI|done..].
  - eapply live_wait; [done..|apply HI].
Qed.
Lemma pinv_sleep c p ch Lc' : runs C c p -> (forall i, i <> p -> Lc' !! i = Lc !! i) ->
  tree (node_of <$> T) (nextpid s) (initproc s) Lc' ->
  (Lc' !! p = Some InWait -> ch = paddr p /\ (exists k r, T !! k = Some r /\ p_parent r = Some p) /\
    forall k r, T !! k = Some r -> p_parent r = Some p -> p_state r <> ZOMBIE) ->
  pinv (Psys (with_procs s (sleep p ch T)) (<[c := None]> C) Lc' E R).
Proof.
  intros Hr HL Htr Hw. destruct (runs_running _ _ Hr) as (q & Hp & Hs). unfold sleep. rewrite (upd_insert _ _ _ _ Hp).
  set (q' := set_state SLEEPING (set_chan ch q)).
  assert (node_of q' = node_of q) as Hn by (unfold node_of; cbn; by rewrite Hs).
  assert (kind_of (p_state q) = Live) as Hk by (by rewrite Hs). eapply pinv_live; [done..| |done|].
  - eapply sched_off; [apply HI|done..].
  - eapply live_wait; [done..| |apply HI]. intros _ Hl. by apply Hw.
Qed.

(** An entry that is not running, before and after, and not a zombie. *)
Lemma pinv_entry i q q' next' Lc' : T !! i = Some q -> p_state q <> RUNNING -> p_state q <> ZOMBIE ->
  p_state q' <> RUNNING -> p_state q' <> SLEEPING -> p_state q' <> ZOMBIE ->
  (forall r, p_parent q = Some r -> p_parent q' = Some r) ->
  (forall j, Lc' !! j = Some InWait -> Lc !! j = Some InWait) ->
  tree (<[i := node_of q']> (node_of <$> T)) next' (initproc s) Lc' ->
  pinv (Psys (Ptable (<[i := q']> T) next' (initproc s)) C Lc' E R).
Proof.
  intros Hi H1 H2 H3 H4 H5 Hp HL Htr. split; psimp.
  - by rewrite nodes_insert.
  - eapply sched_same; [apply HI|done..].
  - eapply wait_insert; [apply HI|done|done|done|intros r Hr; left; by apply Hp|intros j Hj; left; by apply HL].
  - rewrite zombies_same by done. apply HI.
Qed.
End Preserve.

Lemma find_unused_spec T i : find_unused T = Some i -> exists q, T !! i = Some q /\ p_state q = UNUSED.
Proof.
  revert i. induction T as [|q T IH]; intros i Ei; [done|]. cbn in Ei. case_decide as Hd.
  - injection Ei as <-. by exists q.
  - destruct (find_unused T) as [j|]; [|done]. injection Ei as <-. by apply IH.
Qed.

Lemma fork_alloc_spec s p tf pt copied s' r fr : fork_alloc s p tf pt copied = (s', r, fr) ->
  s' = s /\ r = None \/
  exists i q, procs s !! i = Some q /\ p_state q = UNUSED /\
    ((r = None /\ s' = Ptable (<[i := proc0]> (procs s)) (i32 (nextpid s + 1)) (initproc s)) \/
     (r = Some i /\ exists q', s' = Ptable (<[i := q']> (procs s)) (i32 (nextpid s + 1)) (initproc s) /\
        p_state q' = USED /\ p_pid q' = nextpid s /\ p_parent q' = p_parent q)).
Proof.
  unfold fork_alloc, allocproc. destruct (find_unused (procs s)) as [i|] eqn:Ei; [|intros Eq; injection Eq as <- <- <-; by left].
  destruct (find_unused_spec _ _ Ei) as (q & Hq & Hs). rewrite Hq. cbn [default from_option id allocpid]. intros Eq. right. exists i, q.
  split; [done|]. split; [done|]. pose proof (lookup_lt_Some _ _ _ Hq) as Hlt. unfold fill in Eq.
  destruct (tf =? 0); [cbn in Eq; injection Eq as <- <- <-; by left|].
  destruct (pt =? 0); [cbn in Eq; injection Eq as <- <- <-; by left|]. cbn [procs nextpid initproc] in Eq.
  rewrite !list_lookup_insert_eq in Eq by done. cbn [default from_option id] in Eq. destruct copied.
  - injection Eq as <- <- <-. right. split; [done|]. eexists. split.
    + f_equal. erewrite upd_insert by (by apply list_lookup_insert_eq). apply list_insert_insert_eq.
    + done.
  - cbn in Eq. injection Eq as <- <- <-. left. split; [done|]. f_equal. apply list_insert_insert_eq.
Qed.

Section Preserve2.
Context (s : ptable) (C : list (option nat)) (Lc : list loc) (E R : list (Z * Z)) (HI : pinv (Psys s C Lc E R)).
Abbreviation T := (procs s).

Lemma pinv_fork c p tf pt copied s' r fr : runs C c p -> Lc !! p = Some User -> nextpid s < 2 ^ 31 - 1 ->
  fork_alloc s p tf pt copied = (s', r, fr) ->
  pinv (Psys s' C (match r with Some np => <[p := Forked np]> Lc | None => Lc end) E R).
Proof.
  intros Hr Hl Hnext Ef. destruct (runs_running _ _ _ _ _ HI _ _ Hr) as (qp & Hp & Hs).
  pose proof (pi_tree _ HI) as Htr. psimp.
  assert (i32 (nextpid s + 1) = nextpid s + 1) as Hi32.
  { pose proof (tr_next _ _ _ _ Htr). unfold i32, sgn. rewrite Z.mod_small by lia. by rewrite (proj2 (Z.ltb_lt _ _)) by lia. }
  destruct (fork_alloc_spec _ _ _ _ _ _ _ _ Ef) as [[-> ->]|(i & q & Hi & Hq & [[-> ->]|(-> & q' & -> & Hq1 & Hq2 & Hq3)])]; [done| |];
    rewrite Hi32; pose proof (nodes_lookup _ _ _ Hi) as Hn; assert (k_of (node_of q) = Free) as Hk by (cbn; by rewrite Hq).
  - apply (pinv_entry _ _ _ _ _ HI i q proc0); [done|congruence|congruence|done|done|done| |done|].
    + intros r Hpar. pose proof (tr_free _ _ _ _ Htr i _ Hn Hk) as En. cbn in En. congruence.
    + eapply tree_clear; [done|done|by left|lia].
  - apply (pinv_entry _ _ _ _ _ HI i q q'); [done|congruence..| | |].
    + intros r Hpar. congruence.
    + intros j Hj. apply list_lookup_insert_Some in Hj as [(_ & ? & _)|[_ Hj]]; done.
    + replace (node_of q') with (New, nextpid s, None : option nat).
      * eapply tree_alloc; [done|done|done|by eapply running_live|done].
      * unfold node_of. rewrite Hq1, Hq2, Hq3. cbn. f_equal. pose proof (tr_free _ _ _ _ Htr i _ Hn Hk) as En. by cbn in En.
Qed.

Lemma node_proc i k pid par : (node_of <$> T) !! i = Some (k, pid, par) ->
  exists q, T !! i = Some q /\ kind_of (p_state q) = k /\ p_pid q = pid /\ p_parent q = par.
Proof. intros (q & Eq & Hq)%list_lookup_fmap_Some. exists q. split; [done|]. by injection Eq. Qed.
Lemma new_used st : kind_of st = New -> st = USED.
Proof. by destruct st. Qed.

Lemma pinv_parent c p np : runs C c p -> Lc !! p = Some (Forked np) ->
  pinv (Psys (with_procs s (fork_parent T p np)) C (<[p := Parented np]> Lc) E R).
Proof.
  intros Hr Hl. pose proof (pi_tree _ HI) as Htr. psimp.
  destruct (tree_new _ _ _ _ Htr p np _ Hl ltac:(by left)) as (pid & Hn & _). rewrite decide_True in Hn by done.
  destruct (node_proc _ _ _ _ Hn) as (q & Hq & Hk%new_used & Hpid & Hpar). unfold fork_parent. rewrite (upd_insert _ _ _ _ Hq).
  apply (pinv_entry _ _ _ _ _ HI np q); [done|cbn; congruence..| |].
  - intros j Hj. apply list_lookup_insert_Some in Hj as [(_ & ? & _)|[_ Hj]]; done.
  - replace (node_of (set_parent (Some p) q)) with (New, pid, Some p) by (unfold node_of; cbn; by rewrite Hk, Hpid).
    by apply tree_adopt.
Qed.

Lemma pinv_ready c p np : runs C c p -> Lc !! p = Some (Parented np) ->
  pinv (Psys (with_procs s (fork_ready T np)) C (<[np := User]> (<[p := User]> Lc)) E R).
Proof.
  intros Hr Hl. pose proof (pi_tree _ HI) as Htr. psimp.
  destruct (tree_new _ _ _ _ Htr p np _ Hl ltac:(by right)) as (pid & Hn & _). rewrite decide_False in Hn by done.
  destruct (node_proc _ _ _ _ Hn) as (q & Hq & Hk%new_used & Hpid & Hpar). unfold fork_ready. rewrite (upd_insert _ _ _ _ Hq).
  apply (pinv_entry _ _ _ _ _ HI np q); [done|congruence|congruence|done|done|done|done| |].
  - intros j Hj. apply list_lookup_insert_Some in Hj as [(_ & ? & _)|[_ Hj]]; [done|].
    apply list_lookup_insert_Some in Hj as [(_ & ? & _)|[_ Hj]]; done.
  - replace (node_of (set_state RUNNABLE q)) with (Live, pid, Some p) by (unfold node_of; cbn; by rewrite Hpar, Hpid).
    by apply tree_ready.
Qed.

Lemma pinv_wait c p copied T' r fr : runs C c p -> Lc !! p = Some User \/ Lc !! p = Some InWait ->
  wait T p copied = (T', r, fr) ->
  pinv (Psys (with_procs s T') (match r with WSleep => <[c := None]> C | _ => C end)
    (<[p := match r with WSleep => InWait | _ => User end]> Lc) E (R ++ reap T p copied)).
Proof.
  intros Hr Hl Ew. destruct (runs_running _ _ _ _ _ HI _ _ Hr) as (qp & Hp & Hs). unfold wait, reap in *.
  pose proof (pi_tree _ HI) as Htr. psimp.
  assert (forall l, (l = User \/ l = InWait) -> tree (node_of <$> T) (nextpid s) (initproc s) (<[p := l]> Lc)) as Hloc.
  { intros l Hll. apply tree_loc; [done|]. intros np [?|?]; destruct Hll; congruence. }
  assert (pinv (Psys (with_procs s T) C (<[p := User]> Lc) E (R ++ []))) as Hret.
  { rewrite app_nil_r. destruct HI as [H1 H2 H3 H4]. split; psimp; [by apply Hloc; left|done| |done].
    intros i q Hi Hsi Hli. apply list_lookup_insert_Some in Hli as [(_ & ? & _)|[_ Hli]]; [done|]. by apply H3. }
  pose proof (wait_scan_spec p T 0 false) as Hsc. destruct (wait_scan p T 0 false) as [i| |].
  - destruct Hsc as (j & q & -> & Hj & Hpar & Hz). rewrite Nat.add_0_l in *. rewrite Hj in *. cbn [default from_option id] in *.
    destruct copied; [|by injection Ew as <- <- <-]. cbn in Ew. injection Ew as <- <- <-. destruct HI as [H1 H2 H3 H4]. split; psimp.
    + rewrite nodes_insert. change (node_of proc0) with (Free, 0, None : option nat). eapply tree_clear; [by apply Hloc; left| | |lia].
      * by apply nodes_lookup.
      * right. cbn. by rewrite Hz.
    + eapply sched_same; [done|done|congruence|done].
    + eapply wait_insert; [done|done|done|done| |].
      * intros r0 Hr0. right. exists qp. split; [congruence|]. congruence.
      * intros k Hk. apply list_lookup_insert_Some in Hk as [(_ & ? & _)|[_ Hk]]; [done|by left].
    + rewrite H4, <- app_assoc. f_equiv. rewrite (zombies_delete T j q proc0 Hj eq_refl). unfold zombie. by rewrite decide_True.
  - destruct (killed T p); [by injection Ew as <- <- <-|]. injection Ew as <- <- <-. rewrite app_nil_r.
    eapply pinv_sleep; [done|done| |by apply Hloc; right|].
    + intros i Hi. by rewrite list_lookup_insert_ne.
    + intros _. split; [done|]. destruct Hsc as [[?|Hk] Hz]; [done|]. split; [|done]. destruct Hk as (j & q & ? & ?). by exists j, q.
  - by injection Ew as <- <- <-.
Qed.
End Preserve2.

(** ** exit *)

Section Exit.
Context (s : ptable) (C : list (option nat)) (Lc : list loc) (E R : list (Z * Z)) (HI : pinv (Psys s C Lc E R)).
Context (p : nat) (q : proc) (Hp : procs s !! p = Some q) (Hs : p_state q = RUNNING) (Hpi : p <> initproc s).
Abbreviation T := (procs s).
Abbreviation init := (initproc s).

(** The table when [exit] is about to set the state. *)
Definition exit_tab (T1 : list proc) : Prop :=
  Forall2 mild (adopt init p <$> T) T1 /\
  ((exists k r, T !! k = Some r /\ p_parent r = Some p) -> ~ asleep_on T1 init) /\
  forall r, p_parent (adopt init p q) = Some r -> r <> p -> ~ asleep_on T1 r.

Lemma adopt_zombie r : zombie (adopt init p r) = zombie r.
Proof. unfold adopt. by case_decide. Qed.
Lemma adopt_state r : p_state (adopt init p r) = p_state r.
Proof. unfold adopt. by case_decide. Qed.
Lemma adopt_chan r : p_chan (adopt init p r) = p_chan r.
Proof. unfold adopt. by case_decide. Qed.

Lemma exit_tab_entry T1 : exit_tab T1 -> exists q1, T1 !! p = Some q1 /\ p_state q1 = RUNNING /\ p_pid q1 = p_pid q /\
  p_parent q1 = p_parent (adopt init p q) /\ zombie q1 = None.
Proof.
  intros [H1 _]. destruct (mild_lookup_l _ _ p (adopt init p q) H1) as (q1 & Hq1 & Hm); [by rewrite list_lookup_fmap, Hp|].
  assert (p_state q1 = RUNNING) as Hr by (apply (mild_run _ _ Hm); by rewrite adopt_state).
  exists q1. pose proof (mi_node _ _ Hm) as En. injection En as _ E2 E3. split_and!; [done|done| |done|].
  - rewrite E2. unfold adopt. by case_decide.
  - apply zombie_none. congruence.
Qed.

Lemma exit_wait_ok T1 q1 status Lc' : exit_tab T1 -> T1 !! p = Some q1 ->
  (forall j, Lc' !! j = Some InWait -> Lc !! j = Some InWait) ->
  wait_ok (<[p := set_state ZOMBIE (set_xstate status q1)]> T1) Lc'.
Proof.
  intros Ht Hq1 HL. destruct (exit_tab_entry T1 Ht) as (q1' & Hq1' & _ & _ & Epar & _). rewrite Hq1 in Hq1'. injection Hq1' as <-.
  destruct Ht as (H1 & H2 & H3). intros r qr [(-> & <- & _)|[Hne Hr]]%list_lookup_insert_Some Hsr Hl; [done|].
  destruct (mild_lookup _ _ _ _ H1 Hr) as (r0 & Hr0 & Hm). apply list_lookup_fmap_Some in Hr0 as (r1 & -> & Hr1).
  assert (p_state r1 = SLEEPING /\ p_chan qr = p_chan r1) as [Hs1 Hc1].
  { destruct (mi_state _ _ Hm) as [[A1 A2]|[? ?]]; [|congruence]. rewrite adopt_state in A1. rewrite adopt_chan in A2. split; congruence. }
  destruct (pi_wait _ HI r r1 Hr1 Hs1 (HL _ Hl)) as (Hch & (k & rk & Hk & Hrk) & Hno). psimp.
  assert (asleep_on T1 r) as Has by (exists qr; split_and!; [done|done|congruence]).
  assert (forall k' rk', T1 !! k' = Some rk' -> p_parent rk' = Some r -> exists rk0, T !! k' = Some rk0 /\ p_parent rk0 = Some r /\ (p_state rk' = ZOMBIE -> p_state rk0 = ZOMBIE)) as HB.
  { intros k' rk' Hk' Hpar. destruct (mild_lookup _ _ _ _ H1 Hk') as (x & Hx & Hmx). apply list_lookup_fmap_Some in Hx as (rk0 & -> & Hrk0).
    exists rk0. split; [done|]. pose proof (mi_node _ _ Hmx) as En. injection En as _ _ E3. split.
    - rewrite E3 in Hpar. unfold adopt in Hpar. case_decide as Hd; [|done]. cbn in Hpar. injection Hpar as <-.
      exfalso. apply H2; [|done]. by exists k', rk0.
    - intros Hz. rewrite <- (adopt_state rk0). by eapply mild_state. }
  split; [congruence|]. split.
  - assert (exists rk', T1 !! k = Some rk' /\ p_parent rk' = Some r) as (rk' & Hk' & Hpar').
    { destruct (mild_lookup_l _ _ k (adopt init p rk) H1) as (rk' & Hk' & Hmk); [by rewrite list_lookup_fmap, Hk|]. exists rk'. split; [done|].
      pose proof (mi_node _ _ Hmk) as En. injection En as _ _ ->. unfold adopt. rewrite decide_False by congruence. done. }
    destruct (decide (k = p)) as [->|Hkp]; [|exists k, rk'; by rewrite list_lookup_insert_ne].
    exists p, (set_state ZOMBIE (set_xstate status q1)). rewrite list_lookup_insert_eq by (by eapply lookup_lt_Some). split; [done|]. cbn. congruence.
  - intros k' rk' [(-> & <- & _)|[_ Hk']]%list_lookup_insert_Some Hpar.
    + exfalso. apply (H3 r); [by cbn in Hpar; congruence|congruence|done].
    + intros Hz. destruct (HB _ _ Hk' Hpar) as (rk0 & ? & ? & ?). by apply (Hno k' rk0); auto.
Qed.

Lemma pinv_exit c status T1 : runs C c p -> Lc !! p = Some User -> exit_tab T1 ->
  pinv (Psys (with_procs s (upd T1 p (fun q => set_state ZOMBIE (set_xstate status q)))) (<[c := None]> C)
    (<[p := Out]> Lc) (E ++ [(p_pid q, status)]) R).
Proof.
  intros Hr Hl Ht. destruct (exit_tab_entry T1 Ht) as (q1 & Hq1 & Hs1 & Hpid & Hpar & Hz). rewrite (upd_insert _ _ _ _ Hq1).
  set (q2 := set_state ZOMBIE (set_xstate status q1)). destruct HI as [H1 H2 H3 H4]. pose proof Ht as (HT & _ & _). split; psimp.
  - rewrite nodes_insert, (mild_nodes _ _ HT).
    assert (node_of <$> (adopt init p <$> T) = adopted init p <$> (node_of <$> T)) as ->.
    { rewrite <- !list_fmap_compose. apply list_fmap_ext. intros _ r _. unfold adopted, adopt. cbn. by repeat case_decide. }
    replace (node_of q2) with (Dead, p_pid q, p_parent (adopt init p q)) by (unfold node_of; cbn; by rewrite Hpid, Hpar).
    eapply tree_exit; [done| |done|done|].
    + rewrite (nodes_lookup _ _ _ Hp). unfold node_of. by rewrite Hs.
    + unfold adopted, adopt. cbn. by repeat case_decide.
  - eapply sched_off; [eapply mild_sched; [exact HT|]|done|done|done].
    destruct H2 as [S1 S2 S3]. split; [| |done].
    + intros d r Hd. destruct (S1 d r Hd) as (x & Hx & Hsx). exists (adopt init p x). rewrite list_lookup_fmap, Hx, adopt_state. done.
    + intros r x (x0 & -> & Hx0)%list_lookup_fmap_Some Hsx. rewrite adopt_state in Hsx. by apply (S2 r x0).
  - eapply exit_wait_ok; [done|done|]. intros j Hj. apply list_lookup_insert_Some in Hj as [(_ & ? & _)|[_ Hj]]; done.
  - rewrite (zombies_insert T1 p q1 q2 Hq1 Hz), (mild_zombies _ _ HT).
    assert (zombies (adopt init p <$> T) = zombies T) as ->.
    { unfold zombies. generalize (procs s) as T0. intros T0. induction T0 as [|x T0 IH]; [done|]. cbn. by rewrite adopt_zombie, IH. }
    unfold zombie. rewrite decide_True by done. cbn. rewrite Hpid, H4. rewrite <- app_assoc. f_equiv. by rewrite Permutation_app_comm.
Qed.
End Exit.

Lemma exit_exit_tab s p q status s' : procs s !! p = Some q -> exit s p status = Some s' ->
  p <> initproc s /\ exists T1, exit_tab s p q T1 /\
    s' = with_procs s (upd T1 p (fun q => set_state ZOMBIE (set_xstate status q))).
Proof.
  intros Hp. unfold exit. case_decide as Hpi; [done|]. intros Eq. split; [done|].
  destruct (reparent_spec (initproc s) p (procs s)) as [H1 H2]; [done|]. set (T0 := reparent _ _ _) in *.
  destruct (mild_lookup_l _ _ p (adopt (initproc s) p q) H1) as (q0 & Hq0 & Hm); [by rewrite list_lookup_fmap, Hp|].
  rewrite Hq0 in Eq. cbn [default from_option id] in Eq.
  assert (p_parent q0 = p_parent (adopt (initproc s) p q)) as Epar by (pose proof (mi_node _ _ Hm) as En; by injection En).
  injection Eq as <-. eexists. split; [|done]. rewrite Epar.
  destruct (p_parent (adopt (initproc s) p q)) as [r|] eqn:Er; split_and!.
  - etrans; [done|apply wakeup_mild].
  - intros Hk Ha. apply (H2 Hk). eapply mild_asleep; [apply wakeup_mild|done].
  - intros r' Hr' Hne. rewrite Er in Hr'. injection Hr' as <-. by apply wakeup_awake.
  - etrans; [done|apply wakeup_mild].
  - intros Hk Ha. apply (H2 Hk). eapply mild_asleep; [apply wakeup_mild|done].
  - intros r' Hr'. congruence.
Qed.

Lemma pinv_step x y : pinv x -> psteps x y -> pinv y.
Proof.
  destruct x as [s C Lc E R]. intros HI Hst. unfold psteps in Hst. psimp. destruct Hst as
    [c p q Hc Hp Hs|c p Hr|c p ch Hr Hl|me ch|pid T' Hk|p|c p tf pt copied s' r fr Hr Hl Hn Ef|c p np Hr Hl|c p np Hr Hl
    |c p q status s' Hr Hl Hp Ee|c p copied T' r fr Hr Hl Ew].
  - by eapply pinv_run.
  - by apply pinv_yield.
  - eapply pinv_sleep; [done|done|done|apply HI|congruence].
  - apply pinv_mild; [done|]. apply wakeup_mild.
  - apply pinv_mild; [done|]. by eapply kill_mild.
  - apply pinv_mild; [done|]. apply setkilled_mild.
  - by eapply pinv_fork.
  - by eapply pinv_parent.
  - by eapply pinv_ready.
  - destruct (exit_exit_tab _ _ _ _ _ Hp Ee) as (Hpi & T1 & Ht & ->).
    destruct (runs_running _ _ _ _ _ HI _ _ Hr) as (q' & Hq' & Hs). rewrite Hp in Hq'. injection Hq' as <-. by eapply pinv_exit.
  - by eapply pinv_wait.
Qed.

(** The state that [userinit] leaves, with idle CPUs. *)
Definition boot (tf pt : Z) (ncpu : nat) : psys :=
  Psys (userinit tf pt) (replicate ncpu None) (User :: replicate (NPROC - 1) Out) [] [].

Lemma boot_inv tf pt ncpu : tf <> 0 -> pt <> 0 -> pinv (boot tf pt ncpu).
Proof.
  intros Htf Hpt. unfold boot, userinit, allocproc. cbn [procs find_unused replicate NPROC nextpid initproc].
  rewrite decide_True by done. cbn [allocpid lookup list_lookup default from_option id]. unfold fill.
  rewrite (proj2 (Z.eqb_neq tf 0)), (proj2 (Z.eqb_neq pt 0)) by done.
  assert (forall (i : nat) (n : node), ((Live, 1, None) :: replicate 63 (Free, 0, None)) !! i = Some n ->
    (i = 0%nat /\ n = (Live, 1, None)) \/ n = (Free, 0, None)) as HN.
  { intros [|i] n Hi; [cbn in Hi; injection Hi as <-; by left|]. right. by apply lookup_replicate in Hi as [-> _]. }
  assert (forall (p : nat) l np, (User :: replicate 63 Out) !! p = Some l -> forking l np -> False) as HF.
  { intros [|p] l np Hl; [cbn in Hl; injection Hl as <-; by intros []|]. apply lookup_replicate in Hl as [-> _]. by intros []. }
  split; psimp.
  - change (tree ((Live, 1, None) :: replicate 63 (Free, 0, None)) 2 0 (User :: replicate 63 Out)). split; try done.
    + intros i n [[-> ->]| ->]%HN ?; [cbn; lia|done].
    + intros i j n m [[-> ->]| ->]%HN [[-> ->]| ->]%HN; done.
    + intros i n [[-> ->]| ->]%HN; done.
    + by exists (Live, 1, None).
    + intros i n r [[-> ->]| ->]%HN; done.
    + intros i n [[-> ->]| ->]%HN; [done|]. by intros [].
    + intros p l np Hl Hf. by destruct (HF p l np).
    + intros p p' l l' np Hl _ Hf. by destruct (HF p l np).
  - split.
    + intros c p [? _]%lookup_replicate. done.
    + intros [|p] q Hq Hs; [cbn in Hq; injection Hq as <-; done|]. change (replicate 63 proc0 !! p = Some q) in Hq.
      apply lookup_replicate in Hq as [-> _]. done.
    + intros c d p [? _]%lookup_replicate. done.
  - intros [|p] q Hq Hs Hl; [cbn in Hq; injection Hq as <-; done|]. change (replicate 63 proc0 !! p = Some q) in Hq.
    apply lookup_replicate in Hq as [-> _]. done.
  - done.
Qed.

Lemma boot_reach tf pt ncpu x : tf <> 0 -> pt <> 0 -> rtc psteps (boot tf pt ncpu) x -> pinv x.
Proof.
  intros Htf Hpt Hr. pose proof (boot_inv tf pt ncpu Htf Hpt) as H0. revert H0.
  induction Hr as [|x y z Hst _ IH]; [done|]. intros H0. apply IH. by eapply pinv_step.
Qed.

(** C20: the process table is a tree under any interleaving of scheduling, sleep,
    wakeup, kill, fork, exit and wait on any number of CPUs: pids in use are
    distinct; every process that runs, can run, sleeps or has exited, init apart,
    has a parent that is alive; and a process is in state RUNNING exactly when
    one CPU runs it.  (For fewer than 2^31 forks.) *)
Theorem proc_tree tf pt ncpu x : tf <> 0 -> pt <> 0 -> rtc psteps (boot tf pt ncpu) x ->
  let T := procs (s_tab x) in
  (forall i j q r, T !! i = Some q -> T !! j = Some r -> p_state q <> UNUSED -> p_state r <> UNUSED ->
     p_pid q = p_pid r -> i = j) /\
  (forall i q, T !! i = Some q -> p_state q <> UNUSED -> p_state q <> USED -> i <> initproc (s_tab x) ->
     exists r qr, p_parent q = Some r /\ T !! r = Some qr /\ kind_of (p_state qr) = Live) /\
  (forall p q, T !! p = Some q -> p_state q = RUNNING <-> exists c, s_cpus x !! c = Some (Some p) /\
     forall d, s_cpus x !! d = Some (Some p) -> d = c).
Proof.
  intros Htf Hpt Hr T. destruct (boot_reach tf pt ncpu x Htf Hpt Hr) as [Ht Hs _ _]. fold T in Ht, Hs. split; [|split].
  - intros i j q r Hi Hj Hq Hr' E. apply (tr_uniq _ _ _ _ Ht i j (node_of q) (node_of r)); [by apply nodes_lookup..| | |done].
    + cbn. by destruct (p_state q).
    + cbn. by destruct (p_state r).
  - intros i q Hi H1 H2 Hne. pose proof (nodes_lookup _ _ _ Hi) as Hn.
    assert (p_parent q <> None) as Hp. { apply (tr_orphan _ _ _ _ Ht i _ Hn); [|done]. cbn. destruct (p_state q); auto; done. }
    destruct (p_parent q) as [r|] eqn:Er; [|done]. destruct (tr_parent _ _ _ _ Ht i _ r Hn Er) as (n & Hn' & Hk).
    apply list_lookup_fmap_Some in Hn' as (qr & -> & Hqr). by exists r, qr.
  - intros p q Hp. split.
    + intros Hrun. destruct (so_cpu _ _ Hs p q Hp Hrun) as [c Hc]. exists c. split; [done|]. intros d Hd. by apply (so_one _ _ Hs d c p).
    + intros (c & Hc & _). destruct (so_run _ _ Hs c p Hc) as (q' & Hq' & ?). congruence.
Qed.

(** C19: no exit is missed and no exit status is lost.  Under any interleaving, a
    process asleep in [wait] has a child and none of its children has exited; and
    every call of [exit] is either still a zombie, with its pid and status, or
    has been returned by exactly one [wait]. *)
Theorem exit_wait tf pt ncpu x : tf <> 0 -> pt <> 0 -> rtc psteps (boot tf pt ncpu) x ->
  let T := procs (s_tab x) in
  (forall p q, T !! p = Some q -> p_state q = SLEEPING -> s_locs x !! p = Some InWait ->
     (exists k r, T !! k = Some r /\ p_parent r = Some p) /\
     forall k r, T !! k = Some r -> p_parent r = Some p -> p_state r <> ZOMBIE) /\
  s_exits x ≡ₚ s_reaped x ++ zombies T.
Proof.
  intros Htf Hpt Hr T. destruct (boot_reach tf pt ncpu x Htf Hpt Hr) as [_ _ Hw Hh]. split; [|done].
  intros p q Hp Hs Hl. by destruct (Hw p q Hp Hs Hl) as (_ & ? & ?).
Qed.

(** ** A run: init forks and waits, the child exits with status 7 *)

Definition ex_b : psys := Eval vm_compute in boot 4096 8192 1.
Definition next_tab (x : psys) (T : list proc) C Lc E R : psys := Psys (with_procs (s_tab x) T) C Lc E R.
Definition ex_p1 : psys := Eval vm_compute in
  next_tab ex_b (run_on (s_cpus ex_b) (procs (s_tab ex_b)) 0 0).2 [Some 0%nat] (s_locs ex_b) [] [].
Definition ex_p2 : psys := Eval vm_compute in
  Psys (fork_alloc (s_tab ex_p1) 0 12288 16384 true).1.1 [Some 0%nat] (<[0%nat := Forked 1]> (s_locs ex_p1)) [] [].
Definition ex_p3 : psys := Eval vm_compute in
  next_tab ex_p2 (fork_parent (procs (s_tab ex_p2)) 0 1) [Some 0%nat] (<[0%nat := Parented 1]> (s_locs ex_p2)) [] [].
Definition ex_p4 : psys := Eval vm_compute in
  next_tab ex_p3 (fork_ready (procs (s_tab ex_p3)) 1) [Some 0%nat] (<[1%nat := User]> (<[0%nat := User]> (s_locs ex_p3))) [] [].
Definition ex_p5 : psys := Eval vm_compute in
  next_tab ex_p4 (wait (procs (s_tab ex_p4)) 0 true).1.1 [None] (<[0%nat := InWait]> (s_locs ex_p4)) [] [].
Definition ex_p6 : psys := Eval vm_compute in
  next_tab ex_p5 (run_on (s_cpus ex_p5) (procs (s_tab ex_p5)) 0 1).2 [Some 1%nat] (s_locs ex_p5) [] [].
Definition ex_p7 : psys := Eval vm_compute in
  Psys (default (s_tab ex_p6) (exit (s_tab ex_p6) 1 7)) [None] (<[1%nat := Out]> (s_locs ex_p6)) [(2, 7)] [].

Lemma psteps_eq x y y' : psteps x y -> y = y' -> psteps x y'.
Proof. by intros ? <-. Qed.
Lemma ex_p5_run : rtc psteps (boot 4096 8192 1) ex_p5.
Proof.
  change (boot 4096 8192 1) with ex_b.
  eapply rtc_l; [eapply psteps_eq; [eapply (ps_run _ _ _ _ _ 0 0); reflexivity|instantiate (1 := ex_p1); reflexivity]|].
  eapply rtc_l; [eapply psteps_eq; [eapply (ps_fork _ _ _ _ _ 0 0 12288 16384 true); [reflexivity|reflexivity|done|reflexivity]|instantiate (1 := ex_p2); reflexivity]|].
  eapply rtc_l; [eapply psteps_eq; [eapply (ps_parent _ _ _ _ _ 0 0 1); reflexivity|instantiate (1 := ex_p3); reflexivity]|].
  eapply rtc_l; [eapply psteps_eq; [eapply (ps_ready _ _ _ _ _ 0 0 1); reflexivity|instantiate (1 := ex_p4); reflexivity]|].
  eapply rtc_l; [eapply psteps_eq; [eapply (ps_wait _ _ _ _ _ 0 0 true); [reflexivity|left; reflexivity|reflexivity]|instantiate (1 := ex_p5); reflexivity]|].
  apply rtc_refl.
Qed.
Lemma ex_p7_run : rtc psteps (boot 4096 8192 1) ex_p7.
Proof.
  etrans; [apply ex_p5_run|].
  eapply rtc_l; [eapply psteps_eq; [eapply (ps_run _ _ _ _ _ 0 1); reflexivity|instantiate (1 := ex_p6); reflexivity]|].
  eapply rtc_l; [eapply psteps_eq; [eapply (ps_exit _ _ _ _ _ 0 1 _ 7); reflexivity|instantiate (1 := ex_p7); reflexivity]|].
  apply rtc_refl.
Qed.

Lemma proc_tree_witness : exists q r qr, procs (s_tab ex_p5) !! 1%nat = Some q /\ p_pid q = 2 /\
  p_parent q = Some r /\ procs (s_tab ex_p5) !! r = Some qr /\ kind_of (p_state qr) = Live.
Proof.
  destruct (proc_tree 4096 8192 1 ex_p5 ltac:(done) ltac:(done) ex_p5_run) as (_ & H & _).
  eexists. destruct (H 1%nat _ eq_refl) as (r & qr & H1 & H2 & H3); [done|done|done|]. exists r, qr. split; [reflexivity|]. by split_and!.
Defined.
Lemma exit_wait_witness : s_exits ex_p7 ≡ₚ s_reaped ex_p7 ++ zombies (procs (s_tab ex_p7)) /\ s_exits ex_p7 = [(2, 7)].
Proof. split; [|reflexivity]. apply (exit_wait 4096 8192 1 ex_p7); [done|done|apply ex_p7_run]. Defined.

(** ** kill of pid 0 *)

(** C40: [kill(0)] succeeds and marks a free entry of the table, which has pid 0,
    as killed; [allocproc] does not clear the mark, so the next process to get
    the entry is killed as soon as it is created. *)
Theorem kill_zero s p A q B tf pt : procs s = A ++ q :: B ->
  (forall r, r ∈ A -> p_state r <> UNUSED /\ p_pid r <> 0) -> p_state q = UNUSED -> p_pid q = 0 -> tf <> 0 -> pt <> 0 ->
  exists T s', kill 0 (procs s) = Some T /\
    fork_alloc (with_procs s T) p tf pt true = (s', Some (length A), []) /\ killed (procs s') (length A) = true.
Proof.
  intros ET HA Hq Hpid Htf Hpt. exists (A ++ set_killed q :: B). eexists. split; [|split].
  - rewrite ET. clear ET. induction A as [|r A IH]; cbn.
    + rewrite (proj2 (Z.eqb_eq _ _)) by done. by rewrite decide_False by congruence.
    + rewrite (proj2 (Z.eqb_neq _ _)) by (apply HA; left). rewrite IH; [done|]. intros r' Hr'. apply HA. by right.
  - unfold fork_alloc, allocproc, with_procs. cbn [procs nextpid initproc].
    assert (find_unused (A ++ set_killed q :: B) = Some (length A)) as ->.
    { clear ET. induction A as [|r A IH]; cbn; [by rewrite decide_True|]. rewrite decide_False by (apply HA; left).
      rewrite IH; [done|]. intros r' Hr'. apply HA. by right. }
    rewrite list_lookup_middle by done. cbn [allocpid default from_option id]. unfold fill.
    rewrite (proj2 (Z.eqb_neq tf 0)), (proj2 (Z.eqb_neq pt 0)) by done. cbn [procs nextpid initproc]. done.
  - cbn [procs]. unfold killed. erewrite upd_insert by (apply list_lookup_insert_eq; rewrite length_app; cbn; lia).
    rewrite list_lookup_insert_eq by (rewrite length_insert, length_app; cbn; lia). done.
Qed.
Lemma kill_zero_witness : exists T s', kill 0 (procs (s_tab ex_b)) = Some T /\
  fork_alloc (with_procs (s_tab ex_b) T) 0 12288 16384 true = (s', Some 1%nat, []) /\ killed (procs s') 1 = true.
Proof.
  apply (kill_zero (s_tab ex_b) 0 (take 1 (procs (s_tab ex_b))) proc0 (replicate 62 proc0)); try done.
  intros r Hr. change (take 1 (procs (s_tab ex_b))) with [Proc RUNNABLE 0 false 0 1 None 4096 8192 4096 (p_name (hd proc0 (procs (s_tab ex_b))))] in Hr.
  apply list_elem_of_singleton in Hr as ->. done.
Defined.
