(* ===== verification/Virtio.v ===== *)
(** * kernel/virtio_disk.c

    The disk driver and the device it talks to.  The memory that they share
    (descriptors, the available and the used ring, request headers, status
    bytes) and the driver's own books are the record [vd].  The device is not
    part of the kernel: it is a step relation [devstep], of which
    [virtio_spec] says what the virtio specification promises.

    [virtio_disk_rw] holds [vdisk_lock] between its sleeps, but the lock does
    not keep the device out: the stores that publish a request are therefore
    single steps ([store], in program order), and the device moves between any
    two of them.  [dstep] interleaves any number of calls, the interrupt
    handler and the device. *)

From S2P Require Import Prelude Riscv Mem BufCache.

(** ** kernel/virtio.h *)

Definition VIRTIO_MMIO_MAGIC_VALUE : Z := 0x000.
Definition VIRTIO_MMIO_VERSION : Z := 0x004.
Definition VIRTIO_MMIO_DEVICE_ID : Z := 0x008.
Definition VIRTIO_MMIO_VENDOR_ID : Z := 0x00c.
Definition VIRTIO_MMIO_DEVICE_FEATURES : Z := 0x010.
Definition VIRTIO_MMIO_DRIVER_FEATURES : Z := 0x020.
Definition VIRTIO_MMIO_QUEUE_SEL : Z := 0x030.
Definition VIRTIO_MMIO_QUEUE_NUM_MAX : Z := 0x034.
Definition VIRTIO_MMIO_QUEUE_NUM : Z := 0x038.
Definition VIRTIO_MMIO_QUEUE_READY : Z := 0x044.
Definition VIRTIO_MMIO_STATUS : Z := 0x070.
Definition VIRTIO_MMIO_QUEUE_DESC_LOW : Z := 0x080.
Definition VIRTIO_MMIO_QUEUE_DESC_HIGH : Z := 0x084.
Definition VIRTIO_MMIO_DRIVER_DESC_LOW : Z := 0x090.
Definition VIRTIO_MMIO_DRIVER_DESC_HIGH : Z := 0x094.
Definition VIRTIO_MMIO_DEVICE_DESC_LOW : Z := 0x0a0.
Definition VIRTIO_MMIO_DEVICE_DESC_HIGH : Z := 0x0a4.

Definition VIRTIO_CONFIG_S_ACKNOWLEDGE : Z := 1.
Definition VIRTIO_CONFIG_S_DRIVER : Z := 2.
Definition VIRTIO_CONFIG_S_DRIVER_OK : Z := 4.
Definition VIRTIO_CONFIG_S_FEATURES_OK : Z := 8.

Definition VIRTIO_BLK_F_RO : Z := 5.
Definition VIRTIO_BLK_F_SCSI : Z := 7.
Definition VIRTIO_BLK_F_CONFIG_WCE : Z := 11.
Definition VIRTIO_BLK_F_MQ : Z := 12.
Definition VIRTIO_F_ANY_LAYOUT : Z := 27.
Definition VIRTIO_RING_F_INDIRECT_DESC : Z := 28.
Definition VIRTIO_RING_F_EVENT_IDX : Z := 29.

Definition NUM : Z := 8.
Definition VRING_DESC_F_NEXT : Z := 1.
Definition VRING_DESC_F_WRITE : Z := 2.
Definition VIRTIO_BLK_T_IN : Z := 0.
Definition VIRTIO_BLK_T_OUT : Z := 1.

(** ** The memory that driver and device share *)

(** The addresses the driver hands to the device: [&disk.ops[i]], [b->data]
    and [&disk.info[i].status]. *)
Inductive vaddr := ANull | AOps (i : Z) | AData (b : Z) | AStatus (i : Z).
Record virtq_desc := Desc { d_addr : vaddr; d_len : Z; d_flags : Z; d_next : Z }.
Record virtio_blk_req := Req { r_type : Z; r_reserved : Z; r_sector : Z }.
(** The fields of [struct buf] that matter here. *)
Record vbuf := VBuf { vb_blockno : Z; vb_disk : Z; vb_data : block }.

(** What was never written is zero. *)
#[export] Instance word_zero : Inhabited Z := populate 0.
#[export] Instance virtq_desc_inh : Inhabited virtq_desc := populate (Desc ANull 0 0 0).
#[export] Instance virtio_blk_req_inh : Inhabited virtio_blk_req := populate (Req 0 0 0).
#[export] Instance vbuf_inh : Inhabited vbuf := populate (VBuf 0 0 ∅).

(** The channels of [sleep]: [&disk.free[0]] and a buffer. *)
Inductive chan := CFree | CBuf (b : Z).
#[export] Instance chan_eq_dec : EqDecision chan.
Proof. solve_decision. Defined.

Record vd := Vd {
  v_desc : gmap Z virtq_desc;
  v_aring : gmap Z Z;        (* avail->ring *)
  v_aidx : Z;                (* avail->idx *)
  v_uring : gmap Z Z;        (* used->ring[].id *)
  v_uidx : Z;                (* used->idx *)
  v_free : gmap Z Z;
  v_used_idx : Z;            (* disk.used_idx *)
  v_info_b : gmap Z Z;       (* info[].b; -1 for the null pointer *)
  v_status : gmap Z Z;       (* info[].status *)
  v_ops : gmap Z virtio_blk_req;
  v_bufs : gmap Z vbuf;
  v_irq : Z;                 (* VIRTIO_MMIO_INTERRUPT_STATUS *)
  v_kick : bool;             (* the device was notified and has work to look for *)
  v_wakes : list chan        (* the calls of wakeup in this burst *)
}.

Definition set_desc i (f : virtq_desc -> virtq_desc) (s : vd) : vd :=
  Vd (<[i := f (v_desc s !!! i)]> (v_desc s)) (v_aring s) (v_aidx s) (v_uring s) (v_uidx s) (v_free s)
     (v_used_idx s) (v_info_b s) (v_status s) (v_ops s) (v_bufs s) (v_irq s) (v_kick s) (v_wakes s).
Definition set_avail r i (s : vd) : vd :=
  Vd (v_desc s) r i (v_uring s) (v_uidx s) (v_free s)
     (v_used_idx s) (v_info_b s) (v_status s) (v_ops s) (v_bufs s) (v_irq s) (v_kick s) (v_wakes s).
Definition set_used r i (s : vd) : vd :=
  Vd (v_desc s) (v_aring s) (v_aidx s) r i (v_free s)
     (v_used_idx s) (v_info_b s) (v_status s) (v_ops s) (v_bufs s) (v_irq s) (v_kick s) (v_wakes s).
Definition set_free i v (s : vd) : vd :=
  Vd (v_desc s) (v_aring s) (v_aidx s) (v_uring s) (v_uidx s) (<[i := v]> (v_free s))
     (v_used_idx s) (v_info_b s) (v_status s) (v_ops s) (v_bufs s) (v_irq s) (v_kick s) (v_wakes s).
Definition set_used_idx i (s : vd) : vd :=
  Vd (v_desc s) (v_aring s) (v_aidx s) (v_uring s) (v_uidx s) (v_free s)
     i (v_info_b s) (v_status s) (v_ops s) (v_bufs s) (v_irq s) (v_kick s) (v_wakes s).
Definition set_info_b i b (s : vd) : vd :=
  Vd (v_desc s) (v_aring s) (v_aidx s) (v_uring s) (v_uidx s) (v_free s)
     (v_used_idx s) (<[i := b]> (v_info_b s)) (v_status s) (v_ops s) (v_bufs s) (v_irq s) (v_kick s) (v_wakes s).
Definition set_status i v (s : vd) : vd :=
  Vd (v_desc s) (v_aring s) (v_aidx s) (v_uring s) (v_uidx s) (v_free s)
     (v_used_idx s) (v_info_b s) (<[i := v]> (v_status s)) (v_ops s) (v_bufs s) (v_irq s) (v_kick s) (v_wakes s).
Definition set_ops i (f : virtio_blk_req -> virtio_blk_req) (s : vd) : vd :=
  Vd (v_desc s) (v_aring s) (v_aidx s) (v_uring s) (v_uidx s) (v_free s)
     (v_used_idx s) (v_info_b s) (v_status s) (<[i := f (v_ops s !!! i)]> (v_ops s)) (v_bufs s) (v_irq s) (v_kick s) (v_wakes s).
Definition set_vbuf b (f : vbuf -> vbuf) (s : vd) : vd :=
  Vd (v_desc s) (v_aring s) (v_aidx s) (v_uring s) (v_uidx s) (v_free s)
     (v_used_idx s) (v_info_b s) (v_status s) (v_ops s) (<[b := f (v_bufs s !!! b)]> (v_bufs s)) (v_irq s) (v_kick s) (v_wakes s).
Definition set_irq v (s : vd) : vd :=
  Vd (v_desc s) (v_aring s) (v_aidx s) (v_uring s) (v_uidx s) (v_free s)
     (v_used_idx s) (v_info_b s) (v_status s) (v_ops s) (v_bufs s) v (v_kick s) (v_wakes s).
Definition set_kick v (s : vd) : vd :=
  Vd (v_desc s) (v_aring s) (v_aidx s) (v_uring s) (v_uidx s) (v_free s)
     (v_used_idx s) (v_info_b s) (v_status s) (v_ops s) (v_bufs s) (v_irq s) v (v_wakes s).
Definition set_wakes l (s : vd) : vd :=
  Vd (v_desc s) (v_aring s) (v_aidx s) (v_uring s) (v_uidx s) (v_free s)
     (v_used_idx s) (v_info_b s) (v_status s) (v_ops s) (v_bufs s) (v_irq s) (v_kick s) l.

Definition buf_disk v (x : vbuf) : vbuf := VBuf (vb_blockno x) v (vb_data x).
Definition buf_data d (x : vbuf) : vbuf := VBuf (vb_blockno x) (vb_disk x) d.
Definition vd_wakeup (c : chan) : M vd unit := modify (fun s => set_wakes (v_wakes s ++ [c]) s).

(** ** Initialisation *)

(** [rd] is what the device's registers read as, [wr] the registers written so
    far, the last one first. *)
Record boot := Boot { wr : list (Z * Z); b_vd : vd }.

Section Init.
Context (rd : Z -> Z).

Definition wreg (r v : Z) : M boot unit := modify (fun s => Boot ((r, u32 v) :: wr s) (b_vd s)).
Definition on_vd (f : vd -> vd) : M boot unit := modify (fun s => Boot (wr s) (f (b_vd s))).

(** [features &= ~(1 << n)]: [1 << n] is an [int], [features] a [uint64]. *)
Definition clear_feature (features n : Z) : Z := Z.land features (u64 (Z.lnot (Z.shiftl 1 n))).

Fixpoint free_all (i : Z) (k : nat) (s : vd) : vd :=
  match k with O => s | S k => free_all (i + 1) k (set_free i 1 s) end.

(** [desc], [avail] and [used] are the results of the three calls of [kalloc]. *)
Definition virtio_disk_init (desc avail used : Z) : M boot unit :=
  if negb (rd VIRTIO_MMIO_MAGIC_VALUE =? 0x74726976) ||
     negb (rd VIRTIO_MMIO_VERSION =? 2) ||
     negb (rd VIRTIO_MMIO_DEVICE_ID =? 2) ||
     negb (rd VIRTIO_MMIO_VENDOR_ID =? 0x554d4551)
  then panic "could not find virtio disk" else
  let status := 0 in
  wreg VIRTIO_MMIO_STATUS status;;
  let status := Z.lor status VIRTIO_CONFIG_S_ACKNOWLEDGE in
  wreg VIRTIO_MMIO_STATUS status;;
  let status := Z.lor status VIRTIO_CONFIG_S_DRIVER in
  wreg VIRTIO_MMIO_STATUS status;;
  let features := rd VIRTIO_MMIO_DEVICE_FEATURES in
  let features := clear_feature features VIRTIO_BLK_F_RO in
  let features := clear_feature features VIRTIO_BLK_F_SCSI in
  let features := clear_feature features VIRTIO_BLK_F_CONFIG_WCE in
  let features := clear_feature features VIRTIO_BLK_F_MQ in
  let features := clear_feature features VIRTIO_F_ANY_LAYOUT in
  let features := clear_feature features VIRTIO_RING_F_EVENT_IDX in
  let features := clear_feature features VIRTIO_RING_F_INDIRECT_DESC in
  wreg VIRTIO_MMIO_DRIVER_FEATURES features;;
  let status := Z.lor status VIRTIO_CONFIG_S_FEATURES_OK in
  wreg VIRTIO_MMIO_STATUS status;;
  let status := rd VIRTIO_MMIO_STATUS in
  if Z.land status VIRTIO_CONFIG_S_FEATURES_OK =? 0 then panic "virtio disk FEATURES_OK unset" else
  wreg VIRTIO_MMIO_QUEUE_SEL 0;;
  if negb (rd VIRTIO_MMIO_QUEUE_READY =? 0) then panic "virtio disk should not be ready" else
  let max := rd VIRTIO_MMIO_QUEUE_NUM_MAX in
  if max =? 0 then panic "virtio disk has no queue 0" else
  if max <? NUM then panic "virtio disk max queue too short" else
  if (desc =? 0) || (avail =? 0) || (used =? 0) then panic "virtio disk kalloc" else
  on_vd (fun s => Vd ∅ (v_aring s) (v_aidx s) (v_uring s) (v_uidx s) (v_free s) (v_used_idx s)
                     (v_info_b s) (v_status s) (v_ops s) (v_bufs s) (v_irq s) (v_kick s) (v_wakes s));;
  on_vd (set_avail ∅ 0);;
  on_vd (set_used ∅ 0);;
  wreg VIRTIO_MMIO_QUEUE_NUM NUM;;
  wreg VIRTIO_MMIO_QUEUE_DESC_LOW desc;;
  wreg VIRTIO_MMIO_QUEUE_DESC_HIGH (Z.shiftr desc 32);;
  wreg VIRTIO_MMIO_DRIVER_DESC_LOW avail;;
  wreg VIRTIO_MMIO_DRIVER_DESC_HIGH (Z.shiftr avail 32);;
  wreg VIRTIO_MMIO_DEVICE_DESC_LOW used;;
  wreg VIRTIO_MMIO_DEVICE_DESC_HIGH (Z.shiftr used 32);;
  wreg VIRTIO_MMIO_QUEUE_READY 1;;
  on_vd (free_all 0 (Z.to_nat NUM));;
  let status := Z.lor status VIRTIO_CONFIG_S_DRIVER_OK in
  wreg VIRTIO_MMIO_STATUS status.
End Init.

(** The static [disk] before [virtio_disk_init]: all zero; the buffers as
    [binit] leaves them. *)
Definition vd_bss (bufs : gmap Z vbuf) : vd := Vd ∅ ∅ 0 ∅ 0 ∅ 0 ∅ ∅ ∅ bufs 0 false [].

(** ** Descriptors *)

Fixpoint alloc_from (i : Z) (k : nat) : M vd Z :=
  match k with
  | O => mret (-1)
  | S k =>
      f ← gets (fun s => v_free s !!! i);
      if negb (f =? 0) then modify (set_free i 0);; mret i
      else alloc_from (i + 1) k
  end.
Definition alloc_desc : M vd Z := alloc_from 0 (Z.to_nat NUM).

Definition free_desc (i : Z) : M vd unit :=
  if i >=? NUM then panic "free_desc 1" else
  f ← gets (fun s => v_free s !!! i);
  if negb (f =? 0) then panic "free_desc 2" else
  modify (set_desc i (fun _ => Desc ANull 0 0 0));;
  modify (set_free i 1);;
  vd_wakeup CFree.

(** A chain has at most [NUM] descriptors, since [free_desc] refuses a
    descriptor that is free. *)
Definition CHAINFUEL : positive := 16.
Definition free_chain_step (i : Z) : M vd (Z + unit) :=
  d ← gets (fun s => v_desc s !!! i);
  free_desc i;;
  if negb (Z.land (d_flags d) VRING_DESC_F_NEXT =? 0) then mret (inl (d_next d))
  else mret (inr tt).
Definition free_chain (i : Z) : M vd unit := loop free_chain_step CHAINFUEL i.

(** [None] for the result -1. *)
Definition alloc3_desc : M vd (option (Z * Z * Z)) :=
  i0 ← alloc_desc;
  if i0 <? 0 then mret None else
  i1 ← alloc_desc;
  if i1 <? 0 then free_desc i0;; mret None else
  i2 ← alloc_desc;
  if i2 <? 0 then free_desc i0;; free_desc i1;; mret None else
  mret (Some (i0, i1, i2)).

(** ** The stores that publish a request, in program order *)

Inductive store :=
| SType (i v : Z) | SReserved (i v : Z) | SSector (i v : Z)
| SAddr (i : Z) (a : vaddr) | SLen (i v : Z) | SFlags (i v : Z) | SFlagsOr (i v : Z) | SNext (i v : Z)
| SStatus (i v : Z)
| SDisk (b v : Z)
| SInfo (i b : Z)
| SRing (i : Z)     (* disk.avail->ring[disk.avail->idx % NUM] = i *)
| SAvail            (* disk.avail->idx += 1 *)
| SNotify.          (* *R(VIRTIO_MMIO_QUEUE_NOTIFY) = 0 *)

Definition exec_store (st : store) (s : vd) : vd :=
  match st with
  | SType i v => set_ops i (fun r => Req v (r_reserved r) (r_sector r)) s
  | SReserved i v => set_ops i (fun r => Req (r_type r) v (r_sector r)) s
  | SSector i v => set_ops i (fun r => Req (r_type r) (r_reserved r) v) s
  | SAddr i a => set_desc i (fun d => Desc a (d_len d) (d_flags d) (d_next d)) s
  | SLen i v => set_desc i (fun d => Desc (d_addr d) v (d_flags d) (d_next d)) s
  | SFlags i v => set_desc i (fun d => Desc (d_addr d) (d_len d) v (d_next d)) s
  | SFlagsOr i v => set_desc i (fun d => Desc (d_addr d) (d_len d) (Z.lor (d_flags d) v) (d_next d)) s
  | SNext i v => set_desc i (fun d => Desc (d_addr d) (d_len d) (d_flags d) v) s
  | SStatus i v => set_status i v s
  | SDisk b v => set_vbuf b (buf_disk v) s
  | SInfo i b => set_info_b i b s
  | SRing i => set_avail (<[v_aidx s mod NUM := i]> (v_aring s)) (v_aidx s) s
  | SAvail => set_avail (v_aring s) (u16 (v_aidx s + 1)) s
  | SNotify => set_kick true s
  end.

Definition format_stores (b : Z) (write : bool) (sector : Z) (idx : Z * Z * Z) : list store :=
  let '(i0, i1, i2) := idx in
  [SType i0 (if write then VIRTIO_BLK_T_OUT else VIRTIO_BLK_T_IN);
   SReserved i0 0;
   SSector i0 sector;
   SAddr i0 (AOps i0);
   SLen i0 16;
   SFlags i0 VRING_DESC_F_NEXT;
   SNext i0 i1;
   SAddr i1 (AData b);
   SLen i1 BSIZE;
   SFlags i1 (if write then 0 else VRING_DESC_F_WRITE);
   SFlagsOr i1 VRING_DESC_F_NEXT;
   SNext i1 i2;
   SStatus i0 0xff;
   SAddr i2 (AStatus i0);
   SLen i2 1;
   SFlags i2 VRING_DESC_F_WRITE;
   SNext i2 0;
   SDisk b 1;
   SInfo i0 b].
Definition publish_stores (idx : Z * Z * Z) : list store :=
  let '(i0, _, _) := idx in [SRing i0; SAvail; SNotify].
Definition rw_stores (b : Z) (write : bool) (sector : Z) (idx : Z * Z * Z) : list store :=
  format_stores b write sector idx ++ publish_stores idx.

(** [b->blockno * (BSIZE / 512)], an [uint]. *)
Definition rw_sector (x : vbuf) : Z := u32 (vb_blockno x * (BSIZE / 512)).

(** The end of [virtio_disk_rw]. *)
Definition rw_finish (i0 : Z) : M vd unit :=
  modify (set_info_b i0 (-1));;
  free_chain i0.

(** One turn of the loop of [virtio_disk_intr]. *)
Definition intr_turn : M vd unit :=
  id ← gets (fun s => v_uring s !!! (v_used_idx s mod NUM));
  st ← gets (fun s => v_status s !!! id);
  if negb (st =? 0) then panic "virtio_disk_intr status" else
  b ← gets (fun s => v_info_b s !!! id);
  modify (set_vbuf b (buf_disk 0));;
  vd_wakeup (CBuf b);;
  modify (fun s => set_used_idx (u16 (v_used_idx s + 1)) s).

(** ** The device *)

(** [last_avail] is how far it has looked in the available ring, [taken] the
    chains it works on, [served] those whose transfer is done, [platter] what
    is stored. *)
Record dev := Dev { last_avail : Z; taken : list Z; served : list Z; platter : diskT; failed : bool }.

(** The chain with head [h], as the specification reads it: request header,
    data, status; [None] if it is not a block request. *)
Definition parse_chain (h : Z) (s : vd) : option (virtio_blk_req * Z * bool * Z) :=
  let d0 := v_desc s !!! h in
  let d1 := v_desc s !!! d_next d0 in
  let d2 := v_desc s !!! d_next d1 in
  match d_addr d0, d_addr d1, d_addr d2 with
  | AOps o, AData b, AStatus st =>
      if (d_len d0 =? 16) && (d_flags d0 =? VRING_DESC_F_NEXT) &&
         (d_len d1 =? BSIZE) && Z.testbit (d_flags d1) 0 &&
         (d_len d2 =? 1) && (d_flags d2 =? VRING_DESC_F_WRITE) &&
         (0 <=? h) && (h <? NUM) && (0 <=? d_next d0) && (d_next d0 <? NUM) &&
         (0 <=? d_next d1) && (d_next d1 <? NUM)
      then Some (v_ops s !!! o, b, Z.testbit (d_flags d1) 1, st) else None
  | _, _, _ => None
  end.

(** The transfer; [None] if the request is malformed.  A sector has 512 bytes. *)
Definition serve (h : Z) (s : vd) (p : diskT) : option (vd * diskT) :=
  match parse_chain h s with
  | Some (r, b, wr, st) =>
      if negb (r_sector r mod 2 =? 0) then None else
      let k := r_sector r / 2 in
      if (r_type r =? VIRTIO_BLK_T_OUT) && negb wr then
        Some (set_status st 0 s, <[k := vb_data (v_bufs s !!! b)]> p)
      else if (r_type r =? VIRTIO_BLK_T_IN) && wr then
        Some (set_status st 0 (set_vbuf b (buf_data (dget p k)) s), p)
      else None
  | None => None
  end.

(** What the specification lets a device do.  It may serve the chains in any
    order and may fail; a malformed chain allows anything.  It may look at the
    available ring at any time, notified or not; a notification has been dealt
    with when it has taken all that is there. *)
Inductive virtio_spec : vd * dev -> vd * dev -> Prop :=
| vs_take s la tk sv p f : la <> v_aidx s ->
    virtio_spec (s, Dev la tk sv p f) (s, Dev (u16 (la + 1)) (tk ++ [v_aring s !!! (la mod NUM)]) sv p f)
| vs_idle s la tk sv p f : v_kick s = true -> la = v_aidx s ->
    virtio_spec (s, Dev la tk sv p f) (set_kick false s, Dev la tk sv p f)
| vs_serve s la t1 h t2 sv p f s' p' : serve h s p = Some (s', p') ->
    virtio_spec (s, Dev la (t1 ++ h :: t2) sv p f) (s', Dev la (t1 ++ t2) (sv ++ [h]) p' f)
| vs_fail s la t1 h t2 sv p f r b w st : parse_chain h s = Some (r, b, w, st) ->
    virtio_spec (s, Dev la (t1 ++ h :: t2) sv p f) (set_status st 1 s, Dev la (t1 ++ t2) (sv ++ [h]) p true)
| vs_malformed s la t1 h t2 sv p f y : serve h s p = None ->
    virtio_spec (s, Dev la (t1 ++ h :: t2) sv p f) y
| vs_complete s la tk s1 h s2 p f :
    virtio_spec (s, Dev la tk (s1 ++ h :: s2) p f)
      (set_irq (Z.lor (v_irq s) 1) (set_used (<[v_uidx s mod NUM := h]> (v_uring s)) (u16 (v_uidx s + 1)) s),
       Dev la tk (s1 ++ s2) p f).

(** What it has to do: go on as long as it has taken requests, and look at the
    available ring when it has been notified.  Without a notification it need
    not look. *)
Definition responsive (devstep : vd * dev -> vd * dev -> Prop) : Prop :=
  forall s d, v_kick s = true \/ taken d <> [] \/ served d <> [] -> exists y, devstep (s, d) y.

(** ** Calls, interrupts and the device, interleaved *)

(** Where a call of [virtio_disk_rw(b, w)] is; [aw] is false while it sleeps. *)
Inductive tst :=
| TDesc (b : Z) (w : bool) (sec : Z) (aw : bool)                       (* the loop around alloc3_desc *)
| TFill (b : Z) (w : bool) (sec : Z) (idx : Z * Z * Z) (todo : list store)  (* holds the lock *)
| TWait (b : Z) (w : bool) (sec : Z) (idx : Z * Z * Z) (aw : bool).    (* while(b->disk == 1) *)
Inductive holder := LNone | LThr (p : Z) | LIntr.
#[export] Instance holder_eq_dec : EqDecision holder.
Proof. solve_decision. Defined.
Inductive event := ECall (p b : Z) (w : bool) | ERet (p b : Z) (d : block) | ESet (b k : Z) (d : block).

Record cfg := Cfg { c_vd : vd; c_dev : dev; c_thr : gmap Z tst; c_lock : holder; c_panic : option string }.

Definition tbuf (t : tst) : Z :=
  match t with TDesc b _ _ _ | TFill b _ _ _ _ | TWait b _ _ _ _ => b end.
Definition idle_buf (T : gmap Z tst) (b : Z) : Prop := forall p t, T !! p = Some t -> tbuf t <> b.

(** The wakeups of a burst, seen by one sleeper. *)
Definition woken (W : list chan) (t : tst) : tst :=
  match t with
  | TDesc b w sec false => TDesc b w sec (bool_decide (CFree ∈ W))
  | TWait b w sec idx false => TWait b w sec idx (bool_decide (CBuf b ∈ W))
  | _ => t
  end.
Definition calm (s : vd) : vd := set_wakes [] s.

(** The end of a burst: its wakeups reach the sleepers; a panic stops the kernel. *)
Definition after {A} (c : cfg) (r : res vd A) (k : A -> gmap Z tst -> gmap Z tst) (l : holder) : cfg :=
  match r with
  | Ok a s => Cfg (calm s) (c_dev c) (k a (woken (v_wakes s) <$> c_thr c)) l (c_panic c)
  | Panic m => Cfg (c_vd c) (c_dev c) (c_thr c) (c_lock c) (Some m)
  | NoFuel => Cfg (c_vd c) (c_dev c) (c_thr c) (c_lock c) (Some "fuel"%string)
  end.

Section Machine.
Context (devstep : vd * dev -> vd * dev -> Prop).

Definition try_desc (p b : Z) (w : bool) (sec : Z) (c : cfg) : cfg :=
  after c (alloc3_desc (c_vd c))
    (fun r => <[p := match r with
                     | Some idx => TFill b w sec idx (rw_stores b w sec idx)
                     | None => TDesc b w sec false
                     end]>)
    (match alloc3_desc (c_vd c) with Ok (Some _) _ => LThr p | _ => LNone end).

(** [while(b->disk == 1) sleep(b, &disk.vdisk_lock)] and what follows. *)
Definition check_done (p b : Z) (w : bool) (sec : Z) (idx : Z * Z * Z) (c : cfg) : cfg :=
  if vb_disk (v_bufs (c_vd c) !!! b) =? 1 then
    Cfg (c_vd c) (c_dev c) (<[p := TWait b w sec idx false]> (c_thr c)) LNone (c_panic c)
  else after c (rw_finish (idx.1.1) (c_vd c)) (fun _ => delete p) LNone.
Definition done_event (p b : Z) (c : cfg) : option event :=
  if vb_disk (v_bufs (c_vd c) !!! b) =? 1 then None
  else Some (ERet p b (vb_data (v_bufs (c_vd c) !!! b))).

(** Steps of the kernel and of the device. *)
Inductive dstep : cfg -> option event -> cfg -> Prop :=
| ds_try c p b w sec : c_panic c = None -> c_lock c = LNone -> c_thr c !! p = Some (TDesc b w sec true) ->
    dstep c None (try_desc p b w sec c)
| ds_store s d T p x b w sec idx st todo : T !! p = Some (TFill b w sec idx (st :: todo)) ->
    x = None ->
    dstep (Cfg s d T (LThr p) x) None (Cfg (exec_store st s) d (<[p := TFill b w sec idx todo]> T) (LThr p) x)
| ds_filled c p b w sec idx : c_panic c = None -> c_lock c = LThr p -> c_thr c !! p = Some (TFill b w sec idx []) ->
    dstep c (done_event p b c) (check_done p b w sec idx c)
| ds_check c p b w sec idx : c_panic c = None -> c_lock c = LNone -> c_thr c !! p = Some (TWait b w sec idx true) ->
    dstep c (done_event p b c) (check_done p b w sec idx c)
| ds_intr s d T x : x = None -> v_irq s <> 0 ->
    (* INTERRUPT_ACK = INTERRUPT_STATUS & 3 *)
    dstep (Cfg s d T LNone x) None (Cfg (set_irq (Z.land (v_irq s) (Z.lnot (Z.land (v_irq s) 3))) s) d T LIntr x)
| ds_turn c : c_panic c = None -> c_lock c = LIntr -> v_used_idx (c_vd c) <> v_uidx (c_vd c) ->
    dstep c None (after c (intr_turn (c_vd c)) (fun _ T => T) LIntr)
| ds_intr_end s d T x : x = None -> v_used_idx s = v_uidx s ->
    dstep (Cfg s d T LIntr x) None (Cfg s d T LNone x)
| ds_dev s d s' d' T l x : x = None -> devstep (s, d) (s', d') ->
    dstep (Cfg s d T l x) None (Cfg s' d' T l x).

(** Steps of the callers: a call on a buffer that no other call uses, for a block
    whose sector number fits 32 bits, stores to such a buffer, [kill], and an
    interrupt that finds nothing to do. *)
Inductive estep : cfg -> option event -> cfg -> Prop :=
| es_call s d T l p b w : T !! p = None -> idle_buf T b -> 0 <= vb_blockno (v_bufs s !!! b) < 2 ^ 31 ->
    estep (Cfg s d T l None) (Some (ECall p b w))
      (Cfg s d (<[p := TDesc b w (rw_sector (v_bufs s !!! b)) true]> T) l None)
| es_set s d T l b k x : idle_buf T b ->
    estep (Cfg s d T l None) (Some (ESet b k x))
      (Cfg (set_vbuf b (fun y => VBuf k (vb_disk y) x) s) d T l None)
| es_kill s d T l p b w sec : T !! p = Some (TDesc b w sec false) ->
    estep (Cfg s d T l None) None (Cfg s d (<[p := TDesc b w sec true]> T) l None)
| es_kill' s d T l p b w sec idx : T !! p = Some (TWait b w sec idx false) ->
    estep (Cfg s d T l None) None (Cfg s d (<[p := TWait b w sec idx true]> T) l None)
| es_intr s d T : v_irq s = 0 ->
    estep (Cfg s d T LNone None) None (Cfg s d T LIntr None).

(** Executions, with the calls, the returns and the stores that happened. *)
Inductive exec (c : cfg) : list event -> cfg -> Prop :=
| ex_nil : exec c [] c
| ex_dstep tr c1 e c2 : exec c tr c1 -> dstep c1 e c2 -> exec c (tr ++ option_list e) c2
| ex_estep tr c1 e c2 : exec c tr c1 -> estep c1 e c2 -> exec c (tr ++ option_list e) c2.
End Machine.

(** After [virtio_disk_init]. *)
Definition cfg_boot (s : vd) (p : diskT) : cfg := Cfg s (Dev 0 [] [] p false) ∅ LNone None.
