(* ===== verification/VirtioSpec.v ===== *)
(** * What kernel/virtio_disk.c promises to kernel/bio.c

    The buffer cache is modelled on a disk that reads and writes a block in one
    step ([Bio.virtio_disk_rw]).  [astep] is that disk: a call, one transfer,
    a return.  The file holds the invariant of the driver and the lemmas on
    its operations; [VirtioClaims] has the simulation. *)

From S2P Require Import Prelude Riscv Mem BufCache Bio Virtio.

(** ** The atomic disk *)

(** A call in progress: its buffer, its direction, and whether the transfer has
    happened. *)
Record adisk := ADisk { a_bc : bcache; a_thr : gmap Z (Z * bool * bool) }.
Definition a_idle (T : gmap Z (Z * bool * bool)) (b : Z) : Prop :=
  forall p x, T !! p = Some x -> x.1.1 <> b.
Definition put_buf (k : Z) (d : block) (x : buf) : buf :=
  Buf (b_valid x) (b_dev x) k (b_locked x) (b_refcnt x) (b_prev x) (b_next x) d.

Inductive astep : adisk -> option event -> adisk -> Prop :=
| as_call bc T p b w : T !! p = None -> a_idle T b ->
    astep (ADisk bc T) (Some (ECall p b w)) (ADisk bc (<[p := (b, w, false)]> T))
| as_do bc T p b w bc' : T !! p = Some (b, w, false) -> Bio.virtio_disk_rw b w bc = Ok tt bc' ->
    astep (ADisk bc T) None (ADisk bc' (<[p := (b, w, true)]> T))
| as_ret bc T p b w : T !! p = Some (b, w, true) ->
    astep (ADisk bc T) (Some (ERet p b (b_data (bufat bc b)))) (ADisk bc (delete p T))
| as_set bc T b k d : a_idle T b ->
    astep (ADisk bc T) (Some (ESet b k d)) (ADisk (set_buf b (put_buf k d) bc) T).

Inductive aexec (a : adisk) : list event -> adisk -> Prop :=
| ax_nil : aexec a [] a
| ax_step tr a1 e a2 : aexec a tr a1 -> astep a1 e a2 -> aexec a (tr ++ option_list e) a2.

(** ** Maps with a default *)

Lemma ltot_insert `{Inhabited A} (m : gmap Z A) i j x :
  <[i := x]> m !!! j = if decide (i = j) then x else m !!! j.
Proof. by rewrite lookup_total_insert. Qed.

(** ** Segments of a ring *)

(** From position [lo] on, the ring holds [l]. *)
Definition seg (r : gmap Z Z) (lo : Z) (l : list Z) : Prop :=
  forall k h, l !! k = Some h -> r !!! ((lo + Z.of_nat k) mod NUM) = h.

Lemma u16_mod x : u16 x mod NUM = x mod NUM.
Proof. unfold u16, NUM. dlia. Qed.

Lemma seg_other r lo l h : (length l < 8)%nat ->
  seg r lo l -> seg (<[(lo + Z.of_nat (length l)) mod NUM := h]> r) lo l.
Proof.
  intros Hl Hs k x Hk. pose proof (lookup_lt_Some _ _ _ Hk) as Hlt.
  rewrite lookup_total_insert_ne; [by apply Hs|].
  unfold NUM in *. intros He. dlia.
Qed.

Lemma seg_push r lo l h : r !!! ((lo + Z.of_nat (length l)) mod NUM) = h ->
  seg r lo l -> seg r lo (l ++ [h]).
Proof.
  intros Hh Hs k x Hk. apply lookup_app_Some in Hk as [Hk|[Hge Hk]]; [by apply Hs|].
  apply list_lookup_singleton_Some in Hk as [Hk <-]. by replace k with (length l) by lia.
Qed.

Lemma seg_pop r lo h l : seg r lo (h :: l) -> r !!! (lo mod NUM) = h /\ seg r (u16 (lo + 1)) l.
Proof.
  intros Hs. split.
  - specialize (Hs 0%nat h eq_refl). by rewrite Z.add_0_r in Hs.
  - intros k x Hk. specialize (Hs (S k) x Hk). rewrite <- Hs. f_equal.
    unfold u16, NUM. rewrite Nat2Z.inj_succ. dlia.
Qed.

(** Distinct heads are fewer than the ring is long. *)
Lemma heads_short (l : list Z) h : NoDup (h :: l) -> Forall (fun i => 0 <= i < NUM) (h :: l) -> (length l < 8)%nat.
Proof.
  intros Hn Hr. assert (length (h :: l) <= length (seqZ 0 8))%nat; [|by rewrite length_seqZ in *; cbn in *; lia].
  apply submseteq_length, NoDup_submseteq; [done|]. intros x Hx. rewrite Forall_forall in Hr.
  specialize (Hr _ Hx). apply elem_of_seqZ. unfold NUM in *. lia.
Qed.

(** ** Descriptors *)

Definition in_range (i : Z) : Prop := 0 <= i < NUM.

(** All that [alloc_desc] changes. *)
Lemma alloc_from_ok i k s : 0 <= i -> (i + Z.of_nat k = NUM) ->
  (exists j, alloc_from i k s = Ok j (set_free j 0 s) /\ in_range j /\ v_free s !!! j <> 0) \/
  (alloc_from i k s = Ok (-1) s /\ forall j, i <= j < NUM -> v_free s !!! j = 0).
Proof.
  revert i. induction k as [|k IH]; intros i Hi Hk.
  - right. split; [done|]. lia.
  - cbn [alloc_from]. unfold mbind, M_bind, gets. destruct (v_free s !!! i =? 0) eqn:E; cbn.
    + destruct (IH (i + 1)) as [(j & ? & ?)|[? Hall]]; [lia..|left; eauto|right].
      split; [done|]. intros j Hj. destruct (decide (j = i)) as [->|]; [lia|apply Hall; lia].
    + left. exists i. split; [done|]. unfold in_range. split; lia.
Qed.

Lemma alloc_desc_ok s :
  (exists j, alloc_desc s = Ok j (set_free j 0 s) /\ in_range j /\ v_free s !!! j <> 0) \/
  (alloc_desc s = Ok (-1) s /\ forall j, in_range j -> v_free s !!! j = 0).
Proof. apply alloc_from_ok; [lia|done]. Qed.

Definition freed (i : Z) (s : vd) : vd :=
  set_wakes (v_wakes s ++ [CFree]) (set_free i 1 (set_desc i (fun _ => Desc ANull 0 0 0) s)).

Lemma free_desc_ok i s : in_range i -> v_free s !!! i = 0 -> free_desc i s = Ok tt (freed i s).
Proof.
  unfold in_range. intros Hi Hf. unfold free_desc. rewrite Z.geb_leb.
  destruct (NUM <=? i) eqn:E; [lia|]. unfold mbind, M_bind, gets. by rewrite Hf.
Qed.

(** What a failed [alloc3_desc] may leave behind. *)
Record unchanged (s s' : vd) : Prop := {
  un_aring : v_aring s' = v_aring s; un_aidx : v_aidx s' = v_aidx s;
  un_uring : v_uring s' = v_uring s; un_uidx : v_uidx s' = v_uidx s;
  un_used : v_used_idx s' = v_used_idx s; un_info : v_info_b s' = v_info_b s;
  un_status : v_status s' = v_status s; un_ops : v_ops s' = v_ops s;
  un_bufs : v_bufs s' = v_bufs s; un_irq : v_irq s' = v_irq s; un_kick : v_kick s' = v_kick s
}.

(** The result -1 means that some descriptor is in use, and leaves every
    descriptor in use and every free flag as it was. *)
Record alloc3_none (s s' : vd) : Prop := {
  an_un : unchanged s s';
  an_free : forall i, in_range i -> v_free s' !!! i <> 0 <-> v_free s !!! i <> 0;
  an_desc : forall i, v_free s !!! i = 0 -> v_desc s' !!! i = v_desc s !!! i;
  an_busy : exists i, in_range i /\ v_free s !!! i = 0;
  an_wakes : forall b, CBuf b ∈ v_wakes s' -> CBuf b ∈ v_wakes s
}.

Lemma neg_not_range i : in_range i -> (i <? 0) = false.
Proof. unfold in_range. lia. Qed.

Ltac ltot := rewrite ?ltot_insert in *; repeat case_decide; subst; try done.

Lemma alloc3_ok s :
  (exists i0 i1 i2, alloc3_desc s = Ok (Some (i0, i1, i2)) (set_free i2 0 (set_free i1 0 (set_free i0 0 s))) /\
     Forall in_range [i0; i1; i2] /\ NoDup [i0; i1; i2] /\ Forall (fun i => v_free s !!! i <> 0) [i0; i1; i2]) \/
  (exists s', alloc3_desc s = Ok None s' /\ alloc3_none s s').
Proof.
  unfold alloc3_desc, mbind, M_bind.
  destruct (alloc_desc_ok s) as [(i0 & -> & R0 & F0)|[-> Hno]]; cbn [Z.ltb Z.compare].
  2:{ right. exists s. split; [done|]. split; [done|done|done| |done]. exists 0. split; [done|]. by apply Hno. }
  rewrite (neg_not_range i0) by done.
  destruct (alloc_desc_ok (set_free i0 0 s)) as [(i1 & -> & R1 & F1)|[-> Hno]]; cbn [Z.ltb Z.compare].
  2:{ right. rewrite free_desc_ok; [|done|cbn; ltot]. eexists. split; [done|].
      split; [done|..].
      - intros i Hi. cbn. ltot.
      - intros i Hi. cbn. ltot.
      - exists (if decide (i0 = 0) then 1 else 0). split; [by case_decide|]. specialize (Hno (if decide (i0 = 0) then 1 else 0)).
        cbn in Hno. ltot; try (by apply Hno); by rewrite Hno by done.
      - cbn. set_solver. }
  rewrite (neg_not_range i1) by done. cbn in F1.
  destruct (alloc_desc_ok (set_free i1 0 (set_free i0 0 s))) as [(i2 & -> & R2 & F2)|[-> Hno]]; cbn [Z.ltb Z.compare].
  - rewrite (neg_not_range i2) by done. left. exists i0, i1, i2. split; [done|]. cbn in F2.
    rewrite ltot_insert in F1. rewrite !ltot_insert in F2. repeat case_decide; try done.
    split; [by rewrite !Forall_cons|]. split; [|by rewrite !Forall_cons].
    repeat (apply NoDup_cons; split; [set_solver|]). apply NoDup_nil_2.
  - right. rewrite ltot_insert in F1. case_decide; [done|].
    rewrite free_desc_ok; [|done|cbn; ltot]. rewrite free_desc_ok; [|done|cbn; ltot].
    eexists. split; [done|]. split; [done|..].
    + intros i Hi. cbn. ltot.
    + intros i Hi. cbn. ltot.
    + set (j := if decide (i0 = 0 \/ i1 = 0) then if decide (i0 = 1 \/ i1 = 1) then 2 else 1 else 0).
      assert (in_range j /\ i0 <> j /\ i1 <> j) as (Hj & ? & ?).
      { unfold j, in_range, NUM. repeat case_decide; lia. }
      clearbody j. exists j. split; [done|]. specialize (Hno j Hj). cbn in Hno.
      by rewrite !lookup_total_insert_ne in Hno by done.
    + cbn. set_solver.
Qed.

(** ** Requests *)

(** The chain of a request is in place. *)
Definition fmt (s : vd) (b : Z) (w : bool) (sec : Z) (idx : Z * Z * Z) : Prop :=
  let '(i0, i1, i2) := idx in
  v_desc s !!! i0 = Desc (AOps i0) 16 1 i1 /\
  v_desc s !!! i1 = Desc (AData b) BSIZE (if w then 1 else 3) i2 /\
  v_desc s !!! i2 = Desc (AStatus i0) 1 2 0 /\
  v_ops s !!! i0 = Req (if w then 1 else 0) 0 sec /\
  v_info_b s !!! i0 = b.
Definition vdisk (s : vd) (b : Z) : Z := vb_disk (v_bufs s !!! b).
Definition fmt1 (s : vd) b w sec idx : Prop := fmt s b w sec idx /\ vdisk s b = 1.

Definition exec_stores (l : list store) (s : vd) : vd := foldl (fun s st => exec_store st s) s l.

Lemma exec_stores_cons st l s : exec_stores (st :: l) s = exec_stores l (exec_store st s).
Proof. done. Qed.

Definition islots (idx : Z * Z * Z) : list Z := let '(i0, i1, i2) := idx in [i0; i1; i2].

(** One store, field by field. *)
Section Fields.
Context (st : store) (s : vd) (j : Z).
Let d := v_desc s !!! j.
Let d' := v_desc (exec_store st s) !!! j.
Let r := v_ops s !!! j.
Let r' := v_ops (exec_store st s) !!! j.

Lemma exec_addr : d_addr d' = match st with SAddr i a => if decide (i = j) then a else d_addr d | _ => d_addr d end.
Proof. unfold d', d. destruct st; cbn; ltot. Qed.
Lemma exec_len : d_len d' = match st with SLen i v => if decide (i = j) then v else d_len d | _ => d_len d end.
Proof. unfold d', d. destruct st; cbn; ltot. Qed.
Lemma exec_flags : d_flags d' =
  match st with
  | SFlags i v => if decide (i = j) then v else d_flags d
  | SFlagsOr i v => if decide (i = j) then Z.lor (d_flags d) v else d_flags d
  | _ => d_flags d
  end.
Proof. unfold d', d. destruct st; cbn; ltot. Qed.
Lemma exec_next : d_next d' = match st with SNext i v => if decide (i = j) then v else d_next d | _ => d_next d end.
Proof. unfold d', d. destruct st; cbn; ltot. Qed.
Lemma exec_type : r_type r' = match st with SType i v => if decide (i = j) then v else r_type r | _ => r_type r end.
Proof. unfold r', r. destruct st; cbn; ltot. Qed.
Lemma exec_reserved : r_reserved r' = match st with SReserved i v => if decide (i = j) then v else r_reserved r | _ => r_reserved r end.
Proof. unfold r', r. destruct st; cbn; ltot. Qed.
Lemma exec_sector : r_sector r' = match st with SSector i v => if decide (i = j) then v else r_sector r | _ => r_sector r end.
Proof. unfold r', r. destruct st; cbn; ltot. Qed.
Lemma exec_info : v_info_b (exec_store st s) !!! j =
  match st with SInfo i b => if decide (i = j) then b else v_info_b s !!! j | _ => v_info_b s !!! j end.
Proof. destruct st; cbn; ltot. Qed.
Lemma exec_disk : vdisk (exec_store st s) j =
  match st with SDisk b v => if decide (b = j) then v else vdisk s j | _ => vdisk s j end.
Proof. unfold vdisk. destruct st; cbn; ltot. Qed.
End Fields.

Lemma desc_eta d : d = Desc (d_addr d) (d_len d) (d_flags d) (d_next d).
Proof. by destruct d. Qed.
Lemma req_eta r : r = Req (r_type r) (r_reserved r) (r_sector r).
Proof. by destruct r. Qed.

(** The stores of [virtio_disk_rw] put the chain in place. *)
Lemma format_ok s b w sec idx : NoDup (islots idx) -> fmt1 (exec_stores (format_stores b w sec idx) s) b w sec idx.
Proof.
  destruct idx as [[i0 i1] i2]. cbn [islots]. intros Hn.
  assert (i0 <> i1 /\ i0 <> i2 /\ i1 <> i2) as (H1 & H2 & H3).
  { apply NoDup_cons in Hn as [? [? _]%NoDup_cons]. set_solver. }
  unfold exec_stores, format_stores. cbn [foldl]. unfold fmt1, fmt.
  split_and!.
  1-3: rewrite (desc_eta (_ !!! _)); f_equal.
  13: rewrite (req_eta (_ !!! _)); f_equal.
  all: repeat first
    [ rewrite exec_addr | rewrite exec_len | rewrite exec_flags | rewrite exec_next | rewrite exec_type
    | rewrite exec_reserved | rewrite exec_sector | rewrite exec_info | rewrite exec_disk
    | rewrite decide_True by done | rewrite decide_False by done]; by try destruct w.
Qed.

(** [s] and [s'] agree on what a request on [b] with the descriptors [l] uses. *)
Record agree (b : Z) (l : list Z) (s s' : vd) : Prop := {
  ag_desc : forall i, i ∈ l -> v_desc s' !!! i = v_desc s !!! i;
  ag_ops : forall i, i ∈ l -> v_ops s' !!! i = v_ops s !!! i;
  ag_info : forall i, i ∈ l -> v_info_b s' !!! i = v_info_b s !!! i;
  ag_blockno : vb_blockno (v_bufs s' !!! b) = vb_blockno (v_bufs s !!! b);
  ag_disk : vdisk s' b = vdisk s b
}.

Lemma agree_refl b l s : agree b l s s.
Proof. done. Qed.

Lemma agree_exec b l s s' st : agree b l s s' -> agree b l (exec_store st s) (exec_store st s').
Proof.
  intros [Hd Ho Hi Hb Hk]. unfold vdisk in *.
  split; unfold vdisk; destruct st; cbn; intros; rewrite ?ltot_insert; repeat case_decide; subst; cbn; eauto;
    try (by f_equal; eauto); by rewrite ?Hd, ?Ho by done.
Qed.

Lemma agree_exec_stores b l L s s' : agree b l s s' -> agree b l (exec_stores L s) (exec_stores L s').
Proof.
  revert s s'. induction L as [|st L IH]; intros s s' H; [done|]. apply IH. by apply agree_exec.
Qed.

Lemma fmt_agree s s' b w sec idx : agree b (islots idx) s s' -> fmt s b w sec idx -> fmt s' b w sec idx.
Proof.
  destruct idx as [[i0 i1] i2]. intros [Hd Ho Hi Hb Hk] (H1 & H2 & H3 & H4 & H5). cbn in *.
  rewrite !Hd, Ho, Hi by set_solver. done.
Qed.

Lemma fmt1_agree s s' b w sec idx : agree b (islots idx) s s' -> fmt1 s b w sec idx -> fmt1 s' b w sec idx.
Proof. intros H [Hf Hd]. split; [by eapply fmt_agree|]. by rewrite (ag_disk _ _ _ _ H). Qed.

(** The sector of a request is that of its block. *)
Definition sec_ok (s : vd) (b sec : Z) : Prop :=
  sec = 2 * vb_blockno (v_bufs s !!! b) /\ 0 <= vb_blockno (v_bufs s !!! b) < 2 ^ 31.

Lemma rw_sector_ok s b : 0 <= vb_blockno (v_bufs s !!! b) < 2 ^ 31 -> sec_ok s b (rw_sector (v_bufs s !!! b)).
Proof.
  intros H. split; [|done]. unfold rw_sector, u32, BSIZE. change (1024 / 512) with 2.
  rewrite Z.mod_small; lia.
Qed.

(** A formatted request is one that the device understands, and the transfer
    is that of the block. *)
Lemma fmt_parse s b w sec i0 i1 i2 : fmt s b w sec (i0, i1, i2) -> Forall in_range [i0; i1; i2] ->
  parse_chain i0 s = Some (Req (if w then 1 else 0) 0 sec, b, negb w, i0).
Proof.
  intros (H1 & H2 & H3 & H4 & H5) Hr. unfold parse_chain. rewrite H1. cbn [d_next d_addr d_len d_flags].
  rewrite H2. cbn [d_next d_addr d_len d_flags]. rewrite H3. cbn [d_next d_addr d_len d_flags].
  rewrite H4. rewrite !Forall_cons in Hr. destruct Hr as (R0 & R1 & R2 & _). unfold in_range, NUM in *.
  rewrite !(proj2 (Z.leb_le _ _)), !(proj2 (Z.ltb_lt _ _)) by lia. by destruct w.
Qed.

Lemma fmt_serve s b w sec i0 i1 i2 p : fmt s b w sec (i0, i1, i2) -> Forall in_range [i0; i1; i2] -> sec_ok s b sec ->
  serve i0 s p = Some
    (if w then (set_status i0 0 s, <[vb_blockno (v_bufs s !!! b) := vb_data (v_bufs s !!! b)]> p)
     else (set_status i0 0 (set_vbuf b (buf_data (dget p (vb_blockno (v_bufs s !!! b)))) s), p)).
Proof.
  intros Hf Hr [-> Hb]. unfold serve. rewrite (fmt_parse _ _ _ _ _ _ _ Hf Hr). cbn [r_sector r_type].
  rewrite (Z.mul_comm 2), Z.mod_mul, Z.div_mul by lia. by destruct w.
Qed.

Lemma free_chain_next p i s d : (1 < p)%positive -> in_range i -> v_free s !!! i = 0 -> v_desc s !!! i = d ->
  loop free_chain_step p i s =
  if negb (Z.land (d_flags d) VRING_DESC_F_NEXT =? 0) then loop free_chain_step (Pos.pred p) (d_next d) (freed i s)
  else Ok tt (freed i s).
Proof.
  intros Hp Hi Hf <-. rewrite loop_first by done. unfold mbind, M_bind.
  assert (free_chain_step i s =
    Ok (if negb (Z.land (d_flags (v_desc s !!! i)) VRING_DESC_F_NEXT =? 0) then inl (d_next (v_desc s !!! i)) else inr tt)
       (freed i s)) as ->; [|by destruct (negb _)].
  unfold free_chain_step, mbind, M_bind, gets. rewrite free_desc_ok by done. by destruct (negb _).
Qed.

(** [free_chain] on a formatted request frees its three descriptors. *)
Lemma free_chain_ok s b w i0 i1 i2 :
  v_desc s !!! i0 = Desc (AOps i0) 16 1 i1 -> v_desc s !!! i1 = Desc (AData b) BSIZE (if (w : bool) then 1 else 3) i2 ->
  v_desc s !!! i2 = Desc (AStatus i0) 1 2 0 -> Forall in_range [i0; i1; i2] ->
  NoDup [i0; i1; i2] -> Forall (fun i => v_free s !!! i = 0) [i0; i1; i2] ->
  free_chain i0 s = Ok tt (freed i2 (freed i1 (freed i0 s))).
Proof.
  intros H1 H2 H3 Hr Hn Hf. rewrite !Forall_cons in Hr, Hf.
  destruct Hr as (R0 & R1 & R2 & _), Hf as (F0 & F1 & F2 & _).
  assert (i0 <> i1 /\ i0 <> i2 /\ i1 <> i2) as (N1 & N2 & N3).
  { apply NoDup_cons in Hn as [? [? _]%NoDup_cons]. set_solver. }
  unfold free_chain, CHAINFUEL.
  erewrite free_chain_next by done. cbn [d_flags d_next Z.land Z.eqb negb Pos.land VRING_DESC_F_NEXT].
  erewrite free_chain_next; [|done|done|cbn; ltot|cbn; rewrite lookup_total_insert_ne by done; exact H2].
  erewrite free_chain_next; [|done|done|cbn; ltot|cbn; rewrite !lookup_total_insert_ne by done; exact H3].
  by destruct w.
Qed.
