(* ===== verification/VirtioInv.v ===== *)
(** * The invariant of the disk driver

    Every descriptor in use belongs to one call; every chain that the device
    or the interrupt handler still has to deal with is on exactly one of four
    lists (published, taken, served, used); a call whose chain is on none of
    them has not published it yet, or its transfer is done. *)

From S2P Require Import Prelude Riscv Mem BufCache Bio Virtio VirtioSpec.

Definition tw (t : tst) : bool :=
  match t with TDesc _ w _ _ | TFill _ w _ _ _ | TWait _ w _ _ _ => w end.
Definition tsec (t : tst) : Z :=
  match t with TDesc _ _ sec _ | TFill _ _ sec _ _ | TWait _ _ sec _ _ => sec end.
Definition tidx (t : tst) : option (Z * Z * Z) :=
  match t with TDesc _ _ _ _ => None | TFill _ _ _ idx _ | TWait _ _ _ idx _ => Some idx end.
Definition slots (t : tst) : list Z := match tidx t with Some idx => islots idx | None => [] end.
Definition head (idx : Z * Z * Z) : Z := idx.1.1.
Definition posted (t : tst) : Prop :=
  match t with
  | TDesc _ _ _ _ => False
  | TFill _ _ _ _ todo => todo = [] \/ todo = [SNotify]
  | TWait _ _ _ _ _ => True
  end.

(** A store of a call on [b] with descriptors [idx] to what that call owns. *)
Definition own (b : Z) (idx : Z * Z * Z) (st : store) : Prop :=
  match st with
  | SType i _ | SReserved i _ | SSector i _ | SAddr i _ | SLen i _ | SFlags i _ | SFlagsOr i _ | SNext i _
  | SStatus i _ | SInfo i _ => i ∈ islots idx
  | SDisk b' _ => b' = b
  | SRing _ | SAvail | SNotify => False
  end.

Definition posted_ok (s : vd) (H : list Z) b w sec idx : Prop :=
  fmt s b w sec idx /\ ((vdisk s b = 1 /\ head idx ∈ H) \/ (vdisk s b = 0 /\ head idx ∉ H)).

(** What holds of one call; [H] are the chains in flight. *)
Definition tinv (s : vd) (H : list Z) (t : tst) : Prop :=
  sec_ok s (tbuf t) (tsec t) /\
  match t with
  | TDesc _ _ _ _ => True
  | TFill b w sec idx todo =>
      (exists rest, todo = rest ++ publish_stores idx /\ Forall (own b idx) rest /\
         fmt1 (exec_stores rest s) b w sec idx /\ head idx ∉ H) \/
      (todo = [SAvail; SNotify] /\ fmt1 s b w sec idx /\ v_aring s !!! (v_aidx s mod NUM) = head idx /\ head idx ∉ H) \/
      ((todo = [] \/ todo = [SNotify]) /\ posted_ok s H b w sec idx)
  | TWait b w sec idx aw => posted_ok s H b w sec idx /\ (aw = false -> vdisk s b = 1)
  end.

Definition heads (d : dev) (pub usd : list Z) : list Z := pub ++ taken d ++ served d ++ usd.

(** The table of calls. *)
Record table (T : gmap Z tst) (free : gmap Z Z) : Prop := {
  tb_range : forall p t, T !! p = Some t -> Forall in_range (slots t) /\ NoDup (slots t);
  tb_disj : forall p q t u i, T !! p = Some t -> T !! q = Some u -> i ∈ slots t -> i ∈ slots u -> p = q;
  tb_bufs : forall p q t u, T !! p = Some t -> T !! q = Some u -> tbuf t = tbuf u -> p = q;
  tb_free : forall i, in_range i -> free !!! i <> 0 <-> forall p t, T !! p = Some t -> i ∉ slots t
}.

(** The rings. *)
Record rings (s : vd) (d : dev) (pub usd : list Z) : Prop := {
  rg_la : 0 <= last_avail d < 2 ^ 16;
  rg_avail : v_aidx s = u16 (last_avail d + Z.of_nat (length pub));
  rg_pub : seg (v_aring s) (last_avail d) pub;
  rg_ui : 0 <= v_used_idx s < 2 ^ 16;
  rg_used : v_uidx s = u16 (v_used_idx s + Z.of_nat (length usd));
  rg_usd : seg (v_uring s) (v_used_idx s) usd
}.

Record inv (s : vd) (d : dev) (T : gmap Z tst) (l : holder) (pub usd : list Z) : Prop := {
  iv_table : table T (v_free s);
  iv_rings : rings s d pub usd;
  iv_lock : forall p, l = LThr p -> exists b w sec idx todo, T !! p = Some (TFill b w sec idx todo);
  iv_fill : forall p b w sec idx todo, T !! p = Some (TFill b w sec idx todo) -> l = LThr p;
  iv_nodup : NoDup (heads d pub usd);
  iv_owned : forall h, h ∈ heads d pub usd ->
    exists p t idx, T !! p = Some t /\ posted t /\ tidx t = Some idx /\ head idx = h;
  iv_thr : forall p t, T !! p = Some t -> tinv s (heads d pub usd) t;
  iv_status : forall h, h ∈ served d ++ usd -> v_status s !!! h = 0 \/ (v_status s !!! h = 1 /\ failed d = true);
  iv_irq : (v_irq s = 0 /\ (l <> LIntr -> usd = [])) \/ v_irq s = 1;
  iv_wakes : v_wakes s = [];
  iv_sleep : forall p b w sec, T !! p = Some (TDesc b w sec false) -> exists q t, T !! q = Some t /\ slots t <> []
}.

(** ** Refinement: the atomic disk that a state of the driver stands for *)

Definition finished (s : vd) (d : dev) (usd : list Z) (t : tst) : Prop :=
  posted t /\ (vdisk s (tbuf t) = 0 \/
    exists idx, tidx t = Some idx /\ head idx ∈ served d ++ usd /\ v_status s !!! head idx = 0).

Record sim (s : vd) (d : dev) (T : gmap Z tst) (usd : list Z) (a : adisk) : Prop := {
  sm_disk : disk (a_bc a) = platter d;
  sm_blockno : forall b, b_blockno (bufat (a_bc a) b) = vb_blockno (v_bufs s !!! b);
  sm_data : forall b, b_data (bufat (a_bc a) b) = vb_data (v_bufs s !!! b);
  sm_thr : forall p, match T !! p, a_thr a !! p with
    | None, None => True
    | Some t, Some (b, w, dn) => b = tbuf t /\ w = tw t /\ (dn = true <-> finished s d usd t)
    | _, _ => False
    end
}.

(** ** Changes of a call that the others do not see *)

Definition same_view (t t' : tst) : Prop :=
  tbuf t' = tbuf t /\ tw t' = tw t /\ tsec t' = tsec t /\ tidx t' = tidx t /\ (posted t' <-> posted t).
Definition views (T T' : gmap Z tst) : Prop :=
  forall p, match T !! p, T' !! p with
    | None, None => True | Some t, Some t' => same_view t t' | _, _ => False end.

Lemma same_view_refl t : same_view t t.
Proof. done. Qed.
Lemma views_refl T : views T T.
Proof. intros p. by destruct (T !! p). Qed.

Lemma views_insert T p t t' : T !! p = Some t -> same_view t t' -> views T (<[p := t']> T).
Proof.
  intros Hp Hv q. destruct (decide (p = q)) as [<-|Hne]; [by rewrite lookup_insert_eq, Hp|].
  rewrite lookup_insert_ne by done. by destruct (T !! q).
Qed.

Lemma woken_view W t : same_view t (woken W t).
Proof. destruct t as [? ? ? []| |? ? ? ? []]; done. Qed.
Lemma views_woken W T : views T (woken W <$> T).
Proof. intros p. rewrite lookup_fmap. destruct (T !! p); [apply woken_view|done]. Qed.

Lemma views_trans T1 T2 T3 : views T1 T2 -> views T2 T3 -> views T1 T3.
Proof.
  intros H1 H2 p. specialize (H1 p); specialize (H2 p).
  destruct (T1 !! p), (T2 !! p), (T3 !! p); try done.
  destruct H1 as (? & ? & ? & ? & P1), H2 as (? & ? & ? & ? & P2). unfold same_view.
  split_and!; [congruence..|]. by rewrite P2.
Qed.

Section Views.
Context (T T' : gmap Z tst) (HV : views T T').

Lemma views_back p t' : T' !! p = Some t' -> exists t, T !! p = Some t /\ same_view t t'.
Proof. intros Hp. specialize (HV p). rewrite Hp in HV. destruct (T !! p); [eauto|done]. Qed.
Lemma views_fwd p t : T !! p = Some t -> exists t', T' !! p = Some t' /\ same_view t t'.
Proof. intros Hp. specialize (HV p). rewrite Hp in HV. destruct (T' !! p); [eauto|done]. Qed.
Lemma view_slots t t' : same_view t t' -> slots t' = slots t.
Proof. intros (_ & _ & _ & H & _). unfold slots. by rewrite H. Qed.

Lemma table_views free : table T free -> table T' free.
Proof.
  intros [Hr Hd Hb Hf]. split.
  - intros p t' (t & Hp & Hv)%views_back. rewrite (view_slots _ _ Hv). eauto.
  - intros p q t' u' i (t & Hp & Hv)%views_back (u & Hq & Hu)%views_back.
    rewrite (view_slots _ _ Hv), (view_slots _ _ Hu). eauto.
  - intros p q t' u' (t & Hp & Hv)%views_back (u & Hq & Hu)%views_back.
    destruct Hv as (-> & _), Hu as (-> & _). eauto.
  - intros i Hi. rewrite (Hf i Hi). split.
    + intros H p t' (t & Hp & Hv)%views_back. rewrite (view_slots _ _ Hv). eauto.
    + intros H p t (t' & Hp & Hv)%views_fwd. rewrite <- (view_slots _ _ Hv). eauto.
Qed.

Lemma sim_views s d usd a : sim s d T usd a -> sim s d T' usd a.
Proof.
  intros [? ? ? Ht]. split; [done..|]. intros p. specialize (Ht p). specialize (HV p).
  destruct (T !! p) as [t|], (T' !! p) as [t'|], (a_thr a !! p) as [[[b w] dn]|]; try done.
  destruct Ht as (-> & -> & Hdn), HV as (Hb & Hw & _ & Hi & Hp). split_and!; [done..|].
  rewrite Hdn. unfold finished. by rewrite Hb, Hi, Hp.
Qed.

Lemma owned_views (H : list Z) :
  (forall h, h ∈ H -> exists p t idx, T !! p = Some t /\ posted t /\ tidx t = Some idx /\ head idx = h) ->
  forall h, h ∈ H -> exists p t idx, T' !! p = Some t /\ posted t /\ tidx t = Some idx /\ head idx = h.
Proof.
  intros Ho h Hh. destruct (Ho h Hh) as (p & t & idx & Hp & Hps & Hi & Hd).
  destruct (views_fwd _ _ Hp) as (t' & Hp' & _ & _ & _ & Hi' & Hps'). exists p, t', idx.
  rewrite Hi', Hps'. done.
Qed.

Lemma sleep_views :
  (exists q t, T !! q = Some t /\ slots t <> []) -> exists q t, T' !! q = Some t /\ slots t <> [].
Proof.
  intros (q & t & Hq & Hs). destruct (views_fwd _ _ Hq) as (t' & Hq' & Hv). exists q, t'.
  by rewrite (view_slots _ _ Hv).
Qed.
End Views.

(** ** One call under changes elsewhere *)

Lemma agree_own b idx st b' l s : own b idx st -> b' <> b -> (forall i, i ∈ l -> i ∉ islots idx) ->
  agree b' l s (exec_store st s).
Proof.
  intros Ho Hb Hl.
  split; unfold vdisk; destruct st; cbn in *; subst; intros; try done; rewrite ltot_insert, decide_False; naive_solver.
Qed.

Lemma tinv_ext s s' H H' t :
  agree (tbuf t) (slots t) s s' ->
  (forall b w sec idx todo, t = TFill b w sec idx todo -> v_aring s' !!! (v_aidx s' mod NUM) = v_aring s !!! (v_aidx s mod NUM)) ->
  (forall idx, tidx t = Some idx -> head idx ∈ H' <-> head idx ∈ H) ->
  tinv s H t -> tinv s' H' t.
Proof.
  intros Ha Hr Hh [[Hs1 Hs2] Ht]. split.
  { unfold sec_ok. by rewrite (ag_blockno _ _ _ _ Ha). }
  destruct t as [|b w sec idx todo|b w sec idx aw]; cbn in Ha; [done|..].
  - specialize (Hh idx eq_refl). specialize (Hr _ _ _ _ _ eq_refl). destruct Ht as [(rest & ? & ? & ? & ?)|[(? & ? & ? & ?)|[? [? Hd]]]].
    + left. exists rest. split_and!; [done..| |by rewrite Hh].
      eapply fmt1_agree; [|done]. by apply agree_exec_stores.
    + right. left. split_and!; [done|by eapply fmt1_agree|by rewrite Hr|by rewrite Hh].
    + right. right. split; [done|]. split; [by eapply fmt_agree|]. by rewrite (ag_disk _ _ _ _ Ha), Hh.
  - specialize (Hh idx eq_refl). destruct Ht as [[? ?] ?]. split; [split|].
    + by eapply fmt_agree.
    + by rewrite (ag_disk _ _ _ _ Ha), Hh.
    + by rewrite (ag_disk _ _ _ _ Ha).
Qed.

Lemma tinv_woken s H W t : tinv s H t -> tinv s H (woken W t).
Proof.
  intros [Hs Ht]. destruct t as [? ? ? []| |? ? ? ? []]; cbn in *; try done.
  split; [done|]. destruct Ht as [? Hd]. split; [done|]. by intros _; apply Hd.
Qed.

(** A posted call in flight. *)
Lemma tinv_posted s H t : tinv s H t -> posted t ->
  exists idx, tidx t = Some idx /\ posted_ok s H (tbuf t) (tw t) (tsec t) idx.
Proof.
  intros [_ Ht] Hp. destruct t as [|b w sec idx todo|b w sec idx aw]; [done|..]; exists idx; cbn in *.
  - split; [done|]. destruct Ht as [(rest & -> & _)|[(-> & _)|[_ ?]]]; [|by destruct Hp|done].
    exfalso. destruct idx as [[i0 i1] i2], rest as [|? [|? ?]]; cbn in Hp; destruct Hp; naive_solver.
  - by destruct Ht.
Qed.

(** A chain in flight belongs to a posted call whose transfer is not known to be done. *)
Lemma owner s d T l pub usd h : inv s d T l pub usd -> h ∈ heads d pub usd ->
  exists p t i1 i2, T !! p = Some t /\ posted t /\ tidx t = Some (h, i1, i2) /\
    fmt s (tbuf t) (tw t) (tsec t) (h, i1, i2) /\ vdisk s (tbuf t) = 1 /\ sec_ok s (tbuf t) (tsec t) /\
    Forall in_range [h; i1; i2] /\ NoDup [h; i1; i2].
Proof.
  intros Hi Hh. destruct (iv_owned _ _ _ _ _ _ Hi h Hh) as (p & t & [[i0 i1] i2] & Hp & Hps & Hix & Hhd).
  cbn in Hhd. subst i0. pose proof (iv_thr _ _ _ _ _ _ Hi p t Hp) as Ht.
  destruct (tinv_posted _ _ _ Ht Hps) as (idx & Hix' & Hf & Hd). rewrite Hix in Hix'. injection Hix' as <-.
  destruct (tb_range _ _ (iv_table _ _ _ _ _ _ Hi) p t Hp) as [Hr Hn]. unfold slots in Hr, Hn. rewrite Hix in Hr, Hn.
  exists p, t, i1, i2. split_and!; try done; [|apply Ht]. destruct Hd as [[? _]|[_ []]]; done.
Qed.

(** Two calls with the same head are the same. *)
Lemma head_slot t idx : tidx t = Some idx -> head idx ∈ slots t.
Proof. unfold slots. intros ->. destruct idx as [[? ?] ?]. set_solver. Qed.

Lemma head_inj s d T l pub usd p q t u idx idx' : inv s d T l pub usd ->
  T !! p = Some t -> T !! q = Some u -> tidx t = Some idx -> tidx u = Some idx' -> head idx = head idx' -> p = q.
Proof.
  intros Hi Hp Hq Ht Hu He. apply (tb_disj _ _ (iv_table _ _ _ _ _ _ Hi) p q t u (head idx)); [done..|by apply head_slot|].
  rewrite He. by apply head_slot.
Qed.

(** The heads are descriptors, so a ring never overflows. *)
Lemma heads_range s d T l pub usd : inv s d T l pub usd -> Forall in_range (heads d pub usd).
Proof.
  intros Hi. apply Forall_forall. intros h Hh. destruct (owner _ _ _ _ _ _ h Hi Hh) as (? & ? & ? & ? & H).
  destruct H as (_ & _ & _ & _ & _ & _ & H & _). by apply Forall_cons in H as [? _].
Qed.

(** ** Steps of the device *)

Record drv_same (s s' : vd) : Prop := {
  dr_desc : v_desc s' = v_desc s; dr_ops : v_ops s' = v_ops s; dr_info : v_info_b s' = v_info_b s;
  dr_free : v_free s' = v_free s; dr_wakes : v_wakes s' = v_wakes s;
  dr_aring : v_aring s' = v_aring s; dr_aidx : v_aidx s' = v_aidx s;
  dr_blockno : forall b, vb_blockno (v_bufs s' !!! b) = vb_blockno (v_bufs s !!! b);
  dr_disk : forall b, vdisk s' b = vdisk s b
}.

Lemma drv_agree s s' b l : drv_same s s' -> agree b l s s'.
Proof. intros []. split; intros; congruence. Qed.

Lemma inv_dev s s' d d' T l pub usd pub' usd' :
  inv s d T l pub usd -> heads d' pub' usd' ≡ₚ heads d pub usd -> drv_same s s' -> rings s' d' pub' usd' ->
  (forall h, h ∈ served d' ++ usd' -> v_status s' !!! h = 0 \/ (v_status s' !!! h = 1 /\ failed d' = true)) ->
  (v_irq s' = 0 /\ (l <> LIntr -> usd' = [])) \/ v_irq s' = 1 ->
  inv s' d' T l pub' usd'.
Proof.
  intros Hi Hh Hd Hr Hst Hq. destruct Hi as [I1 I2 I3 I4 I5 I6 I7 I8 I9 I10 I11]. split; try done.
  - by rewrite (dr_free _ _ Hd).
  - by rewrite Hh.
  - intros h. rewrite Hh. apply I6.
  - intros p t Hp. eapply tinv_ext; [by apply drv_agree| | |exact (I7 p t Hp)].
    + intros. by rewrite (dr_aring _ _ Hd), (dr_aidx _ _ Hd).
    + intros idx _. by rewrite Hh.
  - by rewrite (dr_wakes _ _ Hd).
Qed.

Lemma sim_ext s s' d d' T usd usd' a :
  sim s d T usd a -> platter d' = platter d ->
  (forall b, vb_blockno (v_bufs s' !!! b) = vb_blockno (v_bufs s !!! b)) ->
  (forall b, vb_data (v_bufs s' !!! b) = vb_data (v_bufs s !!! b)) ->
  (forall p t, T !! p = Some t -> finished s' d' usd' t <-> finished s d usd t) ->
  sim s' d' T usd' a.
Proof.
  intros [Hd Hb Hx Ht] Hp Hb' Hx' Hf. split; [congruence|by intros; rewrite Hb'|by intros; rewrite Hx'|].
  intros p. specialize (Ht p). specialize (Hf p). destruct (T !! p) as [t|], (a_thr a !! p) as [[[? ?] ?]|]; try done.
  by rewrite Hf by done.
Qed.

Lemma finished_ext s s' d d' usd usd' t :
  vdisk s' (tbuf t) = vdisk s (tbuf t) ->
  (forall idx, tidx t = Some idx -> head idx ∈ served d' ++ usd' <-> head idx ∈ served d ++ usd) ->
  (forall idx, tidx t = Some idx -> v_status s' !!! head idx = v_status s !!! head idx) ->
  finished s' d' usd' t <-> finished s d usd t.
Proof.
  intros Hd Hh Hs. unfold finished. rewrite Hd.
  split; intros [? [?|(idx & Hi & Hin & Hst)]]; split; eauto; right; exists idx.
  - rewrite <- Hh, <- Hs by done. done.
  - rewrite Hh, Hs by done. done.
Qed.

Lemma dev_take s la tk sv p f T l pub usd a :
  inv s (Dev la tk sv p f) T l pub usd -> sim s (Dev la tk sv p f) T usd a -> la <> v_aidx s ->
  exists pub', let d' := Dev (u16 (la + 1)) (tk ++ [v_aring s !!! (la mod NUM)]) sv p f in
    inv s d' T l pub' usd /\ sim s d' T usd a.
Proof.
  intros Hi Hs Hne. pose proof (iv_rings _ _ _ _ _ _ Hi) as [R1 R2 R3 R4 R5 R6]; cbn in *.
  destruct pub as [|h pub].
  { exfalso. apply Hne. rewrite R2. unfold u16. cbn. rewrite Z.add_0_r, Z.mod_small; lia. }
  destruct (seg_pop _ _ _ _ R3) as [-> Hseg]. exists pub. split; [|by eapply sim_ext].
  eapply inv_dev; [done|..]; cbn.
  - unfold heads. cbn. solve_Permutation.
  - done.
  - split; cbn; try done; [unfold u16; dlia|]. rewrite R2. unfold u16. cbn [length].
    rewrite Nat2Z.inj_succ. dlia.
  - apply (iv_status _ _ _ _ _ _ Hi).
  - apply (iv_irq _ _ _ _ _ _ Hi).
Qed.

Lemma set_kick_ok s d T l pub usd a v : inv s d T l pub usd -> sim s d T usd a ->
  inv (set_kick v s) d T l pub usd /\ sim (set_kick v s) d T usd a.
Proof.
  intros Hi Hs. pose proof (iv_rings _ _ _ _ _ _ Hi) as []. split; [|by eapply sim_ext].
  eapply inv_dev; [done|done|done|by split|apply (iv_status _ _ _ _ _ _ Hi)|apply (iv_irq _ _ _ _ _ _ Hi)].
Qed.

Lemma not_finished s d T l pub usd p t idx :
  inv s d T l pub usd -> T !! p = Some t -> tidx t = Some idx -> head idx ∈ pub ++ taken d -> posted t ->
  ~ finished s d usd t.
Proof.
  intros Hi Hp Hix Hin Hps [_ [Hd|(idx' & Hix' & Hin' & _)]].
  - destruct (tinv_posted _ _ _ (iv_thr _ _ _ _ _ _ Hi p t Hp) Hps) as (idx' & Hix' & _ & Hd').
    rewrite Hix in Hix'. injection Hix' as <-. destruct Hd' as [[? _]|[_ []]]; [congruence|].
    unfold heads. set_solver.
  - rewrite Hix in Hix'. injection Hix' as <-. pose proof (iv_nodup _ _ _ _ _ _ Hi) as Hn.
    unfold heads in Hn. rewrite app_assoc in Hn. apply NoDup_app in Hn as (_ & Hn & _). by apply (Hn (head idx)).
Qed.

(** A chain that the device has finished, with its status byte written. *)
Lemma inv_served s s' la t1 h t2 sv p p' f f' T l pub usd v :
  inv s (Dev la (t1 ++ h :: t2) sv p f) T l pub usd -> drv_same s s' ->
  v_uring s' = v_uring s -> v_uidx s' = v_uidx s -> v_used_idx s' = v_used_idx s -> v_irq s' = v_irq s ->
  v_status s' = <[h := v]> (v_status s) -> (v = 0 /\ f' = f) \/ (v = 1 /\ f' = true) ->
  inv s' (Dev la (t1 ++ t2) (sv ++ [h]) p' f') T l pub usd.
Proof.
  intros Hi Hd E1 E2 E3 E4 E5 Hv. pose proof (iv_rings _ _ _ _ _ _ Hi) as [R1 R2 R3 R4 R5 R6].
  eapply inv_dev; [done|..]; cbn.
  - unfold heads. cbn. solve_Permutation.
  - done.
  - split; cbn in *; rewrite ?(dr_aring _ _ Hd), ?(dr_aidx _ _ Hd), ?E1, ?E2, ?E3; done.
  - intros h' Hh'. rewrite E5, ltot_insert. case_decide as Hne; [naive_solver|].
    destruct (iv_status _ _ _ _ _ _ Hi h') as [?|[? ?]]; cbn in *; [set_solver|by left|right]. naive_solver.
  - rewrite E4. apply (iv_irq _ _ _ _ _ _ Hi).
Qed.

(** ... and the other calls do not see it. *)
Lemma finished_served s s' la t1 h t2 sv p p' f f' T l pub usd v q t r u i1 i2 :
  inv s (Dev la (t1 ++ h :: t2) sv p f) T l pub usd -> drv_same s s' -> v_status s' = <[h := v]> (v_status s) ->
  T !! q = Some t -> tidx t = Some (h, i1, i2) -> T !! r = Some u -> r <> q ->
  finished s' (Dev la (t1 ++ t2) (sv ++ [h]) p' f') usd u <-> finished s (Dev la (t1 ++ h :: t2) sv p f) usd u.
Proof.
  intros Hi Hd E Hq Hix Hr Hne. apply finished_ext; [apply Hd|..]; intros idx Hu; cbn.
  all: assert (head idx <> h) by (intros He; apply Hne; eapply head_inj; eauto).
  - set_solver.
  - rewrite E, ltot_insert. by rewrite decide_False.
Qed.

Lemma sim_call s d T usd a p t : sim s d T usd a -> T !! p = Some t ->
  exists dn, a_thr a !! p = Some (tbuf t, tw t, dn) /\ (dn = true <-> finished s d usd t).
Proof.
  intros Hs Hp. pose proof (sm_thr _ _ _ _ _ Hs p) as H. rewrite Hp in H.
  destruct (a_thr a !! p) as [[[b w] dn]|]; [|done]. destruct H as (-> & -> & ?). eauto.
Qed.

(** The atomic transfer, on the buffers and the disk. *)
Lemma rw_write b bc : exists h,
  Bio.virtio_disk_rw b true bc =
  Ok tt (Bcache (bufs bc) (<[b_blockno (bufat bc b) := b_data (bufat bc b)]> (disk bc)) h).
Proof. by eexists. Qed.
Lemma rw_read b bc :
  Bio.virtio_disk_rw b false bc =
  Ok tt (set_buf b (set_data (b_valid (bufat bc b)) (dget (disk bc) (b_blockno (bufat bc b)))) bc).
Proof. done. Qed.

Lemma served_drv s b w h p s' p' : (if (w : bool)
     then (set_status h 0 s, <[vb_blockno (v_bufs s !!! b) := vb_data (v_bufs s !!! b)]> p)
     else (set_status h 0 (set_vbuf b (buf_data (dget p (vb_blockno (v_bufs s !!! b)))) s), p)) = (s', p') ->
  drv_same s s' /\ v_uring s' = v_uring s /\ v_uidx s' = v_uidx s /\ v_used_idx s' = v_used_idx s /\
  v_irq s' = v_irq s /\ v_status s' = <[h := 0]> (v_status s).
Proof.
  destruct w; intros [= <- <-]; split_and!; try done. split; try done; unfold vdisk; intros; cbn; ltot.
Qed.

(** The abstract transfer follows the device's. *)
Lemma sim_served s la t1 h t2 sv p f T l pub usd a b w q t i1 i2 s' p' d' :
  inv s (Dev la (t1 ++ h :: t2) sv p f) T l pub usd -> sim s (Dev la (t1 ++ h :: t2) sv p f) T usd a ->
  T !! q = Some t -> posted t -> tidx t = Some (h, i1, i2) -> b = tbuf t -> w = tw t ->
  (if (w : bool)
   then (set_status h 0 s, <[vb_blockno (v_bufs s !!! b) := vb_data (v_bufs s !!! b)]> p)
   else (set_status h 0 (set_vbuf b (buf_data (dget p (vb_blockno (v_bufs s !!! b)))) s), p)) = (s', p') ->
  d' = Dev la (t1 ++ t2) (sv ++ [h]) p' f ->
  exists a', astep a None a' /\ sim s' d' T usd a'.
Proof.
  intros Hi Hs Hq Hps Hix Hb Hw Hsv ->. destruct (served_drv _ _ _ _ _ _ _ Hsv) as (Hd & _ & _ & _ & _ & Est).
  destruct (sim_call _ _ _ _ _ _ _ Hs Hq) as (dn & Ha & Hdn).
  assert (dn = false) as ->.
  { destruct dn; [|done]. exfalso. eapply (not_finished _ _ _ _ _ _ q t); [done..| |done|by apply Hdn]. cbn. set_solver. }
  rewrite <- Hb, <- Hw in Ha. pose proof Hs as [Sd Sb Sx St]. destruct a as [bc AT]; cbn in *.
  assert (exists bc', Bio.virtio_disk_rw b w bc = Ok tt bc' /\ disk bc' = p' /\
    (forall b', b_blockno (bufat bc' b') = vb_blockno (v_bufs s' !!! b')) /\
    (forall b', b_data (bufat bc' b') = vb_data (v_bufs s' !!! b'))) as (bc' & Hrw & X1 & X2 & X3).
  { destruct w; injection Hsv as <- <-.
    - destruct (rw_write b bc) as [h' ->]. eexists. split; [done|]. cbn. by rewrite Sd, Sb, Sx.
    - rewrite rw_read. eexists. split; [done|]. split; [done|].
      split; intros b'; rewrite bufat_set; cbn; rewrite ltot_insert; case_decide as E; cbn; rewrite <- ?E; try done.
      by rewrite Sd, Sb. }
  exists (ADisk bc' (<[q := (b, w, true)]> AT)). split; [by eapply as_do|]. split; cbn; try done.
  intros r. destruct (decide (r = q)) as [->|Hne].
  - rewrite lookup_insert_eq, Hq. split_and!; try done. split; [intros _|done]. split; [done|].
    right. exists (h, i1, i2). split; [done|]. cbn. split; [set_solver|]. by rewrite Est, lookup_total_insert_eq.
  - rewrite lookup_insert_ne by done. specialize (St r). destruct (T !! r) as [u|] eqn:Hr, (AT !! r) as [[[? ?] ?]|]; try done.
    rewrite (finished_served s s' la t1 h t2 sv p p' f f T l pub usd 0 q t r u i1 i2) by done. done.
Qed.

Lemma dev_serve s la t1 h t2 sv p f T l pub usd a s' p' :
  inv s (Dev la (t1 ++ h :: t2) sv p f) T l pub usd -> sim s (Dev la (t1 ++ h :: t2) sv p f) T usd a ->
  serve h s p = Some (s', p') ->
  exists a', astep a None a' /\ inv s' (Dev la (t1 ++ t2) (sv ++ [h]) p' f) T l pub usd /\
    sim s' (Dev la (t1 ++ t2) (sv ++ [h]) p' f) T usd a'.
Proof.
  intros Hi Hs Hsv. destruct (owner _ _ _ _ _ _ h Hi) as (q & t & i1 & i2 & Hq & Hps & Hix & Hf & Hd & Hsec & Hr & _).
  { unfold heads. cbn. set_solver. }
  rewrite (fmt_serve _ _ _ _ _ _ _ p Hf Hr Hsec) in Hsv. injection Hsv as Hsv.
  destruct (served_drv _ _ _ _ _ _ _ Hsv) as (Hdr & ? & ? & ? & ? & ?).
  destruct (sim_served _ _ _ _ _ _ _ _ _ _ _ _ _ _ _ q t i1 i2 s' p' _ Hi Hs Hq Hps Hix eq_refl eq_refl Hsv eq_refl) as (a' & ? & ?).
  exists a'. split_and!; [done| |done]. eapply inv_served; eauto.
Qed.

Lemma dev_fail s la t1 h t2 sv p f T l pub usd a r b w st :
  inv s (Dev la (t1 ++ h :: t2) sv p f) T l pub usd -> sim s (Dev la (t1 ++ h :: t2) sv p f) T usd a ->
  parse_chain h s = Some (r, b, w, st) ->
  inv (set_status st 1 s) (Dev la (t1 ++ t2) (sv ++ [h]) p true) T l pub usd /\
  sim (set_status st 1 s) (Dev la (t1 ++ t2) (sv ++ [h]) p true) T usd a.
Proof.
  intros Hi Hs Hpc. assert (h ∈ heads (Dev la (t1 ++ h :: t2) sv p f) pub usd) as Hh by (unfold heads; cbn; set_solver).
  destruct (owner _ _ _ _ _ _ h Hi Hh) as (q & t & i1 & i2 & Hq & Hps & Hix & Hf & Hd & Hsec & Hr & _).
  rewrite (fmt_parse _ _ _ _ _ _ _ Hf Hr) in Hpc. injection Hpc as _ _ _ <-.
  split; [eapply inv_served; eauto; done|]. eapply sim_ext; [done..|].
  intros q' u Hu. destruct (decide (q' = q)) as [->|Hne].
  - rewrite Hq in Hu. injection Hu as <-. split.
    + intros [_ [?|(idx & Hix' & _ & Hst)]]; [unfold vdisk in *; cbn in *; congruence|].
      rewrite Hix in Hix'. injection Hix' as <-. cbn in Hst. by rewrite lookup_total_insert_eq in Hst.
    + intros Hfin. exfalso. eapply (not_finished _ _ _ _ _ _ q t); [done..| |done|done]. cbn. set_solver.
  - eapply (finished_served s _ la t1 h t2 sv p p f true T l pub usd 1 q t q' u i1 i2); done.
Qed.

Lemma dev_complete s la tk s1 h s2 p f T l pub usd a :
  inv s (Dev la tk (s1 ++ h :: s2) p f) T l pub usd -> sim s (Dev la tk (s1 ++ h :: s2) p f) T usd a ->
  let s' := set_irq (Z.lor (v_irq s) 1) (set_used (<[v_uidx s mod NUM := h]> (v_uring s)) (u16 (v_uidx s + 1)) s) in
  let d' := Dev la tk (s1 ++ s2) p f in
  inv s' d' T l pub (usd ++ [h]) /\ sim s' d' T (usd ++ [h]) a.
Proof.
  intros Hi Hs s' d'. pose proof (iv_rings _ _ _ _ _ _ Hi) as [R1 R2 R3 R4 R5 R6]; cbn in *.
  assert (length usd < 8)%nat as Hlen.
  { apply (heads_short usd h).
    - pose proof (iv_nodup _ _ _ _ _ _ Hi) as Hn. unfold heads in Hn. cbn in Hn.
      apply NoDup_app in Hn as (_ & _ & Hn). apply NoDup_app in Hn as (_ & _ & Hn).
      rewrite <- app_assoc in Hn. apply NoDup_app in Hn as (_ & _ & Hn). cbn in Hn.
      rewrite NoDup_cons, NoDup_app in Hn. apply NoDup_cons. set_solver.
    - pose proof (heads_range _ _ _ _ _ _ Hi) as Hr. unfold heads in Hr. cbn in Hr.
      rewrite !Forall_app, !Forall_cons in Hr. apply Forall_cons. naive_solver. }
  split.
  - eapply inv_dev; [done|..]; cbn.
    + unfold heads. cbn. solve_Permutation.
    + done.
    + split; cbn; try done.
      * rewrite R5, length_app. unfold u16. cbn. rewrite Nat2Z.inj_add. dlia.
      * assert (v_uidx s mod NUM = (v_used_idx s + Z.of_nat (length usd)) mod NUM) as -> by (rewrite R5; apply u16_mod).
        apply seg_push; [apply lookup_total_insert_eq|]. by apply seg_other.
    + intros h' Hh'. apply (iv_status _ _ _ _ _ _ Hi). cbn. set_solver.
    + right. by destruct (iv_irq _ _ _ _ _ _ Hi) as [[-> _]| ->].
  - eapply sim_ext; [done..|]. intros q u Hu. apply finished_ext; [done| |done]. intros idx _. cbn. set_solver.
Qed.

Lemma dev_sim s d T l pub usd a s' d' :
  inv s d T l pub usd -> sim s d T usd a -> virtio_spec (s, d) (s', d') ->
  exists pub' usd' a', (a' = a \/ astep a None a') /\ inv s' d' T l pub' usd' /\ sim s' d' T usd' a'.
Proof.
  intros Hi Hs Hv. inversion Hv; subst.
  - destruct (dev_take _ _ _ _ _ _ _ _ _ _ _ Hi Hs) as (pub' & ? & ?); [done|]. eauto 10.
  - exists pub, usd, a. split; [by left|]. by apply set_kick_ok.
  - edestruct dev_serve as (a' & ? & ? & ?); eauto 10.
  - edestruct dev_fail as (? & ?); eauto 10.
  - exfalso. match goal with H : serve ?h _ _ = None |- _ => 
      destruct (owner _ _ _ _ _ _ h Hi) as (q & t & i1 & i2 & Hq & Hps & Hix & Hf & Hd & Hsec & Hr & _);
      [unfold heads; cbn; set_solver|]; by rewrite (fmt_serve _ _ _ _ _ _ _ _ Hf Hr Hsec) in H end.
  - edestruct dev_complete as (? & ?); eauto 10.
Qed.
