(* ===== verification/VirtioSteps.v ===== *)
(** * The driver's steps keep the invariant and simulate the atomic disk *)

From S2P Require Import Prelude Riscv Mem BufCache Bio Virtio VirtioSpec VirtioInv.

(** ** The table of calls *)

Lemma disj_of s d T l pub usd p q t u : inv s d T l pub usd -> T !! p = Some t -> T !! q = Some u -> p <> q ->
  forall i, i ∈ slots t -> i ∉ slots u.
Proof. intros Hi Hp Hq Hne i Ht Hu. apply Hne. by eapply (tb_disj _ _ (iv_table _ _ _ _ _ _ Hi)). Qed.

Lemma bufs_of s d T l pub usd p q t u : inv s d T l pub usd -> T !! p = Some t -> T !! q = Some u -> p <> q ->
  tbuf t <> tbuf u.
Proof. intros Hi Hp Hq Hne Hb. apply Hne. by eapply (tb_bufs _ _ (iv_table _ _ _ _ _ _ Hi)). Qed.

(** A call that holds no descriptor takes three free ones. *)
Lemma table_alloc T free p t t' i0 i1 i2 :
  table T free -> T !! p = Some t -> slots t = [] -> tbuf t' = tbuf t -> slots t' = [i0; i1; i2] ->
  Forall in_range [i0; i1; i2] -> NoDup [i0; i1; i2] -> Forall (fun i => free !!! i <> 0) [i0; i1; i2] ->
  table (<[p := t']> T) (<[i2 := 0]> (<[i1 := 0]> (<[i0 := 0]> free))).
Proof.
  intros [Hr Hd Hb Hf] Hp Hs Hbt Hs' Hin Hn Hfr.
  assert (forall q u i, T !! q = Some u -> i ∈ slots u -> i ∉ [i0; i1; i2]) as Hnew.
  { intros q u i Hq Hi Hi'. rewrite Forall_forall in Hin, Hfr. by eapply (proj1 (Hf i (Hin i Hi')) (Hfr i Hi')). }
  split.
  - intros q u [[<- <-]|[Hne Hq]]%lookup_insert_Some; [by rewrite Hs'|by eapply Hr].
  - intros q r u v i [[<- <-]|[Hne Hq]]%lookup_insert_Some [[<- <-]|[Hne' Hq']]%lookup_insert_Some; try done.
    + rewrite Hs'. intros H1 H2. by destruct (Hnew _ _ _ Hq' H2).
    + rewrite Hs'. intros H1 H2. by destruct (Hnew _ _ _ Hq H1).
    + eauto.
  - intros q r u v [[<- <-]|[Hne Hq]]%lookup_insert_Some [[<- <-]|[Hne' Hq']]%lookup_insert_Some; rewrite ?Hbt; eauto.
  - intros i Hi. rewrite !ltot_insert. split.
    + intros Hnz q u [[<- <-]|[Hne Hq]]%lookup_insert_Some.
      * rewrite Hs'. repeat case_decide; try done. set_solver.
      * repeat case_decide; try done. by eapply Hf.
    + intros Hall. pose proof (Hall p t' (lookup_insert_eq _ _ _)) as Hp'. rewrite Hs' in Hp'.
      rewrite !decide_False by set_solver. apply Hf; [done|]. intros q u Hq.
      destruct (decide (q = p)) as [->|Hne]; [rewrite Hp in Hq; injection Hq as <-; rewrite Hs; set_solver|].
      apply (Hall q). by rewrite lookup_insert_ne.
Qed.

(** A call returns its descriptors and ends. *)
Lemma table_free T free p t i0 i1 i2 : table T free -> T !! p = Some t -> slots t = [i0; i1; i2] ->
  table (delete p T) (<[i2 := 1]> (<[i1 := 1]> (<[i0 := 1]> free))).
Proof.
  intros [Hr Hd Hb Hf] Hp Hs. split.
  - intros q u [_ Hq]%lookup_delete_Some. eauto.
  - intros q r u v i [_ Hq]%lookup_delete_Some [_ Hq']%lookup_delete_Some. eauto.
  - intros q r u v [_ Hq]%lookup_delete_Some [_ Hq']%lookup_delete_Some. eauto.
  - intros i Hi. rewrite !ltot_insert. split.
    + intros Hnz q u [Hne Hq]%lookup_delete_Some Hu. assert (i ∉ [i0; i1; i2]) as Hni.
      { rewrite <- Hs. intros Ht. apply Hne. by eapply Hd. }
      rewrite !decide_False in Hnz by set_solver. by eapply (proj1 (Hf i Hi)).
    + intros Hall. repeat (case_decide; [done|]). apply Hf; [done|]. intros q u Hq.
      destruct (decide (q = p)) as [->|Hne].
      * rewrite Hp in Hq. injection Hq as <-. rewrite Hs. set_solver.
      * apply (Hall q). by rewrite lookup_delete_ne.
Qed.

Lemma table_eq T free free' : (forall i, in_range i -> free' !!! i <> 0 <-> free !!! i <> 0) -> table T free -> table T free'.
Proof. intros He [? ? ? Hf]. split; try done. intros i Hi. rewrite He by done. by apply Hf. Qed.

(** ** [virtio_disk_rw], up to the descriptors *)

Lemma free_not_head s d T l pub usd i : inv s d T l pub usd -> v_free s !!! i <> 0 -> i ∉ heads d pub usd.
Proof.
  intros Hi Hf Hh. destruct (owner _ _ _ _ _ _ i Hi Hh) as (p & t & i1 & i2 & Hp & _ & Hix & _ & _ & _ & Hr & _).
  apply Forall_cons in Hr as [Hr _]. eapply (proj1 (tb_free _ _ (iv_table _ _ _ _ _ _ Hi) i Hr) Hf); [done|].
  unfold slots. rewrite Hix. set_solver.
Qed.

Lemma fill_start s H b w sec idx : NoDup (islots idx) -> sec_ok s b sec -> head idx ∉ H ->
  tinv s H (TFill b w sec idx (rw_stores b w sec idx)).
Proof.
  intros Hn Hs Hh. split; [done|]. left. exists (format_stores b w sec idx). split_and!; [done| |by apply format_ok|done].
  destruct idx as [[i0 i1] i2]. unfold format_stores. rewrite !Forall_cons. cbn. set_solver.
Qed.

Lemma sim_insert s d T usd a p t t' : sim s d T usd a -> T !! p = Some t -> tbuf t' = tbuf t -> tw t' = tw t ->
  (finished s d usd t' <-> finished s d usd t) -> sim s d (<[p := t']> T) usd a.
Proof.
  intros [? ? ? Ht] Hp Hb Hw Hf. split; [done..|]. intros q. specialize (Ht q).
  destruct (decide (q = p)) as [->|Hne].
  - rewrite lookup_insert_eq. rewrite Hp in Ht. destruct (a_thr a !! p) as [[[? ?] ?]|]; [|done]. by rewrite Hb, Hw, Hf.
  - by rewrite lookup_insert_ne by done.
Qed.

Lemma fill_not_finished s d usd b w sec idx : ~ finished s d usd (TFill b w sec idx (rw_stores b w sec idx)).
Proof. intros [Hp _]. destruct idx as [[? ?] ?]. cbn in Hp. by destruct Hp. Qed.

Lemma inv_alloc s d T pub usd p b w sec i0 i1 i2 :
  inv s d T LNone pub usd -> T !! p = Some (TDesc b w sec true) ->
  Forall in_range [i0; i1; i2] -> NoDup [i0; i1; i2] -> Forall (fun i => v_free s !!! i <> 0) [i0; i1; i2] ->
  inv (set_free i2 0 (set_free i1 0 (set_free i0 0 s))) d
      (<[p := TFill b w sec (i0, i1, i2) (rw_stores b w sec (i0, i1, i2))]> T) (LThr p) pub usd.
Proof.
  intros Hi Hp Hr Hn Hf. pose proof (free_not_head _ _ _ _ _ _ i0 Hi) as Hnh.
  pose proof Hi as [I1 I2 I3 I4 I5 I6 I7 I8 I9 I10 I11]. split; cbn; try done.
  - by eapply table_alloc.
  - destruct I2. by split.
  - intros q [= <-]. rewrite lookup_insert_eq. by eauto 10.
  - intros q b' w' sec' idx todo [[<- _]|[Hne Hq]]%lookup_insert_Some; [done|]. by apply I4 in Hq.
  - intros h Hh. destruct (I6 h Hh) as (q & t & idx & Hq & Hps & Hix). exists q, t, idx. split; [|done].
    rewrite lookup_insert_ne; [done|]. intros <-. rewrite Hp in Hq. by injection Hq as <-.
  - intros q t [[<- <-]|[Hne Hq]]%lookup_insert_Some.
    + apply fill_start; [done|apply (I7 _ _ Hp)|]. cbn. apply Hnh. by apply Forall_cons in Hf as [? _].
    + eapply (tinv_ext s); [by split| |done|exact (I7 q t Hq)]. done.
  - destruct I9 as [[? Hu]|?]; [left|by right]. split; [done|]. intros _. by apply Hu.
  - intros q b' w' sec' [[<- ?]|[Hne Hq]]%lookup_insert_Some; [done|]. exists p. eexists. by rewrite lookup_insert_eq.
Qed.

Lemma woken_id t : woken [] t = t.
Proof. by destruct t as [? ? ? []| |? ? ? ? []]. Qed.
Lemma woken_none (T : gmap Z tst) : woken [] <$> T = T.
Proof. rewrite <- (map_fmap_id T) at 2. apply map_fmap_ext. intros. apply woken_id. Qed.

(** Wakeups. *)
Lemma inv_wake s d T l pub usd W :
  inv s d T l pub usd -> inv (calm s) d (woken W <$> T) l pub usd.
Proof.
  intros [I1 I2 I3 I4 I5 I6 I7 I8 I9 I10 I11]. pose proof (views_woken W T) as HV. split; cbn; try done.
  - by eapply table_views.
  - destruct I2. by split.
  - intros p Hl. destruct (I3 p Hl) as (b & w & sec & idx & todo & Hp). rewrite lookup_fmap, Hp. cbn. eauto 10.
  - intros p b w sec idx todo Hp. rewrite lookup_fmap in Hp. destruct (T !! p) as [t|] eqn:E; [|done].
    destruct t as [? ? ? []| |? ? ? ? []]; cbn in Hp; try done. by eapply I4.
  - by eapply owned_views.
  - intros p t Hp. rewrite lookup_fmap in Hp. destruct (T !! p) as [u|] eqn:E; [|done]. injection Hp as <-.
    apply tinv_woken. eapply (tinv_ext s); [| | |exact (I7 p u E)]; try done.
  - intros p b w sec Hp. rewrite lookup_fmap in Hp. destruct (T !! p) as [u|] eqn:E; [|done].
    eapply sleep_views; [done|]. destruct u as [? ? ? []| |? ? ? ? []]; cbn in Hp; try done. by eapply I11.
Qed.

Lemma inv_none s s' d T l pub usd : inv s d T l pub usd -> alloc3_none s s' -> inv (calm s') d T l pub usd.
Proof.
  intros Hi [[] Hf Hd _ _]. pose proof Hi as [I1 I2 I3 I4 I5 I6 I7 I8 I9 I10 I11]. split; cbn; try done.
  - by eapply table_eq.
  - destruct I2. split; cbn; rewrite ?un_aring, ?un_aidx, ?un_uring, ?un_uidx, ?un_used; done.
  - intros p t Hp. eapply (tinv_ext s); [| |done|exact (I7 p t Hp)]; [|cbn; intros; congruence].
    split; unfold vdisk; cbn; intros; try congruence. apply Hd.
    destruct (tb_range _ _ I1 p t Hp) as [Hr _]. rewrite Forall_forall in Hr.
    destruct (decide (v_free s !!! i = 0)) as [|Hnz]; [done|].
    by destruct (proj1 (tb_free _ _ I1 i (Hr i H)) Hnz p t Hp).
  - by rewrite un_status.
  - by rewrite un_irq.
Qed.

Lemma inv_sleep s d T l pub usd p b w sec aw : inv s d T l pub usd -> T !! p = Some (TDesc b w sec aw) ->
  (exists i, in_range i /\ v_free s !!! i = 0) -> inv s d (<[p := TDesc b w sec false]> T) l pub usd.
Proof.
  intros Hi Hp (i & Hr & Hf). pose proof Hi as [I1 I2 I3 I4 I5 I6 I7 I8 I9 I10 I11].
  assert (views T (<[p := TDesc b w sec false]> T)) as HV by (by eapply views_insert).
  split; try done.
  - by eapply table_views.
  - intros q Hl. destruct (I3 q Hl) as (b' & w' & sec' & idx & todo & Hq). rewrite lookup_insert_ne; [eauto 10|naive_solver].
  - intros q b' w' sec' idx todo [[<- ?]|[Hne Hq]]%lookup_insert_Some; [done|eauto].
  - by eapply owned_views.
  - intros q t [[<- <-]|[Hne Hq]]%lookup_insert_Some; [exact (I7 p _ Hp)|eauto].
  - intros q b' w' sec' [[<- _]|[Hne Hq]]%lookup_insert_Some; eapply sleep_views; try done; [|by eapply I11].
    destruct (decide (map_Forall (fun _ t => i ∉ slots t) T)) as [Hall|Hex].
    + exfalso. apply (proj2 (tb_free _ _ I1 i Hr)); [|done]. intros q t Hq. by apply (Hall q t).
    + apply map_not_Forall in Hex as (q & t & Hq & Hex); [|apply _]. exists q, t. split; [done|]. intros E.
      apply Hex. rewrite E. set_solver.
Qed.

(** ** States that stand for a state of the atomic disk *)

Definition good (c : cfg) (a : adisk) : Prop :=
  (exists pub usd, inv (c_vd c) (c_dev c) (c_thr c) (c_lock c) pub usd /\ sim (c_vd c) (c_dev c) (c_thr c) usd a) /\
  (c_panic c = None \/ (c_panic c = Some "virtio_disk_intr status"%string /\ failed (c_dev c) = true)).

Lemma sim_keep s s' d T usd a : v_bufs s' = v_bufs s -> v_status s' = v_status s -> sim s d T usd a -> sim s' d T usd a.
Proof.
  intros Hb Hs H. eapply sim_ext; [done|done|by intros; rewrite Hb..|]. intros p t _.
  apply finished_ext; [unfold vdisk; by rewrite Hb|done|by rewrite Hs].
Qed.

Lemma good_try c a p b w sec : good c a -> c_panic c = None -> c_lock c = LNone ->
  c_thr c !! p = Some (TDesc b w sec true) -> good (try_desc p b w sec c) a.
Proof.
  destruct c as [s d T l x]. cbn. intros [(pub & usd & Hi & Hs) _] -> -> Hp; cbn in *.
  unfold try_desc. cbn.
  destruct (alloc3_ok s) as [(i0 & i1 & i2 & -> & Hr & Hn & Hf)|(s' & -> & Hno)]; cbn.
  - rewrite (iv_wakes _ _ _ _ _ _ Hi), woken_none. split; [|by left]. exists pub, usd. cbn.
    pose proof (inv_alloc _ _ _ _ _ _ _ _ _ _ _ _ Hi Hp Hr Hn Hf) as Hi'.
    pose proof (inv_wake _ _ _ _ _ _ [] Hi') as Hi''. rewrite woken_none in Hi''. split; [done|].
    apply (sim_keep s); [done..|]. eapply sim_insert; [done..|].
    split; [intros Hfin; by apply fill_not_finished in Hfin|by intros [[] _]].
  - split; [|by left]. exists pub, usd. cbn.
    assert (inv (calm s') d (woken (v_wakes s') <$> T) LNone pub usd) as Hi'.
    { apply (inv_wake (calm s') _ _ _ _ _ (v_wakes s')). by eapply inv_none. }
    assert ((woken (v_wakes s') <$> T) !! p = Some (TDesc b w sec true)) as Hp' by (by rewrite lookup_fmap, Hp).
    split.
    + eapply inv_sleep; [done..|]. destruct Hno as [? Hfr ? (i & Hi0 & Hf0) _]. exists i. split; [done|]. cbn.
      destruct (decide (v_free s' !!! i = 0)) as [|Hnz]; [done|]. by apply Hfr in Hnz.
    + apply (sim_keep s); [apply Hno..|]. eapply sim_insert; [eapply sim_views; [apply views_woken|done]|done..].
Qed.

(** ** The stores *)

Lemma own_sim b idx st s : own b idx st -> (forall b', vb_blockno (v_bufs (exec_store st s) !!! b') = vb_blockno (v_bufs s !!! b')) /\
  (forall b', vb_data (v_bufs (exec_store st s) !!! b') = vb_data (v_bufs s !!! b')).
Proof. intros Ho. destruct st; cbn in *; try done. split; intros b'; rewrite ltot_insert; case_decide; subst; done. Qed.

Lemma own_rest b idx st s : own b idx st ->
  v_aring (exec_store st s) = v_aring s /\ v_aidx (exec_store st s) = v_aidx s /\ v_uring (exec_store st s) = v_uring s /\
  v_uidx (exec_store st s) = v_uidx s /\ v_used_idx (exec_store st s) = v_used_idx s /\ v_free (exec_store st s) = v_free s /\
  v_irq (exec_store st s) = v_irq s /\ v_wakes (exec_store st s) = v_wakes s.
Proof. by destruct st. Qed.

Lemma own_status b idx st s i : own b idx st -> i ∉ islots idx -> v_status (exec_store st s) !!! i = v_status s !!! i.
Proof. destruct st; cbn; try done. intros ? ?. rewrite ltot_insert, decide_False; [done|naive_solver]. Qed.

Lemma own_disk b idx st s b' : own b idx st -> b' <> b -> vdisk (exec_store st s) b' = vdisk s b'.
Proof. intros Ho Hne. unfold vdisk. destruct st; cbn in *; try done. rewrite ltot_insert, decide_False; [done|naive_solver]. Qed.

(** The three stages of [TFill]. *)
Lemma fill_stage s H b w sec idx st todo : tinv s H (TFill b w sec idx (st :: todo)) ->
  (exists rest, todo = rest ++ publish_stores idx /\ own b idx st /\ Forall (own b idx) rest /\
     fmt1 (exec_stores rest (exec_store st s)) b w sec idx /\ head idx ∉ H) \/
  (st = SRing (head idx) /\ todo = [SAvail; SNotify] /\ fmt1 s b w sec idx /\ head idx ∉ H) \/
  (st = SAvail /\ todo = [SNotify] /\ fmt1 s b w sec idx /\ v_aring s !!! (v_aidx s mod NUM) = head idx /\ head idx ∉ H) \/
  (st = SNotify /\ todo = [] /\ posted_ok s H b w sec idx).
Proof.
  intros [_ [(rest & E & Ho & Hf & Hh)|[(E & Hf & Hr & Hh)|[[E|E] Hpo]]]]; [|naive_solver..].
  destruct rest as [|st' rest]; cbn in E.
  - right. left. destruct idx as [[i0 i1] i2]. by injection E as -> ->.
  - injection E as -> ->. apply Forall_cons in Ho as [? ?]. left. exists rest. by rewrite exec_stores_cons in Hf.
Qed.

Lemma inv_store s s' d T p pub usd b w sec idx st todo :
  inv s d T (LThr p) pub usd -> T !! p = Some (TFill b w sec idx (st :: todo)) ->
  same_view (TFill b w sec idx (st :: todo)) (TFill b w sec idx todo) ->
  v_free s' = v_free s -> v_irq s' = v_irq s -> v_wakes s' = v_wakes s -> rings s' d pub usd ->
  (forall q u, q <> p -> T !! q = Some u -> agree (tbuf u) (slots u) s s') ->
  tinv s' (heads d pub usd) (TFill b w sec idx todo) ->
  (forall h, h ∈ heads d pub usd -> v_status s' !!! h = v_status s !!! h) ->
  inv s' d (<[p := TFill b w sec idx todo]> T) (LThr p) pub usd.
Proof.
  intros Hi Hp Hv E1 E2 E3 Hr Ha Ht Hst. pose proof Hi as [I1 I2 I3 I4 I5 I6 I7 I8 I9 I10 I11].
  assert (views T (<[p := TFill b w sec idx todo]> T)) as HV by (by eapply views_insert).
  split; try done.
  - rewrite E1. by eapply table_views.
  - intros q [= <-]. rewrite lookup_insert_eq. eauto 10.
  - intros q b' w' sec' idx' todo' [[<- _]|[Hne Hq]]%lookup_insert_Some; [done|eauto].
  - by eapply owned_views.
  - intros q t [[<- <-]|[Hne Hq]]%lookup_insert_Some; [done|].
    eapply (tinv_ext s); [exact (Ha q t (not_eq_sym Hne) Hq)| |done|exact (I7 q t Hq)].
    intros b' w' sec' idx' todo' ->. apply I4 in Hq. congruence.
  - intros h Hh. rewrite Hst by (unfold heads; set_solver). by apply I8.
  - by rewrite E2.
  - by rewrite E3.
  - intros q b' w' sec' [[<- ?]|[Hne Hq]]%lookup_insert_Some; [done|]. eapply sleep_views; [done|by eapply I11].
Qed.

(** A call that has not posted its chain has none in flight. *)
Lemma not_posted_slots s d T l pub usd p t h : inv s d T l pub usd -> T !! p = Some t -> ~ posted t ->
  h ∈ heads d pub usd -> h ∉ slots t.
Proof.
  intros Hi Hp Hps Hh Hs. destruct (iv_owned _ _ _ _ _ _ Hi h Hh) as (q & u & idx & Hq & Hpu & Hix & <-).
  destruct (decide (q = p)) as [->|Hne]; [naive_solver|].
  apply (disj_of _ _ _ _ _ _ _ _ _ _ Hi Hq Hp Hne (head idx)); [by apply head_slot|done].
Qed.

Lemma rest_not_posted b w sec idx rest : ~ posted (TFill b w sec idx (rest ++ publish_stores idx)).
Proof.
  destruct idx as [[i0 i1] i2], rest as [|? [|? [|? ?]]]; cbn; intros [?|?]; naive_solver.
Qed.

Lemma good_own s d T p a pub usd b w sec idx st rest :
  let t := TFill b w sec idx (st :: rest ++ publish_stores idx) in
  let t' := TFill b w sec idx (rest ++ publish_stores idx) in
  inv s d T (LThr p) pub usd -> sim s d T usd a -> T !! p = Some t -> own b idx st -> Forall (own b idx) rest ->
  fmt1 (exec_stores rest (exec_store st s)) b w sec idx -> head idx ∉ heads d pub usd ->
  inv (exec_store st s) d (<[p := t']> T) (LThr p) pub usd /\ sim (exec_store st s) d (<[p := t']> T) usd a.
Proof.
  intros t t' Hi Hs Hp Ho Hor Hf Hh.
  destruct (own_rest _ _ _ s Ho) as (E1 & E2 & E3 & E4 & E5 & E6 & E7 & E8). destruct (own_sim _ _ _ s Ho) as [Eb Ed].
  assert (~ posted t) as Hnp by apply (rest_not_posted _ _ _ _ (st :: rest)).
  assert (~ posted t') as Hnp' by apply rest_not_posted.
  split.
  - eapply inv_store; try done.
    + destruct (iv_rings _ _ _ _ _ _ Hi). split; rewrite ?E1, ?E2, ?E3, ?E4, ?E5; done.
    + intros q u Hne Hq. eapply agree_own; [done|..].
      * by apply (bufs_of _ _ _ _ _ _ _ _ _ _ Hi Hq Hp Hne).
      * by apply (disj_of _ _ _ _ _ _ _ _ _ _ Hi Hq Hp Hne).
    + split; [|left; eauto 10]. destruct (proj1 (iv_thr _ _ _ _ _ _ Hi p t Hp)) as [X1 X2]. unfold sec_ok. by rewrite Eb.
    + intros h Hin. eapply own_status; [done|]. by apply (not_posted_slots _ _ _ _ _ _ _ _ _ Hi Hp Hnp Hin).
  - eapply (sim_insert _ _ _ _ _ _ t); [|done..|split; by intros []]. eapply sim_ext; [done..|].
    intros q u Hq. destruct (decide (q = p)) as [->|Hne].
    + rewrite Hp in Hq. injection Hq as <-. split; by intros [].
    + apply finished_ext; [|done|].
      * eapply own_disk; [done|]. by apply (bufs_of _ _ _ _ _ _ _ _ _ _ Hi Hq Hp Hne).
      * intros idx' Hix. eapply own_status; [done|].
        apply (disj_of _ _ _ _ _ _ _ _ _ _ Hi Hq Hp Hne). by apply head_slot.
Qed.

Lemma pub_short s d T l pub usd h : inv s d T l pub usd -> h ∉ heads d pub usd -> in_range h -> (length pub < 8)%nat.
Proof.
  intros Hi Hh Hr. apply (heads_short pub h).
  - apply NoDup_cons. split; [unfold heads in Hh; set_solver|].
    pose proof (iv_nodup _ _ _ _ _ _ Hi) as Hn. by apply NoDup_app in Hn as [? _].
  - apply Forall_cons. split; [done|]. pose proof (heads_range _ _ _ _ _ _ Hi) as Hf. by apply Forall_app in Hf as [? _].
Qed.

Lemma head_range s d T l pub usd p t idx : inv s d T l pub usd -> T !! p = Some t -> tidx t = Some idx -> in_range (head idx).
Proof.
  intros Hi Hp Hix. destruct (tb_range _ _ (iv_table _ _ _ _ _ _ Hi) p t Hp) as [Hr _].
  rewrite Forall_forall in Hr. by apply Hr, head_slot.
Qed.

Lemma good_ring s d T p a pub usd b w sec idx :
  let t' := TFill b w sec idx [SAvail; SNotify] in let s' := exec_store (SRing (head idx)) s in
  inv s d T (LThr p) pub usd -> sim s d T usd a -> T !! p = Some (TFill b w sec idx (SRing (head idx) :: [SAvail; SNotify])) ->
  fmt1 s b w sec idx -> head idx ∉ heads d pub usd ->
  inv s' d (<[p := t']> T) (LThr p) pub usd /\ sim s' d (<[p := t']> T) usd a.
Proof.
  intros t' s' Hi Hs Hp Hf Hh. assert (length pub < 8)%nat as Hlen.
  { eapply pub_short; [done..|]. eapply head_range; [done..|]. done. }
  split.
  - eapply inv_store; try done.
    + unfold same_view. split_and!; try done. split; intros [?|?]; done.
    + destruct (iv_rings _ _ _ _ _ _ Hi). split; cbn; try done.
      assert (v_aidx s mod NUM = (last_avail d + Z.of_nat (length pub)) mod NUM) as -> by (rewrite rg_avail; apply u16_mod).
      by apply seg_other.
    + split; [exact (proj1 (iv_thr _ _ _ _ _ _ Hi p _ Hp))|]. right. left. split_and!; try done. apply lookup_total_insert_eq.
  - eapply sim_insert; [by apply (sim_keep s)|done..|]. split; intros [[?|?] _]; done.
Qed.

Lemma table_insert T free p t t' : table T free -> T !! p = Some t -> slots t' = slots t -> tbuf t' = tbuf t ->
  table (<[p := t']> T) free.
Proof.
  intros [Hr Hd Hb Hf] Hp Hs Ht.
  assert (forall q u, <[p := t']> T !! q = Some u -> exists u', T !! q = Some u' /\ slots u = slots u' /\ tbuf u = tbuf u') as Hback.
  { intros q u [[<- <-]|[Hne Hq]]%lookup_insert_Some; eauto. }
  split.
  - intros q u (u' & Hq & -> & _)%Hback. eauto.
  - intros q r u v i (u' & Hq & -> & _)%Hback (v' & Hr' & -> & _)%Hback. eauto.
  - intros q r u v (u' & Hq & _ & ->)%Hback (v' & Hr' & _ & ->)%Hback. eauto.
  - intros i Hi. rewrite (Hf i Hi). split.
    + intros H q u (u' & Hq & -> & _)%Hback. eauto.
    + intros H q u Hq. destruct (decide (q = p)) as [->|Hne].
      * rewrite Hp in Hq. injection Hq as <-. rewrite <- Hs. apply (H p). apply lookup_insert_eq.
      * apply (H q). by rewrite lookup_insert_ne.
Qed.

(** [disk.avail->idx += 1]: the chain is published. *)
Lemma good_avail s d T p a pub usd b w sec idx :
  let t' := TFill b w sec idx [SNotify] in let s' := exec_store SAvail s in
  inv s d T (LThr p) pub usd -> sim s d T usd a -> T !! p = Some (TFill b w sec idx [SAvail; SNotify]) ->
  fmt1 s b w sec idx -> v_aring s !!! (v_aidx s mod NUM) = head idx -> head idx ∉ heads d pub usd ->
  inv s' d (<[p := t']> T) (LThr p) (pub ++ [head idx]) usd /\ sim s' d (<[p := t']> T) usd a.
Proof.
  intros t' s' Hi Hs Hp [Hf Hd] Hslot Hh. set (h := head idx) in *.
  assert (heads d (pub ++ [h]) usd ≡ₚ h :: heads d pub usd) as Hperm by (unfold heads; solve_Permutation).
  pose proof Hi as [I1 I2 I3 I4 I5 I6 I7 I8 I9 I10 I11]. split.
  - split; try done.
    + by eapply table_insert.
    + destruct I2. split; cbn; try done.
      * rewrite rg_avail, length_app. unfold u16. cbn. rewrite Nat2Z.inj_add. dlia.
      * apply seg_push; [|done]. rewrite rg_avail, u16_mod in Hslot. done.
    + intros q [= <-]. rewrite lookup_insert_eq. eauto 10.
    + intros q b' w' sec' idx' todo' [[<- _]|[Hne Hq]]%lookup_insert_Some; [done|eauto].
    + rewrite Hperm. by apply NoDup_cons.
    + intros h' Hh'. rewrite Hperm in Hh'. apply elem_of_cons in Hh' as [->|Hh'].
      * exists p, t', idx. rewrite lookup_insert_eq. split_and!; try done. by right.
      * destruct (I6 h' Hh') as (q & u & idx' & Hq & Hps & ?). exists q, u, idx'. split; [|done].
        rewrite lookup_insert_ne; [done|]. intros <-. rewrite Hp in Hq. injection Hq as <-. by destruct Hps.
    + intros q u [[<- <-]|[Hne Hq]]%lookup_insert_Some.
      * split; [exact (proj1 (I7 p _ Hp))|]. right. right. split; [by right|]. split; [done|]. left. split; [done|].
        rewrite Hperm. by left.
      * eapply (tinv_ext s); [by split| | |exact (I7 q u Hq)].
        -- intros b' w' sec' idx' todo' ->. apply I4 in Hq. congruence.
        -- intros idx' Hix. rewrite Hperm, elem_of_cons. split; [|by right]. intros [E|?]; [|done].
           exfalso. apply Hne. eapply head_inj; [exact Hi|exact Hp|exact Hq|done|exact Hix|done].
    + intros q b' w' sec' [[<- ?]|[Hne Hq]]%lookup_insert_Some; [done|]. exists p, t'. rewrite lookup_insert_eq. split; [done|].
      cbn. unfold slots. cbn. by destruct idx as [[? ?] ?].
  - eapply sim_insert; [by apply (sim_keep s)|done..|]. split; [|intros [[?|?] _]; done].
    intros [_ [E|(idx' & [= <-] & Hin & _)]]; [unfold vdisk in *; cbn in *; congruence|].
    exfalso. apply Hh. unfold heads, h. set_solver.
Qed.

Lemma good_store s d T p a b w sec idx st todo :
  good (Cfg s d T (LThr p) None) a -> T !! p = Some (TFill b w sec idx (st :: todo)) ->
  good (Cfg (exec_store st s) d (<[p := TFill b w sec idx todo]> T) (LThr p) None) a.
Proof.
  intros [(pub & usd & Hi & Hs) _] Hp; cbn in *. split; [|by left]. cbn.
  destruct (fill_stage _ _ _ _ _ _ _ _ (iv_thr _ _ _ _ _ _ Hi p _ Hp)) as [(rest & -> & ? & ? & ? & ?)|[(-> & -> & ? & ?)|[(-> & -> & ? & ? & ?)|(-> & -> & Hpo)]]].
  - exists pub, usd. by eapply good_own.
  - exists pub, usd. by eapply good_ring.
  - exists (pub ++ [head idx]), usd. by eapply good_avail.
  - exists pub, usd. assert (posted (TFill b w sec idx [SNotify])) by (by right). assert (posted (TFill b w sec idx [])) by (by left).
    destruct (set_kick_ok _ _ _ _ _ _ _ true Hi Hs) as [Hi' Hs']. split.
    + eapply inv_store; try done; [apply Hi'|].
      split; [exact (proj1 (iv_thr _ _ _ _ _ _ Hi p _ Hp))|]. right. right. split; [by left|done].
    + eapply sim_insert; [done..|]. unfold finished. naive_solver.
Qed.

(** ** [while(b->disk == 1) sleep(b, &disk.vdisk_lock)] *)

(** The call is at the test of the loop. *)
Definition at_check (t : tst) (p : Z) (l : holder) b w sec idx : Prop :=
  (l = LThr p /\ t = TFill b w sec idx []) \/ (l = LNone /\ t = TWait b w sec idx true).

Lemma at_check_posted t p l b w sec idx : at_check t p l b w sec idx ->
  posted t /\ tbuf t = b /\ tw t = w /\ tsec t = sec /\ tidx t = Some idx /\ l <> LIntr.
Proof. intros [[-> ->]|[-> ->]]; split_and!; try done. by left. Qed.

Lemma check_fill s d T l pub usd p t b w sec idx q b' w' sec' idx' todo :
  inv s d T l pub usd -> at_check t p l b w sec idx -> q <> p -> T !! q <> Some (TFill b' w' sec' idx' todo).
Proof. intros Hi [[-> _]|[-> _]] Hne Hq; by apply (iv_fill _ _ _ _ _ _ Hi) in Hq; congruence. Qed.

Lemma inv_wait s d T l pub usd p t b w sec idx :
  inv s d T l pub usd -> T !! p = Some t -> at_check t p l b w sec idx -> vdisk s b = 1 ->
  inv s d (<[p := TWait b w sec idx false]> T) LNone pub usd.
Proof.
  intros Hi Hp Hc Hd. destruct (at_check_posted _ _ _ _ _ _ _ Hc) as (Hps & Eb & Ew & Es & Ei & Hl).
  pose proof Hi as [I1 I2 I3 I4 I5 I6 I7 I8 I9 I10 I11].
  assert (views T (<[p := TWait b w sec idx false]> T)) as HV.
  { eapply views_insert; [done|]. unfold same_view. rewrite Eb, Ew, Es, Ei. by split_and!. }
  split; try done.
  - by eapply table_views.
  - intros q b' w' sec' idx' todo [[<- ?]|[Hne Hq]]%lookup_insert_Some; [done|].
    by destruct (check_fill _ _ _ _ _ _ _ _ _ _ _ _ _ _ _ _ _ _ Hi Hc (not_eq_sym Hne) Hq).
  - by eapply owned_views.
  - intros q u [[<- <-]|[Hne Hq]]%lookup_insert_Some; [|eauto]. pose proof (I7 p t Hp) as Ht.
    destruct (tinv_posted _ _ _ Ht Hps) as (idx' & Hix & Hpo). rewrite Ei in Hix. injection Hix as <-.
    rewrite Eb, Ew, Es in Hpo. split; [|done]. cbn. rewrite <- Eb, <- Es. apply Ht.
  - destruct I9 as [[? Hu]|?]; [left|by right]. split; [done|]. intros _. by apply Hu.
  - intros q b' w' sec' [[<- ?]|[Hne Hq]]%lookup_insert_Some; [done|]. eapply sleep_views; [done|by eapply I11].
Qed.

(** The state after [disk.info[idx[0]].b = 0; free_chain(idx[0])]. *)
Definition ended (s : vd) (i0 i1 i2 : Z) : vd := freed i2 (freed i1 (freed i0 (set_info_b i0 (-1) s))).

Lemma rw_finish_ok s d T l pub usd p t i0 i1 i2 :
  inv s d T l pub usd -> T !! p = Some t -> posted t -> tidx t = Some (i0, i1, i2) ->
  rw_finish i0 s = Ok tt (ended s i0 i1 i2).
Proof.
  intros Hi Hp Hps Ei. destruct (tinv_posted _ _ _ (iv_thr _ _ _ _ _ _ Hi p t Hp) Hps) as (idx & Hix & Hf & _).
  rewrite Ei in Hix. injection Hix as <-. pose proof (iv_table _ _ _ _ _ _ Hi) as HT.
  destruct (tb_range _ _ HT p t Hp) as [Hr Hn].
  assert (slots t = [i0; i1; i2]) as Es by (unfold slots; by rewrite Ei). rewrite Es in Hr, Hn.
  assert (forall i, i ∈ [i0; i1; i2] -> v_free s !!! i = 0) as Hfr.
  { intros i Hin. destruct (decide (v_free s !!! i = 0)) as [|Hnz]; [done|]. rewrite Forall_forall in Hr.
    destruct (proj1 (tb_free _ _ HT i (Hr i Hin)) Hnz p t Hp). by rewrite Es. }
  destruct Hf as (H1 & H2 & H3 & _). unfold rw_finish, mbind, M_bind, modify.
  eapply free_chain_ok; try done. by apply Forall_forall.
Qed.

(** What the end of a call leaves alone. *)
Record ended_un (s s' : vd) (i0 i1 i2 : Z) : Prop := {
  eu_bufs : v_bufs s' = v_bufs s; eu_status : v_status s' = v_status s; eu_irq : v_irq s' = v_irq s;
  eu_aring : v_aring s' = v_aring s; eu_aidx : v_aidx s' = v_aidx s;
  eu_uring : v_uring s' = v_uring s; eu_uidx : v_uidx s' = v_uidx s; eu_used : v_used_idx s' = v_used_idx s;
  eu_free : v_free s' = <[i2 := 1]> (<[i1 := 1]> (<[i0 := 1]> (v_free s)));
  eu_agree : forall b l, (forall i, i ∈ l -> i ∉ [i0; i1; i2]) -> agree b l s s'
}.

Lemma ended_wakes s i0 i1 i2 : v_wakes (ended s i0 i1 i2) = v_wakes s ++ [CFree; CFree; CFree].
Proof. unfold ended, freed. cbn [v_wakes set_wakes set_free set_desc set_info_b]. by rewrite <- !app_assoc. Qed.

Lemma ended_ok s i0 i1 i2 : ended_un s (calm (ended s i0 i1 i2)) i0 i1 i2.
Proof.
  split; try reflexivity. intros b l Hl.
  split; try reflexivity; intros i Hi; specialize (Hl i Hi);
    cbn [calm ended freed v_desc v_ops v_info_b set_wakes set_free set_desc set_info_b];
    rewrite ?lookup_total_insert_ne by set_solver; reflexivity.
Qed.

Lemma inv_end s s' d T l pub usd p t b w sec i0 i1 i2 :
  inv s d T l pub usd -> T !! p = Some t -> at_check t p l b w sec (i0, i1, i2) -> vdisk s b = 0 ->
  (forall q b' w' sec', T !! q <> Some (TDesc b' w' sec' false)) ->
  ended_un s s' i0 i1 i2 -> v_wakes s' = [] -> inv s' d (delete p T) LNone pub usd.
Proof.
  intros Hi Hp Hc Hd Hall Hun Hwk. destruct (at_check_posted _ _ _ _ _ _ _ Hc) as (Hps & Eb & Ew & Es & Ei & Hl).
  pose proof Hi as [I1 I2 I3 I4 I5 I6 I7 I8 I9 I10 I11].
  assert (slots t = [i0; i1; i2]) as Hsl by (unfold slots; by rewrite Ei).
  split; try done.
  - rewrite (eu_free _ _ _ _ _ Hun). by eapply table_free.
  - destruct I2. split; rewrite ?(eu_aring _ _ _ _ _ Hun), ?(eu_aidx _ _ _ _ _ Hun), ?(eu_uring _ _ _ _ _ Hun),
      ?(eu_uidx _ _ _ _ _ Hun), ?(eu_used _ _ _ _ _ Hun); done.
  - intros q b' w' sec' idx' todo [Hne Hq]%lookup_delete_Some.
    by destruct (check_fill _ _ _ _ _ _ _ _ _ _ _ _ _ _ _ _ _ _ Hi Hc (not_eq_sym Hne) Hq).
  - intros h Hh. destruct (I6 h Hh) as (q & u & idx & Hq & Hpu & Hix & Ehd). exists q, u, idx. split; [|done].
    rewrite lookup_delete_ne; [done|]. intros <-. rewrite Hp in Hq. injection Hq as <-.
    destruct (tinv_posted _ _ _ (I7 p t Hp) Hps) as (idx' & Hix' & _ & [[? _]|[_ Hno]]); [congruence|].
    rewrite Hix in Hix'. injection Hix' as <-. by rewrite Ehd in Hno.
  - intros q u [Hne Hq]%lookup_delete_Some. eapply (tinv_ext s); [| |done|exact (I7 q u Hq)];
      [|intros; by rewrite (eu_aring _ _ _ _ _ Hun), (eu_aidx _ _ _ _ _ Hun)].
    apply (eu_agree _ _ _ _ _ Hun). intros i Hin. rewrite <- Hsl. by apply (disj_of _ _ _ _ _ _ _ _ _ _ Hi Hq Hp (not_eq_sym Hne)).
  - by rewrite (eu_status _ _ _ _ _ Hun).
  - rewrite (eu_irq _ _ _ _ _ Hun). destruct I9 as [[? Hu]|?]; [left|by right]. split; [done|]. intros _. by apply Hu.
  - intros q b' w' sec' [Hne Hq]%lookup_delete_Some. by apply Hall in Hq.
Qed.

Lemma sim_end s d T usd a p t : sim s d T usd a -> T !! p = Some t -> finished s d usd t ->
  exists a', astep a (Some (ERet p (tbuf t) (vb_data (v_bufs s !!! tbuf t)))) a' /\ sim s d (delete p T) usd a'.
Proof.
  intros Hs Hp Hf. destruct (sim_call _ _ _ _ _ _ _ Hs Hp) as (dn & Ha & Hdn).
  assert (dn = true) as -> by (by apply Hdn). destruct Hs as [S1 S2 S3 S4], a as [bc AT]; cbn in *.
  exists (ADisk bc (delete p AT)). split; [rewrite <- S3; by eapply as_ret|]. split; try done.
  intros q. cbn. destruct (decide (q = p)) as [->|Hne]; [by rewrite !lookup_delete_eq|].
  rewrite !lookup_delete_ne by done. apply S4.
Qed.

Lemma good_check c a p t b w sec idx : good c a -> c_panic c = None -> c_thr c !! p = Some t ->
  at_check t p (c_lock c) b w sec idx ->
  exists a', (done_event p b c = None /\ a' = a \/ astep a (done_event p b c) a') /\ good (check_done p b w sec idx c) a'.
Proof.
  destruct c as [s d T l x]. cbn. intros [(pub & usd & Hi & Hs) _] -> Hp Hc; cbn in *.
  destruct (at_check_posted _ _ _ _ _ _ _ Hc) as (Hps & Eb & Ew & Es & Ei & Hl).
  unfold done_event, check_done. cbn. destruct (vb_disk (v_bufs s !!! b) =? 1) eqn:Ed.
  - exists a. split; [by left|]. split; [|by left]. exists pub, usd. cbn. split; [eapply inv_wait; eauto; unfold vdisk; lia|].
    eapply sim_insert; [done..|]. unfold finished. rewrite Eb, Ei. cbn. naive_solver.
  - destruct idx as [[i0 i1] i2]. cbn.
    destruct (tinv_posted _ _ _ (iv_thr _ _ _ _ _ _ Hi p t Hp) Hps) as (idx' & _ & _ & Hd).
    rewrite Eb in Hd. assert (vdisk s b = 0) as Hd0 by (unfold vdisk in *; destruct Hd as [[? _]|[? _]]; lia).
    destruct (sim_end _ _ _ _ _ _ _ Hs Hp) as (a' & Ha & Hs'); [split; [done|]; left; congruence|].
    rewrite Eb in Ha. exists a'. split; [by right|].
    rewrite (rw_finish_ok _ _ _ _ _ _ _ _ _ _ _ Hi Hp Hps Ei). unfold after.
    rewrite ended_wakes, (iv_wakes _ _ _ _ _ _ Hi). cbn [app].
    pose proof (ended_ok s i0 i1 i2) as Hun. set (s' := calm _) in *. assert (v_wakes s' = []) as Hwk by reflexivity.
    clearbody s'. split; [|by left]. exists pub, usd. cbn [c_vd c_dev c_thr c_lock]. split.
    + pose proof (inv_wake _ _ _ _ _ _ [CFree; CFree; CFree] Hi) as Hi'.
      eapply (inv_end (calm s)); [done| | |done| | |done].
      * rewrite lookup_fmap, Hp. cbn. done.
      * destruct Hc as [[-> ->]|[-> ->]]; [by left|by right].
      * intros q b' w' sec'. rewrite lookup_fmap. by destruct (T !! q) as [[? ? ? []| |? ? ? ? []]|].
      * by destruct Hun as [? ? ? ? ? ? ? ? ? Hag]; split; try done; intros; destruct (Hag b0 l0).
    + apply (sim_keep s); [apply Hun..|]. rewrite <- fmap_delete. eapply sim_views; [apply views_woken|done].
Qed.

(** ** [virtio_disk_intr] *)

Definition turned (s : vd) (b : Z) : vd := set_used_idx (u16 (v_used_idx s + 1)) (set_vbuf b (buf_disk 0) s).

Lemma intr_turn_eq s h b : v_uring s !!! (v_used_idx s mod NUM) = h -> v_info_b s !!! h = b ->
  intr_turn s = if v_status s !!! h =? 0 then Ok tt (set_wakes (v_wakes s ++ [CBuf b]) (turned s b))
                else Panic "virtio_disk_intr status".
Proof. intros Hh Hb. unfold intr_turn, mbind, M_bind, gets. rewrite Hh.
  destruct (v_status s !!! h =? 0); cbn [negb]; [|done]. by rewrite Hb. Qed.

Lemma turned_disk s b b' : vdisk (turned s b) b' = if decide (b = b') then 0 else vdisk s b'.
Proof. unfold vdisk. cbn. rewrite ltot_insert. by case_decide. Qed.

Lemma turned_bufs s b b' : vb_blockno (v_bufs (turned s b) !!! b') = vb_blockno (v_bufs s !!! b') /\
  vb_data (v_bufs (turned s b) !!! b') = vb_data (v_bufs s !!! b').
Proof. cbn. rewrite ltot_insert. case_decide; by subst. Qed.

(** The owner of the chain is awake and its transfer is done. *)
Lemma turned_owner s s' H H' b w sec idx t : tinv s H t -> posted t -> tidx t = Some idx -> tbuf t = b -> tw t = w -> tsec t = sec ->
  fmt s' b w sec idx -> sec_ok s' b sec -> vdisk s' b = 0 -> head idx ∉ H' -> tinv s' H' (woken [CBuf b] t).
Proof.
  intros Ht Hps Hix Hb Hw Hs Hf Hsec Hd Hh.
  assert (posted_ok s' H' b w sec idx) as Hpo by (split; [done|by right]).
  destruct t as [|b' w' sec' idx' todo|b' w' sec' idx' aw]; [done|..]; cbn in *; simplify_eq/=.
  - split; [done|]. right. right. by split.
  - destruct aw; cbn; [by split|]. rewrite bool_decide_eq_true_2 by set_solver. by split.
Qed.

Lemma inv_turn s d T pub h usd p t i1 i2 :
  inv s d T LIntr pub (h :: usd) -> T !! p = Some t -> posted t -> tidx t = Some (h, i1, i2) ->
  fmt s (tbuf t) (tw t) (tsec t) (h, i1, i2) ->
  inv (calm (turned s (tbuf t))) d (woken [CBuf (tbuf t)] <$> T) LIntr pub usd.
Proof.
  intros Hi Hp Hps Hix Hf. pose proof Hi as [I1 I2 I3 I4 I5 I6 I7 I8 I9 I10 I11].
  pose proof (views_woken [CBuf (tbuf t)] T) as HV.
  assert (heads d pub (h :: usd) ≡ₚ h :: heads d pub usd) as Hperm by (unfold heads; solve_Permutation).
  rewrite Hperm in I5. apply NoDup_cons in I5 as [Hnh I5]. destruct (iv_rings _ _ _ _ _ _ Hi) as [R1 R2 R3 R4 R5 R6].
  split; try done.
  - by eapply table_views.
  - split; cbn; try done; [unfold u16; dlia| |by apply seg_pop in R6 as [_ ?]].
    rewrite R5. unfold u16. cbn [length]. rewrite Nat2Z.inj_succ. dlia.
  - intros q b w sec idx todo Hq. rewrite lookup_fmap in Hq. destruct (T !! q) as [u|] eqn:E; [|done].
    destruct u as [? ? ? []| |? ? ? ? []]; cbn in Hq; try done. by eapply I4.
  - eapply owned_views; [done|]. intros h' Hh'. apply I6. rewrite Hperm. by right.
  - intros q u Hq. rewrite lookup_fmap in Hq. destruct (T !! q) as [u0|] eqn:E; [|done]. injection Hq as <-.
    destruct (decide (q = p)) as [->|Hne].
    + rewrite Hp in E. injection E as <-. eapply turned_owner; [by apply (I7 p)|done..| | |done].
      * unfold sec_ok. cbn. destruct (turned_bufs s (tbuf t) (tbuf t)) as [Eb _]. cbn in Eb. rewrite Eb. apply (I7 p t Hp).
      * change (vdisk (turned s (tbuf t)) (tbuf t) = 0). rewrite turned_disk. by rewrite decide_True.
    + apply tinv_woken. eapply (tinv_ext s); [|done| |exact (I7 q u0 E)].
      * split; try done; [apply turned_bufs|]. change (vdisk (turned s (tbuf t)) (tbuf u0) = vdisk s (tbuf u0)).
        rewrite turned_disk, decide_False; [done|]. intros Eb. apply Hne. by eapply (tb_bufs _ _ I1).
      * intros idx' Hix'. rewrite Hperm, elem_of_cons. split; [by right|]. intros [Eh|?]; [|done].
        exfalso. apply Hne. by eapply (head_inj _ _ _ _ _ _ q p u0 t idx' (h, i1, i2) Hi).
  - intros h' Hh'. apply I8. set_solver.
  - destruct I9 as [[? _]|?]; [left|by right]. done.
  - intros q b w sec Hq. rewrite lookup_fmap in Hq. destruct (T !! q) as [u|] eqn:E; [|done].
    eapply sleep_views; [done|]. destruct u as [? ? ? []| |? ? ? ? []]; cbn in Hq; try done. by eapply I11.
Qed.

Lemma sim_turn s d T pub h usd p t i1 i2 a :
  inv s d T LIntr pub (h :: usd) -> sim s d T (h :: usd) a -> T !! p = Some t -> posted t -> tidx t = Some (h, i1, i2) ->
  v_status s !!! h = 0 -> sim (calm (turned s (tbuf t))) d (woken [CBuf (tbuf t)] <$> T) usd a.
Proof.
  intros Hi Hs Hp Hps Hix Hst. eapply sim_views; [apply views_woken|].
  eapply sim_ext; [done|done|apply turned_bufs..|]. intros q u Hq. destruct (decide (q = p)) as [->|Hne].
  - rewrite Hp in Hq. injection Hq as <-. split; intros _; split; try done.
    + right. exists (h, i1, i2). split; [done|]. split; [set_solver|done].
    + left. change (vdisk (turned s (tbuf t)) (tbuf t) = 0). rewrite turned_disk. by rewrite decide_True.
  - apply finished_ext; [|intros idx Hix'|done].
    + change (vdisk (turned s (tbuf t)) (tbuf u) = vdisk s (tbuf u)). rewrite turned_disk, decide_False; [done|].
      intros Eb. apply Hne. by eapply (tb_bufs _ _ (iv_table _ _ _ _ _ _ Hi)).
    + assert (head idx <> h); [|set_solver]. intros Eh. apply Hne.
      by eapply (head_inj _ _ _ _ _ _ q p u t idx (h, i1, i2) Hi).
Qed.

Lemma good_turn c a : good c a -> c_panic c = None -> c_lock c = LIntr -> v_used_idx (c_vd c) <> v_uidx (c_vd c) ->
  good (after c (intr_turn (c_vd c)) (fun _ T => T) LIntr) a.
Proof.
  destruct c as [s d T l x]. cbn. intros [(pub & usd & Hi & Hs) _] -> -> Hne; cbn in *.
  pose proof (iv_rings _ _ _ _ _ _ Hi) as [R1 R2 R3 R4 R5 R6]. destruct usd as [|h usd].
  { exfalso. apply Hne. rewrite R5. unfold u16. cbn. rewrite Z.add_0_r, Z.mod_small; lia. }
  destruct (seg_pop _ _ _ _ R6) as [Hh _].
  destruct (owner _ _ _ _ _ _ h Hi) as (p & t & i1 & i2 & Hp & Hps & Hix & Hf & _); [unfold heads; set_solver|].
  rewrite (intr_turn_eq s h (tbuf t)); [|done|apply Hf]. rewrite (iv_wakes _ _ _ _ _ _ Hi). cbn [app].
  destruct (v_status s !!! h =? 0) eqn:Est; unfold after; cbn [c_vd c_dev c_thr c_panic v_wakes set_wakes].
  - split; [|by left]. exists pub, usd. cbn [c_vd c_dev c_thr c_lock].
    split; [by eapply (inv_turn s)|eapply (sim_turn s); try done; lia].
  - split; [by exists pub, (h :: usd)|]. right. split; [done|]. cbn.
    destruct (iv_status _ _ _ _ _ _ Hi h) as [?|[_ ?]]; [set_solver|lia|done].
Qed.

Lemma inv_lock s s' d T l l' pub usd : inv s d T l pub usd -> (forall p, l <> LThr p) -> (forall p, l' <> LThr p) ->
  (exists q, s' = set_irq q s) -> (v_irq s' = 0 /\ (l' <> LIntr -> usd = [])) \/ v_irq s' = 1 ->
  inv s' d T l' pub usd.
Proof.
  intros [I1 I2 I3 I4 I5 I6 I7 I8 I9 I10 I11] Hl Hl' [q ->] Hq. split; try done.
  - destruct I2. by split.
  - intros p ->. by destruct (Hl' p).
  - intros p b w sec idx todo Hp. by destruct (Hl p); eapply I4.
  - intros p t Hp. eapply (tinv_ext s); [by split|done|done|exact (I7 p t Hp)].
Qed.

Lemma good_intr s d T a : good (Cfg s d T LNone None) a ->
  good (Cfg (set_irq (Z.land (v_irq s) (Z.lnot (Z.land (v_irq s) 3))) s) d T LIntr None) a.
Proof.
  intros [(pub & usd & Hi & Hs) _]; cbn in *. split; [|by left]. exists pub, usd. cbn. split; [|by apply (sim_keep s)].
  eapply inv_lock; [done|done|done|by eexists|]. left. cbn. by destruct (iv_irq _ _ _ _ _ _ Hi) as [[-> _]| ->].
Qed.

Lemma set_irq_id s : s = set_irq (v_irq s) s.
Proof. by destruct s. Qed.

Lemma good_intr_end s d T a : good (Cfg s d T LIntr None) a -> v_used_idx s = v_uidx s -> good (Cfg s d T LNone None) a.
Proof.
  intros [(pub & usd & Hi & Hs) _] He; cbn in *. split; [|by left]. exists pub, usd. cbn. split; [|done].
  eapply inv_lock; [done|done|done|eexists; apply set_irq_id|].
  pose proof (iv_rings _ _ _ _ _ _ Hi) as [R1 R2 R3 R4 R5 R6].
  assert (length usd <= length (seqZ 0 8))%nat as Hlen.
  { apply submseteq_length, NoDup_submseteq.
    - pose proof (iv_nodup _ _ _ _ _ _ Hi) as Hn. unfold heads in Hn.
      do 3 (apply NoDup_app in Hn as (_ & _ & Hn)). done.
    - intros x Hx. pose proof (heads_range _ _ _ _ _ _ Hi) as Hr. rewrite Forall_forall in Hr.
      assert (in_range x) as Hx' by (apply Hr; unfold heads; set_solver). apply elem_of_seqZ. unfold in_range, NUM in Hx'. lia. }
  rewrite length_seqZ in Hlen.
  assert (usd = []) as ->.
  { destruct usd; [done|]. exfalso. rewrite R5 in He. unfold u16 in He. cbn [length] in *. dlia. }
  destruct (iv_irq _ _ _ _ _ _ Hi) as [[? _]|?]; [left|right]; done.
Qed.
