(* ===== verification/VirtioClaims.v ===== *)
(** * The disk driver implements the disk that the buffer cache assumes

    [virtio_atomic]: whatever the interleaving of calls, interrupts and device,
    the driver behaves as the atomic disk of [Bio].  [virtio_progress]: as long
    as a call is in progress, some step of the kernel or of the device brings
    it closer to its end, and none takes it back. *)

From S2P Require Import Prelude Riscv Mem BufCache Bio Virtio VirtioSpec VirtioInv VirtioSteps.

(** ** The callers' steps *)

Lemma inv_call s d T l pub usd p b w : inv s d T l pub usd -> T !! p = None -> idle_buf T b ->
  0 <= vb_blockno (v_bufs s !!! b) < 2 ^ 31 ->
  inv s d (<[p := TDesc b w (rw_sector (v_bufs s !!! b)) true]> T) l pub usd.
Proof.
  intros Hi Hp Hb Hr. pose proof Hi as [I1 I2 I3 I4 I5 I6 I7 I8 I9 I10 I11].
  assert (forall q u, T !! q = Some u -> q <> p) as Hne by congruence.
  split; try done.
  - destruct I1 as [J1 J2 J3 J4]. split.
    + intros q u [[<- <-]|[_ Hq]]%lookup_insert_Some; [by split; constructor|eauto].
    + intros q r u v i [[<- <-]|[_ Hq]]%lookup_insert_Some [[<- <-]|[_ Hq']]%lookup_insert_Some; cbn; try set_solver.
    + intros q r u v [[<- <-]|[_ Hq]]%lookup_insert_Some [[<- <-]|[_ Hq']]%lookup_insert_Some; cbn; [done|..|eauto].
      * intros E. by destruct (Hb _ _ Hq').
      * intros E. by destruct (Hb _ _ Hq).
    + intros i Hi'. rewrite (J4 i Hi'). split.
      * intros H q u [[<- <-]|[_ Hq]]%lookup_insert_Some; [set_solver|eauto].
      * intros H q u Hq. apply (H q). rewrite lookup_insert_ne; [done|]. intros <-. congruence.
  - intros q Hl. destruct (I3 q Hl) as (b' & w' & sec' & idx & todo & Hq). rewrite lookup_insert_ne; [eauto 10|]. by apply not_eq_sym, (Hne q _ Hq).
  - intros q b' w' sec' idx todo [[<- ?]|[_ Hq]]%lookup_insert_Some; [done|eauto].
  - intros h Hh. destruct (I6 h Hh) as (q & t & idx & Hq & ?). exists q, t, idx. split; [|done].
    rewrite lookup_insert_ne; [done|]. by apply not_eq_sym, (Hne q _ Hq).
  - intros q t [[<- <-]|[_ Hq]]%lookup_insert_Some; [|eauto]. split; [by apply rw_sector_ok|done].
  - intros q b' w' sec' [[<- [=]]|[_ Hq]]%lookup_insert_Some. destruct (I11 _ _ _ _ Hq) as (r & t & Hr' & ?).
    exists r, t. rewrite lookup_insert_ne; [done|]. by apply not_eq_sym, (Hne r _ Hr').
Qed.

Lemma sim_idle s d T usd a b : sim s d T usd a -> idle_buf T b -> a_idle (a_thr a) b.
Proof.
  intros Hs Hb p [[b' w] dn] Hp. pose proof (sm_thr _ _ _ _ _ Hs p) as Ht. rewrite Hp in Ht.
  destruct (T !! p) as [t|] eqn:E; [|done]. destruct Ht as (-> & _). by apply (Hb p).
Qed.

Lemma sim_call_step s d T usd a p b w sec : sim s d T usd a -> T !! p = None -> idle_buf T b ->
  exists a', astep a (Some (ECall p b w)) a' /\ sim s d (<[p := TDesc b w sec true]> T) usd a'.
Proof.
  intros Hs Hp Hb. pose proof (sim_idle _ _ _ _ _ _ Hs Hb) as Ha. destruct Hs as [S1 S2 S3 S4], a as [bc AT]; cbn in *.
  assert (AT !! p = None) as Hn by (specialize (S4 p); rewrite Hp in S4; by destruct (AT !! p)).
  exists (ADisk bc (<[p := (b, w, false)]> AT)). split; [by constructor|]. split; try done. intros q. cbn.
  destruct (decide (q = p)) as [->|Hne]; [|rewrite !lookup_insert_ne by done; apply S4].
  rewrite !lookup_insert_eq. split_and!; try done. split; [done|]. by intros [[] _].
Qed.

Lemma set_agree s b k x b' l : b' <> b -> agree b' l s (set_vbuf b (fun y => VBuf k (vb_disk y) x) s).
Proof. intros Hne. split; unfold vdisk; cbn; try done; by rewrite lookup_total_insert_ne by done. Qed.

Lemma inv_set s d T l pub usd b k x : inv s d T l pub usd -> idle_buf T b ->
  inv (set_vbuf b (fun y => VBuf k (vb_disk y) x) s) d T l pub usd.
Proof.
  intros [I1 I2 I3 I4 I5 I6 I7 I8 I9 I10 I11] Hb. split; try done.
  - destruct I2. by split.
  - intros p t Hp. eapply (tinv_ext s); [|done|done|exact (I7 p t Hp)]. apply set_agree. by apply (Hb p).
Qed.

Lemma sim_set s d T usd a b k x : sim s d T usd a -> idle_buf T b ->
  exists a', astep a (Some (ESet b k x)) a' /\ sim (set_vbuf b (fun y => VBuf k (vb_disk y) x) s) d T usd a'.
Proof.
  intros Hs Hb. pose proof (sim_idle _ _ _ _ _ _ Hs Hb) as Ha. destruct Hs as [S1 S2 S3 S4], a as [bc AT]; cbn in *.
  exists (ADisk (set_buf b (put_buf k x) bc) AT). split; [by constructor|]. split; cbn; try done.
  - intros b'. rewrite bufat_set, ltot_insert. by case_decide.
  - intros b'. rewrite bufat_set, ltot_insert. by case_decide.
  - intros p. specialize (S4 p). specialize (Hb p). destruct (T !! p) as [t|], (AT !! p) as [[[b' w] dn]|]; try done.
    destruct S4 as (-> & -> & ->). split_and!; try done. symmetry. apply finished_ext; [|done|done].
    unfold vdisk. cbn. by rewrite lookup_total_insert_ne by naive_solver.
Qed.

Lemma inv_kill s d T l pub usd p t t' : inv s d T l pub usd -> T !! p = Some t ->
  (exists b w sec, t = TDesc b w sec false /\ t' = TDesc b w sec true) \/
  (exists b w sec idx, t = TWait b w sec idx false /\ t' = TWait b w sec idx true) ->
  inv s d (<[p := t']> T) l pub usd.
Proof.
  intros Hi Hp Hc. pose proof Hi as [I1 I2 I3 I4 I5 I6 I7 I8 I9 I10 I11].
  assert (same_view t t' /\ (forall b w sec idx todo, t' <> TFill b w sec idx todo /\ t <> TFill b w sec idx todo) /\
    (forall b w sec, t' <> TDesc b w sec false) /\ tinv s (heads d pub usd) t') as (Hv & Hf & Hs & Ht).
  { pose proof (I7 p t Hp) as [X Y]. destruct Hc as [(b & w & sec & -> & ->)|(b & w & sec & idx & -> & ->)]; split_and!; try done.
    destruct Y as [Y _]. by split. }
  assert (views T (<[p := t']> T)) as HV by (by eapply views_insert).
  split; try done.
  - by eapply table_views.
  - intros q Hl. destruct (I3 q Hl) as (b & w & sec & idx & todo & Hq). rewrite lookup_insert_ne; [eauto 10|].
    intros <-. rewrite Hp in Hq. injection Hq as E. by destruct (Hf b w sec idx todo).
  - intros q b w sec idx todo [[<- E]|[_ Hq]]%lookup_insert_Some; [by destruct (Hf b w sec idx todo)|eauto].
  - by eapply owned_views.
  - intros q u [[<- <-]|[_ Hq]]%lookup_insert_Some; [done|eauto].
  - intros q b w sec [[<- E]|[_ Hq]]%lookup_insert_Some; [by destruct (Hs b w sec)|]. eapply sleep_views; [done|by eapply I11].
Qed.

Lemma good_estep c e c' a : good c a -> estep c e c' -> exists a', (e = None /\ a' = a \/ astep a e a') /\ good c' a'.
Proof.
  intros Hg He. destruct He as [s d T l p b w Hp Hb Hr|s d T l b k x Hb|s d T l p b w sec Hp|s d T l p b w sec idx Hp|s d T Hq];
    destruct Hg as [(pub & usd & Hi & Hs) _]; cbn in *.
  - destruct (sim_call_step _ _ _ _ _ p b w (rw_sector (v_bufs s !!! b)) Hs Hp Hb) as (a' & ? & ?). exists a'.
    split; [by right|]. split; [|by left]. exists pub, usd. cbn. split; [by apply inv_call|done].
  - destruct (sim_set _ _ _ _ _ b k x Hs Hb) as (a' & ? & ?). exists a'. split; [by right|]. split; [|by left].
    exists pub, usd. cbn. split; [by apply inv_set|done].
  - exists a. split; [by left|]. split; [|by left]. exists pub, usd. cbn.
    split; [eapply inv_kill; eauto 10|]. by eapply sim_insert.
  - exists a. split; [by left|]. split; [|by left]. exists pub, usd. cbn.
    split; [eapply inv_kill; eauto 10|]. by eapply sim_insert.
  - exists a. split; [by left|]. split; [|by left]. exists pub, usd. cbn. split; [|done].
    eapply inv_lock; [done|done|done|eexists; apply set_irq_id|]. by left.
Qed.

Section Device.
Context (devstep : vd * dev -> vd * dev -> Prop) (Hdev : forall x y, devstep x y -> virtio_spec x y).

Lemma good_dstep c e c' a : good c a -> dstep devstep c e c' -> exists a', (e = None /\ a' = a \/ astep a e a') /\ good c' a'.
Proof.
  intros Hg Hd. destruct Hd as [c p b w sec ? ? ?|s d T p x b w sec idx st todo Hp ->|c p b w sec idx Hx Hl Hp|c p b w sec idx Hx Hl Hp|
    s d T x -> Hq|c ? ? ?|s d T x -> Hq|s d s' d' T l x -> Hstep].
  - exists a. split; [by left|]. by apply good_try.
  - exists a. split; [by left|]. by eapply good_store.
  - eapply good_check; try done. left. eauto.
  - eapply good_check; try done. right. eauto.
  - exists a. split; [by left|]. by apply good_intr.
  - exists a. split; [by left|]. by apply good_turn.
  - exists a. split; [by left|]. by eapply good_intr_end.
  - destruct Hg as [(pub & usd & Hi & Hs) _]; cbn in *.
    destruct (dev_sim _ _ _ _ _ _ _ _ _ Hi Hs (Hdev _ _ Hstep)) as (pub' & usd' & a' & Ha & ? & ?).
    exists a'. split; [|split; [by exists pub', usd'|by left]]. destruct Ha as [->|?]; [by left|by right].
Qed.

Lemma good_exec c0 a0 tr c : good c0 a0 -> exec devstep c0 tr c -> exists a, aexec a0 tr a /\ good c a.
Proof.
  intros Hg He. induction He as [|tr c1 e c2 He IH Hd|tr c1 e c2 He IH Hd].
  - exists a0. split; [constructor|done].
  - destruct IH as (a & Ha & Hg1). destruct (good_dstep _ _ _ _ Hg1 Hd) as (a' & [[-> ->]|Hs] & Hg2).
    + exists a. cbn. by rewrite app_nil_r.
    + exists a'. split; [by eapply ax_step|done].
  - destruct IH as (a & Ha & Hg1). destruct (good_estep _ _ _ _ Hg1 Hd) as (a' & [[-> ->]|Hs] & Hg2).
    + exists a. cbn. by rewrite app_nil_r.
    + exists a'. split; [by eapply ax_step|done].
Qed.
End Device.

(** ** The work that is left *)

Definition wstore (st : store) : Z := match st with SAvail => 8 | SNotify => 2 | _ => 1 end.
Definition wt (t : tst) : Z :=
  match t with
  | TDesc _ _ _ _ => 60
  | TFill _ _ _ _ todo => 2 + total wstore todo
  | TWait _ _ _ _ aw => if aw then 1 else 0
  end.
Definition wsum (T : gmap Z tst) : Z := total (fun x => wt x.2) (map_to_list T).

(** A bound on the steps left, the unsuccessful calls of [alloc3_desc] apart:
    the weight of each call, of each chain by how far it has come, of a pending
    interrupt, of a notification and of the handler. *)
Definition work (c : cfg) : Z :=
  wsum (c_thr c) + 7 * u16 (v_aidx (c_vd c) - last_avail (c_dev c)) +
  6 * Z.of_nat (length (taken (c_dev c))) + 5 * Z.of_nat (length (served (c_dev c))) +
  2 * u16 (v_uidx (c_vd c) - v_used_idx (c_vd c)) + 2 * v_irq (c_vd c) +
  (if v_kick (c_vd c) then 1 else 0) +
  match c_lock c with LIntr => 1 | _ => 0 end.

Lemma total_perm {A} (f : A -> Z) l l' : l ≡ₚ l' -> total f l = total f l'.
Proof. induction 1; cbn; lia. Qed.

Lemma total_map {A B} (f : B -> Z) (g : A -> B) l : total f (g <$> l) = total (fun x => f (g x)) l.
Proof. induction l as [|x l IH]; [done|]. cbn. by rewrite IH. Qed.

Lemma wsum_delete T p t : T !! p = Some t -> wsum T = wt t + wsum (delete p T).
Proof.
  intros Hp. unfold wsum. rewrite <- (total_perm _ _ _ (map_to_list_delete T p t Hp)). done.
Qed.

Lemma wsum_insert T p t t' : T !! p = Some t -> wsum (<[p := t']> T) = wsum T - wt t + wt t'.
Proof.
  intros Hp. rewrite (wsum_delete T p t Hp), (wsum_delete (<[p := t']> T) p t') by apply lookup_insert_eq.
  rewrite delete_insert_eq. lia.
Qed.

Lemma wsum_woken W T : (forall b, CBuf b ∉ W) -> wsum (woken W <$> T) = wsum T.
Proof.
  intros HW. unfold wsum. rewrite map_to_list_fmap, total_map.
  generalize (map_to_list T). induction l as [|[k t] l IH]; [done|]. cbn [total]. rewrite IH. f_equal. cbn.
  destruct t as [? ? ? []| |b ? ? ? []]; cbn; try done. by rewrite bool_decide_eq_false_2 by apply HW.
Qed.

(** One more entry on a ring, or one less. *)
Lemma dist_inc x y : u16 (u16 (x + 1) - y) <= u16 (x - y) + 1.
Proof. unfold u16. dlia. Qed.
Lemma dist_dec x y : 0 <= x < 2 ^ 16 -> 0 <= y < 2 ^ 16 -> y <> x -> u16 (x - u16 (y + 1)) = u16 (x - y) - 1.
Proof. unfold u16. intros. dlia. Qed.

Lemma u16_range x : 0 <= u16 x < 2 ^ 16.
Proof. unfold u16. apply Z.mod_pos_bound. lia. Qed.

Ltac wsimp := cbn [set_kick c_vd c_dev c_thr c_lock c_panic last_avail taken served v_aidx v_uidx v_used_idx v_irq v_kick length
  set_irq set_used set_status set_used_idx set_wakes set_vbuf set_free turned calm exec_store set_avail set_desc set_ops
  set_info_b wt total wstore].

(** A turn of the handler wakes at most the owner of the chain. *)
Lemma woken_one T free p t : table T free -> T !! p = Some t -> woken [CBuf (tbuf t)] <$> T = <[p := woken [CBuf (tbuf t)] t]> T.
Proof.
  intros HT Hp. apply map_eq. intros q. rewrite lookup_fmap. destruct (decide (q = p)) as [->|Hne].
  - by rewrite lookup_insert_eq, Hp.
  - rewrite lookup_insert_ne by done. destruct (T !! q) as [u|] eqn:Hq; [|done]. cbn. f_equal.
    assert (tbuf u <> tbuf t) as Hb by (intros E; apply Hne; by eapply (tb_bufs _ _ HT)).
    destruct u as [? ? ? []| |b ? ? ? []]; cbn in *; try done; rewrite bool_decide_eq_false_2; try done; set_solver.
Qed.

Lemma woken_wt W t : wt (woken W t) <= wt t + 1.
Proof. destruct t as [? ? ? []| |b ? ? ? []]; cbn; try lia. case_bool_decide; lia. Qed.

Lemma serve_kick h s p s' p' : serve h s p = Some (s', p') -> v_kick s' = v_kick s.
Proof.
  unfold serve. destruct (parse_chain h s) as [[[[r b] w] st]|]; [|done]. cbn.
  repeat (case_match; try done); by intros [= <- <-].
Qed.

Section Work.
Context (c : cfg) (pub usd : list Z) (Hi : inv (c_vd c) (c_dev c) (c_thr c) (c_lock c) pub usd).

Lemma work_dev s' d' : virtio_spec (c_vd c, c_dev c) (s', d') ->
  work (Cfg s' d' (c_thr c) (c_lock c) (c_panic c)) < work c.
Proof.
  destruct c as [s d T l x]; cbn in *. pose proof (iv_rings _ _ _ _ _ _ Hi) as [R1 R2 R3 R4 R5 R6].
  assert (0 <= v_aidx s < 2 ^ 16) by (rewrite R2; apply u16_range). clear R2 R3 R5 R6.
  intros Hv. inversion Hv as [? la tk sv p f Hne|? la tk sv p f Hk ?|? la t1 h t2 sv p f ? ? Hsv|? la t1 h t2 sv p f r b w st Hpc|? la t1 h t2 sv p f ? Hsv|? la tk s1 h s2 p f]; subst; unfold work; cbn [last_avail] in *; wsimp.
  - rewrite dist_dec by done. rewrite length_app. wsimp. lia.
  - rewrite Hk. lia.
  - destruct (owner _ _ _ _ _ _ h Hi) as (q & t & i1 & i2 & Hq & Hps & Hix & Hf & Hd & Hsec & Hr & _); [unfold heads; cbn; set_solver|].
    rewrite (serve_kick _ _ _ _ _ Hsv). rewrite (fmt_serve _ _ _ _ _ _ _ p Hf Hr Hsec) in Hsv. injection Hsv as Hsv.
    destruct (served_drv _ _ _ _ _ _ _ Hsv) as ([] & _ & -> & -> & -> & _). rewrite dr_aidx, !length_app. wsimp. lia.
  - rewrite !length_app. wsimp. lia.
  - destruct (owner _ _ _ _ _ _ h Hi) as (q & t & i1 & i2 & Hq & Hps & Hix & Hf & Hd & Hsec & Hr & _); [unfold heads; cbn; set_solver|].
    by rewrite (fmt_serve _ _ _ _ _ _ _ _ Hf Hr Hsec) in Hsv.
  - pose proof (dist_inc (v_uidx s) (v_used_idx s)). rewrite !length_app. wsimp.
    destruct (iv_irq _ _ _ _ _ _ Hi) as [[-> _]| ->]; [change (Z.lor 0 1) with 1|change (Z.lor 1 1) with 1]; lia.
Qed.

Lemma work_store p b w sec idx st todo : c_thr c !! p = Some (TFill b w sec idx (st :: todo)) ->
  work (Cfg (exec_store st (c_vd c)) (c_dev c) (<[p := TFill b w sec idx todo]> (c_thr c)) (c_lock c) (c_panic c)) < work c.
Proof.
  intros Hp. unfold work. wsimp. rewrite (wsum_insert _ _ _ _ Hp).
  pose proof (dist_inc (v_aidx (c_vd c)) (last_avail (c_dev c))). destruct st; wsimp; destruct (v_kick (c_vd c)); lia.
Qed.

Lemma work_check p t b w sec idx : c_thr c !! p = Some t -> at_check t p (c_lock c) b w sec idx ->
  work (check_done p b w sec idx c) < work c.
Proof.
  destruct c as [s d T l x]; cbn in *. intros Hp Hc. destruct (at_check_posted _ _ _ _ _ _ _ Hc) as (Hps & _ & _ & _ & Ei & Hl).
  assert (0 < wt t) as Hw by (by destruct Hc as [[-> ->]|[-> ->]]).
  assert (match l with LIntr => 1 | _ => 0 end = 0) as El by (by destruct l).
  unfold check_done. cbn. destruct (_ =? 1); unfold work; wsimp.
  - rewrite (wsum_insert _ _ _ _ Hp). wsimp. lia.
  - destruct idx as [[i0 i1] i2]. cbn [fst]. rewrite (rw_finish_ok _ _ _ _ _ _ _ _ _ _ _ Hi Hp Hps Ei). unfold after.
    rewrite ended_wakes, (iv_wakes _ _ _ _ _ _ Hi). destruct (ended_ok s i0 i1 i2) as [_ _ Eq _ Ea _ Eu Es _ _].
    cbn [app c_vd c_dev c_thr c_lock]. change (v_kick (calm _)) with (v_kick s). rewrite Eq, Ea, Eu, Es, <- fmap_delete, wsum_woken by set_solver.
    rewrite (wsum_delete _ _ _ Hp). lia.
Qed.

Lemma work_intr : c_lock c = LNone -> v_irq (c_vd c) <> 0 ->
  work (Cfg (set_irq (Z.land (v_irq (c_vd c)) (Z.lnot (Z.land (v_irq (c_vd c)) 3))) (c_vd c)) (c_dev c) (c_thr c) LIntr (c_panic c)) < work c.
Proof.
  intros Hl Hq. unfold work. rewrite Hl. wsimp. destruct (iv_irq _ _ _ _ _ _ Hi) as [[? _]|E]; [done|]. rewrite E.
  change (Z.land 1 _) with 0. lia.
Qed.

Lemma work_intr_end : c_lock c = LIntr -> work (Cfg (c_vd c) (c_dev c) (c_thr c) LNone (c_panic c)) < work c.
Proof. intros Hl. unfold work. rewrite Hl. wsimp. lia. Qed.

Lemma work_turn : c_lock c = LIntr -> v_used_idx (c_vd c) <> v_uidx (c_vd c) ->
  let c' := after c (intr_turn (c_vd c)) (fun _ T => T) LIntr in
  work c' < work c \/ (work c' = work c /\ failed (c_dev c) = true).
Proof.
  destruct c as [s d T l x]; cbn in *. intros -> Hne. pose proof (iv_rings _ _ _ _ _ _ Hi) as [R1 R2 R3 R4 R5 R6].
  assert (0 <= v_uidx s < 2 ^ 16) by (rewrite R5; apply u16_range). destruct usd as [|h usd'].
  { exfalso. apply Hne. rewrite R5. unfold u16. cbn. rewrite Z.add_0_r, Z.mod_small; lia. }
  destruct (seg_pop _ _ _ _ R6) as [Hh _].
  destruct (owner _ _ _ _ _ _ h Hi) as (p & t & i1 & i2 & Hp & Hps & Hix & Hf & _); [unfold heads; set_solver|].
  rewrite (intr_turn_eq s h (tbuf t)); [|done|apply Hf]. rewrite (iv_wakes _ _ _ _ _ _ Hi). cbn [app].
  destruct (v_status s !!! h =? 0) eqn:Est; unfold after; cbn [c_vd c_dev c_thr c_panic v_wakes set_wakes].
  - left. unfold work. cbn [c_thr c_vd c_dev c_lock]. rewrite (woken_one _ _ _ _ (iv_table _ _ _ _ _ _ Hi) Hp), (wsum_insert _ _ _ _ Hp).
    pose proof (woken_wt [CBuf (tbuf t)] t). wsimp. rewrite dist_dec by done. lia.
  - right. split; [done|]. destruct (iv_status _ _ _ _ _ _ Hi h) as [?|[_ ?]]; [set_solver|lia|done].
Qed.

Lemma work_try p b w sec : c_lock c = LNone -> c_thr c !! p = Some (TDesc b w sec true) ->
  (exists i, in_range i /\ v_free (c_vd c) !!! i = 0 /\ work (try_desc p b w sec c) = work c) \/
  work (try_desc p b w sec c) < work c.
Proof.
  destruct c as [s d T l x]; cbn in *. intros -> Hp. unfold try_desc. cbn.
  destruct (alloc3_ok s) as [(i0 & i1 & i2 & -> & _)|(s' & -> & [[] Hfr Hd (i & Hr & Hf0) Hw])]; unfold work, after; wsimp.
  - right. cbn [v_wakes set_free]. rewrite (iv_wakes _ _ _ _ _ _ Hi), woken_none, (wsum_insert _ _ _ _ Hp). wsimp. unfold rw_stores. cbn [format_stores publish_stores app]. wsimp. lia.
  - left. exists i. split_and!; try done. rewrite un_aidx, un_uidx, un_used, un_irq, un_kick.
    rewrite (wsum_insert _ _ (TDesc b w sec true)) by (by rewrite lookup_fmap, Hp). rewrite wsum_woken; [wsimp; lia|].
    intros b' Hb'%Hw. rewrite (iv_wakes _ _ _ _ _ _ Hi) in Hb'. set_solver.
Qed.
End Work.

(** ** The notification *)

(** A call is about to notify the device. *)
Definition notifying (T : gmap Z tst) (l : holder) : Prop :=
  exists p b w sec idx, l = LThr p /\ T !! p = Some (TFill b w sec idx [SNotify]).

(** A request that the device has not taken has been notified or will be. *)
Definition kicked (c : cfg) : Prop :=
  last_avail (c_dev c) <> v_aidx (c_vd c) -> v_kick (c_vd c) = true \/ notifying (c_thr c) (c_lock c).

(** A step that leaves the available ring and the notification alone. *)
Definition same_kick (c c' : cfg) : Prop :=
  c_dev c' = c_dev c /\ v_aidx (c_vd c') = v_aidx (c_vd c) /\ v_kick (c_vd c') = v_kick (c_vd c).

Lemma kicked_keep c c' : same_kick c c' -> (notifying (c_thr c) (c_lock c) -> notifying (c_thr c') (c_lock c')) ->
  kicked c -> kicked c'.
Proof. unfold kicked. intros (-> & -> & ->) Hn Hk Hne. destruct (Hk Hne) as [?|?]; auto. Qed.

Lemma not_notifying T p b w sec idx todo : T !! p = Some (TFill b w sec idx todo) -> todo <> [SNotify] ->
  ~ notifying T (LThr p).
Proof. intros Hp Hne (q & b' & w' & sec' & idx' & [= <-] & Hq). congruence. Qed.

Lemma none_notifying T l : (forall p, l <> LThr p) -> ~ notifying T l.
Proof. intros Hl (p & _ & _ & _ & _ & E & _). by apply (Hl p). Qed.

Lemma same_after {A} c (r : res vd A) k l :
  (forall a s, r = Ok a s -> v_aidx s = v_aidx (c_vd c) /\ v_kick s = v_kick (c_vd c)) -> same_kick c (after c r k l).
Proof. destruct r; intros H; [|done..]. by destruct (H _ _ eq_refl). Qed.

Lemma same_turn s a s' : intr_turn s = Ok a s' -> v_aidx s' = v_aidx s /\ v_kick s' = v_kick s.
Proof. unfold intr_turn. cbn. unfold mbind, M_bind, gets. destruct (negb _); [done|]. by intros [= _ <-]. Qed.

Lemma same_try s a s' : alloc3_desc s = Ok a s' -> v_aidx s' = v_aidx s /\ v_kick s' = v_kick s.
Proof. destruct (alloc3_ok s) as [(i0 & i1 & i2 & -> & _)|(s1 & -> & [[] _ _ _ _])]; by intros [= _ <-]. Qed.

Lemma same_check c pub usd p t b w sec idx : inv (c_vd c) (c_dev c) (c_thr c) (c_lock c) pub usd ->
  c_thr c !! p = Some t -> at_check t p (c_lock c) b w sec idx -> same_kick c (check_done p b w sec idx c).
Proof.
  intros Hi Hp Hc. destruct (at_check_posted _ _ _ _ _ _ _ Hc) as (Hps & _ & _ & _ & Ei & _).
  unfold check_done. destruct (_ =? 1); [done|]. apply same_after. destruct idx as [[i0 i1] i2]. cbn [fst].
  rewrite (rw_finish_ok _ _ _ _ _ _ _ _ _ _ _ Hi Hp Hps Ei). by intros a s [= _ <-].
Qed.

Lemma check_not_notifying T p l t b w sec idx : T !! p = Some t -> at_check t p l b w sec idx -> ~ notifying T l.
Proof. intros Hp [[-> ->]|[-> _]]; [by eapply not_notifying|by apply none_notifying]. Qed.

(** The device forgets a notification only when it has taken all requests. *)
Lemma dev_kick s d T l pub usd s' d' : inv s d T l pub usd -> virtio_spec (s, d) (s', d') ->
  last_avail d' <> v_aidx s' -> last_avail d <> v_aidx s /\ v_kick s' = v_kick s.
Proof.
  intros Hi Hv. inversion Hv as [? la tk sv p f Hne|? la tk sv p f Hk ?|? la t1 h t2 sv p f ? ? Hsv|? la t1 h t2 sv p f r b w st Hpc|? la t1 h t2 sv p f ? Hsv|? la tk s1 h s2 p f]; subst; cbn; try done.
  1,2: destruct (owner _ _ _ _ _ _ h Hi) as (q & t & i1 & i2 & Hq & Hps & Hix & Hf & Hd & Hsec & Hr & _); [unfold heads; cbn; set_solver|].
  - rewrite (serve_kick _ _ _ _ _ Hsv). rewrite (fmt_serve _ _ _ _ _ _ _ p Hf Hr Hsec) in Hsv. injection Hsv as Hsv.
    by destruct (served_drv _ _ _ _ _ _ _ Hsv) as ([] & _ & _); rewrite dr_aidx.
  - by rewrite (fmt_serve _ _ _ _ _ _ _ _ Hf Hr Hsec) in Hsv.
Qed.

Lemma kicked_store s d T p pub usd b w sec idx st todo : inv s d T (LThr p) pub usd ->
  T !! p = Some (TFill b w sec idx (st :: todo)) -> kicked (Cfg s d T (LThr p) None) ->
  kicked (Cfg (exec_store st s) d (<[p := TFill b w sec idx todo]> T) (LThr p) None).
Proof.
  intros Hi Hp Hk. pose proof (fun H => not_notifying _ _ _ _ _ _ _ Hp H) as Hn.
  destruct (fill_stage _ _ _ _ _ _ _ _ (iv_thr _ _ _ _ _ _ Hi p _ Hp)) as [(rest & -> & Ho & _)|[(-> & -> & _)|[(-> & -> & _)|(-> & -> & _)]]].
  - apply (kicked_keep (Cfg s d T (LThr p) None)); [by destruct st| |done].
    intros H. exfalso. revert H. apply Hn. by destruct rest, idx as [[? ?] ?].
  - apply (kicked_keep (Cfg s d T (LThr p) None)); [done| |done].
    intros H. exfalso. revert H. by apply Hn.
  - intros _. right. exists p, b, w, sec, idx. cbn. by rewrite lookup_insert_eq.
  - intros _. by left.
Qed.

Lemma kicked_insert T l p t t' : T !! p = t -> (forall b w sec idx todo, t <> Some (TFill b w sec idx todo)) ->
  notifying T l -> notifying (<[p := t']> T) l.
Proof.
  intros Hp Hf (q & b & w & sec & idx & -> & Hq). exists q, b, w, sec, idx. split; [done|].
  rewrite lookup_insert_ne; [done|]. intros <-. rewrite Hp in Hq. by apply Hf in Hq.
Qed.

Lemma kicked_estep c e c' : estep c e c' -> kicked c -> kicked c'.
Proof.
  intros He. destruct He as [s d T l p b w Hp ? ?|s d T l b k x ?|s d T l p b w sec Hp|s d T l p b w sec idx Hp|s d T ?];
    (apply kicked_keep; [done|cbn]); try done; try by eapply kicked_insert.
  intros Hn. by apply none_notifying in Hn.
Qed.

Section Kicked.
Context (devstep : vd * dev -> vd * dev -> Prop) (Hdev : forall x y, devstep x y -> virtio_spec x y).

Lemma kicked_dstep c a e c' : good c a -> dstep devstep c e c' -> kicked c -> kicked c'.
Proof.
  intros [(pub & usd & Hi & Hs) _] Hd.
  destruct Hd as [c p b w sec ? Hl ?|s d T p x b w sec idx st todo Hp ->|c p b w sec idx Hx Hl Hp|c p b w sec idx Hx Hl Hp|
    s d T x -> Hq|c ? Hl ?|s d T x -> Hq|s d s' d' T l x -> Hstep].
  - apply kicked_keep; [apply same_after, same_try|]. rewrite Hl. intros Hn. by apply none_notifying in Hn.
  - by eapply kicked_store.
  - assert (at_check (TFill b w sec idx []) p (c_lock c) b w sec idx) as Hc by (left; done).
    apply kicked_keep; [by eapply same_check|]. intros Hn. by apply (check_not_notifying _ _ _ _ _ _ _ _ Hp Hc) in Hn.
  - assert (at_check (TWait b w sec idx true) p (c_lock c) b w sec idx) as Hc by (right; done).
    apply kicked_keep; [by eapply same_check|]. intros Hn. by apply (check_not_notifying _ _ _ _ _ _ _ _ Hp Hc) in Hn.
  - apply kicked_keep; [done|]. intros Hn. by apply none_notifying in Hn.
  - apply kicked_keep; [apply same_after, same_turn|]. rewrite Hl. intros Hn. by apply none_notifying in Hn.
  - apply kicked_keep; [done|]. intros Hn. by apply none_notifying in Hn.
  - intros Hk Hne. cbn in *. destruct (dev_kick _ _ _ _ _ _ _ _ Hi (Hdev _ _ Hstep) Hne) as [Hne' ->]. by apply Hk.
Qed.

Lemma kicked_exec c0 a0 tr c : good c0 a0 -> kicked c0 -> exec devstep c0 tr c -> kicked c.
Proof.
  intros Hg Hk He. induction He as [|tr c1 e c2 He IH Hd|tr c1 e c2 He IH Hd]; [done|..].
  - destruct (good_exec _ Hdev _ _ _ _ Hg He) as (a & _ & Hg1). by eapply kicked_dstep.
  - by eapply kicked_estep.
Qed.
End Kicked.

Section Progress.
Context (devstep : vd * dev -> vd * dev -> Prop) (Hdev : forall x y, devstep x y -> virtio_spec x y)
  (Hlive : responsive devstep).

Lemma dstep_work c a e c' : good c a -> dstep devstep c e c' -> work c' <= work c.
Proof.
  intros [(pub & usd & Hi & Hs) _] Hd.
  destruct Hd as [c p b w sec ? ? ?|s d T p x b w sec idx st todo Hp ->|c p b w sec idx Hx Hl Hp|c p b w sec idx Hx Hl Hp|
    s d T x -> Hq|c ? ? ?|s d T x -> Hq|s d s' d' T l x -> Hstep].
  - destruct (work_try _ _ _ Hi p b w sec) as [(_ & _ & _ & ->)|?]; try done; lia.
  - apply Z.lt_le_incl. exact (work_store (Cfg s d T (LThr p) None) p b w sec idx st todo Hp).
  - eapply Z.lt_le_incl, work_check; try done. left. eauto.
  - eapply Z.lt_le_incl, work_check; try done. right. eauto.
  - by apply Z.lt_le_incl, (work_intr (Cfg s d T LNone None) _ _ Hi).
  - destruct (work_turn _ _ _ Hi) as [?|[-> _]]; try done; lia.
  - by apply Z.lt_le_incl, (work_intr_end (Cfg s d T LIntr None)).
  - apply Z.lt_le_incl, (work_dev (Cfg s d T l None) _ _ Hi). by apply Hdev.
Qed.

(** A published request that the device has not taken is seen in the index. *)
Lemma pub_index s d T l pub usd : inv s d T l pub usd -> pub <> [] -> last_avail d <> v_aidx s.
Proof.
  intros Hi Hne. destruct (iv_rings _ _ _ _ _ _ Hi) as [R1 R2 R3 _ _ _]. rewrite R2.
  assert (length pub <= length (seqZ 0 8))%nat as Hlen.
  { apply submseteq_length, NoDup_submseteq.
    - pose proof (iv_nodup _ _ _ _ _ _ Hi) as Hn. unfold heads in Hn. by apply NoDup_app in Hn as (? & _).
    - intros x Hx. pose proof (heads_range _ _ _ _ _ _ Hi) as Hr. rewrite Forall_forall in Hr.
      assert (in_range x) as Hx' by (apply Hr; unfold heads; set_solver). apply elem_of_seqZ. unfold in_range, NUM in Hx'. lia. }
  rewrite length_seqZ in Hlen. destruct pub as [|h pub]; [done|]. unfold u16. cbn [length] in *. dlia.
Qed.

(** Something is in flight and nobody fills in a request: the device moves. *)
Lemma device_moves s d T pub usd : inv s d T LNone pub usd -> kicked (Cfg s d T LNone None) ->
  pub ++ taken d ++ served d <> [] -> exists y, devstep (s, d) y.
Proof.
  intros Hi Hk Hne. apply Hlive. destruct pub as [|h pub].
  - right. destruct (taken d); [right|left]; done.
  - left. destruct Hk as [?|H]; [by eapply pub_index|done|]. by apply none_notifying in H.
Qed.

(** Nothing is in flight and nobody is awake after a transfer: the calls wait
    for descriptors, and all of them are free. *)
Lemma only_desc s d T usd p t : inv s d T LNone [] usd -> taken d = [] -> served d = [] -> usd = [] ->
  (forall q b w sec idx, T !! q <> Some (TWait b w sec idx true)) -> T !! p = Some t ->
  (exists b w sec, t = TDesc b w sec true) /\ forall i, in_range i -> v_free s !!! i <> 0.
Proof.
  intros Hi E1 E2 -> Hno Hp. pose proof Hi as [I1 I2 I3 I4 I5 I6 I7 I8 I9 I10 I11].
  assert (heads d [] [] = []) as EH by (unfold heads; by rewrite E1, E2).
  assert (forall q u, T !! q = Some u -> exists b w sec aw, u = TDesc b w sec aw) as Hall.
  { intros q u Hq. destruct u as [|b w sec idx todo|b w sec idx aw]; [eauto|by apply I4 in Hq|].
    destruct aw; [by destruct (Hno q b w sec idx)|]. destruct (I7 q _ Hq) as [_ [[_ Hd] Hs]]. specialize (Hs eq_refl).
    rewrite EH in Hd. destruct Hd as [[_ Hin]|[? _]]; [set_solver|congruence]. }
  assert (forall q u, T !! q = Some u -> slots u = []) as Hsl by (intros q u (? & ? & ? & ? & ->)%Hall; done).
  split.
  - destruct (Hall p t Hp) as (b & w & sec & [] & ->); [eauto|]. destruct (I11 p b w sec Hp) as (q & u & Hq & Hs). by destruct Hs; eapply Hsl.
  - intros i Hr. apply (tb_free _ _ I1 i Hr). intros q u Hq. rewrite (Hsl q u Hq). set_solver.
Qed.

Definition awake_wait (t : tst) : bool := match t with TWait _ _ _ _ aw => aw | _ => false end.

Lemma lock_moves c a : good c a -> c_panic c = None -> failed (c_dev c) = false -> c_lock c <> LNone ->
  exists e c', dstep devstep c e c' /\ work c' < work c.
Proof.
  destruct c as [s d T l x]. intros [(pub & usd & Hi & Hs) _] Hx Hf Hl; cbn in *. subst x. destruct l as [|p|]; [done|..].
  - destruct (iv_lock _ _ _ _ _ _ Hi p eq_refl) as (b & w & sec & idx & todo & Hp). destruct todo as [|st todo].
    + do 2 eexists. split; [by eapply ds_filled|]. eapply work_check; try done. by left.
    + do 2 eexists. split; [by eapply ds_store|]. by eapply (work_store (Cfg s d T (LThr p) None)).
  - destruct (decide (v_used_idx s = v_uidx s)) as [E|E].
    + do 2 eexists. split; [by apply ds_intr_end|]. by apply (work_intr_end (Cfg s d T LIntr None)).
    + do 2 eexists. split; [by apply ds_turn|].
      destruct (work_turn (Cfg s d T LIntr None) _ _ Hi) as [?|[_ ?]]; try done. cbn in *. congruence.
Qed.

Lemma some_moves c a : good c a -> kicked c -> c_panic c = None -> failed (c_dev c) = false -> c_thr c <> ∅ ->
  exists e c', dstep devstep c e c' /\ work c' < work c.
Proof.
  intros Hg Hk Hx Hf HT. destruct (decide (c_lock c = LNone)) as [Hl|Hl]; [|by eapply lock_moves].
  destruct c as [s d T l x]. destruct Hg as [(pub & usd & Hi & Hs) _]; cbn in *. subst x l.
  destruct (decide (v_irq s = 0)) as [Hq|Hq].
  2:{ do 2 eexists. split; [by apply ds_intr|]. by apply (work_intr (Cfg s d T LNone None) _ _ Hi). }
  assert (usd = []) as -> by (destruct (iv_irq _ _ _ _ _ _ Hi) as [[_ Hu]|?]; [by apply Hu|congruence]).
  destruct (decide (pub ++ taken d ++ served d = [])) as [E|E].
  2:{ destruct (device_moves _ _ _ _ _ Hi Hk E) as [[s' d'] Hy]. do 2 eexists. split; [by apply ds_dev|].
      apply (work_dev (Cfg s d T LNone None) _ _ Hi). by apply Hdev. }
  apply app_eq_nil in E as [-> [E1 E2]%app_eq_nil].
  destruct (decide (map_Forall (fun _ t => awake_wait t = false) T)) as [Hall|Hex].
  - apply map_choose in HT as (p & t & Hp).
    destruct (only_desc _ _ _ _ p t Hi E1 E2 eq_refl) as [(b & w & sec & ->) Hfree]; [|done|].
    { intros q b w sec idx Hq'. by apply (Hall q _) in Hq'. }
    do 2 eexists. split; [by eapply ds_try|]. cbn.
    destruct (work_try (Cfg s d T LNone None) _ _ Hi p b w sec) as [(i & Hr & H0 & _)|?]; try done. by destruct (Hfree i Hr).
  - apply map_not_Forall in Hex as (p & t & Hp & Hex); [|apply _].
    destruct t as [| |b w sec idx []]; try (by destruct Hex).
    do 2 eexists. split; [by eapply ds_check|]. eapply work_check; try done. by right.
Qed.
End Progress.

(** ** After [virtio_disk_init] *)

Definition vd_ready (bufs : gmap Z vbuf) : vd := free_all 0 (Z.to_nat NUM) (vd_bss bufs).

Lemma wreg_ok r v s x s1 : wreg r v s = Ok x s1 -> b_vd s1 = b_vd s.
Proof. by intros [= _ <-]. Qed.
Lemma on_vd_ok g s x s1 : on_vd g s = Ok x s1 -> b_vd s1 = g (b_vd s).
Proof. by intros [= _ <-]. Qed.

Lemma init_vd rd desc avail used z z' :
  virtio_disk_init rd desc avail used z = Ok tt z' ->
  b_vd z' = free_all 0 (Z.to_nat NUM) (set_used ∅ 0 (set_avail ∅ 0 (Vd ∅ (v_aring (b_vd z)) (v_aidx (b_vd z)) (v_uring (b_vd z))
    (v_uidx (b_vd z)) (v_free (b_vd z)) (v_used_idx (b_vd z)) (v_info_b (b_vd z)) (v_status (b_vd z)) (v_ops (b_vd z))
    (v_bufs (b_vd z)) (v_irq (b_vd z)) (v_kick (b_vd z)) (v_wakes (b_vd z))))).
Proof.
  unfold virtio_disk_init. cbv zeta. destruct (_ || _ || _ || _); [discriminate|]. intros H.
  do 5 (apply bind_ok in H as (? & ? & E%wreg_ok & H); rewrite <- E; clear E).
  destruct (_ =? 0); [discriminate|]. apply bind_ok in H as (? & ? & E%wreg_ok & H). rewrite <- E. clear E.
  destruct (negb _); [discriminate|]. destruct (_ =? 0); [discriminate|]. destruct (_ <? NUM); [discriminate|].
  destruct (_ || _ || _); [discriminate|].
  do 3 (apply bind_ok in H as (? & ? & E%on_vd_ok & H); rewrite <- E; clear E).
  do 8 (apply bind_ok in H as (? & ? & E%wreg_ok & H); rewrite <- E; clear E).
  apply bind_ok in H as (? & ? & E%on_vd_ok & H). rewrite <- E. by eapply wreg_ok.
Qed.

Lemma init_ready rd desc avail used w bufs w' s :
  virtio_disk_init rd desc avail used (Boot w (vd_bss bufs)) = Ok tt (Boot w' s) -> s = vd_ready bufs.
Proof. intros H%init_vd. exact H. Qed.

Lemma free_all_lookup i j k s : i <= j < i + Z.of_nat k -> v_free (free_all i k s) !!! j = 1.
Proof.
  assert (forall i k s, (v_free s !!! j = 1) -> v_free (free_all i k s) !!! j = 1) as Hkeep.
  { clear i k s. intros i k. revert i. induction k as [|k IH]; intros i s H; [done|]. apply IH. cbn. ltot. }
  revert i s. induction k as [|k IH]; intros i s Hj; [lia|]. cbn [free_all]. destruct (decide (i = j)) as [->|].
  - apply Hkeep. cbn. ltot.
  - apply IH. lia.
Qed.

(** The cache and the disk that a state of the driver starts from. *)
Definition bc_of (bufs : gmap Z vbuf) (p : diskT) : bcache :=
  Bcache ((fun x => Buf false 0 (vb_blockno x) false 0 0 0 (vb_data x)) <$> bufs) p [p].

Lemma good_boot bufs p : good (cfg_boot (vd_ready bufs) p) (ADisk (bc_of bufs p) ∅).
Proof.
  split; [|by left]. exists [], []. cbn [c_vd c_dev c_thr c_lock cfg_boot]. split.
  - split; try done.
    + split; try done. intros i Hi. unfold vd_ready. rewrite free_all_lookup by (unfold in_range, NUM in *; lia). done.
    + unfold heads. cbn. constructor.
    + unfold heads. cbn. set_solver.
    + cbn. set_solver.
    + left. done.
  - split; try done.
    + intros b. change (v_bufs _) with bufs. rewrite lookup_total_alt. unfold bufat, bc_of. cbn. rewrite lookup_fmap. by destruct (bufs !! b).
    + intros b. change (v_bufs _) with bufs. rewrite lookup_total_alt. unfold bufat, bc_of. cbn. rewrite lookup_fmap. by destruct (bufs !! b).
Qed.

Lemma kicked_boot bufs p : kicked (cfg_boot (vd_ready bufs) p).
Proof. intros H. by destruct H. Qed.

(** ** A device that serves the requests in order *)

(** It looks at the available ring only when it has been notified. *)
Definition fifo (x : vd * dev) : option (vd * dev) :=
  let '(s, Dev la tk sv p f) := x in
  if v_kick s then
    if la =? v_aidx s then Some (set_kick false s, Dev la tk sv p f)
    else Some (s, Dev (u16 (la + 1)) (tk ++ [v_aring s !!! (la mod NUM)]) sv p f)
  else match tk with
  | h :: tk => match serve h s p with
               | Some (s', p') => Some (s', Dev la tk (sv ++ [h]) p' f)
               | None => Some x
               end
  | [] => match sv with
          | h :: sv => Some (set_irq (Z.lor (v_irq s) 1) (set_used (<[v_uidx s mod NUM := h]> (v_uring s)) (u16 (v_uidx s + 1)) s),
                             Dev la [] sv p f)
          | [] => None
          end
  end.
Definition fifo_step (x y : vd * dev) : Prop := fifo x = Some y.

Lemma fifo_spec x y : fifo_step x y -> virtio_spec x y.
Proof.
  destruct x as [s [la tk sv p f]]. unfold fifo_step, fifo. destruct (v_kick s) eqn:Ek.
  - destruct (la =? v_aidx s) eqn:E; intros [= <-]; [apply vs_idle; [done|lia]|apply vs_take; lia].
  - destruct tk as [|h tk].
    + destruct sv as [|h sv]; [done|]. intros [= <-]. apply (vs_complete s la [] [] h sv).
    + destruct (serve h s p) as [[s' p']|] eqn:Es; intros [= <-]; [by apply (vs_serve s la [] h tk)|by apply (vs_malformed s la [] h tk)].
Qed.

Lemma fifo_responsive : responsive fifo_step.
Proof.
  unfold responsive, fifo_step. intros s [la tk sv p f] H. cbn in *. destruct (v_kick s); [case_match; by eexists|].
  destruct H as [?|H]; [done|]. destruct tk as [|h tk]; [|destruct (serve h s p) as [[? ?]|]; by eexists].
  destruct sv; [by destruct H|by eexists].
Qed.

(** A schedule for one caller [p]. *)
Definition next (p : Z) (c : cfg) : option (option event * cfg) :=
  match c with
  | Cfg _ _ _ _ (Some _) => None
  | Cfg s d T LIntr None =>
      if v_used_idx s =? v_uidx s then Some (None, Cfg s d T LNone None)
      else Some (None, after c (intr_turn s) (fun _ T => T) LIntr)
  | Cfg s d T (LThr q) None =>
      match T !! q with
      | Some (TFill b w sec idx (st :: todo)) =>
          Some (None, Cfg (exec_store st s) d (<[q := TFill b w sec idx todo]> T) (LThr q) None)
      | Some (TFill b w sec idx []) => Some (done_event q b c, check_done q b w sec idx c)
      | _ => None
      end
  | Cfg s d T LNone None =>
      if negb (v_irq s =? 0) then
        Some (None, Cfg (set_irq (Z.land (v_irq s) (Z.lnot (Z.land (v_irq s) 3))) s) d T LIntr None)
      else match T !! p with
      | Some (TDesc b w sec true) => Some (None, try_desc p b w sec c)
      | Some (TWait b w sec idx true) => Some (done_event p b c, check_done p b w sec idx c)
      | _ => match fifo (s, d) with Some (s', d') => Some (None, Cfg s' d' T LNone None) | None => None end
      end
  end.

Lemma next_dstep p c e c' : next p c = Some (e, c') -> dstep fifo_step c e c'.
Proof.
  destruct c as [s d T [|q|] [?|]]; cbn [next]; try done.
  - destruct (v_irq s =? 0) eqn:E; cbn [negb].
    + destruct (T !! p) as [[b w sec []| |b w sec idx []]|] eqn:Hp.
      1: intros [= <- <-]; by apply ds_try.
      3: intros [= <- <-]; by apply ds_check.
      all: destruct (fifo (s, d)) as [[s' d']|] eqn:Hf; [|done]; intros [= <- <-]; by apply ds_dev.
    + intros [= <- <-]. apply ds_intr; [done|lia].
  - destruct (T !! q) as [[| b w sec idx [|st todo]|]|] eqn:Hq; try done; intros [= <- <-]; [by apply ds_filled|by apply ds_store].
  - destruct (v_used_idx s =? v_uidx s) eqn:E; intros [= <- <-]; [apply ds_intr_end; [done|lia]|].
    apply (ds_turn fifo_step (Cfg s d T LIntr None)); try done. cbn. lia.
Qed.

Fixpoint run (p : Z) (n : nat) (tr : list event) (c : cfg) : list event * cfg :=
  match n with
  | O => (tr, c)
  | S n => match next p c with Some (e, c') => run p n (tr ++ option_list e) c' | None => (tr, c) end
  end.

Lemma run_exec p n c0 tr c : exec fifo_step c0 tr c -> exec fifo_step c0 (run p n tr c).1 (run p n tr c).2.
Proof.
  revert tr c. induction n as [|n IH]; intros tr c H; [done|]. cbn [run].
  destruct (next p c) as [[e c']|] eqn:E; [|done]. apply IH. eapply ex_dstep; [done|]. by eapply next_dstep.
Qed.

(** ** Properties *)

(** C8: The disk driver (virtio_disk_rw, virtio_disk_intr, the descriptor and
    ring handling) together with any device that obeys the virtio specification
    implements the disk of the buffer cache model, on which a call transfers its
    block in one step.  For every interleaving of calls on different buffers, of
    the single stores that publish a request, of interrupts, kills and the
    device, with requests served in any order and 16-bit ring indices that wrap
    around: there is an execution of the atomic disk with the same calls and
    returns, the same data in the buffers at every return, the same disk, and
    the same calls in progress.  No [free_desc] panics; the only panic there can
    be is the report that the device failed a request.  The calls are for blocks
    below 2^31, for which the 32-bit sector number in the request does not wrap
    around, and a buffer is not touched by others while a call uses it. *)
Theorem virtio_atomic (devstep : vd * dev -> vd * dev -> Prop) rd desc avail used bufs p w w' s tr c :
  (forall x y, devstep x y -> virtio_spec x y) ->
  virtio_disk_init rd desc avail used (Boot w (vd_bss bufs)) = Ok tt (Boot w' s) ->
  exec devstep (cfg_boot s p) tr c ->
  exists a, aexec (ADisk (bc_of bufs p) ∅) tr a /\
    disk (a_bc a) = platter (c_dev c) /\
    (forall b, b_data (bufat (a_bc a) b) = vb_data (v_bufs (c_vd c) !!! b)) /\
    (forall q, is_Some (c_thr c !! q) <-> is_Some (a_thr a !! q)) /\
    (c_panic c = None \/ (c_panic c = Some "virtio_disk_intr status"%string /\ failed (c_dev c) = true)).
Proof.
  intros Hdev ->%init_ready Hex. destruct (good_exec _ Hdev _ _ _ _ (good_boot bufs p) Hex) as (a & Ha & [(pub & usd & Hi & Hs) Hp]).
  exists a. split_and!; [done|apply Hs|apply Hs| |done].
  intros q. pose proof (sm_thr _ _ _ _ _ Hs q) as Hq. destruct (c_thr c !! q), (a_thr a !! q); try done; by split; eauto.
Qed.

(** C26: A call of virtio_disk_rw makes progress.  [work] bounds the steps left.
    In every reachable state no step of the kernel or of the device increases
    it, and while a call is in progress and the device has failed no request,
    some step decreases it: the device is notified of every request, no wakeup is
    lost (neither that of the interrupt handler nor that of [free_desc]), no
    completion is missed by acknowledging the interrupt too late, and a call that
    finds no three free descriptors sleeps only while another call holds some.
    The device is assumed to obey the virtio specification and to be
    [responsive]: it goes on with requests it has taken, and looks for new ones
    when QUEUE_NOTIFY has been written, but need not look otherwise.  The calls
    are, as for the previous theorem, for blocks below 2^31. *)
Theorem virtio_progress (devstep : vd * dev -> vd * dev -> Prop) rd desc avail used bufs p w w' s tr c :
  (forall x y, devstep x y -> virtio_spec x y) ->
  responsive devstep ->
  virtio_disk_init rd desc avail used (Boot w (vd_bss bufs)) = Ok tt (Boot w' s) ->
  exec devstep (cfg_boot s p) tr c ->
  c_panic c = None -> failed (c_dev c) = false ->
  (forall e c', dstep devstep c e c' -> work c' <= work c) /\
  (c_thr c <> ∅ -> exists e c', dstep devstep c e c' /\ work c' < work c).
Proof.
  intros Hdev Hlive ->%init_ready Hex Hx Hf. destruct (good_exec _ Hdev _ _ _ _ (good_boot bufs p) Hex) as (a & _ & Hg).
  pose proof (kicked_exec _ Hdev _ _ _ _ (good_boot bufs p) (kicked_boot bufs p) Hex) as Hk.
  split; [intros e c' Hd; by eapply dstep_work|]. intros HT. by eapply some_moves.
Qed.

(** Registers of a device that the driver accepts. *)
Definition qemu (r : Z) : Z :=
  if r =? VIRTIO_MMIO_MAGIC_VALUE then 0x74726976
  else if r =? VIRTIO_MMIO_VERSION then 2
  else if r =? VIRTIO_MMIO_DEVICE_ID then 2
  else if r =? VIRTIO_MMIO_VENDOR_ID then 0x554d4551
  else if r =? VIRTIO_MMIO_STATUS then 11
  else if r =? VIRTIO_MMIO_QUEUE_NUM_MAX then 1024
  else 0.

Lemma qemu_init bufs : exists w', virtio_disk_init qemu 1 2 3 (Boot [] (vd_bss bufs)) = Ok tt (Boot w' (vd_ready bufs)).
Proof. eexists. lazy. reflexivity. Qed.

(** Buffer 5 holds a byte of block 3; a call writes it. *)
Definition demo_bufs : gmap Z vbuf := {[5 := VBuf 3 0 {[0 := 65]}]}.
Definition demo_called : cfg :=
  Cfg (vd_ready demo_bufs) (Dev 0 [] [] ∅ false) {[1 := TDesc 5 true 6 true]} LNone None.

Lemma demo_call : exec fifo_step (cfg_boot (vd_ready demo_bufs) ∅) [ECall 1 5 true] demo_called.
Proof.
  apply (ex_estep fifo_step _ [] (cfg_boot (vd_ready demo_bufs) ∅) (Some (ECall 1 5 true))); [constructor|].
  apply (es_call (vd_ready demo_bufs) _ ∅ LNone 1 5 true); [done|done|by vm_compute].
Qed.

Lemma virtio_atomic_witness :
  let r := run 1 40 [ECall 1 5 true] demo_called in
  r.1 = [ECall 1 5 true; ERet 1 5 {[0 := 65]}] /\ platter (c_dev r.2) = {[3 := {[0 := 65]}]} /\
  exists a, aexec (ADisk (bc_of demo_bufs ∅) ∅) r.1 a /\
    disk (a_bc a) = platter (c_dev r.2) /\
    (forall b, b_data (bufat (a_bc a) b) = vb_data (v_bufs (c_vd r.2) !!! b)) /\
    (forall q, is_Some (c_thr r.2 !! q) <-> is_Some (a_thr a !! q)) /\
    (c_panic r.2 = None \/ (c_panic r.2 = Some "virtio_disk_intr status"%string /\ failed (c_dev r.2) = true)).
Proof.
  cbv zeta. split; [vm_compute; reflexivity|]. split; [vm_compute; reflexivity|].
  destruct (qemu_init demo_bufs) as [w' Hw].
  exact (virtio_atomic fifo_step qemu 1 2 3 demo_bufs ∅ [] w' (vd_ready demo_bufs) _ _ fifo_spec Hw
    (run_exec 1 40 _ _ _ demo_call)).
Defined.

Lemma virtio_progress_witness :
  c_thr demo_called <> ∅ /\
  (forall e c', dstep fifo_step demo_called e c' -> work c' <= work demo_called) /\
  (c_thr demo_called <> ∅ -> exists e c', dstep fifo_step demo_called e c' /\ work c' < work demo_called).
Proof.
  split; [by vm_compute|]. destruct (qemu_init demo_bufs) as [w' Hw].
  exact (virtio_progress fifo_step qemu 1 2 3 demo_bufs ∅ [] w' (vd_ready demo_bufs) _ demo_called fifo_spec fifo_responsive Hw
    demo_call eq_refl eq_refl).
Defined.

(** Two calls that wait for descriptors keep waking each other, since a failed
    [alloc3_desc] returns its descriptors with [free_desc]: the state repeats. *)
Definition spin_vd : vd :=
  Vd {[6 := Desc ANull 0 0 0; 7 := Desc ANull 0 0 0]} ∅ 0 ∅ 0 {[6 := 1; 7 := 1]} 0 ∅ ∅ ∅ ∅ 0 false [].
Definition spin_cfg (aw : bool) : cfg :=
  Cfg spin_vd (Dev 0 [] [] ∅ false) {[1 := TDesc 5 true 6 aw; 2 := TDesc 6 true 8 (negb aw)]} LNone None.

Example waiters_spin :
  try_desc 1 5 true 6 (spin_cfg true) = spin_cfg false /\ try_desc 2 6 true 8 (spin_cfg false) = spin_cfg true.
Proof. split; vm_compute; reflexivity. Qed.
