(* ===== verification/FsDir.v ===== *)
(** * Directories, the inode table and path lookup

    [iget], [ilock], [iunlock], [iput], [dirlookup] and [namex] of kernel/fs.c.
    The disk describes a tree: the entries of a directory are the records of
    its content, and [resolve] follows a path through them.  [namei] returns a
    reference to the inode that [resolve] finds, and leaves the table of
    in-memory inodes as it was but for that reference. *)

From S2P Require Import Prelude Riscv Mem CString BufCache Log Fs FsBlocks FsFile FsPath.

(** ** The inode table *)

Definition ent (t : gmap Z inode) (i : Z) : inode := default inode0 (t !! i).

Lemma ent_insert t i ip j : ent (<[i := ip]> t) j = if decide (i = j) then ip else ent t j.
Proof. unfold ent. rewrite lookup_insert. by case_decide. Qed.

(** What the scan of [iget] finds. *)
Lemma iget_scan_spec t dev inum k : forall i e, 0 <= i ->
  (forall j, e = Some j -> 0 <= j < i /\ i_ref (ent t j) = 0) ->
  (e = None -> forall j, 0 <= j < i -> i_ref (ent t j) <> 0) ->
  match iget_scan t dev inum i e k with
  | inl o => exists j, o = Some j /\ i <= j < i + Z.of_nat k /\
      0 < i_ref (ent t j) /\ i_dev (ent t j) = dev /\ i_inum (ent t j) = inum
  | inr e' =>
      (forall j, i <= j < i + Z.of_nat k -> ~ (0 < i_ref (ent t j) /\ i_dev (ent t j) = dev /\ i_inum (ent t j) = inum)) /\
      match e' with
      | Some j => 0 <= j < i + Z.of_nat k /\ i_ref (ent t j) = 0
      | None => forall j, 0 <= j < i + Z.of_nat k -> i_ref (ent t j) <> 0
      end
  end.
Proof.
  induction k as [|k IH]; intros i e Hi He Hn; cbn [iget_scan].
  - split; [lia|]. destruct e as [j|]; [|intros j Hj; apply Hn; [done|lia]]. destruct (He j eq_refl). lia.
  - fold (ent t i). destruct (_ && _) eqn:E.
    { apply andb_prop in E as [[E1 E2]%andb_prop E3]. bool_to_prop. exists i. repeat split; try done; lia. }
    set (e1 := match e with Some _ => e | None => _ end).
    specialize (IH (i + 1) e1 ltac:(lia)).
    assert (forall j, e1 = Some j -> 0 <= j < i + 1 /\ i_ref (ent t j) = 0) as He1.
    { intros j. unfold e1. destruct e as [j'|]; [intros [= <-]; destruct (He j' eq_refl); lia|].
      destruct (i_ref (ent t i) =? 0) eqn:E0; [|done]. intros [= <-]. bool_to_prop. lia. }
    assert (e1 = None -> forall j, 0 <= j < i + 1 -> i_ref (ent t j) <> 0) as Hn1.
    { unfold e1. destruct e as [j'|]; [done|]. destruct (i_ref (ent t i) =? 0) eqn:E0; [done|]. bool_to_prop. intros _ j Hj.
      destruct (decide (j = i)) as [->|]; [done|]. apply Hn; [done|lia]. }
    specialize (IH He1 Hn1). destruct (iget_scan _ _ _ _ _ _) as [o|e'].
    + destruct IH as (j & -> & Hj & H). exists j. split; [done|]. split; [lia|done].
    + destruct IH as [Hno He']. split.
      * intros j Hj. destruct (decide (j = i)) as [->|Hne]; [|apply Hno; lia]. intros (H1 & H2 & H3).
        rewrite H2, H3, !Z.eqb_refl, (proj2 (Z.gtb_lt _ _)) in E by lia. done.
      * destruct e' as [j|]; [|intros j Hj; apply He'; lia]. lia.
Qed.

(** References gained between two tables; an entry in use keeps its inode. *)
Definition tdelta (D : Z -> Z) (t t' : gmap Z inode) : Prop := forall j,
  i_ref (ent t' j) = i_ref (ent t j) + D j /\
  (0 < i_ref (ent t j) -> i_inum (ent t' j) = i_inum (ent t j) /\ (i_valid (ent t j) = true -> i_valid (ent t' j) = true)).
Definition one (i j : Z) : Z := if decide (i = j) then 1 else 0.

Lemma tdelta_trans D D1 D2 t0 t1 t2 : tdelta D1 t0 t1 -> tdelta D2 t1 t2 ->
  (forall j, 0 < i_ref (ent t0 j) -> 0 < i_ref (ent t0 j) + D1 j) -> (forall j, D j = D1 j + D2 j) -> tdelta D t0 t2.
Proof.
  intros T1 T2 Hp HD j. destruct (T1 j) as [R1 I1], (T2 j) as [R2 I2]. rewrite HD. split; [lia|]. intros Hr.
  destruct (I1 Hr) as [E1 E2]. destruct I2 as [E3 E4]; [rewrite R1; by apply Hp|]. rewrite E3, E1. auto.
Qed.
Lemma one_nonneg i j : 0 <= one i j.
Proof. unfold one. case_decide; lia. Qed.
Lemma one_self i : one i i = 1.
Proof. unfold one. by rewrite decide_True. Qed.
Lemma one_ne i j : i <> j -> one i j = 0.
Proof. unfold one. intros H. by rewrite decide_False. Qed.

Section Dir.
Context (sb : superblock).
Implicit Types (V : diskT) (t : gmap Z inode).

(** The inode [inum] on the disk. *)
Definition iload V (inum : Z) (ip : inode) : inode := dinode_load (dget V (IBLOCK inum sb)) (dinode_off inum) ip.
Definition idisk V (inum : Z) : inode := iload V inum (Inode ROOTDEV inum 0 false true 0 0 0 0 0 []).

Definition same_disk (ip ip' : inode) : Prop :=
  i_type ip' = i_type ip /\ i_major ip' = i_major ip /\ i_minor ip' = i_minor ip /\ i_nlink ip' = i_nlink ip /\
  i_size ip' = i_size ip /\ i_addrs ip' = i_addrs ip.

Lemma iload_same V inum ip ip' : iload V inum ip = ip -> same_disk ip ip' -> iload V inum ip' = ip'.
Proof.
  intros E (E1 & E2 & E3 & E4 & E5 & E6). destruct ip, ip'. cbn in *. subst. unfold iload, dinode_load in *. cbn in *.
  injection E as <- <- <- <- <- <-. done.
Qed.

Definition same_ids (ip ip' : inode) : Prop := i_inum ip' = i_inum ip /\ i_dev ip' = i_dev ip.

(** The table; [lk] is the one inode that is locked. *)
Record itable_ok (lk : option Z) V t : Prop := {
  it_ref i : 0 <= i_ref (ent t i);
  it_range i : 0 < i_ref (ent t i) -> 0 <= i < NINODE;
  it_lock i : i_locked (ent t i) = bool_decide (lk = Some i);
  it_lk i : lk = Some i -> 0 < i_ref (ent t i);
  it_dev i : 0 < i_ref (ent t i) -> i_dev (ent t i) = ROOTDEV;
  it_valid i : 0 < i_ref (ent t i) -> i_valid (ent t i) = true -> iload V (i_inum (ent t i)) (ent t i) = ent t i;
  it_once i j : 0 < i_ref (ent t i) -> 0 < i_ref (ent t j) -> i_inum (ent t i) = i_inum (ent t j) -> i = j
}.

(** One entry changes. *)
Lemma itable_set lk lk' V t i ip : itable_ok lk V t -> 0 <= i < NINODE -> 0 <= i_ref ip -> i_dev ip = ROOTDEV ->
  i_locked ip = bool_decide (lk' = Some i) -> (lk' = Some i -> 0 < i_ref ip) ->
  (forall j, j <> i -> lk' = Some j <-> lk = Some j) ->
  (i_valid ip = true -> iload V (i_inum ip) ip = ip) ->
  (forall j, j <> i -> 0 < i_ref ip -> 0 < i_ref (ent t j) -> i_inum (ent t j) <> i_inum ip) ->
  itable_ok lk' V (<[i := ip]> t).
Proof.
  intros [T1 T2 T3 T4 T5 T6 T7] Hi Hr Hd Hl Hlk Hoth Hv Hon. split; intros j; rewrite ?ent_insert;
    (destruct (decide (i = j)) as [<-|Hne]; [try done|]).
  - apply T1.
  - apply T2.
  - rewrite T3. apply bool_decide_ext. symmetry. apply Hoth. congruence.
  - intros E. apply T4, Hoth; [congruence|done].
  - apply T5.
  - apply T6.
  - intros j'. rewrite ent_insert. destruct (decide (i = j')) as [<-|Hne']; [done|]. intros H1 H2 E. by destruct (Hon j').
  - intros j'. rewrite ent_insert. destruct (decide (i = j')) as [<-|Hne']; [|apply T7]. intros H1 H2 E. by destruct (Hon j).
Qed.

(** ** Directory entries and paths *)

Definition dir_entry V (ip : inode) (k : nat) : dirent := dirent_of (fbytes V ip (DIRENT * Z.of_nat k) 16).
Definition dir_entries V (ip : inode) : list dirent := map (dir_entry V ip) (seq 0 (Z.to_nat (i_size ip / DIRENT))).
Definition entry_named (name : list Z) (de : dirent) : bool := negb (de_inum de =? 0) && (namecmp name (de_name de) =? 0).
Definition dir_find V (inum : Z) (name : list Z) : option Z :=
  de_inum <$> List.find (entry_named name) (dir_entries V (idisk V inum)).

(** The inode that the elements of a path name, from inode [cur]. *)
Fixpoint resolve V (cur : Z) (names : list (list Z)) : option Z :=
  match names with
  | [] => Some cur
  | name :: names =>
      if i_type (idisk V cur) =? T_DIR then
        match dir_find V cur name with Some n => resolve V n names | None => None end
      else None
  end.

Context (start nlog : Z) (S : gset Z).

(** An allocated inode. *)
Definition live V (inum : Z) : Prop := 0 < inum < sb_ninodes sb /\ i_type (idisk V inum) <> 0 /\ file_ok start nlog sb S V (idisk V inum).
(** The tree: the root is there, and directories name allocated inodes. *)
Record tree_ok V : Prop := {
  tr_root : live V ROOTINO /\ i_nlink (idisk V ROOTINO) <> 0;
  tr_dir inum : live V inum -> i_type (idisk V inum) = T_DIR -> i_size (idisk V inum) mod DIRENT = 0;
  tr_entry inum de : live V inum -> i_type (idisk V inum) = T_DIR ->
    de ∈ dir_entries V (idisk V inum) -> de_inum de <> 0 ->
    live V (de_inum de) /\ i_nlink (idisk V (de_inum de)) <> 0
}.
End Dir.

#[local] Set Default Proof Using "All".

Section Ops.
Context {C : Type} `{!BufCache C} `{!BufCacheSpec C}.
Context (start nlog : Z) (Hlog : 0 <= start /\ 1 <= nlog /\ start + nlog < 2 ^ 31) (Hnl : nlog <= LOGSIZE).
Context (sb : superblock) (S : gset Z) (G : geom start nlog sb S).
Abbreviation fstate := (kst C fsx).
Abbreviation Rd := (rd start nlog sb S).
Abbreviation Live := (live sb start nlog S).
Implicit Types (s : fstate) (a : acache) (L : list Z) (t : gmap Z inode).

(** A state of the file system at rest: the table, and the buffer cache. *)
Definition tab (s : fstate) : gmap Z inode := f_itable (k_ext s).
Definition with_tab (s : fstate) (t : gmap Z inode) : fstate :=
  Kst (k_bc s) (k_log s) (Fsx (f_sb (k_ext s)) t (f_cwd (k_ext s))).

Record idle lk s a L : Prop := {
  id_rd : Rd s a L ∅;
  id_tab : itable_ok sb lk (a_view a) (tab s)
}.

Lemma idle_tab lk s a L t : Rd s a L ∅ -> itable_ok sb lk (a_view a) t -> idle lk (with_tab s t) a L.
Proof. intros [] T. split; [split; try done; by apply logged_bc|done]. Qed.

Lemma idle_bc lk s a L c : idle lk s a L -> crep c a -> idle lk (Kst c (k_log s) (k_ext s)) a L.
Proof. intros [R T] Hc. split; [|done]. by apply (rd_bc start nlog Hlog Hnl sb S G s). Qed.

Lemma rd_tab s a L t : Rd s a L ∅ -> Rd (with_tab s t) a L ∅.
Proof. intros []. split; try done; by apply logged_bc. Qed.

Lemma iat_ent s i : iat s i = ent (tab s) i.
Proof. done. Qed.

(** ** [iget] and [iput] *)

Lemma iget_wp lk s a L inum (Q : Z -> fstate -> Prop) : idle lk s a L ->
  (exists j, 0 <= j < NINODE /\ i_ref (ent (tab s) j) = 0) ->
  (forall i t, idle lk (with_tab s t) a L -> tdelta (one i) (tab s) t -> i_inum (ent t i) = inum ->
     Q i (with_tab s t)) ->
  wp (iget ROOTDEV inum) s Q.
Proof.
  intros [R T] (jf & Hjf & Hjf0) HQ. unfold iget. wp_step. wp_step. fold (tab s).
  pose proof (iget_scan_spec (tab s) ROOTDEV inum (Z.to_nat NINODE) 0 None ltac:(lia) ltac:(done) ltac:(lia)) as Hs.
  change (0 + Z.of_nat (Z.to_nat NINODE)) with NINODE in Hs. destruct (iget_scan _ _ _ _ _ _) as [o|e].
  - destruct Hs as (i & -> & Hi & Hr & Hd & Hin). unfold upd_i. do 3 wp_step. rewrite iat_ent.
    set (ip := with_ref _ _). apply (HQ i (<[i := ip]> (tab s))).
    + apply idle_tab; [done|]. apply (itable_set sb lk); try done.
      * cbn. lia.
      * apply (it_lock _ _ _ _ T).
      * intros _. cbn. lia.
      * intros Hv. eapply iload_same; [by apply (it_valid _ _ _ _ T)|done].
      * intros j Hj _ Hj' E. by apply Hj, (it_once _ _ _ _ T).
    + intros j. rewrite ent_insert. unfold one. case_decide as E; [subst; done|]. split; [lia|done].
    + by rewrite ent_insert, decide_True.
  - destruct Hs as [Hno He]. destruct e as [i|]; [|by destruct (He jf Hjf)]. destruct He as [Hi H0].
    unfold upd_i. do 3 wp_step. rewrite iat_ent. set (ip := Inode _ _ _ _ _ _ _ _ _ _ _).
    apply (HQ i (<[i := ip]> (tab s))).
    + apply idle_tab; [done|]. apply (itable_set sb lk); try done.
      * apply (it_lock _ _ _ _ T).
      * intros j Hj _ Hj' E. apply (Hno j); [by apply (it_range _ _ _ _ T)|]. by split; [|split; [apply (it_dev _ _ _ _ T)|]].
    + intros j. rewrite ent_insert. unfold one. case_decide as E; [subst; cbn; rewrite H0; split; [done|lia]|]. split; [lia|done].
    + by rewrite ent_insert, decide_True.
Qed.

Lemma set_entry s i f : (upd_i i f : M fstate unit) s = Ok tt (with_tab s (<[i := f (ent (tab s) i)]> (tab s))).
Proof. done. Qed.

(** Giving up a reference that is not the last one to a deleted inode. *)
Lemma iput_wp lk s a L i (Q : unit -> fstate -> Prop) : idle lk s a L -> 0 < i_ref (ent (tab s) i) -> lk <> Some i ->
  ~ (i_ref (ent (tab s) i) = 1 /\ i_valid (ent (tab s) i) = true /\ i_nlink (ent (tab s) i) = 0) ->
  (forall t, idle lk (with_tab s t) a L -> tdelta (fun j => - one i j) (tab s) t -> Q tt (with_tab s t)) ->
  wp (iput i) s Q.
Proof.
  intros [R T] Hr Hlk Hno HQ. unfold iput, get_i. wp_step. wp_step. rewrite iat_ent.
  destruct (_ && _) eqn:E.
  { apply andb_prop in E as [[E1 E2]%andb_prop E3]. bool_to_prop. by destruct Hno. }
  do 2 wp_step. unfold upd_i. wp_step. rewrite iat_ent. set (ip := with_ref _ _). apply HQ.
  - apply idle_tab; [done|]. apply (itable_set sb lk); try done.
    + by apply (it_range _ _ _ _ T).
    + cbn. lia.
    + by apply (it_dev _ _ _ _ T).
    + apply (it_lock _ _ _ _ T).
    + intros Hv. eapply iload_same; [by apply (it_valid _ _ _ _ T)|done].
    + intros j Hj _ Hj' Ej. by apply Hj, (it_once _ _ _ _ T).
  - intros j. rewrite ent_insert. unfold one. cbv beta. case_decide as Ej; [subst; done|]. fold (tab s). split; [lia|done].
Qed.

(** ** [ilock] and [iunlock] *)

Lemma ilock_wp s a L i (Q : unit -> fstate -> Prop) : idle None s a L -> 0 < i_ref (ent (tab s) i) ->
  i_type (idisk sb (a_view a) (i_inum (ent (tab s) i))) <> 0 ->
  (forall c t, crep c a -> idle (Some i) (Kst c (k_log s) (Fsx (f_sb (k_ext s)) t (f_cwd (k_ext s)))) a L ->
     tdelta (fun _ => 0) (tab s) t -> i_valid (ent t i) = true ->
     Q tt (Kst c (k_log s) (Fsx (f_sb (k_ext s)) t (f_cwd (k_ext s))))) ->
  wp (ilock i) s Q.
Proof.
  intros [R T] Hr Hty HQ. unfold ilock, ilock_acquire, get_i. wp_step. wp_step. rewrite iat_ent.
  rewrite (proj2 (Z.ltb_ge _ _)) by lia. do 3 wp_step. rewrite iat_ent, (it_lock _ _ _ _ T), bool_decide_false by done.
  set (ip := ent (tab s) i) in *. set (t1 := <[i := with_lock true ip]> (tab s)).
  assert (ent t1 i = with_lock true ip) as E1 by (unfold t1; by rewrite ent_insert, decide_True).
  assert (forall c ip', crep c a -> same_ids ip ip' -> i_ref ip' = i_ref ip -> i_locked ip' = true -> i_valid ip' = true ->
    iload sb (a_view a) (i_inum ip) ip' = ip' ->
    Q tt (Kst c (k_log s) (Fsx (f_sb (k_ext s)) (<[i := ip']> (tab s)) (f_cwd (k_ext s))))) as HQ1.
  { intros c ip' Hc [En Ed] Er El Ev Eld. apply HQ; [done| | |by rewrite ent_insert, decide_True].
    - apply (idle_bc (Some i) (with_tab s (<[i := ip']> (tab s)))); [|done]. apply idle_tab; [done|]. apply (itable_set sb None); try done.
      + by apply (it_range _ _ _ _ T).
      + lia.
      + rewrite Ed. by apply (it_dev _ _ _ _ T).
      + by rewrite bool_decide_true.
      + intros _. by rewrite Er.
      + naive_solver.
      + intros _. by rewrite En.
      + intros j Hj _ Hj' E. rewrite En in E. by apply Hj, (it_once _ _ _ _ T).
    - intros j. rewrite ent_insert. case_decide as Ej; [subst; fold ip; by split; [lia|]|]. by split; [lia|]. }
  unfold upd_i at 1. wp_step. wp_step. wp_step. rewrite !iat_ent.
  change (tab (Kst _ _ _)) with t1. rewrite E1. change (i_valid (with_lock true ip)) with (i_valid ip).
  destruct (i_valid ip) eqn:Ev; cbn [negb].
  { wp_step. apply (HQ1 (k_bc s) (with_lock true ip)); try done; [apply R|]. eapply iload_same; [by apply (it_valid _ _ _ _ T)|done]. }
  change (Kst _ _ _) with (with_tab s t1). pose proof (rd_tab s a L t1 R) as R1.
  change (i_dev (with_lock true ip)) with (i_dev ip). change (i_inum (with_lock true ip)) with (i_inum ip).
  rewrite (it_dev _ _ _ _ T i Hr : i_dev ip = _). unfold get_sb. wp_step. wp_step.
  change (f_sb (k_ext (with_tab s t1))) with (f_sb (k_ext s)). rewrite (rd_sb _ _ _ _ _ _ _ _ R).
  wp_step. apply (rd_bread start nlog Hlog Hnl sb S G _ a L ∅ _ _ R1); [done|]. intros b c Hb Hc.
  wp_step. apply wp_lift. eapply bdata_spec; [exact Hc|by cbn; rewrite lookup_insert_eq|]. cbn [a_view locked_view].
  set (ld := dinode_load _ _). unfold upd_i. wp_step. wp_step. rewrite iat_ent. change (tab (Kst _ _ _)) with t1. rewrite E1.
  wp_step. change (f_itable (k_ext (Kst _ _ _))) with t1.
  set (t2 := <[i := ld (with_lock true ip)]> t1). pose proof (rd_tab s a L t2 R) as R2.
  apply (rd_release start nlog Hlog Hnl sb S G (with_tab s t2) a L ∅ b (IBLOCK (i_inum ip) sb) c); [done|done|done|done|].
  intros c2 Hc2. unfold upd_i. wp_step. wp_step. wp_step. wp_step. rewrite !iat_ent.
  change (tab (Kst c2 _ _)) with t2.
  assert (ent t2 i = ld (with_lock true ip)) as -> by (unfold t2; by rewrite ent_insert, decide_True).
  change (f_itable (k_ext (Kst c2 _ _))) with t2. set (ip' := with_valid true _).
  assert (<[i := ip']> t2 = <[i := ip']> (tab s)) as -> by (unfold t2, t1; by rewrite !insert_insert_eq).
  unfold tab at 1. cbn [k_ext f_itable]. rewrite ent_insert, decide_True by done.
  change (i_type ip') with (i_type (idisk sb (a_view a) (i_inum ip))). rewrite (proj2 (Z.eqb_neq _ _)) by done.
  wp_step. by apply (HQ1 c2 ip').
Qed.

Lemma iunlock_wp s a L i (Q : unit -> fstate -> Prop) : idle (Some i) s a L ->
  (forall t, idle None (with_tab s t) a L -> tdelta (fun _ => 0) (tab s) t -> ent t i = with_lock false (ent (tab s) i) -> Q tt (with_tab s t)) ->
  wp (iunlock i) s Q.
Proof.
  intros [R T] HQ. unfold iunlock, get_i. wp_step. wp_step. rewrite iat_ent, (it_lock _ _ _ _ T), bool_decide_true by done.
  pose proof (it_lk _ _ _ _ T i eq_refl) as Hr. rewrite (proj2 (Z.ltb_ge _ _)) by lia. cbn [negb orb].
  unfold upd_i. wp_step. rewrite iat_ent. apply HQ; [|intros j|by rewrite ent_insert, decide_True].
  - apply idle_tab; [done|]. apply (itable_set sb (Some i)); try done.
    + by apply (it_range _ _ _ _ T).
    + cbn. lia.
    + by apply (it_dev _ _ _ _ T).
    + naive_solver.
    + intros Hv. eapply iload_same; [by apply (it_valid _ _ _ _ T)|done].
    + intros j Hj _ Hj' E. by apply Hj, (it_once _ _ _ _ T).
  - change (f_itable (k_ext s)) with (tab s). rewrite ent_insert. case_decide; [subst|]; (split; [cbn; lia|done]).
Qed.

(** ** A file through its in-memory inode *)

Lemma fblock_addrs V ip ip' bn : i_addrs ip' = i_addrs ip -> fblock V ip' bn = fblock V ip bn.
Proof. intros E. unfold fblock, addr_get. by rewrite E. Qed.

Lemma fbytes_addrs V ip ip' off n : i_addrs ip' = i_addrs ip -> fbytes V ip' off n = fbytes V ip off n.
Proof. intros E. unfold fbytes, fbyte. apply map_ext. intros k. by rewrite (fblock_addrs V ip ip'). Qed.

Lemma file_ok_same V ip ip' : file_ok start nlog sb S V ip -> i_dev ip' = i_dev ip -> i_addrs ip' = i_addrs ip -> i_size ip' = i_size ip ->
  file_ok start nlog sb S V ip'.
Proof.
  intros [F1 F2 F3 F4 F5 F6 F7 F8] Ed Ea Es. pose proof (fun bn => fblock_addrs V ip ip' bn Ea) as Ef.
  assert (forall k, addr_get ip' k = addr_get ip k) as Eg by (intros k; unfold addr_get; by rewrite Ea).
  split; rewrite ?Ed, ?Ea, ?Es, ?Eg; try done; try setoid_rewrite Ef; try done.
Qed.

(** A locked inode is the one on the disk. *)
Lemma locked_inode s a L i : idle (Some i) s a L -> i_valid (ent (tab s) i) = true ->
  let ip := ent (tab s) i in let dp := idisk sb (a_view a) (i_inum ip) in
  i_dev ip = i_dev dp /\ i_type ip = i_type dp /\ i_nlink ip = i_nlink dp /\ i_size ip = i_size dp /\ i_addrs ip = i_addrs dp.
Proof.
  intros [R T] Hv ip dp. pose proof (it_lk _ _ _ _ T i eq_refl) as Hr. pose proof (it_dev _ _ _ _ T i Hr) as Hd.
  pose proof (it_valid _ _ _ _ T i Hr Hv) as E. fold ip in Hd, E. split; [by rewrite Hd|]. by rewrite <- E.
Qed.

Lemma locked_file s a L i : idle (Some i) s a L -> i_valid (ent (tab s) i) = true -> Live (a_view a) (i_inum (ent (tab s) i)) ->
  file_ok start nlog sb S (a_view a) (ent (tab s) i).
Proof. intros I Hv (_ & _ & F). destruct (locked_inode s a L i I Hv) as (? & ? & ? & ? & ?). by eapply file_ok_same. Qed.

(** ** [dirlookup] *)

Lemma readable_entry ip off : 0 <= off -> off + DIRENT <= i_size ip < 2 ^ 31 -> readable ip off DIRENT = DIRENT.
Proof.
  intros H0 H1. unfold readable. rewrite u32_id by (unfold DIRENT in *; lia).
  rewrite (proj2 (Z.ltb_ge (off + DIRENT) off)) by (unfold DIRENT in *; lia). rewrite orb_false_r.
  rewrite !Z.gtb_ltb, !(proj2 (Z.ltb_ge _ _)) by (unfold DIRENT in *; lia). done.
Qed.

Lemma dir_entries_drop V ip k : Z.of_nat k * DIRENT < i_size ip -> i_size ip mod DIRENT = 0 ->
  drop k (dir_entries V ip) = dir_entry V ip k :: drop (Datatypes.S k) (dir_entries V ip).
Proof.
  intros Hk Hm. apply drop_S. unfold dir_entries. rewrite list_lookup_fmap, lookup_seq_lt; [done|].
  unfold DIRENT in *. dlia.
Qed.

Lemma dir_entries_same V ip ip' : i_addrs ip' = i_addrs ip -> i_size ip' = i_size ip -> dir_entries V ip' = dir_entries V ip.
Proof.
  intros Ea Es. unfold dir_entries. rewrite Es. apply map_ext. intros k. unfold dir_entry. by rewrite (fbytes_addrs V ip ip').
Qed.

Lemma dirlookup_wp s a L i name (Q : option (Z * Z) -> fstate -> Prop) :
  let ip := ent (tab s) i in
  idle (Some i) s a L -> i_valid ip = true -> Live (a_view a) (i_inum ip) -> i_type ip = T_DIR -> i_size ip mod DIRENT = 0 ->
  (exists j, 0 <= j < NINODE /\ i_ref (ent (tab s) j) = 0) ->
  (forall c, dir_find sb (a_view a) (i_inum ip) name = None -> crep c a -> Q None (Kst c (k_log s) (k_ext s))) ->
  (forall c n j t off, dir_find sb (a_view a) (i_inum ip) name = Some n -> crep c a -> let s1 := with_tab (Kst c (k_log s) (k_ext s)) t in
     idle (Some i) s1 a L -> tdelta (one j) (tab s) t -> i_inum (ent t j) = n -> Q (Some (j, off)) s1) ->
  wp (dirlookup i name) s Q.
Proof.
  intros ip I Hv Hlive Hty Hmod Hfree HQ0 HQ1. pose proof (locked_file s a L i I Hv Hlive) as F. fold ip in F.
  destruct (locked_inode s a L i I Hv) as (_ & _ & _ & Es & Ea). fold ip in Es, Ea.
  pose proof (fo_size _ _ _ _ _ _ F) as Hsz. change (MAXFILE * BSIZE) with 274432 in Hsz.
  unfold dir_find in *. rewrite <- (dir_entries_same _ _ _ Ea Es) in HQ0, HQ1. set (es := dir_entries (a_view a) ip) in *.
  unfold dirlookup, get_i. wp_step. wp_step. rewrite iat_ent. fold ip. rewrite (proj2 (Z.eqb_eq _ _)) by done. cbn [negb].
  apply (wp_loop_var _ (fun off => i_size ip - off)
    (fun off s1 => exists c k, s1 = Kst c (k_log s) (k_ext s) /\ crep c a /\ off = Z.of_nat k * DIRENT /\ off <= i_size ip /\
       List.find (entry_named name) es = List.find (entry_named name) (drop k es))).
  - intros off s1 (c & k & -> & Hc & -> & Hoff & Ef). set (s1 := Kst c _ _). pose proof (idle_bc _ _ _ _ c I Hc) as I1.
    unfold dirlookup_step, get_i. wp_step. wp_step. rewrite iat_ent. change (tab s1) with (tab s). fold ip.
    destruct (_ <? i_size ip) eqn:El; bool_to_prop.
    2: { wp_step. apply HQ0; [|done]. rewrite Ef, drop_ge; [done|]. unfold es, dir_entries. rewrite length_map, length_seq.
         unfold DIRENT in *. dlia. }
    assert (Z.of_nat k * DIRENT + DIRENT <= i_size ip) as Hle by (unfold DIRENT in *; dlia).
    wp_step. apply (readi_wp start nlog Hlog Hnl sb S G s1 a L i ip); [apply I1|done|done|unfold DIRENT in *; lia|unfold DIRENT; lia|..].
    2: { by intros. }
    rewrite readable_entry by (unfold DIRENT in *; lia). intros c1 Hc1. cbn [fst snd]. rewrite Z.eqb_refl. cbn [negb].
    change (Z.to_nat DIRENT) with 16%nat. rewrite (Z.mul_comm (Z.of_nat k)). fold (dir_entry (a_view a) ip k). set (de := dir_entry _ _ _).
    unfold es in Ef. rewrite dir_entries_drop in Ef by done. fold es de in Ef. cbn [List.find] in Ef.
    assert (entry_named name de = false -> exists c2 k2, Kst c1 (k_log s1) (k_ext s1) = Kst c2 (k_log s) (k_ext s) /\ crep c2 a /\
      DIRENT * Z.of_nat k + DIRENT = Z.of_nat k2 * DIRENT /\ DIRENT * Z.of_nat k + DIRENT <= i_size ip /\
      List.find (entry_named name) es = List.find (entry_named name) (drop k2 es)) as Hnext.
    { intros En. exists c1, (Datatypes.S k). rewrite En in Ef. split; [done|]. split; [done|]. split; [lia|]. split; [lia|done]. }
    change (entry_named name de) with (negb (de_inum de =? 0) && (namecmp name (de_name de) =? 0)) in Hnext, Ef. destruct (de_inum de =? 0) eqn:E0; cbn [negb andb] in *.
    { wp_step. split; [by apply Hnext|]. unfold DIRENT in *. lia. }
    destruct (namecmp name (de_name de) =? 0) eqn:En.
    2: { wp_step. split; [by apply Hnext|]. unfold DIRENT in *. lia. }
    wp_step. rewrite (fo_dev _ _ _ _ _ _ F). apply (iget_wp (Some i) _ a L); [by apply idle_bc|done|].
    intros j t I2 Ht Hin. wp_step. rewrite Ef in HQ1. by apply (HQ1 c1 (de_inum de)).
  - exists (k_bc s), 0%nat. split; [by destruct s|]. split; [apply I|]. split; [done|]. split; [lia|done].
  - lia.
Qed.

(** ** [namex] *)

Definition moved (s s' : fstate) : Prop :=
  k_log s' = k_log s /\ f_sb (k_ext s') = f_sb (k_ext s) /\ f_cwd (k_ext s') = f_cwd (k_ext s).

Lemma iunlockput_wp s a L i (Q : unit -> fstate -> Prop) : idle (Some i) s a L -> i_valid (ent (tab s) i) = true ->
  i_nlink (ent (tab s) i) <> 0 \/ 1 < i_ref (ent (tab s) i) ->
  (forall t, idle None (with_tab s t) a L -> tdelta (fun j => - one i j) (tab s) t -> Q tt (with_tab s t)) ->
  wp (iunlockput i) s Q.
Proof.
  intros I Hv Hn HQ. pose proof (it_lk _ _ _ _ (id_tab _ _ _ _ I) i eq_refl) as Hr.
  unfold iunlockput. wp_step. apply (iunlock_wp s a L i _ I). intros t I1 T1 E. destruct (T1 i) as [Hr1 _].
  apply (iput_wp None _ a L); [done|change (0 < i_ref (ent t i)); lia|done|..].
  - intros (H1 & _ & H3). change (ent (tab (with_tab s t)) i) with (ent t i) in *. rewrite E in H3. destruct Hn as [?|?]; [done|lia].
  - intros t' I2 T2. change (with_tab (with_tab s t) t') with (with_tab s t') in *. apply HQ; [done|].
    eapply tdelta_trans; [exact T1|exact T2|intros; cbv beta; lia|intros; cbv beta; lia].
Qed.

Lemma dir_find_live V inum name n : tree_ok sb start nlog S V -> Live V inum -> i_type (idisk sb V inum) = T_DIR ->
  dir_find sb V inum name = Some n -> Live V n /\ i_nlink (idisk sb V n) <> 0.
Proof.
  intros [_ _ HE] Hl Hty Hf. unfold dir_find in Hf. destruct (List.find _ _) as [de|] eqn:E; [|done]. injection Hf as <-.
  apply find_some in E as [Hin [H0 _]%andb_prop]. apply negb_true_iff in H0. bool_to_prop.
  apply (HE inum de); [done|done|by apply list_elem_of_In|done].
Qed.

Section Walk.
Context (a : acache) (L : list Z) (t0 : gmap Z inode) (Htree : tree_ok sb start nlog S (a_view a)).
Context (H0 : forall j, 0 <= i_ref (ent t0 j)).
Context (Hfree : exists j j', j <> j' /\ 0 <= j < NINODE /\ 0 <= j' < NINODE /\ i_ref (ent t0 j) = 0 /\ i_ref (ent t0 j') = 0).

(** Slot [ip] holds the reference of the walk, to inode [cur]. *)
Record walking (s : fstate) (ip cur : Z) : Prop := {
  wk_idle : idle None s a L;
  wk_ref : tdelta (one ip) t0 (tab s);
  wk_inum : i_inum (ent (tab s) ip) = cur;
  wk_live : Live (a_view a) cur;
  wk_keep : i_nlink (idisk sb (a_view a) cur) <> 0 \/ 0 < i_ref (ent t0 ip)
}.

Lemma free_slot ip t : tdelta (one ip) t0 t -> exists j, 0 <= j < NINODE /\ i_ref (ent t j) = 0.
Proof.
  intros T. destruct Hfree as (j & j' & Hne & Hj & Hj' & E & E'). destruct (decide (ip = j)) as [->|Hn].
  - exists j'. split; [done|]. destruct (T j') as [-> _]. rewrite one_ne by done. lia.
  - exists j. split; [done|]. destruct (T j) as [-> _]. rewrite one_ne by done. lia.
Qed.

(** The walk drops its reference to [ip]. *)
Lemma drop_wp s ip cur D (Q : unit -> fstate -> Prop) : idle (Some ip) s a L -> i_valid (ent (tab s) ip) = true ->
  i_inum (ent (tab s) ip) = cur -> i_nlink (idisk sb (a_view a) cur) <> 0 \/ 0 < i_ref (ent t0 ip) ->
  tdelta (fun j => one ip j + D j) t0 (tab s) -> (forall j, 0 <= D j) ->
  (forall t, idle None (with_tab s t) a L -> tdelta D t0 t -> (forall j, 0 < D j -> i_inum (ent t j) = i_inum (ent (tab s) j)) -> Q tt (with_tab s t)) ->
  wp (iunlockput ip) s Q.
Proof.
  intros I Hv Hcur Hkeep T HD HQ. destruct (locked_inode s a L ip I Hv) as (_ & _ & Enl & _ & _). rewrite Hcur in Enl.
  apply (iunlockput_wp s a L ip); [done|done| |].
  - rewrite Enl. destruct Hkeep as [?|Hp]; [by left|right]. destruct (T ip) as [-> _]. rewrite one_self. specialize (HD ip). lia.
  - intros t I1 T1. apply HQ; [done| |].
    + eapply tdelta_trans; [exact T|exact T1| |]; intros j; cbv beta; pose proof (one_nonneg ip j); specialize (HD j); lia.
    + intros j Hj. apply T1. destruct (T j) as [-> _]. pose proof (one_nonneg ip j). specialize (H0 j). lia.
Qed.

Lemma namex_loop_wp fuel : forall ip path name cur s s0 (Q : option (Z * list Z) -> fstate -> Prop),
  walking s ip cur -> moved s0 s -> (length path < fuel)%nat ->
  (resolve sb (a_view a) cur (path_spec path) = None -> forall s', idle None s' a L -> tdelta (fun _ => 0) t0 (tab s') -> moved s0 s' -> Q None s') ->
  (forall s' i n nm, resolve sb (a_view a) cur (path_spec path) = Some n -> walking s' i n -> moved s0 s' -> Q (Some (i, nm)) s') ->
  wp (namex_loop ip path false name fuel) s Q.
Proof.
  induction fuel as [|fuel IH]; intros ip path name cur s s0 Q W M Hf HQ0 HQ1; [lia|]. cbn [namex_loop resolve] in *.
  pose proof (skipelem_spec path) as Hsk. destruct (skipelem path) as [[rest nm]|] eqn:Es.
  2: { wp_step. apply (HQ1 s ip cur); [by rewrite Hsk|done|done]. }
  destruct Hsk as (Hsp & Hlen & _). rewrite Hsp in HQ0, HQ1. destruct W as [I T Hcur0 Hlive Hkeep].
  assert (0 < i_ref (ent (tab s) ip)) as Hr by (destruct (T ip) as [-> _]; rewrite one_self; specialize (H0 ip); lia).
  wp_step. apply (ilock_wp s a L ip); [done|done|rewrite Hcur0; apply Hlive|]. intros c t Hc I1 T1 Hv. set (s1 := Kst c _ _) in *.
  destruct (T1 ip) as [Hr1 Hid1]. destruct (Hid1 Hr) as [Hin1 _].
  assert (i_inum (ent (tab s1) ip) = cur) as Hcur by (by rewrite <- Hcur0).
  destruct (locked_inode s1 a L ip I1 Hv) as (_ & Ety & Enl & _ & _). rewrite Hcur in Ety, Enl.
  assert (tdelta (fun j => one ip j + 0) t0 t) as T01.
  { eapply tdelta_trans; [exact T|exact T1| |]; intros j; cbv beta; pose proof (one_nonneg ip j); lia. }
  unfold get_i. wp_step. wp_step. rewrite iat_ent, Ety. cbn [resolve] in HQ0, HQ1.
  destruct (_ =? T_DIR) eqn:Ed; cbn [negb andb]; bool_to_prop.
  2: { wp_step. eapply (drop_wp s1 ip cur (fun _ => 0)); try done. intros t2 I2 T2 _. wp_step. by apply HQ0. }
  assert (exists j, 0 <= j < NINODE /\ i_ref (ent (tab s1) j) = 0) as Hfr.
  { apply (free_slot ip). intros j. destruct (T01 j) as [E ?]. change (tab s1) with t. split; [lia|done]. }
  assert (i_size (ent (tab s1) ip) mod DIRENT = 0) as Hmod.
  { destruct (locked_inode s1 a L ip I1 Hv) as (_ & _ & _ & -> & _). rewrite Hcur. by apply (tr_dir _ _ _ _ _ Htree). }
  wp_step. apply (dirlookup_wp s1 a L ip); rewrite ?Hcur; try done; [by rewrite Ety|..].
  - intros c2 E2 Hc2. rewrite E2 in HQ0. wp_step.
    eapply (drop_wp _ ip cur (fun _ => 0)); [by apply idle_bc|done|done|done|done|done|]. intros t2 I2 T2 _. wp_step. by apply HQ0.
  - intros c2 n j t2 off E2 Hc2 s2 I2 T2 Hin. rewrite E2 in HQ0, HQ1. wp_step.
    destruct (dir_find_live _ _ _ _ Htree Hlive Ed E2) as [Hlive' Hnl'].
    pose proof (it_lk _ _ _ _ (id_tab _ _ _ _ I1) ip eq_refl) as Hr2. destruct (T2 ip) as [Hr2' Hid2]. destruct (Hid2 Hr2) as [Hin2 _].
    eapply (drop_wp s2 ip cur (one j)); [done| |by rewrite <- Hcur|done| |apply one_nonneg|].
    + by apply Hid2.
    + eapply tdelta_trans; [exact T01|exact T2| |]; intros k; cbv beta; pose proof (one_nonneg ip k); lia.
    + intros t3 I3 T3 Hid3. apply (IH j rest nm n _ s0); [|done|lia|done|done].
      split; [done|done| |done|by left]. change (i_inum (ent t3 j) = n). rewrite Hid3; [done|]. by rewrite one_self.
Qed.
End Walk.

Lemma idup_wp s a L i (Q : Z -> fstate -> Prop) : idle None s a L -> 0 < i_ref (ent (tab s) i) ->
  (forall t, idle None (with_tab s t) a L -> tdelta (one i) (tab s) t -> Q i (with_tab s t)) -> wp (idup i) s Q.
Proof.
  intros [R T] Hr HQ. unfold idup, upd_i. wp_step. wp_step. wp_step. rewrite iat_ent. apply HQ.
  - apply idle_tab; [done|]. apply (itable_set sb None); try done.
    + by apply (it_range _ _ _ _ T).
    + cbn. lia.
    + by apply (it_dev _ _ _ _ T).
    + apply (it_lock _ _ _ _ T).
    + intros Hv. eapply iload_same; [by apply (it_valid _ _ _ _ T)|done].
    + intros j Hj _ Hj' Ej. by apply Hj, (it_once _ _ _ _ T).
  - intros j. change (f_itable (k_ext s)) with (tab s). rewrite ent_insert. unfold one. case_decide as Ej; [subst; done|]. by split; [lia|].
Qed.

(** Where a path starts: at the root, or at the current directory. *)
Definition path_start (s : fstate) (path : list Z) : Z :=
  match path with
  | c :: _ => if c =? SLASH then ROOTINO else i_inum (ent (tab s) (f_cwd (k_ext s)))
  | [] => i_inum (ent (tab s) (f_cwd (k_ext s)))
  end.

Record lookup_pre s a L : Prop := {
  lp_idle : idle None s a L;
  lp_tree : tree_ok sb start nlog S (a_view a);
  lp_free : exists j j', j <> j' /\ 0 <= j < NINODE /\ 0 <= j' < NINODE /\ i_ref (ent (tab s) j) = 0 /\ i_ref (ent (tab s) j') = 0;
  lp_cwd : 0 < i_ref (ent (tab s) (f_cwd (k_ext s))) /\ Live (a_view a) (i_inum (ent (tab s) (f_cwd (k_ext s))))
}.

Lemma namei_wp s a L path (Q : option Z -> fstate -> Prop) : lookup_pre s a L ->
  (resolve sb (a_view a) (path_start s path) (path_spec path) = None ->
     forall s', idle None s' a L -> tdelta (fun _ => 0) (tab s) (tab s') -> moved s s' -> Q None s') ->
  (forall s' i n, resolve sb (a_view a) (path_start s path) (path_spec path) = Some n ->
     walking a L (tab s) s' i n -> moved s s' -> Q (Some i) s') ->
  wp (namei path) s Q.
Proof.
  intros [I Htree Hfree [Hcr Hcl]] HQ0 HQ1. pose proof (it_ref _ _ _ _ (id_tab _ _ _ _ I)) as H0.
  set (K := fun (r : option (Z * list Z)) s' => wp (mret (option_map fst r)) s' Q : Prop).
  assert (forall ip s1, walking a L (tab s) s1 ip (path_start s path) -> moved s s1 ->
    wp (namex_loop ip path false [] (Datatypes.S (length path))) s1 K) as Hloop.
  { intros ip s1 W M. unfold K. eapply (namex_loop_wp a L (tab s)); try done; [lia|].
    intros s' i n nm E W' M'. wp_step. by apply (HQ1 s' i n). }
  assert (path_start s path = i_inum (ent (tab s) (f_cwd (k_ext s))) ->
    wp (cwd ← gets (fun s => f_cwd (k_ext s)); idup cwd) s
      (fun ip s' => wp (namex_loop ip path false [] (Datatypes.S (length path))) s' K)) as Hrel.
  { intros E. wp_step. wp_step. apply (idup_wp s a L); [done|done|]. intros t I1 T1. apply Hloop; [|done].
    rewrite E. split; [done|done| |done|by right]. by apply T1. }
  unfold namei, namex. wp_step. wp_step. fold K. destruct path as [|c path]; [by apply Hrel|].
  destruct (c =? SLASH) eqn:Ec; [|apply Hrel; cbn [path_start]; by rewrite Ec].
  apply (iget_wp None s a L); [done| |].
  { destruct Hfree as (j & _ & _ & Hj & _ & E & _). by exists j. }
  intros i t I1 T1 Hin. apply Hloop; [|done]. cbn [path_start]. rewrite Ec. destruct (tr_root _ _ _ _ _ Htree) as [Hl Hn].
  split; [done|done|done|done|by left].
Qed.
End Ops.
