(* ===== verification/Syscall.v ===== *)
(** * kernel/syscall.c and kernel/sysproc.c : arguments of system calls, dispatch, [sbrk]

    A process in the kernel: the machine, the state [F] of what else a call
    uses (the file system), and its entry of the process table.  The user
    registers are in the trapframe page, at the offsets of [struct trapframe]
    (kernel/proc.h).  [copyin] and [copyinstr] return the bytes they store. *)

From S2P Require Import Prelude Riscv Mem Kalloc Vm CString Monitor Proc.

Record kproc (F : Type) := Kproc { kp_m : machine; kp_f : F; kp_p : proc }.
Arguments Kproc {F}. Arguments kp_m {F}. Arguments kp_f {F}. Arguments kp_p {F}.

(** ** struct trapframe *)

Definition TF_epc : Z := 24.
Definition TF_sp : Z := 48.
Definition TF_a0 : Z := 112.
Definition TF_a1 : Z := 120.
Definition TF_a7 : Z := 168.

Section Code.
Context `{L : Layout} {F : Type}.
Abbreviation kp := (kproc F).

Definition onm {A} (m : M machine A) : M kp A := fun s =>
  match m (kp_m s) with
  | Ok a σ => Ok a (Kproc σ (kp_f s) (kp_p s))
  | Panic msg => Panic msg
  | NoFuel => NoFuel
  end.
Definition onf {A} (m : M F A) : M kp A := fun s =>
  match m (kp_f s) with
  | Ok a f => Ok a (Kproc (kp_m s) f (kp_p s))
  | Panic msg => Panic msg
  | NoFuel => NoFuel
  end.
Definition myproc : M kp proc := gets kp_p.
Definition set_proc (f : proc -> proc) : M kp unit := modify (fun s => Kproc (kp_m s) (kp_f s) (f (kp_p s))).

(** A field of [p->trapframe]. *)
Definition tf_get (o : Z) : M kp Z := p ← myproc; onm (ld (p_trapframe p + o)).
Definition tf_set (o v : Z) : M kp unit := p ← myproc; onm (Kalloc.st (p_trapframe p + o) v).

(** ** Arguments *)

Fixpoint le_val (l : list Z) : Z := match l with [] => 0 | b :: l => b + 256 * le_val l end.

Definition fetchaddr (addr : Z) : M kp (option Z) :=
  p ← myproc;
  if (addr >=? p_sz p) || (u64 (addr + 8) >? p_sz p) then mret None
  else
    r ← onm (copyin (p_pagetable p) addr 8);
    if negb (r.1 =? 0) then mret None else mret (Some (le_val r.2)).

(** The result and what [copyinstr] has stored in the buffer; [strlen] of a
    buffer without a NUL would not stop. *)
Definition fetchstr (addr max : Z) : M kp (Z * list Z) :=
  p ← myproc;
  r ← onm (copyinstr (p_pagetable p) addr max);
  if r.1 <? 0 then mret (-1, r.2)
  else match strlen (at_list r.2) (length r.2) with
       | Some n => mret (n, r.2)
       | None => panic "strlen"
       end.

Definition argraw (n : Z) : M kp Z :=
  if n =? 0 then tf_get TF_a0
  else if n =? 1 then tf_get TF_a1
  else if n =? 2 then tf_get (TF_a0 + 16)
  else if n =? 3 then tf_get (TF_a0 + 24)
  else if n =? 4 then tf_get (TF_a0 + 32)
  else if n =? 5 then tf_get (TF_a0 + 40)
  else panic "argraw".
Definition argint (n : Z) : M kp Z := v ← argraw n; mret (i32 v).
Definition argaddr (n : Z) : M kp Z := argraw n.
Definition argstr (n max : Z) : M kp (Z * list Z) :=
  addr ← argaddr n;
  fetchstr addr max.

(** ** Dispatch *)

Inductive sysno :=
  SYS_fork | SYS_exit | SYS_wait | SYS_pipe | SYS_read | SYS_kill | SYS_exec | SYS_fstat | SYS_chdir | SYS_dup
| SYS_getpid | SYS_sbrk | SYS_sleep | SYS_uptime | SYS_open | SYS_write | SYS_mknod | SYS_unlink | SYS_link
| SYS_mkdir | SYS_close.
(** The table [syscalls]; entry 0 is null. *)
Definition syscalls : list (option sysno) :=
  [None; Some SYS_fork; Some SYS_exit; Some SYS_wait; Some SYS_pipe; Some SYS_read; Some SYS_kill; Some SYS_exec;
   Some SYS_fstat; Some SYS_chdir; Some SYS_dup; Some SYS_getpid; Some SYS_sbrk; Some SYS_sleep; Some SYS_uptime;
   Some SYS_open; Some SYS_write; Some SYS_mknod; Some SYS_unlink; Some SYS_link; Some SYS_mkdir; Some SYS_close].

(** [handler] are the functions [sys_fork] and so on. *)
Definition syscall (handler : sysno -> M kp Z) : M kp unit :=
  v ← tf_get TF_a7;
  let num := i32 v in
  if (num >? 0) && (num <? Z.of_nat (length syscalls)) then
    match nth (Z.to_nat num) syscalls None with
    | Some n => r ← handler n; tf_set TF_a0 (u64 r)
    | None => tf_set TF_a0 (u64 (-1))
    end
  else tf_set TF_a0 (u64 (-1)).

(** ** [growproc] and [sbrk] *)

Definition set_sz (sz : Z) (q : proc) : proc :=
  Proc.Proc (p_state q) (p_chan q) (p_killed q) (p_xstate q) (p_pid q) (p_parent q) sz (p_pagetable q) (p_trapframe q) (p_name q).

Definition growproc (n : Z) : M kp Z :=
  p ← myproc;
  let sz := p_sz p in
  if n >? 0 then
    sz ← onm (uvmalloc (p_pagetable p) sz (u64 (sz + n)) PTE_W);
    if sz =? 0 then mret (-1) else set_proc (set_sz sz);; mret 0
  else if n <? 0 then
    sz ← onm (uvmdealloc (p_pagetable p) sz (u64 (sz + n)));
    set_proc (set_sz sz);; mret 0
  else set_proc (set_sz sz);; mret 0.

Definition sys_sbrk : M kp Z :=
  n ← argint 0;
  p ← myproc;
  r ← growproc n;
  if r <? 0 then mret (-1) else mret (p_sz p).

Definition sys_getpid : M kp Z := p ← myproc; mret (p_pid p).
End Code.

(** ** The other calls of kernel/sysproc.c

    [exit], [fork], [wait], [kill] and [sleep] act on the process table (Proc.v)
    and are an interface here; [ticks] is the clock. *)
Class SysEnv (F : Type) := {
  se_exit : Z -> M (kproc F) unit;
  se_fork : M (kproc F) Z;
  se_wait : Z -> M (kproc F) Z;
  se_kill : Z -> M (kproc F) Z;
  se_ticks : M (kproc F) Z;
  se_sleep_ticks : M (kproc F) unit      (* sleep(&ticks, &tickslock) *)
}.

Section Sysproc.
Context `{L : Layout} {F : Type} `{!SysEnv F}.
Abbreviation kp := (kproc F).

Definition sys_exit : M kp Z := n ← argint 0; se_exit n;; mret 0.
Definition sys_fork : M kp Z := se_fork.
Definition sys_wait : M kp Z := p ← argaddr 0; se_wait p.
Definition sys_kill : M kp Z := pid ← argint 0; se_kill pid.
Definition sys_uptime : M kp Z := se_ticks.

Definition sys_sleep_step (n ticks0 : Z) (_ : unit) : M kp (unit + Z) :=
  t ← se_ticks;
  if u32 (t - ticks0) <? n then
    p ← myproc;
    if p_killed p then mret (inr (-1)) else se_sleep_ticks;; mret (inl tt)
  else mret (inr 0).
(** A sleep lasts at least one tick unless the process is killed, and a killed
    process does not sleep again, so 2^31 rounds are enough. *)
Definition sys_sleep : M kp Z :=
  n ← argint 0;
  let n := if n <? 0 then 0 else n in
  ticks0 ← se_ticks;
  loop (sys_sleep_step n ticks0) (2 ^ 32) tt.
End Sysproc.
