(* ===== verification/Exec.v ===== *)
(** * kernel/exec.c and [sys_exec] (kernel/sysfile.c)

    [exec] on a process in the kernel, for any file system with the operations
    [ExecFs]; kernel/fs.c and kernel/log.c are an instance.  The arguments are
    pointers to strings in kernel memory, as [sys_exec] leaves them. *)

From S2P Require Import Prelude Riscv Mem Kalloc Vm CString Monitor Proc Syscall BufCache Log Fs.

(** What [exec] uses of the file system; [readi] is for kernel destinations. *)
Class ExecFs (F : Type) := {
  xf_begin_op : M F unit;
  xf_end_op : M F unit;
  xf_namei : list Z -> M F (option Z);
  xf_ilock : Z -> M F unit;
  xf_iunlockput : Z -> M F unit;
  xf_readi : Z -> Z -> Z -> M F (Z * list Z)
}.

#[export] Instance kernel_fs {C} `{!BufCache C} : ExecFs (kst C fsx) := {|
  xf_begin_op := begin_op;
  xf_end_op := end_op;
  xf_namei := namei;
  xf_ilock := ilock;
  xf_iunlockput := iunlockput;
  xf_readi i off n := readi i kdst off n
|}.

(** ** kernel/elf.h *)

Definition ELF_MAGIC : Z := 0x464C457F.
Definition ELF_PROG_LOAD : Z := 1.
Definition field (l : list Z) (o n : nat) : Z := le_val (take n (drop o l)).

Record elfhdr := Elfhdr { e_magic : Z; e_entry : Z; e_phoff : Z; e_phnum : Z }.
Definition ELFHDR : Z := 64.              (* sizeof(struct elfhdr) *)
Definition elfhdr_of (l : list Z) : elfhdr := Elfhdr (field l 0 4) (field l 24 8) (field l 32 8) (field l 56 2).

Record proghdr := Proghdr { ph_type : Z; ph_flags : Z; ph_off : Z; ph_vaddr : Z; ph_filesz : Z; ph_memsz : Z }.
Definition PROGHDR : Z := 56.             (* sizeof(struct proghdr) *)
Definition proghdr_of (l : list Z) : proghdr :=
  Proghdr (field l 0 4) (field l 4 4) (field l 8 8) (field l 16 8) (field l 32 8) (field l 40 8).

Definition flags2perm (flags : Z) : Z :=
  let perm := if negb (Z.land flags 0x1 =? 0) then PTE_X else 0 in
  if negb (Z.land flags 0x2 =? 0) then Z.lor perm PTE_W else perm.

(** A [uint64] in memory. *)
Fixpoint le_bytes (n : nat) (v : Z) : list Z :=
  match n with O => [] | S n => v mod 256 :: le_bytes n (v / 256) end.

(** The name after the last slash. *)
Fixpoint last_elem (s last : list Z) : list Z :=
  match s with
  | [] => last
  | c :: s => last_elem s (if c =? SLASH then s else last)
  end.

Definition set_exec (pagetable sz : Z) (q : proc) : proc :=
  Proc.Proc (p_state q) (p_chan q) (p_killed q) (p_xstate q) (p_pid q) (p_parent q) sz pagetable (p_trapframe q) (p_name q).
Definition set_name (name : list Z) (q : proc) : proc :=
  Proc.Proc (p_state q) (p_chan q) (p_killed q) (p_xstate q) (p_pid q) (p_parent q) (p_sz q) (p_pagetable q) (p_trapframe q) name.

Section Code.
Context `{L : Layout} {F : Type} `{!ExecFs F}.
Abbreviation kp := (kproc F).

(** One page of a segment. *)
Definition loadseg_step (pagetable va ip offset sz i : Z) : M kp (Z + Z) :=
  if i <? sz then
    pa ← onm (walkaddr pagetable (u64 (va + i)));
    if pa =? 0 then panic "loadseg: address should exist"
    else
      let n := if sz - i <? PGSIZE then sz - i else PGSIZE in
      r ← onf (xf_readi ip (u32 (offset + i)) n);
      onm (modify (set_mem (fun m => write_bytes m pa r.2)));;
      if negb (r.1 =? n) then mret (inr (-1)) else mret (inl (u32 (i + PGSIZE)))
  else mret (inr 0).
(** [offset] and [sz] are [uint]: at most 2^20 pages. *)
Definition loadseg (pagetable va ip offset sz : Z) : M kp Z :=
  loop (loadseg_step pagetable va ip (u32 offset) (u32 sz)) (2 ^ 21) 0.

(** The program headers: [None] is [goto bad]; the size reached so far. *)
Fixpoint load_segs (pagetable ip : Z) (n : nat) (off sz : Z) : M kp (bool * Z) :=
  match n with
  | O => mret (true, sz)
  | S n =>
      r ← onf (xf_readi ip (u32 off) PROGHDR);
      if negb (r.1 =? PROGHDR) then mret (false, sz)
      else
        let ph := proghdr_of r.2 in
        if negb (ph_type ph =? ELF_PROG_LOAD) then load_segs pagetable ip n (i32 (off + PROGHDR)) sz
        else if ph_memsz ph <? ph_filesz ph then mret (false, sz)
        else if u64 (ph_vaddr ph + ph_memsz ph) <? ph_vaddr ph then mret (false, sz)
        else if negb (ph_vaddr ph mod PGSIZE =? 0) then mret (false, sz)
        else
          sz1 ← onm (uvmalloc pagetable sz (u64 (ph_vaddr ph + ph_memsz ph)) (flags2perm (ph_flags ph)));
          if sz1 =? 0 then mret (false, sz)
          else
            r ← loadseg pagetable (ph_vaddr ph) ip (ph_off ph) (ph_filesz ph);
            if r <? 0 then mret (false, sz1)
            else load_segs pagetable ip n (i32 (off + PROGHDR)) sz1
  end.

(** The argument strings: [None] is [goto bad]; else [sp] and [ustack]. *)
Fixpoint push_args (pagetable stackbase : Z) (argv : list Z) (sp : Z) (ustack : list Z) : M kp (option (Z * list Z)) :=
  match argv with
  | [] => mret (Some (sp, ustack))
  | a :: argv =>
      if Z.of_nat (length ustack) >=? MAXARG then mret None
      else
        m ← onm (gets m_mem);
        match strlen (at_addr m a) (Z.to_nat PGSIZE) with
        | None => nofuel
        | Some len =>
            let sp := u64 (sp - (len + 1)) in
            let sp := u64 (sp - sp mod 16) in
            if sp <? stackbase then mret None
            else
              r ← onm (copyout pagetable sp (read_bytes m a (Z.to_nat (len + 1))));
              if r <? 0 then mret None else push_args pagetable stackbase argv sp (ustack ++ [sp])
        end
  end.

Definition bad (pagetable sz : Z) (ip : option Z) : M kp Z :=
  (if negb (pagetable =? 0) then onm (proc_freepagetable pagetable sz) else mret tt);;
  match ip with
  | Some ip => onf (xf_iunlockput ip);; onf xf_end_op
  | None => mret tt
  end;;
  mret (-1).

(** From "Commit to the user image" on, and the stores just before it. *)
Definition exec_commit (path : list Z) (pagetable sz sp entry argc oldsz : Z) : M kp Z :=
  tf_set TF_a1 sp;;
  set_proc (set_name (safestrcpy (at_list (last_elem path path)) 16));;
  p ← myproc;
  set_proc (set_exec pagetable sz);;
  tf_set TF_epc entry;;
  tf_set TF_sp sp;;
  onm (proc_freepagetable (p_pagetable p) oldsz);;
  mret argc.

(** The stack, the arguments and the commit: everything after [end_op]. *)
Definition exec_stack (path argv : list Z) (pagetable sz entry : Z) : M kp Z :=
  p ← myproc;
  let sz := PGROUNDUP sz in
  sz1 ← onm (uvmalloc pagetable sz (u64 (sz + 2 * PGSIZE)) PTE_W);
  if sz1 =? 0 then bad pagetable sz None
  else
    let sz := sz1 in
    onm (uvmclear pagetable (u64 (sz - 2 * PGSIZE)));;
    let stackbase := u64 (sz - PGSIZE) in
    r ← push_args pagetable stackbase argv sz [];
    match r with
    | None => bad pagetable sz None
    | Some (sp, ustack) =>
        let argc := Z.of_nat (length ustack) in
        if argc >=? MAXARG then panic "ustack"
        else
          let sp := u64 (sp - (argc + 1) * 8) in
          let sp := u64 (sp - sp mod 16) in
          if sp <? stackbase then bad pagetable sz None
          else
            r ← onm (copyout pagetable sp (mjoin (map (le_bytes 8) (ustack ++ [0]))));
            if r <? 0 then bad pagetable sz None
            else exec_commit path pagetable sz sp entry argc (p_sz p)
    end.

Definition exec (path argv : list Z) : M kp Z :=
  onf xf_begin_op;;
  ip ← onf (xf_namei path);
  match ip with
  | None => onf xf_end_op;; mret (-1)
  | Some ip =>
      onf (xf_ilock ip);;
      r ← onf (xf_readi ip 0 ELFHDR);
      if negb (r.1 =? ELFHDR) then bad 0 0 (Some ip)
      else
        let elf := elfhdr_of r.2 in
        if negb (e_magic elf =? ELF_MAGIC) then bad 0 0 (Some ip)
        else
          p ← myproc;
          pagetable ← onm (proc_pagetable (p_trapframe p));
          if pagetable =? 0 then bad 0 0 (Some ip)
          else
            r ← load_segs pagetable ip (Z.to_nat (e_phnum elf)) (i32 (e_phoff elf)) 0;
            let '(ok, sz) := r in
            if (ok : bool) then
              onf (xf_iunlockput ip);;
              onf xf_end_op;;
              exec_stack path argv pagetable sz (e_entry elf)
            else bad pagetable sz (Some ip)
  end.

(** ** [sys_exec] *)

(** [kfree] of the argument pages; [argv] holds no null pointer. *)
Fixpoint free_args (argv : list Z) : M kp unit :=
  match argv with
  | [] => mret tt
  | a :: argv => onm (kfree a);; free_args argv
  end.

(** The loop over [uargv], from element [i] on: [None] is [goto bad]; the pages
    allocated. *)
Fixpoint fetch_args (uargv : Z) (i : Z) (k : nat) (argv : list Z) : M kp (bool * list Z) :=
  match k with
  | O => mret (false, argv)
  | S k =>
      uarg ← fetchaddr (u64 (uargv + 8 * i));
      match uarg with
      | None => mret (false, argv)
      | Some uarg =>
          if uarg =? 0 then mret (true, argv)
          else
            a ← onm kalloc;
            if a =? 0 then mret (false, argv)
            else
              r ← fetchstr uarg PGSIZE;
              onm (modify (set_mem (fun m => write_bytes m a r.2)));;
              if r.1 <? 0 then mret (false, argv ++ [a])
              else fetch_args uargv (i + 1) k (argv ++ [a])
      end
  end.

Definition sys_exec : M kp Z :=
  uargv ← argaddr 1;
  r ← argstr 0 MAXPATH;
  if r.1 <? 0 then mret (-1)
  else
    let path := take (Z.to_nat r.1) r.2 in
    f ← fetch_args uargv 0 (Z.to_nat MAXARG) [];
    let '(ok, argv) := f in
    if (ok : bool) then
      ret ← exec path argv;
      free_args argv;;
      mret ret
    else free_args argv;; mret (-1).
End Code.
