(* ===== verification/ExecImage.v ===== *)
(** * The address space that [exec] builds

    [image] describes a page table under construction: which user memory it
    has, the bytes there, and that everything else is as before.  Each step of
    [exec] on memory ([uvmalloc], a page of a segment, [uvmclear], [copyout] to
    the stack) takes an image to an image, and [proc_freepagetable] of an image
    leaves nothing behind. *)

From S2P Require Import Prelude Riscv Mem Kalloc Vm VmRep VmSpec Cow Fork CowFault CopyOut VmGrow VmFree VmLife.

(** Bytes [bs] stored at [d]. *)
Definition overlay (img : Z -> Z) (d : Z) (bs : list Z) (va : Z) : Z :=
  if decide (d <= va < d + Z.of_nat (length bs)) then nth (Z.to_nat (va - d)) bs 0 else img va.

Lemma overlay_nil img d va : overlay img d [] va = img va.
Proof. unfold overlay. rewrite decide_False; [done|]. cbn. lia. Qed.

Lemma overlay_app img d bs bs' va :
  overlay (overlay img d bs) (d + Z.of_nat (length bs)) bs' va = overlay img d (bs ++ bs') va.
Proof.
  unfold overlay. rewrite length_app. repeat case_decide; try lia; try done.
  - rewrite app_nth2 by lia. f_equal. lia.
  - rewrite app_nth1 by lia. done.
Qed.

Section Image.
Context `{L : Layout}.

(** Memory has at most [PHYSTOP - KERNBASE] bytes of free pages. *)
Lemma free_bound σ w : rep σ w -> Z.of_nat (length (w_free w)) * PGSIZE <= PHYSTOP - KERNBASE.
Proof.
  intros R. pose proof (fr_nodup _ _ (r_free _ _ R)) as Hnd.
  assert (forall a, a ∈ w_free w -> page_ok a) as Hok by (intros a Ha%(rep_free_kind R); by eapply (r_ok _ _ R)).
  set (f := fun a => Z.to_nat ((a - KERNBASE) / PGSIZE)).
  assert (NoDup (f <$> w_free w)) as Hf.
  { apply NoDup_fmap_2_strong; [|done]. intros a b Ha%Hok Hb%Hok. pose proof (page_ok_range a Ha). pose proof (page_ok_range b Hb).
    destruct Ha as [Ha _], Hb as [Hb _]. unfold f, aligned, KERNBASE, PHYSTOP, PGSIZE in *. dlia. }
  assert (f <$> w_free w ⊆ seq 0 (Z.to_nat ((PHYSTOP - KERNBASE) / PGSIZE))) as Hs.
  { intros k (a & -> & Ha%Hok)%list_elem_of_fmap. pose proof (page_ok_range a Ha). apply elem_of_seq.
    unfold f, PHYSTOP, KERNBASE, PGSIZE in *. dlia. }
  pose proof (submseteq_length _ _ (NoDup_submseteq _ _ Hf Hs)) as Hl. rewrite length_fmap, length_seq in Hl.
  unfold PHYSTOP, KERNBASE, PGSIZE in *. dlia.
Qed.

Lemma ext_length r σ w σ' w' : rep σ w -> rep σ' w' -> ext r σ w σ' w' -> (length (w_free w') <= length (w_free w))%nat.
Proof.
  intros R R' X. apply submseteq_length, NoDup_submseteq; [apply (fr_nodup _ _ (r_free _ _ R'))|].
  intros a. apply (x_free _ _ _ _ _ X).
Qed.

Context (r tf : Z) (σ : machine) (w : world).

Record image (sz : Z) (acc : Z -> bool) (img : Z -> Z) (σ' : machine) (w' : world) : Prop := {
  im_rep : rep σ' w';
  im_user : user_ok σ' w';
  im_cow : cow_ok w -> cow_ok w';
  im_ext : ext r σ w σ' w';
  im_fresh : r ∈ w_free w;
  im_other : forall r' va, r' <> r -> w_leaf w' !! (r', va) = w_leaf w !! (r', va);
  im_table : proc_table w' r sz tf;
  im_sz : 0 <= sz <= TRAPFRAME;
  im_room : PGROUNDUP sz + Z.of_nat (length (w_free w')) * PGSIZE <= Z.of_nat (length (w_free w)) * PGSIZE;
  im_page : forall p, aligned p -> 0 <= p < PGROUNDUP sz -> exists x, w_leaf w' !! (r, p) = Some x /\
    Z.testbit x 8 = false /\ Z.testbit x 4 = acc p /\ PTE2PA x ∈ w_free w /\
    forall o, 0 <= o < PGSIZE -> mget (m_mem σ') (PTE2PA x + o) = img (p + o);
  im_zero : forall va, PGROUNDUP sz <= va -> img va = 0;
  im_acc : forall p, PGROUNDUP sz <= p -> acc p = true
}.

Context (R : rep σ w) (U : user_ok σ w).

Lemma image_start σ' w' : building r σ w σ' w' -> proc_table w' r 0 tf -> image 0 (fun _ => true) (fun _ => 0) σ' w'.
Proof.
  intros [R1 U1 C1 X1 F1 N1 O1 V1] T. change (PGROUNDUP 0) with 0. split; try done; change (PGROUNDUP 0) with 0.
  - pose proof (ext_length r σ w σ' w' R R1 X1). unfold PGSIZE. lia.
  - intros p Hp H. lia.
Qed.

(** The user part of an image ends below the trapframe. *)
Lemma image_top sz acc img σ' w' : image sz acc img σ' w' ->
  sz <= PGROUNDUP sz <= PHYSTOP - KERNBASE /\ aligned (PGROUNDUP sz) /\ PGROUNDUP sz < sz + PGSIZE.
Proof.
  intros I. pose proof (im_room _ _ _ _ _ I) as Hr. pose proof (im_sz _ _ _ _ _ I) as H0. pose proof (free_bound σ w R) as Hb.
  destruct (PGROUNDUP_spec sz) as [Ha Hp]; [rewrite TRAPFRAME_eq in H0; unfold PGSIZE; lia|]. split; [|split; [done|]]; unfold PHYSTOP, KERNBASE, PGSIZE in *; lia.
Qed.

(** A page of user memory is mapped exactly below the size. *)
Lemma user_size_page w' sz p : 0 <= sz <= TRAPFRAME -> user_size w' r sz -> PGROUNDUP sz <= p -> p < TRAPFRAME -> w_leaf w' !! (r, p) = None.
Proof.
  intros Hs [_ Hm] Hp Hlt. destruct (w_leaf w' !! (r, p)) as [x|] eqn:E; [|done]. specialize (Hm p x E Hlt).
  unfold copy_pages in Hm. rewrite PGROUNDUP_eq in Hp by (rewrite TRAPFRAME_eq in *; unfold PGSIZE; lia). unfold PGSIZE in *. dlia.
Qed.

Lemma copy_pages_up sz : 0 <= sz <= TRAPFRAME -> Z.of_nat (copy_pages sz) * PGSIZE = PGROUNDUP sz.
Proof.
  intros Hs. rewrite PGROUNDUP_eq by (rewrite TRAPFRAME_eq in *; unfold PGSIZE; lia). unfold copy_pages, PGSIZE. dlia.
Qed.

Lemma mkpte_user a xperm : 0 <= a < 2 ^ 56 -> 0 <= xperm < 16 -> let x := mkpte a (Z.lor (Z.lor PTE_R PTE_U) xperm) in
  Z.testbit x 8 = false /\ Z.testbit x 4 = true.
Proof.
  intros Ha Hx x. unfold x. rewrite !mkpte_testbit, !Z.lor_spec by lia. split; [|done].
  replace (Z.testbit xperm 8) with false; [done|]. symmetry. apply Z.testbit_false; [lia|]. rewrite Z.div_small; [done|lia].
Qed.

(** The pages of an image keep their bytes when the table grows. *)
Lemma image_ext sz acc img σ1 w1 σ2 w2 p x : image sz acc img σ1 w1 -> ext r σ1 w1 σ2 w2 -> w_leaf w1 !! (r, p) = Some x -> p < TRAPFRAME ->
  forall o, 0 <= o < PGSIZE -> mget (m_mem σ2) (PTE2PA x + o) = mget (m_mem σ1) (PTE2PA x + o).
Proof.
  intros I X Hx Hp o Ho. apply (x_mem _ _ _ _ _ X). destruct (u_leaf _ _ (im_user _ _ _ _ _ I) _ _ _ Hx Hp) as [_ Hk].
  destruct (user_page _ _ _ _ _ (im_rep _ _ _ _ _ I) (im_user _ _ _ _ _ I) Hx Hp) as ([Hal _] & _).
  rewrite page_of_off by done. by rewrite Hk.
Qed.

(** Page-table pages may have been added. *)
Lemma image_regained sz acc img σ1 w1 σ2 w2 : image sz acc img σ1 w1 -> regained r σ1 w1 σ2 w2 -> image sz acc img σ2 w2.
Proof.
  intros I [R2 U2 X2 C2 El]. pose proof I as [R1 U1 C1 X1 F1 O1 [T1 T2 T3 T4 T5] S1 M1 P1 Z1 A1].
  split; try done.
  - intros C. by apply C2, C1.
  - exact (ext_trans _ _ _ _ _ _ _ R R1 X1 X2).
  - intros r' va Hne. rewrite El. by apply O1.
  - destruct T3 as [T3 T3']. split; rewrite ?El; try done; [by apply (x_node _ _ _ _ _ X2)|].
    split; [intros j Hj|intros va x]; rewrite El; [by apply T3|by apply T3'].
  - pose proof (ext_length r σ1 w1 σ2 w2 R1 R2 X2). unfold PGSIZE in *. lia.
  - intros p Hp Hr. destruct (P1 p Hp Hr) as (x & Hx & H8 & H4 & Hf & Hb). exists x. rewrite El. do 4 (split; [done|]).
    destruct (image_top _ _ _ _ _ I) as (Htop & _). assert (p < TRAPFRAME) as Hlt by (rewrite TRAPFRAME_eq; unfold PHYSTOP, KERNBASE in *; lia).
    intros o Ho. rewrite (image_ext _ _ _ _ _ _ _ _ _ I X2 Hx) by done. by apply Hb.
Qed.

Lemma roundup_pages sz newsz : 0 <= sz <= newsz -> newsz <= TRAPFRAME ->
  PGROUNDUP newsz = PGROUNDUP sz + Z.of_nat (pages_up (PGROUNDUP sz) newsz) * PGSIZE.
Proof.
  intros Hs Hn. rewrite TRAPFRAME_eq in Hn. rewrite !PGROUNDUP_eq by (unfold PGSIZE; lia). unfold pages_up, PGSIZE. dlia.
Qed.

(** A page below the new size: an old one, or one of the [k] new ones. *)
Lemma page_cases base k p : aligned base -> aligned p -> base <= p < base + Z.of_nat k * PGSIZE ->
  exists j, (j < k)%nat /\ p = base + Z.of_nat j * PGSIZE.
Proof. intros Hb Hp Hr. exists (Z.to_nat ((p - base) / PGSIZE)). unfold aligned, PGSIZE in *. dlia. Qed.

(** The table of a process that has grown. *)
Lemma grown_table sz newsz perm σ1 w1 σ2 w2 :
  let base := PGROUNDUP sz in let k := pages_up base newsz in
  proc_table w1 r sz tf -> 0 <= sz <= TRAPFRAME -> sz <= newsz -> grown r base perm k σ1 w1 σ2 w2 ->
  base + Z.of_nat k * PGSIZE <= TRAPFRAME -> proc_table w2 r newsz tf.
Proof.
  intros base k [T1 T2 [T3 T3'] T4 T5] Hs Hle [R2 U2 X2 C2 L2 O2 N2] Htop2.
  destruct (PGROUNDUP_TRAPFRAME sz Hs) as (Hal & Hr & _). fold base in Hal, Hr.
  assert (newsz <= base + Z.of_nat k * PGSIZE) as Hn by (unfold k, pages_up, PGSIZE; dlia).
  assert (PGROUNDUP newsz = base + Z.of_nat k * PGSIZE) as Er by (apply roundup_pages; lia).
  assert (forall p, p < base \/ TRAPFRAME <= p -> w_leaf w2 !! (r, p) = w_leaf w1 !! (r, p)) as Hold.
  { intros p Hp. apply O2. intros j Hj [= E]. unfold PGSIZE in *. lia. }
  destruct trap_va as (_ & _ & Htt). split; rewrite ?Hold by lia; try done; [by apply (x_node _ _ _ _ _ X2)|]. split.
  - intros j Hj. rewrite Z.add_0_l. set (p := Z.of_nat j * PGSIZE).
    assert (p < PGROUNDUP newsz) as Hp by (rewrite <- copy_pages_up by lia; unfold p, PGSIZE; lia).
    destruct (Z.lt_ge_cases p base) as [Hlt|Hge].
    + rewrite Hold by lia. destruct (T3 j) as [x Hx]; [|rewrite Z.add_0_l in Hx; fold p in Hx; by rewrite Hx].
      pose proof (copy_pages_up sz Hs) as Ec. fold base in Ec. unfold p, PGSIZE in *. lia.
    + destruct (page_cases base k p) as (i & Hi & ->); [done|unfold p, aligned; by rewrite Z.mod_mul|lia|].
      destruct (N2 i Hi) as (a & -> & _). done.
  - intros va x Hx Hlt. rewrite copy_pages_up, Er by lia. destruct (Z.lt_ge_cases va base) as [Hlb|Hgb]; [unfold PGSIZE; lia|].
    destruct (Z.lt_ge_cases va (base + Z.of_nat k * PGSIZE)) as [?|Hge]; [done|]. rewrite O2 in Hx.
    + rewrite (user_size_page w1 sz) in Hx; [done|done|by split|done|done].
    + intros j Hj [= E]. unfold PGSIZE in *. lia.
Qed.

Lemma image_grown sz newsz xperm acc img σ1 w1 σ2 w2 :
  let base := PGROUNDUP sz in let k := pages_up base newsz in
  image sz acc img σ1 w1 -> sz <= newsz -> 0 <= xperm < 16 ->
  grown r base (Z.lor (Z.lor PTE_R PTE_U) xperm) k σ1 w1 σ2 w2 -> base + Z.of_nat k * PGSIZE <= TRAPFRAME -> image newsz acc img σ2 w2.
Proof.
  intros base k I Hle Hxp G2 Htop2. pose proof G2 as [R2 U2 X2 C2 L2 O2 N2]. pose proof I as [R1 U1 C1 X1 F1 O1 T1 S1 M1 P1 Z1 A1].
  destruct (image_top _ _ _ _ _ I) as (Htop & Hal & Hup). fold base in Htop, Hal, Hup, M1, Z1, A1.
  assert (newsz <= base + Z.of_nat k * PGSIZE) as Hn by (unfold k, pages_up, PGSIZE; dlia).
  assert (PGROUNDUP newsz = base + Z.of_nat k * PGSIZE) as Er by (apply roundup_pages; lia).
  assert (forall p, p < base \/ TRAPFRAME <= p -> w_leaf w2 !! (r, p) = w_leaf w1 !! (r, p)) as Hold.
  { intros p Hp. apply O2. intros j Hj [= E]. unfold PGSIZE in *. lia. }
  split; rewrite ?Er; try done.
  - intros C. by apply C2, C1.
  - exact (ext_trans _ _ _ _ _ _ _ R R1 X1 X2).
  - intros r' va Hne. rewrite O2; [by apply O1|]. by intros j _ [= ?].
  - apply (grown_table sz newsz (Z.lor (Z.lor PTE_R PTE_U) xperm) σ1 w1 σ2 w2); try done; lia.
  - lia.
  - unfold PGSIZE in *. lia.
  - intros p Hp Hr. destruct (Z.lt_ge_cases p base) as [Hlt|Hge].
    + destruct (P1 p Hp) as (x & Hx & H8 & H4 & Hf & Hb); [lia|]. exists x. rewrite Hold by lia. do 4 (split; [done|]).
      intros o Ho. rewrite (image_ext _ _ _ _ _ _ _ _ _ I X2 Hx) by (done || lia). by apply Hb.
    + destruct (page_cases base k p) as (j & Hj & ->); [done|done|lia|].
      destruct (N2 j Hj) as (a & Ha & Hok & Hf & _ & _ & Hz). exists (mkpte a (Z.lor (Z.lor PTE_R PTE_U) xperm)).
      pose proof (page_ok_range a Hok) as Hra. assert (0 <= a < 2 ^ 56) as Ha56 by (unfold PHYSTOP, KERNBASE, PGSIZE in *; lia).
      assert (0 <= Z.lor (Z.lor PTE_R PTE_U) xperm < 1024) as Hperm by (apply (lor_range _ _ 10); [lia|done|lia]).
      destruct (mkpte_user a xperm Ha56 Hxp) as [H8 H4]. rewrite PTE2PA_mkpte by (done || apply Hok).
      split; [done|]. split; [done|]. split; [by rewrite H4, A1 by lia|]. split; [by apply (x_free _ _ _ _ _ X1)|].
      intros o Ho. rewrite Z1 by lia. apply Hz. apply page_of_off; [apply Hok|done].
  - intros va Hva. apply Z1. unfold PGSIZE in *. lia.
  - intros p Hp. apply A1. unfold PGSIZE in *. lia.
Qed.

(** ** The steps of [exec] on memory *)

(** Pages that an image of size [sz] can have cost: with each page at most two
    of the page table, and five for the top of the table. *)
Definition cost (sz : Z) : nat := (3 * copy_pages sz + 5)%nat.
Definition spare (sz : Z) (w' : world) : Prop := took (cost sz) w w'.

Lemma cost_grow sz newsz : 0 <= sz <= newsz -> sz <= TRAPFRAME -> cost newsz = (cost sz + 3 * pages_up (PGROUNDUP sz) newsz)%nat.
Proof.
  intros Hs Hn. rewrite TRAPFRAME_eq in Hn. unfold cost, copy_pages, pages_up. rewrite PGROUNDUP_eq by (unfold PGSIZE; lia). unfold PGSIZE. dlia.
Qed.

Lemma image_alloc_wp sz newsz xperm acc img σ1 w1 (Q : Z -> machine -> Prop) :
  image sz acc img σ1 w1 -> 0 <= newsz < 2 ^ 64 -> 0 <= xperm < 16 ->
  (newsz < sz -> Q sz σ1) ->
  (forall σ2 w2, sz <= newsz -> image newsz acc img σ2 w2 -> (spare sz w1 -> spare newsz w2) -> Q newsz σ2) ->
  (forall σ2 w2, sz <= newsz -> image sz acc img σ2 w2 -> (spare sz w1 -> (length (w_free w) <= cost newsz)%nat) -> Q 0 σ2) ->
  wp (uvmalloc r sz newsz xperm) σ1 Q.
Proof.
  intros I Hn Hxp HQ0 HQ1 HQ2. destruct (image_top _ _ _ _ _ I) as (Htop & Hal & _). pose proof (im_sz _ _ _ _ _ I) as Hsz.
  pose proof (im_room _ _ _ _ _ I) as Hroom. pose proof (free_bound σ w R) as Hb.
  apply (uvmalloc_wp σ1 w1 r sz newsz xperm); try done.
  - apply I.
  - apply I.
  - apply (pt_root _ _ _ _ (im_table _ _ _ _ _ I)).
  - apply Hn.
  - apply (lor_range _ _ 10); [lia|done|lia].
  - right. rewrite TRAPFRAME_eq. unfold PHYSTOP, KERNBASE in *. lia.
  - intros j _ Hj. apply (user_size_page w1 sz); [done|apply (im_table _ _ _ _ _ I)|unfold PGSIZE; lia|done].
  - intros σ2 w2 Hle G N Ht. apply (HQ1 σ2 w2 Hle); [by apply (image_grown sz newsz xperm acc img σ1 w1)|].
    unfold spare, took in *. rewrite (cost_grow sz newsz) by lia. lia.
  - intros σ2 w2 Hle G _ Hlen. apply (HQ2 σ2 w2 Hle); [by apply (image_regained sz acc img σ1 w1)|].
    unfold spare, took in *. rewrite (cost_grow sz newsz) by lia. lia.
Qed.

(** Bytes stored in a page of the image. *)
Lemma image_write sz acc img σ1 w1 p x off bs : image sz acc img σ1 w1 -> w_leaf w1 !! (r, p) = Some x -> 0 <= p < PGROUNDUP sz ->
  0 <= off -> off + Z.of_nat (length bs) <= PGSIZE -> Forall is_byte bs ->
  image sz acc (overlay img (p + off) bs) (set_mem (fun m => write_bytes m (PTE2PA x + off) bs) σ1) w1.
Proof.
  intros I Hx Hp Hoff Hlen Hbs. pose proof I as [R1 U1 C1 X1 F1 O1 T1 S1 M1 P1 Z1 A1].
  destruct (image_top _ _ _ _ _ I) as (Htop & Hal & _).
  assert (p < TRAPFRAME) as Hlt by (rewrite TRAPFRAME_eq; unfold PHYSTOP, KERNBASE in *; lia).
  destruct (user_page _ _ _ _ _ R1 U1 Hx Hlt) as (Hok & _ & Hku & _). destruct (leaf_node _ _ _ _ _ R1 Hx) as ([Hpal _] & _).
  destruct (P1 p Hpal Hp) as (x' & Hx' & _ & _ & Hfr & _). assert (x' = x) as -> by congruence.
  set (σ2 := set_mem _ σ1). assert (forall b, page_of b <> PTE2PA x -> mget (m_mem σ2) b = mget (m_mem σ1) b) as Hm.
  { intros b Hb. cbn. rewrite mget_write_bytes, decide_False; [done|]. intros Hr. apply Hb. apply page_of_in; [apply Hok|]. lia. }
  split; try done.
  - eapply rep_frame; [done|done| |done]. intros b Hb. apply Hm. intros E. by rewrite E, Hku in Hb.
  - by destruct U1.
  - destruct X1 as [? ? ? ? ? X6 ?]. split; try done. intros b Hb. rewrite Hm; [by apply X6|].
    intros E. apply (rep_free_kind R) in Hfr. by rewrite E, Hfr in Hb.
  - intros q Hq Hqr. destruct (P1 q Hq Hqr) as (y & Hy & H8 & H4 & Hf & Hb). exists y. do 4 (split; [done|]). intros o Ho.
    assert (q < TRAPFRAME) as Hqlt by (rewrite TRAPFRAME_eq; unfold PHYSTOP, KERNBASE in *; lia).
    destruct (user_page _ _ _ _ _ R1 U1 Hy Hqlt) as ([Hyal _] & _). destruct (decide (q = p)) as [->|Hne].
    + assert (y = x) as -> by congruence. unfold overlay. cbn. rewrite mget_write_bytes. repeat case_decide; try lia.
      * replace (Z.to_nat (PTE2PA x + o - (PTE2PA x + off))) with (Z.to_nat (p + o - (p + off))) by lia.
        rewrite nth_lookup. destruct (bs !! _) as [b|] eqn:Eb; [|apply lookup_ge_None in Eb; lia]. cbn.
        apply Z.mod_small. by apply (Forall_lookup_1 _ _ _ _ Hbs Eb).
      * by apply Hb.
    + rewrite Hm.
      * rewrite Hb by done. unfold overlay. rewrite decide_False; [done|]. unfold aligned, PGSIZE in *. intros Hr. apply Hne. dlia.
      * rewrite page_of_off by done. intros E. apply Hne. by apply (u_once _ _ U1 r q y p x).
  - intros va Hva. unfold overlay. rewrite decide_False; [by apply Z1|]. unfold aligned, PGSIZE in *. dlia.
Qed.

Lemma clear_U x : leaf_wf x -> let y := clear x PTE_U in
  leaf_wf y /\ PTE2PA y = PTE2PA x /\ Z.testbit y 4 = false /\ Z.testbit y 8 = Z.testbit x 8 /\ Z.testbit y 2 = Z.testbit x 2.
Proof.
  intros (Hr & H0 & H1) y. pose proof (clear_range x PTE_U) as Hc. unfold y, leaf_wf.
  rewrite !clear_spec by lia. rewrite H0, H1. split; [split; [lia|done]|]. split; [apply PTE2PA_clear; [lia|done]|].
  split; [by rewrite andb_false_r|]. by rewrite !andb_true_r.
Qed.

Definition except (acc : Z -> bool) (p q : Z) : bool := if decide (q = p) then false else acc q.

(** The guard page. *)
Lemma image_clear_wp sz acc img σ1 w1 p (Q : unit -> machine -> Prop) : image sz acc img σ1 w1 -> aligned p -> 0 <= p < PGROUNDUP sz ->
  (forall σ2 w2, image sz (except acc p) img σ2 w2 -> Q tt σ2) -> wp (uvmclear r p) σ1 Q.
Proof.
  intros I Hp Hpr HQ. pose proof I as [R1 U1 C1 X1 F1 O1 [T1 T2 [T3 T3'] T4 T5] S1 M1 P1 Z1 A1].
  destruct (image_top _ _ _ _ _ I) as (Htop & Hal & _).
  assert (PGROUNDUP sz < TRAPFRAME) as Hlt by (rewrite TRAPFRAME_eq; unfold PHYSTOP, KERNBASE in *; lia).
  destruct (P1 p Hp Hpr) as (x & Hx & H8 & H4 & Hf & Hb). destruct (leaf_node _ _ _ _ _ R1 Hx) as (Hva & Hr & t & Ht).
  destruct (user_page _ _ _ _ _ R1 U1 Hx ltac:(lia)) as (_ & Hwf & _ & _).
  destruct (clear_U x Hwf) as (Hwf' & Epa & E4 & E8 & E2). set (y := clear x PTE_U) in *.
  unfold uvmclear. wp_step. apply (walk_present_wp σ1 w1 r p t); [done|done|apply Hva|done|].
  erewrite pte_addr_nonzero by (done || apply PX_range). wp_step. apply wp_ld. rewrite (load_leaf σ1 w1 r p t), Hx by done.
  cbn [default from_option id]. fold y. apply wp_st. fold (store_entry t (PX 0 p) y σ1).
  assert (w_leaf (w_setleaf w1 r p y) = <[(r, p) := y]> (w_leaf w1)) as El by (cbn; by apply set_leaf_insert).
  assert (forall va, va <> p -> w_leaf (w_setleaf w1 r p y) !! (r, va) = w_leaf w1 !! (r, va)) as Hne
    by (intros va Hva'; rewrite El; apply lookup_insert_ne; congruence).
  destruct trap_va as (_ & _ & Htt). pose proof (ext_setleaf r σ1 w1 r p t y R1 Hva Ht) as X2.
  apply (HQ _ (w_setleaf w1 r p y)). split; try done.
  - apply rep_setleaf; [done|done|done|]. destruct Hwf' as [? _]. lia.
  - apply (user_ok_setflags σ1 w1 r p x); [done|done|lia|done|done].
  - intros C r' va z. rewrite El. intros [[[= <- <-] <-]|[_ Hz]]%lookup_insert_Some Hl HW; rewrite (urefs_insert _ _ _ _ _ _ Hx Epa).
    + rewrite Epa. apply (C1 C r p x); [done|lia|by rewrite <- E2].
    + by apply (C1 C r' va z).
  - exact (ext_trans _ _ _ _ _ _ _ R R1 X1 X2).
  - intros r' va Hr'. rewrite El, lookup_insert_ne by naive_solver. by apply O1.
  - split; rewrite ?Hne by lia; try done. split.
    + intros j Hj. destruct (decide (0 + Z.of_nat j * PGSIZE = p)) as [->|Hn]; [by rewrite El, lookup_insert_eq|]. rewrite Hne by done. by apply T3.
    + intros va z Hz Hvt. rewrite El in Hz. apply lookup_insert_Some in Hz as [[[= <-] _]|[_ Hz]]; [|by apply (T3' va z)].
      rewrite copy_pages_up by done. lia.
  - intros q Hq Hqr. unfold except. destruct (P1 q Hq Hqr) as (z & Hz & Hz8 & Hz4 & Hzf & Hzb).
    assert (q < TRAPFRAME) as Hqt by lia. pose proof (image_ext _ _ _ _ _ _ _ _ _ I X2 Hz Hqt) as Hmz.
    destruct (decide (q = p)) as [->|Hn].
    + assert (z = x) as -> by congruence. exists y. rewrite El, lookup_insert_eq, Epa, E8, E4. do 4 (split; [done|]).
      intros o Ho. rewrite Hmz by done. by apply Hzb.
    + exists z. rewrite Hne by done. do 4 (split; [done|]). intros o Ho. rewrite Hmz by done. by apply Hzb.
  - intros q Hq. unfold except. rewrite decide_False by lia. by apply A1.
Qed.

(** [copyout] inside one accessible page. *)
Lemma image_copyout_wp sz acc img σ1 w1 p off bs (Q : Z -> machine -> Prop) : image sz acc img σ1 w1 -> aligned p -> 0 <= p < PGROUNDUP sz ->
  acc p = true -> 0 <= off -> off + Z.of_nat (length bs) <= PGSIZE -> (0 < length bs)%nat -> Forall is_byte bs ->
  (forall σ2, image sz acc (overlay img (p + off) bs) σ2 w1 -> Q 0 σ2) -> wp (copyout r (p + off) bs) σ1 Q.
Proof.
  intros I Hp Hpr Hacc Hoff Hlen Hpos Hbs HQ. destruct (image_top _ _ _ _ _ I) as (Htop & Hal & _).
  assert (PGROUNDUP sz < TRAPFRAME) as Hlt by (rewrite TRAPFRAME_eq; unfold PHYSTOP, KERNBASE in *; lia). rewrite TRAPFRAME_eq in Hlt.
  destruct (im_page _ _ _ _ _ I p Hp Hpr) as (x & Hx & H8 & H4 & _).
  assert (p + PGSIZE <= PGROUNDUP sz) as Hpp by (unfold aligned, PGSIZE in *; dlia).
  assert (page_of (p + off) = p) as Epg by (apply page_of_in; [done|lia]).
  assert ((p + off) mod PGSIZE = off) as Emod by (unfold aligned, PGSIZE in *; dlia).
  unfold copyout. apply (wp_loop _ (fun n v σ' => (n = 1%nat /\ v = (p + off, bs) /\ σ' = σ1) \/
    (n = 0%nat /\ v.2 = [] /\ image sz acc (overlay img (p + off) bs) σ' w1)) _ _ 1%nat).
  - intros n [d src] σ' [(-> & [= -> ->] & ->)|(-> & E & I2)].
    2: { cbn in E. subst src. change (Z.of_nat (length []) >? 0) with false. cbv iota. wp_step. by apply HQ. }
    rewrite (proj2 (Z.gtb_lt _ _)) by lia. pose proof (im_table _ _ _ _ _ I) as [T1 _ _ _ _].
    wp_step. apply (walkaddr_user_wp σ1 w1); [apply I|apply I|done|unfold PGSIZE in *; lia|..].
    { intros Hno. exfalso. assert (uload σ1 w1 r (p + off) = Some (mget (m_mem σ1) (PTE2PA x + off))) as E.
      { apply uload_page; [apply I|apply I|done|rewrite TRAPFRAME_eq; lia|congruence|unfold PGSIZE in *; lia]. }
      rewrite Hno in E; [done|]. rewrite TRAPFRAME_eq. lia. }
    rewrite Epg. intros x' Hx' _ _ Hnz. assert (x' = x) as -> by congruence. rewrite (proj2 (Z.eqb_neq _ _)) by done.
    rewrite PGROUNDDOWN_eq by (unfold PGSIZE in *; lia). fold (page_of (p + off)). rewrite Epg.
    wp_step. apply (is_cowpage_wp σ1 w1 r p x); [apply I|done|]. rewrite H8. wp_step. wp_step. cbn [andb].
    replace (p + off - p) with off by lia.
    replace (if PGSIZE - off >? Z.of_nat (length bs) then Z.of_nat (length bs) else PGSIZE - off) with (Z.of_nat (length bs))
      by (destruct (Z.gtb_spec (PGSIZE - off) (Z.of_nat (length bs))); lia).
    rewrite Nat2Z.id, firstn_all. wp_step. wp_step. wp_step. exists 0%nat. split; [lia|]. right. split; [done|].
    rewrite drop_all. split; [done|]. by apply (image_write sz acc img σ1 w1 p x off bs).
  - by left.
  - unfold page_fuel. lia.
Qed.

(** Giving up. *)
Lemma image_free_wp sz acc img σ1 w1 (Q : unit -> machine -> Prop) : image sz acc img σ1 w1 ->
  (forall σ2 w2, restored σ w σ2 w2 -> Q tt σ2) -> wp (proc_freepagetable r sz) σ1 Q.
Proof.
  intros [R1 U1 C1 X1 F1 O1 T1 S1 M1 P1 Z1 A1] HQ. apply (proc_freepagetable_wp σ1 w1 r sz tf); try done.
  intros σ2 w2 D. apply (HQ σ2 w2). apply (ext_dropped r σ w σ1 w1 σ2 w2); try done. intros p. by apply (free_no_table σ).
Qed.
End Image.
