(* ===== verification/ExecSpec.v ===== *)
(** * What [exec] does

    [elf_exec] computes from the bytes of a file and the argument strings the
    memory image, the stack pointer and the entry point of the new program,
    with memory as a function.  [exec] of kernel/exec.c implements it on page
    tables, for any file system that obeys [ExecFsSpec]; when it fails it leaves
    nothing behind. *)

From S2P Require Import Prelude Riscv Mem Kalloc Vm VmRep VmSpec Cow Fork CowFault CopyOut VmGrow VmFree VmLife.
From S2P Require Import CString Monitor Proc Syscall BufCache Log Fs Exec ExecImage.

(** ** The reference *)

(** What [readi] returns of a file with the bytes [bs]. *)
Definition file_read (bs : list Z) (off n : Z) : list Z :=
  if (off >? Z.of_nat (length bs)) || (off + n >=? 2 ^ 32) then [] else take (Z.to_nat n) (drop (Z.to_nat off) bs).

(** The program headers from the [n]th last on, after memory up to [sz] has
    been filled with [img]. *)
Fixpoint elf_segs (bs : list Z) (n : nat) (off sz : Z) (img : Z -> Z) : option (Z * (Z -> Z)) :=
  match n with
  | O => Some (sz, img)
  | S n =>
      let hb := file_read bs (u32 off) PROGHDR in
      if negb (Z.of_nat (length hb) =? PROGHDR) then None
      else
        let ph := proghdr_of hb in
        let top := ph_vaddr ph + ph_memsz ph in
        if negb (ph_type ph =? ELF_PROG_LOAD) then elf_segs bs n (i32 (off + PROGHDR)) sz img
        else if (ph_memsz ph <? ph_filesz ph) || (u64 top <? ph_vaddr ph) || negb (ph_vaddr ph mod PGSIZE =? 0) || (Z.max sz top =? 0)
        then None
        else if (0 <? ph_filesz ph) && (Z.of_nat (length bs) <? u32 (ph_off ph) + ph_filesz ph) then None
        else elf_segs bs n (i32 (off + PROGHDR)) (Z.max sz top)
               (overlay img (ph_vaddr ph) (take (Z.to_nat (ph_filesz ph)) (drop (Z.to_nat (u32 (ph_off ph))) bs)))
  end.

(** The argument strings, each at an address that is a multiple of 16. *)
Fixpoint push_spec (base sp : Z) (args : list (list Z)) (ustack : list Z) (img : Z -> Z) : option (Z * list Z * (Z -> Z)) :=
  match args with
  | [] => Some (sp, ustack, img)
  | s :: args =>
      let sp := sp - (Z.of_nat (length s) + 1) in
      let sp := sp - sp mod 16 in
      if sp <? base then None else push_spec base sp args (ustack ++ [sp]) (overlay img sp (s ++ [0]))
  end.

Record program := Program { g_sz : Z; g_img : Z -> Z; g_sp : Z; g_entry : Z }.

(** The stack page below [top]: the strings, then the array of pointers to them. *)
Definition stack_spec (top : Z) (args : list (list Z)) (img : Z -> Z) : option (Z * (Z -> Z)) :=
  match push_spec (top - PGSIZE) top args [] img with
  | None => None
  | Some (sp, ustack, img) =>
      let sp := sp - (Z.of_nat (length ustack) + 1) * 8 in
      let sp := sp - sp mod 16 in
      if sp <? top - PGSIZE then None else Some (sp, overlay img sp (mjoin (map (le_bytes 8) (ustack ++ [0]))))
  end.

Definition with_stack (args : list (list Z)) (sz : Z) (img : Z -> Z) (entry : Z) : option program :=
  let top := (sz + PGSIZE - 1) / PGSIZE * PGSIZE + 2 * PGSIZE in
  match stack_spec top args img with
  | None => None
  | Some (sp, img) => Some (Program top img sp entry)
  end.

Definition elf_exec (bs : list Z) (args : list (list Z)) : option program :=
  let hb := file_read bs 0 ELFHDR in
  let elf := elfhdr_of hb in
  if negb (Z.of_nat (length hb) =? ELFHDR) || negb (e_magic elf =? ELF_MAGIC) then None
  else
    match elf_segs bs (Z.to_nat (e_phnum elf)) (i32 (e_phoff elf)) 0 (fun _ => 0) with
    | None => None
    | Some (sz, img) =>
        with_stack args sz img (e_entry elf)
    end.

(** ** The interface to the file system

    [file] gives the bytes of the file that a path names.  [fs_rest]: no
    operation is in progress; [fs_op], [fs_ref], [fs_open]: in an operation that
    began at [f0], without, with a reference to, with the lock of inode [i]. *)
Abbreviation files := (list Z -> option (list Z)).

Class ExecFsSpec (F : Type) `{!ExecFs F} := {
  fs_rest : F -> files -> Prop;
  fs_op : F -> files -> F -> Prop;
  fs_ref : F -> files -> F -> Z -> list Z -> Prop;
  fs_open : F -> files -> F -> Z -> list Z -> Prop;
  fs_after : F -> files -> F -> Prop;
  fs_bytes f0 file f i bs : fs_open f0 file f i bs -> Forall is_byte bs /\ Z.of_nat (length bs) < 2 ^ 31;
  begin_op_law f0 file : fs_rest f0 file -> wp xf_begin_op f0 (fun _ f => fs_op f0 file f);
  end_op_law f0 file f : fs_op f0 file f -> wp xf_end_op f (fun _ f' => fs_after f0 file f');
  namei_law f0 file f path : fs_op f0 file f ->
    wp (xf_namei path) f (fun r f' =>
      match file path with
      | None => r = None /\ fs_op f0 file f'
      | Some bs => exists i, r = Some i /\ fs_ref f0 file f' i bs
      end);
  ilock_law f0 file f i bs : fs_ref f0 file f i bs -> wp (xf_ilock i) f (fun _ f' => fs_open f0 file f' i bs);
  iunlockput_law f0 file f i bs : fs_open f0 file f i bs -> wp (xf_iunlockput i) f (fun _ f' => fs_op f0 file f');
  readi_law f0 file f i bs off n : fs_open f0 file f i bs -> 0 <= off < 2 ^ 32 -> 0 <= n < 2 ^ 32 ->
    wp (xf_readi i off n) f (fun r f' => fs_open f0 file f' i bs /\ r = (Z.of_nat (length (file_read bs off n)), file_read bs off n))
}.

Lemma file_read_bytes bs off n : Forall is_byte bs -> Forall is_byte (file_read bs off n).
Proof. intros H. unfold file_read. destruct (_ || _); [done|]. by apply Forall_take, Forall_drop. Qed.

Lemma file_read_full bs off n : 0 <= off -> 0 <= n -> Z.of_nat (length bs) < 2 ^ 31 -> off + n <= Z.of_nat (length bs) ->
  file_read bs off n = take (Z.to_nat n) (drop (Z.to_nat off) bs) /\ Z.of_nat (length (file_read bs off n)) = n.
Proof.
  intros Ho Hn Hl Hle. unfold file_read. rewrite Z.gtb_ltb, Z.geb_leb, (proj2 (Z.ltb_ge _ _)), (proj2 (Z.leb_gt _ _)) by lia. cbn [orb].
  split; [done|]. rewrite length_take, length_drop. lia.
Qed.

Lemma file_read_short bs off n : 0 <= off -> 0 < n -> Z.of_nat (length bs) < off + n -> Z.of_nat (length (file_read bs off n)) < n.
Proof.
  intros Ho Hn Hl. unfold file_read. destruct (_ || _); [cbn; lia|]. rewrite length_take, length_drop. lia.
Qed.

(** ** Lifted computations *)

Lemma wp_onm {F A} (m : M machine A) (s : kproc F) (Q : A -> kproc F -> Prop) :
  wp m (kp_m s) (fun a σ => Q a (Kproc σ (kp_f s) (kp_p s))) -> wp (onm m) s Q.
Proof. unfold wp, onm. by destruct (m (kp_m s)). Qed.
Lemma wp_onf {F A} (m : M F A) (s : kproc F) (Q : A -> kproc F -> Prop) :
  wp m (kp_f s) (fun a f => Q a (Kproc (kp_m s) f (kp_p s))) -> wp (onf m) s Q.
Proof. unfold wp, onf. by destruct (m (kp_f s)). Qed.

Lemma file_read_len bs off n : 0 <= n -> Z.of_nat (length (file_read bs off n)) <= n.
Proof. intros Hn. unfold file_read. destruct (_ || _); [cbn; lia|]. rewrite length_take. lia. Qed.

(** The next piece of a segment. *)
Lemma chunk_overlay img va bs o n i m v : 0 <= i < n -> 0 <= o -> m = Z.min (n - i) 4096 -> o + i + m <= Z.of_nat (length bs) ->
  overlay (overlay img va (take (Z.to_nat i) (take (Z.to_nat n) (drop (Z.to_nat o) bs)))) (va + i)
    (take (Z.to_nat m) (drop (Z.to_nat (o + i)) bs)) v =
  overlay img va (take (Z.to_nat (i + 4096)) (take (Z.to_nat n) (drop (Z.to_nat o) bs))) v.
Proof.
  intros Hi Ho Hm Hl. set (d := drop (Z.to_nat o) bs). assert (length d = (length bs - Z.to_nat o)%nat) as Hd by apply length_drop.
  rewrite take_take, (Nat.min_l (Z.to_nat i)) by lia. rewrite take_take.
  replace (Nat.min (Z.to_nat (i + 4096)) (Z.to_nat n)) with (Z.to_nat i + Z.to_nat m)%nat by lia.
  replace (drop (Z.to_nat (o + i)) bs) with (drop (Z.to_nat i) d) by (unfold d; rewrite drop_drop; f_equal; lia).
  rewrite <- (take_take_drop d). rewrite <- overlay_app. f_equal. rewrite length_take. lia.
Qed.

Lemma le_val_range l : Forall is_byte l -> 0 <= le_val l < 256 ^ Z.of_nat (length l).
Proof.
  induction 1 as [|b l Hb _ IH]; cbn [le_val length]; [done|]. rewrite Nat2Z.inj_succ, Z.pow_succ_r by lia. unfold is_byte in Hb. lia.
Qed.

Lemma field_range l o n : Forall is_byte l -> 0 <= field l o n < 256 ^ Z.of_nat n.
Proof.
  intros H. unfold field. pose proof (le_val_range (take n (drop o l)) ltac:(by apply Forall_take, Forall_drop)) as Hr.
  split; [lia|]. eapply Z.lt_le_trans; [apply Hr|]. apply Z.pow_le_mono_r; [lia|]. rewrite length_take. lia.
Qed.

Lemma flags2perm_range fl : 0 <= flags2perm fl < 16.
Proof. unfold flags2perm. by destruct (negb _), (negb _). Qed.

Lemma elf_segs_mono bs n : forall off sz img szf imgf, elf_segs bs n off sz img = Some (szf, imgf) -> sz <= szf.
Proof.
  induction n as [|n IH]; intros off sz img szf imgf; cbn [elf_segs]; [intros [= -> _]; lia|].
  destruct (negb _); [done|]. destruct (negb _); [apply IH|]. destruct (_ || _); [done|]. destruct (_ && _); [done|].
  intros H%IH. lia.
Qed.

Lemma u64_small x : 0 <= x < 2 ^ 64 -> u64 x = x.
Proof. apply Z.mod_small. Qed.

Lemma le_bytes_ok n v : length (le_bytes n v) = n /\ Forall is_byte (le_bytes n v).
Proof.
  revert v. induction n as [|n IH]; intros v; cbn [le_bytes]; [done|]. destruct (IH (v / 256)) as [IH1 IH2]. split; [cbn; by rewrite IH1|].
  constructor; [unfold is_byte; dlia|done].
Qed.

Lemma words_length l : length (mjoin (map (le_bytes 8) l)) = (8 * length l)%nat.
Proof.
  induction l as [|v l IH]; [done|]. change (mjoin (map (le_bytes 8) (v :: l))) with (le_bytes 8 v ++ mjoin (map (le_bytes 8) l)).
  rewrite length_app, IH, (proj1 (le_bytes_ok 8 v)). cbn [length]. lia.
Qed.

Lemma words_bytes l : Forall is_byte (mjoin (map (le_bytes 8) l)).
Proof.
  induction l as [|v l IH]; [done|]. change (mjoin (map (le_bytes 8) (v :: l))) with (le_bytes 8 v ++ mjoin (map (le_bytes 8) l)).
  apply Forall_app. split; [apply le_bytes_ok|done].
Qed.

Section Steps.
Context {F : Type}.
Implicit Types (σ : machine) (f : F) (p : proc).

Lemma onm_wp {A} (m : M machine A) σ f p (Q : A -> kproc F -> Prop) : wp m σ (fun a σ' => Q a (Kproc σ' f p)) -> wp (onm m) (Kproc σ f p) Q.
Proof. apply (wp_onm m (Kproc σ f p)). Qed.
Lemma onf_wp {A} (m : M F A) σ f p (Q : A -> kproc F -> Prop) : wp m f (fun a f' => Q a (Kproc σ f' p)) -> wp (onf m) (Kproc σ f p) Q.
Proof. apply (wp_onf m (Kproc σ f p)). Qed.
Lemma myproc_wp σ f p (Q : proc -> kproc F -> Prop) : Q p (Kproc σ f p) -> wp myproc (Kproc σ f p) Q.
Proof. done. Qed.
Lemma set_proc_wp g σ f p (Q : unit -> kproc F -> Prop) : Q tt (Kproc σ f (g p)) -> wp (set_proc g) (Kproc σ f p) Q.
Proof. done. Qed.
Lemma tf_set_wp o v σ f p (Q : unit -> kproc F -> Prop) :
  Q tt (Kproc (set_mem (fun m => store64 m (p_trapframe p + o) v) σ) f p) -> wp (tf_set o v) (Kproc σ f p) Q.
Proof. done. Qed.
Lemma tf_get_wp o σ f p (Q : Z -> kproc F -> Prop) :
  Q (load64 (m_mem σ) (p_trapframe p + o)) (Kproc σ f p) -> wp (tf_get o) (Kproc σ f p) Q.
Proof. done. Qed.
End Steps.

Section Exec.
Context `{L : Layout} {F : Type} `{!ExecFs F} `{!ExecFsSpec F}.
Context (σ : machine) (w : world) (R : rep σ w) (U : user_ok σ w).
Abbreviation kp := (kproc F).

Definition all_pages (_ : Z) : bool := true.

Lemma image_eq r tf sz acc img img' σ1 w1 : image r tf σ w sz acc img σ1 w1 -> (forall va, img' va = img va) ->
  image r tf σ w sz acc img' σ1 w1.
Proof.
  intros [] E. split; try done.
  - intros p Hp Hr. destruct (im_page p Hp Hr) as (x & H1 & H2 & H3 & H4 & H5). exists x. do 4 (split; [done|]). intros o Ho. by rewrite E, H5.
  - intros va Hva. rewrite E. by apply im_zero.
Qed.

(** ** Loading a segment *)

Section Load.
Context (f0 : F) (file : files) (r tf i : Z) (bs : list Z) (p : proc).

(** In the loop over the program headers. *)
Definition loading (sz : Z) (img : Z -> Z) (s : kp) : Prop :=
  (exists w1, image r tf σ w sz all_pages img (kp_m s) w1 /\ spare w sz w1) /\ fs_open f0 file (kp_f s) i bs /\ kp_p s = p.
(** When it is left on an error. *)
Definition gave_up (sz : Z) (s : kp) : Prop :=
  (exists w1 img, image r tf σ w sz all_pages img (kp_m s) w1) /\ fs_open f0 file (kp_f s) i bs /\ kp_p s = p.
Lemma loading_gave_up sz img s : loading sz img s -> gave_up sz s.
Proof. intros ((w1 & I & _) & O & P). split; [by exists w1, img|done]. Qed.

Lemma loading_read sz img s off n (Q : Z * list Z -> kp -> Prop) : loading sz img s -> 0 <= off < 2 ^ 32 -> 0 <= n < 2 ^ 32 ->
  (forall s', loading sz img s' -> kp_m s' = kp_m s -> Q (Z.of_nat (length (file_read bs off n)), file_read bs off n) s') ->
  wp (onf (xf_readi i off n)) s Q.
Proof.
  intros (I & O & P) Ho Hn HQ. apply wp_onf. eapply wp_mono; [by apply readi_law|]. intros a f [O' ->]. by apply HQ.
Qed.

Lemma loadseg_wp sz img s va off n (Q : Z -> kp -> Prop) : loading sz img s -> aligned va -> 0 <= va -> 0 <= n -> va + n <= sz ->
  (forall s', 0 < n -> u32 off + n <= Z.of_nat (length bs) ->
     loading sz (overlay img va (take (Z.to_nat n) (drop (Z.to_nat (u32 off)) bs))) s' -> Q 0 s') ->
  (forall s', n = 0 -> loading sz img s' -> Q 0 s') ->
  (forall s' img', 0 < n -> Z.of_nat (length bs) < u32 off + n -> loading sz img' s' -> Q (-1) s') ->
  wp (loadseg r va i off n) s Q.
Proof.
  intros Hld Hva Hva0 Hn0 Hsz HQ HQ0 HQ1. destruct Hld as ((w1 & I & Sp) & O & P). unfold loadseg.
  destruct (fs_bytes _ _ _ _ _ O) as [Hby Hlen]. destruct (image_top r tf σ w R _ _ _ _ _ I) as (Htop & Hal & _).
  assert (0 <= n < 2 ^ 30) as Hn by (unfold PHYSTOP, KERNBASE in *; lia). rewrite (u32_id n) by lia. clear Hn0.
  assert (0 <= u32 off < 2 ^ 32) as Hoff by (unfold u32; apply Z.mod_pos_bound; lia). set (o := u32 off) in *. clearbody o.
  set (data := drop (Z.to_nat o) bs).
  apply (wp_loop_var _ (fun i0 => (n - i0 + PGSIZE - 1) / PGSIZE) (fun i0 s1 => 0 <= i0 < n + PGSIZE /\ aligned i0 /\ (i0 = 0 \/ o + Z.min i0 n <= Z.of_nat (length bs)) /\
    loading sz (overlay img va (take (Z.to_nat i0) (take (Z.to_nat n) data))) s1)).
  - intros i0 s1 (Hi0 & Hia & Hor & Hl). unfold loadseg_step. destruct (i0 <? n) eqn:Elt; bool_to_prop.
    2: { wp_step. destruct (decide (n = 0)) as [->|Hne].
         - apply HQ0; [done|]. destruct Hl as ((w2 & I2 & Sp2) & ? & ?). split; [|done]. exists w2. split; [|done]. eapply image_eq; [exact I2|].
           intros v. change (Z.to_nat 0) with 0%nat. by rewrite take_0, take_nil, overlay_nil.
         - apply HQ; [lia|lia|]. by rewrite take_ge in Hl by (rewrite length_take; lia). }
    destruct Hl as ((w2 & I2 & Sp2) & O2 & P2). set (img2 := overlay img va (take (Z.to_nat i0) (take (Z.to_nat n) data))) in *.
    assert (0 <= va + i0 < PGROUNDUP sz /\ aligned (va + i0)) as [Hpg Hpal] by (unfold aligned, PGSIZE in *; dlia).
    destruct (im_page _ _ _ _ _ _ _ _ _ I2 (va + i0) Hpal Hpg) as (x & Hx & H8 & H4 & _).
    assert (va + i0 < TRAPFRAME) as Hlt by (rewrite TRAPFRAME_eq; unfold PHYSTOP, KERNBASE in *; lia).
    destruct (user_page _ _ _ _ _ (im_rep _ _ _ _ _ _ _ _ _ I2) (im_user _ _ _ _ _ _ _ _ _ I2) Hx Hlt) as (Hok & (_ & Hx0 & _) & _).
    pose proof (page_ok_range _ Hok) as Hrange. assert (MAXVA = 2 ^ 38) as EM by done. rewrite TRAPFRAME_eq in Hlt.
    unfold u64. rewrite (Z.mod_small (va + i0)) by lia.
    wp_step. apply wp_onm. apply (walkaddr_wp _ w2); [apply I2|apply (im_table _ _ _ _ _ _ _ _ _ I2)|by split; [|lia]|].
    rewrite Hx, Hx0, H4. cbn [andb all_pages]. rewrite (proj2 (Z.eqb_neq _ _)) by (unfold KERNBASE in *; lia).
    set (m := if n - i0 <? PGSIZE then n - i0 else PGSIZE).
    assert (m = Z.min (n - i0) PGSIZE) as Em by (unfold m; destruct (Z.ltb_spec (n - i0) PGSIZE); lia). clearbody m.
    unfold u32. rewrite (Z.mod_small (o + i0)) by lia. fold (u32 (i0 + PGSIZE)).
    wp_step. apply (loading_read sz img2); [split; [by exists w2|by split]|lia|unfold PGSIZE in *; lia|]. cbn [kp_m].
    intros s2 ((w3 & I3 & _) & O3 & P3) Em2. set (out := file_read bs (o + i0) m). cbn [fst snd]. wp_step. apply wp_onm. wp_step.
    assert (Z.of_nat (length out) <= PGSIZE) as Hol by (pose proof (file_read_len bs (o + i0) m); fold out in H; unfold PGSIZE in *; lia).
    rewrite Em2. pose proof (image_write r tf σ w R sz all_pages img2 _ w2 (va + i0) x 0 out I2 Hx Hpg ltac:(lia) ltac:(lia) (file_read_bytes _ _ _ Hby)) as I4.
    rewrite !Z.add_0_r in I4. destruct (Z.le_gt_cases (o + i0 + m) (Z.of_nat (length bs))) as [Hfull|Hshort].
    2: { rewrite (proj2 (Z.eqb_neq _ _)) by (pose proof (file_read_short bs (o + i0) m ltac:(lia) ltac:(unfold PGSIZE in *; lia) Hshort); unfold out; lia).
         cbn [negb]. wp_step. apply (HQ1 _ (overlay img2 (va + i0) out)); [lia|lia|]. split; [by exists w2|by split]. }
    destruct (file_read_full bs (o + i0) m) as [Eo El]; [lia|unfold PGSIZE in *; lia|done|done|]. fold out in Eo, El.
    rewrite El, Z.eqb_refl. cbn [negb]. wp_step. rewrite (u32_id (i0 + PGSIZE)) by (unfold PGSIZE; lia).
    split; [|unfold PGSIZE in *; dlia]. split; [unfold PGSIZE in *; lia|]. split; [unfold aligned, PGSIZE in *; dlia|].
    split; [right; lia|]. split; [|done]. exists w2. split; [|done]. eapply image_eq; [exact I4|]. intros v. unfold img2. symmetry.
    rewrite Eo. apply chunk_overlay; unfold PGSIZE in *; lia.
  - split; [unfold PGSIZE; lia|]. split; [done|]. split; [by left|]. split; [|done]. exists w1.
    split; [|done]. eapply image_eq; [exact I|]. intros v. change (Z.to_nat 0) with 0%nat. by rewrite take_0, overlay_nil.
  - unfold PGSIZE. dlia.
Qed.

(** Memory has run out, unless the file cannot be loaded anyway. *)
Definition short_of (o : option (Z * (Z -> Z))) : Prop :=
  match o with Some (szf, _) => (length (w_free w) <= cost szf)%nat | None => True end.

Lemma load_segs_wp n : forall off sz img s (Q : bool * Z -> kp -> Prop), loading sz img s ->
  (forall s' sz' img', elf_segs bs n off sz img = Some (sz', img') -> loading sz' img' s' -> Q (true, sz') s') ->
  (forall s' sz', short_of (elf_segs bs n off sz img) -> gave_up sz' s' -> Q (false, sz') s') ->
  wp (load_segs r i n off sz) s Q.
Proof.
  induction n as [|n IH]; intros off sz img s Q Hl HQ1 HQ0; cbn [load_segs elf_segs] in *.
  { wp_step. by apply (HQ1 s sz img). }
  destruct (fs_bytes _ _ _ _ _ (proj1 (proj2 Hl))) as [Hby Hlen].
  assert (0 <= u32 off < 2 ^ 32) as Hoff by (unfold u32; apply Z.mod_pos_bound; lia).
  wp_step. apply (loading_read sz img); [done|done|done|]. intros s1 Hl1 _. pose proof (loading_gave_up _ _ _ Hl1) as Hg1. set (hb := file_read bs (u32 off) PROGHDR) in *. cbn [fst snd].
  assert (Forall is_byte hb) as Hhb by (by apply file_read_bytes).
  destruct (negb (_ =? PROGHDR)); [wp_step; by apply (HQ0 s1 sz)|].
  set (ph := proghdr_of hb) in *. destruct (negb (ph_type ph =? ELF_PROG_LOAD)); [by apply (IH _ _ img)|].
  assert (0 <= ph_vaddr ph < 2 ^ 64 /\ 0 <= ph_memsz ph < 2 ^ 64 /\ 0 <= ph_filesz ph) as (Hva & Hms & Hfs).
  { split; [apply (field_range hb 16 8 Hhb)|]. split; [apply (field_range hb 40 8 Hhb)|apply (field_range hb 32 8 Hhb)]. }
  clearbody ph. destruct (ph_memsz ph <? ph_filesz ph) eqn:E1; cbn [orb] in *; bool_to_prop; [wp_step; by apply (HQ0 s1 sz)|].
  destruct (u64 _ <? ph_vaddr ph) eqn:E2; cbn [orb] in *; bool_to_prop; [wp_step; by apply (HQ0 s1 sz)|].
  destruct (negb _) eqn:E3; cbn [orb] in *; bool_to_prop; [wp_step; by apply (HQ0 s1 sz)|].
  set (top := ph_vaddr ph + ph_memsz ph) in *. assert (0 <= top < 2 ^ 64 /\ u64 top = top) as [Htop Eu] by (unfold u64, top in *; dlia).
  rewrite Eu in *. clear E2 Eu.
  set (o := u32 (ph_off ph)) in *. set (data := take (Z.to_nat (ph_filesz ph)) (drop (Z.to_nat o) bs)) in *.
  wp_step. apply wp_onm. destruct Hl1 as ((w1 & I1 & Sp1) & O1 & P1).
  assert (forall σ2 w2, image r tf σ w (Z.max sz top) all_pages img σ2 w2 -> spare w (Z.max sz top) w2 -> wp
    (if Z.max sz top =? 0 then mret (false, sz)
     else v ← loadseg r (ph_vaddr ph) i (ph_off ph) (ph_filesz ph);
          if v <? 0 then mret (false, Z.max sz top) else load_segs r i n (i32 (off + PROGHDR)) (Z.max sz top))
    (Kproc σ2 (kp_f s1) (kp_p s1)) Q) as Hgo.
  { intros σ2 w2 I2 Sp2. assert (loading (Z.max sz top) img (Kproc σ2 (kp_f s1) (kp_p s1))) as Hl2 by (split; [by exists w2|done]).
    destruct (Z.max sz top =? 0) eqn:E0; bool_to_prop.
    { wp_step. apply (HQ0 _ sz); [done|]. apply (loading_gave_up _ img). assert (sz = Z.max sz top) as -> by (pose proof (im_sz _ _ _ _ _ _ _ _ _ I1); lia). done. }
    wp_step. apply (loadseg_wp (Z.max sz top) img); [done|done|lia|done|unfold top; lia|..].
    - intros s3 H0 Hle Hl3. cbn [Z.ltb Z.compare]. fold o in Hle. rewrite (proj2 (Z.ltb_ge _ (o + _))), andb_false_r in HQ0, HQ1 by lia.
      by apply (IH _ _ (overlay img (ph_vaddr ph) data)).
    - intros s3 H0 Hl3. cbn [Z.ltb Z.compare]. rewrite H0 in HQ0, HQ1. cbn [Z.ltb Z.compare andb] in HQ0, HQ1.
      apply (IH _ _ (overlay img (ph_vaddr ph) data)); [|done|done].
      destruct Hl3 as ((w3 & I3 & Sp3) & O3 & P3). split; [|done]. exists w3. split; [|done]. eapply image_eq; [exact I3|]. intros v. unfold data. rewrite H0.
      change (Z.to_nat 0) with 0%nat. by rewrite take_0, overlay_nil.
    - intros s3 img' H0 Hgt Hl3. cbn [Z.ltb Z.compare]. fold o in Hgt. wp_step. apply (HQ0 s3 _); [|by apply (loading_gave_up _ img')].
      by rewrite (proj2 (Z.ltb_lt 0 _)), (proj2 (Z.ltb_lt _ (o + _))) by lia. }
  apply (image_alloc_wp r tf σ w R sz top (flags2perm (ph_flags ph)) all_pages img _ w1); [done|done|apply flags2perm_range|..].
  - intros Hlt. rewrite Z.max_l in Hgo by lia. destruct s1 as [m1 f1 p1]. by apply (Hgo m1 w1).
  - intros σ2 w2 Hle I2 Sp2. rewrite Z.max_r in Hgo by lia. apply (Hgo σ2 w2); [done|by apply Sp2].
  - intros σ2 w2 Hle I2 Hfew. rewrite Z.eqb_refl. wp_step. apply (HQ0 _ sz); [|by split; [exists w2, img|]].
    rewrite Z.max_r by lia. destruct (top =? 0); [done|]. destruct (_ && _); [done|].
    destruct (elf_segs bs n (i32 (off + PROGHDR)) top (overlay img (ph_vaddr ph) data)) as [[szf imgf]|] eqn:Es; [|done].
    apply elf_segs_mono in Es. cbn. etrans; [by apply Hfew|]. unfold cost, copy_pages, PGSIZE. dlia.
Qed.
End Load.

(** ** The arguments *)

(** The string [str] is in memory at [a], in pages that the allocator and the
    page tables do not use. *)
Definition arg_at (a : Z) (str : list Z) : Prop :=
  cstr (at_addr (m_mem σ) a) str /\ Z.of_nat (length str) < PGSIZE /\
  forall j, 0 <= j <= Z.of_nat (length str) -> meta (w_kind w !! page_of (a + j)) = false.

Lemma cstr_read m a str : cstr (at_addr m a) str -> read_bytes m a (length str + 1) = str ++ [0].
Proof.
  intros [H1 H2]. unfold read_bytes. apply list_eq_same_length with (n := (length str + 1)%nat);
    [by rewrite length_app|by rewrite length_map, length_seq|]. intros j x y Hj.
  rewrite list_lookup_fmap, lookup_seq_lt by lia. cbn. intros [= <-]. unfold at_addr in *.
  destruct (decide (j < length str)%nat) as [Hlt|Hge].
  - rewrite lookup_app_l by done. intros Hy. destruct (H1 j Hlt) as [-> _]. by apply nth_lookup_Some with (d := 0) in Hy.
  - assert (j = length str) as -> by lia. rewrite lookup_app_r, Nat.sub_diag by lia. intros [= <-]. done.
Qed.

Lemma arg_bytes m a str : cstr (at_addr m a) str -> Forall is_byte (str ++ [0]).
Proof.
  intros H. rewrite <- (cstr_read m a str H). unfold read_bytes. apply Forall_map, Forall_true. intros j. apply mget_range.
Qed.

Section Stack.
Context (r tf guard top : Z) (f : F) (p : proc).
Let acc := except all_pages guard.
Let base := top - PGSIZE.

Definition stacking (img : Z -> Z) (s : kp) : Prop :=
  (exists w1, image r tf σ w top acc img (kp_m s) w1) /\ kp_f s = f /\ kp_p s = p.

Context (Htop : aligned top) (Htop2 : 2 * PGSIZE <= top < 2 ^ 63) (Hguard : guard <> base).

Lemma stack_top : PGROUNDUP top = top.
Proof using Htop Htop2. apply PGROUNDUP_aligned; [unfold PGSIZE in *; lia|done]. Qed.

Lemma stack_copyout sp bs img s (Q : Z -> kp -> Prop) : stacking img s -> base <= sp -> sp + Z.of_nat (length bs) <= top ->
  (0 < length bs)%nat -> Forall is_byte bs -> (forall s', stacking (overlay img sp bs) s' -> Q 0 s') -> wp (onm (copyout r sp bs)) s Q.
Proof using All.
  intros ((w1 & I) & Hf & Hp) Hsp Hlen Hpos Hbs HQ. apply wp_onm.
  replace sp with (base + (sp - base)) by lia.
  apply (image_copyout_wp r tf σ w R top acc img (kp_m s) w1); try done.
  - unfold base, aligned, PGSIZE in *. dlia.
  - rewrite stack_top. unfold base, PGSIZE in *. lia.
  - unfold acc, except. by rewrite decide_False.
  - lia.
  - unfold base in *. lia.
  - intros σ2 I2. replace (base + (sp - base)) with sp in I2 by lia. apply HQ. split; [by exists w1|done].
Qed.

Lemma push_args_wp argv : forall args sp ustack img s (Q : option (Z * list Z) -> kp -> Prop),
  Forall2 arg_at argv args -> stacking img s -> base <= sp <= top -> Z.of_nat (length ustack + length argv) < MAXARG ->
  (forall sp' us' img' s', push_spec base sp args ustack img = Some (sp', us', img') -> stacking img' s' -> base <= sp' <= top ->
     length us' = (length ustack + length argv)%nat -> Q (Some (sp', us')) s') ->
  (forall img' s', push_spec base sp args ustack img = None -> stacking img' s' -> Q None s') ->
  wp (push_args r base argv sp ustack) s Q.
Proof using All.
  induction argv as [|a argv IH]; intros args sp ustack img s Q Ha Hs Hsp Hn HQ1 HQ0; cbn [push_args].
  { apply Forall2_nil_inv_l in Ha as ->. wp_step. apply (HQ1 _ _ img); try done; cbn; lia. }
  apply Forall2_cons_inv_l in Ha as (str & args' & (Hc & Hl & Hk) & Ha & ->). cbn [length] in Hn. cbn [push_spec] in HQ1, HQ0.
  rewrite Z.geb_leb, (proj2 (Z.leb_gt _ _)) by lia. wp_step. apply wp_onm. wp_step.
  pose proof Hs as ((w1 & I) & Hf & Hp).
  assert (cstr (at_addr (m_mem (kp_m s)) a) str) as Hc1.
  { destruct Hc as [Hc1 Hc2]. unfold at_addr in *.
    split; [intros j Hj|]; rewrite (x_mem _ _ _ _ _ (im_ext _ _ _ _ _ _ _ _ _ I)); try done; [by apply Hc1|apply Hk; lia|apply Hk; lia]. }
  rewrite (strlen_cstr _ str) by (done || unfold PGSIZE in *; lia).
  set (sp1 := sp - (Z.of_nat (length str) + 1)) in *. set (sp2 := sp1 - sp1 mod 16) in *.
  assert (0 <= sp1 < 2 ^ 64 /\ 0 <= sp2 <= sp1) as [Hs1 Hs2].
  { unfold sp1, sp2, base, PGSIZE in *. split; [lia|]. dlia. }
  unfold u64. rewrite (Z.mod_small sp1) by lia. fold sp2. rewrite (Z.mod_small sp2) by lia.
  destruct (sp2 <? base) eqn:E; bool_to_prop; [wp_step; by apply (HQ0 img)|].
  replace (Z.to_nat (Z.of_nat (length str) + 1)) with (length str + 1)%nat by lia. rewrite (cstr_read _ _ _ Hc1).
  wp_step. apply (stack_copyout sp2 (str ++ [0]) img); rewrite ?length_app; cbn [length]; try done; [unfold sp1 in *; lia|lia|by eapply arg_bytes|].
  intros s2 Hs3. cbn [Z.ltb Z.compare]. apply (IH args' sp2 _ (overlay img sp2 (str ++ [0]))); try done.
  - unfold sp1 in *. lia.
  - rewrite length_app. cbn [length]. lia.
  - intros sp' us' img' s' E1 Hst Hr Hlu. apply (HQ1 sp' us' img' s'); try done. rewrite Hlu, length_app. cbn [length]. lia.
Qed.
End Stack.

(** ** The new program *)

(** What a process of image [g] loads at [va]; the page below the stack is the
    guard. *)
Definition program_view (g : program) (va : Z) : option Z :=
  if (0 <=? va) && (va <? g_sz g) && negb ((g_sz g - 2 * PGSIZE <=? va) && (va <? g_sz g - PGSIZE)) then Some (g_img g va) else None.

Section Commit.
Context (p : proc).
Let old := p_pagetable p.
Let tf := p_trapframe p.
Context (Hold : proc_table w old (p_sz p) tf) (Hsz : 0 <= p_sz p <= TRAPFRAME).
Context (Htf : w_kind w !! tf = Some KKern).

Record replaced (g : program) (path : list Z) (s' : kp) : Prop := {
  rp_world : exists r w', p_pagetable (kp_p s') = r /\ r <> old /\ rep (kp_m s') w' /\ user_ok (kp_m s') w' /\ (cow_ok w -> cow_ok w') /\
    proc_table w' r (g_sz g) tf /\ (forall q, w_node w' !! (old, q) = None) /\
    (forall va, va < TRAPFRAME -> uload (kp_m s') w' r va = program_view g va) /\
    (forall r' va, r' <> r -> r' <> old -> va < TRAPFRAME -> uload (kp_m s') w' r' va = uload σ w r' va) /\
    (forall a, (exists q, w_kind w !! a = Some (KNode old q)) \/
       (w_kind w !! a = Some KUser /\ forall r' va x, w_leaf w !! (r', va) = Some x -> va < TRAPFRAME -> PTE2PA x = a -> r' = old) ->
       a ∈ w_free w');
  rp_proc : kp_p s' = set_exec (p_pagetable (kp_p s')) (g_sz g) (set_name (safestrcpy (at_list (last_elem path path)) 16) p);
  rp_epc : load64 (m_mem (kp_m s')) (tf + TF_epc) = g_entry g;
  rp_sp : load64 (m_mem (kp_m s')) (tf + TF_sp) = g_sp g;
  rp_a1 : load64 (m_mem (kp_m s')) (tf + TF_a1) = g_sp g
}.

Section New.
Context (r : Z) (g : program).
Let guard := g_sz g - 2 * PGSIZE.
Context (σ2 : machine) (w2 : world) (I : image r tf σ w (g_sz g) (except all_pages guard) (g_img g) σ2 w2).
Context (Hal : aligned (g_sz g)).

(** The user pages of the other tables are not touched, nor the kernel's. *)
Lemma image_view σ3 : (forall b, page_of b <> tf -> mget (m_mem σ3) b = mget (m_mem σ2) b) ->
  (forall va, va < TRAPFRAME -> uload σ3 w2 r va = program_view g va) /\
  (forall r' va, r' <> r -> va < TRAPFRAME -> uload σ3 w2 r' va = uload σ w r' va).
Proof using All.
  intros Hm. pose proof I as [R2 U2 C2 X2 F2 O2 T2 S2 M2 P2 Z2 A2].
  assert (PGROUNDUP (g_sz g) = g_sz g) as Er by (apply PGROUNDUP_aligned; [rewrite TRAPFRAME_eq in *; unfold PGSIZE; lia|done]).
  rewrite Er in *.
  assert (forall r' va x, w_leaf w2 !! (r', page_of va) = Some x -> va < TRAPFRAME ->
    mget (m_mem σ3) (PTE2PA x + va mod PGSIZE) = mget (m_mem σ2) (PTE2PA x + va mod PGSIZE)) as Hmx.
  { intros r' va x Hx Hlt. assert (page_of va < TRAPFRAME) as Hp by (apply page_of_lt; [apply TRAPFRAME_aligned|done]).
    destruct (user_page _ _ _ _ _ R2 U2 Hx Hp) as ([Hax _] & _ & Hk & _). apply Hm. rewrite page_of_pa by done. intros E.
    rewrite E, (x_kind _ _ _ _ _ X2), Htf in Hk; [done|]. by eapply (kind_not_free σ). }
  split.
  - intros va Hlt. unfold uload. destruct (Z.le_gt_cases 0 va) as [H0|Hneg].
    2: { destruct (w_leaf w2 !! (r, page_of va)) as [x|] eqn:Hx.
         - destruct (leaf_node _ _ _ _ _ R2 Hx) as ([_ Hv] & _). exfalso. unfold page_of, PGSIZE in Hv. dlia.
         - unfold program_view. by rewrite (proj2 (Z.leb_gt 0 va)) by lia. }
    assert (0 <= page_of va /\ page_of va <= va < page_of va + PGSIZE /\ aligned (page_of va)) as (Hp0 & Hpv & Hpal)
      by (unfold page_of, aligned, PGSIZE; dlia).
    unfold program_view. rewrite (proj2 (Z.leb_le 0 va)) by done. cbn [andb].
    destruct (va <? g_sz g) eqn:E; bool_to_prop; cbn [andb].
    + destruct (P2 (page_of va)) as (x & Hx & _ & H4 & _ & Hb); [done|lia|]. rewrite Hx.
      destruct (user_page _ _ _ _ _ R2 U2 Hx ltac:(rewrite TRAPFRAME_eq in *; lia)) as (_ & (_ & Hb0 & Hb1) & _).
      rewrite Hb0, Hb1, H4, andb_true_r. cbn [andb]. unfold except.
      assert (page_of va = guard <-> g_sz g - 2 * PGSIZE <= va < g_sz g - PGSIZE) as Hg.
      { unfold guard, page_of, aligned, PGSIZE in *. split; [intros; dlia|intros; dlia]. }
      destruct (decide (page_of va = guard)) as [Eg|Eg].
      * apply Hg in Eg. by rewrite (proj2 (Z.leb_le _ _)), (proj2 (Z.ltb_lt va _)) by lia.
      * destruct (_ <=? va) eqn:E1, (va <? g_sz g - PGSIZE) eqn:E2; bool_to_prop; cbn [andb negb all_pages]; try (exfalso; apply Eg, Hg; lia);
          (rewrite (Hmx r va x) by done; rewrite Hb by (unfold PGSIZE; dlia); by rewrite <- page_split).
    + rewrite (user_size_page r w2 (g_sz g)); [done|done|apply T2|rewrite Er; unfold aligned, PGSIZE in *; dlia|].
      apply page_of_lt; [apply TRAPFRAME_aligned|done].
  - intros r' va Hne Hlt. unfold uload. rewrite (O2 r') by done. destruct (w_leaf w !! (r', page_of va)) as [x|] eqn:Hx; [|done].
    destruct (_ && _); [|done]. assert (page_of va < TRAPFRAME) as Hp by (apply page_of_lt; [apply TRAPFRAME_aligned|done]).
    destruct (user_page _ _ _ _ _ R U Hx Hp) as ([Hax _] & _ & Hk & _). f_equal.
    rewrite (Hmx r' va x); [|by rewrite O2|done]. apply (x_mem _ _ _ _ _ X2). by rewrite page_of_pa, Hk by done.
Qed.

Lemma table_other r' sz' : r' <> r -> proc_table w r' sz' tf -> proc_table w2 r' sz' tf.
Proof using All.
  intros Hne [T1 T2 [T3 T3'] T4 T5]. pose proof (im_other _ _ _ _ _ _ _ _ _ I) as O2. pose proof (im_ext _ _ _ _ _ _ _ _ _ I) as X2.
  split; rewrite ?O2 by done; try done; [by apply (x_node _ _ _ _ _ X2)|]. split.
  - intros j Hj. rewrite O2 by done. by apply T3.
  - intros va x. rewrite O2 by done. apply T3'.
Qed.

Lemma new_ne_old : r <> old.
Proof using All.
  intros ->. pose proof (free_no_table σ w _ [] R (im_fresh _ _ _ _ _ _ _ _ _ I)) as E. rewrite (pt_root _ _ _ _ Hold) in E. done.
Qed.

(** Giving the old table back. *)
Lemma commit_view σ3 σ4 w4 : (forall b, page_of b <> tf -> mget (m_mem σ3) b = mget (m_mem σ2) b) -> rep σ3 w2 -> user_ok σ3 w2 ->
  dropped old σ3 w2 σ4 w4 ->
  (cow_ok w -> cow_ok w4) /\ proc_table w4 r (g_sz g) tf /\ (forall q, w_node w4 !! (old, q) = None) /\
  (forall va, va < TRAPFRAME -> uload σ4 w4 r va = program_view g va) /\
  (forall r' va, r' <> r -> r' <> old -> va < TRAPFRAME -> uload σ4 w4 r' va = uload σ w r' va).
Proof using All.
  intros Hm R3 U3 [R4 U4 C4 L4 N4 K4 M4 Q4]. destruct (image_view σ3 Hm) as [V1 V2]. pose proof new_ne_old as Hne.
  assert (forall r' va, r' <> old -> va < TRAPFRAME -> uload σ4 w4 r' va = uload σ3 w2 r' va) as Hv.
  { intros r' va Hr' Hlt. unfold uload. rewrite L4, decide_False by done. destruct (w_leaf w2 !! (r', page_of va)) as [x|] eqn:Hx; [|done].
    destruct (_ && _); [|done]. f_equal. assert (page_of va < TRAPFRAME) as Hp by (apply page_of_lt; [apply TRAPFRAME_aligned|done]).
    assert (w_leaf w4 !! (r', page_of va) = Some x) as Hx4 by (by rewrite L4, decide_False).
    destruct (user_page _ _ _ _ _ R4 U4 Hx4 Hp) as ([Hax _] & _ & Hk & _). apply M4. by rewrite page_of_pa, Hk by done. }
  split; [intros C; by apply C4, (im_cow _ _ _ _ _ _ _ _ _ I)|]. split; [|split; [|split]].
  - destruct (im_table _ _ _ _ _ _ _ _ _ I) as [T1 T2 [T3 T3'] T4 T5]. split; rewrite ?L4, ?N4, ?decide_False by done; try done. split.
    + intros j Hj. rewrite L4, decide_False by done. by apply T3.
    + intros va x. rewrite L4, decide_False by done. apply T3'.
  - intros q. by rewrite N4, decide_True.
  - intros va Hlt. rewrite Hv by done. by apply V1.
  - intros r' va Hr Hr' Hlt. rewrite Hv by done. by apply V2.
Qed.

Lemma commit_free σ3 σ4 w4 a : rep σ3 w2 -> dropped old σ3 w2 σ4 w4 ->
  (exists q, w_kind w !! a = Some (KNode old q)) \/
  (w_kind w !! a = Some KUser /\ forall r' va x, w_leaf w !! (r', va) = Some x -> va < TRAPFRAME -> PTE2PA x = a -> r' = old) ->
  a ∈ w_free w4.
Proof using All.
  intros R3 D Ha. pose proof I as [R2 U2 C2 X2 F2 O2 T2 S2 M2 P2 Z2 A2]. apply (dropped_free old σ3 w2 σ4 w4); [done|done|].
  destruct Ha as [[q Hq]|[Hk Hm]].
  - left. exists q. rewrite (x_kind _ _ _ _ _ X2); [done|]. by eapply (kind_not_free σ).
  - assert (a ∉ w_free w) as Hnf by (by eapply (kind_not_free σ)). right. split; [by rewrite (x_kind _ _ _ _ _ X2)|].
    intros r' va x Hx Hlt Hpa. destruct (decide (r' = r)) as [->|Hr']; [|rewrite O2 in Hx by done; by apply (Hm r' va x)].
    exfalso. apply Hnf. destruct (leaf_node _ _ _ _ _ R2 Hx) as ([Hval Hv0] & _).
    destruct (Z.lt_ge_cases va (PGROUNDUP (g_sz g))) as [Hl|Hge].
    + destruct (P2 va) as (x' & Hx' & _ & _ & Hf & _); [done|lia|]. assert (x' = x) as -> by congruence. by rewrite <- Hpa.
    + by rewrite (user_size_page r w2 (g_sz g)) in Hx; [|done|apply T2|..].
Qed.

Definition tf_written (a1 epc sp : Z) (m : machine) : machine :=
  set_mem (fun m => store64 m (tf + TF_sp) sp) (set_mem (fun m => store64 m (tf + TF_epc) epc) (set_mem (fun m => store64 m (tf + TF_a1) a1) m)).

Lemma tf_written_ok a1 epc sp : 0 <= a1 < 2 ^ 64 -> 0 <= epc < 2 ^ 64 -> 0 <= sp < 2 ^ 64 ->
  let σ3 := tf_written a1 epc sp σ2 in
  (forall b, page_of b <> tf -> mget (m_mem σ3) b = mget (m_mem σ2) b) /\ rep σ3 w2 /\ user_ok σ3 w2 /\
  load64 (m_mem σ3) (tf + TF_epc) = epc /\ load64 (m_mem σ3) (tf + TF_sp) = sp /\ load64 (m_mem σ3) (tf + TF_a1) = a1.
Proof using All.
  intros Ha He Hs σ3. pose proof I as [R2 U2 C2 X2 F2 O2 T2 S2 M2 P2 Z2 A2].
  pose proof (r_ok _ _ R _ _ Htf) as [Hta _].
  assert (w_kind w2 !! tf = Some KKern) as Hk2 by (rewrite (x_kind _ _ _ _ _ X2); [done|by eapply (kind_not_free σ)]).
  assert (forall b, page_of b <> tf -> mget (m_mem σ3) b = mget (m_mem σ2) b) as Hm.
  { intros b Hb. assert (~ tf <= b < tf + PGSIZE) as Hn by (by rewrite page_of_in). unfold σ3, tf_written, PGSIZE, TF_sp, TF_epc, TF_a1 in *. cbn [m_mem set_mem].
    by rewrite !mget_store64_ne by lia. }
  split; [done|]. split; [|split; [by destruct U2|]].
  - eapply rep_frame; [done|done| |done]. intros b Hb. apply Hm. intros E. by rewrite E, Hk2 in Hb.
  - unfold σ3, tf_written, TF_sp, TF_epc, TF_a1. cbn [m_mem set_mem]. split; [|split].
    + by rewrite load64_store64_ne, load64_store64 by (done || lia).
    + by rewrite load64_store64 by (done || lia).
    + by rewrite !load64_store64_ne, load64_store64 by (done || lia).
Qed.

Lemma exec_commit_wp path argc f (Q : Z -> kp -> Prop) : 0 <= g_sp g < 2 ^ 64 -> 0 <= g_entry g < 2 ^ 64 ->
  (forall s', replaced g path s' -> kp_f s' = f -> Q argc s') ->
  wp (exec_commit path r (g_sz g) (g_sp g) (g_entry g) argc (p_sz p)) (Kproc σ2 f p) Q.
Proof using All.
  intros Hsp He HQ. unfold exec_commit. set (nm := safestrcpy _ _).
  destruct (tf_written_ok (g_sp g) (g_entry g) (g_sp g) Hsp He Hsp) as (Hm & R3 & U3 & H1 & H2 & H3).
  wp_step. apply tf_set_wp. wp_step. apply set_proc_wp. wp_step. apply myproc_wp. wp_step. apply set_proc_wp.
  wp_step. apply tf_set_wp. wp_step. apply tf_set_wp. wp_step. apply onm_wp.
  assert (p_pagetable (set_name nm p) = old) as -> by reflexivity.
  set (p' := set_exec r (g_sz g) (set_name nm p)) in *. assert (p_trapframe p' = tf) as -> by reflexivity. fold tf.
  fold (tf_written (g_sp g) (g_entry g) (g_sp g) σ2). set (σ3 := tf_written _ _ _ σ2) in *. clearbody σ3.
  apply (proc_freepagetable_wp σ3 w2 old (p_sz p) tf); [done|done|done|apply table_other; [apply not_eq_sym, new_ne_old|done]|].
  intros σ4 w4 D. wp_step. apply HQ; [|done].
  destruct (commit_view σ3 σ4 w4 Hm R3 U3 D) as (C4 & T4 & N4 & V4 & V4'). pose proof (fun a => commit_free σ3 σ4 w4 a R3 D) as F4.
  assert (forall o, 0 <= o < 4000 -> load64 (m_mem σ4) (tf + o) = load64 (m_mem σ3) (tf + o)) as Htfm.
  { intros o Ho. pose proof (r_ok _ _ R _ _ Htf) as [Hta _]. apply load64_ext. intros b Hb. apply (dp_mem _ _ _ _ _ D).
    replace (page_of b) with tf by (symmetry; apply page_of_in; [done|unfold PGSIZE; lia]).
    pose proof (im_ext _ _ _ _ _ _ _ _ _ I) as X2. assert (w_kind w2 !! tf = Some KKern) as Hk2
      by (rewrite (x_kind _ _ _ _ _ X2); [done|by eapply (kind_not_free σ)]).
    destruct (dp_kind _ _ _ _ _ D tf) as [->|[_ [E|[q E]]]]; [by rewrite Hk2|congruence|congruence]. }
  split; cbn [kp_m kp_p p_pagetable set_exec].
  - exists r, w4. split; [done|]. split; [apply new_ne_old|]. split; [apply D|]. split; [apply D|]. done.
  - done.
  - rewrite Htfm by (unfold TF_epc; lia). exact H1.
  - rewrite Htfm by (unfold TF_sp; lia). exact H2.
  - rewrite Htfm by (unfold TF_a1; lia). exact H3.
Qed.
End New.

(** ** [exec] *)

(** Nothing has happened to the process and to memory. *)
Definition failed (s' : kp) : Prop := kp_p s' = p /\ exists w', restored σ w (kp_m s') w'.

Definition outcome (path : list Z) (args : list (list Z)) (og : option program) (res : Z) (s' : kp) : Prop :=
  match og with
  | Some g => (res = Z.of_nat (length args) /\ replaced g path s') \/ (res = -1 /\ failed s' /\ (length (w_free w) <= cost (g_sz g))%nat)
  | None => res = -1 /\ failed s'
  end.

Lemma new_table_nonzero r : r ∈ w_free w -> (r =? 0) = false.
Proof using All.
  intros Hr%(rep_free_kind R). pose proof (page_ok_range r (r_ok _ _ R _ _ Hr)). apply Z.eqb_neq. unfold KERNBASE in *. lia.
Qed.

Lemma bad_none_wp r sz acc img σ1 w1 f (Q : Z -> kp -> Prop) : image r tf σ w sz acc img σ1 w1 ->
  (forall s', failed s' -> kp_f s' = f -> Q (-1) s') -> wp (bad r sz None) (Kproc σ1 f p) Q.
Proof using All.
  intros I HQ. unfold bad. rewrite (new_table_nonzero r) by apply (im_fresh _ _ _ _ _ _ _ _ _ I). cbn [negb].
  wp_step. apply onm_wp. apply (image_free_wp r tf σ w R U sz acc img σ1 w1 _ I). intros σ2 w2 Hrs. wp_step. wp_step. wp_step.
  apply HQ; [|done]. split; [done|by exists w2].
Qed.

Lemma image_roundup r sz acc img σ1 w1 : image r tf σ w sz acc img σ1 w1 ->
  image r tf σ w (PGROUNDUP sz) acc img σ1 w1 /\ cost (PGROUNDUP sz) = cost sz.
Proof using All.
  intros I. pose proof I as [R1 U1 C1 X1 F1 O1 [T1 T2 [T3 T3'] T4 T5] S1 M1 P1 Z1 A1].
  destruct (image_top r tf σ w R _ _ _ _ _ I) as (Htop & Hal & Hup).
  assert (PGROUNDUP (PGROUNDUP sz) = PGROUNDUP sz) as E.
  { apply PGROUNDUP_aligned; [unfold PHYSTOP, KERNBASE, PGSIZE in *; lia|done]. }
  assert (copy_pages (PGROUNDUP sz) = copy_pages sz) as Ec.
  { pose proof (copy_pages_up sz S1) as E1. unfold copy_pages in *. unfold aligned, PGSIZE in *. dlia. }
  split; [|unfold cost; by rewrite Ec]. split; rewrite ?E; try done.
  - split; try done. unfold user_size. by rewrite Ec.
  - rewrite TRAPFRAME_eq. unfold PHYSTOP, KERNBASE in *. lia.
Qed.

(** The stack page, once it is there, and the commit. *)
Lemma exec_push_wp path argv args r top img entry s (Q : Z -> kp -> Prop) : stacking r tf (top - 2 * PGSIZE) top (kp_f s) p img s ->
  aligned top -> 2 * PGSIZE <= top -> 0 <= entry < 2 ^ 64 -> Forall2 arg_at argv args -> Z.of_nat (length argv) < MAXARG ->
  (forall res s', kp_f s' = kp_f s ->
     match stack_spec top args img with
     | Some (sp, img) => res = Z.of_nat (length args) /\ replaced (Program top img sp entry) path s'
     | None => res = -1 /\ failed s'
     end -> Q res s') ->
  wp (r0 ← push_args r (top - PGSIZE) argv top [];
      match r0 with
      | None => bad r top None
      | Some (sp, ustack) =>
          let argc := Z.of_nat (length ustack) in
          if argc >=? MAXARG then panic "ustack"
          else
            let sp := u64 (sp - (argc + 1) * 8) in
            let sp := u64 (sp - sp mod 16) in
            if sp <? top - PGSIZE then bad r top None
            else
              r1 ← onm (copyout r sp (mjoin (map (le_bytes 8) (ustack ++ [0]))));
              if r1 <? 0 then bad r top None
              else exec_commit path r top sp entry argc (p_sz p)
      end) s Q.
Proof using All.
  intros Hst Hal Htop He Ha Hn HQ. set (guard := top - 2 * PGSIZE) in *. assert (guard <> top - PGSIZE) as Hg by (unfold guard, PGSIZE; lia).
  assert (top < 2 ^ 63) as Htop2.
  { destruct Hst as ((w1 & I) & _). pose proof (im_sz _ _ _ _ _ _ _ _ _ I). rewrite TRAPFRAME_eq in *. lia. }
  assert (forall img' s', stacking r tf guard top (kp_f s) p img' s' -> stack_spec top args img = None -> wp (bad r top None) s' Q) as Hbad.
  { intros img' [m' f' p'] ((w1 & I) & Ef & Ep) Es. cbn [kp_f kp_p] in Ef, Ep. subst f' p'. apply (bad_none_wp r top (except all_pages guard) img' m' w1); [exact I|].
    intros s' Hf Ef. apply HQ; [done|]. by rewrite Es. }
  pose proof (Forall2_length _ _ _ Ha) as Hlen. unfold stack_spec in *. wp_step.
  apply (push_args_wp r tf guard top (kp_f s) p) with (args := args) (img := img); try done; try (cbn [length]; unfold PGSIZE in *; lia).
  2: { intros img' s' Ep Hst'. apply (Hbad img' s' Hst'). by rewrite Ep. }
  intros sp us img' s1 Ep Hst1 Hsp Hlu. cbn [length Nat.add] in Hlu. rewrite Ep in HQ, Hbad. rewrite Hlu in *.
  rewrite Z.geb_leb, (proj2 (Z.leb_gt _ _)) by lia. change MAXARG with 32 in Hn.
  set (sp1 := sp - (Z.of_nat (length argv) + 1) * 8) in *. set (sp2 := sp1 - sp1 mod 16) in *. cbn zeta.
  assert (0 <= sp1 < 2 ^ 63 /\ 0 <= sp2 <= sp1) as [Hs1 Hs2] by (unfold sp2, sp1, PGSIZE in *; split; [lia|dlia]).
  unfold u64. rewrite (Z.mod_small sp1) by lia. fold sp2. rewrite (Z.mod_small sp2) by lia.
  destruct (sp2 <? top - PGSIZE) eqn:E; bool_to_prop; [by apply (Hbad img')|]. set (ub := mjoin (map (le_bytes 8) (us ++ [0]))) in *.
  assert (length ub = (8 * (length argv + 1))%nat /\ Forall is_byte ub) as [Hul Hub].
  { unfold ub. rewrite <- Hlu. split; [|apply words_bytes]. rewrite words_length, length_app. done. }
  assert (sp2 + Z.of_nat (length ub) <= top) as Hfit by (rewrite Hul; unfold sp1 in *; lia).
  clearbody ub sp2. wp_step.
  apply (stack_copyout r tf guard top (kp_f s) p) with (img := img'); [exact Hal|lia|exact Hg|exact Hst1|lia|exact Hfit|lia|exact Hub|].
  intros [m2 f2 p2] ((w2 & I2) & Ef & Epp). cbn [kp_f kp_p kp_m] in *. subst f2 p2. cbn [Z.ltb Z.compare].
  apply (exec_commit_wp r (Program top (overlay img' sp2 ub) sp2 entry) m2 w2); cbn [g_sp g_entry]; try done; [lia|].
  intros s' Hr Ef. apply HQ; [done|]. by rewrite Hlen.
Qed.

Lemma exec_stack_wp path argv args r sz img entry σ1 w1 f (Q : Z -> kp -> Prop) : image r tf σ w sz all_pages img σ1 w1 -> spare w sz w1 ->
  0 <= entry < 2 ^ 64 -> Forall2 arg_at argv args -> Z.of_nat (length argv) < MAXARG ->
  (forall res s', kp_f s' = f -> outcome path args (with_stack args sz img entry) res s' -> Q res s') ->
  wp (exec_stack path argv r sz entry) (Kproc σ1 f p) Q.
Proof using All.
  intros I Sp He Ha Hn HQ. pose proof (image_top r tf σ w R _ _ _ _ _ I) as (Htop & Hal & _).
  unfold with_stack in HQ. rewrite <- PGROUNDUP_eq in HQ by (pose proof (im_sz _ _ _ _ _ _ _ _ _ I); rewrite TRAPFRAME_eq in *; unfold PGSIZE; lia).
  apply image_roundup in I as [I Ecost]. unfold spare in Sp. rewrite <- Ecost in Sp. fold (spare w (PGROUNDUP sz) w1) in Sp. clear Ecost. set (sz0 := PGROUNDUP sz) in *. unfold exec_stack. fold sz0. clearbody sz0.
  pose proof (im_sz _ _ _ _ _ _ _ _ _ I) as Hs0. rewrite TRAPFRAME_eq in Hs0.
  assert (PGROUNDUP sz0 = sz0) as Er by (apply PGROUNDUP_aligned; [unfold PGSIZE in *; lia|done]).
  wp_step. apply myproc_wp. wp_step. apply onm_wp. rewrite (u64_small (sz0 + 2 * PGSIZE)) by (unfold PGSIZE; lia).
  set (top := sz0 + 2 * PGSIZE) in *.
  apply (image_alloc_wp r tf σ w R sz0 top PTE_W all_pages img σ1 w1); [done|unfold top, PGSIZE; lia|done|unfold top, PGSIZE; lia|..].
  2: { intros σ2 w2 _ I2 Hfew. rewrite Z.eqb_refl. apply (bad_none_wp r sz0 all_pages img σ2 w2); [done|]. intros s' Hf Ef. apply HQ; [done|].
       destruct (stack_spec top args img) as [[sp img']|]; [|done]. right. split; [done|]. split; [done|]. cbn [g_sz].
       by apply Hfew. }
  intros σ2 w2 _ I2 _. rewrite (proj2 (Z.eqb_neq top 0)) by (unfold top, PGSIZE; lia).
  assert (aligned top) as Hta by (unfold top, aligned, PGSIZE in *; dlia).
  assert (PGROUNDUP top = top) as Et by (apply PGROUNDUP_aligned; [unfold top, PGSIZE; lia|done]).
  rewrite (u64_small (top - 2 * PGSIZE)) by (unfold top, PGSIZE; lia). rewrite (u64_small (top - PGSIZE)) by (unfold top, PGSIZE; lia).
  wp_step. apply onm_wp. apply (image_clear_wp r tf σ w R top all_pages img σ2 w2); [done|unfold top, aligned, PGSIZE in *; dlia|rewrite Et; unfold top, PGSIZE; lia|].
  intros σ3 w3 I3. apply (exec_push_wp path argv args r top img entry); try done; [by split; [exists w3|]|unfold top, PGSIZE; lia|].
  intros res s' Ef Ho. cbn [kp_f] in Ef. apply HQ; [done|]. destruct (stack_spec top args img) as [[sp img']|]; [by left|done].
Qed.

(** The inode is given back and the operation ends. *)
Lemma close_wp f0 file f i bs σ1 (Q : unit -> kp -> Prop) : fs_open f0 file f i bs -> (forall f', fs_after f0 file f' -> Q tt (Kproc σ1 f' p)) ->
  wp (onf (xf_iunlockput i);; onf xf_end_op) (Kproc σ1 f p) Q.
Proof using All.
  intros O HQ. wp_step. apply onf_wp. eapply wp_mono; [by eapply iunlockput_law|]. intros [] f1 O1.
  apply onf_wp. eapply wp_mono; [by eapply end_op_law|]. intros [] f2 O2. by apply HQ.
Qed.

Lemma bad_early_wp f0 file f i bs σ1 w1 (Q : Z -> kp -> Prop) : fs_open f0 file f i bs -> restored σ w σ1 w1 ->
  (forall s', failed s' -> fs_after f0 file (kp_f s') -> Q (-1) s') -> wp (bad 0 0 (Some i)) (Kproc σ1 f p) Q.
Proof using All.
  intros O Hr HQ. unfold bad. cbn [Z.eqb negb]. wp_step. wp_step. wp_step. eapply close_wp; [exact O|].
  intros f' Ha. wp_step. apply HQ; [|done]. split; [done|by exists w1].
Qed.

Lemma bad_some_wp f0 file r sz i bs s (Q : Z -> kp -> Prop) : gave_up f0 file r tf i bs p sz s ->
  (forall s', failed s' -> fs_after f0 file (kp_f s') -> Q (-1) s') -> wp (bad r sz (Some i)) s Q.
Proof using All.
  destruct s as [m f p']. intros ((w1 & img & I) & O & Ep) HQ. cbn [kp_m kp_f kp_p] in *. subst p'.
  unfold bad. rewrite (new_table_nonzero r) by apply (im_fresh _ _ _ _ _ _ _ _ _ I). cbn [negb].
  wp_step. apply onm_wp. apply (image_free_wp r tf σ w R U sz all_pages img m w1 _ I). intros σ2 w2 Hrs. wp_step.
  eapply close_wp; [exact O|]. intros f' Ha. wp_step. apply HQ; [|done]. split; [done|by exists w2].
Qed.

Lemma with_stack_cost args sz img entry g : 0 <= sz -> with_stack args sz img entry = Some g -> (cost sz <= cost (g_sz g))%nat.
Proof using All.
  intros Hs. unfold with_stack. destruct (stack_spec _ _ _) as [[sp img']|]; [|done]. intros [= <-]. cbn [g_sz].
  unfold cost, copy_pages, PGSIZE in *. dlia.
Qed.

Definition exec_result (file : files) (path : list Z) (args : list (list Z)) : option program :=
  match file path with Some bs => elf_exec bs args | None => None end.

Lemma exec_wp f0 file path argv args (Q : Z -> kp -> Prop) : fs_rest f0 file -> Forall2 arg_at argv args -> Z.of_nat (length argv) < MAXARG ->
  (forall res s', fs_after f0 file (kp_f s') -> outcome path args (exec_result file path args) res s' -> Q res s') ->
  wp (exec path argv) (Kproc σ f0 p) Q.
Proof using All.
  intros Hrest Ha Hn HQ. assert (restored σ w σ w) as Hrefl by (by split). unfold exec.
  wp_step. apply onf_wp. eapply wp_mono; [by apply begin_op_law|]. intros [] f1 O1.
  wp_step. apply onf_wp. eapply wp_mono; [by apply (namei_law f0 file f1 path)|]. intros ip f2. unfold exec_result in HQ.
  destruct (file path) as [bs|].
  2: { intros [-> O2]. wp_step. apply onf_wp. eapply wp_mono; [by apply (end_op_law f0 file)|]. intros [] f3 O3. wp_step.
       apply HQ; [done|]. split; [done|]. split; [done|by exists w]. }
  intros (i & -> & O2). wp_step. apply onf_wp. eapply wp_mono; [by eapply ilock_law|]. intros [] f3 O3.
  destruct (fs_bytes _ _ _ _ _ O3) as [Hby Hlen].
  wp_step. apply onf_wp. eapply wp_mono; [by apply (readi_law f0 file f3 i bs 0 ELFHDR)|]. intros rd f4 [O4 ->]. cbn [fst snd].
  unfold elf_exec in HQ. set (hb := file_read bs 0 ELFHDR) in *. assert (Forall is_byte hb) as Hhb by (by apply file_read_bytes). clearbody hb.
  destruct (negb (_ =? ELFHDR)); cbn [orb] in *.
  { eapply bad_early_wp; [exact O4|exact Hrefl|]. intros s' Hf Haf. by apply HQ. }
  set (elf := elfhdr_of hb) in *. assert (0 <= e_entry elf < 2 ^ 64) as He by apply (field_range hb 24 8 Hhb). clearbody elf.
  destruct (negb (_ =? ELF_MAGIC)).
  { eapply bad_early_wp; [exact O4|exact Hrefl|]. intros s' Hf Haf. by apply HQ. }
  wp_step. apply myproc_wp. wp_step. apply onm_wp. pose proof (page_ok_range _ (r_ok _ _ R _ _ Htf)) as Htr.
  apply (proc_pagetable_wp σ w); [done|done|change (p_trapframe p) with tf; unfold PHYSTOP, KERNBASE, PGSIZE in *; lia|..].
  2: { intros σ1 w1 Hr Hlean. rewrite Z.eqb_refl. eapply bad_early_wp; [exact O4|exact Hr|]. intros s' Hf Haf. apply HQ; [done|].
       destruct (elf_segs _ _ _ _ _) as [[sz img]|]; [|done]. destruct (with_stack _ _ _ _) as [g|]; [|done].
       right. split; [done|]. split; [done|]. unfold cost. lia. }
  intros σ1 w1 r B T N. pose proof (image_start r tf σ w R σ1 w1 B T) as I. rewrite (new_table_nonzero r) by apply (im_fresh _ _ _ _ _ _ _ _ _ I).
  wp_step. apply (load_segs_wp f0 file r tf i bs p) with (img := fun _ => 0); [by split; [exists w1|]|..].
  - intros [m f p'] sz img Es ((w2 & I2 & Sp2) & O5 & Ep). rewrite Es in HQ. cbn [kp_m kp_f kp_p] in *. subst p'.
    wp_step. apply onf_wp. eapply wp_mono; [by eapply iunlockput_law|]. intros [] f5 O6.
    wp_step. apply onf_wp. eapply wp_mono; [by apply (end_op_law f0 file)|]. intros [] f6 O7.
    apply (exec_stack_wp path argv args r sz img (e_entry elf) m w2); [done|done|done|done|done|].
    intros res s' Ef Ho. apply HQ; [by rewrite Ef|done].
  - intros s' sz Hsh Hl. eapply bad_some_wp; [exact Hl|]. intros s2 Hf Haf. apply HQ; [done|].
    destruct (elf_segs _ _ _ _ _) as [[szf imgf]|] eqn:Es; [|done]. cbn [short_of] in Hsh. apply elf_segs_mono in Es.
    destruct (with_stack _ _ _ _) as [g|] eqn:Ew; [|done]. right. split; [done|]. split; [done|]. etrans; [exact Hsh|].
    by eapply with_stack_cost.
Qed.

End Commit.
End Exec.
