(* ===== verification/ExecKernel.v ===== *)
(** * [exec] on the file system of the kernel

    The operations of kernel/log.c and kernel/fs.c that [exec] uses keep the
    laws of the interface it is verified against: a path names the file that
    [resolve] finds in the tree on the disk, and an [exec] leaves the log, the
    inode table and the disk as they were. *)

From S2P Require Import Prelude Riscv Mem CString BufCache Log Fs FsBlocks FsFile FsClaims FsPath FsDir.
From S2P Require Import Kalloc Vm VmRep VmSpec CopyOut Proc Syscall Exec ExecImage ExecSpec.

#[local] Set Default Proof Using "All".

Section Kernel.
Context {C : Type} `{!BufCache C} `{!BufCacheSpec C}.
Context (start nlog : Z) (Hlog : 0 <= start /\ 1 <= nlog /\ start + nlog < 2 ^ 31) (Hnl : nlog <= LOGSIZE).
Context (sb : superblock) (S : gset Z) (G : geom start nlog sb S).
Abbreviation fstate := (kst C fsx).
Abbreviation Idle := (idle start nlog sb S).
Implicit Types (f : fstate) (a : acache).

(** The bytes of inode [n], and of the file that a path names. *)
Definition inode_content (V : diskT) (n : Z) : list Z := content V (idisk sb V n).
Definition file_at a f (path : list Z) : option (list Z) := inode_content (a_view a) <$> resolve sb (a_view a) (path_start f path) (path_spec path).

(** No operation is in progress, and the log is empty. *)
Record at_rest a f (file : files) : Prop := {
  q_pre : lookup_pre start nlog sb S f a [];
  q_out : outstanding (k_log f) = 0;
  q_com : committing (k_log f) = false;
  q_file path : file path = file_at a f path
}.

(** Within the operation that began in [f0]; [D] are the references taken. *)
Record within a f0 (file : files) (lk : option Z) (D : Z -> Z) f : Prop := {
  wi_rest : at_rest a f0 file;
  wi_idle : Idle lk f a [];
  wi_refs : tdelta D (tab f0) (tab f);
  wi_log : k_log f = with_out 1 (k_log f0);
  wi_sb : f_sb (k_ext f) = f_sb (k_ext f0);
  wi_cwd : f_cwd (k_ext f) = f_cwd (k_ext f0)
}.

(** Slot [i] holds the reference to the file with the bytes [bs]. *)
Record target a f0 f (i : Z) (bs : list Z) : Prop := {
  tg_live : live sb start nlog S (a_view a) (i_inum (ent (tab f) i));
  tg_keep : i_nlink (idisk sb (a_view a) (i_inum (ent (tab f) i))) <> 0 \/ 0 < i_ref (ent (tab f0) i);
  tg_bytes : bs = inode_content (a_view a) (i_inum (ent (tab f) i))
}.

Definition k_rest f (file : files) : Prop := exists a, at_rest a f file.
Definition k_op f0 file f : Prop := exists a, within a f0 file None (fun _ => 0) f.
Definition k_ref f0 file f i bs : Prop := exists a, within a f0 file None (one i) f /\ target a f0 f i bs.
Definition k_open f0 file f i bs : Prop :=
  exists a, within a f0 file (Some i) (one i) f /\ target a f0 f i bs /\ i_valid (ent (tab f) i) = true.
Record k_after f0 (file : files) f : Prop := {
  ka_rest : k_rest f file;
  ka_refs : tdelta (fun _ => 0) (tab f0) (tab f);
  ka_log : k_log f = k_log f0;
  ka_cwd : f_cwd (k_ext f) = f_cwd (k_ext f0)
}.

Lemma rest_pre a f0 file f : within a f0 file None (fun _ => 0) f -> lookup_pre start nlog sb S f a [] /\
  forall path, path_start f path = path_start f0 path.
Proof.
  intros [[[I0 T0 (j & j' & H1 & H2 & H3 & H4 & H5) [C1 C2]] _ _ _] I R _ _ Ec].
  assert (i_inum (ent (tab f) (f_cwd (k_ext f))) = i_inum (ent (tab f0) (f_cwd (k_ext f0)))) as Ei by (rewrite Ec; by apply (R _)).
  split.
  - split; [done|done|..].
    + exists j, j'. do 3 (split; [done|]). split; [rewrite (proj1 (R j))|rewrite (proj1 (R j'))]; lia.
    + rewrite Ei. split; [|done]. rewrite Ec, (proj1 (R _)). lia.
  - intros [|c path]; [exact Ei|]. unfold path_start. by rewrite Ei.
Qed.

Lemma tdelta_refl t : tdelta (fun _ => 0) t t.
Proof. intros j. split; [lia|auto]. Qed.

(** With an empty log and nobody else in an operation, [end_op] has nothing to
    commit. *)
Lemma begin_quiet f : outstanding (k_log f) = 0 -> committing (k_log f) = false -> lh_n (k_log f) = 0 ->
  begin_op f = Ok tt (Kst (k_bc f) (with_out 1 (k_log f)) (k_ext f)).
Proof. destruct f as [c [st sz o cm dv n bl] x]. cbn. by intros -> -> ->. Qed.
Lemma end_quiet f l : k_log f = with_out 1 l -> outstanding l = 0 -> committing l = false -> lh_n l = 0 ->
  end_op f = Ok tt (Kst (k_bc f) l (k_ext f)).
Proof. destruct f as [c l' x], l as [st sz o cm dv n bl]. cbn. by intros -> -> -> ->. Qed.

Lemma idle_log lk f a l : Idle lk f a [] -> logged start nlog (Kst (k_bc f) l (k_ext f)) [] -> Idle lk (Kst (k_bc f) l (k_ext f)) a [].
Proof. intros [[] T] Hl. by split. Qed.

Lemma rest_log a f file : at_rest a f file -> logged start nlog f [] /\ lh_n (k_log f) = 0.
Proof. intros [[I _ _ _] _ _ _]. pose proof (rd_log _ _ _ _ _ _ _ _ (id_rd _ _ _ _ _ _ _ _ I)) as Hl. split; [done|]. apply (ld_n _ _ _ _ Hl). Qed.

Lemma k_begin f0 file : k_rest f0 file -> wp begin_op f0 (fun _ f => k_op f0 file f).
Proof.
  intros (a & Q). destruct (rest_log _ _ _ Q) as [Hl Hn]. pose proof Q as [[I0 T0 F0 C0] Ho Hc Hf].
  unfold wp. rewrite begin_quiet by done. exists a. split; try done; [|apply tdelta_refl]. apply idle_log; [done|]. by destruct Hl.
Qed.

Lemma k_end f0 file f : k_op f0 file f -> wp end_op f (fun _ f' => k_after f0 file f').
Proof.
  intros (a & W). destruct (rest_pre _ _ _ _ W) as [[I1 T1 F1 C1] Es]. destruct W as [Q I R El Esb Ec].
  destruct (rest_log _ _ _ Q) as [Hl Hn]. pose proof Q as [[I0 T0 F0 C0] Ho Hc Hf].
  unfold wp. rewrite (end_quiet f (k_log f0)) by done. split; try done. exists a. split; [|done|done|].
  - split; try done. apply idle_log; [done|]. by destruct Hl.
  - intros path. rewrite Hf. unfold file_at. do 2 f_equal. symmetry. apply Es.
Qed.

Lemma k_namei f0 file f path : k_op f0 file f -> wp (namei path) f (fun r f' =>
  match file path with
  | None => r = None /\ k_op f0 file f'
  | Some bs => exists i, r = Some i /\ k_ref f0 file f' i bs
  end).
Proof.
  intros (a & W). destruct (rest_pre _ _ _ _ W) as [P Es]. destruct W as [Q I R El Esb Ec].
  rewrite (q_file _ _ _ Q). unfold file_at.
  apply (namei_wp start nlog Hlog Hnl sb S G f a []); [done|..]; rewrite Es.
  - intros -> s' I' R' (M1 & M2 & M3). split; [done|]. exists a. split; try done; [|congruence..].
    eapply tdelta_trans; [exact R|exact R'|lia|done].
  - intros s' i n -> [Wi Wr Wn Wl Wk] (M1 & M2 & M3). exists i. split; [done|]. exists a. split.
    + split; try done; [|congruence..]. eapply tdelta_trans; [exact R|exact Wr|lia|done].
    + split; rewrite Wn; try done. destruct Wk as [?|Hr]; [by left|]. right. pose proof (proj1 (R i)) as Er. cbn in Er. lia.
Qed.

Lemma k_ilock f0 file f i bs : k_ref f0 file f i bs -> wp (ilock i) f (fun _ f' => k_open f0 file f' i bs).
Proof.
  intros (a & W & T). destruct W as [Q I R El Esb Ec]. pose proof T as [TL TK TB].
  pose proof (it_ref _ _ _ _ (id_tab _ _ _ _ _ _ _ _ (lp_idle _ _ _ _ _ _ _ (q_pre _ _ _ Q))) i) as H0.
  assert (0 < i_ref (ent (tab f) i)) as Hr by (rewrite (proj1 (R i)), one_self; lia).
  apply (ilock_wp start nlog Hlog Hnl sb S G f a []); [done|done|apply TL|]. intros c t Hc I' R' Hv.
  destruct (R' i) as [Er Ei]. destruct (Ei Hr) as [Ein _]. exists a. split; [|split].
  - split; try done. cbn. eapply tdelta_trans; [exact R|exact R'| |]; [|intros j; cbn; lia]. intros j Hj. pose proof (one_nonneg i j). lia.
  - split; cbn; rewrite Ein; done.
  - done.
Qed.

Lemma k_iunlockput f0 file f i bs : k_open f0 file f i bs -> wp (iunlockput i) f (fun _ f' => k_op f0 file f').
Proof.
  intros (a & W & T & Hv). destruct W as [Q I R El Esb Ec]. destruct T as [TL TK TB].
  pose proof (it_ref _ _ _ _ (id_tab _ _ _ _ _ _ _ _ (lp_idle _ _ _ _ _ _ _ (q_pre _ _ _ Q)))) as H0.
  destruct (locked_inode start nlog Hlog Hnl sb S G f a [] i I Hv) as (_ & _ & En & _).
  apply (iunlockput_wp start nlog Hlog Hnl sb S G f a []); [done|done|..].
  - rewrite En. destruct TK as [?|Hr]; [by left|right]. rewrite (proj1 (R i)), one_self. lia.
  - intros t I' R'. exists a. split; try done. cbn. eapply tdelta_trans; [exact R|exact R'| |intros j; cbn; lia].
    intros j Hj. pose proof (one_nonneg i j). lia.
Qed.

Lemma file_read_content V ip ip' off n : i_addrs ip' = i_addrs ip -> i_size ip' = i_size ip -> 0 <= i_size ip < 2 ^ 31 ->
  0 <= off < 2 ^ 32 -> 0 <= n < 2 ^ 32 ->
  fbytes V ip' off (Z.to_nat (readable ip' off n)) = file_read (content V ip) off n /\
  readable ip' off n = Z.of_nat (length (file_read (content V ip) off n)).
Proof.
  intros Ea Ez Hs Ho Hn. rewrite (fbytes_addrs start nlog Hlog Hnl sb S G V ip ip') by done.
  assert (length (content V ip) = Z.to_nat (i_size ip)) as Hl by apply fbytes_length.
  assert (readable ip' off n = if (off >? Z.of_nat (length (content V ip))) || (off + n >=? 2 ^ 32) then 0 else Z.min n (i_size ip - off)) as Er.
  { rewrite Hl, Z2Nat.id by lia. unfold readable. rewrite Ez, !Z.gtb_ltb, Z.geb_leb.
    destruct (i_size ip <? off) eqn:E1; cbn [orb]; [done|]. bool_to_prop.
    destruct (2 ^ 32 <=? off + n) eqn:E2; bool_to_prop.
    - unfold u32. replace ((off + n) mod 2 ^ 32) with (off + n - 2 ^ 32) by dlia. by rewrite (proj2 (Z.ltb_lt _ off)) by lia.
    - unfold u32. rewrite Z.mod_small by lia. rewrite (proj2 (Z.ltb_ge _ off)) by lia.
      destruct (i_size ip <? off + n) eqn:E3; bool_to_prop; lia. }
  unfold file_read in *. destruct (_ || _) eqn:E; [by rewrite Er|]. apply orb_false_iff in E as [E1 E2]. bool_to_prop. rewrite Er. split.
  - rewrite (fbytes_content V ip) by lia. destruct (Z.le_gt_cases n (i_size ip - off)); [by rewrite Z.min_l by lia|].
    rewrite Z.min_r by lia. rewrite !take_ge; [done|..]; rewrite length_drop; lia.
  - rewrite length_take, length_drop. lia.
Qed.

Lemma k_bytes f0 file f i bs : k_open f0 file f i bs -> Forall is_byte bs /\ Z.of_nat (length bs) < 2 ^ 31.
Proof.
  intros (a & W & [TL TK ->] & Hv). destruct TL as (_ & _ & Fo). pose proof (fo_size _ _ _ _ _ _ Fo) as Hs. change (MAXFILE * BSIZE) with 274432 in Hs.
  unfold inode_content, content. split; [|rewrite fbytes_length; lia]. unfold fbytes, fbyte. apply Forall_map, Forall_true. intros k. apply mget_range.
Qed.

Lemma k_readi f0 file f i bs off n : k_open f0 file f i bs -> 0 <= off < 2 ^ 32 -> 0 <= n < 2 ^ 32 ->
  wp (readi i kdst off n) f (fun r f' => k_open f0 file f' i bs /\ r = (Z.of_nat (length (file_read bs off n)), file_read bs off n)).
Proof.
  intros K Ho Hn. destruct (k_bytes _ _ _ _ _ K) as [_ Hlen]. destruct K as (a & W & T & Hv). destruct W as [Q I R El Esb Ec]. pose proof T as [TL TK TB].
  pose proof (locked_file start nlog Hlog Hnl sb S G f a [] i I Hv TL) as Fo.
  destruct (locked_inode start nlog Hlog Hnl sb S G f a [] i I Hv) as (_ & _ & _ & Ez & Ea).
  apply (readi_wp start nlog Hlog Hnl sb S G f a [] i _ kdst off n _ (id_rd _ _ _ _ _ _ _ _ I) (iat_ent start nlog Hlog Hnl sb S G f i) Fo Ho Hn); [|done].
  pose proof (fo_size _ _ _ _ _ _ Fo) as Hs. change (MAXFILE * BSIZE) with 274432 in Hs.
  destruct (file_read_content (a_view a) _ _ off n Ea Ez ltac:(lia) Ho Hn) as [E1 E2]. unfold inode_content in TB. rewrite <- TB in E1, E2.
  intros c Hc. rewrite E1, <- E2. split; [|done]. exists a. split; [|done]. split; try done.
  by apply (idle_bc start nlog Hlog Hnl sb S G).
Qed.

Definition kernel_fs_spec : ExecFsSpec fstate := {|
  fs_rest := k_rest; fs_op := k_op; fs_ref := k_ref; fs_open := k_open; fs_after := k_after;
  fs_bytes := k_bytes; begin_op_law := k_begin; end_op_law := k_end; namei_law := k_namei;
  ilock_law := k_ilock; iunlockput_law := k_iunlockput; readi_law := k_readi
|}.
End Kernel.
