(* ===== verification/TreeDemo.v ===== *)
(** * A small file system and a process

    A disk with a root directory that holds one program, the file system just
    after booting from it, and a machine with a process that has one page, its
    trapframe and a few free pages.  The examples of path lookup and of program
    loading use them. *)

From S2P Require Import Prelude Riscv Mem Kalloc Vm VmRep VmSpec Cow Fork CowFault CopyOut VmGrow VmFree VmLife RepCheck Demo.
From S2P Require Import CString BufCache Bio Log LogCrash Fs FsBlocks FsFile FsClaims FsPath FsDir.

(** ** The disk

    The layout of [ex_sb] with three inodes: inode 1 is the root, with its one
    entry in block 40; inode 2 is the program, in block 41. *)

Definition tree_sb : superblock := Superblock FSMAGIC 100 50 3 30 2 32 45.

(** An executable with one segment of four bytes for address 0. *)
Definition tree_prog : list Z :=
  [0x7f; 0x45; 0x4c; 0x46] ++ replicate 28 0 ++ [64] ++ replicate 23 0 ++ [1] ++ replicate 7 0 ++
  [1; 0; 0; 0; 5; 0; 0; 0; 120] ++ replicate 23 0 ++ [4] ++ replicate 7 0 ++ [8] ++ replicate 15 0 ++ [1; 2; 3; 4].

Definition tree_root : inode := Inode ROOTDEV 1 0 false true T_DIR 0 0 1 16 (40 :: replicate 12 0).
Definition tree_file : inode := Inode ROOTDEV 2 0 false true T_FILE 0 0 1 124 (41 :: replicate 12 0).

Definition tree_disk : diskT := {[
  32 := dinode_store (dinode_store ∅ (dinode_off 1) tree_root) (dinode_off 2) tree_file;
  40 := write_bytes ∅ 0 [2; 0; 97];
  41 := write_bytes ∅ 0 tree_prog;
  45 := list_to_map (zip [0; 1; 2; 3; 4; 5] [255; 255; 255; 255; 255; 127])
]}.

Lemma tree_geom : geom 2 30 tree_sb ex_S.
Proof. destruct ex_geom as [H1 H2 H3]. by split. Qed.

(** The view of the disk that matters. *)
Definition tree_view (V : diskT) : Prop := forall b, b ∈ [32; 40; 41; 45] -> dget V b = dget tree_disk b.

Lemma tree_used V b : tree_view V -> 0 <= b < 47 -> used tree_sb V b = true.
Proof.
  intros HV Hb. unfold used. assert (BBLOCK b tree_sb = 45) as ->.
  { unfold BBLOCK, tree_sb. cbn [sb_bmapstart]. change BPB with 8192. rewrite u32_id; dlia. }
  rewrite (HV 45) by set_solver.
  assert (forallb (fun j => bit_used (dget tree_disk 45) (Z.of_nat j mod BPB)) (seq 0 47) = true) as Hall by (vm_compute; reflexivity).
  rewrite forallb_forall in Hall. specialize (Hall (Z.to_nat b) ltac:(apply in_seq; lia)). by rewrite Z2Nat.id in Hall by lia.
Qed.

(** A file of one block. *)
Lemma one_block V ip b : tree_view V -> i_dev ip = ROOTDEV -> i_addrs ip = b :: replicate 12 0 -> 0 < i_size ip <= BSIZE -> b = 40 \/ b = 41 ->
  file_ok 2 30 tree_sb ex_S V ip.
Proof.
  intros HV Hd Ha Hs Hb.
  assert (addr_get ip 0 = b /\ addr_get ip NDIRECT = 0) as [E0 Ei] by (unfold addr_get; by rewrite Ha).
  assert (forall bn, 0 <= bn -> fblock V ip bn = if decide (bn = 0) then b else 0) as E.
  { intros bn Hbn. destruct (decide (bn = 0)) as [->|Hne]; [by rewrite fblock_dir by done|].
    destruct (Z.lt_ge_cases bn NDIRECT); [|by apply fblock_noind]. rewrite fblock_dir by done. unfold addr_get. rewrite Ha.
    destruct (Z.to_nat bn) as [|k] eqn:Ek; [lia|]. cbn [nth]. rewrite nth_lookup. destruct (replicate 12 0 !! k) eqn:El; [|done].
    by apply lookup_replicate in El as [-> _]. }
  split; try done.
  - by rewrite Ha.
  - change (MAXFILE * BSIZE) with 274432. unfold BSIZE in Hs. lia.
  - intros bn Hbn. rewrite E by lia. case_decide; [|done]. intros _. split; [unfold inrange; cbn; lia|].
    split; [unfold home, in_log; lia|]. split; [unfold ex_S; destruct Hb as [-> | ->]; set_solver|]. apply tree_used; [done|lia].
  - intros bn bn' Hbn Hbn'. rewrite !E by lia. repeat case_decide; try done; try lia.
  - intros bn Hbn. by rewrite Ei.
  - intros bn Hbn Hlt. rewrite E by lia. assert (bn = 0) as -> by (unfold BSIZE in *; lia). rewrite decide_True by done. lia.
Qed.

Lemma tree_idisk V : tree_view V -> idisk tree_sb V 1 = tree_root /\ idisk tree_sb V 2 = tree_file.
Proof.
  intros HV. unfold idisk, iload. change (IBLOCK 1 tree_sb) with 32. change (IBLOCK 2 tree_sb) with 32. rewrite (HV 32) by set_solver.
  split; vm_compute; reflexivity.
Qed.

Lemma tree_live V inum : tree_view V -> inum = 1 \/ inum = 2 -> live tree_sb 2 30 ex_S V inum /\ i_nlink (idisk tree_sb V inum) <> 0.
Proof.
  intros HV Hi. destruct (tree_idisk V HV) as [E1 E2].
  destruct Hi as [-> | ->]; [rewrite E1|rewrite E2]; (split; [|done]); (split; [cbn; lia|]); [rewrite E1|rewrite E2];
    (split; [done|]); [apply (one_block V _ 40)|apply (one_block V _ 41)]; try done; auto.
Qed.

Lemma tree_entries V : tree_view V -> dir_entries V tree_root = [Dirent 2 (97 :: replicate 13 0)].
Proof.
  intros HV. unfold dir_entries. change (Z.to_nat (i_size tree_root / DIRENT)) with 1%nat. cbn [seq map]. unfold dir_entry.
  rewrite fbytes_block by done. change (DIRENT * Z.of_nat 0) with 0. change (fblock V tree_root (0 / BSIZE)) with 40.
  rewrite (HV 40) by set_solver. vm_compute. reflexivity.
Qed.

Lemma tree_tree V : tree_view V -> tree_ok tree_sb 2 30 ex_S V.
Proof.
  intros HV. destruct (tree_idisk V HV) as [E1 E2].
  assert (forall inum, live tree_sb 2 30 ex_S V inum -> inum = 1 \/ inum = 2) as Hl by (intros inum ((H1 & H2) & _); cbn in H2; lia).
  split.
  - apply tree_live; auto.
  - intros inum [-> | ->]%Hl; [by rewrite E1|by rewrite E2].
  - intros inum de [-> | ->]%Hl; [|by rewrite E2]. rewrite E1, tree_entries by done. intros _ ->%list_elem_of_singleton _. apply tree_live; auto.
Qed.

(** ** The file system at rest: the current directory is the root *)

Definition tree_itable : gmap Z inode := {[0 := Inode ROOTDEV 1 1 false false 0 0 0 0 0 []]}.

Lemma tree_ent i : ent tree_itable i = if decide (i = 0) then Inode ROOTDEV 1 1 false false 0 0 0 0 0 [] else inode0.
Proof. unfold ent, tree_itable. rewrite lookup_singleton. case_decide; case_decide; by subst. Qed.

Lemma tree_table V : itable_ok tree_sb None V tree_itable.
Proof.
  split; intros i; rewrite ?tree_ent; try (destruct (decide (i = 0)) as [->|]; done).
  intros j. rewrite !tree_ent. destruct (decide (i = 0)) as [->|], (decide (j = 0)) as [->|]; done.
Qed.

Lemma tree_boot : exists (s : kst bcache fsx) a, lookup_pre 2 30 tree_sb ex_S s a [] /\ tree_view (a_view a) /\
  outstanding (k_log s) = 0 /\ committing (k_log s) = false /\ f_cwd (k_ext s) = 0 /\ tab s = tree_itable.
Proof.
  assert (recovers_to 2 30 tree_disk (dget tree_disk)) as HR by (apply (recovers_empty 2 30 ex_log); [done|reflexivity]).
  pose proof (boot_wp 2 30 ex_log tree_disk _ HR) as (u & s & E & a & Hq & Eo & Ec & _ & HV)%wp_elim.
  clear E u. destruct Hq as [Hc Hl Hp Hh Hn].
  assert (tree_view (a_view a)) as Hv.
  { intros b Hb. apply HV. unfold in_log. set_unfold in Hb. lia. }
  exists (Kst (k_bc s) (k_log s) (Fsx tree_sb tree_itable 0)), a.
  split; [|split; [done|split; [done|split; [done|done]]]]. split.
  - split; [|apply tree_table]. split; try done; [by destruct Hl; split|by apply loggable_nil, ex_log].
  - by apply tree_tree.
  - exists 1, 2. split; [done|]. unfold tab. cbn [k_ext f_itable]. rewrite !tree_ent. split; [done|]. split; [done|]. by split.
  - unfold tab. cbn [k_ext f_itable f_cwd]. rewrite !tree_ent. split; [done|]. apply (tree_live _ 1); auto.
Qed.

(** ** The process

    Root 0 with page-table pages 1 and 2 for its page 3, and 4 and 5 for the
    trampoline and the trapframe, page 6.  Page 7 holds an argument string.
    Pages 8 to 22 are free. *)

Definition xt : Z := mkpte trampoline (Z.lor PTE_R PTE_X).
Definition xf : Z := mkpte (pg 6) (Z.lor PTE_R PTE_W).
Definition tree_machine : machine := Machine
  (words ([(pg 0, link 1); (pg 0 + 8 * 255, link 4); (pg 1, link 2); (pg 2, x3); (pg 4 + 8 * 511, link 5);
           (pg 5 + 8 * 510, xf); (pg 5 + 8 * 511, xt); (pg 7, 97)] ++
          map (fun k => (pg k, pg (k + 1))) (map Z.of_nat (seq 8 14))))
  (pg 8) (counts (map (fun k => (k, 1)) [0; 1; 2; 3; 4; 5; 6; 7])).
Definition tree_world : world := World
  (map (fun k => pg (Z.of_nat k)) (seq 8 15))
  (list_to_map ([(pg 0, KNode (pg 0) []); (pg 1, KNode (pg 0) [0]); (pg 2, KNode (pg 0) [0; 0]); (pg 3, KUser);
     (pg 4, KNode (pg 0) [255]); (pg 5, KNode (pg 0) [255; 511]); (pg 6, KKern); (pg 7, KKern)] ++
     map (fun k => (pg (Z.of_nat k), KFree)) (seq 8 15)))
  (list_to_map [((pg 0, []), pg 0); ((pg 0, [0]), pg 1); ((pg 0, [0; 0]), pg 2); ((pg 0, [255]), pg 4); ((pg 0, [255; 511]), pg 5)])
  (list_to_map [((pg 0, 0), x3); ((pg 0, TRAPFRAME), xf); ((pg 0, TRAMPOLINE), xt)]).

Lemma tree_rep : rep tree_machine tree_world.
Proof. apply rep_check_spec. vm_compute. reflexivity. Qed.
Lemma tree_user : user_ok tree_machine tree_world.
Proof. apply user_check_spec. vm_compute. reflexivity. Qed.

Lemma tree_ptable : proc_table tree_world (pg 0) PGSIZE (pg 6).
Proof.
  split; [vm_compute; reflexivity|by vm_compute| |vm_compute; reflexivity|vm_compute; reflexivity].
  assert (copy_pages PGSIZE = 1%nat) as E by reflexivity. split; rewrite E.
  - intros [|j] Hj; [exists x3; vm_compute; reflexivity|lia].
  - intros va x Hx Hlt.
    assert (all_entries (fun k _ => (TRAPFRAME <=? k.2) || (k.2 <? PGSIZE)) (w_leaf tree_world) = true) as Hc by (vm_compute; reflexivity).
    apply (all_entries_spec _ _ _ _ Hc) in Hx. cbn [snd] in Hx. apply orb_true_iff in Hx as [Hx|Hx]; bool_to_prop; lia.
Qed.
