(* ===== verification/SyscallSpec.v ===== *)
(** * Growing and shrinking a process, and sleeping

    [sys_sbrk] on page tables: what the process and the others see afterwards,
    and when it fails.  [sys_sleep] returns after the ticks it was asked for. *)

From S2P Require Import Prelude Riscv Mem Kalloc Vm VmRep VmSpec Cow Fork CowFault CopyOut VmGrow VmFree VmLife Demo TreeDemo.
From S2P Require Import Monitor Proc Syscall BufCache Log Fs Exec ExecImage ExecSpec.

#[local] Set Default Proof Using "All".

Lemma int_range x : - 2 ^ 31 <= i32 x < 2 ^ 31.
Proof. unfold i32, sgn. destruct (_ <? _) eqn:E; bool_to_prop; dlia. Qed.

Section Sbrk.
Context `{L : Layout} {F : Type}.
Abbreviation kp := (kproc F).

Lemma set_sz_id q : set_sz (p_sz q) q = q.
Proof. by destruct q. Qed.

(** An address keeps its byte if its page keeps its entry and its content. *)
Lemma uload_keep σ w σ' w' r va : rep σ w -> user_ok σ w -> va < TRAPFRAME -> w_leaf w' !! (r, page_of va) = w_leaf w !! (r, page_of va) ->
  (forall x b, w_leaf w !! (r, page_of va) = Some x -> page_of b = PTE2PA x -> mget (m_mem σ') b = mget (m_mem σ) b) ->
  uload σ' w' r va = uload σ w r va.
Proof.
  intros R U Hva El Hm. unfold uload. rewrite El. destruct (w_leaf w !! (r, page_of va)) as [x|] eqn:Hx; [|done].
  destruct (user_page _ _ _ _ _ R U Hx) as ([Hax _] & _); [apply page_of_lt; [apply TRAPFRAME_aligned|done]|].
  rewrite (Hm x); [done|done|]. by apply page_of_pa.
Qed.

(** ** Where the pages go *)

(** Page [a] is mapped by table [pt] in the given range. *)
Definition maps_in (w : world) (pt lo hi a : Z) : Prop :=
  exists va x, lo <= va < hi /\ w_leaf w !! (pt, va) = Some x /\ PTE2PA x = a.
Definition only_in (w : world) (pt lo hi a : Z) : Prop :=
  maps_in w pt lo hi a /\
  forall r va x, w_leaf w !! (r, va) = Some x -> va < TRAPFRAME -> PTE2PA x = a -> r = pt /\ lo <= va < hi.

(** No page is lost when the size changes from [sz] to [sz'].  A page that was
    free is still free, or it is a page of the page table or of the new memory;
    the pages that have become free are those that were mapped in the memory
    taken away and nowhere else. *)
Record accounted (w : world) (pt sz sz' : Z) (w' : world) : Prop := {
  ac_free a : a ∈ w_free w -> a ∈ w_free w' \/ (exists q, w_node w' !! (pt, q) = Some a) \/ maps_in w' pt (PGROUNDUP sz) (PGROUNDUP sz') a;
  ac_given a : only_in w pt (PGROUNDUP sz') (PGROUNDUP sz) a -> a ∈ w_free w';
  ac_only a : a ∈ w_free w' -> a ∈ w_free w \/ only_in w pt (PGROUNDUP sz') (PGROUNDUP sz) a
}.

Lemma nothing_given w pt sz sz' a : PGROUNDUP sz <= PGROUNDUP sz' -> ~ only_in w pt (PGROUNDUP sz') (PGROUNDUP sz) a.
Proof. intros Hle [(va & x & Hva & _) _]. lia. Qed.

Lemma accounted_refl w pt sz : accounted w pt sz sz w.
Proof. split; [by left|intros a H; by apply nothing_given in H|by left]. Qed.

(** The call failed: only page-table pages are still in use. *)
Lemma accounted_regained σ w σ' w' pt sz : rep σ w -> user_ok σ w -> regained pt σ w σ' w' -> accounted w pt sz sz w'.
Proof.
  intros R U G. pose proof G as [R' _ X' _ _]. split.
  - intros a Ha. destruct (decide (a ∈ w_free w')) as [|Hn]; [by left|right; left].
    destruct (x_new _ _ _ _ _ X' a Ha Hn) as [Hu|[q Hq]]; [|exists q; by apply (r_node _ _ R')].
    apply (regained_user pt σ w σ' w' a U G) in Hu. apply (rep_free_kind R) in Ha. congruence.
  - intros a H. by apply nothing_given in H.
  - intros a Ha. left. by apply (x_free _ _ _ _ _ X').
Qed.

Lemma accounted_grown σ w σ' w' pt sz sz' perm k : rep σ w -> user_ok σ w ->
  grown pt (PGROUNDUP sz) perm k σ w σ' w' -> PGROUNDUP sz' = PGROUNDUP sz + Z.of_nat k * PGSIZE -> accounted w pt sz sz' w'.
Proof.
  intros R U [R' U' X' _ _ O' _] E. split.
  - intros a Ha. destruct (decide (a ∈ w_free w')) as [|Hn]; [by left|right].
    destruct (x_new _ _ _ _ _ X' a Ha Hn) as [Hu|[q Hq]]; [right|left; exists q; by apply (r_node _ _ R')].
    destruct (used_page _ _ a U' Hu) as (r & va & x & Hx & Hva & Ex).
    destruct (decide (Exists (fun j => (r, va) = (pt, PGROUNDUP sz + Z.of_nat j * PGSIZE)) (seq 0 k))) as [Hj|Hj].
    + apply Exists_exists in Hj as (j & [_ Hj]%elem_of_seq & [= -> ->]). exists (PGROUNDUP sz + Z.of_nat j * PGSIZE), x.
      split; [unfold PGSIZE in *; lia|done].
    + rewrite O' in Hx.
      * destruct (u_leaf _ _ U _ _ _ Hx Hva) as [_ Hk]. apply (rep_free_kind R) in Ha. congruence.
      * intros j Hjk Ek. apply Hj, Exists_exists. exists j. split; [apply elem_of_seq; lia|done].
  - intros a H. apply nothing_given in H; [done|]. unfold PGSIZE in *. lia.
  - intros a Ha. left. by apply (x_free _ _ _ _ _ X').
Qed.

Lemma accounted_shrunk σ w σ' pt sz sz' k : let w' := w_unmaps w pt (PGROUNDUP sz') k in
  rep σ w -> user_ok σ w -> rep σ' w' -> user_ok σ' w' -> shrink σ w σ' w' -> aligned (PGROUNDUP sz') ->
  PGROUNDUP sz = PGROUNDUP sz' + Z.of_nat k * PGSIZE -> PGROUNDUP sz <= TRAPFRAME -> accounted w pt sz sz' w'.
Proof.
  intros w' R U R' U' S' Hal E Ht.
  assert (forall r va x, w_leaf w !! (r, va) = Some x -> ~ (r = pt /\ PGROUNDUP sz' <= va < PGROUNDUP sz) -> w_leaf w' !! (r, va) = Some x) as Hkeep.
  { intros r va x Hx Hn. rewrite <- Hx. apply w_unmaps_ne. intros j Hj [= -> ->]. apply Hn. unfold PGSIZE in *. lia. }
  assert (forall r va x, w_leaf w' !! (r, va) = Some x -> w_leaf w !! (r, va) = Some x /\ ~ (r = pt /\ PGROUNDUP sz' <= va < PGROUNDUP sz)) as Hback.
  { intros r va x Hx. destruct (leaf_node _ _ _ _ _ R' Hx) as ([Hva _] & _).
    destruct (decide (r = pt /\ PGROUNDUP sz' <= va < PGROUNDUP sz)) as [[-> Hr]|Hn].
    - destruct (page_cases (PGROUNDUP sz') k va) as (j & Hj & ->); [done|done|lia|]. unfold w' in Hx. by rewrite w_unmaps_eq in Hx.
    - split; [|done]. rewrite <- Hx. symmetry. apply w_unmaps_ne. intros j Hj [= -> ->]. apply Hn. unfold PGSIZE in *. lia. }
  split.
  - intros a Ha. left. apply (r_kfree _ _ R'). apply (rep_free_kind R) in Ha. destruct (s_kind _ _ _ _ S' a) as [->|[? _]]; congruence.
  - intros a [(va & x & Hva & Hx & Ex) Honly]. apply (r_kfree _ _ R').
    destruct (u_leaf _ _ U _ _ _ Hx ltac:(lia)) as [_ Hk]. rewrite Ex in Hk. destruct (s_kind _ _ _ _ S' a) as [Ek|[_ ?]]; [|done].
    rewrite Hk in Ek. destruct (used_page _ _ a U' Ek) as (r & va' & x' & [Hx' Hn]%Hback & Hlt & Ex'). by destruct Hn; eapply Honly.
  - intros a Ha. apply (r_kfree _ _ R') in Ha. destruct (s_kind _ _ _ _ S' a) as [Ek|[Hu _]]; [left; apply (r_kfree _ _ R); congruence|right].
    assert (forall r va x, w_leaf w !! (r, va) = Some x -> va < TRAPFRAME -> PTE2PA x = a -> r = pt /\ PGROUNDUP sz' <= va < PGROUNDUP sz) as Honly.
    { intros r va x Hx Hva Ex. apply dec_stable. intros Hn. apply (Hkeep _ _ _ Hx) in Hn.
      destruct (u_leaf _ _ U' _ _ _ Hn Hva) as [_ Hk]. congruence. }
    split; [|done]. destruct (used_page _ _ a U Hu) as (r & va & x & Hx & Hlt & Ex). destruct (Honly _ _ _ Hx Hlt Ex) as [-> Hr]. by exists va, x.
Qed.

Section Process.
Context (σ : machine) (w : world) (p : proc) (R : rep σ w) (U : user_ok σ w).
Let pt := p_pagetable p.
Let sz := p_sz p.
Let tf := p_trapframe p.
Context (T : proc_table w pt sz tf) (Hsz : 0 <= sz <= 2 ^ 37).

(** The process has the size [sz']: its memory below both sizes is as before,
    what is new is zero, and there is nothing above.  No other process sees a
    change, the kernel's own pages are as before, and no page is lost. *)
Record resized (sz' : Z) (s' : kp) : Prop := {
  rz_world : exists w', rep (kp_m s') w' /\ user_ok (kp_m s') w' /\ (cow_ok w -> cow_ok w') /\ proc_table w' pt sz' tf /\
    (forall r va, va < TRAPFRAME -> r <> pt \/ va < PGROUNDUP (Z.min sz sz') -> uload (kp_m s') w' r va = uload σ w r va) /\
    (forall va, PGROUNDUP sz <= va < PGROUNDUP sz' -> uload (kp_m s') w' pt va = Some 0) /\
    (forall va, PGROUNDUP sz' <= va < TRAPFRAME -> uload (kp_m s') w' pt va = None) /\
    (forall b, w_kind w !! page_of b = Some KKern -> mget (m_mem (kp_m s')) b = mget (m_mem σ) b) /\
    accounted w pt sz sz' w';
  rz_proc : kp_p s' = set_sz sz' p
}.

Lemma size_top : sz <= TRAPFRAME.
Proof. rewrite TRAPFRAME_eq. lia. Qed.

Lemma above_none w' sz' va : 0 <= sz' <= TRAPFRAME -> user_size w' pt sz' -> PGROUNDUP sz' <= va < TRAPFRAME ->
  w_leaf w' !! (pt, page_of va) = None.
Proof.
  intros Hs Hu [Hl Ht]. destruct (PGROUNDUP_TRAPFRAME sz' Hs) as (Ha & _).
  apply (user_size_page pt w' sz'); [done|done|unfold page_of, aligned, PGSIZE in *; dlia|apply page_of_lt; [apply TRAPFRAME_aligned|done]].
Qed.

Lemma resized_same s' : kp_m s' = σ -> kp_p s' = p -> resized sz s'.
Proof.
  intros Em Ep. split; [|rewrite Ep; by destruct p]. exists w. rewrite Em. do 4 (split; [done|]). split; [done|].
  split; [lia|]. split; [|split; [done|apply accounted_refl]]. intros va Hva. unfold uload.
  rewrite (above_none w sz); [done| |apply T|done]. pose proof size_top. lia.
Qed.

(** Memory of the pages in use survives. *)
Lemma keep_ext σ' w' x b va r : ext pt σ w σ' w' -> va < TRAPFRAME -> w_leaf w !! (r, va) = Some x -> page_of b = PTE2PA x ->
  mget (m_mem σ') b = mget (m_mem σ) b.
Proof.
  intros X Hva Hx Hb. apply (x_mem _ _ _ _ _ X). rewrite Hb. by destruct (user_page _ _ _ _ _ R U Hx Hva) as (_ & _ & -> & _).
Qed.

Lemma resized_regained σ' w' f : regained pt σ w σ' w' -> resized sz (Kproc σ' f p).
Proof.
  intros G. pose proof G as [R' U' X' C' El]. destruct T as [T1 T2 [T3 T3'] T4 T5]. split; [|by destruct p]. exists w'. do 3 (split; [done|]).
  assert (user_size w' pt sz) as Hus by (split; [intros j Hj; rewrite El; by apply T3|intros va x; rewrite El; apply T3']).
  split; [split; rewrite ?El; try done; by apply (x_node _ _ _ _ _ X')|]. split; [|split; [lia|split; [|split]]].
  - intros r va Hva _. apply uload_keep; [done|done|done|by rewrite El|]. intros x b Hx. eapply keep_ext; [done| |done].
    apply page_of_lt; [apply TRAPFRAME_aligned|done].
  - intros va Hva. unfold uload. rewrite (above_none w' sz); [done| |done|done]. pose proof size_top. lia.
  - intros b Hb. apply (x_mem _ _ _ _ _ X'). cbn. by rewrite Hb.
  - by apply (accounted_regained σ w σ' w').
Qed.

Lemma resized_grown newsz σ' w' f : let base := PGROUNDUP sz in let k := pages_up base newsz in
  sz <= newsz -> grown pt base (Z.lor (Z.lor PTE_R PTE_U) PTE_W) k σ w σ' w' -> base + Z.of_nat k * PGSIZE <= TRAPFRAME ->
  resized newsz (Kproc σ' f (set_sz newsz p)).
Proof.
  intros base k Hle G Htop. pose proof size_top as Ht. destruct (PGROUNDUP_TRAPFRAME sz ltac:(lia)) as (Hal & Hr & _). fold base in Hal, Hr.
  pose proof (grown_table pt tf sz newsz _ σ w σ' w' T ltac:(lia) Hle G Htop) as T'.
  assert (newsz <= base + Z.of_nat k * PGSIZE) as Hn by (unfold k, pages_up, PGSIZE; dlia).
  assert (PGROUNDUP newsz = base + Z.of_nat k * PGSIZE) as Er by (apply roundup_pages; lia).
  pose proof (accounted_grown σ w σ' w' pt sz newsz _ k R U G Er) as Hac.
  destruct G as [R' U' X' C' L' O' N']. split; [|done]. exists w'. do 4 (split; [done|]). rewrite (Z.min_l sz newsz) by lia. split; [|split; [|split; [|split; [|done]]]].
  - intros r va Hva Hor. assert (page_of va < TRAPFRAME) as Hp by (apply page_of_lt; [apply TRAPFRAME_aligned|done]).
    apply uload_keep; [done|done|done| |intros x b Hx; by eapply keep_ext].
    apply O'. intros j Hj [= -> E]. destruct Hor as [?|Hlt]; [done|]. fold base in Hlt. unfold page_of, PGSIZE in *. dlia.
  - fold base. rewrite Er. intros va Hva. destruct (page_cases base k (page_of va)) as (j & Hj & Ep);
      [done|unfold page_of, aligned, PGSIZE; dlia|unfold page_of, aligned, PGSIZE in *; dlia|].
    destruct (N' j Hj) as (a & Ha & Hok & _ & Hk & _ & Hz). rewrite <- Ep in Ha.
    assert (page_of va < TRAPFRAME) as Hp by (apply page_of_lt; [apply TRAPFRAME_aligned|lia]).
    destruct (user_page _ _ _ _ _ R' U' Ha Hp) as ([Hax _] & (_ & Hb0 & Hb1) & _). cbn [kp_m]. unfold uload. rewrite Ha, Hb0, Hb1.
    pose proof (page_ok_range a Hok) as Hra.
    destruct (mkpte_user a PTE_W) as [_ ->]; [unfold PHYSTOP, KERNBASE, PGSIZE in *; lia|done|]. cbn [andb]. f_equal. apply Hz.
    rewrite page_of_pa by done. by rewrite PTE2PA_mkpte by (done || apply Hok || (unfold PHYSTOP, KERNBASE, PGSIZE in *; lia)).
  - intros va Hva. cbn [kp_m]. unfold uload. rewrite (above_none w' newsz); [done|lia|apply T'|done].
  - intros b Hb. apply (x_mem _ _ _ _ _ X'). by rewrite Hb.
Qed.

Lemma roundup_between newsz : 0 <= newsz <= sz -> PGROUNDUP newsz + Z.of_nat (pages_between newsz sz) * PGSIZE = PGROUNDUP sz.
Proof.
  intros Hn. pose proof size_top as Ht. rewrite TRAPFRAME_eq in Ht. unfold pages_between. rewrite !PGROUNDUP_eq by (unfold PGSIZE; lia). unfold PGSIZE. dlia.
Qed.

Lemma mapped_above newsz j : 0 <= newsz <= sz -> (j < pages_between newsz sz)%nat -> is_Some (w_leaf w !! (pt, PGROUNDUP newsz + Z.of_nat j * PGSIZE)).
Proof.
  intros Hn Hj. pose proof size_top as Ht. pose proof (roundup_between newsz Hn) as E.
  pose proof (copy_pages_up newsz ltac:(lia)) as E1. pose proof (copy_pages_up sz ltac:(lia)) as E2.
  destruct (pt_size _ _ _ _ T) as [T3 _]. destruct (T3 (copy_pages newsz + j)%nat) as [x Hx]; [unfold PGSIZE in *; lia|]. exists x.
  rewrite <- Hx. do 2 f_equal. unfold PGSIZE in *. lia.
Qed.

Lemma resized_shrunk newsz σ' f : let base := PGROUNDUP newsz in let k := pages_between newsz sz in
  0 <= newsz < sz -> rep σ' (w_unmaps w pt base k) -> user_ok σ' (w_unmaps w pt base k) -> shrink σ w σ' (w_unmaps w pt base k) ->
  resized newsz (Kproc σ' f (set_sz newsz p)).
Proof.
  intros base k Hn R' U' S'. pose proof size_top as Ht. destruct (PGROUNDUP_TRAPFRAME sz ltac:(lia)) as (Hal & Hr & _).
  destruct (PGROUNDUP_TRAPFRAME newsz ltac:(lia)) as (Hal' & Hr' & _). fold base in Hal', Hr'.
  destruct T as [T1 T2 [T3 T3'] T4 T5]. destruct trap_va as (_ & _ & Htt).
  assert (base + Z.of_nat k * PGSIZE = PGROUNDUP sz) as Ek by (apply roundup_between; lia).
  assert (forall r va, r <> pt \/ va < base \/ PGROUNDUP sz <= va -> w_leaf (w_unmaps w pt base k) !! (r, va) = w_leaf w !! (r, va)) as Hold.
  { intros r va Hor. apply w_unmaps_ne. intros j Hj [= -> E]. destruct Hor as [?|?]; [done|]. unfold PGSIZE in *. lia. }
  assert (user_size (w_unmaps w pt base k) pt newsz) as Hus.
  { split.
    - intros j Hj. rewrite Z.add_0_l. pose proof (copy_pages_up newsz ltac:(lia)) as E1. pose proof (copy_pages_up sz ltac:(lia)) as E2.
      rewrite Hold by (right; left; fold base in E1; unfold PGSIZE in *; lia). destruct (T3 j) as [x Hx]; [|rewrite Z.add_0_l in Hx; by exists x].
      fold base in E1. unfold PGSIZE in *. lia.
    - intros va x Hx Hlt. rewrite copy_pages_up by lia. fold base. destruct (Z.lt_ge_cases va base) as [?|Hge]; [done|]. exfalso.
      destruct (leaf_node _ _ _ _ _ R' Hx) as ([Hva _] & _).
      destruct (Z.lt_ge_cases va (PGROUNDUP sz)) as [Hl2|Hg2].
      + destruct (page_cases base k va) as (j & Hj & ->); [done|done|lia|]. by rewrite w_unmaps_eq in Hx by done.
      + rewrite Hold in Hx by (right; right; lia). rewrite (user_size_page pt w sz) in Hx; [done|lia|by split|done|done]. }
  split; [|done]. exists (w_unmaps w pt base k). split; [done|]. split; [done|]. split; [intros C; by apply cow_ok_unmaps|].
  split; [split; rewrite ?Hold by (right; right; lia); try done; by rewrite (s_node _ _ _ _ S')|].
  rewrite (Z.min_r sz newsz) by lia. fold base. split; [|split; [intros va Hva; unfold PGSIZE in *; lia|split; [|split]]].
  - intros r va Hva Hor. assert (page_of va < TRAPFRAME) as Hp by (apply page_of_lt; [apply TRAPFRAME_aligned|done]).
    assert (w_leaf (w_unmaps w pt base k) !! (r, page_of va) = w_leaf w !! (r, page_of va)) as El.
    { apply Hold. destruct Hor as [?|?]; [by left|right; left]. unfold page_of, PGSIZE. dlia. }
    apply uload_keep; [done|done|done|done|]. intros x b Hx Hb. rewrite <- El in Hx. apply (s_mem _ _ _ _ S'). rewrite Hb.
    by destruct (user_page _ _ _ _ _ R' U' Hx Hp) as (_ & _ & -> & _).
  - intros va Hva. cbn [kp_m]. unfold uload. rewrite (above_none (w_unmaps w pt base k) newsz); [done|lia|done|done].
  - intros b Hb. apply (s_mem _ _ _ _ S'). destruct (s_kind _ _ _ _ S' (page_of b)) as [->|[E _]]; [by rewrite Hb|congruence].
  - apply (accounted_shrunk σ w σ' pt sz newsz k); try done. lia.
Qed.

(** Which size [growproc] gives the process. *)
Definition shrunk_size (n : Z) : Z := if sz + n <? 0 then sz else sz + n.

Lemma growproc_wp n f (Q : Z -> kp -> Prop) : - 2 ^ 31 <= n < 2 ^ 31 ->
  (0 < n -> forall s', resized (sz + n) s' -> kp_f s' = f -> Q 0 s') ->
  (0 < n -> (length (w_free w) <= 3 * pages_up (PGROUNDUP sz) (sz + n))%nat -> forall s', resized sz s' -> kp_f s' = f -> Q (-1) s') ->
  (n <= 0 -> forall s', resized (shrunk_size n) s' -> kp_f s' = f -> Q 0 s') ->
  wp (growproc n) (Kproc σ f p) Q.
Proof.
  intros Hn HQ1 HQ2 HQ3. pose proof size_top as Ht. unfold growproc. wp_step. apply myproc_wp. fold sz pt.
  destruct (n >? 0) eqn:E1; rewrite Z.gtb_ltb in E1; bool_to_prop.
  - rewrite u64_small by lia. wp_step. apply onm_wp.
    apply (uvmalloc_wp σ w pt sz (sz + n) PTE_W); try done; try lia; [apply T|rewrite TRAPFRAME_eq; lia|..].
    + intros j _ Hj. apply (user_size_page pt w sz); [lia|apply T|unfold PGSIZE; lia|done].
    + intros σ' w' _ G _ Htop. rewrite (proj2 (Z.eqb_neq _ _)) by lia. wp_step. apply set_proc_wp. wp_step. apply HQ1; [done| |done].
      apply (resized_grown _ σ' w'); try done. lia.
    + intros σ' w' _ G _ Hlen. cbn [Z.eqb]. wp_step. apply HQ2; [done|done| |done]. by apply (resized_regained σ' w').
  - destruct (n <? 0) eqn:E2; bool_to_prop.
    + wp_step. apply onm_wp. unfold shrunk_size in HQ3. destruct (sz + n <? 0) eqn:E3; bool_to_prop.
      * assert (u64 (sz + n) = sz + n + 2 ^ 64) as -> by (unfold u64; rewrite TRAPFRAME_eq in *; dlia).
        apply (uvmdealloc_wp σ w); [done|done|lia|lia|..].
        -- lia.
        -- intros _. wp_step. apply set_proc_wp. wp_step. apply HQ3; [lia| |done]. apply resized_same; [done|apply set_sz_id].
        -- lia.
      * rewrite u64_small by lia. apply (uvmdealloc_wp σ w); [done|done|lia|lia|..].
        -- intros Hlt j Hj. apply (mapped_above (sz + n)); [lia|done].
        -- lia.
        -- intros _ σ' w' R' U' S'. wp_step. apply set_proc_wp. wp_step. apply HQ3; [lia| |done]. apply (resized_shrunk _ σ'); try done. lia.
    + wp_step. apply set_proc_wp. wp_step. apply HQ3; [lia| |done]. unfold shrunk_size. rewrite (proj2 (Z.ltb_ge _ _)) by lia.
      replace (sz + n) with sz by lia. apply resized_same; [done|apply set_sz_id].
Qed.
End Process.

(** C9: [sbrk], for a process of at most 2^37 bytes.  The argument is the low word
    of register [a0] as an [int].  A positive amount is added to the size, with
    zeroed memory, or the call fails with -1, and then there were at most three
    free pages for each new page.  A call that fails gives every page back that
    it took, but for page-table pages, which stay in the table.  A negative
    amount is taken away, and the pages that nothing else maps are on the free
    list again; an amount larger than the size is ignored, though the call
    succeeds.  The call returns the old size; the memory that remains, all other
    processes and the kernel's pages are as before, and no page is lost: one that
    was free is free, in the page table or in the new memory. *)
Theorem sbrk_correct σ w (f : F) p : rep σ w -> user_ok σ w -> proc_table w (p_pagetable p) (p_sz p) (p_trapframe p) -> 0 <= p_sz p <= 2 ^ 37 ->
  let n := i32 (load64 (m_mem σ) (p_trapframe p + TF_a0)) in
  wp sys_sbrk (Kproc σ f p) (fun r s' => kp_f s' = f /\
    if 0 <? n then (r = p_sz p /\ resized σ w p (p_sz p + n) s') \/
      (r = -1 /\ resized σ w p (p_sz p) s' /\ (length (w_free w) <= 3 * pages_up (PGROUNDUP (p_sz p)) (p_sz p + n))%nat)
    else r = p_sz p /\ resized σ w p (if p_sz p + n <? 0 then p_sz p else p_sz p + n) s').
Proof.
  intros R U T Hsz n. assert (- 2 ^ 31 <= n < 2 ^ 31) as Hn by apply int_range.
  unfold sys_sbrk, argint, argraw. cbn [Z.eqb]. wp_step. wp_step. apply tf_get_wp. wp_step. fold n. clearbody n.
  wp_step. apply myproc_wp. wp_step. apply (growproc_wp σ w p R U T Hsz n f); [done|..].
  - intros H0 s' Hr Ef. cbn [Z.ltb Z.compare]. wp_step. split; [done|]. rewrite (proj2 (Z.ltb_lt 0 n)) by done. by left.
  - intros H0 Hl s' Hr Ef. cbn [Z.ltb Z.compare]. wp_step. split; [done|]. rewrite (proj2 (Z.ltb_lt 0 n)) by done. by right.
  - intros H0 s' Hr Ef. cbn [Z.ltb Z.compare]. wp_step. split; [done|]. by rewrite (proj2 (Z.ltb_ge 0 n)).
Qed.
End Sbrk.

(** The process of the example, with [a0] = 8192: there is memory enough. *)
Definition sbrk_machine : machine := set_mem (fun m => store64 m (pg 6 + TF_a0) 8192) tree_machine.
Definition sbrk_proc : proc := Proc RUNNING 0 false 0 3 None PGSIZE (pg 0) (pg 6) [].

Lemma sbrk_rep : rep sbrk_machine tree_world /\ user_ok sbrk_machine tree_world.
Proof.
  split; [|by destruct tree_user]. eapply rep_frame; [apply tree_rep|done| |done]. intros b Hb. cbn. apply mget_store64_ne.
  intros Hr. assert (page_of b = pg 6) as E by (apply page_of_in; [done|unfold PGSIZE, TF_a0 in *; lia]).
  rewrite E in Hb. by vm_compute in Hb.
Qed.

Lemma sbrk_correct_witness :
  i32 (load64 (m_mem sbrk_machine) (pg 6 + TF_a0)) = 8192 /\
  (3 * pages_up (PGROUNDUP PGSIZE) (PGSIZE + 8192) < length (w_free tree_world))%nat /\
  wp sys_sbrk (Kproc sbrk_machine tt sbrk_proc) (fun r s' => kp_f s' = tt /\
    ((r = PGSIZE /\ resized sbrk_machine tree_world sbrk_proc (PGSIZE + 8192) s') \/
     (r = -1 /\ resized sbrk_machine tree_world sbrk_proc PGSIZE s' /\
      (length (w_free tree_world) <= 3 * pages_up (PGROUNDUP PGSIZE) (PGSIZE + 8192))%nat))).
Proof.
  assert (i32 (load64 (m_mem sbrk_machine) (pg 6 + TF_a0)) = 8192) as E by (vm_compute; reflexivity).
  split; [exact E|]. split; [vm_compute; lia|].
  pose proof (sbrk_correct sbrk_machine tree_world tt sbrk_proc (proj1 sbrk_rep) (proj2 sbrk_rep) tree_ptable) as H.
  cbn [p_sz p_trapframe sbrk_proc] in H. rewrite E in H. cbn [Z.ltb Z.compare] in H. apply H. unfold PGSIZE. lia.
Defined.

(** ** [sleep] *)

Section Sleep.
Context `{L : Layout} {F : Type} `{!SysEnv F}.
Abbreviation kp := (kproc F).

Definition is_killed (s : kp) : Prop := p_killed (kp_p s) = true.

(** The clock: [now] counts the ticks without end, [ticks] is a 32-bit counter.
    [sleep] returns within 2^31 ticks: after a tick, or because the process has
    been killed, and then maybe without one.  A killed process stays killed. *)
Record clock (now : kp -> Z) : Prop := {
  ck_ticks s : wp se_ticks s (fun t s' => t = u32 (now s) /\ now s' = now s /\ (is_killed s -> is_killed s'));
  ck_sleep s : wp se_sleep_ticks s (fun _ s' => now s <= now s' < now s + 2 ^ 31 /\ (is_killed s -> is_killed s') /\
    (now s < now s' \/ is_killed s'))
}.

(** C29: [sleep(n)] returns, if each [sleep] on the clock returns after a tick or
    because the process has been killed.  It returns 0 when at least [n] ticks
    have passed, also when the 32-bit counter wraps around in between.  It
    returns -1 when fewer have passed and the process has been killed; a process
    that was killed before the call does not wait at all.  A negative [n] is
    taken as 0. *)
Theorem sys_sleep_waits now (s : kp) : clock now ->
  let n := Z.max 0 (i32 (load64 (m_mem (kp_m s)) (p_trapframe (kp_p s) + TF_a0))) in
  wp sys_sleep s (fun r s' =>
    ((r = 0 /\ n <= now s' - now s) \/ (r = -1 /\ is_killed s' /\ 0 <= now s' - now s < n)) /\
    (is_killed s -> now s' = now s /\ r = if 0 <? n then -1 else 0)).
Proof.
  intros [Hget Hsleep] n. assert (0 <= n < 2 ^ 31) as Hn by (pose proof (int_range (load64 (m_mem (kp_m s)) (p_trapframe (kp_p s) + TF_a0))); lia).
  unfold sys_sleep, argint, argraw. cbn [Z.eqb]. wp_step. destruct s as [m f p]. wp_step. apply tf_get_wp. wp_step.
  cbn [kp_m kp_p] in n. set (a := i32 _) in *. assert ((if a <? 0 then 0 else a) = n) as -> by (unfold n; destruct (Z.ltb_spec a 0); lia).
  clearbody n. clear a. set (s0 := Kproc m f p). clearbody s0. clear m f p. wp_step. eapply wp_mono; [apply Hget|]. intros t0 s1 (-> & E1 & K1).
  assert (forall x y, 0 <= y - x < 2 ^ 32 -> u32 (u32 y - u32 x) = y - x) as Hsub by (intros x y Hxy; unfold u32; rewrite <- Zminus_mod; by apply Z.mod_small).
  apply (wp_loop _ (fun k _ s2 => 0 <= now s2 - now s0 < n + 2 ^ 31 /\ (is_killed s2 \/ n - (now s2 - now s0) <= Z.of_nat k) /\
    (is_killed s0 -> is_killed s2 /\ now s2 = now s0)) _ _ (Z.to_nat n)); [|split; [lia|]; split; [right; lia|auto]|lia].
  intros k [] s2 (Hr & Hk & H0). unfold sys_sleep_step. wp_step. eapply wp_mono; [apply Hget|]. intros t s3 (-> & E3 & K3). rewrite Hsub by lia.
  destruct (now s2 - now s0 <? n) eqn:Elt; bool_to_prop.
  2:{ wp_step. rewrite E3. split; [left; split; [done|lia]|]. intros [_ E]%H0. split; [done|]. by rewrite (proj2 (Z.ltb_ge 0 n)) by lia. }
  wp_step. destruct s3 as [m3 f3 p3]. apply myproc_wp. destruct (p_killed p3) eqn:Ek.
  { wp_step. rewrite E3. split; [right; split; [done|]; split; [done|lia]|]. intros [_ E]%H0. split; [done|]. by rewrite (proj2 (Z.ltb_lt 0 n)) by lia. }
  assert (~ is_killed s2) as Hn2 by (intros H%K3; unfold is_killed in H; cbn in H; congruence).
  wp_step. eapply wp_mono; [apply Hsleep|]. intros [] s4 (H4 & _ & H4'). wp_step. exists (k - 1)%nat. rewrite E3 in H4, H4'.
  destruct Hk as [?|Hk]; [done|]. split; [lia|]. split; [lia|]. split; [destruct H4'; [right; lia|by left]|by intros [? _]%H0].
Qed.
End Sleep.

(** A clock that starts two ticks before the counter wraps; the process is
    killed, without a tick, while it sleeps for the sixth time. *)
#[local] Instance tick_env : SysEnv Z := {|
  se_exit _ := mret tt; se_fork := mret 0; se_wait _ := mret 0; se_kill _ := mret 0;
  se_ticks := gets (fun s => u32 (kp_f s));
  se_sleep_ticks := modify (fun s =>
    if kp_f s <? 2 ^ 32 + 3 then Kproc (kp_m s) (kp_f s + 1) (kp_p s) else Kproc (kp_m s) (kp_f s) (set_killed (kp_p s)))
|}.

Lemma sys_sleep_waits_witness : let s := Kproc sbrk_machine (2 ^ 32 - 2) sbrk_proc in
  let n := Z.max 0 (i32 (load64 (m_mem sbrk_machine) (pg 6 + TF_a0))) in n = 8192 /\
  wp sys_sleep s (fun r s' =>
    ((r = 0 /\ n <= kp_f s' - (2 ^ 32 - 2)) \/ (r = -1 /\ is_killed s' /\ 0 <= kp_f s' - (2 ^ 32 - 2) < n)) /\
    (is_killed s -> kp_f s' = 2 ^ 32 - 2 /\ r = if 0 <? n then -1 else 0)).
Proof.
  split; [vm_compute; reflexivity|].
  apply (sys_sleep_waits (fun s : kproc Z => kp_f s) (Kproc sbrk_machine (2 ^ 32 - 2) sbrk_proc)). split.
  - intros s. split; [reflexivity|]. split; [reflexivity|]. intros H; exact H.
  - intros [m f p]. cbn. destruct (f <? 2 ^ 32 + 3); cbn.
    + split; [lia|]. split; [intros H; exact H|]. left. lia.
    + split; [lia|]. split; [reflexivity|]. right. reflexivity.
Defined.
