(* ===== verification/ExecClaims.v ===== *)
(** * Path lookup and program loading: the main theorems *)

From S2P Require Import Prelude Riscv Mem Kalloc Vm VmRep VmSpec Cow Fork CowFault CopyOut VmGrow VmFree VmLife Demo.
From S2P Require Import CString Monitor Proc Syscall BufCache Bio Log LogCrash Fs FsBlocks FsFile FsClaims FsPath FsDir.
From S2P Require Import Exec ExecImage ExecSpec ExecKernel TreeDemo.

#[local] Set Default Proof Using "All".

Section Claims.
Context {C : Type} `{!BufCache C} `{!BufCacheSpec C}.
Context (start nlog : Z) (Hlog : 0 <= start /\ 1 <= nlog /\ start + nlog < 2 ^ 31) (Hnl : nlog <= LOGSIZE).
Context (sb : superblock) (S : gset Z) (G : geom start nlog sb S).
Abbreviation fstate := (kst C fsx).

(** C7: path lookup.  [namei] returns the null pointer exactly when the path
    does not lead to an inode: the elements of the path, each cut to [DIRSIZ]
    bytes, are looked up in the directories of the disk, from the root or from
    the current directory.  Otherwise it returns an entry of the inode table
    for that inode, with one reference more.  All locks and all other references
    taken on the way have been given back; the log and the disk are the same. *)
Theorem namei_correct (s : fstate) a L path :
  lookup_pre start nlog sb S s a L ->
  wp (namei path) s (fun r s' => idle start nlog sb S None s' a L /\ moved s s' /\
    match resolve sb (a_view a) (path_start s path) (path_spec path) with
    | None => r = None /\ tdelta (fun _ => 0) (tab s) (tab s')
    | Some n => exists i, r = Some i /\ i_inum (ent (tab s') i) = n /\ tdelta (one i) (tab s) (tab s')
    end).
Proof.
  intros P. apply (namei_wp start nlog Hlog Hnl sb S G s a L); [done|..].
  - intros -> s' I T M. done.
  - intros s' i n -> [I T E _ _] M. split; [done|]. split; [done|]. by exists i.
Qed.

Context `{Lay : Layout}.

(** C2: [exec] refines the loading of a program.  [elf_exec] says which memory
    image, stack pointer and entry point a file and its arguments give, or that
    the file cannot be run.  [exec] fails with -1 if the path does not lead to a
    file or the file cannot be run, and may fail if there are at most [cost] free
    pages; it then leaves the process and all memory as they were.  Otherwise it
    returns the number of arguments; the process sees exactly the new image,
    with the page below the stack not accessible, and its registers are set; the
    old address space has been freed, no other process sees a change.  In every
    case the log, the inode table and the disk are as before. *)
Theorem exec_correct σ w p (f : fstate) file path argv args :
  rep σ w -> user_ok σ w -> proc_table w (p_pagetable p) (p_sz p) (p_trapframe p) -> 0 <= p_sz p <= TRAPFRAME ->
  w_kind w !! p_trapframe p = Some KKern ->
  k_rest start nlog sb S f file -> Forall2 (arg_at σ w) argv args -> Z.of_nat (length argv) < MAXARG ->
  wp (exec path argv) (Kproc σ f p) (fun res s' => k_after start nlog sb S f file (kp_f s') /\
    match file path ≫= (fun bs => elf_exec bs args) with
    | Some g => (res = Z.of_nat (length args) /\ replaced σ w p g path s') \/
        (res = -1 /\ failed σ w p s' /\ (length (w_free w) <= cost (g_sz g))%nat)
    | None => res = -1 /\ failed σ w p s'
    end).
Proof.
  intros R U T Hsz Htf Hf Ha Hn. pose (K := kernel_fs_spec start nlog Hlog Hnl sb S G).
  apply (exec_wp σ w R U p T Hsz Htf f file path argv args); [exact Hf|done|done|]. intros res s' Haf Ho. split; [exact Haf|].
  unfold outcome, exec_result in Ho. by destruct (file path).
Qed.
End Claims.

(** ** Examples *)

Definition demo_proc : proc := Proc RUNNING 0 false 0 3 None PGSIZE (pg 0) (pg 6) [].

Lemma namei_correct_witness : exists (s : kst bcache fsx) a,
  wp (namei [97]) s (fun r s' => idle 2 30 tree_sb ex_S None s' a [] /\ moved s s' /\
    match resolve tree_sb (a_view a) (path_start s [97]) (path_spec [97]) with
    | None => r = None /\ tdelta (fun _ => 0) (tab s) (tab s')
    | Some n => exists i, r = Some i /\ i_inum (ent (tab s') i) = n /\ tdelta (one i) (tab s) (tab s')
    end).
Proof.
  destruct tree_boot as (s & a & P & _). exists s, a.
  apply (namei_correct 2 30 ex_log ex_nl tree_sb ex_S tree_geom s a [] [97] P).
Defined.

Lemma tree_arg : arg_at tree_machine tree_world (pg 7) [97].
Proof.
  split; [|split; [done|]].
  - split; [intros [|i] Hi; [by vm_compute|cbn in Hi; lia]|by vm_compute].
  - intros j Hj. cbn in Hj. assert (j = 0 \/ j = 1) as [-> | ->] by lia; by vm_compute.
Qed.

Lemma tree_file_at (f : kst bcache fsx) a : tree_view (a_view a) -> f_cwd (k_ext f) = 0 -> tab f = tree_itable ->
  file_at tree_sb a f [97] = Some tree_prog.
Proof.
  intros HV Ew Et. destruct (tree_idisk _ HV) as [E1 E2]. unfold file_at.
  assert (path_start f [97] = 1) as -> by (unfold path_start; rewrite Ew, Et; reflexivity).
  change (path_spec [97]) with [[97]]. cbn [resolve]. rewrite E1. cbn [i_type tree_root Z.eqb T_DIR Pos.eqb].
  unfold dir_find. rewrite E1, tree_entries by done.
  change (de_inum <$> List.find (entry_named [97]) [Dirent 2 (97 :: replicate 13 0)]) with (Some 2). cbn. f_equal.
  unfold inode_content, content. rewrite E2. rewrite fbytes_block by done. change (fblock (a_view a) tree_file (0 / BSIZE)) with 41.
  rewrite (HV 41) by set_solver. vm_compute. reflexivity.
Qed.

(** The program can be run, and there is memory enough. *)
Lemma exec_correct_witness : exists (f : kst bcache fsx) file, file [97] = Some tree_prog /\
  match elf_exec tree_prog [[97]] with Some g => (cost (g_sz g) < length (w_free tree_world))%nat | None => False end /\
  wp (exec [97] [pg 7]) (Kproc tree_machine f demo_proc) (fun res s' => k_after 2 30 tree_sb ex_S f file (kp_f s') /\
    match file [97] ≫= (fun bs => elf_exec bs [[97]]) with
    | Some g => (res = Z.of_nat (length [[97]]) /\ replaced tree_machine tree_world demo_proc g [97] s') \/
        (res = -1 /\ failed tree_machine tree_world demo_proc s' /\ (length (w_free tree_world) <= cost (g_sz g))%nat)
    | None => res = -1 /\ failed tree_machine tree_world demo_proc s'
    end).
Proof.
  destruct tree_boot as (f & a & P & HV & Ho & Hc & Ew & Et). exists f, (file_at tree_sb a f). split; [|split].
  - by apply tree_file_at.
  - vm_compute. lia.
  - apply (exec_correct 2 30 ex_log ex_nl tree_sb ex_S tree_geom tree_machine tree_world demo_proc f _ [97] [pg 7] [[97]]
      tree_rep tree_user tree_ptable); [by vm_compute|vm_compute; reflexivity| | |done].
    + exists a. by split.
    + constructor; [exact tree_arg|constructor].
Defined.
