(* ===== verification/Trap.v ===== *)
(** * kernel/trap.c : traps from user space and from the kernel

    The supervisor registers of one processor next to the state of the process
    it runs.  What the handlers call in the drivers, the interrupt controller
    and the scheduler is an interface, [TrapEnv]; the addresses of the assembly
    entry points are parameters. *)

From S2P Require Import Prelude Riscv Mem Kalloc Vm Monitor Proc Syscall.

(** ** kernel/riscv.h: control and status registers *)

Record cpu := Cpu {
  c_sstatus : Z; c_sepc : Z; c_scause : Z; c_stval : Z; c_stvec : Z; c_sip : Z; c_satp : Z; c_tp : Z
}.
Definition w_sstatus (v : Z) (c : cpu) : cpu := Cpu v (c_sepc c) (c_scause c) (c_stval c) (c_stvec c) (c_sip c) (c_satp c) (c_tp c).
Definition w_sepc (v : Z) (c : cpu) : cpu := Cpu (c_sstatus c) v (c_scause c) (c_stval c) (c_stvec c) (c_sip c) (c_satp c) (c_tp c).
Definition w_stvec (v : Z) (c : cpu) : cpu := Cpu (c_sstatus c) (c_sepc c) (c_scause c) (c_stval c) v (c_sip c) (c_satp c) (c_tp c).
Definition w_sip (v : Z) (c : cpu) : cpu := Cpu (c_sstatus c) (c_sepc c) (c_scause c) (c_stval c) (c_stvec c) v (c_satp c) (c_tp c).

Definition SSTATUS_SPP : Z := 2 ^ 8.
Definition SSTATUS_SPIE : Z := 2 ^ 5.
Definition SSTATUS_SIE : Z := 2 ^ 1.
Definition intr_on (c : cpu) : cpu := w_sstatus (Z.lor (c_sstatus c) SSTATUS_SIE) c.
Definition intr_off (c : cpu) : cpu := w_sstatus (Z.ldiff (c_sstatus c) SSTATUS_SIE) c.
Definition intr_get (c : cpu) : bool := negb (Z.land (c_sstatus c) SSTATUS_SIE =? 0).
Definition SATP_SV39 : Z := 8 * 2 ^ 60.
Definition MAKE_SATP (pagetable : Z) : Z := Z.lor SATP_SV39 (Z.shiftr pagetable 12).

Definition UART0_IRQ : Z := 10.
Definition VIRTIO0_IRQ : Z := 1.

(** The other fields of [struct trapframe] that the kernel writes. *)
Definition TF_kernel_satp : Z := 0.
Definition TF_kernel_sp : Z := 8.
Definition TF_kernel_trap : Z := 16.
Definition TF_kernel_hartid : Z := 32.

(** Entry points of kernelvec.S and trampoline.S, and of [usertrap]. *)
Record entries := Entries { kernelvec : Z; uservec : Z; userret : Z; usertrap_addr : Z }.

(** The newline of the format strings. *)
Definition nl : string := String (Ascii.ascii_of_nat 10) EmptyString.

(** What the handlers use: the console, the controller, the drivers, the clock
    and the scheduler. *)
Class TrapEnv (F : Type) := {
  te_printf : string -> list Z -> M F unit;
  te_plic_claim : M F Z;
  te_plic_complete : Z -> M F unit;
  te_uartintr : M F unit;
  te_virtio_disk_intr : M F unit;
  te_ticks : M F unit;                  (* ticks++ *)
  te_wakeup_ticks : M F unit;           (* wakeup(&ticks) *)
  te_yield : M (kproc F) unit;
  te_syscall : sysno -> M (kproc F) Z
}.

Record tstate (F : Type) := Tstate { t_k : kproc F; t_cpu : cpu }.
Arguments Tstate {F}. Arguments t_k {F}. Arguments t_cpu {F}.

(** How [usertrap] ends: in [exit(-1)], or in the jump to [userret], whose
    argument is the [satp] of the process. *)
Inductive trap_end := TrapExit | TrapRet (satp : Z).

Section Code.
Context `{L : Layout} {F : Type} `{!TrapEnv F} (E : entries).
Abbreviation ts := (tstate F).

Definition onk {A} (m : M (kproc F) A) : M ts A := fun s =>
  match m (t_k s) with
  | Ok a k => Ok a (Tstate k (t_cpu s))
  | Panic msg => Panic msg
  | NoFuel => NoFuel
  end.
Definition csr (f : cpu -> Z) : M ts Z := gets (fun s => f (t_cpu s)).
Definition csrw (f : cpu -> cpu) : M ts unit := modify (fun s => Tstate (t_k s) (f (t_cpu s))).

Definition killed : M ts bool := p ← onk myproc; mret (p_killed p).
Definition setkilled : M ts unit := onk (set_proc set_killed).

Definition trapinithart : M ts unit := csrw (w_stvec (kernelvec E)).

(** ** Interrupts *)

Definition clockintr : M ts unit := onk (onf te_ticks);; onk (onf te_wakeup_ticks).

Definition devintr : M ts Z :=
  scause ← csr c_scause;
  if negb (Z.land scause 0x8000000000000000 =? 0) && (Z.land scause 0xff =? 9) then
    irq ← onk (onf te_plic_claim);
    (if irq =? UART0_IRQ then onk (onf te_uartintr)
     else if irq =? VIRTIO0_IRQ then onk (onf te_virtio_disk_intr)
     else if negb (irq =? 0) then onk (onf (te_printf ("unexpected interrupt irq=%d" +:+ nl) [irq]))
     else mret tt);;
    (if negb (irq =? 0) then onk (onf (te_plic_complete irq)) else mret tt);;
    mret 1
  else if scause =? 0x8000000000000001 then
    cpuid ← csr c_tp;
    (if i32 cpuid =? 0 then clockintr else mret tt);;
    sip ← csr c_sip;
    csrw (w_sip (Z.ldiff sip 2));;
    mret 2
  else mret 0.

(** ** Traps from user space *)

(** [kstack] is [p->kstack]. *)
Definition usertrapret (kstack : Z) : M ts trap_end :=
  csrw intr_off;;
  csrw (w_stvec (TRAMPOLINE + (uservec E - trampoline)));;
  satp ← csr c_satp;
  onk (tf_set TF_kernel_satp satp);;
  onk (tf_set TF_kernel_sp (kstack + PGSIZE));;
  onk (tf_set TF_kernel_trap (usertrap_addr E));;
  tp ← csr c_tp;
  onk (tf_set TF_kernel_hartid tp);;
  x ← csr c_sstatus;
  csrw (w_sstatus (Z.lor (Z.ldiff x SSTATUS_SPP) SSTATUS_SPIE));;
  epc ← onk (tf_get TF_epc);
  csrw (w_sepc epc);;
  p ← onk myproc;
  mret (TrapRet (MAKE_SATP (p_pagetable p))).

(** "unexpected scause": the process is marked. *)
Definition unexpected : M ts unit :=
  scause ← csr c_scause;
  p ← onk myproc;
  onk (onf (te_printf ("usertrap(): unexpected scause %p pid=%d" +:+ nl) [scause; p_pid p]));;
  sepc ← csr c_sepc;
  stval ← csr c_stval;
  onk (onf (te_printf ("            sepc=%p stval=%p" +:+ nl) [sepc; stval]));;
  setkilled.

(** The store page fault: [false] if it is not one of a copy-on-write page, or
    memory has run out. *)
Definition cow_fault (fault_va : Z) : M ts bool :=
  p ← onk myproc;
  if fault_va >? p_sz p then mret false
  else
    c ← onk (onm (is_cowpage (p_pagetable p) fault_va));
    if negb c then mret false
    else
      r ← onk (onm (cow_alloc (p_pagetable p) (PGROUNDDOWN fault_va)));
      mret (negb (r =? 0)).

(** From the second test of [killed] on. *)
Definition usertrap_end (kstack which_dev : Z) : M ts trap_end :=
  k ← killed;
  if (k : bool) then mret TrapExit
  else
    (if which_dev =? 2 then onk te_yield else mret tt);;
    usertrapret kstack.

Definition usertrap (kstack : Z) : M ts trap_end :=
  sstatus ← csr c_sstatus;
  if negb (Z.land sstatus SSTATUS_SPP =? 0) then panic "usertrap: not from user mode"
  else
    csrw (w_stvec (kernelvec E));;
    sepc ← csr c_sepc;
    onk (tf_set TF_epc sepc);;
    scause ← csr c_scause;
    if scause =? 8 then
      k ← killed;
      if (k : bool) then mret TrapExit
      else
        epc ← onk (tf_get TF_epc);
        onk (tf_set TF_epc (u64 (epc + 4)));;
        csrw intr_on;;
        onk (syscall te_syscall);;
        usertrap_end kstack 0
    else if scause =? 15 then
      fault_va ← csr c_stval;
      ok ← cow_fault fault_va;
      (if (ok : bool) then mret tt else unexpected);;
      usertrap_end kstack 0
    else
      which_dev ← devintr;
      (if negb (which_dev =? 0) then mret tt else unexpected);;
      usertrap_end kstack which_dev.

(** ** Traps from the kernel *)

(** [running]: there is a process on this processor, and it is [RUNNING]. *)
Definition kerneltrap (running : bool) : M ts unit :=
  sepc ← csr c_sepc;
  sstatus ← csr c_sstatus;
  scause ← csr c_scause;
  ie ← gets (fun s => intr_get (t_cpu s));
  if Z.land sstatus SSTATUS_SPP =? 0 then panic "kerneltrap: not from supervisor mode"
  else if (ie : bool) then panic "kerneltrap: interrupts enabled"
  else
    which_dev ← devintr;
    if which_dev =? 0 then
      onk (onf (te_printf ("scause %p" +:+ nl) [scause]));;
      stval ← csr c_stval;
      onk (onf (te_printf ("sepc=%p stval=%p" +:+ nl) [sepc; stval]));;
      panic "kerneltrap"
    else
      (if (which_dev =? 2) && running then onk te_yield else mret tt);;
      csrw (w_sepc sepc);;
      csrw (w_sstatus sstatus).

(** ** The machine: a store of one byte by the running program

    The processor translates the address with the tables of [satp]; the entry
    must be valid, writable and for user mode.  Otherwise it traps: the address
    goes to [stval], 15 to [scause], the program counter to [sepc], user mode to
    [sstatus]; and after the trap the instruction is executed again. *)
Definition hw_store (va b : Z) : M ts bool :=
  p ← onk myproc;
  pte ← onk (onm (walk (p_pagetable p) va false));
  w ← onk (onm (if pte =? 0 then mret 0 else ld pte));
  if flag w PTE_V && flag w PTE_U && flag w PTE_W then
    onk (onm (modify (set_mem (fun m => store8 m (PTE2PA w + va mod PGSIZE) b))));; mret true
  else mret false.

Definition hw_fault (va pc : Z) : M ts unit :=
  csrw (fun c => Cpu (Z.ldiff (c_sstatus c) SSTATUS_SPP) pc 15 va (c_stvec c) (c_sip c) (c_satp c) (c_tp c)).

(** [false]: the process was killed. *)
Definition user_store (kstack pc va b : Z) : M ts bool :=
  loop (fun _ =>
    ok ← hw_store va b;
    if (ok : bool) then mret (inr true)
    else
      hw_fault va pc;;
      r ← usertrap kstack;
      match r with
      | TrapExit => mret (inr false)
      | TrapRet _ => mret (inl tt)
      end) 4 tt.
End Code.
