(* ===== verification/TrapSpec.v ===== *)
(** * Stores of a user program

    A program stores to its memory; if the page is shared after [fork] the
    processor traps, [usertrap] gives the process a page of its own, and the
    store is repeated.  The program cannot tell: it gets private memory, or it is
    killed. *)

From S2P Require Import Prelude Riscv Mem Kalloc Vm VmRep VmSpec Cow Fork CowFault CopyOut VmGrow VmFree VmLife RepCheck Demo.
From S2P Require Import Monitor Proc Syscall BufCache Log Fs Exec ExecImage ExecSpec Trap.

#[local] Set Default Proof Using "All".

(** [walk] looks at the page number only. *)
Lemma PX_page l va : l = 0 \/ l = 1 \/ l = 2 -> 0 <= va -> PX l (page_of va) = PX l va.
Proof.
  intros Hl Hva. assert (0 <= page_of va) by (unfold page_of, PGSIZE; dlia). rewrite !PX_eq by lia. f_equal.
  destruct Hl as [->|[->| ->]]; cbn [Z.mul Z.add Z.pow Z.pow_pos Pos.iter]; unfold page_of, PGSIZE; dlia.
Qed.

Lemma spp_clear v : Z.land (Z.ldiff v SSTATUS_SPP) SSTATUS_SPP = 0.
Proof. apply Z.bits_inj'. intros i Hi. rewrite Z.land_spec, Z.ldiff_spec, Z.bits_0. by destruct (Z.testbit v i), (Z.testbit SSTATUS_SPP i). Qed.

Section Steps.
Context {F : Type}.
Implicit Types (k : kproc F) (c : cpu).
Lemma onk_wp {A} (m : M (kproc F) A) k c (Q : A -> tstate F -> Prop) : wp m k (fun a k' => Q a (Tstate k' c)) -> wp (onk m) (Tstate k c) Q.
Proof. unfold wp, onk. cbn. by destruct (m k). Qed.
Lemma csr_wp g k c (Q : Z -> tstate F -> Prop) : Q (g c) (Tstate k c) -> wp (csr g) (Tstate k c) Q.
Proof. done. Qed.
Lemma csrw_wp g k c (Q : unit -> tstate F -> Prop) : Q tt (Tstate k (g c)) -> wp (csrw g) (Tstate k c) Q.
Proof. done. Qed.
End Steps.

(** Stores to the trapframe of the process. *)
Definition tf_only (tf : Z) (σ σ' : machine) : Prop :=
  (forall b, page_of b <> tf -> mget (m_mem σ') b = mget (m_mem σ) b) /\ m_freelist σ' = m_freelist σ /\ m_refer σ' = m_refer σ.

Section Fault.
Context `{L : Layout}.

Lemma walk_page r va : 0 <= va < MAXVA -> walk r va false = walk r (page_of va) false.
Proof.
  intros Hva. unfold walk. assert (page_of va < MAXVA /\ 0 <= page_of va) as [H1 H2].
  { unfold page_of, PGSIZE. change MAXVA with (2 ^ 38) in *. dlia. }
  rewrite !Z.geb_leb, !(proj2 (Z.leb_gt _ _)) by lia. cbn [walk_loop]. change (Z.of_nat 2) with 2. change (Z.of_nat 1) with 1.
  by rewrite !PX_page by (lia || auto).
Qed.

Lemma tf_only_trans tf σ σ1 σ2 : tf_only tf σ σ1 -> tf_only tf σ1 σ2 -> tf_only tf σ σ2.
Proof. intros (H1 & H2 & H3) (H4 & H5 & H6). split; [|by rewrite H5, H6]. intros b Hb. by rewrite H4, H1. Qed.

Lemma tf_only_set tf o v σ : aligned tf -> 0 <= o <= PGSIZE - 8 -> tf_only tf σ (set_mem (fun m => store64 m (tf + o) v) σ).
Proof.
  intros Ha Ho. split; [|done]. intros b Hb. cbn. apply mget_store64_ne. intros Hr. apply Hb, page_of_in; [done|unfold PGSIZE in *; lia].
Qed.

Lemma tf_only_keep tf σ σ' w : rep σ w -> user_ok σ w -> w_kind w !! tf = Some KKern -> tf_only tf σ σ' ->
  rep σ' w /\ user_ok σ' w /\ same_view σ w σ' w.
Proof.
  intros R U Hk (Hm & Hf & Hr). assert (forall a, refcnt σ' a = refcnt σ a) as Hrc by (intros a; unfold refcnt; by rewrite Hr).
  split; [|split].
  - eapply rep_frame; [done|done| |done]. intros b Hb. apply Hm. intros E. by rewrite E, Hk in Hb.
  - destruct U as [U1 U2 U3 U4]. split; try done. intros a Ha. rewrite Hrc. by apply U2.
  - intros r va Hva. unfold uload. destruct (w_leaf w !! (r, page_of va)) as [x|] eqn:Hx; [|done]. destruct (_ && _); [|done].
    destruct (user_page _ _ _ _ _ R U Hx) as ([Hax _] & _ & Hku & _); [apply page_of_lt; [apply TRAPFRAME_aligned|done]|].
    rewrite Hm; [done|]. rewrite page_of_pa by done. intros E. congruence.
Qed.

Lemma same_view_trans σ w σ1 w1 σ2 w2 : same_view σ w σ1 w1 -> same_view σ1 w1 σ2 w2 -> same_view σ w σ2 w2.
Proof. intros V1 V2 r va Hva. by rewrite V2, V1. Qed.

Context {F : Type} `{!TrapEnv F} (E : entries) (kstack : Z).
Abbreviation ts := (tstate F).
Implicit Types (f : F) (p : proc) (c : cpu).

Lemma hw_store_wp σ w f p c va b x (Q : bool -> ts -> Prop) : rep σ w -> 0 <= va < MAXVA -> w_leaf w !! (p_pagetable p, page_of va) = Some x ->
  (if Z.testbit x 0 && Z.testbit x 4 && Z.testbit x 2
   then Q true (Tstate (Kproc (set_mem (fun m => store8 m (PTE2PA x + va mod PGSIZE) b) σ) f p) c)
   else Q false (Tstate (Kproc σ f p) c)) ->
  wp (hw_store va b) (Tstate (Kproc σ f p) c) Q.
Proof.
  intros R Hva Hx HQ. unfold hw_store. destruct (leaf_node _ _ _ _ _ R Hx) as (Hvaok & Hroot & t & Ht).
  wp_step. apply onk_wp, myproc_wp. wp_step. apply onk_wp, onm_wp. rewrite walk_page by done.
  apply (walk_present_wp σ w _ _ t); [done|done|apply Hvaok|done|].
  erewrite pte_addr_nonzero by (done || apply PX_range). wp_step. apply onk_wp, onm_wp, wp_ld.
  rewrite (load_leaf σ w _ _ t R Hvaok Ht), Hx. cbn [default from_option id]. rewrite flag_V, flag_U, flag_W.
  destruct (_ && _); [|by wp_step]. wp_step. apply onk_wp, onm_wp, wp_modify. by wp_step.
Qed.

(** The state of a process in the trap handler. *)
Section Process.
Context (p : proc).
Let r := p_pagetable p.
Let tf := p_trapframe p.

Lemma cow_fault_wp σ w f c va x (Q : bool -> ts -> Prop) : rep σ w -> user_ok σ w -> 0 <= va <= p_sz p -> va < TRAPFRAME ->
  w_leaf w !! (r, page_of va) = Some x ->
  (Z.testbit x 8 = false -> Q false (Tstate (Kproc σ f p) c)) ->
  (Z.testbit x 8 = true -> forall v σ' w', private σ w r (page_of va) v σ' w' -> ~ (w_free w = [] /\ 1 < urefs (w_leaf w) (PTE2PA x)) ->
     Q true (Tstate (Kproc σ' f p) c)) ->
  (Z.testbit x 8 = true -> forall σ' w', rep σ' w' -> user_ok σ' w' -> ext r σ w σ' w' -> same_view σ w σ' w' ->
     w_free w = [] -> 1 < urefs (w_leaf w) (PTE2PA x) -> Q false (Tstate (Kproc σ' f p) c)) ->
  wp (cow_fault va) (Tstate (Kproc σ f p) c) Q.
Proof.
  intros R U Hva Hlt Hx HQ0 HQ1 HQ2. unfold cow_fault. assert (MAXVA = 2 ^ 38) as EM by done. pose proof TRAPFRAME_eq as ET.
  assert (page_of va < TRAPFRAME) as Hp by (apply page_of_lt; [apply TRAPFRAME_aligned|done]).
  wp_step. apply onk_wp, myproc_wp. rewrite Z.gtb_ltb, (proj2 (Z.ltb_ge _ _)) by lia. fold r.
  wp_step. apply onk_wp, onm_wp. assert (is_cowpage r va = is_cowpage r (page_of va)) as -> by (unfold is_cowpage; by rewrite walk_page by lia).
  apply (is_cowpage_wp σ w r _ x); [done|done|]. destruct (Z.testbit x 8) eqn:H8; cbn [negb]; [|wp_step; by apply HQ0].
  wp_step. apply onk_wp, onm_wp. rewrite PGROUNDDOWN_eq by lia. fold (page_of va).
  apply (cow_alloc_wp σ w r (page_of va) x); [done|done|done|done|..].
  - intros v σ' w' P Hv Hn. wp_step. rewrite (proj2 (Z.eqb_neq _ _)) by done. by apply (HQ1 eq_refl v σ' w').
  - intros σ' Hf Hu R' U' X'. wp_step. rewrite Z.eqb_refl. apply (HQ2 eq_refl σ' _ R' U' X'); [|done|done].
    destruct (user_page _ _ _ _ _ R U Hx Hp) as (_ & Hwf & _).
    eapply (view_setflags r σ w σ' _ r (page_of va) x (Z.lor x PTE_W)); try done.
    + cbn. apply set_leaf_insert. auto with xv6.
    + apply lor_W_pa.
    + unfold same_perm. by rewrite !lor_W_bit by lia.
Qed.

(** Output to the console returns. *)
Definition printf_returns : Prop := forall fmt args f, wp (te_printf fmt args) f (fun _ _ => True).

Lemma unexpected_wp σ f c (Q : unit -> ts -> Prop) : printf_returns ->
  (forall f', Q tt (Tstate (Kproc σ f' (set_killed p)) c)) -> wp unexpected (Tstate (Kproc σ f p) c) Q.
Proof.
  intros Hpr HQ. unfold unexpected. wp_step. apply csr_wp. wp_step. apply onk_wp, myproc_wp. wp_step. apply onk_wp, onf_wp.
  eapply wp_mono; [apply Hpr|]. intros [] f1 _. wp_step. apply csr_wp. wp_step. apply csr_wp. wp_step. apply onk_wp, onf_wp.
  eapply wp_mono; [apply Hpr|]. intros [] f2 _. apply onk_wp, set_proc_wp, HQ.
Qed.

Lemma usertrapret_wp σ f c (Q : trap_end -> ts -> Prop) : aligned tf ->
  (forall σ' c', tf_only tf σ σ' -> Q (TrapRet (MAKE_SATP r)) (Tstate (Kproc σ' f p) c')) ->
  wp (usertrapret E kstack) (Tstate (Kproc σ f p) c) Q.
Proof.
  intros Ha HQ. unfold usertrapret. wp_step. apply csrw_wp. wp_step. apply csrw_wp. wp_step. apply csr_wp.
  do 3 (wp_step; apply onk_wp, tf_set_wp). wp_step. apply csr_wp. wp_step. apply onk_wp, tf_set_wp.
  wp_step. apply csr_wp. wp_step. apply csrw_wp. wp_step. apply onk_wp, tf_get_wp. wp_step. apply csrw_wp. wp_step. apply onk_wp, myproc_wp.
  wp_step. apply HQ. fold tf. do 3 (eapply tf_only_trans; [|apply tf_only_set; [done|by vm_compute]]). by apply tf_only_set; [|by vm_compute].
Qed.

(** The whole trap, for a store to a page that is mapped. *)
Lemma usertrap_fault_wp σ w f c va x (Q : trap_end -> ts -> Prop) : printf_returns -> rep σ w -> user_ok σ w ->
  w_kind w !! tf = Some KKern -> p_killed p = false -> 0 <= va <= p_sz p -> va < TRAPFRAME -> w_leaf w !! (r, page_of va) = Some x ->
  c_scause c = 15 -> c_stval c = va -> Z.land (c_sstatus c) SSTATUS_SPP = 0 ->
  (Z.testbit x 8 = true -> ~ (w_free w = [] /\ 1 < urefs (w_leaf w) (PTE2PA x)) -> forall v σ1 σ2 w1 c',
     private σ1 w r (page_of va) v σ2 w1 -> rep σ1 w -> user_ok σ1 w -> same_view σ w σ1 w -> forall σ', tf_only tf σ2 σ' ->
     Q (TrapRet (MAKE_SATP r)) (Tstate (Kproc σ' f p) c')) ->
  (Z.testbit x 8 = false \/ w_free w = [] /\ 1 < urefs (w_leaf w) (PTE2PA x) -> forall f' σ' w' c',
     rep σ' w' -> user_ok σ' w' -> same_view σ w σ' w' -> Q TrapExit (Tstate (Kproc σ' f' (set_killed p)) c')) ->
  wp (usertrap E kstack) (Tstate (Kproc σ f p) c) Q.
Proof.
  intros Hpr R U Htf Hk Hva Hlt Hx Hc1 Hc2 Hc3 HQ1 HQ0. pose proof (r_ok _ _ R _ _ Htf) as [Hta _].
  unfold usertrap. wp_step. apply csr_wp. rewrite Hc3. cbn [Z.eqb negb]. wp_step. apply csrw_wp. wp_step. apply csr_wp.
  wp_step. apply onk_wp, tf_set_wp. fold tf. set (σ1 := set_mem _ σ).
  destruct (tf_only_keep tf σ σ1 w R U Htf) as (R1 & U1 & V1); [apply tf_only_set; [done|by vm_compute]|]. clearbody σ1.
  set (c1 := w_stvec _ c). wp_step. apply csr_wp. assert (c_scause c1 = 15) as -> by done. cbn [Z.eqb Pos.eqb].
  wp_step. apply csr_wp. assert (c_stval c1 = va) as -> by done. clearbody c1.
  assert (forall f' σ' w', rep σ' w' -> user_ok σ' w' -> same_view σ w σ' w' ->
    Z.testbit x 8 = false \/ w_free w = [] /\ 1 < urefs (w_leaf w) (PTE2PA x) ->
    wp (unexpected;; usertrap_end E kstack 0) (Tstate (Kproc σ' f' p) c1) Q) as Hdie.
  { intros f' σ' w' R' U' V' Hwhy. wp_step. apply unexpected_wp; [done|]. intros f2. unfold usertrap_end, killed.
    wp_step. wp_step. apply onk_wp, myproc_wp. wp_step. cbn [p_killed set_killed]. wp_step. by apply (HQ0 Hwhy f2 σ' w'). }
  wp_step. apply (cow_fault_wp σ1 w f c1 va x); [done|done|done|done|done|..].
  - intros H8. apply (Hdie f σ1 w); try done. by left.
  - intros H8 v σ2 w2 P Hn. wp_step. wp_step. unfold usertrap_end, killed. wp_step. wp_step. apply onk_wp, myproc_wp. wp_step. rewrite Hk.
    cbn [Z.eqb]. wp_step. wp_step. apply usertrapret_wp; [done|]. intros σ' c' Ho. by apply (HQ1 H8 Hn v σ1 σ2 w2 c').
  - intros H8 σ2 w2 R2 U2 X2 V2 Hf Hu. apply (Hdie f σ2 w2); try done; [by eapply same_view_trans|by right].
Qed.
End Process.

(** The store itself, once the page is the process's own. *)
Lemma store_done σ w f p c va b y (Q : bool -> ts -> Prop) : rep σ w -> user_ok σ w -> 0 <= va < TRAPFRAME -> is_byte b ->
  w_leaf w !! (p_pagetable p, page_of va) = Some y -> Z.testbit y 4 = true -> Z.testbit y 2 = true -> urefs (w_leaf w) (PTE2PA y) = 1 ->
  (forall σ', rep σ' w -> user_ok σ' w -> written σ w (p_pagetable p) va [b] σ' w -> Q true (Tstate (Kproc σ' f p) c)) ->
  wp (hw_store va b) (Tstate (Kproc σ f p) c) Q.
Proof.
  intros R U Hva Hb Hy H4 H2 H1 HQ. assert (MAXVA = 2 ^ 38) as EM by done. pose proof TRAPFRAME_eq as ET.
  assert (page_of va < TRAPFRAME) as Hp by (apply page_of_lt; [apply TRAPFRAME_aligned|lia]).
  destruct (user_page _ _ _ _ _ R U Hy Hp) as (_ & (_ & H0 & _) & _).
  apply (hw_store_wp σ w f p c va b y); [done|lia|done|]. rewrite H0, H4, H2. cbn [andb].
  destruct (write_page σ w (p_pagetable p) (page_of va) y (va mod PGSIZE) [b]) as (R' & U' & W'); try done;
    [unfold PGSIZE; dlia|cbn [length]; unfold PGSIZE; dlia|by constructor|]. rewrite <- page_split in W'. by apply HQ.
Qed.

(** C1: copy-on-write cannot be observed.  A process stores a byte to an address
    of its memory that it can read.  If the page is writable, or is marked
    copy-on-write, the store happens, after at most one page fault: the process
    reads the new byte there, and neither this process nor any other sees a
    change at any other address.  The process is killed instead exactly if the
    page is read-only for it, or is shared when no page is free; and then no
    process sees any change. *)
Theorem user_store_private σ w f p c pc va b x :
  printf_returns -> rep σ w -> user_ok σ w -> cow_ok w -> w_kind w !! p_trapframe p = Some KKern -> p_killed p = false ->
  0 <= va < p_sz p -> p_sz p <= TRAPFRAME -> is_byte b ->
  w_leaf w !! (p_pagetable p, page_of va) = Some x -> Z.testbit x 4 = true ->
  wp (user_store E kstack pc va b) (Tstate (Kproc σ f p) c) (fun ok s' => exists w', rep (kp_m (t_k s')) w' /\ user_ok (kp_m (t_k s')) w' /\
    (ok = false <-> Z.testbit x 2 = false /\ (Z.testbit x 8 = false \/ w_free w = [] /\ 1 < urefs (w_leaf w) (PTE2PA x))) /\
    if ok then kp_p (t_k s') = p /\ cow_ok w' /\ written σ w (p_pagetable p) va [b] (kp_m (t_k s')) w'
    else kp_p (t_k s') = set_killed p /\ same_view σ w (kp_m (t_k s')) w').
Proof.
  intros Hpr R U C Htf Hk Hva Hsz Hb Hx H4. pose proof TRAPFRAME_eq as ET. set (r := p_pagetable p) in *.
  assert (page_of va < TRAPFRAME) as Hp by (apply page_of_lt; [apply TRAPFRAME_aligned|lia]).
  unfold user_store. eapply (wp_loop _ (fun n _ s => exists σ1 f1 c1 w1 y, s = Tstate (Kproc σ1 f1 p) c1 /\ rep σ1 w1 /\ user_ok σ1 w1 /\ cow_ok w1 /\
    same_view σ w σ1 w1 /\ w_leaf w1 !! (r, page_of va) = Some y /\ Z.testbit y 4 = true /\
    ((n = 1%nat /\ σ1 = σ /\ w1 = w /\ y = x) \/
     (n = 0%nat /\ Z.testbit y 2 = true /\ Z.testbit x 8 = true /\ ~ (w_free w = [] /\ 1 < urefs (w_leaf w) (PTE2PA x))))) _ _ 1%nat);
    [|exists σ, f, c, w, x; do 7 (split; [done|]); by left|lia].
  intros n [] s (σ1 & f1 & c1 & w1 & y & -> & R1 & U1 & C1 & V1 & Hy & Hy4 & Hn).
  destruct (Z.testbit y 2) eqn:Hy2.
  - wp_step. apply (store_done σ1 w1 f1 p c1 va b y); try done; [lia|by eapply C1|]. intros σ2 R2 U2 W2. cbv beta iota. wp_step.
    exists w1. do 2 (split; [done|]). split; [|split; [done|split; [done|by eapply written_view]]].
    split; [done|]. intros [H2 H8]. destruct Hn as [(_ & _ & _ & ->)|(_ & _ & H8' & Hno)]; [congruence|]. destruct H8 as [?|?]; [congruence|done].
  - destruct Hn as [(-> & -> & -> & ->)|(_ & [=] & _)]. wp_step. assert (MAXVA = 2 ^ 38) as EM by done.
    apply (hw_store_wp σ w f1 p c1 va b x); [done|lia|done|]. rewrite Hy2, andb_false_r. wp_step. apply csrw_wp. wp_step.
    apply (usertrap_fault_wp p σ w f1 _ va x); try done; [lia|lia|cbn; apply spp_clear|..].
    + intros H8 Hno v σ2 σ3 w3 c' P R2 U2 V2 σ4 Ho. wp_step. exists 0%nat. split; [lia|].
      destruct (p_leaf _ _ _ _ _ _ _ P) as (z & El & Ez & Hz2 & Hz4 & Hz1).
      assert (w_kind w3 !! p_trapframe p = Some KKern) as Htf3
        by (rewrite (x_kind _ _ _ _ _ (p_ext _ _ _ _ _ _ _ P)); [done|by eapply (kind_not_free σ)]).
      destruct (tf_only_keep (p_trapframe p) σ3 σ4 w3) as (R4 & U4 & V4); [apply P|apply P|done|done|].
      exists σ4, f1, c', w3, z. split; [done|]. do 2 (split; [done|]). split; [by apply (p_cow _ _ _ _ _ _ _ P)|].
      split; [eapply same_view_trans; [exact V2|]; eapply same_view_trans; [apply (p_view _ _ _ _ _ _ _ P)|done]|].
      split; [by rewrite El, lookup_insert_eq|]. split; [destruct (Hz4 x Hx) as (_ & _ & ->); done|]. by right.
    + intros Hwhy f' σ' w' c' R' U' V'. wp_step. exists w'. do 2 (split; [done|]). split; [done|]. by split.
Qed.

(** ** A store just above the memory of the process *)

Lemma walk_null σ w r va : rep σ w -> w_node w !! (r, []) = Some r -> 0 <= va < MAXVA -> w_node w !! (r, [PX 2 va; PX 1 va]) = None ->
  walk r va false σ = Ok 0 σ.
Proof.
  intros R Hr Hva Hn. assert (wp (walk r va false) σ (fun v σ' => v = 0 /\ σ' = σ)) as (v & σ' & Ew & -> & ->)%wp_elim; [|done].
  apply (walk_read_wp σ w); try done. unfold pte_ptr. by rewrite Hn.
Qed.

Lemma then_panic {S A B} (m : M S A) (k : A -> M S B) s a s' msg : m s = Ok a s' -> k a s' = Panic msg -> (m ≫= k) s = Panic msg.
Proof. intros E1 E2. unfold mbind, M_bind. by rewrite E1. Qed.

Lemma loop_panic {S A B} (step : A -> M S (A + B)) n a s msg : step a s = Panic msg -> loop step n a s = Panic msg.
Proof.
  intros Es. unfold loop, mbind, M_bind. rewrite iter_pos_nat. destruct (Pos.to_nat n) as [|k] eqn:Ek; [lia|].
  cbn [iter_nat]. unfold mbind, M_bind. by rewrite Es.
Qed.

(** C30: a user program can stop the kernel.  [usertrap] lets an address equal to
    the size of the process pass, and [is_cowpage] dereferences the result of
    [walk] without a test.  If the process ends where its last page-table page
    ends, a store to that address makes the kernel use a null pointer. *)
Theorem store_at_size_panics σ w f p c pc b :
  rep σ w -> user_ok σ w -> w_kind w !! p_trapframe p = Some KKern -> w_node w !! (p_pagetable p, []) = Some (p_pagetable p) ->
  0 <= p_sz p < MAXVA -> w_node w !! (p_pagetable p, [PX 2 (p_sz p); PX 1 (p_sz p)]) = None ->
  user_store E kstack pc (p_sz p) b (Tstate (Kproc σ f p) c) = Panic "kerneltrap".
Proof.
  intros R U Htf Hr Hsz Hn. pose proof (r_ok _ _ R _ _ Htf) as [Hta _]. unfold user_store. apply loop_panic.
  assert (hw_store (p_sz p) b (Tstate (Kproc σ f p) c) = Ok false (Tstate (Kproc σ f p) c)) as E1.
  { unfold hw_store, onk, onm, myproc, gets, mbind, M_bind. cbn [t_k t_cpu kp_m kp_f kp_p]. by rewrite (walk_null σ w). }
  eapply then_panic; [exact E1|]. cbv beta iota. eapply then_panic; [reflexivity|]. cbv beta. cbn [t_k t_cpu].
  set (c1 := Cpu _ _ _ _ _ _ _ _). unfold mbind at 1, M_bind at 1.
  enough (usertrap E kstack (Tstate (Kproc σ f p) c1) = Panic "kerneltrap") as -> by done.
  unfold usertrap. eapply then_panic; [reflexivity|]. cbv beta. cbn [t_cpu]. assert (Z.land (c_sstatus c1) SSTATUS_SPP = 0) as -> by apply spp_clear. cbn [Z.eqb negb].
  eapply then_panic; [reflexivity|]. cbv beta. eapply then_panic; [reflexivity|]. cbv beta. eapply then_panic; [reflexivity|]. cbv beta.
  cbn [t_k t_cpu kp_m kp_f kp_p]. set (σ1 := set_mem _ σ). eapply then_panic; [reflexivity|]. cbv beta.
  assert (c_scause (t_cpu (Tstate (Kproc σ1 f p) (w_stvec (kernelvec E) c1))) = 15) as -> by done. cbn [Z.eqb Pos.eqb].
  eapply then_panic; [reflexivity|]. cbv beta. assert (c_stval (t_cpu (Tstate (Kproc σ1 f p) (w_stvec (kernelvec E) c1))) = p_sz p) as -> by done.
  destruct (tf_only_keep (p_trapframe p) σ σ1 w R U Htf) as (R1 & _); [apply tf_only_set; [done|by vm_compute]|]. clearbody σ1.
  unfold mbind at 1, M_bind at 1. enough (cow_fault (p_sz p) (Tstate (Kproc σ1 f p) (w_stvec (kernelvec E) c1)) = Panic "kerneltrap") as -> by done.
  unfold cow_fault. eapply then_panic; [reflexivity|]. cbv beta. cbn [t_k kp_p]. rewrite Z.gtb_ltb, Z.ltb_irrefl.
  unfold mbind at 1, M_bind at 1, onk at 1, onm at 1. cbn [t_k kp_m].
  enough (is_cowpage (p_pagetable p) (p_sz p) σ1 = Panic "kerneltrap") as -> by done.
  unfold is_cowpage. eapply then_panic; [by apply (walk_null σ1 w)|]. done.
Qed.
End Fault.

(** ** Example: the child of the example of [fork] stores to a shared page *)

#[local] Instance quiet_env : TrapEnv unit := {|
  te_printf _ _ := mret tt; te_plic_claim := mret 0; te_plic_complete _ := mret tt; te_uartintr := mret tt; te_virtio_disk_intr := mret tt;
  te_ticks := mret tt; te_wakeup_ticks := mret tt; te_yield := mret tt; te_syscall _ := mret 0
|}.
Definition demo_entries : entries := Entries 0x80006000 0x80007000 0x80007090 0x80002000.

(** [after] with a page for the trapframe of the child. *)
Definition trap_machine : machine := Machine (after_mem [(pg 8, pg 9)]) (pg 8) (<[ref_idx (pg 10) := 1]> after_counts).
Definition trap_world : world := World [pg 8; pg 9]
  (list_to_map (after_kinds ++ [(pg 8, KFree); (pg 9, KFree); (pg 10, KKern)])) after_nodes after_leaves.
Definition trap_proc : proc := Proc RUNNING 0 false 0 4 None 8192 (pg 5) (pg 10) [].

Lemma trap_rep : rep trap_machine trap_world.
Proof. apply rep_check_spec. vm_compute. reflexivity. Qed.
Lemma trap_user : user_ok trap_machine trap_world.
Proof. apply user_check_spec. vm_compute. reflexivity. Qed.
Lemma trap_cow : cow_ok trap_world.
Proof. apply cow_check_spec. vm_compute. reflexivity. Qed.

Lemma user_store_private_witness :
  wp (user_store demo_entries (KSTACK 1) 0x40 5 7) (Tstate (Kproc trap_machine tt trap_proc) (Cpu 0 0 0 0 0 0 0 0)) (fun ok s' => exists w',
    rep (kp_m (t_k s')) w' /\ user_ok (kp_m (t_k s')) w' /\
    (ok = false <-> Z.testbit (cowify x3) 2 = false /\
       (Z.testbit (cowify x3) 8 = false \/ w_free trap_world = [] /\ 1 < urefs (w_leaf trap_world) (PTE2PA (cowify x3)))) /\
    if ok then kp_p (t_k s') = trap_proc /\ cow_ok w' /\ written trap_machine trap_world (pg 5) 5 [7] (kp_m (t_k s')) w'
    else kp_p (t_k s') = set_killed trap_proc /\ same_view trap_machine trap_world (kp_m (t_k s')) w').
Proof.
  apply (user_store_private demo_entries (KSTACK 1) trap_machine trap_world tt trap_proc (Cpu 0 0 0 0 0 0 0 0) 0x40 5 7 (cowify x3)).
  - by intros fmt args [].
  - exact trap_rep.
  - exact trap_user.
  - exact trap_cow.
  - vm_compute. reflexivity.
  - reflexivity.
  - cbn. lia.
  - by vm_compute.
  - unfold is_byte. lia.
  - vm_compute. reflexivity.
  - vm_compute. reflexivity.
Defined.

(** A process of 2 megabytes. *)
Definition big_proc : proc := Proc RUNNING 0 false 0 4 None (2 ^ 21) (pg 5) (pg 10) [].

Lemma store_at_size_panics_witness :
  user_store demo_entries (KSTACK 1) 0x40 (2 ^ 21) 7 (Tstate (Kproc trap_machine tt big_proc) (Cpu 0 0 0 0 0 0 0 0)) = Panic "kerneltrap".
Proof.
  apply (store_at_size_panics demo_entries (KSTACK 1) trap_machine trap_world tt big_proc (Cpu 0 0 0 0 0 0 0 0) 0x40 7 trap_rep trap_user).
  - vm_compute. reflexivity.
  - vm_compute. reflexivity.
  - by vm_compute.
  - vm_compute. reflexivity.
Defined.
