(* ===== verification/Spinlock.v ===== *)
(** * kernel/spinlock.c : spin locks and the nesting of [push_off] and [pop_off]

    Any number of processors take and release any number of locks, one memory
    access at a time: the swap of [acquire], the two loads of [holding], the
    stores of [release].  The lock word and the owner are read by other
    processors while they change; [holding] is right all the same.  Memory is
    assumed to be sequentially consistent; the fences of the source are not
    modelled, and the nesting count is not cut to an [int]. *)

From S2P Require Import Prelude.

Record lock := Lock { l_locked : bool; l_cpu : option nat }.
Definition initlock : lock := Lock false None.

(** Where a processor is in the code of this file. *)
Inductive pc :=
| Run                     (* elsewhere *)
| AcqLocked (lk : nat)    (* [acquire], in [holding]: before the load of [lk->locked] *)
| AcqCpu (lk : nat)       (* before the load of [lk->cpu] *)
| AcqSpin (lk : nat)      (* before the next swap *)
| AcqSet (lk : nat)       (* before [lk->cpu = mycpu()] *)
| RelLocked (lk : nat)    (* [release], in [holding] *)
| RelCpu (lk : nat)
| RelClear (lk : nat)     (* before [lk->cpu = 0] *)
| RelUnlock (lk : nat)    (* before [__sync_lock_release] *)
| RelPop                  (* before [pop_off] *)
| PanicAcquire (lk : nat)
| PanicRelease (lk : nat)
| PanicPop.

(** [struct cpu] and the interrupt enable bit.  Ghosts: [c_held] are the locks
    the processor owns, [c_push] its calls of [push_off] outside of [acquire],
    [c_base] what the code last chose for the interrupts. *)
Record core := Core {
  c_intr : bool; c_noff : Z; c_intena : bool; c_pc : pc;
  c_held : list nat; c_push : nat; c_base : bool
}.

Definition push_off (c : core) : core :=
  let old := c_intr c in
  Core false (c_noff c + 1) (if c_noff c =? 0 then old else c_intena c) (c_pc c) (c_held c) (c_push c) (c_base c).
(** [None]: one of its two panics. *)
Definition pop_off (c : core) : option core :=
  if c_intr c then None
  else if c_noff c <? 1 then None
  else
    let noff := c_noff c - 1 in
    Some (Core (if (noff =? 0) && c_intena c then true else c_intr c) noff (c_intena c) (c_pc c) (c_held c) (c_push c) (c_base c)).

Definition at_pc (p : pc) (c : core) : core := Core (c_intr c) (c_noff c) (c_intena c) p (c_held c) (c_push c) (c_base c).
Definition with_held (h : list nat) (c : core) : core := Core (c_intr c) (c_noff c) (c_intena c) (c_pc c) h (c_push c) (c_base c).
Definition with_push (n : nat) (c : core) : core := Core (c_intr c) (c_noff c) (c_intena c) (c_pc c) (c_held c) n (c_base c).
Definition with_intr (b : bool) (c : core) : core := Core b (c_noff c) (c_intena c) (c_pc c) (c_held c) (c_push c) b.
Definition pop_to (p : pc) (c : core) : core := match pop_off c with Some c => at_pc p c | None => at_pc PanicPop c end.

Record sys := Sys { s_cores : list core; s_locks : list lock }.

(** The next access of processor [i], [c] its state and [l] the lock. *)
Definition access (i : nat) (c : core) (l : lock) : core * lock :=
  match c_pc c with
  | AcqLocked lk => (at_pc (if l_locked l then AcqCpu lk else AcqSpin lk) c, l)
  | AcqCpu lk => (at_pc (if decide (l_cpu l = Some i) then PanicAcquire lk else AcqSpin lk) c, l)
  | AcqSpin lk =>
      if l_locked l then (c, l) else (at_pc (AcqSet lk) (with_held (lk :: c_held c) c), Lock true (l_cpu l))
  | AcqSet lk => (at_pc Run c, Lock (l_locked l) (Some i))
  | RelLocked lk => (at_pc (if l_locked l then RelCpu lk else PanicRelease lk) c, l)
  | RelCpu lk => (at_pc (if decide (l_cpu l = Some i) then RelClear lk else PanicRelease lk) c, l)
  | RelClear lk => (at_pc (RelUnlock lk) c, Lock (l_locked l) None)
  | RelUnlock lk => (at_pc RelPop (with_held (filter (fun k => k <> lk) (c_held c)) c), Lock false (l_cpu l))
  | _ => (c, l)
  end.
Definition pc_lock (p : pc) : option nat :=
  match p with
  | AcqLocked lk | AcqCpu lk | AcqSpin lk | AcqSet lk | RelLocked lk | RelCpu lk | RelClear lk | RelUnlock lk => Some lk
  | _ => None
  end.

(** One step of processor [i].  The code outside may call [acquire] and [release]
    of any lock, [push_off], a [pop_off] for each [push_off], and, when no
    [push_off] is outstanding, [intr_on] and [intr_off]. *)
Inductive step : sys -> sys -> Prop :=
| StAcquire i c lk T K : T !! i = Some c -> c_pc c = Run -> (lk < length K)%nat ->
    step (Sys T K) (Sys (<[i := at_pc (AcqLocked lk) (push_off c)]> T) K)
| StRelease i c lk T K : T !! i = Some c -> c_pc c = Run -> (lk < length K)%nat ->
    step (Sys T K) (Sys (<[i := at_pc (RelLocked lk) c]> T) K)
| StAccess i c lk l T K : T !! i = Some c -> pc_lock (c_pc c) = Some lk -> K !! lk = Some l ->
    step (Sys T K) (Sys (<[i := (access i c l).1]> T) (<[lk := (access i c l).2]> K))
| StPop i c T K : T !! i = Some c -> c_pc c = RelPop -> step (Sys T K) (Sys (<[i := pop_to Run c]> T) K)
| StPushOff i c T K : T !! i = Some c -> c_pc c = Run ->
    step (Sys T K) (Sys (<[i := with_push (c_push c + 1) (push_off c)]> T) K)
| StPopOff i c T K : T !! i = Some c -> c_pc c = Run -> (0 < c_push c)%nat ->
    step (Sys T K) (Sys (<[i := with_push (c_push c - 1) (pop_to Run c)]> T) K)
| StIntr i c b T K : T !! i = Some c -> c_pc c = Run -> c_noff c = 0 ->
    step (Sys T K) (Sys (<[i := with_intr b c]> T) K).

(** All locks free, all processors running with interrupts off, as at boot. *)
Definition core0 : core := Core false 0 false Run [] 0 false.
Definition start (ncpu nlock : nat) : sys := Sys (replicate ncpu core0) (replicate nlock initlock).

(** ** The invariant *)

(** The levels of [push_off] that belong to the call in progress. *)
Definition pc_off (p : pc) : Z :=
  match p with AcqLocked _ | AcqCpu _ | AcqSpin _ | PanicAcquire _ | RelPop => 1 | _ => 0 end.

(** Of one processor alone. *)
Record core_ok (c : core) : Prop := {
  k_noff : c_noff c = Z.of_nat (length (c_held c)) + Z.of_nat (c_push c) + pc_off (c_pc c);
  k_off : 0 < c_noff c -> c_intr c = false /\ c_intena c = c_base c;
  k_on : c_noff c = 0 -> c_intr c = c_base c;
  k_nodup : NoDup (c_held c);
  k_pop : c_pc c <> PanicPop
}.
(** What a processor knows about the lock it is working on. *)
Definition pc_ok (c : core) : Prop :=
  match c_pc c with
  | AcqSpin lk | PanicRelease lk => lk ∉ c_held c
  | AcqSet lk | RelClear lk | RelUnlock lk | PanicAcquire lk => lk ∈ c_held c
  | _ => True
  end.
(** The owner has stored its name. *)
Definition named (c : core) (lk : nat) : Prop := lk ∈ c_held c /\ c_pc c <> AcqSet lk /\ c_pc c <> RelUnlock lk.

Record inv (s : sys) : Prop := {
  i_core i c : s_cores s !! i = Some c -> core_ok c /\ pc_ok c;
  i_owner lk l : s_locks s !! lk = Some l -> l_locked l = true <-> exists i c, s_cores s !! i = Some c /\ lk ∈ c_held c;
  i_once i j c c' lk : s_cores s !! i = Some c -> s_cores s !! j = Some c' -> lk ∈ c_held c -> lk ∈ c_held c' -> i = j;
  i_named i c lk l : s_cores s !! i = Some c -> s_locks s !! lk = Some l -> l_cpu l = Some i <-> named c lk
}.

Section Preserve.
Context (T : list core) (K : list lock) (I : inv (Sys T K)) (i : nat) (c : core) (Hc : T !! i = Some c).

Lemma other j c' d : <[i := c']> T !! j = Some d -> (j = i /\ d = c') \/ (j <> i /\ T !! j = Some d).
Proof. intros H. apply list_lookup_insert_Some in H as [(-> & -> & _)|[? ?]]; [by left|right; auto]. Qed.
Lemma this c' : <[i := c']> T !! i = Some c'.
Proof using Hc. apply list_lookup_insert_eq. by eapply lookup_lt_Some. Qed.
Lemma still c' j d : j <> i -> T !! j = Some d -> <[i := c']> T !! j = Some d.
Proof. intros Hne H. by rewrite list_lookup_insert_ne. Qed.

(** A step that changes one lock. *)
Lemma keep_lock c' lk l l' : K !! lk = Some l -> core_ok c' -> pc_ok c' ->
  (forall k, k <> lk -> (k ∈ c_held c' <-> k ∈ c_held c) /\ (named c' k <-> named c k)) ->
  (l_locked l' = true <-> lk ∈ c_held c' \/ exists j d, j <> i /\ T !! j = Some d /\ lk ∈ c_held d) ->
  (lk ∈ c_held c' -> forall j d, j <> i -> T !! j = Some d -> lk ∉ c_held d) ->
  (l_cpu l' = Some i <-> named c' lk) -> (forall j d, j <> i -> T !! j = Some d -> l_cpu l' = Some j <-> named d lk) ->
  inv (Sys (<[i := c']> T) (<[lk := l']> K)).
Proof using All.
  intros Hl Hok Hpc Hoth Hlk Hone Hn1 Hn2. destruct I as [I1 I2 I3 I4]. cbn in *. split; cbn.
  - intros j d [[-> ->]|[_ Hd]]%other; [done|by apply I1 in Hd].
  - intros k m Hm. destruct (decide (k = lk)) as [->|Hk].
    + rewrite list_lookup_insert_eq in Hm by (by eapply lookup_lt_Some). injection Hm as <-. rewrite Hlk. split.
      * intros [H|(j & d & Hj & Hd & H)]; [exists i, c'; split; [apply this|done]|exists j, d; split; [by apply still|done]].
      * intros (j & d & [[-> ->]|[Hj Hd]]%other & H); [by left|right; by exists j, d].
    + rewrite list_lookup_insert_ne in Hm by done. rewrite (I2 k m Hm). split.
      * intros (j & d & Hd & H). destruct (decide (j = i)) as [->|Hj].
        -- exists i, c'. split; [apply this|]. assert (d = c) as -> by congruence. by apply (proj1 (Hoth k Hk)).
        -- exists j, d. split; [by apply still|done].
      * intros (j & d & [[-> ->]|[Hj Hd]]%other & H); [exists i, c; split; [done|by apply (proj1 (Hoth k Hk))]|by exists j, d].
  - intros j j' d d' k [[-> ->]|[Hj Hd]]%other [[-> ->]|[Hj' Hd']]%other H H'; [done| | |by eapply I3]; destruct (decide (k = lk)) as [->|Hk].
    + by destruct (Hone H j' d').
    + apply (proj1 (Hoth k Hk)) in H. by apply (I3 i j' c d' k).
    + by destruct (Hone H' j d).
    + apply (proj1 (Hoth k Hk)) in H'. by apply (I3 j i d c k).
  - intros j d k m Hd Hm. destruct (decide (k = lk)) as [->|Hk].
    + rewrite list_lookup_insert_eq in Hm by (by eapply lookup_lt_Some). injection Hm as <-.
      apply other in Hd as [[-> ->]|[Hj Hd]]; [done|by apply Hn2].
    + rewrite list_lookup_insert_ne in Hm by done. apply other in Hd as [[-> ->]|[Hj Hd]]; [|by apply I4].
      rewrite (proj2 (Hoth k Hk)). by apply I4.
Qed.

(** A step that changes no lock, and not what the processor owns. *)
Lemma inv_core c' : core_ok c' -> pc_ok c' -> c_held c' = c_held c -> (forall k, named c' k <-> named c k) -> inv (Sys (<[i := c']> T) K).
Proof using All.
  intros Hok Hpc Hh Hn. destruct I as [I1 I2 I3 I4]. cbn in *.
  assert (forall j d, <[i := c']> T !! j = Some d -> exists d0, T !! j = Some d0 /\ c_held d = c_held d0 /\ forall k, named d k <-> named d0 k) as Hback.
  { intros j d [[-> ->]|[Hj Hd]]%other; [by exists c|by exists d]. }
  split; cbn.
  - intros j d [[-> ->]|[_ Hd]]%other; [done|by apply I1 in Hd].
  - intros k m Hm. rewrite (I2 k m Hm). split.
    + intros (j & d & Hd & H). destruct (decide (j = i)) as [->|Hj]; [|exists j, d; split; [by apply still|done]].
      exists i, c'. split; [apply this|]. rewrite Hh. assert (d = c) as -> by congruence. done.
    + intros (j & d & (d0 & Hd & E & _)%Hback & H). exists j, d0. by rewrite <- E.
  - intros j j' d d' k (d0 & Hd & E & _)%Hback (d1 & Hd' & E' & _)%Hback. rewrite E, E'. by apply I3.
  - intros j d k m (d0 & Hd & _ & E)%Hback Hm. rewrite E. by apply I4.
Qed.
End Preserve.

(** ** [push_off] and [pop_off] *)

Lemma noff_nonneg c : core_ok c -> 0 <= c_noff c.
Proof. intros []. rewrite k_noff0. destruct (c_pc c); cbn; lia. Qed.

Lemma pushed c : core_ok c -> let d := push_off c in c_noff d = c_noff c + 1 /\ c_intr d = false /\ c_intena d = c_base d.
Proof.
  intros Hok. pose proof (noff_nonneg c Hok). destruct Hok as [K1 K2 K3 _ _]. split; [done|]. split; [done|]. cbn.
  destruct (c_noff c =? 0) eqn:E; bool_to_prop; [by apply K3|]. apply K2. lia.
Qed.

Lemma popped c p : core_ok c -> 0 < c_noff c ->
  pop_to p c = Core (if decide (c_noff c = 1) then c_base c else false) (c_noff c - 1) (c_base c) p (c_held c) (c_push c) (c_base c).
Proof.
  intros [K1 K2 K3 _ _] H0. destruct (K2 H0) as [E1 E2]. unfold pop_to, pop_off. rewrite E1, E2, (proj2 (Z.ltb_ge _ _)) by lia. cbn.
  destruct (decide (c_noff c = 1)) as [E|E]; [rewrite (proj2 (Z.eqb_eq _ _)) by lia; by destruct (c_base c)|].
  by rewrite (proj2 (Z.eqb_neq _ _)) by lia.
Qed.

(** Only the place in the code changes. *)
Lemma at_pc_ok c p : core_ok c -> pc_off p = pc_off (c_pc c) -> p <> PanicPop -> core_ok (at_pc p c).
Proof. intros [] Ep Hp. split; cbn; rewrite ?Ep; done. Qed.

Lemma named_at c p k : c_pc c <> AcqSet k -> c_pc c <> RelUnlock k -> p <> AcqSet k -> p <> RelUnlock k -> named (at_pc p c) k <-> named c k.
Proof. unfold named. cbn. tauto. Qed.

(** ** Steps *)

Lemma keep_all (h : list nat) lk : lk ∉ h -> filter (fun k => k <> lk) h = h.
Proof.
  induction h as [|x h IH]; intros Hn; [done|]. rewrite filter_cons, decide_True by set_solver. f_equal. apply IH. set_solver.
Qed.
Lemma remove_length (h : list nat) lk : NoDup h -> lk ∈ h -> length h = S (length (filter (fun k => k <> lk) h)).
Proof.
  induction h as [|x h IH]; intros Hn Hin; [by apply not_elem_of_nil in Hin|]. apply NoDup_cons in Hn as [Hx Hn].
  rewrite filter_cons. destruct (decide (x <> lk)) as [Hne|E].
  - cbn. f_equal. apply IH; [done|set_solver].
  - assert (x = lk) as -> by (destruct (decide (x = lk)); tauto). cbn. f_equal. by rewrite keep_all.
Qed.

Section Access.
Context (T : list core) (K : list lock) (I : inv (Sys T K)) (i : nat) (c : core) (Hc : T !! i = Some c) (lk : nat) (l : lock) (Hl : K !! lk = Some l).

Lemma holds : c_pc c <> AcqSet lk -> c_pc c <> RelUnlock lk -> l_cpu l = Some i <-> lk ∈ c_held c.
Proof using All. intros H1 H2. rewrite (i_named _ I i c lk l Hc Hl). unfold named. tauto. Qed.
Lemma unlocked_free j d : l_locked l = false -> T !! j = Some d -> lk ∉ c_held d.
Proof using All. intros E Hd H. assert (l_locked l = true) by (apply (i_owner _ I lk l Hl); by exists j, d). congruence. Qed.

(** A step of [holding]. *)
Lemma inv_test p : pc_off p = pc_off (c_pc c) -> p <> PanicPop -> pc_ok (at_pc p c) ->
  (forall k, c_pc c <> AcqSet k /\ c_pc c <> RelUnlock k /\ p <> AcqSet k /\ p <> RelUnlock k) ->
  inv (Sys (<[i := at_pc p c]> T) (<[lk := l]> K)).
Proof using All.
  intros E1 E2 Hp Hk. rewrite (list_insert_id K lk l Hl). destruct (i_core _ I i c Hc) as [Hok _].
  apply (inv_core T K I i c Hc); [by apply at_pc_ok|done|done|]. intros k. destruct (Hk k) as (? & ? & ? & ?). by apply named_at.
Qed.

Lemma inv_swap : c_pc c = AcqSpin lk -> l_locked l = false ->
  inv (Sys (<[i := at_pc (AcqSet lk) (with_held (lk :: c_held c) c)]> T) (<[lk := Lock true (l_cpu l)]> K)).
Proof using All.
  intros Ep El. destruct (i_core _ I i c Hc) as [[K1 K2 K3 K4 K5] Hpc]. unfold pc_ok in Hpc. rewrite Ep in *. cbn in K1.
  apply (keep_lock T K I i c Hc _ lk l); [done| | | | | | |].
  - split; cbn; try done; [lia|]. by constructor.
  - cbn. set_solver.
  - intros k Hk. cbn. split; [set_solver|]. unfold named. cbn. rewrite Ep. split; [|set_solver by congruence].
    intros (H1 & _). split; [set_solver|]. split; congruence.
  - cbn. split; [set_solver|done].
  - intros _ j d Hj Hd. by apply (unlocked_free j d).
  - cbn. unfold named. cbn. split; [|tauto]. rewrite (i_named _ I i c lk l Hc Hl). unfold named. set_solver.
  - intros j d Hj Hd. cbn. apply (i_named _ I j d lk l Hd Hl).
Qed.

Lemma keep_set : c_pc c = AcqSet lk -> inv (Sys (<[i := at_pc Run c]> T) (<[lk := Lock (l_locked l) (Some i)]> K)).
Proof using All.
  intros Ep. destruct (i_core _ I i c Hc) as [Hok Hpc]. unfold pc_ok in Hpc. rewrite Ep in Hpc.
  assert (forall j d, j <> i -> T !! j = Some d -> lk ∉ c_held d) as Hone by (intros j d Hj Hd H; by apply Hj, (i_once _ I j i d c lk)).
  apply (keep_lock T K I i c Hc _ lk l); [done| | | | | | |].
  - apply at_pc_ok; [done|by rewrite Ep|done].
  - done.
  - intros k Hk. split; [done|]. apply named_at; congruence.
  - cbn. rewrite (i_owner _ I lk l Hl). split; [by left|]. intros [H|(j & d & _ & Hd & H)]; [by exists i, c|by exists j, d].
  - done.
  - cbn. unfold named. cbn. split; [done|done].
  - intros j d Hj Hd. cbn. split; [intros [= ->]; done|]. intros [H _]. by destruct (Hone j d Hj Hd).
Qed.

Lemma inv_clear : c_pc c = RelClear lk -> inv (Sys (<[i := at_pc (RelUnlock lk) c]> T) (<[lk := Lock (l_locked l) None]> K)).
Proof using All.
  intros Ep. destruct (i_core _ I i c Hc) as [Hok Hpc]. unfold pc_ok in Hpc. rewrite Ep in Hpc.
  assert (forall j d, j <> i -> T !! j = Some d -> lk ∉ c_held d) as Hone by (intros j d Hj Hd H; by apply Hj, (i_once _ I j i d c lk)).
  apply (keep_lock T K I i c Hc _ lk l); [done| | | | | | |].
  - apply at_pc_ok; [done|by rewrite Ep|done].
  - done.
  - intros k Hk. split; [done|]. apply named_at; congruence.
  - cbn. rewrite (i_owner _ I lk l Hl). split; [by left|]. intros [H|(j & d & _ & Hd & H)]; [by exists i, c|by exists j, d].
  - done.
  - cbn. unfold named. cbn. split; [done|]. intros (_ & _ & H). congruence.
  - intros j d Hj Hd. cbn. split; [done|]. intros [H _]. by destruct (Hone j d Hj Hd).
Qed.

Lemma inv_unlock : c_pc c = RelUnlock lk ->
  inv (Sys (<[i := at_pc RelPop (with_held (filter (fun k => k <> lk) (c_held c)) c)]> T) (<[lk := Lock false (l_cpu l)]> K)).
Proof using All.
  intros Ep. destruct (i_core _ I i c Hc) as [[K1 K2 K3 K4 K5] Hpc]. unfold pc_ok in Hpc. rewrite Ep in Hpc, K1. cbn in K1.
  assert (forall j d, j <> i -> T !! j = Some d -> lk ∉ c_held d) as Hone by (intros j d Hj Hd H; by apply Hj, (i_once _ I j i d c lk)).
  apply (keep_lock T K I i c Hc _ lk l); [done| | | | | | |].
  - split; cbn; try done; [|by apply NoDup_filter]. pose proof (remove_length (c_held c) lk K4 Hpc). lia.
  - done.
  - intros k Hk. cbn. rewrite list_elem_of_filter. split; [tauto|]. unfold named. cbn. rewrite list_elem_of_filter, Ep. split; [|naive_solver].
    intros [[_ H] _]. split; [done|]. split; congruence.
  - cbn. split; [done|]. rewrite list_elem_of_filter. intros [[H _]|(j & d & Hj & Hd & H)]; [done|by destruct (Hone j d Hj Hd)].
  - cbn. rewrite list_elem_of_filter. tauto.
  - cbn. unfold named at 1. cbn. rewrite list_elem_of_filter. rewrite (i_named _ I i c lk l Hc Hl). unfold named. rewrite Ep. split; intros H; exfalso; naive_solver.
  - intros j d Hj Hd. cbn. apply (i_named _ I j d lk l Hd Hl).
Qed.

Lemma inv_access : pc_lock (c_pc c) = Some lk -> inv (Sys (<[i := (access i c l).1]> T) (<[lk := (access i c l).2]> K)).
Proof using All.
  intros Hp. unfold access. destruct (c_pc c) as [|k|k|k|k|k|k|k|k| |k|k|] eqn:Ep; cbn in Hp; try done; injection Hp as ->.
  - destruct (l_locked l) eqn:El; apply inv_test; cbn; try done; try (intros k; by rewrite Ep); try (by rewrite Ep).
    by apply (unlocked_free i c).
  - pose proof (holds ltac:(congruence) ltac:(congruence)) as Hh.
    destruct (decide (l_cpu l = Some i)) as [E|E]; apply inv_test; cbn; try done; try (intros k; by rewrite Ep); try (by rewrite Ep); tauto.
  - destruct (l_locked l) eqn:El; cbn; [|by apply inv_swap]. by rewrite (list_insert_id K lk l Hl), (list_insert_id T i c Hc).
  - by apply keep_set.
  - destruct (l_locked l) eqn:El; apply inv_test; cbn; try done; try (intros k; by rewrite Ep); try (by rewrite Ep).
    by apply (unlocked_free i c).
  - pose proof (holds ltac:(congruence) ltac:(congruence)) as Hh.
    destruct (decide (l_cpu l = Some i)) as [E|E]; apply inv_test; cbn; try done; try (intros k; by rewrite Ep); try (by rewrite Ep); tauto.
  - by apply inv_clear.
  - by apply inv_unlock.
Qed.
End Access.

Lemma inv_step s s' : inv s -> step s s' -> inv s'.
Proof.
  intros I St. destruct St as [i c lk T K Hc Ep Hlk|i c lk T K Hc Ep Hlk|i c lk l T K Hc Ep Hl|i c T K Hc Ep|i c T K Hc Ep|i c T K Hc Ep Hp|i c b T K Hc Ep Hn];
    try (destruct (i_core _ I i c Hc) as [Hok Hpc]; pose proof (noff_nonneg c Hok)).
  - destruct (pushed c Hok) as (E1 & E2 & E3). pose proof (k_noff c Hok) as K1. rewrite Ep in K1. cbn in K1.
    apply (inv_core T K I i c Hc); [|done|done|]; [|intros k; unfold named; cbn; rewrite Ep; naive_solver].
    split; cbn in *; try done; try lia. apply Hok.
  - apply (inv_core T K I i c Hc); [|done|done|]; [|intros k; unfold named; cbn; rewrite Ep; naive_solver].
    apply at_pc_ok; [done|by rewrite Ep|done].
  - by apply inv_access.
  - pose proof (k_noff c Hok) as K1. rewrite Ep in K1. cbn in K1. rewrite (popped c Run Hok) by lia.
    apply (inv_core T K I i c Hc); [|done|done|]; [|intros k; unfold named; cbn; rewrite Ep; naive_solver].
    split; cbn; try done; [lia| | |apply Hok]; intros; case_decide; try done; lia.
  - destruct (pushed c Hok) as (E1 & E2 & E3). pose proof (k_noff c Hok) as K1. rewrite Ep in K1. cbn in K1.
    apply (inv_core T K I i c Hc); [| |done|done]; [|unfold pc_ok; cbn; by rewrite Ep].
    split; cbn in *; rewrite ?Ep; try done; try (cbn; lia). apply Hok.
  - pose proof (k_noff c Hok) as K1. rewrite Ep in K1. cbn in K1. rewrite (popped c Run Hok) by lia.
    apply (inv_core T K I i c Hc); [|done|done|]; [|intros k; unfold named; cbn; rewrite Ep; naive_solver].
    split; cbn; try done; [lia| | |apply Hok]; intros; case_decide; try done; lia.
  - apply (inv_core T K I i c Hc); [|unfold pc_ok; cbn; by rewrite Ep|done|done].
    destruct Hok as [K1 K2 K3 K4 K5]. split; cbn; try done; lia.
Qed.

Lemma inv_start ncpu nlock : inv (start ncpu nlock).
Proof.
  split; cbn.
  - intros i c [-> _]%lookup_replicate. split; [|done]. split; cbn; try done. by constructor.
  - intros lk l [-> _]%lookup_replicate. cbn. split; [done|]. intros (i & c & [-> _]%lookup_replicate & H). by apply not_elem_of_nil in H.
  - intros i j c c' lk [-> _]%lookup_replicate _ H. by apply not_elem_of_nil in H.
  - intros i c lk l [-> _]%lookup_replicate [-> _]%lookup_replicate. cbn. unfold named. cbn. split; [done|]. intros [H _]. by apply not_elem_of_nil in H.
Qed.

Lemma inv_reach ncpu nlock s : rtc step (start ncpu nlock) s -> inv s.
Proof.
  intros H. remember (start ncpu nlock) as s0. assert (inv s0) as I by (subst; apply inv_start). clear Heqs0.
  induction H as [|s0 s1 s2 H1 _ IH]; [done|]. apply IH. by eapply inv_step.
Qed.

(** C11: the spin locks are right, for any number of processors and locks and
    any order of their memory accesses.  Two processors never own the same lock.
    While a processor owns a lock its interrupts are off; when it has returned
    from as many [release] and [pop_off] as [acquire] and [push_off], they are
    again as the code outside had set them.  [acquire] panics only for a lock
    that the processor owns, [release] only for one that it does not own, and
    [pop_off] never does. *)
Theorem spinlock_exclusion ncpu nlock s : rtc step (start ncpu nlock) s ->
  (forall i j c d lk, s_cores s !! i = Some c -> s_cores s !! j = Some d -> lk ∈ c_held c -> lk ∈ c_held d -> i = j) /\
  (forall i c, s_cores s !! i = Some c ->
     (c_held c <> [] -> c_intr c = false) /\ (c_pc c = Run -> c_held c = [] -> c_push c = 0%nat -> c_intr c = c_base c) /\
     (forall lk, c_pc c = PanicAcquire lk -> lk ∈ c_held c) /\ (forall lk, c_pc c = PanicRelease lk -> lk ∉ c_held c) /\ c_pc c <> PanicPop).
Proof.
  intros I%inv_reach. split; [apply (i_once _ I)|]. intros i c Hc. destruct (i_core _ I i c Hc) as [[K1 K2 K3 K4 K5] Hpc].
  split; [|split; [|split; [|split]]].
  - intros Hh. apply K2. destruct (c_held c); [done|]. cbn in K1. destruct (c_pc c); cbn in *; lia.
  - intros Ep Eh Epu. apply K3. rewrite K1, Ep, Eh, Epu. done.
  - intros lk Ep. unfold pc_ok in Hpc. by rewrite Ep in Hpc.
  - intros lk Ep. unfold pc_ok in Hpc. by rewrite Ep in Hpc.
  - done.
Qed.

(** ** Example: processor 0 owns the lock, processor 1 is spinning *)

Definition demo_locks : sys := Sys
  [Core false 1 false Run [0%nat] 0 false; Core false 1 false (AcqSpin 0) [] 0 false] [Lock true (Some 0%nat)].

Lemma demo_locks_reach : rtc step (start 2 1) demo_locks.
Proof.
  eapply rtc_l; [eapply (StAcquire 0 core0 0); [reflexivity..|cbn; lia]|]. cbn.
  eapply rtc_l; [eapply (StAcquire 1 core0 0); [reflexivity..|cbn; lia]|]. cbn.
  do 3 (eapply rtc_l; [eapply (StAccess 0); reflexivity|]; cbn).
  do 2 (eapply rtc_l; [eapply (StAccess 1); reflexivity|]; cbn).
  apply rtc_refl.
Qed.

Lemma spinlock_exclusion_witness :
  (forall i j c d lk, s_cores demo_locks !! i = Some c -> s_cores demo_locks !! j = Some d -> lk ∈ c_held c -> lk ∈ c_held d -> i = j) /\
  (forall i c, s_cores demo_locks !! i = Some c ->
     (c_held c <> [] -> c_intr c = false) /\ (c_pc c = Run -> c_held c = [] -> c_push c = 0%nat -> c_intr c = c_base c) /\
     (forall lk, c_pc c = PanicAcquire lk -> lk ∈ c_held c) /\ (forall lk, c_pc c = PanicRelease lk -> lk ∉ c_held c) /\ c_pc c <> PanicPop).
Proof. apply (spinlock_exclusion 2 1 demo_locks demo_locks_reach). Defined.
